(* ===== verification/_CoqProject ===== *)
-Q . S2P
Prelude.v
RowLock.v
StdSet.v
KeyTable.v
VersionChain.v
Ssi.v
RowSsi.v
Histories.v
RowWsi.v
Wsi.v
RowMvcc.v
RowTs.v
Maat.v
RowMaat.v
TxnTable.v
Manager.v
IndexHash.v
Loops.v
BTree.v
BTreeInv.v
BTreeSplit.v
BTreeFacts.v
BTreeNode.v
BTreeHeap.v
BTreeRefine.v
BTreeIndex.v
BTreeSpec.v
BubbleSort.v
Serial.v
Silo.v
SiloProtocol.v
Occ.v
OccProtocol.v
Sequencer.v
SequencerSpec.v
CalvinOrder.v
TwoPC.v
TwoPCSafety.v
TwoPCRuns.v
RowTictoc.v
Tictoc.v
Bocc.v
Focc.v
Wire.v
CArray.v
Message.v
QueryMessage.v
MessageBatch.v
RowData.v
TxnAccess.v
TxnUndo.v
TpccKeys.v
TpccQuery.v
TpccQueryFacts.v
TpccSchema.v
TpccTxn.v
TpccRuns.v
TpccSpec.v
TpccRefine.v
TpccEffects.v
TpccExample.v
CalvinExec.v
CalvinRendezvous.v
TpccCalvin.v
TpccCalvinFacts.v
TpccCalvinExample.v
