(* ===== verification/Prelude.v ===== *)
(** * Promi: a verification development of its transaction engine

    Promi (a fork of Deneva) is a distributed in-memory transaction engine in
    C++.  A worker thread takes a message, finds or creates the transaction
    manager of its transaction in the transaction table, gets a timestamp, and
    runs the stored procedure, which reads and writes rows through
    [TxnManager::get_row].  Each row owns a row manager of the concurrency
    control algorithm chosen at compile time; when the procedure is done a
    validator (for the optimistic algorithms) decides on commit or abort, and
    the accesses are returned to their rows.  This development models the
    concurrency control and the state around it, file by file, and proves what
    makes it correct; where the code does something else, a theorem about the
    code as it is says what.

    ** Conventions

    [uint64_t] and [uint32_t] values are [Z]; where the code adds or subtracts,
    the wrap-around is written out with [wrap64] and [wrap32].  A failed
    [assert] or a null pointer that is followed is [AssertFail] in the monad
    [res], and total-correctness theorems say when it cannot happen.  Linked
    lists are lists in the direction the code walks them.  Row latches, the
    bucket mutexes of the hash tables and the spin bits of the transaction
    table make each operation atomic, so interleavings are sequences of
    operations: step relations and their reflexive transitive closures.  Silo
    takes a latch per row access and is interleaved at that grain.
    Statistics, clocks, debug output and allocation are left out; what the code
    obtains from them (wall-clock times, recycling thresholds, fresh objects)
    is an argument.  Properties named [..._witness] apply a theorem to a
    concrete state.

    ** Files

    - [Prelude] (this file): integers, [res], the enumerations of
      system/global.h, the part of [TxnManager] that all managers read,
      tactics and generic lemmas.
    - [RowLock]: concurrency_control/row_lock.cpp, two-phase locking with
      NO_WAIT, WAIT_DIE or CALVIN.  [lock_get] and [lock_release] with their
      loops ([canwait_scan], [insert_waiter], [promote]).  Two holders of a row
      are both shared; the head of the queue always conflicts with the lock in
      force (no lost wakeup); the outcomes of both operations; under WAIT_DIE
      the waits-for relation over a database of rows is acyclic.
    - [StdSet], [KeyTable]: [std::set] as a sorted list, and the chained hash
      table that ssi.cpp and maat.cpp share, verified against the class
      [KeyTable]; the managers are proved against the class.
    - [VersionChain], [Histories]: the version and read histories of the
      multi-version row managers: insertion in timestamp order, lookup of a
      version, recycling below a threshold and its effect on later reads.
    - [Ssi], [RowSsi]: ssi.cpp and row_ssi.cpp.  The conflict table and
      [ssi::validate]; row accesses, SI-read locks, snapshot reads and their
      stability under recycling, the conflicts that reads and prewrites record,
      the outcome of a prewrite.  As the code stands the home validation never
      aborts ([ssi_validate_vacuous]: no entry is ever created for the
      transactions), and a prewrite that aborts leaves its write lock behind.
    - [RowWsi], [Wsi]: row_wsi.cpp and wsi.cpp.  Snapshot reads; what
      validation and completion do, and that validation always succeeds.
    - [RowMvcc]: row_mvcc.cpp.  Timestamp order: every read returns the last
      committed version below its timestamp, now and after all later steps; no
      lost wakeup of buffered reads; the conflict test.
    - [RowTs]: row_ts.cpp, timestamp ordering with buffered requests; it refines
      a specification of the order of requests; read-write conflicts are served
      in timestamp order; a buffered write blocks for ever once passed over, and
      a write can be lost.  The loop of [update_buffer] has fuel one above the
      number of pending prewrites: every round but the last removes one.
    - [Maat], [RowMaat]: maat.cpp and row_maat.cpp.  Dynamic intervals: what
      validation guarantees of the interval of a transaction and of those it
      conflicts with, commit timestamps, the conflicts that rows record, and a
      run in which two writes end in the wrong order.
    - [TxnTable], [Manager]: txn_table.cpp and manager.cpp (with
      [WorkerThread::get_next_ts]).  The table is a map; the smallest active
      timestamp is below every registered transaction's; uniqueness of counter
      timestamps with per-worker batches; when clock timestamps are unique; the
      recycling threshold, and the race in its registration.
    - [IndexHash]: storage/index_hash.cpp refines a map from keys to chains of
      rows; what a reset frees.
    - [Loops]: C arrays with bounds, counted loops and their rules, shared by
      the code that works on arrays.
    - [BTree] to [BTreeSpec]: storage/index_btree.cpp on a heap of nodes with
      parent and sibling pointers.  [BTree] is the code; [BTreeInv],
      [BTreeSplit] and [BTreeFacts] the shape of a tree, the steps that change
      it and what it implies; [BTreeNode] and [BTreeHeap] relate arrays and heap
      to it; [BTreeRefine], [BTreeIndex] and [BTreeSpec] conclude: insertions
      never fail and the index is a map per partition, scans are ordered,
      searches take at most the logarithm of the number of nodes, the untyped
      slots are well typed.  Walks up and down a tree have fuel one above the
      number of nodes, more than the height; the array [ex_list] of 100 nodes
      suffices while addresses are below [2 ^ 64].
    - [BubbleSort], [Serial]: the sorting loops that silo.cpp and occ.cpp share,
      and the serial execution of committed transactions against which their
      protocols are proved.
    - [Silo], [SiloProtocol]: silo.cpp, row_silo.cpp and the Silo branch of
      [TxnManager::validate].  Validation and completion of one transaction;
      the refinement of the code to a protocol whose steps interleave row by
      row; serializability of the protocol for any number of transactions, in
      the order of the lock points, given commit TIDs above those seen; and the
      lost update that the TIDs of the code allow.
    - [Occ], [OccProtocol]: occ.cpp, row_occ.cpp and the completion path of
      [TxnManager::cleanup].  What central and per-row validation accept; that
      latching rows in sorted order cannot deadlock; serializability of the
      interleaved protocol in the configuration for TPCC, and the histories that
      it accepts wrongly otherwise.
    - [Sequencer], [SequencerSpec], [CalvinOrder]: sequencer.cpp, the scheduler
      queues of work_queue.cpp and the loop of calvin_thread.cpp.  The wait
      lists refine a map of pending transactions; over all nodes and channels,
      every scheduler hands out what touches its node of one global order, and
      any two agree on the transactions they share.
    - [TwoPC], [TwoPCSafety], [TwoPCRuns]: the commit path of txn.cpp
      ([start_commit], [send_prepare_messages], [send_finish_messages],
      [commit], [abort], [release_locks]) and the handlers of worker_thread.cpp
      for prepare, finish and their answers, as one monadic program, and a
      cluster of nodes with a network that steps through it.  Participants never
      disagree and commit only when all voted so; the answer of the client tells
      the truth; with a fair network every transaction finishes; runs in which a
      lost abort answer, a read-only transaction and TicToc leave rows locked.
    - [RowTictoc], [Tictoc]: row_tictoc.cpp, tictoc.cpp and the TicToc parts of
      txn.cpp and row.cpp.  [validate_coor] accepts a commit timestamp inside
      the leases of its reads and after those of its writes, and otherwise lets
      go of its rows; what [commit] installs; the invariant of rows under
      wait-die and the absence of waiting cycles; runs in which the answer of
      [write] is lost, a reader overwrites a newer version, and an abort keeps
      its locks.
    - [Bocc], [Focc]: bocc.cpp and focc.cpp, backward and forward validation,
      with what they accept and the conflicts they miss.
    - [Wire], [CArray]: the macros [COPY_BUF] and [COPY_VAL] of system/helper.h
      on buffers of bytes, object representations with their laws, and a
      calculus of writing and reading; [Array<T>] of system/array.h.
    - [Message], [QueryMessage]: transport/message.cpp.  [get_size],
      [copy_to_buf] and [copy_from_buf] of every class outside of the merge
      conflicts, for every value of [CC_ALG] and [WORKLOAD] (class [Config]);
      each class is an instance of [MessageClass] and of its laws
      [MessageLaws], which state the wire format and the round trip.
    - [MessageBatch]: [create_message], [create_messages], and the sending
      thread of msg_thread.cpp.  Round trips of all classes; the thread refines
      a queue per destination; log messages cannot be sent.
    - [RowData]: catalog.cpp, table.cpp and the data of row.cpp.  Columns lie
      apart in a tuple, so they are independent variables.
    - [TxnAccess], [TxnUndo]: the access list of txn.cpp ([get_row],
      [get_row_post_wait], [insert_row], [get_lock], [cleanup_row], [cleanup])
      and the dispatch per algorithm of row.cpp, on rows in a heap.  Under
      NO_WAIT and WAIT_DIE an abort restores every row that was written under a
      WR access, frees the inserts and gives back the locks.
    - [TpccKeys], [TpccQuery], [TpccQueryFacts]: tpcc_helper.cpp and
      tpcc_query.cpp.  Keys are different for different rows; random numbers lie
      in their ranges; the three computations of the participants of a query
      agree; what a generated query looks like.  Loops that draw until a value
      fits have fuel; [redraw_finds] says when it is enough.
    - [TpccSchema], [TpccTxn], [TpccRuns]: the tables of TPCC_short_schema.txt
      and tpcc_txn.cpp, payment and new order as a state machine over the
      access list, with requests to other nodes.  The loop of [run_txn] ends
      after at most seven rounds and four for each item.
    - [TpccSpec], [TpccRefine], [TpccEffects], [TpccExample]: what the two
      transactions do to a database, as pure functions of its rows; the
      simulation between the access list and a database; the proof that
      [run_txn] implements them under two-phase locking; a concrete database.
    - [CalvinExec], [CalvinRendezvous]: the phases of a transaction under Calvin
      ([run_calvin_txn], the forwarded reads, [calvin_wrapup]) over any stored
      procedure, and the participants of one transaction with a network that
      delivers in any order.  Nobody writes before all have read; nobody waits
      for ever.  The loop of [run_calvin_txn] has six rounds, one for each phase.
    - [TpccCalvin], [TpccCalvinFacts], [TpccCalvinExample]: [acquire_locks],
      [run_tpcc_phase2] and [run_tpcc_phase5] of tpcc_txn.cpp.  A transaction
      starts once, when its last lock is granted; a payment locks what it
      accesses and each node makes its part of the specified writes; a new order
      fails in phase 5.

    ** How the parts meet

    A transaction's entry in the table ([TxnTable]) carries the timestamp that
    [Manager] allocated; the minimum over the table is the threshold [t_th]
    that the accesses of [RowMvcc], [RowSsi] and [RowWsi] take as an argument
    and pass to [Histories]; the theorems on snapshot reads assume of the
    threshold what [txn_table_min_ts_safe] proves of registered transactions.
    [RowLock] hands the transactions to restart to [restart_txn] of the table.
    [RowSsi] updates the conflict table of [Ssi] and [RowMaat] the time table
    of [Maat], both through the [KeyTable] interface.  [Wsi] reads and
    updates rows of [RowWsi].  [MessageBatch] dispatches on the classes of
    [Message] and [QueryMessage] and is proved against [MessageLaws] alone.
    [TwoPC] takes the decision of the local validator (of [Occ], [Silo], [Maat],
    [Tictoc] and the others) as an argument: it is what those files prove.
    [TpccTxn] runs on [TxnAccess], which runs on [RowData]; the answers of the
    row managers ([RowLock], [RowMvcc] and the others) are an argument of a run,
    the indexes ([IndexHash], [BTreeIndex]) the class [RowIndex], and the end of
    a run is the [start_commit] or [start_abort] of [TwoPC].  Under Calvin the
    messages that [CalvinOrder] hands out go to [lock_and_enqueue] of
    [TpccCalvin], whose grants are those of [RowLock]; [CalvinExec] then runs the
    phases of [TpccCalvin], and its acknowledgements go to [process_ack] of
    [Sequencer].

    ** What is not modelled

    The files with unresolved merge conflicts (I/O threads and most of the worker threads,
    transport, migration with its messages, parts of txn.cpp), since the source
    does not determine one program there; the WOOKONG, DTA and DLI managers,
    the work queues of the other algorithms,
    variants of what is modelled for [Maat] and [RowMvcc] and left for later;
    of the benchmarks the loaders, PPS, and
    YCSB, whose files contain merge conflicts; and clients,
    statistics, logging, configuration and vendored code, which carry no logic
    of the engine.  Within the modelled files: the PPS
    branches of the sequencer, which do not compile under Calvin; latching of the B-tree (off in
    config.h), [DEBUG_ASSERT] code, and the loads of the list heads of focc.cpp
    outside of their critical section. *)

From stdpp Require Import base tactics numbers list gmap sorting relations.
From Stdlib Require Import ZArith Lia.

#[local] Open Scope Z_scope.

(** ** Machine integers

    [uint64_t] and [uint32_t] values are [Z] with the wrap-around written
    out where the code adds or subtracts. *)

Declare Scope u64_scope.
Delimit Scope u64_scope with u64.

Definition UINT64_MAX : Z := 18446744073709551615.
Definition wrap64 (z : Z) : Z := z mod 18446744073709551616.
Definition wrap32 (z : Z) : Z := z mod 4294967296.

Definition is_u64 (z : Z) : Prop := 0 <= z <= UINT64_MAX.

Notation "x ⊕ y" := (wrap64 (x + y)) (at level 50, left associativity) : u64_scope.
Notation "x ⊖ y" := (wrap64 (x - y)) (at level 50, left associativity) : u64_scope.

(** ** Error monad

    A failed [assert] stops the process: operations that contain one return
    [AssertFail] on that path. *)

Inductive res (A : Type) : Type :=
| Ok (a : A)
| AssertFail.
Arguments Ok {A} a.
Arguments AssertFail {A}.

#[global] Instance res_ret : MRet res := fun A a => Ok a.
#[global] Instance res_bind : MBind res := fun A B f m =>
  match m with
  | Ok a => f a
  | AssertFail => AssertFail
  end.

Definition assert_ (b : bool) : res unit := if b then Ok tt else AssertFail.

Declare Scope res_scope.
Delimit Scope res_scope with res.
Notation "'assert!' b ; k" := (mbind (fun _ : unit => k) (assert_ b))
  (at level 20, b at level 100, k at level 200) : res_scope.
#[global] Open Scope res_scope.

(** ** Shared enumerations *)

(** [enum RC] of system/global.h; [NONE] is [RC_NONE] here. *)
Inductive RC := RCOK | Commit | Abort | WAIT | WAIT_REM | ERROR | FINISH | RC_NONE.
(** [enum access_t]. *)
Inductive access_t := RD | WR | XP | SCAN.
(** [enum lock_t]. *)
Inductive lock_t := LOCK_EX | LOCK_SH | LOCK_NONE.
(** [enum TsType]. *)
Inductive TsType := R_REQ | W_REQ | P_REQ | XP_REQ.

#[global] Instance RC_eq_dec : EqDecision RC.
Proof. solve_decision. Defined.
#[global] Instance access_t_eq_dec : EqDecision access_t.
Proof. solve_decision. Defined.
#[global] Instance lock_t_eq_dec : EqDecision lock_t.
Proof. solve_decision. Defined.
#[global] Instance TsType_eq_dec : EqDecision TsType.
Proof. solve_decision. Defined.

(** ** Automation *)

Create HintDb promi.

(** Case analysis on the boolean comparisons of the code. *)
Ltac bool_to_Z :=
  repeat match goal with
  | H : (_ <? _) = true |- _ => apply Z.ltb_lt in H
  | H : (_ <? _) = false |- _ => apply Z.ltb_ge in H
  | H : (_ <=? _) = true |- _ => apply Z.leb_le in H
  | H : (_ <=? _) = false |- _ => apply Z.leb_gt in H
  | H : (_ =? _) = true |- _ => apply Z.eqb_eq in H
  | H : (_ =? _) = false |- _ => apply Z.eqb_neq in H
  | H : negb _ = true |- _ => apply negb_true_iff in H
  | H : negb _ = false |- _ => apply negb_false_iff in H
  | H : (_ && _)%bool = true |- _ => apply andb_true_iff in H as [? ?]
  | H : (_ || _)%bool = false |- _ => apply orb_false_iff in H as [? ?]
  end.

(** Split on every [if] and [match] of the goal, then close the arithmetic
    that the tests decide. *)
Ltac case_tests :=
  repeat (case_match; try discriminate); bool_to_Z; simplify_eq; try lia.

(** Invert a computation of the error monad that returned. *)
Ltac res_inv :=
  repeat match goal with
  | H : mbind _ ?m = Ok _ |- _ => destruct m eqn:?; cbn in H; [|discriminate H]
  | H : mret _ = Ok _ |- _ => injection H as H
  | H : Ok _ = Ok _ |- _ => injection H as H
  | H : assert_ ?b = Ok _ |- _ =>
      destruct b eqn:?; cbn in H; [clear H | discriminate H]
  end.

(** ** Wrap-around arithmetic *)

Lemma wrap64_small z : 0 <= z <= UINT64_MAX -> wrap64 z = z.
Proof. unfold wrap64, UINT64_MAX. intros. apply Z.mod_small. lia. Qed.

Lemma wrap64_range z : 0 <= wrap64 z <= UINT64_MAX.
Proof. unfold wrap64, UINT64_MAX. pose proof (Z.mod_pos_bound z 18446744073709551616). lia. Qed.

Lemma wrap32_small z : 0 <= z < 4294967296 -> wrap32 z = z.
Proof. intros. apply Z.mod_small. lia. Qed.

#[export] Hint Resolve wrap64_range : promi.

(** ** Transactions

    The part of [TxnManager] (system/txn.h) that the concurrency-control
    managers read.  [tm_ptr] is the object identity, which the code compares
    when it compares [TxnManager *] pointers; the other fields are what
    [get_txn_id], [get_timestamp], [get_start_timestamp],
    [get_commit_timestamp] and [isRecon] return. *)
Record TxnManager := mkTxn {
  tm_ptr : Z;
  tm_txn_id : Z;
  tm_timestamp : Z;
  tm_start_timestamp : Z;
  tm_commit_timestamp : Z;
  tm_recon : bool;
}.

#[global] Instance TxnManager_eq_dec : EqDecision TxnManager.
Proof. solve_decision. Defined.

(** ** Functions updated at one argument

    Stores of rows and families of transactions are functions. *)

Definition fset {A B} `{EqDecision A} (a : A) (b : B) (f : A -> B) : A -> B :=
  fun x => if decide (x = a) then b else f x.

Lemma fset_eq {A B} `{EqDecision A} (a : A) (b : B) (f : A -> B) : fset a b f a = b.
Proof. unfold fset. by rewrite decide_True. Qed.

Lemma fset_ne {A B} `{EqDecision A} (a : A) (b : B) (f : A -> B) x : x <> a -> fset a b f x = f x.
Proof. intros. unfold fset. by rewrite decide_False. Qed.

(** A view of the values that an update does not change. *)
Lemma fset_view {A B C} `{EqDecision A} (v : B -> C) (a : A) (b : B) (f : A -> B) x :
  v b = v (f a) -> v (fset a b f x) = v (f x).
Proof. intros H. unfold fset. case_decide; [by subst|done]. Qed.

(** ** Sorted lists *)

Lemma Forall_impl_In {A} (P Q : A -> Prop) l :
  Forall P l -> (forall x, x ∈ l -> P x -> Q x) -> Forall Q l.
Proof. rewrite !Forall_forall. eauto. Qed.

Lemma StronglySorted_lookup {A} (R : A -> A -> Prop) l i j x y :
  StronglySorted R l -> (i < j)%nat -> l !! i = Some x -> l !! j = Some y -> R x y.
Proof.
  intros Hs Hij Hx Hy. rewrite <- (take_drop j l) in Hs.
  apply (StronglySorted_app_1_elem_of _ _ _ _ _ Hs).
  - apply list_elem_of_lookup. exists i. by rewrite lookup_take_lt.
  - apply list_elem_of_lookup. exists 0%nat. by rewrite lookup_drop, Nat.add_0_r.
Qed.

Lemma StronglySorted_impl {A} (R S : A -> A -> Prop) l :
  (forall x y, R x y -> S x y) -> StronglySorted R l -> StronglySorted S l.
Proof.
  intros HRS. induction 1 as [|x l _ IH Hx]; constructor; [done|].
  eapply Forall_impl; [exact Hx|]. apply HRS.
Qed.

(** Reachability induction: an invariant of the initial state that every step
    preserves holds in every reachable state. *)
Lemma rtc_invariant {A} (R : A -> A -> Prop) (I : A -> Prop) x y :
  I x -> (forall a b, I a -> R a b -> I b) -> rtc R x y -> I y.
Proof. intros Hx Hstep. induction 1; eauto. Qed.

(** A relation that increases a measure has no cycle. *)
Lemma tc_increasing {A} (R : A -> A -> Prop) (f : A -> Z) x y :
  (forall a b, R a b -> f a < f b) -> tc R x y -> f x < f y.
Proof.
  intros Hinc. induction 1 as [a b Hab|a b c Hab _ IH]; [auto|].
  specialize (Hinc _ _ Hab). lia.
Qed.

Lemma not_nil_elem {A} (l : list A) : l <> [] <-> exists x, x ∈ l.
Proof.
  destruct l as [|a l]; [set_solver|]. split; [|done]. intros _. exists a. by left.
Qed.
