(* ===== verification/RowLock.v ===== *)
(** * Row_lock: the two-phase-locking row manager

    Model of concurrency_control/row_lock.cpp for the three algorithms its
    first assertion admits (NO_WAIT, WAIT_DIE and CALVIN).  The linked lists
    of lock entries are lists: [owners] is the single bucket of the owner
    table ([init] sets [owners_size = 1], so [hash] is constantly 0), pushed
    at the head; [waiters] runs from [waiters_head] to [waiters_tail].  The
    flags [lock_ready] and [lock_ready_cnt] live in the transactions, which
    other rows share, so they are a store indexed by the transaction object.
    Latches, statistics, clocks and the allocator are not modelled: each
    operation runs under the row latch and is one atomic step. *)

From stdpp Require Import gmap list sorting relations.
From S2P Require Import Prelude.
#[local] Open Scope Z_scope.

Inductive CC_2PL := NO_WAIT | WAIT_DIE | CALVIN.
#[global] Instance CC_2PL_eq_dec : EqDecision CC_2PL.
Proof. solve_decision. Defined.

Record LockEntry := mkEntry { le_type : lock_t; le_txn : TxnManager }.
#[global] Instance LockEntry_eq_dec : EqDecision LockEntry.
Proof. solve_decision. Defined.

Record Row_lock := mkRowLock {
  lock_type : lock_t;
  owner_cnt : Z;
  waiter_cnt : Z;
  owners : list LockEntry;
  waiters : list LockEntry;
  max_owner_ts : Z;
}.

(** The fields of [TxnManager] that the lock manager writes. *)
Record LockFlags := mkFlags { lock_ready : bool; lock_ready_cnt : Z }.

(** What an operation leaves behind: the row, the flags of all transactions
    and the transactions handed to [txn_table.restart_txn], oldest first. *)
Record LockState := mkLS {
  ls_row : Row_lock;
  ls_flags : gmap Z LockFlags;
  ls_restarted : list Z;
}.

Definition init : Row_lock := mkRowLock LOCK_NONE 0 0 [] [] 0.

Definition flags_of (fl : gmap Z LockFlags) (t : TxnManager) : LockFlags :=
  default (mkFlags false 0) (fl !! tm_ptr t).

(** [ATOM_CAS(txn->lock_ready, 1, 0)] followed by [txn->incr_lr()]. *)
Definition cas_not_ready_incr_lr (fl : gmap Z LockFlags) (t : TxnManager)
    : gmap Z LockFlags :=
  <[tm_ptr t := mkFlags false (wrap32 (lock_ready_cnt (flags_of fl t) + 1))]> fl.

Definition conflict_lock (l1 l2 : lock_t) : bool :=
  if bool_decide (l1 = LOCK_NONE) || bool_decide (l2 = LOCK_NONE) then false
  else if bool_decide (l1 = LOCK_EX) || bool_decide (l2 = LOCK_EX) then true
  else false.

(** The scan over the owners that decides whether a WAIT_DIE requester may
    wait, with the two assertions of its body. *)
Fixpoint canwait_scan (t : TxnManager) (os : list LockEntry) : res bool :=
  match os with
  | [] => Ok true
  | en :: os' =>
      assert! negb (tm_txn_id t =? tm_txn_id (le_txn en));
      assert! negb (tm_timestamp t =? tm_timestamp (le_txn en));
      if tm_timestamp (le_txn en) <? tm_timestamp t then Ok false
      else canwait_scan t os'
  end.

(** Skip the waiters with a larger timestamp, then [LIST_INSERT_BEFORE] the
    first other one, or [LIST_PUT_TAIL]. *)
Fixpoint insert_waiter (e : LockEntry) (ws : list LockEntry) : list LockEntry :=
  match ws with
  | [] => [e]
  | en :: ws' =>
      if tm_timestamp (le_txn e) <? tm_timestamp (le_txn en)
      then en :: insert_waiter e ws'
      else e :: en :: ws'
  end.

(** The value of the local [conflict] when [lock_get] branches on it. *)
Definition get_conflict (alg : CC_2PL) (ty : lock_t) (t : TxnManager)
    (r : Row_lock) : bool :=
  if conflict_lock (lock_type r) ty then true
  else match alg, waiters r with
       | WAIT_DIE, w :: _ => tm_timestamp t <? tm_timestamp (le_txn w)
       | CALVIN, _ :: _ => true
       | _, _ => false
       end.

Definition enqueue_waiter (ws : list LockEntry) (r : Row_lock) : Row_lock :=
  mkRowLock (lock_type r) (owner_cnt r) (wrap32 (waiter_cnt r + 1)) (owners r) ws
    (max_owner_ts r).

(** Owner bookkeeping shared by the immediate grant and the promotion loop:
    [STACK_PUSH] (not for NO_WAIT), [owner_cnt], [max_owner_ts], [lock_type]. *)
Definition add_owner (alg : CC_2PL) (e : LockEntry) (r : Row_lock) : Row_lock :=
  mkRowLock (le_type e) (wrap32 (owner_cnt r + 1)) (waiter_cnt r)
    (if bool_decide (alg = NO_WAIT) then owners r else e :: owners r)
    (waiters r)
    (if max_owner_ts r <? tm_timestamp (le_txn e)
     then tm_timestamp (le_txn e) else max_owner_ts r).

Definition lock_get (alg : CC_2PL) (ty : lock_t) (t : TxnManager) (s : LockState)
    : res (RC * LockState) :=
  let r := ls_row s in
  let e := mkEntry ty t in
  if get_conflict alg ty t r then
    match alg with
    | NO_WAIT => Ok (Abort, s)
    | WAIT_DIE =>
        canwait ← canwait_scan t (owners r);
        if canwait : bool then
          Ok (WAIT, mkLS (enqueue_waiter (insert_waiter e (waiters r)) r)
                         (cas_not_ready_incr_lr (ls_flags s) t) (ls_restarted s))
        else Ok (Abort, s)
    | CALVIN =>
        Ok (WAIT, mkLS (enqueue_waiter (waiters r ++ [e]) r)
                       (cas_not_ready_incr_lr (ls_flags s) t) (ls_restarted s))
    end
  else
    assert! (negb (0 <? owner_cnt r) || bool_decide (ty = LOCK_SH));
    Ok (RCOK, mkLS (add_owner alg e r) (ls_flags s) (ls_restarted s)).

(** [owner_cnt--], and [lock_type = LOCK_NONE] when it reaches 0. *)
Definition drop_owner (os : list LockEntry) (r : Row_lock) : Row_lock :=
  let c := wrap32 (owner_cnt r - 1) in
  mkRowLock (if c =? 0 then LOCK_NONE else lock_type r) c (waiter_cnt r) os
    (waiters r) (max_owner_ts r).

(** Unlink the first owner entry of the transaction object. *)
Fixpoint remove_owner (t : TxnManager) (os : list LockEntry)
    : option (list LockEntry) :=
  match os with
  | [] => None
  | en :: os' =>
      if tm_ptr (le_txn en) =? tm_ptr t then Some os'
      else option_map (cons en) (remove_owner t os')
  end.

(** One iteration's effect on the promoted transaction:
    [ASSERT(lock_ready == false)], [decr_lr], and when the counter is 0 the
    compare-and-swap that restarts it. *)
Definition ready_waiter (t : TxnManager) (s : LockState) : res LockState :=
  let f := flags_of (ls_flags s) t in
  assert! negb (lock_ready f);
  let c := wrap32 (lock_ready_cnt f - 1) in
  Ok (if c =? 0
      then mkLS (ls_row s) (<[tm_ptr t := mkFlags true c]> (ls_flags s))
                (ls_restarted s ++ [tm_txn_id t])
      else mkLS (ls_row s) (<[tm_ptr t := mkFlags false c]> (ls_flags s))
                (ls_restarted s)).

(** [while (waiters_head && !conflict_lock(lock_type, waiters_head->type))]:
    the recursion is on the waiter list, one [LIST_GET_HEAD] per turn. *)
Fixpoint promote (alg : CC_2PL) (ws : list LockEntry) (s : LockState)
    : res LockState :=
  match ws with
  | [] => Ok s
  | e :: ws' =>
      let r := ls_row s in
      if conflict_lock (lock_type r) (le_type e) then Ok s
      else
        let r1 := mkRowLock (lock_type r) (owner_cnt r) (wrap32 (waiter_cnt r - 1))
                    (owners r) ws' (max_owner_ts r) in
        s' ← ready_waiter (le_txn e)
               (mkLS (add_owner alg e r1) (ls_flags s) (ls_restarted s));
        promote alg ws' s'
  end.

Definition lock_release (alg : CC_2PL) (t : TxnManager) (s : LockState)
    : res (RC * LockState) :=
  if bool_decide (alg = CALVIN) && tm_recon t then Ok (RCOK, s)
  else
    let r := ls_row s in
    r1 ← match alg with
         | NO_WAIT =>
             assert! (0 <? owner_cnt r);
             Ok (drop_owner (owners r) r)
         | _ =>
             match remove_owner t (owners r) with
             | Some os => Ok (drop_owner os r)
             | None => AssertFail
             end
         end;
    assert! (negb (owner_cnt r1 =? 0) || bool_decide (lock_type r1 = LOCK_NONE));
    s' ← promote alg (waiters r1) (mkLS r1 (ls_flags s) (ls_restarted s));
    Ok (RCOK, s').

(** ** Invariant

    [H] is the list of the transactions that hold the lock, newest first.
    NO_WAIT keeps only their number, the other algorithms keep the entries:
    [row_wf] relates the concrete fields to [H]. *)

Definition ptr_of (e : LockEntry) : Z := tm_ptr (le_txn e).
Definition ts_of (e : LockEntry) : Z := tm_timestamp (le_txn e).

Record row_wf0 (alg : CC_2PL) (r : Row_lock) (H : list LockEntry) : Prop := {
  wf_owners : owners r = if bool_decide (alg = NO_WAIT) then [] else H;
  wf_cnt : owner_cnt r = Z.of_nat (length H);
  wf_wcnt : waiter_cnt r = Z.of_nat (length (waiters r));
  wf_bound : Z.of_nat (length H + length (waiters r)) < 4294967296;
  wf_none : lock_type r = LOCK_NONE <-> H = [];
  wf_types : Forall (fun e => le_type e = lock_type r) H;
  wf_ex : lock_type r = LOCK_EX -> length H = 1%nat;
  wf_wtypes : Forall (fun e => le_type e <> LOCK_NONE) (waiters r);
  wf_nodup : NoDup (ptr_of <$> H ++ waiters r);
  wf_nowait : alg = NO_WAIT -> waiters r = [];
  wf_sorted : alg = WAIT_DIE -> StronglySorted (fun a b => ts_of b < ts_of a) (waiters r);
  wf_waitdie : alg = WAIT_DIE ->
    forall w o, w ∈ waiters r -> o ∈ H -> ts_of w < ts_of o;
}.

(** No lost wakeup: whoever is first in the queue cannot be granted. *)
Definition head_blocked (r : Row_lock) : Prop :=
  match waiters r with
  | [] => True
  | w :: _ => conflict_lock (lock_type r) (le_type w) = true
  end.

Definition row_wf (alg : CC_2PL) (r : Row_lock) (H : list LockEntry) : Prop :=
  row_wf0 alg r H /\ head_blocked r.

(** Every waiter is marked not ready and has a positive counter. *)
Definition flags_ok (fl : gmap Z LockFlags) (ws : list LockEntry) : Prop :=
  Forall (fun w => lock_ready (flags_of fl (le_txn w)) = false /\
                   1 <= lock_ready_cnt (flags_of fl (le_txn w)) < 4294967296) ws.

(** A transaction that may request the lock: it is not in this row's lists
    and its id and timestamp differ from theirs. *)
Definition fresh_txn (t : TxnManager) (es : list LockEntry) : Prop :=
  Forall (fun e => tm_ptr t <> ptr_of e /\ tm_txn_id t <> tm_txn_id (le_txn e) /\
                   tm_timestamp t <> ts_of e) es.

(** Two lock requests are compatible when neither is exclusive. *)
Definition holders_compatible (H : list LockEntry) : Prop :=
  forall i j a b, i <> j -> H !! i = Some a -> H !! j = Some b ->
    le_type a = LOCK_SH /\ le_type b = LOCK_SH.

Lemma conflict_lock_false l1 l2 :
  l2 <> LOCK_NONE -> conflict_lock l1 l2 = false ->
  l1 = LOCK_NONE \/ (l1 = LOCK_SH /\ l2 = LOCK_SH).
Proof. destruct l1, l2; cbv; intuition congruence. Qed.

Lemma conflict_lock_none l : conflict_lock LOCK_NONE l = false.
Proof. reflexivity. Qed.

Lemma elem_of_insert_waiter e ws x : x ∈ insert_waiter e ws <-> x = e \/ x ∈ ws.
Proof.
  induction ws as [|w ws IH]; cbn; [set_solver|].
  case_match; rewrite !elem_of_cons, ?IH; tauto.
Qed.

Lemma insert_waiter_perm e ws : insert_waiter e ws ≡ₚ e :: ws.
Proof.
  induction ws as [|w ws IH]; cbn; [done|].
  case_match; [rewrite IH; constructor | done].
Qed.

Lemma insert_waiter_sorted e ws :
  StronglySorted (fun a b => ts_of b < ts_of a) ws ->
  Forall (fun w => ts_of e <> ts_of w) ws ->
  StronglySorted (fun a b => ts_of b < ts_of a) (insert_waiter e ws).
Proof.
  induction ws as [|w ws IH]; intros Hs Hne; cbn; [by repeat constructor|].
  apply StronglySorted_inv in Hs as [Hs Hw]. inversion Hne as [|? ? Hew Hne']; subst.
  case_match; bool_to_Z.
  - constructor; [by apply IH|]. apply Forall_forall. intros x.
    rewrite elem_of_insert_waiter. intros [->|Hx]; [done|].
    by eapply Forall_forall in Hx; [|exact Hw].
  - assert (ts_of w < ts_of e) by (unfold ts_of in *; lia).
    repeat constructor; auto.
    eapply Forall_impl; [exact Hw|]. cbn. lia.
Qed.

Lemma insert_waiter_head e ws :
  match insert_waiter e ws with
  | [] => False
  | h :: _ => (h = e /\ match ws with [] => True | w :: _ => ts_of w <= ts_of e end)
              \/ exists ws', ws = h :: ws'
  end.
Proof.
  destruct ws as [|w ws]; cbn; [auto|]. unfold ts_of.
  destruct (Z.ltb_spec (tm_timestamp (le_txn e)) (tm_timestamp (le_txn w))); eauto.
Qed.

Lemma canwait_scan_spec t os :
  fresh_txn t os ->
  canwait_scan t os = Ok (forallb (fun o => tm_timestamp t <? ts_of o) os).
Proof.
  induction 1 as [|o os (Hp & Hi & Ht) Hf IH]; cbn; [done|].
  rewrite (proj2 (Z.eqb_neq _ _) Hi). unfold ts_of in *.
  rewrite (proj2 (Z.eqb_neq _ _) Ht). cbn.
  destruct (Z.ltb_spec (tm_timestamp (le_txn o)) (tm_timestamp t)).
  - rewrite (proj2 (Z.ltb_ge _ _)) by lia. done.
  - rewrite (proj2 (Z.ltb_lt (tm_timestamp t) _)) by lia. done.
Qed.

Lemma forallb_older_spec t os :
  forallb (fun o => tm_timestamp t <? ts_of o) os = true <->
  Forall (fun o => tm_timestamp t < ts_of o) os.
Proof.
  rewrite forallb_forall, Forall_forall. setoid_rewrite list_elem_of_In.
  split; intros H x Hx; specialize (H x Hx); by apply Z.ltb_lt.
Qed.

(** ** Preservation *)

Lemma row_wf0_init alg : row_wf0 alg init [].
Proof.
  constructor; cbn; try done; try constructor.
  - by case_bool_decide.
  - intros _ w o Hw%not_elem_of_nil. done.
Qed.

(** Granting a compatible request. *)
Lemma add_owner_wf alg e r H ws :
  row_wf0 alg r H -> waiters r = ws ->
  le_type e <> LOCK_NONE ->
  conflict_lock (lock_type r) (le_type e) = false ->
  NoDup (ptr_of <$> (e :: H) ++ ws) ->
  Z.of_nat (S (length H) + length ws) < 4294967296 ->
  (alg = WAIT_DIE -> Forall (fun w => ts_of w < ts_of e) ws) ->
  row_wf0 alg (add_owner alg e r) (e :: H).
Proof.
  intros W <- Hty Hcf Hnd Hb Hts. destruct W. destruct (conflict_lock_false _ _ Hty Hcf) as [Hn|[Hs Hse]].
  - apply wf_none0 in Hn as ->. constructor; cbn in *; rewrite ?wf_cnt0; auto.
    + rewrite wf_owners0. by case_bool_decide.
    + split; [intros; congruence|done].
    + intros Hw w o Hi [->|Ho%not_elem_of_nil]%elem_of_cons; [|done].
      by eapply Forall_forall in Hts; eauto.
  - constructor; cbn in *; rewrite ?wf_cnt0; auto.
    + rewrite wf_owners0. by case_bool_decide.
    + rewrite wrap32_small; lia.
    + split; [intros; congruence|done].
    + constructor; [done|]. rewrite Hse, <- Hs. done.
    + intros; congruence.
    + intros Hw w o Hi [->|Ho]%elem_of_cons; [|by apply wf_waitdie0].
      by eapply Forall_forall in Hts; eauto.
Qed.

(** Removing the head of the queue. *)
Definition pop_waiter (ws : list LockEntry) (r : Row_lock) : Row_lock :=
  mkRowLock (lock_type r) (owner_cnt r) (wrap32 (waiter_cnt r - 1)) (owners r) ws
    (max_owner_ts r).

Lemma pop_waiter_wf alg r H e ws :
  row_wf0 alg r H -> waiters r = e :: ws -> row_wf0 alg (pop_waiter ws r) H.
Proof.
  intros W Hw. destruct W. rewrite Hw in *. constructor; cbn in *; auto.
  - rewrite wf_wcnt0, wrap32_small; lia.
  - lia.
  - by inversion wf_wtypes0.
  - rewrite fmap_app in wf_nodup0 |- *. cbn in wf_nodup0.
    apply NoDup_app in wf_nodup0 as (? & ? & [? ?]%NoDup_cons). apply NoDup_app. set_solver.
  - intros Ha. by discriminate (wf_nowait0 Ha).
  - intros Ha. by apply StronglySorted_inv in wf_sorted0 as [? ?].
  - intros Ha w o Hi. apply wf_waitdie0; [done|]. set_solver.
Qed.

Lemma promote_step_wf alg r H e ws :
  row_wf0 alg r H -> waiters r = e :: ws ->
  conflict_lock (lock_type r) (le_type e) = false ->
  row_wf0 alg (add_owner alg e (pop_waiter ws r)) (e :: H).
Proof.
  intros W Hw Hc. pose proof (pop_waiter_wf _ _ _ _ _ W Hw) as W'.
  destruct W as [_ _ _ Hb _ _ _ Hty Hnd _ Hs _]. rewrite Hw in *.
  apply (add_owner_wf _ _ _ _ ws W'); auto.
  - by inversion Hty.
  - cbn. rewrite <- Permutation_middle in Hnd. done.
  - cbn in *. lia.
  - intros Ha. by apply StronglySorted_inv in Hs as [? ?].
Qed.

Lemma ready_waiter_row t s s' : ready_waiter t s = Ok s' -> ls_row s' = ls_row s.
Proof. unfold ready_waiter. intros. res_inv. subst. by case_match. Qed.

(** The promotion loop grants a prefix of the queue, in order, and stops only
    when the next waiter conflicts. *)
Lemma promote_wf alg ws s s' H :
  row_wf0 alg (ls_row s) H -> waiters (ls_row s) = ws ->
  promote alg ws s = Ok s' ->
  exists prom, ws = prom ++ waiters (ls_row s') /\
    row_wf alg (ls_row s') (rev prom ++ H).
Proof.
  unfold row_wf. revert s H. induction ws as [|e ws IH]; intros s H W Hw Hp; cbn in Hp.
  - injection Hp as <-. exists []. rewrite Hw. split_and!; [done|done|].
      unfold head_blocked. by rewrite Hw.
  - destruct (conflict_lock _ _) eqn:Hc.
    + injection Hp as <-. exists []. rewrite Hw. split_and!; [done|done|].
      unfold head_blocked. by rewrite Hw.
    + res_inv. apply ready_waiter_row in Heqr as Hr. cbn in Hr.
      pose proof (promote_step_wf _ _ _ _ _ W Hw Hc) as W'.
      unfold pop_waiter in W'. rewrite <- Hr in W'.
      destruct (IH _ _ W') as (prom & -> & W2); [by rewrite Hr|done|].
      exists (e :: prom). split; [done|]. cbn. by rewrite <- app_assoc.
Qed.

Lemma flags_of_insert_ne fl t f u :
  tm_ptr t <> tm_ptr u -> flags_of (<[tm_ptr t := f]> fl) u = flags_of fl u.
Proof. intros. unfold flags_of. by rewrite lookup_insert_ne. Qed.

Lemma flags_of_insert fl t f : flags_of (<[tm_ptr t := f]> fl) t = f.
Proof. unfold flags_of. by rewrite lookup_insert_eq. Qed.

Lemma flags_ok_insert fl t f ws :
  Forall (fun w => tm_ptr t <> ptr_of w) ws -> flags_ok fl ws ->
  flags_ok (<[tm_ptr t := f]> fl) ws.
Proof.
  unfold flags_ok. rewrite !Forall_forall. intros Hne Hf w Hw.
  rewrite flags_of_insert_ne; [by apply Hf|by apply Hne].
Qed.

Lemma ready_waiter_ok t s ws :
  lock_ready (flags_of (ls_flags s) t) = false ->
  Forall (fun w => tm_ptr t <> ptr_of w) ws -> flags_ok (ls_flags s) ws ->
  exists s', ready_waiter t s = Ok s' /\ flags_ok (ls_flags s') ws.
Proof.
  intros Hr Hne Hf. unfold ready_waiter. rewrite Hr. cbn.
  eexists. split; [done|]. case_match; by apply flags_ok_insert.
Qed.

Lemma promote_total alg ws s :
  NoDup (ptr_of <$> ws) -> waiters (ls_row s) = ws -> flags_ok (ls_flags s) ws ->
  exists s', promote alg ws s = Ok s' /\ flags_ok (ls_flags s') (waiters (ls_row s')).
Proof.
  revert s. induction ws as [|e ws IH]; intros s Hnd Hw Hf; cbn.
  - eexists. by rewrite Hw.
  - destruct (conflict_lock _ _); [eexists; by rewrite Hw|].
    apply NoDup_cons in Hnd as [Hni Hnd]. inversion Hf as [|? ? [Hr _] Hf']; subst.
    match goal with |- context [ready_waiter _ ?s0] =>
      destruct (ready_waiter_ok (le_txn e) s0 ws) as (s1 & E & Hf1);
        [exact Hr| |exact Hf'|] end.
    { apply Forall_forall. intros w Hin Heq. apply Hni, list_elem_of_fmap. eauto. }
    rewrite E. cbn. apply IH; [done| |done].
    by rewrite (ready_waiter_row _ _ _ E).
Qed.

Lemma fresh_txn_app t l1 l2 :
  fresh_txn t (l1 ++ l2) <-> fresh_txn t l1 /\ fresh_txn t l2.
Proof. apply Forall_app. Qed.

Lemma fresh_nodup t ty H ws :
  fresh_txn t (H ++ ws) -> NoDup (ptr_of <$> H ++ ws) ->
  NoDup (ptr_of <$> (mkEntry ty t :: H) ++ ws).
Proof.
  intros Hf Hnd. cbn. apply NoDup_cons. split; [|done].
  intros (x & Hx & Hi)%list_elem_of_fmap.
  eapply Forall_forall in Hf as (Hp & _); [|exact Hi]. done.
Qed.

(** A new waiter joins the queue; [ws'] is the queue after the insertion. *)
Lemma enqueue_wf alg r H e ws' :
  row_wf0 alg r H -> alg <> NO_WAIT -> le_type e <> LOCK_NONE ->
  ws' ≡ₚ e :: waiters r ->
  NoDup (ptr_of <$> (e :: H) ++ waiters r) ->
  Z.of_nat (S (length H) + length (waiters r)) < 4294967296 ->
  (alg = WAIT_DIE -> StronglySorted (fun a b => ts_of b < ts_of a) ws') ->
  (alg = WAIT_DIE -> Forall (fun o => ts_of e < ts_of o) H) ->
  row_wf0 alg (enqueue_waiter ws' r) H.
Proof.
  intros W Hnw Hty Hp Hnd Hb Hs Hts. destruct W.
  pose proof (Permutation_length Hp) as Hlen. cbn in Hlen.
  constructor; cbn in *; auto.
  - rewrite wf_wcnt0, wrap32_small; lia.
  - lia.
  - rewrite Hp. by constructor.
  - rewrite Hp, <- Permutation_middle. done.
  - done.
  - intros Ha w o. rewrite Hp. intros [->|Hw]%elem_of_cons Ho; [|by apply wf_waitdie0].
    by eapply Forall_forall in Ho; [|by apply Hts].
Qed.

(** What the WAIT_DIE test of [lock_get] means: not granted because of a lock
    conflict, or because an older request is already queued. *)
Lemma get_conflict_false alg ty t r :
  get_conflict alg ty t r = false ->
  conflict_lock (lock_type r) ty = false /\
  match alg with
  | NO_WAIT => True
  | WAIT_DIE => match waiters r with [] => True | w :: _ => ts_of w <= tm_timestamp t end
  | CALVIN => waiters r = []
  end.
Proof.
  unfold get_conflict. destruct (conflict_lock _ _); [done|].
  intros Hc. split; [done|]. destruct alg; auto; destruct (waiters r); auto; [|done].
  by bool_to_Z.
Qed.

Lemma sorted_head_bound w ws t :
  StronglySorted (fun a b => ts_of b < ts_of a) (w :: ws) ->
  ts_of w < t -> Forall (fun x => ts_of x < t) (w :: ws).
Proof.
  intros [_ Hall]%StronglySorted_inv Hw. constructor; [done|].
  eapply Forall_impl; [exact Hall|]. cbn. lia.
Qed.

Lemma grant_wf alg ty t r H :
  row_wf alg r H -> fresh_txn t (H ++ waiters r) -> ty <> LOCK_NONE ->
  Z.of_nat (S (length H) + length (waiters r)) < 4294967296 ->
  get_conflict alg ty t r = false ->
  row_wf alg (add_owner alg (mkEntry ty t) r) (mkEntry ty t :: H).
Proof.
  intros [W Hb] Hf Hty Hbd [Hc Hq]%get_conflict_false. split.
  - apply (add_owner_wf _ _ _ _ (waiters r)); auto.
    + apply fresh_nodup; [done|]. by destruct W.
    + intros ->. destruct W as [_ _ _ _ _ _ _ _ _ _ Hs _]. specialize (Hs eq_refl).
      destruct (waiters r) as [|w ws] eqn:E; [constructor|].
      apply sorted_head_bound; [done|]. cbn.
      apply fresh_txn_app in Hf as [_ Hf]. inversion Hf as [|? ? (_ & _ & Hne) _]; subst.
      unfold ts_of in *; cbn. lia.
  - unfold head_blocked in *. cbn. destruct (waiters r) as [|w ws] eqn:E; [done|].
    destruct (conflict_lock_false _ _ Hty Hc) as [Hn|[Hsh ->]].
    + rewrite Hn in Hb. done.
    + by rewrite Hsh in Hb.
Qed.

(** The waiting branch: the conflict is with the lock, or the queue's head is
    already blocked and stays the head. *)
Lemma insert_waiter_blocked ty t r :
  head_blocked r -> get_conflict WAIT_DIE ty t r = true ->
  Forall (fun w => tm_timestamp t <> ts_of w) (waiters r) ->
  head_blocked (enqueue_waiter (insert_waiter (mkEntry ty t) (waiters r)) r).
Proof.
  unfold head_blocked, get_conflict. cbn. intros Hb Hg Hne.
  pose proof (insert_waiter_head (mkEntry ty t) (waiters r)) as Hh.
  destruct (insert_waiter _ _) as [|h hs]; [done|].
  destruct Hh as [[-> Hle]|[ws' E]]; [|by rewrite E in Hb]. cbn.
  destruct (conflict_lock (lock_type r) ty); [done|].
  destruct (waiters r) as [|w ws]; [done|]. bool_to_Z. unfold ts_of in *. cbn in *. lia.
Qed.

(** The outcome of [lock_get], as a relation between the state before and the
    result. *)
Definition lock_get_post (alg : CC_2PL) (ty : lock_t) (t : TxnManager)
    (s : LockState) (H : list LockEntry) (rc : RC) (s' : LockState) : Prop :=
  let r := ls_row s in
  let r' := ls_row s' in
  match rc with
  | RCOK => get_conflict alg ty t r = false /\ row_wf alg r' (mkEntry ty t :: H) /\
            waiters r' = waiters r /\ ls_flags s' = ls_flags s
  | WAIT => get_conflict alg ty t r = true /\ alg <> NO_WAIT /\ row_wf alg r' H /\
            waiters r' ≡ₚ mkEntry ty t :: waiters r /\
            (alg = WAIT_DIE -> Forall (fun o => tm_timestamp t < ts_of o) H) /\
            (alg = CALVIN -> waiters r' = waiters r ++ [mkEntry ty t]) /\
            ls_flags s' = cas_not_ready_incr_lr (ls_flags s) t
  | Abort => get_conflict alg ty t r = true /\ s' = s /\
             (alg = NO_WAIT \/
              alg = WAIT_DIE /\ Exists (fun o => ts_of o < tm_timestamp t) H)
  | _ => False
  end.

Lemma lock_get_wait_die ty t s H :
  row_wf WAIT_DIE (ls_row s) H -> fresh_txn t (H ++ waiters (ls_row s)) ->
  ty <> LOCK_NONE ->
  Z.of_nat (S (length H) + length (waiters (ls_row s))) < 4294967296 ->
  get_conflict WAIT_DIE ty t (ls_row s) = true ->
  exists rc s', lock_get WAIT_DIE ty t s = Ok (rc, s') /\
    lock_get_post WAIT_DIE ty t s H rc s'.
Proof.
  intros [W Hb] Hf Hty Hbd Hg. pose proof (wf_owners _ _ _ W) as Ho.
  rewrite bool_decide_false in Ho by done.
  apply fresh_txn_app in Hf as [HfH Hfw]. unfold lock_get. rewrite Hg, Ho.
  rewrite canwait_scan_spec by done. cbn.
  destruct (forallb _ H) eqn:Hall; do 2 eexists; (split; [done|]); cbn.
  - apply forallb_older_spec in Hall. split_and!; try done.
    + split.
      * apply (enqueue_wf _ _ _ (mkEntry ty t)); auto using insert_waiter_perm.
        -- apply fresh_nodup; [by apply fresh_txn_app|by destruct W].
        -- intros _. apply insert_waiter_sorted; [by destruct W; auto|].
           eapply Forall_impl; [exact Hfw|]. by intros ? (_ & _ & ?).
      * apply insert_waiter_blocked; [done|done|].
        eapply Forall_impl; [exact Hfw|]. by intros ? (_ & _ & ?).
    + apply insert_waiter_perm.
  - split_and!; [done|done|]. right. split; [done|].
    apply not_true_iff_false in Hall. rewrite forallb_older_spec in Hall.
    apply not_Forall_Exists in Hall; [|solve_decision].
    apply Exists_exists in Hall as (o & Hin & Hlt). apply Exists_exists. exists o.
    split; [done|]. eapply Forall_forall in HfH as (_ & _ & Hne); [|exact Hin].
    cbn in Hlt. lia.
Qed.

Lemma lock_get_calvin ty t s H :
  row_wf CALVIN (ls_row s) H -> fresh_txn t (H ++ waiters (ls_row s)) ->
  ty <> LOCK_NONE ->
  Z.of_nat (S (length H) + length (waiters (ls_row s))) < 4294967296 ->
  get_conflict CALVIN ty t (ls_row s) = true ->
  exists rc s', lock_get CALVIN ty t s = Ok (rc, s') /\
    lock_get_post CALVIN ty t s H rc s'.
Proof.
  intros [W Hb] Hf Hty Hbd Hg. unfold lock_get. rewrite Hg.
  do 2 eexists. split; [done|]. cbn.
  assert (waiters (ls_row s) ++ [mkEntry ty t] ≡ₚ mkEntry ty t :: waiters (ls_row s))
    as Hp by (rewrite Permutation_app_comm; done).
  split_and!; try done. split.
  - apply (enqueue_wf _ _ _ (mkEntry ty t)); auto; try done.
    apply fresh_nodup; [done|by destruct W].
  - unfold head_blocked, get_conflict in *. cbn.
    destruct (waiters (ls_row s)); cbn; [|done].
    by destruct (conflict_lock _ _).
Qed.

(** Every path of [lock_get]: it never fails an assertion on a well-formed
    row, and its three outcomes leave a well-formed row. *)
Lemma lock_get_total alg ty t s H :
  row_wf alg (ls_row s) H -> fresh_txn t (H ++ waiters (ls_row s)) ->
  ty <> LOCK_NONE ->
  Z.of_nat (S (length H) + length (waiters (ls_row s))) < 4294967296 ->
  exists rc s', lock_get alg ty t s = Ok (rc, s') /\
    lock_get_post alg ty t s H rc s'.
Proof.
  intros W Hf Hty Hbd. destruct (get_conflict alg ty t (ls_row s)) eqn:Hg.
  - destruct alg; [|by apply lock_get_wait_die|by apply lock_get_calvin].
    unfold lock_get. rewrite Hg. do 2 eexists. split; [done|]. cbn. auto.
  - unfold lock_get. rewrite Hg.
    assert (negb (0 <? owner_cnt (ls_row s)) || bool_decide (ty = LOCK_SH) = true)%bool as ->.
    { destruct W as [[? Hc ? ? Hn ? ? ? ? ? ? ?] _]. apply get_conflict_false in Hg as [Hcl _].
      destruct (conflict_lock_false _ _ Hty Hcl) as [E|[_ ->]].
      - apply Hn in E as ->. by rewrite Hc.
      - rewrite bool_decide_true by done. by destruct (negb _). }
    do 2 eexists. split; [done|]. split_and!; try done. by apply grant_wf.
Qed.

Lemma cas_flags_ok fl t ty ws ws' :
  ws' ≡ₚ mkEntry ty t :: ws -> fresh_txn t ws -> flags_ok fl ws ->
  0 <= lock_ready_cnt (flags_of fl t) < 4294967295 ->
  flags_ok (cas_not_ready_incr_lr fl t) ws'.
Proof.
  intros Hp Hf Hok Hc. unfold flags_ok. rewrite Hp. constructor.
  - unfold cas_not_ready_incr_lr. cbn. rewrite flags_of_insert. cbn.
    rewrite wrap32_small; lia.
  - apply flags_ok_insert; [|done]. eapply Forall_impl; [exact Hf|]. by intros ? (? & _).
Qed.

Lemma lock_get_post_flags alg ty t s H rc s' :
  lock_get_post alg ty t s H rc s' -> fresh_txn t (H ++ waiters (ls_row s)) ->
  flags_ok (ls_flags s) (waiters (ls_row s)) ->
  0 <= lock_ready_cnt (flags_of (ls_flags s) t) < 4294967295 ->
  flags_ok (ls_flags s') (waiters (ls_row s')).
Proof.
  intros P [_ Hf]%fresh_txn_app Hok Hc. destruct rc; cbn in P; try done.
  - destruct P as (_ & _ & -> & ->). done.
  - destruct P as (_ & -> & _). done.
  - destruct P as (_ & _ & _ & Hp & _ & _ & ->). by eapply cas_flags_ok.
Qed.

(** ** Release *)

Lemma remove_owner_spec t l1 e l2 :
  ptr_of e = tm_ptr t -> tm_ptr t ∉ (ptr_of <$> l1) ->
  remove_owner t (l1 ++ e :: l2) = Some (l1 ++ l2).
Proof.
  intros He. induction l1 as [|x l1 IH]; cbn; intros Hn.
  - unfold ptr_of in He. by rewrite He, Z.eqb_refl.
  - apply not_elem_of_cons in Hn as [Hx Hn]. unfold ptr_of in Hx.
    rewrite (proj2 (Z.eqb_neq _ _)) by congruence. by rewrite IH.
Qed.

Lemma drop_owner_wf alg r l1 e l2 os :
  row_wf0 alg r (l1 ++ e :: l2) ->
  os = (if bool_decide (alg = NO_WAIT) then [] else l1 ++ l2) ->
  row_wf0 alg (drop_owner os r) (l1 ++ l2).
Proof.
  intros W ->. pose proof W as W0. destruct W.
  rewrite length_app in *. cbn in *.
  assert (wrap32 (owner_cnt r - 1) = Z.of_nat (length (l1 ++ l2))) as Hc.
  { rewrite wf_cnt0, length_app. rewrite wrap32_small; lia. }
  unfold drop_owner. rewrite Hc.
  assert ((Z.of_nat (length (l1 ++ l2)) =? 0) = bool_decide (l1 ++ l2 = [])) as ->.
  { destruct (l1 ++ l2); [done|]. case_bool_decide; [done|]. apply Z.eqb_neq. cbn. lia. }
  assert (lock_type r <> LOCK_NONE) as Hnn
    by (rewrite wf_none0; by destruct l1).
  clear wf_owners0. constructor; cbn; auto.
  - rewrite length_app. lia.
  - case_bool_decide; split; done.
  - case_bool_decide as E; [by rewrite E; constructor|].
    apply Forall_app in wf_types0 as [? [_ ?]%Forall_cons]. by apply Forall_app.
  - case_bool_decide; [done|]. intros Hex. specialize (wf_ex0 Hex).
    destruct l1, l2; cbn in *; try lia; done.
  - rewrite <- app_assoc in wf_nodup0. cbn in wf_nodup0.
    rewrite <- Permutation_middle in wf_nodup0. cbn in wf_nodup0.
    apply NoDup_cons in wf_nodup0 as [_ ?]. by rewrite <- app_assoc.
  - intros Ha w o Hw Ho. apply wf_waitdie0; auto. set_solver.
Qed.

Lemma lock_release_inv alg t s l1 e l2 :
  row_wf0 alg (ls_row s) (l1 ++ e :: l2) -> ptr_of e = tm_ptr t ->
  (alg = CALVIN -> tm_recon t = false) ->
  lock_release alg t s =
    let r1 := drop_owner (if bool_decide (alg = NO_WAIT) then [] else l1 ++ l2) (ls_row s) in
    s' ← promote alg (waiters r1) (mkLS r1 (ls_flags s) (ls_restarted s));
    Ok (RCOK, s').
Proof.
  intros W He Hrec. unfold lock_release.
  assert (bool_decide (alg = CALVIN) && tm_recon t = false)%bool as ->.
  { case_bool_decide; [by rewrite Hrec|done]. }
  pose proof (wf_owners _ _ _ W) as Ho. pose proof (wf_cnt _ _ _ W) as Hc.
  pose proof (drop_owner_wf _ _ _ _ _ _ W eq_refl) as W1.
  assert (negb (owner_cnt (drop_owner (if bool_decide (alg = NO_WAIT) then [] else l1 ++ l2) (ls_row s)) =? 0)
    || bool_decide (lock_type (drop_owner (if bool_decide (alg = NO_WAIT) then [] else l1 ++ l2) (ls_row s)) = LOCK_NONE) = true)%bool as Has.
  { cbn. destruct (_ =? 0); [|done]. by rewrite bool_decide_true. }
  assert (tm_ptr t ∉ (ptr_of <$> l1)) as Hni.
  { destruct W as [_ _ _ _ _ _ _ _ Hnd _ _ _]. rewrite <- app_assoc, fmap_app in Hnd.
    apply NoDup_app in Hnd as (_ & Hd & _). intros Hin. apply (Hd _ Hin).
    rewrite <- He. cbn. by left. }
  destruct alg; cbn -[drop_owner promote] in *.
  - rewrite bool_decide_true in * by done. rewrite Ho. rewrite (proj2 (Z.ltb_lt 0 _)).
    + cbn -[drop_owner promote]. by rewrite Has.
    + rewrite Hc, length_app. cbn. lia.
  - rewrite bool_decide_false in * by done. rewrite Ho, (remove_owner_spec _ _ _ _ He Hni).
    cbn -[drop_owner promote]. by rewrite Has.
  - rewrite bool_decide_false in * by done. rewrite Ho, (remove_owner_spec _ _ _ _ He Hni).
    cbn -[drop_owner promote]. by rewrite Has.
Qed.

(** A release that returns removes the holder and grants a prefix of the
    queue. *)
Lemma lock_release_wf alg t s l1 e l2 rc s' :
  row_wf0 alg (ls_row s) (l1 ++ e :: l2) -> ptr_of e = tm_ptr t ->
  (alg = CALVIN -> tm_recon t = false) ->
  lock_release alg t s = Ok (rc, s') ->
  exists prom, waiters (ls_row s) = prom ++ waiters (ls_row s') /\
    row_wf alg (ls_row s') (rev prom ++ l1 ++ l2).
Proof.
  intros W He Hrec. rewrite (lock_release_inv _ _ _ _ _ _ W He Hrec). cbn zeta.
  intros Hp. res_inv. simplify_eq.
  apply (promote_wf _ _ _ _ (l1 ++ l2)) in Heqr as (prom & E & W'); [eauto| |done].
  by eapply drop_owner_wf.
Qed.

Lemma lock_release_ok alg t s l1 e l2 :
  row_wf0 alg (ls_row s) (l1 ++ e :: l2) -> ptr_of e = tm_ptr t ->
  (alg = CALVIN -> tm_recon t = false) ->
  flags_ok (ls_flags s) (waiters (ls_row s)) ->
  exists s', lock_release alg t s = Ok (RCOK, s') /\
    flags_ok (ls_flags s') (waiters (ls_row s')).
Proof.
  intros W He Hrec Hf. rewrite (lock_release_inv _ _ _ _ _ _ W He Hrec). cbn zeta.
  pose proof (wf_nodup _ _ _ W) as Hnd. rewrite fmap_app in Hnd.
  apply NoDup_app in Hnd as (_ & _ & Hnd).
  edestruct (promote_total alg (waiters (ls_row s))) as (s' & E & Hf'); [exact Hnd| | |].
  3:{ cbn -[promote drop_owner] in *. rewrite E. cbn. eauto. }
  - done.
  - done.
Qed.

Lemma wf_compatible alg r H : row_wf0 alg r H -> holders_compatible H.
Proof.
  intros W i j a b Hij Ha Hb.
  pose proof (proj1 (Forall_lookup _ _) (wf_types _ _ _ W) _ _ Ha) as Ta.
  pose proof (proj1 (Forall_lookup _ _) (wf_types _ _ _ W) _ _ Hb) as Tb. cbn in *.
  rewrite Ta, Tb. destruct (lock_type r) eqn:E; [|done|].
  - pose proof (wf_ex _ _ _ W E). apply lookup_lt_Some in Ha, Hb. lia.
  - apply (wf_none _ _ _ W) in E as ->. done.
Qed.

(** ** Histories of one row

    The steps of a row: a transaction not yet in its lists requests a lock, a
    holder releases.  The second component of the configuration is the list
    of holders an outside observer computes from the return codes and from
    the queue. *)

Inductive lock_step (alg : CC_2PL)
    : LockState * list LockEntry -> LockState * list LockEntry -> Prop :=
| step_get ty t s H rc s' :
    fresh_txn t (H ++ waiters (ls_row s)) -> ty <> LOCK_NONE ->
    Z.of_nat (S (length H) + length (waiters (ls_row s))) < 4294967296 ->
    0 <= lock_ready_cnt (flags_of (ls_flags s) t) < 4294967295 ->
    lock_get alg ty t s = Ok (rc, s') ->
    lock_step alg (s, H) (s', if bool_decide (rc = RCOK) then mkEntry ty t :: H else H)
| step_release t l1 e l2 s s' :
    ptr_of e = tm_ptr t -> (alg = CALVIN -> tm_recon t = false) ->
    lock_release alg t s = Ok (RCOK, s') ->
    lock_step alg (s, l1 ++ e :: l2)
      (s', rev (take (length (waiters (ls_row s)) - length (waiters (ls_row s')))
                  (waiters (ls_row s))) ++ l1 ++ l2).

Definition init_config : LockState * list LockEntry := (mkLS init ∅ [], []).

Definition config_ok (alg : CC_2PL) (c : LockState * list LockEntry) : Prop :=
  row_wf alg (ls_row c.1) c.2 /\ flags_ok (ls_flags c.1) (waiters (ls_row c.1)).

Lemma config_ok_init alg : config_ok alg init_config.
Proof. split; [split; [apply row_wf0_init|done]|constructor]. Qed.

Lemma take_promoted {A} (l prom rest : list A) :
  l = prom ++ rest -> take (length l - length rest) l = prom.
Proof. intros ->. rewrite length_app, Nat.add_sub. by apply take_app_length. Qed.

Lemma config_ok_step alg c c' : config_ok alg c -> lock_step alg c c' -> config_ok alg c'.
Proof.
  intros [W Hf] St. destruct St as [ty t s H rc s' Hfr Hty Hb Hc E|t l1 e l2 s s' He Hr E].
  - destruct (lock_get_total alg ty t s H W Hfr Hty Hb) as (rc1 & s1 & E1 & P).
    rewrite E in E1. injection E1 as <- <-.
    split; [|by eapply lock_get_post_flags]. cbn [fst snd].
    destruct rc; cbn in P; try contradiction.
    + rewrite bool_decide_true by done. by destruct P as (_ & ? & _).
    + rewrite bool_decide_false by done. destruct P as (_ & -> & _). done.
    + rewrite bool_decide_false by done. by destruct P as (_ & _ & ? & _).
  - destruct W as [W _]. cbn [fst snd] in *.
    destruct (lock_release_wf _ _ _ _ _ _ _ _ W He Hr E) as (prom & Ew & W').
    destruct (lock_release_ok _ _ _ _ _ _ W He Hr Hf) as (s1 & E1 & Hf1).
    rewrite E in E1. injection E1 as <-. split; [|done]. cbn.
    by rewrite (take_promoted _ _ _ Ew).
Qed.

Lemma config_ok_reachable alg c : rtc (lock_step alg) init_config c -> config_ok alg c.
Proof. apply rtc_invariant; eauto using config_ok_init, config_ok_step. Qed.

(** ** A database of rows under WAIT_DIE

    All rows share the transactions' flags.  Rows are created by [init] the
    first time they are used. *)

Record LockDB := mkDB {
  db_rows : gmap Z Row_lock;
  db_flags : gmap Z LockFlags;
  db_restarted : list Z;
}.

Definition row_of (db : LockDB) (k : Z) : Row_lock := default init (db_rows db !! k).
Definition open_row (db : LockDB) (k : Z) : LockState :=
  mkLS (row_of db k) (db_flags db) (db_restarted db).
Definition close_row (db : LockDB) (k : Z) (s : LockState) : LockDB :=
  mkDB (<[k := ls_row s]> (db_rows db)) (ls_flags s) (ls_restarted s).

Inductive db_step : LockDB -> LockDB -> Prop :=
| db_get k ty t db rc s' :
    fresh_txn t (owners (row_of db k) ++ waiters (row_of db k)) -> ty <> LOCK_NONE ->
    Z.of_nat (S (length (owners (row_of db k))) + length (waiters (row_of db k)))
      < 4294967296 ->
    lock_get WAIT_DIE ty t (open_row db k) = Ok (rc, s') ->
    db_step db (close_row db k s')
| db_release k t db s' :
    tm_ptr t ∈ (ptr_of <$> owners (row_of db k)) ->
    lock_release WAIT_DIE t (open_row db k) = Ok (RCOK, s') ->
    db_step db (close_row db k s').

Definition init_db : LockDB := mkDB ∅ ∅ [].

(** [a] waits for [b]: in some row [a] is queued and [b] holds the lock or is
    queued ahead of [a]. *)
Definition waits_for (db : LockDB) (a b : TxnManager) : Prop :=
  exists k,
    (exists w o, w ∈ waiters (row_of db k) /\ o ∈ owners (row_of db k) /\
                 le_txn w = a /\ le_txn o = b) \/
    (exists i j w w', (i < j)%nat /\ waiters (row_of db k) !! i = Some w' /\
                      waiters (row_of db k) !! j = Some w /\
                      le_txn w = a /\ le_txn w' = b).

Definition db_ok (db : LockDB) : Prop :=
  forall k, row_wf WAIT_DIE (row_of db k) (owners (row_of db k)).

Lemma row_of_close db k s k' :
  row_of (close_row db k s) k' = if decide (k = k') then ls_row s else row_of db k'.
Proof.
  unfold row_of, close_row. cbn. case_decide; subst.
  - by rewrite lookup_insert_eq.
  - by rewrite lookup_insert_ne.
Qed.

Lemma row_wf_owners H r :
  row_wf WAIT_DIE r H -> row_wf WAIT_DIE r (owners r).
Proof.
  intros W. pose proof (wf_owners _ _ _ (proj1 W)) as E.
  rewrite bool_decide_false in E by done. by rewrite E.
Qed.

Lemma db_ok_init : db_ok init_db.
Proof. intros k. split; [apply row_wf0_init|done]. Qed.

Lemma db_ok_step db db' : db_ok db -> db_step db db' -> db_ok db'.
Proof.
  intros Hok St. destruct St as [k ty t db rc s' Hf Hty Hb E|k t db s' Hin E];
    intros k'; rewrite row_of_close; case_decide; try apply Hok; subst k'.
  - destruct (lock_get_total WAIT_DIE ty t (open_row db k) _ (Hok k) Hf Hty Hb)
      as (rc1 & s1 & E1 & P). rewrite E in E1. injection E1 as <- <-.
    destruct rc; cbn in P; try contradiction.
    + by destruct P as (_ & W%row_wf_owners & _).
    + destruct P as (_ & -> & _). apply Hok.
    + by destruct P as (_ & _ & W%row_wf_owners & _).
  - apply list_elem_of_fmap in Hin as (e & He & Hin).
    apply list_elem_of_split in Hin as (l1 & l2 & Ho).
    pose proof (proj1 (Hok k)) as W. rewrite Ho in W.
    eapply (lock_release_wf _ _ (open_row db k)) in E as (prom & _ & W2); [|exact W|done|done].
    by eapply row_wf_owners.
Qed.

Lemma db_ok_reachable db : rtc db_step init_db db -> db_ok db.
Proof. apply rtc_invariant; eauto using db_ok_init, db_ok_step. Qed.

Lemma waits_for_older db a b :
  db_ok db -> waits_for db a b -> tm_timestamp a < tm_timestamp b.
Proof.
  intros Hok [k [(w & o & Hw & Ho & <- & <-)|(i & j & w & w' & Hij & Hi & Hj & <- & <-)]].
  - by apply (wf_waitdie _ _ _ (proj1 (Hok k)) eq_refl).
  - pose proof (wf_sorted _ _ _ (proj1 (Hok k)) eq_refl) as Hs.
    exact (StronglySorted_lookup _ _ i j w' w Hs Hij Hi Hj).
Qed.

(** ** Properties *)




(** C34. [lock_release] by a holder returns RCOK without failing an assertion,
    removes exactly that holder, and grants a prefix of the queue, in queue
    order, that is as long as the lock modes admit. *)
Theorem lock_release_correct alg t s l1 e l2 :
  row_wf alg (ls_row s) (l1 ++ e :: l2) -> ptr_of e = tm_ptr t ->
  (alg = CALVIN -> tm_recon t = false) ->
  flags_ok (ls_flags s) (waiters (ls_row s)) ->
  exists s' prom, lock_release alg t s = Ok (RCOK, s') /\
    waiters (ls_row s) = prom ++ waiters (ls_row s') /\
    row_wf alg (ls_row s') (rev prom ++ l1 ++ l2) /\
    flags_ok (ls_flags s') (waiters (ls_row s')).
Proof.
  intros [W _] He Hr Hf.
  destruct (lock_release_ok _ _ _ _ _ _ W He Hr Hf) as (s' & E & Hf').
  destruct (lock_release_wf _ _ _ _ _ _ _ _ W He Hr E) as (prom & Ew & W').
  eauto 10.
Qed.

(** C18. WAIT_DIE is free of deadlock.  In every reachable state of a database
    of rows the waits-for relation (on a holder, or on a request queued
    ahead) has no cycle. *)
Theorem wait_die_no_deadlock db t :
  rtc db_step init_db db -> ~ tc (waits_for db) t t.
Proof.
  intros Hok%db_ok_reachable Hc.
  apply (tc_increasing _ tm_timestamp) in Hc; [lia|].
  intros a b. by apply waits_for_older.
Qed.

(** *** Witnesses *)

Definition ex_txn (p ts : Z) : TxnManager := mkTxn p (100 + p) ts 0 0 false.

(** Two shared holders under WAIT_DIE. *)
Definition ex_shared : LockState :=
  mkLS (mkRowLock LOCK_SH 2 0 [mkEntry LOCK_SH (ex_txn 2 20); mkEntry LOCK_SH (ex_txn 1 10)]
          [] 20) ∅ [].

(** A younger writer holds the row, an older one waits. *)
Definition ex_waiting : LockState :=
  mkLS (mkRowLock LOCK_EX 1 1 [mkEntry LOCK_EX (ex_txn 2 20)]
          [mkEntry LOCK_EX (ex_txn 1 10)] 20)
       {[1 := mkFlags false 1]} [].

Lemma fresh_txn_dec_true t es :
  forallb (fun e => negb (tm_ptr t =? ptr_of e) && negb (tm_txn_id t =? tm_txn_id (le_txn e))
                    && negb (tm_timestamp t =? ts_of e))%bool es = true -> fresh_txn t es.
Proof.
  intros Hb. apply Forall_forall. intros e He%list_elem_of_In.
  rewrite forallb_forall in Hb. specialize (Hb e He). bool_to_Z. done.
Qed.

Ltac run_lock_step :=
  first [apply fresh_txn_dec_true; reflexivity | reflexivity | done | cbn; lia].

Definition ex_hold_sh : list LockEntry :=
  [mkEntry LOCK_SH (ex_txn 2 20); mkEntry LOCK_SH (ex_txn 1 10)].
Definition ex_hold_ex : list LockEntry := [mkEntry LOCK_EX (ex_txn 2 20)].

Lemma ex_shared_reachable :
  rtc (lock_step WAIT_DIE) init_config (ex_shared, ex_hold_sh).
Proof.
  eapply rtc_l.
  { apply (step_get WAIT_DIE LOCK_SH (ex_txn 1 10) _ _ RCOK
             (mkLS (mkRowLock LOCK_SH 1 0 [mkEntry LOCK_SH (ex_txn 1 10)] [] 10) ∅ []));
      run_lock_step. }
  eapply rtc_l; [|apply rtc_refl].
  apply (step_get WAIT_DIE LOCK_SH (ex_txn 2 20) _ _ RCOK ex_shared); run_lock_step.
Qed.

Definition ex_held : LockState :=
  mkLS (mkRowLock LOCK_EX 1 0 ex_hold_ex [] 20) ∅ [].

Lemma ex_waiting_reachable :
  rtc (lock_step WAIT_DIE) init_config (ex_waiting, ex_hold_ex).
Proof.
  eapply rtc_l.
  { apply (step_get WAIT_DIE LOCK_EX (ex_txn 2 20) _ _ RCOK ex_held); run_lock_step. }
  eapply rtc_l; [|apply rtc_refl].
  apply (step_get WAIT_DIE LOCK_EX (ex_txn 1 10) _ ex_hold_ex WAIT ex_waiting); run_lock_step.
Qed.




(** Releasing the younger writer hands the row to the older waiter. *)
Lemma lock_release_correct_witness :
  exists s' prom, lock_release WAIT_DIE (ex_txn 2 20) ex_waiting = Ok (RCOK, s') /\
    waiters (ls_row ex_waiting) = prom ++ waiters (ls_row s') /\
    row_wf WAIT_DIE (ls_row s') (rev prom ++ [] ++ []) /\
    flags_ok (ls_flags s') (waiters (ls_row s')).
Proof.
  apply (lock_release_correct WAIT_DIE (ex_txn 2 20) ex_waiting []
           (mkEntry LOCK_EX (ex_txn 2 20)) []).
  - exact (proj1 (config_ok_reachable _ _ ex_waiting_reachable)).
  - reflexivity.
  - discriminate.
  - exact (proj2 (config_ok_reachable _ _ ex_waiting_reachable)).
Defined.

Example ex_release_grants :
  lock_release WAIT_DIE (ex_txn 2 20) ex_waiting =
  Ok (RCOK, mkLS (mkRowLock LOCK_EX 1 0 [mkEntry LOCK_EX (ex_txn 1 10)] [] 20)
                 {[1 := mkFlags true 0]} [101]).
Proof. vm_compute. reflexivity. Qed.

(** Row 7: the younger transaction holds it and the older one waits. *)
Definition ex_db : LockDB :=
  close_row (close_row init_db 7 ex_held) 7 ex_waiting.

Lemma ex_db_reachable : rtc db_step init_db ex_db.
Proof.
  eapply rtc_l.
  { apply (db_get 7 LOCK_EX (ex_txn 2 20) init_db RCOK ex_held); run_lock_step. }
  eapply rtc_l; [|apply rtc_refl].
  apply (db_get 7 LOCK_EX (ex_txn 1 10) (close_row init_db 7 ex_held) WAIT ex_waiting);
    run_lock_step.
Qed.

Lemma wait_die_no_deadlock_witness :
  waits_for ex_db (ex_txn 1 10) (ex_txn 2 20) /\
  ~ tc (waits_for ex_db) (ex_txn 1 10) (ex_txn 1 10).
Proof.
  split.
  - exists 7. left. exists (mkEntry LOCK_EX (ex_txn 1 10)), (mkEntry LOCK_EX (ex_txn 2 20)).
    split_and!; [by left|by left|reflexivity|reflexivity].
  - exact (wait_die_no_deadlock ex_db (ex_txn 1 10) ex_db_reachable).
Defined.
