(* ===== verification/StdSet.v ===== *)
(** * StdSet: [std::set<uint64_t>]

    The concurrency-control managers keep sets of transaction ids in
    [std::set<uint64_t>] and iterate over them.  The container iterates in
    increasing order, and some loops depend on it, so a set is the strictly
    increasing list of its elements. *)

From stdpp Require Import gmap list sorting.
From S2P Require Import Prelude.
#[local] Open Scope Z_scope.

(** [s.insert(x)]. *)
Fixpoint set_insert (x : Z) (s : list Z) : list Z :=
  match s with
  | [] => [x]
  | y :: s' => if x <? y then x :: y :: s'
               else if x =? y then y :: s'
               else y :: set_insert x s'
  end.

(** [s.erase(x)]. *)
Fixpoint set_erase (x : Z) (s : list Z) : list Z :=
  match s with
  | [] => []
  | y :: s' => if x =? y then s' else y :: set_erase x s'
  end.

(** [s.count(x) != 0]. *)
Definition set_mem (x : Z) (s : list Z) : bool := existsb (Z.eqb x) s.

(** [for (it : src) dst.insert( *it )]. *)
Definition set_insert_all (src dst : list Z) : list Z :=
  foldl (fun d x => set_insert x d) dst src.

Definition is_set (s : list Z) : Prop := StronglySorted Z.lt s.

Lemma elem_of_set_insert x y s : y ∈ set_insert x s <-> y = x \/ y ∈ s.
Proof.
  induction s as [|z s IH]; cbn; [set_solver|].
  case_match; [set_solver|]. case_match; bool_to_Z; subst.
  - set_solver.
  - rewrite !elem_of_cons, IH. tauto.
Qed.

Lemma set_insert_is_set x s : is_set s -> is_set (set_insert x s).
Proof.
  induction s as [|z s IH]; cbn; intros Hs; [by repeat constructor|].
  pose proof Hs as [Hs' Hz]%StronglySorted_inv.
  case_match; bool_to_Z; [|case_match; bool_to_Z; [done|]].
  - constructor; [done|]. constructor; [done|].
    eapply Forall_impl; [exact Hz|]. cbn. lia.
  - constructor; [by apply IH|]. apply Forall_forall. intros y.
    rewrite elem_of_set_insert. intros [->|Hy]; [lia|].
    by eapply Forall_forall in Hy; [|exact Hz].
Qed.

Lemma elem_of_set_erase x y s : is_set s -> y ∈ set_erase x s <-> y <> x /\ y ∈ s.
Proof.
  induction s as [|z s IH]; cbn; intros Hs; [set_solver|].
  pose proof Hs as [Hs' Hz]%StronglySorted_inv.
  case_match; bool_to_Z; subst.
  - rewrite elem_of_cons. split; [|intuition congruence].
    intros Hy. split; [|by right]. intros ->.
    eapply Forall_forall in Hz; [|exact Hy]. cbn in Hz. lia.
  - rewrite !elem_of_cons, IH by done. intuition congruence.
Qed.

Lemma set_erase_is_set x s : is_set s -> is_set (set_erase x s).
Proof.
  induction s as [|z s IH]; cbn; intros Hs; [constructor|].
  pose proof Hs as [Hs' Hz]%StronglySorted_inv.
  case_match; [done|]. constructor; [by apply IH|].
  apply Forall_forall. intros y [_ Hy]%elem_of_set_erase; [|done].
  by eapply Forall_forall in Hy; [|exact Hz].
Qed.

Lemma set_mem_spec x s : set_mem x s = true <-> x ∈ s.
Proof.
  unfold set_mem. rewrite existsb_exists, list_elem_of_In.
  split; [intros (y & Hy & ->%Z.eqb_eq); done|]. exists x. by rewrite Z.eqb_refl.
Qed.

Lemma elem_of_set_insert_all src dst y :
  y ∈ set_insert_all src dst <-> y ∈ src \/ y ∈ dst.
Proof.
  unfold set_insert_all. revert dst. induction src as [|x src IH]; intros dst; cbn.
  - set_solver.
  - rewrite IH, elem_of_set_insert, elem_of_cons. tauto.
Qed.

Lemma set_insert_all_is_set src dst : is_set dst -> is_set (set_insert_all src dst).
Proof.
  unfold set_insert_all. revert dst.
  induction src as [|x src IH]; intros dst Hd; cbn; [done|].
  by apply IH, set_insert_is_set.
Qed.

Lemma is_set_nil : is_set [].
Proof. constructor. Qed.

#[export] Hint Resolve is_set_nil set_insert_is_set set_erase_is_set
  set_insert_all_is_set : promi.
