(* ===== verification/KeyTable.v ===== *)
(** * KeyTable: tables of per-transaction entries

    [TimeTable] (maat.cpp) and [InOutTable] (ssi.cpp) are the same chained
    hash table: an array of [g_inflight_max + 1] buckets, each a doubly
    linked list of entries with a key, appended at the tail.  The clients
    only use four operations; [KeyTable] is that interface with its laws, and
    [HashTable] the implementation that satisfies them. *)

From stdpp Require Import list gmap.
From S2P Require Import Prelude.
#[local] Open Scope Z_scope.

(** Entries carry their key; [entry_new] is the entry's own [init(key)]. *)
Class TableEntry (E : Type) := {
  entry_key : E -> Z;
  entry_new : Z -> E;
  entry_key_new : forall k, entry_key (entry_new k) = k;
}.

(** What a table offers to the managers. *)
Class KeyTable (T E : Type) := {
  kt_find : Z -> T -> option E;
  kt_init : Z -> T -> T;
  kt_release : Z -> T -> T;
  kt_update : Z -> (E -> E) -> T -> T;
}.

(** What the managers rely on.  An update may not change the key. *)
Class KeyTableLaws (T E : Type) `{!TableEntry E} `{!KeyTable T E} (wf : T -> Prop) := {
  kt_find_key : forall t k e, wf t -> kt_find k t = Some e -> entry_key e = k;
  kt_init_wf : forall t k, wf t -> 0 <= k -> wf (kt_init k t);
  kt_release_wf : forall t k, wf t -> wf (kt_release k t);
  kt_update_wf : forall t k f, wf t -> (forall e, entry_key (f e) = entry_key e) ->
    wf (kt_update k f t);
  kt_find_init : forall t k k', wf t -> 0 <= k ->
    kt_find k' (kt_init k t) =
    if decide (k = k') then Some (default (entry_new k) (kt_find k t)) else kt_find k' t;
  kt_find_release : forall t k k', wf t ->
    kt_find k' (kt_release k t) = if decide (k = k') then None else kt_find k' t;
  kt_find_update : forall t k k' f, wf t -> (forall e, entry_key (f e) = entry_key e) ->
    kt_find k' (kt_update k f t) =
    if decide (k = k') then f <$> kt_find k t else kt_find k' t;
}.

(** ** The chained hash table *)

(** [table]: one list per bucket, from [head] to [tail]. *)
Abbreviation HashTable E := (list (list E)).

Section HashTable.
Context {E : Type} `{!TableEntry E}.

(** [table_size] buckets, all empty. *)
Definition ht_empty (table_size : nat) : HashTable E := replicate table_size [].

(** [key % table_size]. *)
Definition hash (t : HashTable E) (key : Z) : nat := Z.to_nat (key mod Z.of_nat (length t)).

Definition bucket (t : HashTable E) (key : Z) : list E := default [] (t !! hash t key).

Fixpoint chain_find (key : Z) (l : list E) : option E :=
  match l with
  | [] => None
  | e :: l' => if entry_key e =? key then Some e else chain_find key l'
  end.

Definition ht_find (key : Z) (t : HashTable E) : option E := chain_find key (bucket t key).

(** [if (!find(key)) LIST_PUT_TAIL(new entry)]. *)
Definition ht_init (key : Z) (t : HashTable E) : HashTable E :=
  match ht_find key t with
  | Some _ => t
  | None => <[hash t key := bucket t key ++ [entry_new key]]> t
  end.

(** [LIST_REMOVE_HT] of the entry that [find] returns. *)
Fixpoint chain_remove (key : Z) (l : list E) : list E :=
  match l with
  | [] => []
  | e :: l' => if entry_key e =? key then l' else e :: chain_remove key l'
  end.

Definition ht_release (key : Z) (t : HashTable E) : HashTable E :=
  match ht_find key t with
  | Some _ => <[hash t key := chain_remove key (bucket t key)]> t
  | None => t
  end.

(** Writing fields of the entry that [find] returns, if there is one. *)
Fixpoint chain_update (key : Z) (f : E -> E) (l : list E) : list E :=
  match l with
  | [] => []
  | e :: l' => if entry_key e =? key then f e :: l' else e :: chain_update key f l'
  end.

Definition ht_update (key : Z) (f : E -> E) (t : HashTable E) : HashTable E :=
  <[hash t key := chain_update key f (bucket t key)]> t.

#[global] Instance HashTable_KeyTable : KeyTable (HashTable E) E := {
  kt_find := ht_find;
  kt_init := ht_init;
  kt_release := ht_release;
  kt_update := ht_update;
}.

(** A chain never holds a key twice. *)
Definition ht_wf (t : HashTable E) : Prop :=
  t <> [] /\ Forall (fun l => NoDup (entry_key <$> l)) t.

Lemma hash_lt t key : t <> [] -> (hash t key < length t)%nat.
Proof.
  intros Ht. unfold hash. destruct t as [|b t]; [done|].
  pose proof (Z.mod_pos_bound key (Z.of_nat (length (b :: t)))). cbn -[Z.modulo] in *. lia.
Qed.

Lemma hash_insert t i l key : hash (<[i := l]> t) key = hash t key.
Proof. unfold hash. by rewrite length_insert. Qed.

Lemma bucket_insert t key key' l :
  t <> [] ->
  bucket (<[hash t key := l]> t) key' =
  if decide (hash t key = hash t key') then l else bucket t key'.
Proof.
  intros Ht. unfold bucket. rewrite hash_insert. case_decide as Hh.
  - rewrite <- Hh. rewrite list_lookup_insert_eq; [done|by apply hash_lt].
  - by rewrite list_lookup_insert_ne.
Qed.

Lemma chain_find_Some k l e : chain_find k l = Some e -> e ∈ l /\ entry_key e = k.
Proof.
  induction l as [|x l IH]; cbn; [done|]. case_match; bool_to_Z.
  - intros [= ->]. split; [by left|done].
  - intros [? ?]%IH. split; [by right|done].
Qed.

Lemma chain_find_None k l : chain_find k l = None <-> k ∉ (entry_key <$> l).
Proof.
  induction l as [|x l IH]; cbn; [set_solver|].
  rewrite not_elem_of_cons. destruct (Z.eqb_spec (entry_key x) k); [naive_solver|].
  rewrite IH. naive_solver.
Qed.

Lemma chain_find_app k l1 l2 :
  chain_find k (l1 ++ l2) =
  match chain_find k l1 with Some e => Some e | None => chain_find k l2 end.
Proof. induction l1 as [|x l1 IH]; cbn; [done|]. by destruct (entry_key x =? k). Qed.

Lemma chain_remove_find k k' l :
  NoDup (entry_key <$> l) ->
  chain_find k' (chain_remove k l) = if decide (k = k') then None else chain_find k' l.
Proof.
  induction l as [|x l IH]; cbn; [by case_decide|]. intros [Hx Hnd]%NoDup_cons.
  destruct (Z.eqb_spec (entry_key x) k) as [Hk|Hk].
  - case_decide; subst.
    + by apply chain_find_None.
    + by rewrite (proj2 (Z.eqb_neq _ _)).
  - cbn. rewrite (IH Hnd). case_decide; subst; [|done].
    by rewrite (proj2 (Z.eqb_neq _ _)).
Qed.

Lemma chain_remove_keys k l :
  (entry_key <$> chain_remove k l) `sublist_of` (entry_key <$> l).
Proof.
  induction l as [|x l IH]; cbn; [done|]. case_match; cbn.
  - by apply sublist_cons.
  - by apply sublist_skip.
Qed.

Lemma chain_update_find k k' f l :
  (forall e, entry_key (f e) = entry_key e) ->
  chain_find k' (chain_update k f l) =
  if decide (k = k') then f <$> chain_find k l else chain_find k' l.
Proof.
  intros Hf. induction l as [|x l IH]; cbn; [by case_decide|].
  destruct (Z.eqb_spec (entry_key x) k) as [Hk|Hk]; cbn.
  - rewrite Hf, Hk. case_decide; subst.
    + by rewrite Z.eqb_refl.
    + by rewrite !(proj2 (Z.eqb_neq _ _)).
  - rewrite IH. case_decide; subst; [|done].
    by rewrite (proj2 (Z.eqb_neq _ _)).
Qed.

Lemma chain_update_keys k f l :
  (forall e, entry_key (f e) = entry_key e) ->
  entry_key <$> chain_update k f l = entry_key <$> l.
Proof.
  intros Hf. induction l as [|x l IH]; cbn; [done|]. case_match; cbn; [by rewrite Hf|].
  by rewrite IH.
Qed.

Lemma bucket_nodup t key : ht_wf t -> NoDup (entry_key <$> bucket t key).
Proof.
  intros [_ Hf]. unfold bucket. destruct (t !! _) as [l|] eqn:El; cbn; [|constructor].
  by eapply Forall_lookup_1 in Hf.
Qed.

Lemma ht_insert_wf t key l :
  ht_wf t -> NoDup (entry_key <$> l) -> ht_wf (<[hash t key := l]> t).
Proof.
  intros [Ht Hf] Hl. split.
  - intros He%(f_equal length). rewrite length_insert in He. by destruct t.
  - by apply Forall_insert.
Qed.

Lemma ht_find_insert t key key' l :
  t <> [] ->
  ht_find key' (<[hash t key := l]> t) =
  if decide (hash t key = hash t key') then chain_find key' l else ht_find key' t.
Proof. intros Ht. unfold ht_find. rewrite bucket_insert by done. by case_decide. Qed.

Lemma ht_find_same_bucket t key key' :
  hash t key = hash t key' -> ht_find key' t = chain_find key' (bucket t key).
Proof. intros Hh. unfold ht_find, bucket. by rewrite Hh. Qed.

#[global] Instance HashTable_laws : KeyTableLaws (HashTable E) E ht_wf.
Proof.
  split; cbn.
  - intros t k e _ [_ ?]%chain_find_Some. done.
  - intros t k W Hk. unfold ht_init. destruct (ht_find k t) eqn:Ef; [done|].
    apply ht_insert_wf; [done|]. rewrite fmap_app. apply NoDup_app. split_and!.
    + by apply bucket_nodup.
    + apply chain_find_None in Ef. cbn. rewrite entry_key_new. set_solver.
    + cbn. apply NoDup_singleton.
  - intros t k W. unfold ht_release. destruct (ht_find k t); [|done].
    apply ht_insert_wf; [done|]. eapply sublist_NoDup; [by apply bucket_nodup|apply chain_remove_keys].
  - intros t k f W Hf. apply ht_insert_wf; [done|].
    rewrite chain_update_keys by done. by apply bucket_nodup.
  - intros t k k' [Ht _] Hk. unfold ht_init. destruct (ht_find k t) as [e|] eqn:Ef.
    + case_decide; subst; [by rewrite Ef|done].
    + rewrite ht_find_insert by done. case_decide as Hh.
      * rewrite chain_find_app, <- (ht_find_same_bucket t k k' Hh). cbn.
        rewrite entry_key_new. case_decide; subst.
        -- by rewrite Ef, Z.eqb_refl.
        -- rewrite (proj2 (Z.eqb_neq _ _)) by done. by case_match.
      * by rewrite decide_False by congruence.
  - intros t k k' W. unfold ht_release. destruct (ht_find k t) as [e|] eqn:Ef.
    + rewrite ht_find_insert by (by destruct W). case_decide as Hh.
      * rewrite chain_remove_find by (by apply bucket_nodup).
        by rewrite <- (ht_find_same_bucket t k k' Hh).
      * by rewrite decide_False by congruence.
    + case_decide; subst; done.
  - intros t k k' f [Ht _] Hf. unfold ht_update. rewrite ht_find_insert by done.
    case_decide as Hh.
    + rewrite chain_update_find by done. by rewrite <- (ht_find_same_bucket t k k' Hh).
    + by rewrite decide_False by congruence.
Qed.

Lemma ht_empty_wf n : (0 < n)%nat -> ht_wf (ht_empty n).
Proof.
  intros Hn. split; [destruct n; [lia|done]|]. apply Forall_replicate. constructor.
Qed.

Lemma ht_empty_find n k : ht_find k (ht_empty n) = None.
Proof.
  unfold ht_find, bucket, ht_empty.
  destruct (replicate n [] !! _) as [l|] eqn:El; [|done].
  by apply lookup_replicate in El as [-> _].
Qed.

End HashTable.

#[global] Typeclasses Opaque ht_find ht_init ht_release ht_update.
