(* ===== verification/VersionChain.v ===== *)
(** * VersionChain: version histories and request buffers

    Row_ssi, Row_wsi and Row_mvcc carry the same private routines for their
    history lists (insert by timestamp, recycle from the tail, find the
    version of a snapshot) and for their buffers of pending prewrites.  The
    routines are written once here over the payload of an entry; each row
    manager's file instantiates them and is what the manifest maps.

    A history runs from the head (newest) to the tail (oldest); [X] is what
    an entry carries besides its timestamp. *)

From stdpp Require Import gmap list sorting.
From S2P Require Import Prelude.
#[local] Open Scope Z_scope.

Record HisEntry (X : Type) := mkHis { his_ts : Z; his_val : X }.
Arguments mkHis {X} _ _.
Arguments his_ts {X} _.
Arguments his_val {X} _.

Section History.
Context {X : Type}.
Implicit Types (l : list (HisEntry X)).

(** [while (his != NULL && ts < his->ts) his = his->next;] then
    [LIST_INSERT_BEFORE] or [LIST_PUT_TAIL]. *)
Fixpoint his_insert (e : HisEntry X) (l : list (HisEntry X)) : list (HisEntry X) :=
  match l with
  | [] => [e]
  | h :: l' => if his_ts e <? his_ts h then h :: his_insert e l' else e :: h :: l'
  end.

(** [while (whis != NULL && whis->ts > ts) whis = whis->next;] *)
Fixpoint his_find (ts : Z) (l : list (HisEntry X)) : option (HisEntry X) :=
  match l with
  | [] => None
  | h :: l' => if ts <? his_ts h then his_find ts l' else Some h
  end.

(** The entries that loop passes over: those newer than the snapshot. *)
Fixpoint his_newer (ts : Z) (l : list (HisEntry X)) : list (HisEntry X) :=
  match l with
  | [] => []
  | h :: l' => if ts <? his_ts h then h :: his_newer ts l' else []
  end.

(** The loop of [clear_history], on the list read from the tail: it drops the
    tail entry while the one before it is older than the threshold, and
    remembers the payload of the last entry dropped. [n] counts the
    iterations, each of which decrements the length field. *)
Fixpoint clear_loop (th : Z) (r : list (HisEntry X)) (row : option X) (n : Z)
    : res (list (HisEntry X) * option X * Z) :=
  match r with
  | his :: r' =>
      match r' with
      | prev :: _ =>
          if his_ts prev <? th then
            assert! (his_ts his <=? his_ts prev);
            clear_loop th r' (Some (his_val his)) (n + 1)
          else Ok (r, row, n)
      | [] => Ok (r, row, n)
      end
  | [] => Ok (r, row, n)
  end.

Definition clear_chain (th : Z) (l : list (HisEntry X))
    : res (list (HisEntry X) * option X * Z) :=
  '(r, row, n) ← clear_loop th (rev l) None 0;
  Ok (rev r, row, n).

(** ** Lemmas *)

(** Newest first. *)
Definition his_sorted (l : list (HisEntry X)) : Prop :=
  StronglySorted (fun a b => his_ts b <= his_ts a) l.

Lemma elem_of_his_insert e l x : x ∈ his_insert e l <-> x = e \/ x ∈ l.
Proof.
  induction l as [|h l IH]; cbn; [set_solver|].
  destruct (_ <? _); rewrite !elem_of_cons, ?IH; tauto.
Qed.

Lemma his_insert_length e l : length (his_insert e l) = S (length l).
Proof. induction l as [|h l IH]; cbn; [done|]. destruct (_ <? _); cbn; congruence. Qed.

Lemma his_insert_sorted e l : his_sorted l -> his_sorted (his_insert e l).
Proof.
  induction l as [|h l IH]; cbn; intros Hs; [by repeat constructor|].
  pose proof Hs as [Hs' Hh]%StronglySorted_inv.
  destruct (Z.ltb_spec (his_ts e) (his_ts h)).
  - constructor; [by apply IH|]. apply Forall_forall. intros x.
    rewrite elem_of_his_insert. intros [->|Hx]; [lia|].
    by eapply Forall_forall in Hx; [|exact Hh].
  - constructor; [done|]. constructor; [done|].
    eapply Forall_impl; [exact Hh|]. cbn. lia.
Qed.

(** [his_find] returns the newest entry not newer than the snapshot. *)
Lemma his_find_Some ts l h :
  his_sorted l -> his_find ts l = Some h ->
  h ∈ l /\ his_ts h <= ts /\ forall x, x ∈ l -> his_ts x <= ts -> his_ts x <= his_ts h.
Proof.
  induction l as [|y l IH]; cbn; intros Hs; [done|].
  apply StronglySorted_inv in Hs as [Hs Hy]. destruct (Z.ltb_spec ts (his_ts y)).
  - intros (Hin & Hle & Hmax)%IH; [|done]. split_and!; [by right|done|].
    intros x [->|Hx]%elem_of_cons Hxt; [lia|by apply Hmax].
  - intros [= ->]. split_and!; [by left|lia|].
    intros x [->|Hx]%elem_of_cons Hxt; [lia|].
    by eapply Forall_forall in Hx; [|exact Hy].
Qed.

Lemma his_find_None ts l : his_find ts l = None <-> Forall (fun h => ts < his_ts h) l.
Proof.
  induction l as [|y l IH]; cbn; [by split|]. rewrite Forall_cons.
  destruct (Z.ltb_spec ts (his_ts y)); [rewrite IH; tauto|].
  split; [done|]. intros [? _]. lia.
Qed.

Lemma his_find_app ts l1 l2 :
  his_find ts (l1 ++ l2) =
  match his_find ts l1 with Some h => Some h | None => his_find ts l2 end.
Proof. induction l1 as [|y l1 IH]; cbn; [done|]. by destruct (_ <? _). Qed.

Lemma elem_of_his_newer ts l h :
  his_sorted l -> h ∈ his_newer ts l <-> h ∈ l /\ ts < his_ts h.
Proof.
  induction l as [|y l IH]; cbn; intros Hs; [set_solver|].
  apply StronglySorted_inv in Hs as [Hs Hy]. destruct (Z.ltb_spec ts (his_ts y)).
  - rewrite !elem_of_cons, IH by done. naive_solver lia.
  - rewrite elem_of_nil, elem_of_cons. split; [done|]. intros [[->|Hx] Hlt]; [lia|].
    eapply Forall_forall in Hy; [|exact Hx]. cbn in Hy. lia.
Qed.

Lemma clear_loop_cons2 th his prev r row n :
  clear_loop th (his :: prev :: r) row n =
  if his_ts prev <? th then
    assert! (his_ts his <=? his_ts prev);
    clear_loop th (prev :: r) (Some (his_val his)) (n + 1)
  else Ok (his :: prev :: r, row, n).
Proof. reflexivity. Qed.

(** The recycling loop never fails its assertion on a sorted history.  It
    splits the history: what it keeps, and a tail of recycled versions whose
    newest payload it returns; something is recycled only if the oldest kept
    version is older than the threshold. *)
Lemma clear_loop_spec th r row n :
  StronglySorted (fun a b => his_ts a <= his_ts b) r ->
  exists drop r', clear_loop th r row n =
      Ok (r', match last drop with Some e => Some (his_val e) | None => row end,
          n + Z.of_nat (length drop)) /\
    r = drop ++ r' /\
    (drop <> [] -> exists h r'', r' = h :: r'' /\ his_ts h < th).
Proof.
  revert row n. induction r as [|his r IH]; intros row n Hs.
  - exists [], []. cbn. split_and!; [f_equal; f_equal; lia|done|done].
  - destruct r as [|prev r].
    { exists [], [his]. cbn. split_and!; [f_equal; f_equal; lia|done|done]. }
    apply StronglySorted_inv in Hs as [Hs Hh]. rewrite clear_loop_cons2.
    destruct (Z.ltb_spec (his_ts prev) th) as [Hp|Hp].
    2:{ exists [], (his :: prev :: r). cbn. split_and!; [f_equal; f_equal; lia|done|done]. }
    inversion Hh as [|? ? Hle _]; subst. rewrite (proj2 (Z.leb_le _ _) Hle).
    destruct (IH (Some (his_val his)) (n + 1) Hs) as (drop & r' & E & Er & Hd).
    exists (his :: drop), r'. rewrite E. cbn -[last length Z.of_nat Z.add]. split_and!.
    + f_equal. f_equal; [f_equal|cbn [length]; lia].
      rewrite last_cons. by destruct (last drop).
    + cbn. by rewrite <- Er.
    + intros _. destruct drop as [|d drop].
      * cbn in Er. destruct r' as [|h r']; [done|]. injection Er as <- <-. eauto.
      * by apply Hd.
Qed.

Lemma StronglySorted_rev {A} (R : A -> A -> Prop) (l : list A) :
  StronglySorted R l -> StronglySorted (flip R) (rev l).
Proof.
  induction 1 as [|x l Hs IH Hx]; cbn; [constructor|].
  apply StronglySorted_app. split_and!; [|done|by repeat constructor].
  intros a b Ha Hb. apply list_elem_of_singleton in Hb as ->.
  apply list_elem_of_In, in_rev, list_elem_of_In in Ha.
  by eapply Forall_forall in Hx.
Qed.

Lemma clear_chain_spec th l :
  his_sorted l ->
  exists keep drop, clear_chain th l =
      Ok (keep, his_val <$> head drop, Z.of_nat (length drop)) /\
    l = keep ++ drop /\
    (drop <> [] -> exists h, last keep = Some h /\ his_ts h < th).
Proof.
  intros Hs. unfold clear_chain.
  destruct (clear_loop_spec th (rev l) None 0) as (drop & r' & E & Er & Hd).
  { apply StronglySorted_rev in Hs. exact Hs. }
  exists (rev r'), (rev drop). rewrite E. cbn [mbind res_bind]. split_and!.
  - f_equal. f_equal; [f_equal|by rewrite length_rev, Z.add_0_l].
    rewrite <- (rev_involutive drop) at 1. destruct (rev drop) as [|d dr]; cbn; [done|].
    by rewrite last_snoc.
  - rewrite <- rev_app_distr, <- Er. by rewrite rev_involutive.
  - intros Hne. destruct Hd as (h & r'' & -> & Hlt).
    { intros ->. done. }
    exists h. cbn. by rewrite last_snoc.
Qed.

(** ** Snapshots

    The version a reader with snapshot [ts] sees, the base row being the one
    all recycled versions have been folded into. *)
Definition version_at {D : Type} (val : X -> D) (base : D) (l : list (HisEntry X))
    (ts : Z) : D :=
  match his_find ts l with Some h => val (his_val h) | None => base end.

(** Folding what [clear_chain] returns into the base row keeps every snapshot
    at or after the newest recycled version, hence every snapshot at or after
    the threshold. *)
Lemma version_at_recycle {D : Type} (val : X -> D) base keep drop ts :
  his_sorted (keep ++ drop) ->
  (forall d, head drop = Some d -> his_ts d <= ts) ->
  version_at val (match head drop with Some d => val (his_val d) | None => base end) keep ts =
  version_at val base (keep ++ drop) ts.
Proof.
  intros Hs Hd. unfold version_at. rewrite his_find_app.
  destruct (his_find ts keep); [done|]. destruct drop as [|d drop]; cbn; [done|].
  specialize (Hd d eq_refl). by rewrite (proj2 (Z.ltb_ge _ _) Hd).
Qed.

Lemma clear_chain_newest_dropped th keep drop d :
  his_sorted (keep ++ drop) ->
  (drop <> [] -> exists h, last keep = Some h /\ his_ts h < th) ->
  head drop = Some d -> his_ts d < th.
Proof.
  intros Hs Hl Hd. destruct drop as [|d' drop]; [done|]. injection Hd as ->.
  destruct (Hl ltac:(done)) as (h & Hh & Hlt).
  assert (h ∈ keep) as Hin by (apply last_Some_elem_of; done).
  pose proof (StronglySorted_app_1_elem_of _ _ _ h d Hs Hin ltac:(by left)) as Hle.
  cbn in Hle. lia.
Qed.

End History.

(** ** Request buffers

    A buffer is a stack of requests ([STACK_PUSH] at the head). *)

Record ReqEntry := mkReq { rq_txn : TxnManager; rq_ts : Z }.

Definition rq_ptr (q : ReqEntry) : Z := tm_ptr (rq_txn q).

(** The search of [debuffer_req] for a transaction object: unlink the first
    request of it, [None] where the code asserts that there is one. *)
Fixpoint req_remove (t : TxnManager) (l : list ReqEntry)
    : option (ReqEntry * list ReqEntry) :=
  match l with
  | [] => None
  | q :: l' =>
      if tm_ptr (rq_txn q) =? tm_ptr t then Some (q, l')
      else match req_remove t l' with
           | Some (x, l'') => Some (x, q :: l'')
           | None => None
           end
  end.

Lemma req_remove_Some t l q l' :
  req_remove t l = Some (q, l') ->
  rq_ptr q = tm_ptr t /\ l ≡ₚ q :: l' /\ l' `sublist_of` l.
Proof.
  revert l'. induction l as [|x l IH]; intros l'; cbn; [done|].
  destruct (Z.eqb_spec (tm_ptr (rq_txn x)) (tm_ptr t)).
  - intros [= -> ->]. split_and!; [done|done|by apply sublist_cons].
  - destruct (req_remove t l) as [[y l'']|] eqn:E; [|done]. intros [= -> <-].
    destruct (IH _ eq_refl) as (Hp & Hperm & Hsub). split_and!; [done| |by apply sublist_skip].
    rewrite Hperm. apply Permutation_swap.
Qed.

Lemma req_remove_is_Some t l :
  tm_ptr t ∈ (rq_ptr <$> l) -> exists q l', req_remove t l = Some (q, l').
Proof.
  induction l as [|x l IH]; cbn; [set_solver|].
  destruct (Z.eqb_spec (tm_ptr (rq_txn x)) (tm_ptr t)); [eauto|].
  intros [Heq|Hin]%elem_of_cons; [by unfold rq_ptr in Heq|].
  destruct (IH Hin) as (q & l' & ->). eauto.
Qed.

Lemma req_remove_None t l : req_remove t l = None <-> tm_ptr t ∉ (rq_ptr <$> l).
Proof.
  split.
  - intros E Hin. destruct (req_remove_is_Some _ _ Hin) as (q & l' & E'). congruence.
  - intros Hn. destruct (req_remove t l) as [[q l']|] eqn:E; [|done].
    apply req_remove_Some in E as (Hp & Hperm & _). exfalso. apply Hn.
    rewrite Hperm. cbn. rewrite Hp. by left.
Qed.
