(* ===== verification/Ssi.v ===== *)
(** * Ssi: the in/out-conflict table and the SSI validator

    Model of concurrency_control/ssi.cpp and of the entry type in ssi.h.  The
    table operations are written over the [KeyTable] interface; each of them
    locks its bucket, so each is one atomic step.  The [thd_id] arguments
    only select statistics counters and are dropped. *)

From stdpp Require Import gmap list sorting relations.
From S2P Require Import Prelude StdSet KeyTable.
#[local] Open Scope Z_scope.

Inductive SSIState := SSI_RUNNING | SSI_COMMITTED | SSI_ABORTED.
#[global] Instance SSIState_eq_dec : EqDecision SSIState.
Proof. solve_decision. Defined.

(** [struct InOutTableEntry]. *)
Record InOutTableEntry := mkInOut {
  inConflict : list Z;
  outConflict : list Z;
  io_state : SSIState;
  io_commit_ts : Z;
  io_key : Z;
}.

(** [InOutTableEntry::init]. *)
Definition entry_init (key : Z) : InOutTableEntry := mkInOut [] [] SSI_RUNNING 0 key.

#[global] Instance InOut_TableEntry : TableEntry InOutTableEntry := {
  entry_key := io_key;
  entry_new := entry_init;
  entry_key_new := fun k => eq_refl;
}.

(** Field writes through an entry pointer. *)
Definition upd_in (f : list Z -> list Z) (e : InOutTableEntry) : InOutTableEntry :=
  mkInOut (f (inConflict e)) (outConflict e) (io_state e) (io_commit_ts e) (io_key e).
Definition upd_out (f : list Z -> list Z) (e : InOutTableEntry) : InOutTableEntry :=
  mkInOut (inConflict e) (f (outConflict e)) (io_state e) (io_commit_ts e) (io_key e).
Definition upd_state (s : SSIState) (e : InOutTableEntry) : InOutTableEntry :=
  mkInOut (inConflict e) (outConflict e) s (io_commit_ts e) (io_key e).
Definition upd_commit_ts (c : Z) (e : InOutTableEntry) : InOutTableEntry :=
  mkInOut (inConflict e) (outConflict e) (io_state e) c (io_key e).

Section InOutTable.
Context {T : Type} `{!KeyTable T InOutTableEntry}.
Implicit Types (t : T).

(** [value = 0] unless an entry is found. *)
Definition get_inConflict (key : Z) (t : T) : bool :=
  match kt_find key t with
  | Some e => bool_decide (inConflict e <> [])
  | None => false
  end.

(** [bool value = UINT64_MAX], that is [true], unless an entry is found. *)
Definition get_outConflict (key : Z) (t : T) : bool :=
  match kt_find key t with
  | Some e => bool_decide (outConflict e <> [])
  | None => true
  end.

Definition set_inConflict (key value : Z) (t : T) : T :=
  kt_update key (upd_in (set_insert value)) t.

Definition set_outConflict (key value : Z) (t : T) : T :=
  kt_update key (upd_out (set_insert value)) t.

Definition down_inConflict (key value : Z) (t : T) : T :=
  kt_update key (upd_in (set_erase value)) t.

Definition down_outConflict (key value : Z) (t : T) : T :=
  kt_update key (upd_out (set_erase value)) t.

(** Two loops over the sets of the entry; the bodies erase [key] from other
    entries' sets. *)
Definition clear_Conflict (key : Z) (t : T) : T :=
  match kt_find key t with
  | Some e =>
      let t1 := foldl (fun t v => down_outConflict v key t) t (inConflict e) in
      let outs := match kt_find key t1 with Some e1 => outConflict e1 | None => [] end in
      foldl (fun t v => down_inConflict v key t) t1 outs
  | None => t
  end.

Definition get_state (key : Z) (t : T) : SSIState :=
  match kt_find key t with Some e => io_state e | None => SSI_RUNNING end.

Definition set_state (key : Z) (value : SSIState) (t : T) : T :=
  kt_update key (upd_state value) t.

(** [uint64_t value = SSI_RUNNING], that is 0, unless an entry is found. *)
Definition get_commit_ts (key : Z) (t : T) : Z :=
  match kt_find key t with Some e => io_commit_ts e | None => 0 end.

Definition set_commit_ts (key value : Z) (t : T) : T :=
  kt_update key (upd_commit_ts value) t.

(** [ssi::validate]: abort a transaction with conflicts in both directions. *)
Definition validate (txn : TxnManager) (t : T) : RC :=
  if get_inConflict (tm_txn_id txn) t && get_outConflict (tm_txn_id txn) t
  then Abort else RCOK.

(** The table updates of [TxnManager::commit] and [TxnManager::abort] under
    SSI. *)
Definition commit_entry (txn : TxnManager) (t : T) : T :=
  set_state (tm_txn_id txn) SSI_COMMITTED
    (set_commit_ts (tm_txn_id txn) (tm_commit_timestamp txn) t).

Definition abort_entry (txn : TxnManager) (t : T) : T :=
  clear_Conflict (tm_txn_id txn) (set_state (tm_txn_id txn) SSI_ABORTED t).

End InOutTable.

(** The two calls that record an rw-antidependency: [r] read a version that
    [w] overwrites. *)
Definition record_edge {T} `{!KeyTable T InOutTableEntry} (r w : Z) (t : T) : T :=
  set_outConflict r w (set_inConflict w r t).

(** ** Laws of the table operations *)

Section Facts.
Context {T : Type} `{!KeyTable T InOutTableEntry} (wf : T -> Prop)
  `{!KeyTableLaws T InOutTableEntry wf}.
Implicit Types (t : T).

(** The conflict sets of a key, empty without an entry. *)
Definition ins (t : T) (k : Z) : list Z :=
  match kt_find k t with Some e => inConflict e | None => [] end.
Definition outs (t : T) (k : Z) : list Z :=
  match kt_find k t with Some e => outConflict e | None => [] end.
Definition has_entry (t : T) (k : Z) : Prop := is_Some (kt_find k t).

(** Every conflict set of the table is a [std::set]. *)
Definition sets_ok (t : T) : Prop := forall k, is_set (ins t k) /\ is_set (outs t k).

Lemma upd_in_key f (e : InOutTableEntry) : entry_key (upd_in f e) = entry_key e.
Proof. done. Qed.
Lemma upd_out_key f (e : InOutTableEntry) : entry_key (upd_out f e) = entry_key e.
Proof. done. Qed.

Lemma ins_update_in t key f k :
  wf t -> f [] = [] \/ has_entry t key ->
  ins (kt_update key (upd_in f) t) k = if decide (key = k) then f (ins t k) else ins t k.
Proof.
  intros W Hf. unfold ins. rewrite kt_find_update by done. case_decide; subst; [|done].
  destruct (kt_find k t) eqn:E; cbn; [done|]. destruct Hf as [Hf|[e He]]; congruence.
Qed.

Lemma outs_update_in t key f k : wf t -> outs (kt_update key (upd_in f) t) k = outs t k.
Proof.
  intros W. unfold outs. rewrite kt_find_update by done. case_decide; subst; [|done].
  by destruct (kt_find k t).
Qed.

Lemma ins_update_out t key f k : wf t -> ins (kt_update key (upd_out f) t) k = ins t k.
Proof.
  intros W. unfold ins. rewrite kt_find_update by done. case_decide; subst; [|done].
  by destruct (kt_find k t).
Qed.

Lemma outs_update_out t key f k :
  wf t -> f [] = [] \/ has_entry t key ->
  outs (kt_update key (upd_out f) t) k = if decide (key = k) then f (outs t k) else outs t k.
Proof.
  intros W Hf. unfold outs. rewrite kt_find_update by done. case_decide; subst; [|done].
  destruct (kt_find k t) eqn:E; cbn; [done|]. destruct Hf as [Hf|[e He]]; congruence.
Qed.

Lemma has_entry_update t key f k :
  wf t -> (forall e, entry_key (f e) = entry_key e) ->
  has_entry (kt_update key f t) k <-> has_entry t k.
Proof.
  intros W Hf. unfold has_entry. rewrite kt_find_update by done.
  case_decide; subst; [|done]. by rewrite fmap_is_Some.
Qed.

(** [l] becomes the set of keys whose [out] set loses [key]. *)
Lemma down_out_all l key t :
  wf t ->
  let t' := foldl (fun t v => down_outConflict v key t) t l in
  wf t' /\ (forall k, ins t' k = ins t k) /\
  (forall k, is_set (outs t k) -> is_set (outs t' k)) /\
  (forall k x, is_set (outs t k) ->
     x ∈ outs t' k <-> x ∈ outs t k /\ ~ (k ∈ l /\ x = key)).
Proof.
  revert t. induction l as [|v l IH]; intros t W; cbn.
  - split_and!; [done|done|done|]. intros k x _. set_solver.
  - assert (wf (down_outConflict v key t)) as W1 by (by apply kt_update_wf).
    assert (forall k, outs (down_outConflict v key t) k =
              if decide (v = k) then set_erase key (outs t k) else outs t k) as Ho.
    { intros k. apply outs_update_out; [done|by left]. }
    destruct (IH _ W1) as (W2 & Hi & Hs & Hx). split_and!.
    + done.
    + intros k. rewrite Hi. by apply ins_update_out.
    + intros k Hk. apply Hs. rewrite Ho. case_decide; auto with promi.
    + intros k x Hk. rewrite Hx.
      2:{ rewrite Ho. case_decide; auto with promi. }
      rewrite Ho, elem_of_cons. case_decide; subst.
      * rewrite elem_of_set_erase by done. naive_solver.
      * naive_solver.
Qed.

Lemma down_in_all l key t :
  wf t ->
  let t' := foldl (fun t v => down_inConflict v key t) t l in
  wf t' /\ (forall k, outs t' k = outs t k) /\
  (forall k, is_set (ins t k) -> is_set (ins t' k)) /\
  (forall k x, is_set (ins t k) ->
     x ∈ ins t' k <-> x ∈ ins t k /\ ~ (k ∈ l /\ x = key)).
Proof.
  revert t. induction l as [|v l IH]; intros t W; cbn.
  - split_and!; [done|done|done|]. intros k x _. set_solver.
  - assert (wf (down_inConflict v key t)) as W1 by (by apply kt_update_wf).
    assert (forall k, ins (down_inConflict v key t) k =
              if decide (v = k) then set_erase key (ins t k) else ins t k) as Ho.
    { intros k. apply ins_update_in; [done|by left]. }
    destruct (IH _ W1) as (W2 & Hi & Hs & Hx). split_and!.
    + done.
    + intros k. rewrite Hi. by apply outs_update_in.
    + intros k Hk. apply Hs. rewrite Ho. case_decide; auto with promi.
    + intros k x Hk. rewrite Hx.
      2:{ rewrite Ho. case_decide; auto with promi. }
      rewrite Ho, elem_of_cons. case_decide; subst.
      * rewrite elem_of_set_erase by done. naive_solver.
      * naive_solver.
Qed.

(** The two directions of the table agree on every pair of entries that
    concerns [key]. *)
Definition sym_at (t : T) (key : Z) : Prop :=
  forall v, v <> key -> has_entry t v ->
    (key ∈ outs t v <-> v ∈ ins t key) /\ (key ∈ ins t v <-> v ∈ outs t key).

Lemma clear_Conflict_spec key t :
  wf t -> sets_ok t -> has_entry t key ->
  let t' := clear_Conflict key t in
  wf t' /\ sets_ok t' /\
  (forall k x, x ∈ outs t' k <-> x ∈ outs t k /\ ~ (k ∈ ins t key /\ x = key)) /\
  (forall k x, k <> key ->
     x ∈ ins t' k <-> x ∈ ins t k /\ ~ (k ∈ outs t key /\ x = key)).
Proof.
  intros W Hok [e He]. unfold clear_Conflict. rewrite He. cbn zeta.
  destruct (down_out_all (inConflict e) key t W) as (W1 & Hi1 & Hs1 & Hx1).
  set (t1 := foldl (fun t v => down_outConflict v key t) t (inConflict e)) in *.
  fold (outs t1 key).
  destruct (down_in_all (outs t1 key) key t1 W1) as (W2 & Ho2 & Hs2 & Hx2).
  assert (inConflict e = ins t key) as Hek by (unfold ins; by rewrite He).
  rewrite Hek in Hx1. split_and!.
  - done.
  - intros k. split; [apply Hs2; rewrite Hi1; apply Hok|].
    rewrite Ho2. apply Hs1, Hok.
  - intros k x. rewrite Ho2. apply Hx1, Hok.
  - intros k x Hk. rewrite Hx2 by (rewrite Hi1; apply Hok). rewrite Hi1.
    rewrite Hx1 by apply Hok. naive_solver.
Qed.

Lemma ins_nil_no_entry t k : ~ has_entry t k -> ins t k = [] /\ outs t k = [].
Proof using Type.
  unfold has_entry, ins, outs. destruct (kt_find k t); [|done]. intros H.
  destruct H. eauto.
Qed.

Lemma conflicts_upd_state key s t k :
  wf t -> ins (set_state key s t) k = ins t k /\ outs (set_state key s t) k = outs t k.
Proof.
  intros W. unfold ins, outs, set_state. rewrite kt_find_update by done.
  case_decide; subst; [|done]. by destruct (kt_find k t).
Qed.

(** Updates that leave the state field alone. *)
Lemma get_state_update key f t k :
  wf t -> (forall e, entry_key (f e) = entry_key e) ->
  (forall e, io_state (f e) = io_state e) -> get_state k (kt_update key f t) = get_state k t.
Proof.
  intros W Hk Hs. unfold get_state. rewrite kt_find_update by done.
  case_decide; subst; [|done]. destruct (kt_find k t); cbn; auto.
Qed.

Lemma get_state_fold (g : Z -> InOutTableEntry -> InOutTableEntry) l t k :
  (forall v e, entry_key (g v e) = entry_key e) ->
  (forall v e, io_state (g v e) = io_state e) -> wf t ->
  get_state k (foldl (fun t v => kt_update v (g v) t) t l) = get_state k t.
Proof.
  intros Hk Hs. revert t. induction l as [|v l IH]; intros t W; cbn; [done|].
  rewrite IH by (by apply kt_update_wf). by apply get_state_update.
Qed.

Lemma clear_Conflict_state key t k :
  wf t -> get_state k (clear_Conflict key t) = get_state k t.
Proof.
  intros W. unfold clear_Conflict. destruct (kt_find key t) as [e|]; [|done].
  destruct (down_out_all (inConflict e) key t W) as (W1 & _).
  unfold down_inConflict. rewrite (get_state_fold (fun v => upd_in (set_erase key))) by done.
  unfold down_outConflict. by rewrite (get_state_fold (fun v => upd_out (set_erase key))).
Qed.

Lemma set_state_sym key s t : wf t -> sym_at t key -> sym_at (set_state key s t) key.
Proof.
  intros W Hs v Hv He. unfold set_state in He. rewrite has_entry_update in He by done.
  destruct (conflicts_upd_state key s t v W) as [-> ->].
  destruct (conflicts_upd_state key s t key W) as [-> ->]. by apply Hs.
Qed.

(** ** Recording conflicts *)

Definition record_all (es : list (Z * Z)) (t : T) : T :=
  foldl (fun t '(r, w) => record_edge r w t) t es.

Lemma record_edge_wf r w t : wf t -> wf (record_edge r w t).
Proof. intros W. by apply kt_update_wf; [apply kt_update_wf|]. Qed.

Lemma record_edge_entry r w t k :
  wf t -> has_entry (record_edge r w t) k <-> has_entry t k.
Proof.
  intros W. unfold record_edge, set_outConflict.
  rewrite has_entry_update; [|by apply kt_update_wf|done].
  by apply has_entry_update.
Qed.

Lemma elem_of_insert_update x v l : x ∈ set_insert v l <-> x = v \/ x ∈ l.
Proof. apply elem_of_set_insert. Qed.

Lemma record_edge_ins r w t k x :
  wf t -> x ∈ ins (record_edge r w t) k <-> x ∈ ins t k \/ (has_entry t k /\ k = w /\ x = r).
Proof.
  intros W. unfold record_edge, set_outConflict, set_inConflict.
  rewrite ins_update_out by (by apply kt_update_wf).
  unfold ins, has_entry. rewrite kt_find_update by done. case_decide; subst; [|naive_solver].
  destruct (kt_find k t) as [e|]; cbn.
  - rewrite elem_of_set_insert. naive_solver.
  - split; [set_solver|]. intros [?|[[? ?] _]]; done.
Qed.

Lemma record_edge_outs r w t k x :
  wf t -> x ∈ outs (record_edge r w t) k <-> x ∈ outs t k \/ (has_entry t k /\ k = r /\ x = w).
Proof.
  intros W. unfold record_edge, set_outConflict, set_inConflict. unfold outs at 1.
  rewrite kt_find_update; [|by apply kt_update_wf|done]. case_decide; subst.
  - rewrite kt_find_update by done. unfold outs, has_entry. case_decide; subst;
      destruct (kt_find k t) as [e|]; cbn;
      rewrite ?elem_of_set_insert; split; try naive_solver;
      intros [?|[[? ?] _]]; done.
  - fold (outs (kt_update w (upd_in (set_insert r)) t) k).
    rewrite outs_update_in by done. naive_solver.
Qed.

Lemma record_all_spec es t :
  wf t ->
  wf (record_all es t) /\
  (forall k, has_entry (record_all es t) k <-> has_entry t k) /\
  (forall k x, x ∈ ins (record_all es t) k <-> x ∈ ins t k \/ (has_entry t k /\ (x, k) ∈ es)) /\
  (forall k x, x ∈ outs (record_all es t) k <-> x ∈ outs t k \/ (has_entry t k /\ (k, x) ∈ es)).
Proof.
  unfold record_all. revert t. induction es as [|[r w] es IH]; intros t W; cbn.
  - split_and!; [done|done|set_solver|set_solver].
  - destruct (IH _ (record_edge_wf r w t W)) as (W' & Hh & Hi & Ho).
    split_and!; [done| | |]; intros; rewrite ?Hh, ?Hi, ?Ho, record_edge_entry by done.
    + done.
    + rewrite record_edge_ins, elem_of_cons by done. naive_solver.
    + rewrite record_edge_outs, elem_of_cons by done. naive_solver.
Qed.

(** Recording keeps the two directions in agreement for a transaction that
    has an entry, and the sets are sets. *)
Lemma record_all_sym es t key :
  wf t -> has_entry t key -> sym_at t key -> sym_at (record_all es t) key.
Proof.
  intros W He Hs v Hv. destruct (record_all_spec es t W) as (_ & Hh & Hi & Ho).
  rewrite Hh. intros Hev. rewrite !Hi, !Ho. specialize (Hs v Hv Hev). naive_solver.
Qed.

Lemma record_edge_sets_ok r w t : wf t -> sets_ok t -> sets_ok (record_edge r w t).
Proof.
  intros W Hok k. unfold record_edge, set_outConflict, set_inConflict.
  split.
  - rewrite ins_update_out by (by apply kt_update_wf). unfold ins.
    rewrite kt_find_update by done. pose proof (proj1 (Hok k)) as Hk. unfold ins in Hk.
    case_decide; subst; [|done]. destruct (kt_find k t); cbn; auto with promi.
  - pose proof (proj2 (Hok k)) as Hk. rewrite <- (outs_update_in t w (set_insert r) k W) in Hk.
    unfold outs in *. rewrite kt_find_update; [|by apply kt_update_wf|done].
    case_decide; subst; [|done]. destruct (kt_find k _); cbn; auto with promi.
Qed.

Lemma record_all_sets_ok es t : wf t -> sets_ok t -> sets_ok (record_all es t).
Proof.
  unfold record_all. revert t. induction es as [|[r w] es IH]; intros t W Hok; cbn; [done|].
  apply IH; [by apply record_edge_wf|by apply record_edge_sets_ok].
Qed.

End Facts.

Lemma validate_spec {T} `{!KeyTable T InOutTableEntry} txn (t : T) :
  validate txn t = Abort <->
  ins t (tm_txn_id txn) <> [] /\ outs t (tm_txn_id txn) <> [].
Proof.
  unfold validate, get_inConflict, get_outConflict, ins, outs.
  destruct (kt_find _ t) as [e|]; [|naive_solver].
  repeat case_bool_decide; cbn; naive_solver.
Qed.

(** ** The program never creates an entry

    The calls of InOutTable operations in the repository are those of
    [Row_ssi::access], [TxnManager::commit], [TxnManager::abort] and
    [ssi::validate].  [table_step] lists the ones that write; the overload
    [InOutTable::init(thd_id, key)] that inserts an entry is not among them
    because nothing calls it. *)

Inductive table_step {T} `{!KeyTable T InOutTableEntry} : T -> T -> Prop :=
| ts_in key v t : table_step t (set_inConflict key v t)
| ts_out key v t : table_step t (set_outConflict key v t)
| ts_commit txn t : table_step t (commit_entry txn t)
| ts_abort txn t : table_step t (abort_entry txn t).

Section NoEntries.
Context {T : Type} `{!KeyTable T InOutTableEntry} (wf : T -> Prop)
  `{!KeyTableLaws T InOutTableEntry wf}.

Definition no_entries (t : T) : Prop := wf t /\ forall k, kt_find k t = None.

Lemma no_entries_update key f t :
  (forall e, entry_key (f e) = entry_key e) -> no_entries t -> no_entries (kt_update key f t).
Proof.
  intros Hf [W Hn]. split; [by apply kt_update_wf|]. intros k.
  rewrite kt_find_update by done. case_decide; by rewrite Hn.
Qed.

Lemma no_entries_step t t' : no_entries t -> table_step t t' -> no_entries t'.
Proof.
  intros Hn St. destruct St.
  - by apply no_entries_update.
  - by apply no_entries_update.
  - by apply no_entries_update; [|apply no_entries_update].
  - assert (no_entries (set_state (tm_txn_id txn) SSI_ABORTED t)) as [W H]
      by (by apply no_entries_update).
    unfold abort_entry, clear_Conflict. by rewrite H.
Qed.

Lemma no_entries_validate txn t : no_entries t -> validate txn t = RCOK.
Proof. intros [_ Hn]. unfold validate, get_inConflict. by rewrite Hn. Qed.

End NoEntries.

(** ** Properties *)

(** The validator detects pivots.  Start from a table without conflicts
    and record any sequence of rw-antidependencies; then validation of a
    transaction that has an entry returns Abort exactly when the sequence
    contains an edge into it and an edge out of it. *)
Theorem validate_detects_pivots (es : list (Z * Z)) (txn : TxnManager)
    (t : HashTable InOutTableEntry) :
  ht_wf t -> has_entry t (tm_txn_id txn) -> (forall k, ins t k = [] /\ outs t k = []) ->
  validate txn (record_all es t) = Abort <->
  (exists r, (r, tm_txn_id txn) ∈ es) /\ (exists w, (tm_txn_id txn, w) ∈ es).
Proof.
  intros W He H0. destruct (record_all_spec ht_wf es t W) as (_ & _ & Hi & Ho).
  rewrite validate_spec, !not_nil_elem. destruct (H0 (tm_txn_id txn)) as [E1 E2].
  setoid_rewrite Hi. setoid_rewrite Ho. rewrite E1, E2. setoid_rewrite elem_of_nil.
  naive_solver.
Qed.

(** An abort leaves no trace.  If the two directions of the table agree
    for the aborted transaction, then after the table updates of
    [TxnManager::abort] no other entry mentions it, and every other conflict
    is kept. *)
Theorem abort_leaves_no_trace (txn : TxnManager) (t : HashTable InOutTableEntry) :
  ht_wf t -> sets_ok t -> has_entry t (tm_txn_id txn) -> sym_at t (tm_txn_id txn) ->
  let t' := abort_entry txn t in
  get_state (tm_txn_id txn) t' = SSI_ABORTED /\
  (forall v, v <> tm_txn_id txn -> (tm_txn_id txn ∉ ins t' v) /\ (tm_txn_id txn ∉ outs t' v)) /\
  (forall v x, v <> tm_txn_id txn -> x <> tm_txn_id txn ->
     (x ∈ ins t' v <-> x ∈ ins t v) /\ (x ∈ outs t' v <-> x ∈ outs t v)).
Proof.
  intros W Hok He Hsym. set (k := tm_txn_id txn) in *.
  set (t0 := set_state k SSI_ABORTED t).
  assert (ht_wf t0) as W0 by (by apply (kt_update_wf (wf := ht_wf))).
  assert (forall v, ins t0 v = ins t v /\ outs t0 v = outs t v) as Hc
    by (intros v; by apply (conflicts_upd_state ht_wf)).
  assert (has_entry t0 k) as He0 by (by apply (has_entry_update ht_wf)).
  assert (sets_ok t0) as Hok0.
  { intros v. destruct (Hc v) as [-> ->]. apply Hok. }
  destruct (clear_Conflict_spec ht_wf k t0 W0 Hok0 He0) as (W1 & _ & Ho & Hi).
  pose proof (set_state_sym ht_wf k SSI_ABORTED t W Hsym) as Hsym0. fold t0 in Hsym0.
  cbn zeta. unfold abort_entry. fold k t0. split_and!.
  - rewrite (clear_Conflict_state ht_wf) by done. unfold get_state, t0, set_state.
    rewrite (kt_find_update (wf := ht_wf)) by done. rewrite decide_True by done.
    by destruct He as [e ->].
  - intros v Hv. rewrite Ho, (Hi v _ Hv).
    destruct (decide (has_entry t0 v)) as [Hev|Hev].
    + destruct (Hsym0 v Hv Hev) as [H1 H2]. naive_solver.
    + destruct (ins_nil_no_entry t0 v Hev) as [-> ->]. set_solver.
  - intros v x Hv Hx. rewrite Ho, (Hi v x Hv). destruct (Hc v) as [-> ->]. naive_solver.
Qed.

(** Validation is vacuous as the program stands.  From the empty table
    that [InOutTable::init()] builds, whatever sequence of table updates the
    program performs, no entry ever exists, so every conflict it records is
    lost and [ssi::validate] returns RCOK for every transaction. *)
Theorem ssi_validate_vacuous (n : nat) (t : HashTable InOutTableEntry) (txn : TxnManager) :
  (0 < n)%nat -> rtc table_step (ht_empty n) t ->
  validate txn t = RCOK /\ forall k, kt_find k t = None.
Proof.
  intros Hn R.
  assert (no_entries ht_wf t) as Hne.
  { eapply rtc_invariant; [|apply (no_entries_step ht_wf)|exact R].
    split; [by apply ht_empty_wf|]. intros k. apply ht_empty_find. }
  split; [by apply (no_entries_validate ht_wf)|apply Hne].
Qed.

(** *** Witnesses *)

Definition ex_ssi_txn (id : Z) : TxnManager := mkTxn id id 0 id (10 * id) false.

(** Three transactions registered in a table of five buckets (1 and 6 share
    one). *)
Definition ex_table : HashTable InOutTableEntry :=
  kt_init 6 (kt_init 2 (kt_init 1 (ht_empty 5))).

Lemma ex_table_wf : ht_wf ex_table.
Proof. repeat apply (kt_init_wf (wf := ht_wf)); try lia. by apply ht_empty_wf; lia. Qed.

Lemma ex_table_no_conflicts k : ins ex_table k = [] /\ outs ex_table k = [].
Proof.
  unfold ins, outs, ex_table.
  rewrite !(kt_find_init (wf := ht_wf));
    repeat (first [apply (kt_init_wf (wf := ht_wf)) | lia | by apply ht_empty_wf; lia]).
  assert (forall k, kt_find k (ht_empty 5 : HashTable InOutTableEntry) = None) as E
    by (intros; apply ht_empty_find).
  rewrite !E. repeat case_decide; done.
Qed.

Lemma ex_table_sets_ok : sets_ok ex_table.
Proof. intros k. destruct (ex_table_no_conflicts k) as [-> ->]. auto with promi. Qed.

Lemma ex_table_sym k : sym_at ex_table k.
Proof.
  intros v _ _. destruct (ex_table_no_conflicts k) as [-> ->].
  destruct (ex_table_no_conflicts v) as [-> ->]. set_solver.
Qed.

Lemma validate_detects_pivots_witness :
  validate (ex_ssi_txn 2) (record_all [(1, 2); (2, 6)] ex_table) = Abort.
Proof.
  apply (validate_detects_pivots [(1, 2); (2, 6)] (ex_ssi_txn 2) ex_table).
  - exact ex_table_wf.
  - eexists. reflexivity.
  - exact ex_table_no_conflicts.
  - split; [exists 1; by left|exists 6; right; by left].
Defined.

Lemma abort_leaves_no_trace_witness :
  (2 ∉ outs (abort_entry (ex_ssi_txn 2) (record_all [(1, 2); (2, 6); (1, 6)] ex_table)) 1) /\
  6 ∈ outs (abort_entry (ex_ssi_txn 2) (record_all [(1, 2); (2, 6); (1, 6)] ex_table)) 1.
Proof.
  destruct (abort_leaves_no_trace (ex_ssi_txn 2) (record_all [(1, 2); (2, 6); (1, 6)] ex_table))
    as (_ & Hn & Hk).
  - exact (proj1 (record_all_spec ht_wf _ _ ex_table_wf)).
  - exact (record_all_sets_ok ht_wf _ _ ex_table_wf ex_table_sets_ok).
  - apply (bool_decide_eq_true_1 (is_Some _)). vm_compute. reflexivity.
  - apply (record_all_sym ht_wf); [exact ex_table_wf|eexists; reflexivity|apply ex_table_sym].
  - split; [apply (Hn 1); done|].
    apply (Hk 1 6); [done|done|]. vm_compute. right. by left.
Defined.

Lemma ssi_validate_vacuous_witness :
  validate (ex_ssi_txn 2)
    (set_outConflict 2 6 (set_inConflict 2 1 (ht_empty 5 : HashTable InOutTableEntry))) = RCOK.
Proof.
  refine (proj1 (ssi_validate_vacuous 5 _ (ex_ssi_txn 2) ltac:(lia) _)).
  eapply rtc_l; [apply (ts_in 2 1)|]. eapply rtc_l; [apply (ts_out 2 6)|apply rtc_refl].
Defined.
