(* ===== verification/RowSsi.v ===== *)
(** * Row_ssi: the serializable-snapshot-isolation row manager

    Model of concurrency_control/row_ssi.cpp, the row manager that config.h
    selects (CC_ALG is SSI).  [D] is the content of a row ([row_t]); the base
    row [_row] and the versions hold such contents.  [access] runs under the
    row latch and is one step; what [glob_manager.get_min_ts] returns is an
    argument.  Following a NULL pointer is an [AssertFail] like a failed
    assertion.  The read history is part of the state although SSI never
    inserts into it. *)

From stdpp Require Import gmap list sorting.
From S2P Require Import Prelude StdSet KeyTable VersionChain Ssi.
#[local] Open Scope Z_scope.

Record SSILockEntry := mkSLE { sle_type : lock_t; sle_txn : Z }.

(** A history entry carries the writer's id and the row version. *)
Abbreviation SSIHisEntry D := (HisEntry (Z * option D)).

Record Row_ssi (D : Type) := mkRowSsi {
  si_read_lock : list SSILockEntry;
  write_lock : list SSILockEntry;
  row_base : D;
  prereq_mvcc : list ReqEntry;
  readhis : list (SSIHisEntry D);
  writehis : list (SSIHisEntry D);
  whis_len : Z;
  rhis_len : Z;
  preq_len : Z;
}.
Arguments mkRowSsi {D} _ _ _ _ _ _ _ _ _.
Arguments si_read_lock {D} _.
Arguments write_lock {D} _.
Arguments row_base {D} _.
Arguments prereq_mvcc {D} _.
Arguments readhis {D} _.
Arguments writehis {D} _.
Arguments whis_len {D} _.
Arguments rhis_len {D} _.
Arguments preq_len {D} _.

Section RowSsi.
Context {D : Type}.
(** [g_his_recycle_len] and [g_max_pre_req]. *)
Context (g_his_recycle_len g_max_pre_req : Z).
Context {T : Type} `{!KeyTable T InOutTableEntry}.
Implicit Types (r : Row_ssi D).

Definition init (row : D) : Row_ssi D := mkRowSsi [] [] row [] [] [] 0 0 0.

(** [STACK_PUSH] on the list of the lock's mode. *)
Definition get_lock (type : lock_t) (txn : TxnManager) (r : Row_ssi D) : Row_ssi D :=
  let e := mkSLE type (tm_txn_id txn) in
  mkRowSsi
    (if bool_decide (type = LOCK_SH) then e :: si_read_lock r else si_read_lock r)
    (if bool_decide (type = LOCK_EX) then e :: write_lock r else write_lock r)
    (row_base r) (prereq_mvcc r) (readhis r) (writehis r)
    (whis_len r) (rhis_len r) (preq_len r).

(** The loop unlinks the first entry of the transaction; it clears that
    entry's [next], so its next iteration is its last. *)
Fixpoint unlink_first (id : Z) (l : list SSILockEntry) : list SSILockEntry :=
  match l with
  | [] => []
  | e :: l' => if sle_txn e =? id then l' else e :: unlink_first id l'
  end.

Definition release_lock (type : lock_t) (txn : TxnManager) (r : Row_ssi D) : Row_ssi D :=
  mkRowSsi
    (if bool_decide (type = LOCK_SH) then unlink_first (tm_txn_id txn) (si_read_lock r)
     else si_read_lock r)
    (if bool_decide (type = LOCK_EX) then unlink_first (tm_txn_id txn) (write_lock r)
     else write_lock r)
    (row_base r) (prereq_mvcc r) (readhis r) (writehis r)
    (whis_len r) (rhis_len r) (preq_len r).

(** [row = None] is the NULL row that selects the read history. *)
Definition insert_history (ts : Z) (txn : TxnManager) (row : option D) (r : Row_ssi D)
    : Row_ssi D :=
  let e := mkHis ts (tm_txn_id txn, row) in
  match row with
  | Some _ =>
      mkRowSsi (si_read_lock r) (write_lock r) (row_base r) (prereq_mvcc r) (readhis r)
        (his_insert e (writehis r)) (wrap64 (whis_len r + 1)) (rhis_len r) (preq_len r)
  | None =>
      mkRowSsi (si_read_lock r) (write_lock r) (row_base r) (prereq_mvcc r)
        (his_insert e (readhis r)) (writehis r) (whis_len r) (wrap64 (rhis_len r + 1))
        (preq_len r)
  end.

Definition his_row (x : option (Z * option D)) : option D :=
  match x with Some v => snd v | None => None end.

(** The row returned is that of the last entry recycled. *)
Definition clear_history (type : TsType) (ts : Z) (r : Row_ssi D)
    : res (option D * Row_ssi D) :=
  match type with
  | R_REQ =>
      '(l, x, n) ← clear_chain ts (readhis r);
      Ok (his_row x,
          mkRowSsi (si_read_lock r) (write_lock r) (row_base r) (prereq_mvcc r) l
            (writehis r) (whis_len r) (wrap64 (rhis_len r - n)) (preq_len r))
  | W_REQ =>
      '(l, x, n) ← clear_chain ts (writehis r);
      Ok (his_row x,
          mkRowSsi (si_read_lock r) (write_lock r) (row_base r) (prereq_mvcc r)
            (readhis r) l (wrap64 (whis_len r - n)) (rhis_len r) (preq_len r))
  | _ => AssertFail
  end.

Definition buffer_req (type : TsType) (txn : TxnManager) (r : Row_ssi D) : Row_ssi D :=
  match type with
  | P_REQ =>
      mkRowSsi (si_read_lock r) (write_lock r) (row_base r)
        (mkReq txn (tm_start_timestamp txn) :: prereq_mvcc r) (readhis r) (writehis r)
        (whis_len r) (rhis_len r) (wrap64 (preq_len r + 1))
  | _ => r
  end.

(** [debuffer_req(P_REQ, txn)]: the request must be there. *)
Definition debuffer_req (txn : TxnManager) (r : Row_ssi D) : res (Row_ssi D) :=
  match req_remove txn (prereq_mvcc r) with
  | Some (_, l) =>
      Ok (mkRowSsi (si_read_lock r) (write_lock r) (row_base r) l (readhis r) (writehis r)
            (whis_len r) (rhis_len r) (wrap64 (preq_len r - 1)))
  | None => AssertFail
  end.

(** The version a snapshot reads: [whis == NULL ? _row : whis->row]. *)
Definition read_version (start_ts : Z) (r : Row_ssi D) : option D :=
  match his_find start_ts (writehis r) with
  | Some h => snd (his_val h)
  | None => Some (row_base r)
  end.

(** Body of the R_REQ branch: take the SI-read lock, record a conflict with
    every other holder of the write lock, read, record a conflict with every
    writer of a newer version. *)
Definition access_read (txn : TxnManager) (r : Row_ssi D) (t : T)
    : option D * Row_ssi D * T :=
  let id := tm_txn_id txn in
  let r1 := get_lock LOCK_SH txn r in
  let t1 := foldl (fun t w => if sle_txn w =? id then t else record_edge id (sle_txn w) t)
              t (write_lock r1) in
  let cur := read_version (tm_start_timestamp txn) r1 in
  let t2 := foldl (fun t h => record_edge id (fst (his_val h)) t)
              t1 (his_newer (tm_start_timestamp txn) (writehis r1)) in
  (cur, r1, t2).

(** First loop of the P_REQ branch: a committed reader that ended after the
    writer started and has an incoming conflict. *)
Definition committed_pivot (txn : TxnManager) (t : T) (rd : SSILockEntry) : bool :=
  negb (sle_txn rd =? tm_txn_id txn) &&
  bool_decide (get_state (sle_txn rd) t = SSI_COMMITTED) &&
  (tm_start_timestamp txn <? get_commit_ts (sle_txn rd) t) &&
  get_inConflict (sle_txn rd) t.

(** Second loop: which readers the writer conflicts with, tested against the
    table as the loop has left it. *)
Definition concurrent_reader (txn : TxnManager) (t : T) (rd : SSILockEntry) : bool :=
  negb (sle_txn rd =? tm_txn_id txn) &&
  negb (bool_decide (get_state (sle_txn rd) t = SSI_ABORTED)) &&
  negb (bool_decide (get_state (sle_txn rd) t = SSI_COMMITTED) &&
        (get_commit_ts (sle_txn rd) t <=? tm_start_timestamp txn)).

Definition access_prewrite (txn : TxnManager) (r : Row_ssi D) (t : T)
    : RC * Row_ssi D * T :=
  let id := tm_txn_id txn in
  let r1 := get_lock LOCK_EX txn r in
  if existsb (committed_pivot txn t) (si_read_lock r1) then (Abort, r1, t)
  else
    let t1 := foldl (fun t rd => if concurrent_reader txn t rd
                                 then set_inConflict id (sle_txn rd)
                                        (set_outConflict (sle_txn rd) id t)
                                 else t) t (si_read_lock r1) in
    if preq_len r1 <? g_max_pre_req then (RCOK, buffer_req P_REQ txn r1, t1)
    else (Abort, r1, t1).

(** [writehistail->prev->ts]. *)
Definition tail_prev_ts {X} (l : list (HisEntry X)) : res Z :=
  match rev l with
  | _ :: p :: _ => Ok (his_ts p)
  | _ => AssertFail
  end.

Definition set_base (row : D) (r : Row_ssi D) : Row_ssi D :=
  mkRowSsi (si_read_lock r) (write_lock r) row (prereq_mvcc r) (readhis r) (writehis r)
    (whis_len r) (rhis_len r) (preq_len r).

(** The recycling that follows a successful access; [t_th] is the value of
    [glob_manager.get_min_ts]. *)
Definition recycle (t_th : Z) (r : Row_ssi D) : res (Row_ssi D) :=
  if (g_his_recycle_len <? whis_len r) || (g_his_recycle_len <? rhis_len r) then
    r1 ← match last (readhis r) with
         | Some h => if his_ts h <? t_th
                     then '(_, r1) ← clear_history R_REQ t_th r; Ok r1
                     else Ok r
         | None => Ok r
         end;
    if 1 <? whis_len r1 then
      p ← tail_prev_ts (writehis r1);
      if p <? t_th then
        '(latest, r2) ← clear_history W_REQ t_th r1;
        Ok (match latest with Some row => set_base row r2 | None => r2 end)
      else Ok r1
    else Ok r1
  else Ok r.

(** [Row_ssi::access].  The second component is what the R_REQ branch stores
    in [txn->cur_row]. *)
Definition access (txn : TxnManager) (type : TsType) (row : option D) (t_th : Z)
    (r : Row_ssi D) (t : T) : res (RC * option D * Row_ssi D * T) :=
  match type with
  | R_REQ =>
      let '(cur, r1, t1) := access_read txn r t in
      r2 ← recycle t_th r1;
      Ok (RCOK, cur, r2, t1)
  | P_REQ =>
      let '(rc, r1, t1) := access_prewrite txn r t in
      if bool_decide (rc = RCOK)
      then r2 ← recycle t_th r1; Ok (RCOK, None, r2, t1)
      else Ok (rc, None, r1, t1)
  | W_REQ =>
      let r1 := insert_history (tm_commit_timestamp txn) txn row
                  (release_lock LOCK_EX txn r) in
      r2 ← debuffer_req txn r1;
      r3 ← recycle t_th r2;
      Ok (RCOK, None, r3, t)
  | XP_REQ =>
      r1 ← debuffer_req txn (release_lock LOCK_SH txn (release_lock LOCK_EX txn r));
      r2 ← recycle t_th r1;
      Ok (RCOK, None, r2, t)
  end.
End RowSsi.

(** ** Invariant *)

Section Invariant.
Context {D : Type} (g_his_recycle_len g_max_pre_req : Z).
Context {T : Type} `{!KeyTable T InOutTableEntry}.
Hypothesis recycle_len_pos : 0 <= g_his_recycle_len.
Implicit Types (r : Row_ssi D).

(** The histories are sorted, every version has a row, and the three length
    fields are the lengths of their lists. *)
Record row_ok (r : Row_ssi D) : Prop := {
  ok_sorted : his_sorted (writehis r);
  ok_rows : Forall (fun h => is_Some (snd (his_val h))) (writehis r);
  ok_readhis : readhis r = [];
  ok_rlen : rhis_len r = 0;
  ok_wlen : whis_len r = Z.of_nat (length (writehis r));
  ok_plen : preq_len r = Z.of_nat (length (prereq_mvcc r));
  ok_wbound : Z.of_nat (length (writehis r)) <= UINT64_MAX;
  ok_pbound : Z.of_nat (length (prereq_mvcc r)) <= UINT64_MAX;
}.

Lemma row_ok_init (row : D) : row_ok (init row).
Proof. split; cbn; try done; constructor. Qed.

Lemma get_lock_ok ty txn r : row_ok r -> row_ok (get_lock ty txn r).
Proof. intros []. by split. Qed.

Lemma release_lock_ok ty txn r : row_ok r -> row_ok (release_lock ty txn r).
Proof. intros []. by split. Qed.

Lemma insert_history_ok ts txn row r :
  row_ok r -> Z.of_nat (length (writehis r)) < UINT64_MAX ->
  row_ok (insert_history ts txn (Some row) r).
Proof.
  intros [] Hb. split; cbn; auto.
  - by apply his_insert_sorted.
  - apply Forall_forall. intros h [->|Hh]%elem_of_his_insert; [by eexists|].
    by eapply Forall_forall in ok_rows0.
  - rewrite ok_wlen0, his_insert_length, wrap64_small; lia.
  - rewrite his_insert_length. lia.
Qed.

Lemma buffer_req_ok txn r :
  row_ok r -> Z.of_nat (length (prereq_mvcc r)) < UINT64_MAX -> row_ok (buffer_req P_REQ txn r).
Proof.
  intros [] Hb. split; cbn; auto; [|lia]. rewrite ok_plen0, wrap64_small; lia.
Qed.

Lemma debuffer_req_ok txn r :
  row_ok r -> tm_ptr txn ∈ (rq_ptr <$> prereq_mvcc r) ->
  exists r' q l, debuffer_req txn r = Ok r' /\ row_ok r' /\
    req_remove txn (prereq_mvcc r) = Some (q, l) /\ prereq_mvcc r' = l /\
    writehis r' = writehis r /\ row_base r' = row_base r.
Proof.
  intros [] Hin. unfold debuffer_req.
  destruct (req_remove_is_Some _ _ Hin) as (q & l & E). rewrite E.
  apply req_remove_Some in E as (_ & Hp%Permutation_length & _). cbn in Hp.
  do 3 eexists. split_and!; [done| |done|done|done|done].
  split; cbn; auto; [|lia]. rewrite ok_plen0, wrap64_small; lia.
Qed.

Lemma tail_prev_ts_ok {X} (l : list (HisEntry X)) :
  1 < Z.of_nat (length l) -> exists p, tail_prev_ts l = Ok p.
Proof.
  intros Hl. unfold tail_prev_ts. rewrite <- (length_rev l) in Hl.
  destruct (rev l) as [|a [|b rl]]; cbn in Hl; try lia. eauto.
Qed.

(** What recycling does to a well-formed row: it drops a tail of the version
    history and folds its newest row into the base. *)
Lemma recycle_spec t_th r :
  row_ok r ->
  exists r' keep drop, recycle g_his_recycle_len t_th r = Ok r' /\
    writehis r = keep ++ drop /\ writehis r' = keep /\
    row_base r' = match head drop with
                  | Some d => default (row_base r) (snd (his_val d))
                  | None => row_base r
                  end /\
    (drop <> [] -> exists h, last keep = Some h /\ his_ts h < t_th) /\
    si_read_lock r' = si_read_lock r /\ write_lock r' = write_lock r /\
    prereq_mvcc r' = prereq_mvcc r /\ row_ok r'.
Proof.
  intros Hok. unfold recycle. pose proof Hok as [].
  assert (exists r' keep drop, Ok r = Ok r' /\ writehis r = keep ++ drop /\ writehis r' = keep /\
    row_base r' = match head drop with Some d => default (row_base r) (snd (his_val d))
                  | None => row_base r end /\
    (drop <> [] -> exists h, last keep = Some h /\ his_ts h < t_th) /\
    si_read_lock r' = si_read_lock r /\ write_lock r' = write_lock r /\
    prereq_mvcc r' = prereq_mvcc r /\ row_ok r') as Hnop.
  { exists r, (writehis r), []. rewrite app_nil_r. split_and!; done. }
  destruct (_ || _)%bool; [|exact Hnop]. rewrite ok_readhis0. cbn [last mbind res_bind].
  destruct (Z.ltb_spec 1 (whis_len r)) as [Hw|Hw]; [|exact Hnop].
  destruct (tail_prev_ts_ok (writehis r)) as (p & ->); [lia|]. cbn [mbind res_bind].
  destruct (p <? t_th); [|exact Hnop].
  destruct (clear_chain_spec t_th (writehis r) ok_sorted0) as (keep & drop & E & Hl & Hd).
  unfold clear_history. rewrite E. cbn -[Z.of_nat]. clear Hnop.
  assert (length (writehis r) = (length keep + length drop)%nat) as Hlen
    by (by rewrite Hl, length_app).
  assert (row_ok (mkRowSsi (si_read_lock r) (write_lock r)
      (match head drop with Some d => default (row_base r) (snd (his_val d))
                  | None => row_base r end) (prereq_mvcc r) (readhis r) keep
      (wrap64 (whis_len r - Z.of_nat (length drop))) (rhis_len r) (preq_len r))) as Hok'.
  { rewrite Hl in ok_sorted0, ok_rows0. split; cbn; auto; try lia.
    - by eapply StronglySorted_app_1_l.
    - by apply Forall_app in ok_rows0 as [? _].
    - rewrite ok_wlen0, wrap64_small; lia. }
  destruct drop as [|d drop]; cbn in *.
  - eexists _, keep, []. split_and!; try done.
  - rewrite Hl in ok_rows0. apply Forall_app in ok_rows0 as [_ [[x Hx] _]%Forall_cons].
    rewrite Hx in *. eexists _, keep, (d :: drop). split_and!; try done. cbn. by rewrite Hx.
Qed.

(** Recycling keeps every snapshot at or after the threshold. *)
Lemma recycle_reads t_th r r' ts :
  row_ok r -> recycle g_his_recycle_len t_th r = Ok r' -> t_th <= ts ->
  read_version ts r' = read_version ts r.
Proof.
  intros Hok E Hts. destruct (recycle_spec t_th r Hok)
    as (r1 & keep & drop & E1 & Hl & Hk & Hb & Hd & _). rewrite E in E1. injection E1 as <-.
  pose proof (ok_sorted _ Hok) as Hs. pose proof (ok_rows _ Hok) as Hr. rewrite Hl in Hs, Hr.
  unfold read_version. rewrite Hl, Hk, his_find_app, Hb.
  destruct (his_find ts keep); [done|]. destruct drop as [|d drop]; [done|].
  pose proof (clear_chain_newest_dropped _ _ _ d Hs Hd eq_refl) as Hlt.
  cbn. rewrite (proj2 (Z.ltb_ge _ _)) by lia.
  apply Forall_app in Hr as [_ [[x ->] _]%Forall_cons]. done.
Qed.

(** Adding a version newer than the snapshot. *)
Lemma his_insert_find {X} ts (e : HisEntry X) l :
  ts < his_ts e -> his_find ts (his_insert e l) = his_find ts l.
Proof.
  intros He. induction l as [|h l IH]; cbn.
  - by rewrite (proj2 (Z.ltb_lt _ _) He).
  - destruct (Z.ltb_spec (his_ts e) (his_ts h)); cbn.
    + rewrite IH. done.
    + by rewrite (proj2 (Z.ltb_lt _ _) He).
Qed.

(** When the callers issue an access: a W_REQ or XP_REQ follows a P_REQ whose
    request is still buffered, and a W_REQ brings a row. *)
Definition access_pre (type : TsType) (txn : TxnManager) (row : option D) (r : Row_ssi D)
    : Prop :=
  match type with
  | R_REQ => True
  | P_REQ => Z.of_nat (length (prereq_mvcc r)) < UINT64_MAX
  | W_REQ => is_Some row /\ Z.of_nat (length (writehis r)) < UINT64_MAX /\
             tm_ptr txn ∈ (rq_ptr <$> prereq_mvcc r)
  | XP_REQ => tm_ptr txn ∈ (rq_ptr <$> prereq_mvcc r)
  end.

(** The row just before [recycle] runs, which is also the row of the paths
    that skip it. *)
Definition before_recycle (type : TsType) (txn : TxnManager) (row : option D)
    (r : Row_ssi D) (t : T) : res (RC * option D * Row_ssi D * T) :=
  match type with
  | R_REQ => let '(cur, r1, t1) := access_read txn r t in Ok (RCOK, cur, r1, t1)
  | P_REQ => let '(rc, r1, t1) := access_prewrite g_max_pre_req txn r t in
             Ok (rc, None, r1, t1)
  | W_REQ => r2 ← debuffer_req txn (insert_history (tm_commit_timestamp txn) txn row
                                     (release_lock LOCK_EX txn r));
             Ok (RCOK, None, r2, t)
  | XP_REQ => r1 ← debuffer_req txn (release_lock LOCK_SH txn (release_lock LOCK_EX txn r));
              Ok (RCOK, None, r1, t)
  end.

Lemma access_split txn type row t_th r t :
  access g_his_recycle_len g_max_pre_req txn type row t_th r t =
  '(rc, cur, r1, t1) ← before_recycle type txn row r t;
  if bool_decide (rc = RCOK) then r2 ← recycle g_his_recycle_len t_th r1; Ok (rc, cur, r2, t1)
  else Ok (rc, cur, r1, t1).
Proof.
  unfold access, before_recycle. destruct type.
  - destruct (access_read txn r t) as [[cur r1] t1]. cbn.
    by destruct (recycle g_his_recycle_len t_th r1).
  - destruct (debuffer_req _ _) as [r2|]; cbn; [|done].
    by destruct (recycle g_his_recycle_len t_th r2).
  - destruct (access_prewrite _ txn r t) as [[rc r1] t1]. cbn. case_bool_decide; [subst|done].
    by destruct (recycle g_his_recycle_len t_th r1).
  - destruct (debuffer_req _ _) as [r1|]; cbn; [|done].
    by destruct (recycle g_his_recycle_len t_th r1).
Qed.

Lemma access_prewrite_row txn r t rc r1 t1 :
  access_prewrite g_max_pre_req txn r t = (rc, r1, t1) ->
  (rc = RCOK /\ r1 = buffer_req P_REQ txn (get_lock LOCK_EX txn r)) \/
  (rc = Abort /\ r1 = get_lock LOCK_EX txn r).
Proof.
  unfold access_prewrite. destruct (existsb _ _); [intros [= <- <- <-]; by right|].
  destruct (_ <? _); intros [= <- <- <-]; [by left|by right].
Qed.

(** Everything but a W_REQ leaves the versions alone; a W_REQ adds one at the
    commit timestamp. *)
Lemma before_recycle_spec txn type row r t :
  row_ok r -> access_pre type txn row r ->
  exists rc cur r1 t1, before_recycle type txn row r t = Ok (rc, cur, r1, t1) /\
    row_ok r1 /\ row_base r1 = row_base r /\
    (type = W_REQ -> exists d, row = Some d /\
       writehis r1 = his_insert (mkHis (tm_commit_timestamp txn) (tm_txn_id txn, Some d))
                       (writehis r)) /\
    (type <> W_REQ -> writehis r1 = writehis r) /\
    (type = R_REQ -> rc = RCOK /\ cur = read_version (tm_start_timestamp txn) r).
Proof.
  intros Hok Hp. destruct type; cbn in Hp |- *.
  - do 4 eexists. split_and!; try done. by apply get_lock_ok.
  - destruct Hp as ([d ->] & Hb & Hin).
    destruct (debuffer_req_ok txn (insert_history (tm_commit_timestamp txn) txn (Some d)
      (release_lock LOCK_EX txn r))) as (r1 & q & l & E & Hok1 & _ & _ & Hw & Hba).
    { apply insert_history_ok; [by apply release_lock_ok|done]. }
    { done. }
    rewrite E. cbn. do 4 eexists. split_and!; try done. intros _. exists d.
    split; [done|]. by rewrite Hw.
  - destruct (access_prewrite _ _ _ _) as [[rc r1] t1] eqn:E. cbn.
    do 4 eexists. split; [done|].
    apply access_prewrite_row in E as [[-> ->]|[-> ->]]; split_and!; try done.
    + apply buffer_req_ok; [by apply get_lock_ok|done].
    + by apply get_lock_ok.
  - destruct (debuffer_req_ok txn (release_lock LOCK_SH txn (release_lock LOCK_EX txn r)))
      as (r1 & q & l & E & Hok1 & _ & _ & Hw & Hba); [by do 2 apply release_lock_ok|done|].
    rewrite E. cbn. do 4 eexists. split_and!; done.
Qed.

Lemma access_ok txn type row t_th r t :
  row_ok r -> access_pre type txn row r ->
  exists rc cur r' t',
    access g_his_recycle_len g_max_pre_req txn type row t_th r t = Ok (rc, cur, r', t') /\
    row_ok r' /\
    (type = R_REQ -> rc = RCOK /\ cur = read_version (tm_start_timestamp txn) r) /\
    (forall ts, t_th <= ts -> (type = W_REQ -> ts < tm_commit_timestamp txn) ->
       read_version ts r' = read_version ts r).
Proof.
  intros Hok Hp.
  destruct (before_recycle_spec txn type row r t Hok Hp)
    as (rc & cur & r1 & t1 & E & Hok1 & Hb & Hw & Hnw & Hr).
  assert (forall ts, (type = W_REQ -> ts < tm_commit_timestamp txn) ->
            read_version ts r1 = read_version ts r) as Hsame.
  { intros ts Hts. unfold read_version. rewrite Hb. destruct (decide (type = W_REQ)) as [Ht|Ht].
    - destruct (Hw Ht) as (d & _ & ->). rewrite his_insert_find; [done|]. by apply Hts.
    - by rewrite Hnw. }
  rewrite access_split, E. cbn. case_bool_decide as Hrc.
  - destruct (recycle_spec t_th r1 Hok1) as (r2 & ? & ? & E2 & ? & ? & ? & ? & ? & ? & ? & Hok2).
    rewrite E2. cbn. do 4 eexists. split_and!; [done|done|exact Hr|].
    intros ts Hth Hc. rewrite (recycle_reads t_th r1 r2 ts Hok1 E2 Hth). by apply Hsame.
  - do 4 eexists. split_and!; [done|done|exact Hr|]. intros ts _ Hc. by apply Hsame.
Qed.

(** The accesses that a snapshot [S] can live through: recycling thresholds
    do not pass it, and versions are committed after it. *)
Inductive row_step (S : Z) : Row_ssi D -> Row_ssi D -> Prop :=
| row_step_access txn type row t_th r (t t' : T) rc cur r' :
    access_pre type txn row r -> t_th <= S ->
    (type = W_REQ -> S < tm_commit_timestamp txn) ->
    access g_his_recycle_len g_max_pre_req txn type row t_th r t = Ok (rc, cur, r', t') ->
    row_step S r r'.

Lemma row_step_spec S r r' :
  row_ok r -> row_step S r r' -> row_ok r' /\ read_version S r' = read_version S r.
Proof.
  intros Hok St. destruct St as [txn type row t_th r t t' rc cur r' Hp Hth Hc E].
  destruct (access_ok txn type row t_th r t Hok Hp) as (? & ? & ? & ? & E' & Hok' & _ & Hv).
  rewrite E in E'. injection E' as <- <- <- <-. split; [done|]. by apply Hv.
Qed.

Lemma row_steps_spec S r r' :
  row_ok r -> rtc (row_step S) r r' -> row_ok r' /\ read_version S r' = read_version S r.
Proof.
  intros Hok R. induction R as [|r1 r2 r3 St _ IH]; [done|].
  destruct (row_step_spec S _ _ Hok St) as [Hok2 E]. destruct (IH Hok2) as [Hok3 E3].
  split; [done|congruence].
Qed.

End Invariant.


(** ** Conflicts recorded by an access *)

Section Conflicts.
Context {D : Type} (g_max_pre_req : Z).
Context {T : Type} `{!KeyTable T InOutTableEntry} (wf : T -> Prop)
  `{!KeyTableLaws T InOutTableEntry wf}.
Implicit Types (r : Row_ssi D) (t : T).

(** The rw-antidependencies of a read: on the other holders of the write
    lock and on the writers of newer versions. *)
Definition read_edges (txn : TxnManager) (r : Row_ssi D) : list (Z * Z) :=
  ((fun w => (tm_txn_id txn, sle_txn w)) <$>
     filter (fun w => sle_txn w <> tm_txn_id txn) (write_lock r)) ++
  ((fun h => (tm_txn_id txn, fst (his_val h))) <$>
     his_newer (tm_start_timestamp txn) (writehis r)).

Lemma fold_lock_edges id (l : list SSILockEntry) t :
  foldl (fun t w => if sle_txn w =? id then t else record_edge id (sle_txn w) t) t l =
  record_all ((fun w => (id, sle_txn w)) <$> filter (fun w => sle_txn w <> id) l) t.
Proof using Type.
  unfold record_all. revert t. induction l as [|w l IH]; intros t; [done|].
  rewrite filter_cons. cbn. destruct (Z.eqb_spec (sle_txn w) id) as [E|E].
  - rewrite decide_False by tauto. apply IH.
  - rewrite decide_True by done. cbn. apply IH.
Qed.

Lemma fold_version_edges id (l : list (SSIHisEntry D)) t :
  foldl (fun t h => record_edge id (fst (his_val h)) t) t l =
  record_all ((fun h => (id, fst (his_val h))) <$> l) t.
Proof using Type. unfold record_all. revert t. induction l as [|h l IH]; intros t; [done|]. cbn. apply IH. Qed.

Lemma access_read_table txn r t :
  access_read txn r t =
  (read_version (tm_start_timestamp txn) r, get_lock LOCK_SH txn r,
   record_all (read_edges txn r) t).
Proof using Type.
  unfold access_read. f_equal. rewrite fold_lock_edges, fold_version_edges.
  unfold record_all, read_edges. by rewrite foldl_app.
Qed.

(** [access_prewrite] records an edge with the two calls in the other order;
    the table reads the same. *)
Definition record_edge' (rd w : Z) (t : T) : T :=
  set_inConflict w rd (set_outConflict rd w t).

Lemma record_edge_comm rd w t k :
  wf t -> kt_find k (record_edge' rd w t) = kt_find k (record_edge rd w t).
Proof.
  intros W. unfold record_edge', record_edge, set_inConflict, set_outConflict.
  rewrite !kt_find_update; try done; try by apply kt_update_wf.
  repeat case_decide; subst; destruct (kt_find _ t); try done.
Qed.

Lemma get_state_find k t t' : kt_find k t = kt_find k t' -> get_state k t = get_state k t'.
Proof using Type. unfold get_state. by intros ->. Qed.

Lemma record_edge_meta rd w t k :
  wf t -> get_state k (record_edge rd w t) = get_state k t /\
          get_commit_ts k (record_edge rd w t) = get_commit_ts k t.
Proof.
  intros W. unfold get_state, get_commit_ts, record_edge, set_inConflict, set_outConflict.
  rewrite !kt_find_update; try done; try by apply kt_update_wf.
  repeat case_decide; subst; destruct (kt_find _ t); try done.
Qed.

Lemma concurrent_reader_meta txn rd t t' :
  (forall k, get_state k t' = get_state k t) ->
  (forall k, get_commit_ts k t' = get_commit_ts k t) ->
  concurrent_reader txn t' rd = concurrent_reader txn t rd.
Proof using Type. intros Hs Hc. unfold concurrent_reader. by rewrite !Hs, !Hc. Qed.

(** What the two tests of the P_REQ branch say of a reader. *)
Definition dangerous_reader (txn : TxnManager) (t : T) (rd : SSILockEntry) : Prop :=
  sle_txn rd <> tm_txn_id txn /\ get_state (sle_txn rd) t = SSI_COMMITTED /\
  tm_start_timestamp txn < get_commit_ts (sle_txn rd) t /\ ins t (sle_txn rd) <> [].

Definition overlapping_reader (txn : TxnManager) (t : T) (rd : SSILockEntry) : Prop :=
  sle_txn rd <> tm_txn_id txn /\ get_state (sle_txn rd) t <> SSI_ABORTED /\
  (get_state (sle_txn rd) t = SSI_COMMITTED ->
     tm_start_timestamp txn < get_commit_ts (sle_txn rd) t).

Lemma committed_pivot_spec txn t rd :
  committed_pivot txn t rd = true <-> dangerous_reader txn t rd.
Proof using Type.
  unfold committed_pivot, dangerous_reader. rewrite !andb_true_iff, negb_true_iff, Z.eqb_neq, Z.ltb_lt.
  rewrite bool_decide_eq_true. unfold get_inConflict, ins.
  destruct (kt_find (sle_txn rd) t); cbn; [rewrite bool_decide_eq_true; tauto|].
  split; [intros [_ ?]; done|tauto].
Qed.

Lemma concurrent_reader_spec txn t rd :
  concurrent_reader txn t rd = true <-> overlapping_reader txn t rd.
Proof using Type.
  unfold concurrent_reader, overlapping_reader.
  rewrite !andb_true_iff, !negb_true_iff, Z.eqb_neq, bool_decide_eq_false, andb_false_iff, Z.leb_gt.
  rewrite bool_decide_eq_false. destruct (decide (get_state (sle_txn rd) t = SSI_COMMITTED)); tauto.
Qed.

(** The rw-antidependencies of a prewrite: the concurrent readers. *)
Definition prewrite_edges (txn : TxnManager) (t : T) (l : list SSILockEntry) : list (Z * Z) :=
  (fun rd => (sle_txn rd, tm_txn_id txn)) <$> filter (fun rd => concurrent_reader txn t rd) l.

Lemma prewrite_fold txn l t0 t :
  wf t -> (forall k, get_state k t = get_state k t0) ->
  (forall k, get_commit_ts k t = get_commit_ts k t0) ->
  let t' := foldl (fun t rd => if concurrent_reader txn t rd
                               then set_inConflict (tm_txn_id txn) (sle_txn rd)
                                      (set_outConflict (sle_txn rd) (tm_txn_id txn) t)
                               else t) t l in
  wf t' /\
  (forall k x, x ∈ ins t' k <->
     x ∈ ins t k \/ (has_entry t k /\ (x, k) ∈ prewrite_edges txn t0 l)) /\
  (forall k x, x ∈ outs t' k <->
     x ∈ outs t k \/ (has_entry t k /\ (k, x) ∈ prewrite_edges txn t0 l)).
Proof.
  revert t. induction l as [|rd l IH]; intros t W Hs Hc; cbn zeta.
  { split_and!; [done|set_solver|set_solver]. }
  cbn [foldl]. unfold prewrite_edges. rewrite filter_cons.
  rewrite (concurrent_reader_meta txn rd t0 t Hs Hc).
  destruct (concurrent_reader txn t0 rd) eqn:Ec.
  2:{ rewrite decide_False by (cbn; tauto). by apply IH. }
  rewrite decide_True by done.
  set (t1 := set_inConflict (tm_txn_id txn) (sle_txn rd)
               (set_outConflict (sle_txn rd) (tm_txn_id txn) t)).
  assert (forall k, kt_find k t1 = kt_find k (record_edge (sle_txn rd) (tm_txn_id txn) t)) as Hf
    by (intros; by apply record_edge_comm).
  assert (wf t1) as W1 by (by apply kt_update_wf; [apply kt_update_wf|]).
  assert (forall k, ins t1 k = ins (record_edge (sle_txn rd) (tm_txn_id txn) t) k) as Hi
    by (intros; unfold ins; by rewrite Hf).
  assert (forall k, outs t1 k = outs (record_edge (sle_txn rd) (tm_txn_id txn) t) k) as Ho
    by (intros; unfold outs; by rewrite Hf).
  assert (forall k, has_entry t1 k <-> has_entry t k) as Hh.
  { intros k. unfold has_entry at 1. rewrite Hf. by apply (record_edge_entry wf). }
  destruct (IH t1 W1) as (W' & Hi' & Ho').
  - intros k. rewrite <- Hs, (get_state_find k t1 _ (Hf k)). by apply record_edge_meta.
  - intros k. rewrite <- Hc. unfold get_commit_ts at 1. rewrite Hf.
    by apply (record_edge_meta (sle_txn rd) (tm_txn_id txn)).
  - split_and!; [done| |]; intros k x.
    + rewrite Hi', Hi, Hh, (record_edge_ins wf) by done.
      rewrite fmap_cons, elem_of_cons. unfold prewrite_edges. naive_solver.
    + rewrite Ho', Ho, Hh, (record_edge_outs wf) by done.
      rewrite fmap_cons, elem_of_cons. unfold prewrite_edges. naive_solver.
Qed.

End Conflicts.

(** ** Properties *)

(** Any access of any transaction that meets its precondition. *)
Inductive access_step {D T} `{!KeyTable T InOutTableEntry} (g_his g_max : Z)
    : Row_ssi D * T -> Row_ssi D * T -> Prop :=
| as_access txn type row t_th r t rc cur r' t' :
    access_pre type txn row r ->
    access g_his g_max txn type row t_th r t = Ok (rc, cur, r', t') ->
    access_step g_his g_max (r, t) (r', t').

(** Whatever accesses a row has served since [init], the next one that
    meets its precondition fails no assertion and follows no NULL pointer,
    and the row stays well-formed: the version history is sorted newest
    first, every version has a row, and the length fields count their
    lists. *)
Theorem ssi_access_total (D : Type) (g_his g_max : Z) (row0 : D)
    (t0 t : HashTable InOutTableEntry) (r : Row_ssi D)
    (txn : TxnManager) (type : TsType) (row : option D) (t_th : Z) :
  0 <= g_his -> rtc (access_step g_his g_max) (init row0, t0) (r, t) ->
  access_pre type txn row r ->
  row_ok r /\
  exists rc cur r' t', access g_his g_max txn type row t_th r t = Ok (rc, cur, r', t') /\
    row_ok r'.
Proof.
  intros Hg R Hp.
  assert (row_ok (r, t).1) as Hok.
  { eapply (rtc_invariant _ (fun p => row_ok p.1)); [| |exact R]; [apply row_ok_init|].
    intros a b Ha St. destruct St as [txn' ty' row' th' r1 t1 rc cur r' t' Hp' E].
    destruct (access_ok g_his g_max txn' ty' row' th' r1 t1 Ha Hp')
      as (? & ? & ? & ? & E' & Hok' & _).
    rewrite E in E'. injection E' as <- <- <- <-. exact Hok'. }
  split; [exact Hok|].
  destruct (access_ok g_his g_max txn type row t_th r t Hok Hp)
    as (rc & cur & r' & t' & E & Hok' & _). eauto 10.
Qed.

(** C20. Snapshot reads.  A read returns the newest version not newer than
    the reader's start timestamp (the base row if there is none), and it
    returns the same row again after any sequence of accesses by other
    transactions that commit after the snapshot, recycling included, as long
    as the recycling threshold never passes the snapshot. *)
Theorem ssi_snapshot_reads (D : Type) (g_his g_max : Z) (r r' : Row_ssi D)
    (t t' : HashTable InOutTableEntry) (txn : TxnManager) (th th' : Z) :
  row_ok r ->
  rtc (row_step (T := HashTable InOutTableEntry) g_his g_max (tm_start_timestamp txn)) r r' ->
  exists v r1 t1 r2 t2,
    access g_his g_max txn R_REQ None th r t = Ok (RCOK, v, r1, t1) /\
    access g_his g_max txn R_REQ None th' r' t' = Ok (RCOK, v, r2, t2) /\
    match his_find (tm_start_timestamp txn) (writehis r) with
    | Some h => h ∈ writehis r /\ his_ts h <= tm_start_timestamp txn /\
                (forall x, x ∈ writehis r -> his_ts x <= tm_start_timestamp txn ->
                   his_ts x <= his_ts h) /\
                v = snd (his_val h)
    | None => (forall x, x ∈ writehis r -> tm_start_timestamp txn < his_ts x) /\
              v = Some (row_base r)
    end.
Proof.
  intros Hok R. destruct (row_steps_spec g_his g_max _ _ _ Hok R) as [Hok' Ev].
  destruct (access_ok g_his g_max txn R_REQ None th r t Hok I)
    as (rc1 & c1 & r1 & t1 & E1 & _ & H1 & _).
  destruct (access_ok g_his g_max txn R_REQ None th' r' t' Hok' I)
    as (rc2 & c2 & r2 & t2 & E2 & _ & H2 & _).
  destruct (H1 eq_refl) as [-> ->]. destruct (H2 eq_refl) as [-> ->].
  rewrite Ev in E2. exists (read_version (tm_start_timestamp txn) r), r1, t1, r2, t2.
  split_and!; [done|done|]. unfold read_version.
  destruct (his_find _ _) as [h|] eqn:Eh.
  - destruct (his_find_Some _ _ _ (ok_sorted _ Hok) Eh) as (? & ? & ?). done.
  - apply his_find_None in Eh. split; [|done]. intros x Hx.
    by eapply Forall_forall in Eh.
Qed.

(** A read records every rw-antidependency it creates and no other: the
    reader conflicts with exactly the other holders of the write lock and
    the writers of versions newer than its snapshot (whenever the
    transactions have an entry in the table). *)
Theorem ssi_read_records_conflicts (D : Type) (r : Row_ssi D)
    (t : HashTable InOutTableEntry) (txn : TxnManager) :
  row_ok r -> ht_wf t ->
  let '(_, _, t') := access_read txn r t in
  let id := tm_txn_id txn in
  let overwriter w :=
    (w <> id /\ w ∈ (sle_txn <$> write_lock r)) \/
    (exists h, h ∈ writehis r /\ tm_start_timestamp txn < his_ts h /\ fst (his_val h) = w) in
  (forall k x, x ∈ ins t' k <-> x ∈ ins t k \/ (has_entry t k /\ x = id /\ overwriter k)) /\
  (forall k x, x ∈ outs t' k <-> x ∈ outs t k \/ (has_entry t k /\ k = id /\ overwriter x)).
Proof.
  intros Hok W. rewrite access_read_table. cbn zeta.
  destruct (record_all_spec ht_wf (read_edges txn r) t W) as (_ & _ & Hi & Ho).
  assert (forall a b, (a, b) ∈ read_edges txn r <-> a = tm_txn_id txn /\
    ((b <> tm_txn_id txn /\ b ∈ (sle_txn <$> write_lock r)) \/
     (exists h, h ∈ writehis r /\ tm_start_timestamp txn < his_ts h /\ fst (his_val h) = b)))
    as He.
  { intros a b. unfold read_edges. rewrite elem_of_app, !list_elem_of_fmap.
    setoid_rewrite list_elem_of_filter.
    setoid_rewrite (elem_of_his_newer _ _ _ (ok_sorted _ Hok)). naive_solver. }
  setoid_rewrite Hi. setoid_rewrite Ho. setoid_rewrite He. naive_solver.
Qed.

(** The outcome of a prewrite.  It aborts exactly when some other,
    committed reader that ended after the writer's snapshot has an incoming
    conflict, or when the buffer of prewrites is full.  When it succeeds the
    request is buffered and the table gains exactly the edges from the
    concurrent readers (not the writer, not aborted, not committed before
    its snapshot) to the writer. *)
Theorem ssi_prewrite_correct (D : Type) (g_max : Z) (r : Row_ssi D)
    (t : HashTable InOutTableEntry) (txn : TxnManager) :
  ht_wf t ->
  let '(rc, r', t') := access_prewrite g_max txn r t in
  let readers := si_read_lock r in
  write_lock r' = mkSLE LOCK_EX (tm_txn_id txn) :: write_lock r /\
  (rc = Abort <->
     (exists rd, rd ∈ readers /\ dangerous_reader txn t rd) \/ g_max <= preq_len r) /\
  (rc = RCOK ->
     prereq_mvcc r' = mkReq txn (tm_start_timestamp txn) :: prereq_mvcc r /\
     (forall k x, x ∈ ins t' k <-> x ∈ ins t k \/ (has_entry t k /\ k = tm_txn_id txn /\
        exists rd, rd ∈ readers /\ overlapping_reader txn t rd /\ x = sle_txn rd)) /\
     (forall k x, x ∈ outs t' k <-> x ∈ outs t k \/ (has_entry t k /\ x = tm_txn_id txn /\
        exists rd, rd ∈ readers /\ overlapping_reader txn t rd /\ k = sle_txn rd))).
Proof.
  intros W. unfold access_prewrite. cbn [si_read_lock write_lock preq_len get_lock].
  rewrite bool_decide_eq_false_2 by done.
  destruct (existsb _ (si_read_lock r)) eqn:Ee; cbn zeta.
  - apply existsb_exists in Ee as (rd & Hin%list_elem_of_In & Hp%committed_pivot_spec).
    split_and!; [done| |done]. split; [eauto|done].
  - destruct (prewrite_fold ht_wf txn (si_read_lock r) t t W) as (_ & Hi & Ho); [done|done|].
    assert (~ exists rd, rd ∈ si_read_lock r /\ dangerous_reader txn t rd) as Hno.
    { intros (rd & Hin%list_elem_of_In & Hp%committed_pivot_spec).
      rewrite (proj2 (existsb_exists _ _)) in Ee; [done|eauto]. }
    assert (forall a b, (a, b) ∈ prewrite_edges txn t (si_read_lock r) <-> b = tm_txn_id txn /\
      exists rd, rd ∈ si_read_lock r /\ overlapping_reader txn t rd /\ a = sle_txn rd)
      as He.
    { intros a b. unfold prewrite_edges. rewrite list_elem_of_fmap.
      setoid_rewrite list_elem_of_filter. setoid_rewrite Is_true_true.
      setoid_rewrite concurrent_reader_spec. naive_solver. }
    destruct (Z.ltb_spec (preq_len r) g_max) as [Hl|Hl]; cbn [write_lock buffer_req get_lock].
    + split_and!; [done| |].
      * split; [done|]. intros [?|?]; [done|lia].
      * intros _. split; [done|]. setoid_rewrite Hi. setoid_rewrite Ho.
        setoid_rewrite He. naive_solver.
    + split_and!; [done| |done]. split; [by right|done].
Qed.

(** A prewrite that aborts leaks its write lock: the entry is on the
    list but no request is buffered, so the only operations that unlink such
    an entry, W_REQ and XP_REQ of the transaction, fail their assertion
    unless an earlier prewrite of it is buffered. *)
Theorem ssi_prewrite_abort_leaks_lock (D : Type) (g_his g_max : Z) (r r' : Row_ssi D)
    (t t' : HashTable InOutTableEntry) (txn : TxnManager) (th : Z) (cur : option D) :
  access g_his g_max txn P_REQ None th r t = Ok (Abort, cur, r', t') ->
  tm_ptr txn ∉ (rq_ptr <$> prereq_mvcc r) ->
  tm_txn_id txn ∈ (sle_txn <$> write_lock r') /\
  (forall row th' t'', access g_his g_max txn W_REQ row th' r' t'' = AssertFail) /\
  (forall row th' t'', access g_his g_max txn XP_REQ row th' r' t'' = AssertFail).
Proof.
  intros E Hn. rewrite access_split in E. cbn in E.
  destruct (access_prewrite g_max txn r t) as [[rc r1] t1] eqn:Ep. cbn in E.
  apply access_prewrite_row in Ep as [[-> ->]|[-> ->]].
  { cbn in E. destruct (recycle _ _ _); cbn in E; discriminate. }
  injection E as <- <- <-. split_and!.
  - cbn. by left.
  - intros row th' t''. cbn. unfold debuffer_req.
    rewrite (proj2 (req_remove_None txn _)); [done|]. by destruct row.
  - intros row th' t''. cbn. unfold debuffer_req.
    by rewrite (proj2 (req_remove_None txn _)).
Qed.

(** *** Witnesses *)

Definition ex_wr (id : Z) : TxnManager := mkTxn id id 0 (id * 10) (id * 10 + 5) false.

(** Transactions 1 and 2 have written versions 15 and 25 over the base row 7,
    read at snapshot 20 by a transaction with id 2. *)
Definition ex_row : Row_ssi Z :=
  mkRowSsi [] [] 7 [] [] [mkHis 25 (2, Some 102); mkHis 15 (1, Some 101)] 2 0 0.

Lemma ex_row_ok : row_ok ex_row.
Proof.
  split; cbn; try done.
  - unfold his_sorted. repeat constructor. cbn. lia.
  - repeat constructor; eexists; reflexivity.
Qed.

Lemma ssi_access_total_witness :
  row_ok (init 7) /\
  exists rc cur r' t', access 10 100 (ex_wr 1) P_REQ None 0 (init 7) (ex_table) =
    Ok (rc, cur, r', t') /\ row_ok r'.
Proof.
  apply (ssi_access_total Z 10 100 7 ex_table ex_table (init 7) (ex_wr 1) P_REQ None 0).
  - lia.
  - apply rtc_refl.
  - vm_compute. reflexivity.
Defined.

(** A second version arrives and, with a recycling length of 1, the oldest one
    is folded into the base while the snapshot of transaction 3 (at 30) is
    being read. *)
Definition ex_row3 : Row_ssi Z :=
  mkRowSsi [] [mkSLE LOCK_EX 4] 7 [mkReq (ex_wr 4) 40] []
    [mkHis 25 (2, Some 102); mkHis 15 (1, Some 101)] 2 0 1.

Lemma ex_row3_ok : row_ok ex_row3.
Proof.
  split; cbn; try done.
  - unfold his_sorted. repeat constructor. cbn. lia.
  - repeat constructor; eexists; reflexivity.
Qed.

Definition ex_row4 : Row_ssi Z :=
  mkRowSsi [] [] 101 [] [] [mkHis 45 (4, Some 104); mkHis 25 (2, Some 102)] 2 0 0.

Lemma ssi_snapshot_reads_witness :
  exists v r1 t1 r2 t2,
    access 1 100 (ex_wr 3) R_REQ None 30 ex_row3 ex_table = Ok (RCOK, v, r1, t1) /\
    access 1 100 (ex_wr 3) R_REQ None 30 ex_row4 ex_table = Ok (RCOK, v, r2, t2).
Proof.
  destruct (ssi_snapshot_reads Z 1 100 ex_row3 ex_row4 ex_table ex_table (ex_wr 3) 30 30)
    as (v & r1 & t1 & r2 & t2 & E1 & E2 & _).
  - exact ex_row3_ok.
  - apply rtc_once. eapply (row_step_access 1 100 _ (ex_wr 4) W_REQ (Some 104) 30 _ ex_table).
    + cbn. split_and!; [by eexists|done|by left].
    + cbn. lia.
    + cbn. lia.
    + vm_compute. reflexivity.
  - exists v, r1, t1, r2, t2. split; [exact E1|exact E2].
Defined.

Lemma ssi_read_records_conflicts_witness :
  let '(_, _, t') := access_read (mkTxn 1 1 0 20 0 false) ex_row ex_table in
  2 ∈ outs t' 1.
Proof.
  pose proof (ssi_read_records_conflicts Z ex_row ex_table (mkTxn 1 1 0 20 0 false)
                ex_row_ok ex_table_wf) as H.
  destruct (access_read _ _ _) as [[c r1] t1]. destruct H as [_ Ho].
  apply (Ho 1 2). right. split_and!; [eexists; reflexivity|reflexivity|].
  right. eexists. split_and!; [by left|cbn; lia|reflexivity].
Defined.

(** Transaction 1 holds the SI-read lock while transaction 2 writes. *)
Definition ex_row_read : Row_ssi Z :=
  mkRowSsi [mkSLE LOCK_SH 1] [] 7 [] [] [] 0 0 0.

Lemma ssi_prewrite_correct_witness :
  let '(rc, r', t') := access_prewrite 100 (ex_wr 2) ex_row_read ex_table in
  rc = RCOK /\ 1 ∈ ins t' 2.
Proof.
  pose proof (ssi_prewrite_correct Z 100 ex_row_read ex_table (ex_wr 2) ex_table_wf) as H.
  destruct (access_prewrite _ _ _ _) as [[rc r'] t'] eqn:E.
  destruct H as (_ & _ & H). assert (rc = RCOK) as -> by (vm_compute in E; congruence).
  split; [reflexivity|]. destruct (H eq_refl) as (_ & Hi & _).
  apply (Hi 2 1). right. split_and!; [eexists; reflexivity|reflexivity|].
  exists (mkSLE LOCK_SH 1). split_and!; [by left| |reflexivity].
  split_and!; vm_compute; congruence.
Defined.

Lemma ssi_prewrite_abort_leaks_lock_witness :
  2 ∈ (sle_txn <$> write_lock (get_lock LOCK_EX (ex_wr 2) ex_row_read)).
Proof.
  refine (proj1 (ssi_prewrite_abort_leaks_lock Z 10 0 ex_row_read
    (get_lock LOCK_EX (ex_wr 2) ex_row_read) ex_table
    (set_inConflict 2 1 (set_outConflict 1 2 ex_table)) (ex_wr 2) 0 None _ _)).
  - vm_compute. reflexivity.
  - cbn. set_solver.
Defined.
