(* ===== verification/Histories.v ===== *)
(** * Histories: the read and write history of a multi-version row

    Row_mvcc (row_mvcc.cpp) and Row_wsi (row_wsi.cpp) keep the same two
    history lists with their lengths and the base row, and run the same code
    over them: insert_history, clear_history, the search for the version of
    a timestamp, and the recycling block at the end of access.  This file
    holds that common part; [D] is the content of a row. *)

From stdpp Require Import gmap list sorting.
From S2P Require Import Prelude VersionChain.
#[local] Open Scope Z_scope.

(** An entry of the read history has no row. *)
Abbreviation MVHisEntry D := (HisEntry (option D)).

Record Hist (D : Type) := mkHist {
  readhis : list (MVHisEntry D);
  writehis : list (MVHisEntry D);
  whis_len : Z;
  rhis_len : Z;
  row_base : D;
}.
Arguments mkHist {D} _ _ _ _ _.
Arguments readhis {D} _.
Arguments writehis {D} _.
Arguments whis_len {D} _.
Arguments rhis_len {D} _.
Arguments row_base {D} _.

Section Hist.
Context {D : Type}.
Implicit Types (h : Hist D).

Definition hist_init (row : D) : Hist D := mkHist [] [] 0 0 row.

Definition hist_insert (ts : Z) (row : option D) (h : Hist D) : Hist D :=
  match row with
  | Some _ => mkHist (readhis h) (his_insert (mkHis ts row) (writehis h))
                (wrap64 (whis_len h + 1)) (rhis_len h) (row_base h)
  | None => mkHist (his_insert (mkHis ts None) (readhis h)) (writehis h)
              (whis_len h) (wrap64 (rhis_len h + 1)) (row_base h)
  end.

(** The row returned is the one of the last entry recycled; [None] is NULL. *)
Definition hist_clear (type : TsType) (ts : Z) (h : Hist D) : res (option D * Hist D) :=
  match type with
  | R_REQ =>
      '(l, x, n) ← clear_chain ts (readhis h);
      Ok (default None x,
          mkHist l (writehis h) (whis_len h) (wrap64 (rhis_len h - n)) (row_base h))
  | W_REQ =>
      '(l, x, n) ← clear_chain ts (writehis h);
      Ok (default None x,
          mkHist (readhis h) l (wrap64 (whis_len h - n)) (rhis_len h) (row_base h))
  | _ => AssertFail
  end.

(** [(whis == NULL) ? _row : whis->row]. *)
Definition hist_version (ts : Z) (h : Hist D) : option D :=
  match his_find ts (writehis h) with
  | Some e => his_val e
  | None => Some (row_base h)
  end.

(** [writehistail->prev->ts]. *)
Definition hist_tail_prev (l : list (MVHisEntry D)) : res Z :=
  match rev l with
  | _ :: p :: _ => Ok (his_ts p)
  | _ => AssertFail
  end.

Definition hist_set_base (row : D) (h : Hist D) : Hist D :=
  mkHist (readhis h) (writehis h) (whis_len h) (rhis_len h) row.

(** The recycling block; [t_th] is what [glob_manager.get_min_ts] returns. *)
Definition hist_recycle (g_his_recycle_len t_th : Z) (h : Hist D) : res (Hist D) :=
  if (g_his_recycle_len <? whis_len h) || (g_his_recycle_len <? rhis_len h) then
    h1 ← match last (readhis h) with
         | Some e => if his_ts e <? t_th
                     then '(_, h1) ← hist_clear R_REQ t_th h; Ok h1
                     else Ok h
         | None => Ok h
         end;
    if 1 <? whis_len h1 then
      p ← hist_tail_prev (writehis h1);
      if p <? t_th then
        '(latest, h2) ← hist_clear W_REQ t_th h1;
        Ok (match latest with Some row => hist_set_base row h2 | None => h2 end)
      else Ok h1
    else Ok h1
  else Ok h.

(** ** Well-formedness *)

Record hist_ok (h : Hist D) : Prop := {
  ok_wsorted : his_sorted (writehis h);
  ok_rsorted : his_sorted (readhis h);
  ok_rows : Forall (fun e => is_Some (his_val e)) (writehis h);
  ok_wlen : whis_len h = Z.of_nat (length (writehis h));
  ok_rlen : rhis_len h = Z.of_nat (length (readhis h));
  ok_wbound : Z.of_nat (length (writehis h)) <= UINT64_MAX;
  ok_rbound : Z.of_nat (length (readhis h)) <= UINT64_MAX;
}.

Lemma hist_init_ok row : hist_ok (hist_init row).
Proof. split; cbn; try done; constructor. Qed.

Lemma hist_insert_write_ok ts row h :
  hist_ok h -> Z.of_nat (length (writehis h)) < UINT64_MAX ->
  hist_ok (hist_insert ts (Some row) h).
Proof.
  intros [] Hb. split; cbn; auto.
  - by apply his_insert_sorted.
  - apply Forall_forall. intros e [->|He]%elem_of_his_insert; [by eexists|].
    by eapply Forall_forall in ok_rows0.
  - rewrite ok_wlen0, his_insert_length, wrap64_small; lia.
  - rewrite his_insert_length. lia.
Qed.

Lemma hist_insert_read_ok ts h :
  hist_ok h -> Z.of_nat (length (readhis h)) < UINT64_MAX ->
  hist_ok (hist_insert ts None h).
Proof.
  intros [] Hb. split; cbn; auto.
  - by apply his_insert_sorted.
  - rewrite ok_rlen0, his_insert_length, wrap64_small; lia.
  - rewrite his_insert_length. lia.
Qed.

(** A part of the versions is left, the base row is [b] (any part of a
    well-formed history is well-formed). *)
Lemma hist_shrink_ok h rkeep rdrop wkeep wdrop b :
  hist_ok h -> readhis h = rkeep ++ rdrop -> writehis h = wkeep ++ wdrop ->
  hist_ok (mkHist rkeep wkeep (wrap64 (whis_len h - Z.of_nat (length wdrop)))
             (wrap64 (rhis_len h - Z.of_nat (length rdrop))) b).
Proof.
  intros [] Er Ew. rewrite Er in *. rewrite Ew in *. rewrite length_app in *.
  split; cbn; try lia.
  - by eapply StronglySorted_app_1_l.
  - by eapply StronglySorted_app_1_l.
  - by apply Forall_app in ok_rows0 as [? _].
  - rewrite ok_wlen0, wrap64_small; lia.
  - rewrite ok_rlen0, wrap64_small; lia.
Qed.

(** The row that becomes the base when [drop] is recycled. *)
Definition folded_base (b : D) (drop : list (MVHisEntry D)) : D :=
  match head drop with Some d => default b (his_val d) | None => b end.

(** A cut of a history at a threshold: a tail is dropped only behind an entry
    older than the threshold. *)
Definition cut (th : Z) (keep drop : list (MVHisEntry D)) : Prop :=
  drop <> [] -> exists e, last keep = Some e /\ his_ts e < th.

Lemma cut_nil th keep : cut th keep [].
Proof. by intros []. Qed.
#[local] Hint Resolve cut_nil : core.

(** What recycling does: it cuts both histories and folds the newest recycled
    version into the base row.  It never fails. *)
Definition recycled (th : Z) (h h' : Hist D) : Prop :=
  exists rdrop wdrop,
    readhis h = readhis h' ++ rdrop /\ cut th (readhis h') rdrop /\
    writehis h = writehis h' ++ wdrop /\ cut th (writehis h') wdrop /\
    row_base h' = folded_base (row_base h) wdrop /\ hist_ok h'.

Lemma recycled_refl th h : hist_ok h -> recycled th h h.
Proof. intros Hok. exists [], []. rewrite !app_nil_r. by split_and!. Qed.

Lemma wrap64_sub0 z : 0 <= z <= UINT64_MAX -> wrap64 (z - 0) = z.
Proof. intros. rewrite wrap64_small; lia. Qed.

Lemma recycle_writes_spec th h :
  hist_ok h ->
  exists h', (if 1 <? whis_len h then
      p ← hist_tail_prev (writehis h);
      if p <? th then
        '(latest, h2) ← hist_clear W_REQ th h;
        Ok (match latest with Some row => hist_set_base row h2 | None => h2 end)
      else Ok h
    else Ok h) = Ok h' /\ readhis h' = readhis h /\
    exists wdrop, writehis h = writehis h' ++ wdrop /\ cut th (writehis h') wdrop /\
      row_base h' = folded_base (row_base h) wdrop /\ hist_ok h'.
Proof.
  intros Hok. pose proof Hok as [].
  assert (exists h', Ok h = Ok h' /\ readhis h' = readhis h /\
    exists wdrop, writehis h = writehis h' ++ wdrop /\ cut th (writehis h') wdrop /\
      row_base h' = folded_base (row_base h) wdrop /\ hist_ok h') as Hnop.
  { exists h. split_and!; [done|done|]. exists []. rewrite app_nil_r. by split_and!. }
  destruct (Z.ltb_spec 1 (whis_len h)) as [Hw|Hw]; [|exact Hnop].
  assert (exists p, hist_tail_prev (writehis h) = Ok p) as [p ->].
  { unfold hist_tail_prev. rewrite ok_wlen0, <- (length_rev (writehis h)) in Hw.
    destruct (rev (writehis h)) as [|a [|b rl]]; cbn in Hw; try lia. eauto. }
  cbn [mbind res_bind]. destruct (p <? th); [|exact Hnop]. clear Hnop.
  destruct (clear_chain_spec th (writehis h) ok_wsorted0) as (keep & drop & E & Hl & Hd).
  cbn [hist_clear]. rewrite E. cbn -[Z.of_nat].
  pose proof (hist_shrink_ok h (readhis h) [] keep drop (folded_base (row_base h) drop) Hok
                ltac:(by rewrite app_nil_r) Hl) as Hok'.
  cbn [length] in Hok'. change (Z.of_nat 0) with 0 in Hok'. rewrite (wrap64_sub0 (rhis_len h)) in Hok' by lia.
  destruct drop as [|d drop].
  - eexists. split_and!; [done|done|]. exists []. cbn. by split_and!.
  - rewrite Hl in ok_rows0. apply Forall_app in ok_rows0 as [_ [[x Hx] _]%Forall_cons].
    unfold folded_base in Hok' |- *. cbn in Hok' |- *. rewrite Hx in Hok' |- *.
    eexists. split_and!; [done|done|]. exists (d :: drop). cbn. by rewrite Hx.
Qed.

Lemma hist_recycle_spec g th h :
  hist_ok h -> exists h', hist_recycle g th h = Ok h' /\ recycled th h h'.
Proof.
  intros Hok. unfold hist_recycle. destruct (_ || _)%bool.
  2:{ exists h. split; [done|]. by apply recycled_refl. }
  assert (exists h1, match last (readhis h) with
         | Some e => if his_ts e <? th
                     then '(_, h1) ← hist_clear R_REQ th h; Ok h1
                     else Ok h
         | None => Ok h
         end = Ok h1 /\ writehis h1 = writehis h /\ row_base h1 = row_base h /\ hist_ok h1 /\
         exists rdrop, readhis h = readhis h1 ++ rdrop /\ cut th (readhis h1) rdrop)
    as (h1 & -> & Hw1 & Hb1 & Hok1 & rdrop & Hr1 & Hc1).
  { assert (exists h1, Ok h = Ok h1 /\ writehis h1 = writehis h /\ row_base h1 = row_base h /\
      hist_ok h1 /\ exists rdrop, readhis h = readhis h1 ++ rdrop /\ cut th (readhis h1) rdrop)
      as Hnop.
    { exists h. split_and!; try done. exists []. rewrite app_nil_r. done. }
    destruct (last (readhis h)) as [e|]; [|exact Hnop].
    destruct (his_ts e <? th); [|exact Hnop]. clear Hnop.
    destruct (clear_chain_spec th (readhis h) (ok_rsorted _ Hok)) as (keep & drop & E & Hl & Hd).
    cbn [hist_clear]. rewrite E. cbn -[Z.of_nat]. eexists. split_and!; try done.
    - pose proof (hist_shrink_ok h keep drop (writehis h) [] (row_base h) Hok Hl
                    ltac:(by rewrite app_nil_r)) as Hok'.
      destruct Hok. cbn [length] in Hok'. change (Z.of_nat 0) with 0 in Hok'. by rewrite (wrap64_sub0 (whis_len h)) in Hok' by lia.
    - exists drop. done. }
  cbn [mbind res_bind].
  destruct (recycle_writes_spec th h1 Hok1) as (h' & -> & Hr' & wdrop & Hw' & Hc' & Hb' & Hok').
  exists h'. split; [done|]. exists rdrop, wdrop.
  rewrite Hr', <- Hw1, <- Hb1. by split_and!.
Qed.

(** ** Snapshots *)

Lemma cut_dropped th keep drop d :
  his_sorted (keep ++ drop) -> cut th keep drop -> d ∈ drop -> his_ts d < th.
Proof.
  intros Hs Hc Hd. destruct Hc as (e & He & Hlt); [by intros ->; apply elem_of_nil in Hd|].
  assert (e ∈ keep) as Hin by (by apply last_Some_elem_of).
  pose proof (StronglySorted_app_1_elem_of _ _ _ e d Hs Hin Hd) as Hle. cbn in Hle. lia.
Qed.

(** The search for a timestamp at or after the threshold never reaches the
    versions that are dropped. *)
Lemma cut_find th keep drop ts :
  his_sorted (keep ++ drop) -> cut th keep drop -> th <= ts -> drop <> [] ->
  is_Some (his_find ts keep).
Proof.
  intros Hs Hc Hts Hd. destruct (Hc Hd) as (e & He & Hlt).
  destruct (his_find ts keep) as [x|] eqn:E; [by eexists|].
  apply his_find_None in E. eapply Forall_forall in E; [|by apply last_Some_elem_of].
  cbn in E. lia.
Qed.

Lemma recycled_version th h h' ts :
  hist_ok h -> recycled th h h' -> th <= ts -> hist_version ts h' = hist_version ts h.
Proof.
  intros Hok (rdrop & wdrop & _ & _ & Hw & Hc & Hb & _) Hts.
  pose proof (ok_wsorted _ Hok) as Hs. rewrite Hw in Hs.
  unfold hist_version. rewrite Hw, his_find_app, Hb.
  destruct (decide (wdrop = [])) as [->|Hne]; [by destruct (his_find _ _)|].
  by destruct (cut_find _ _ _ _ Hs Hc Hts Hne) as [e ->].
Qed.

Lemma his_insert_find_newer {X} ts (e : HisEntry X) l :
  ts < his_ts e -> his_find ts (his_insert e l) = his_find ts l.
Proof.
  intros He. induction l as [|y l IH]; cbn.
  - by rewrite (proj2 (Z.ltb_lt _ _) He).
  - destruct (Z.ltb_spec (his_ts e) (his_ts y)); cbn.
    + rewrite IH. done.
    + by rewrite (proj2 (Z.ltb_lt _ _) He).
Qed.

Lemma hist_insert_version ts w row h :
  ts < w -> hist_version ts (hist_insert w (Some row) h) = hist_version ts h.
Proof. intros Hlt. unfold hist_version. cbn. by rewrite his_insert_find_newer. Qed.

(** What the search returns, as a statement about the history. *)
Lemma hist_version_spec ts h :
  hist_ok h ->
  (exists e, e ∈ writehis h /\ his_ts e <= ts /\
     (forall x, x ∈ writehis h -> his_ts x <= ts -> his_ts x <= his_ts e) /\
     hist_version ts h = his_val e /\ his_find ts (writehis h) = Some e) \/
  ((forall x, x ∈ writehis h -> ts < his_ts x) /\
   hist_version ts h = Some (row_base h) /\ his_find ts (writehis h) = None).
Proof.
  intros Hok. unfold hist_version. destruct (his_find ts (writehis h)) as [e|] eqn:E.
  - left. destruct (his_find_Some _ _ _ (ok_wsorted _ Hok) E) as (? & ? & ?).
    exists e. done.
  - right. apply his_find_None in E. split_and!; [|done|done]. intros x Hx.
    by eapply Forall_forall in E.
Qed.

End Hist.

#[export] Hint Resolve hist_init_ok recycled_refl : promi.
