(* ===== verification/RowWsi.v ===== *)
(** * Row_wsi: the write-snapshot-isolation row manager

    Model of concurrency_control/row_wsi.cpp on the common histories of
    [Histories].  [access] runs under the row latch and is one step. *)

From stdpp Require Import gmap list sorting relations.
From S2P Require Import Prelude VersionChain Histories.
#[local] Open Scope Z_scope.

Record Row_wsi (D : Type) := mkRowWsi {
  prereq_mvcc : list ReqEntry;
  preq_len : Z;
  hist : Hist D;
  lastCommit : Z;
}.
Arguments mkRowWsi {D} _ _ _ _.
Arguments prereq_mvcc {D} _.
Arguments preq_len {D} _.
Arguments hist {D} _.
Arguments lastCommit {D} _.

Section RowWsi.
Context {D : Type}.
Context (g_his_recycle_len g_max_pre_req : Z).
Implicit Types (r : Row_wsi D).

Definition init (row : D) : Row_wsi D := mkRowWsi [] 0 (hist_init row) 0.

Definition get_last_commit (r : Row_wsi D) : Z := lastCommit r.

Definition update_last_commit (ts : Z) (r : Row_wsi D) : Row_wsi D :=
  if lastCommit r <? ts
  then mkRowWsi (prereq_mvcc r) (preq_len r) (hist r) ts
  else r.

Definition set_hist (h : Hist D) (r : Row_wsi D) : Row_wsi D :=
  mkRowWsi (prereq_mvcc r) (preq_len r) h (lastCommit r).

Definition clear_history (type : TsType) (ts : Z) (r : Row_wsi D)
    : res (option D * Row_wsi D) :=
  '(row, h) ← hist_clear type ts (hist r);
  Ok (row, set_hist h r).

Definition buffer_req (type : TsType) (txn : TxnManager) (r : Row_wsi D) : Row_wsi D :=
  match type with
  | P_REQ => mkRowWsi (mkReq txn (tm_start_timestamp txn) :: prereq_mvcc r)
               (wrap64 (preq_len r + 1)) (hist r) (lastCommit r)
  | _ => r
  end.

(** [debuffer_req(P_REQ, txn)]: the request must be there. *)
Definition debuffer_req (txn : TxnManager) (r : Row_wsi D) : res (Row_wsi D) :=
  match req_remove txn (prereq_mvcc r) with
  | Some (_, l) => Ok (mkRowWsi l (wrap64 (preq_len r - 1)) (hist r) (lastCommit r))
  | None => AssertFail
  end.

Definition insert_history (ts : Z) (row : option D) (r : Row_wsi D) : Row_wsi D :=
  set_hist (hist_insert ts row (hist r)) r.

Definition recycle (t_th : Z) (r : Row_wsi D) : res (Row_wsi D) :=
  h ← hist_recycle g_his_recycle_len t_th (hist r);
  Ok (set_hist h r).

(** [Row_wsi::access].  The second component is what the R_REQ branch stores
    in [txn->cur_row]. *)
Definition access (txn : TxnManager) (type : TsType) (row : option D) (t_th : Z)
    (r : Row_wsi D) : res (RC * option D * Row_wsi D) :=
  match type with
  | R_REQ =>
      let cur := hist_version (tm_start_timestamp txn) (hist r) in
      r1 ← recycle t_th (insert_history (tm_start_timestamp txn) None r);
      Ok (RCOK, cur, r1)
  | P_REQ =>
      if preq_len r <? g_max_pre_req
      then r1 ← recycle t_th (buffer_req P_REQ txn r); Ok (RCOK, None, r1)
      else Ok (Abort, None, r)
  | W_REQ =>
      r1 ← debuffer_req txn (insert_history (tm_commit_timestamp txn) row r);
      r2 ← recycle t_th r1;
      Ok (RCOK, None, r2)
  | XP_REQ =>
      r1 ← debuffer_req txn r;
      r2 ← recycle t_th r1;
      Ok (RCOK, None, r2)
  end.

(** ** Invariant *)

Record row_ok (r : Row_wsi D) : Prop := {
  ok_hist : hist_ok (hist r);
  ok_plen : preq_len r = Z.of_nat (length (prereq_mvcc r));
  ok_pbound : Z.of_nat (length (prereq_mvcc r)) <= UINT64_MAX;
}.

Lemma wsi_row_ok_init (row : D) : row_ok (init row).
Proof. split; cbn; auto with promi; done. Qed.

Lemma set_hist_ok h r : hist_ok h -> row_ok r -> row_ok (set_hist h r).
Proof. intros Hh []. by split. Qed.

Lemma wsi_buffer_req_ok txn r :
  row_ok r -> Z.of_nat (length (prereq_mvcc r)) < UINT64_MAX -> row_ok (buffer_req P_REQ txn r).
Proof. intros [] Hb. split; cbn; auto; [|lia]. rewrite ok_plen0, wrap64_small; lia. Qed.

Lemma wsi_debuffer_req_ok txn r :
  row_ok r -> tm_ptr txn ∈ (rq_ptr <$> prereq_mvcc r) ->
  exists r', debuffer_req txn r = Ok r' /\ row_ok r' /\ hist r' = hist r.
Proof.
  intros [] Hin. unfold debuffer_req.
  destruct (req_remove_is_Some _ _ Hin) as (q & l & E). rewrite E.
  apply req_remove_Some in E as (_ & Hp%Permutation_length & _). cbn in Hp.
  eexists. split_and!; [done| |done]. split; cbn; auto; [|lia].
  rewrite ok_plen0, wrap64_small; lia.
Qed.

Lemma recycle_ok t_th r :
  row_ok r -> exists h, recycle t_th r = Ok (set_hist h r) /\ row_ok (set_hist h r) /\
    recycled t_th (hist r) h.
Proof.
  intros Hok. unfold recycle.
  destruct (hist_recycle_spec g_his_recycle_len t_th (hist r) (ok_hist _ Hok)) as (h & -> & Hr).
  exists h. cbn. split_and!; [done| |done]. apply set_hist_ok; [|done].
  destruct Hr as (? & ? & ? & ? & ? & ? & ? & ?). done.
Qed.

(** When the callers issue an access. *)
Definition access_pre (type : TsType) (txn : TxnManager) (row : option D) (r : Row_wsi D)
    : Prop :=
  match type with
  | R_REQ => Z.of_nat (length (readhis (hist r))) < UINT64_MAX
  | P_REQ => Z.of_nat (length (prereq_mvcc r)) < UINT64_MAX
  | W_REQ => is_Some row /\ Z.of_nat (length (writehis (hist r))) < UINT64_MAX /\
             tm_ptr txn ∈ (rq_ptr <$> prereq_mvcc r)
  | XP_REQ => tm_ptr txn ∈ (rq_ptr <$> prereq_mvcc r)
  end.

Lemma wsi_access_ok txn type row t_th r :
  row_ok r -> access_pre type txn row r ->
  exists rc cur r', access txn type row t_th r = Ok (rc, cur, r') /\ row_ok r' /\
    (rc = Abort <-> type = P_REQ /\ g_max_pre_req <= preq_len r) /\
    (type = R_REQ -> rc = RCOK /\ cur = hist_version (tm_start_timestamp txn) (hist r)) /\
    (forall ts, t_th <= ts -> (type = W_REQ -> ts < tm_commit_timestamp txn) ->
       hist_version ts (hist r') = hist_version ts (hist r)).
Proof.
  intros Hok Hp. unfold access. destruct type; cbn in Hp.
  - assert (hist_ok (hist_insert (tm_start_timestamp txn) None (hist r))) as Hh
      by (apply hist_insert_read_ok; [apply Hok|done]).
    destruct (recycle_ok t_th (insert_history (tm_start_timestamp txn) None r))
      as (h & -> & Hok' & Hr); [by apply set_hist_ok|].
    cbn. do 3 eexists. split_and!; [done|done|naive_solver|done|].
    intros ts Hts _. cbn [hist set_hist]. by rewrite (recycled_version t_th _ h ts Hh Hr Hts).
  - destruct Hp as ([d ->] & Hb & Hin).
    assert (hist_ok (hist_insert (tm_commit_timestamp txn) (Some d) (hist r))) as Hh
      by (apply hist_insert_write_ok; [apply Hok|done]).
    destruct (wsi_debuffer_req_ok txn (insert_history (tm_commit_timestamp txn) (Some d) r))
      as (r1 & -> & Hok1 & Hh1); [by apply set_hist_ok|done|].
    cbn [mbind res_bind].
    destruct (recycle_ok t_th r1 Hok1) as (h & -> & Hok' & Hr).
    rewrite Hh1 in Hr. cbn. do 3 eexists. split_and!; [done|done|naive_solver|done|].
    intros ts Hts Hc. cbn [hist set_hist]. rewrite (recycled_version t_th _ h ts Hh Hr Hts).
    by apply hist_insert_version, Hc.
  - destruct (Z.ltb_spec (preq_len r) g_max_pre_req).
    + destruct (recycle_ok t_th (buffer_req P_REQ txn r)) as (h & -> & Hok' & Hr);
        [by apply wsi_buffer_req_ok|].
      cbn. do 3 eexists. split_and!; [done|done|naive_solver lia|done|].
      intros ts Hts _. by apply (recycled_version t_th _ h ts (ok_hist _ Hok) Hr).
    + do 3 eexists. split_and!; done.
  - destruct (wsi_debuffer_req_ok txn r Hok Hp) as (r1 & -> & Hok1 & Hh1). cbn [mbind res_bind].
    destruct (recycle_ok t_th r1 Hok1) as (h & -> & Hok' & Hr).
    rewrite Hh1 in Hr. cbn. do 3 eexists. split_and!; [done|done|naive_solver|done|].
    intros ts Hts _. by apply (recycled_version t_th _ h ts (ok_hist _ Hok) Hr).
Qed.

(** Accesses that a snapshot [S] lives through. *)
Inductive row_step (S : Z) : Row_wsi D -> Row_wsi D -> Prop :=
| row_step_access txn type row t_th r rc cur r' :
    access_pre type txn row r -> t_th <= S ->
    (type = W_REQ -> S < tm_commit_timestamp txn) ->
    access txn type row t_th r = Ok (rc, cur, r') -> row_step S r r'.

Lemma wsi_row_steps_spec S r r' :
  row_ok r -> rtc (row_step S) r r' ->
  row_ok r' /\ hist_version S (hist r') = hist_version S (hist r).
Proof.
  intros Hok R. revert Hok. induction R as [|r1 r2 r3 St _ IH]; intros Hok; [done|].
  destruct St as [txn type row t_th r1 rc cur r2 Hp Hth Hc E].
  destruct (wsi_access_ok txn type row t_th r1 Hok Hp) as (? & ? & ? & E' & Hok2 & _ & _ & Hv).
  rewrite E in E'. injection E' as <- <- <-. destruct (IH Hok2) as [Hok3 E3].
  split; [done|]. rewrite E3. by apply Hv.
Qed.

End RowWsi.

(** ** Properties *)

(** Reads of a WSI row are snapshot reads: a read returns the newest
    version not newer than the start timestamp, and again the same row after
    any accesses of transactions that commit after the snapshot, with any
    recycling below it.  The reads fail no assertion and keep the row
    well-formed. *)
Theorem wsi_snapshot_reads (D : Type) (g_his g_max : Z) (r r' : Row_wsi D)
    (txn : TxnManager) (th th' : Z) :
  row_ok r -> rtc (row_step g_his g_max (tm_start_timestamp txn)) r r' ->
  access_pre R_REQ txn None r -> access_pre R_REQ txn None r' ->
  exists v r1 r2,
    access g_his g_max txn R_REQ None th r = Ok (RCOK, v, r1) /\ row_ok r1 /\
    access g_his g_max txn R_REQ None th' r' = Ok (RCOK, v, r2) /\ row_ok r2 /\
    ((exists e, e ∈ writehis (hist r) /\ his_ts e <= tm_start_timestamp txn /\
        (forall x, x ∈ writehis (hist r) -> his_ts x <= tm_start_timestamp txn ->
           his_ts x <= his_ts e) /\ v = his_val e) \/
     ((forall x, x ∈ writehis (hist r) -> tm_start_timestamp txn < his_ts x) /\
      v = Some (row_base (hist r)))).
Proof.
  intros Hok R Hp Hp'. destruct (wsi_row_steps_spec g_his g_max _ _ _ Hok R) as [Hok' Ev].
  destruct (wsi_access_ok g_his g_max txn R_REQ None th r Hok Hp)
    as (rc1 & c1 & r1 & E1 & Hok1 & _ & H1 & _).
  destruct (wsi_access_ok g_his g_max txn R_REQ None th' r' Hok' Hp')
    as (rc2 & c2 & r2 & E2 & Hok2 & _ & H2 & _).
  destruct (H1 eq_refl) as [-> ->]. destruct (H2 eq_refl) as [-> ->]. rewrite Ev in E2.
  exists (hist_version (tm_start_timestamp txn) (hist r)), r1, r2.
  split_and!; [done|done|done|done|].
  destruct (hist_version_spec (tm_start_timestamp txn) (hist r) (ok_hist _ Hok))
    as [(e & ? & ? & ? & ? & _)|(? & ? & _)]; [left; eauto|by right].
Qed.

(** *** Witness *)

Definition ex_wtxn (id : Z) : TxnManager := mkTxn id id 0 (id * 10) (id * 10 + 5) false.

(** Versions 15 and 25; transaction 4 has prewritten. *)
Definition ex_wrow : Row_wsi Z :=
  mkRowWsi [mkReq (ex_wtxn 4) 40] 1
    (mkHist [] [mkHis 25 (Some 102); mkHis 15 (Some 101)] 2 0 7) 0.

(** After its W_REQ, with recycling length 1: version 15 is in the base. *)
Definition ex_wrow' : Row_wsi Z :=
  mkRowWsi [] 0 (mkHist [] [mkHis 45 (Some 104); mkHis 25 (Some 102)] 2 0 101) 0.

Lemma ex_wrow_ok : row_ok ex_wrow.
Proof.
  split; [split|..]; cbn; try done.
  - unfold his_sorted. repeat constructor. cbn. lia.
  - constructor.
  - repeat constructor; eexists; reflexivity.
Qed.

Lemma wsi_snapshot_reads_witness :
  exists v r1 r2,
    access 1 100 (ex_wtxn 3) R_REQ None 30 ex_wrow = Ok (RCOK, v, r1) /\
    access 1 100 (ex_wtxn 3) R_REQ None 30 ex_wrow' = Ok (RCOK, v, r2).
Proof.
  destruct (wsi_snapshot_reads Z 1 100 ex_wrow ex_wrow' (ex_wtxn 3) 30 30)
    as (v & r1 & r2 & E1 & _ & E2 & _).
  - exact ex_wrow_ok.
  - apply rtc_once. eapply (row_step_access 1 100 _ (ex_wtxn 4) W_REQ (Some 104) 30).
    + cbn. split_and!; [by eexists|done|by left].
    + cbn. lia.
    + cbn. lia.
    + vm_compute. reflexivity.
  - vm_compute. reflexivity.
  - vm_compute. reflexivity.
  - exists v, r1, r2. split; [exact E1|exact E2].
Defined.
