(* ===== verification/Wsi.v ===== *)
(** * Wsi: the write-snapshot-isolation validator

    Model of concurrency_control/wsi.cpp.  The rows are a list of row
    managers and a [row_t *] is an index into it; the accesses of a
    transaction are its access list ([txn->accesses]), each with a type and
    the original row, next to the counters [row_cnt] and [write_cnt].  The
    validator holds its semaphore, so each operation is one step. *)

From stdpp Require Import gmap list.
From S2P Require Import Prelude Histories RowWsi.
#[local] Open Scope Z_scope.

Record Access := mkAccess { acc_type : access_t; orig_row : nat }.

(** The part of [Transaction] the validator reads. *)
Record Transaction := mkTransaction {
  accesses : list Access;
  row_cnt : Z;
  write_cnt : Z;
}.

Definition get_write_set_size (tx : Transaction) : Z := write_cnt tx.
Definition get_read_set_size (tx : Transaction) : Z := wrap64 (row_cnt tx - write_cnt tx).

(** One pass over the access list: rows go to the write set or to the read
    set by the access type. *)
Definition split_rows (l : list Access) : list nat * list nat :=
  foldl (fun '(rset, wset) a =>
           if bool_decide (acc_type a = WR) then (rset, wset ++ [orig_row a])
           else (rset ++ [orig_row a], wset)) ([], []) l.

(** [wsi::get_rw_set]: the set sizes are 32-bit.  The loop reads one access
    per element of the two sets; the two assertions compare what it stored
    with the sizes the arrays were allocated with. *)
Definition get_rw_set (tx : Transaction) : res (list nat * list nat) :=
  let wsize := wrap32 (get_write_set_size tx) in
  let rsize := wrap32 (get_read_set_size tx) in
  let total := wrap32 (wsize + rsize) in
  if Z.of_nat (length (accesses tx)) <? total then AssertFail
  else
    let '(rset, wset) := split_rows (take (Z.to_nat total) (accesses tx)) in
    assert! (Z.of_nat (length wset) =? wsize);
    assert! (Z.of_nat (length rset) =? rsize);
    Ok (rset, wset).

Section Validator.
Context {D : Type}.
Implicit Types (db : list (Row_wsi D)).

(** The validation loop: [rc] is [None] while it is uninitialised. *)
Fixpoint check_reads (start_tn : Z) (rset : list nat) (db : list (Row_wsi D)) (rc : option RC)
    : res (option RC) :=
  match rset with
  | [] => Ok rc
  | i :: rset' =>
      match db !! i with
      | Some r => check_reads start_tn rset' db
                    (if start_tn <? get_last_commit r then Some Abort else rc)
      | None => AssertFail
      end
  end.

(** [wsi::central_validate].  The flag [valid] is set once and decides the
    final value of [rc]. *)
Definition central_validate (txn : TxnManager) (tx : Transaction) (db : list (Row_wsi D))
    : res RC :=
  let valid := true in
  '(rset, wset) ← get_rw_set tx;
  let readonly := Z.of_nat (length wset) =? 0 in
  _ ← (if negb readonly then check_reads (tm_start_timestamp txn) rset db None else Ok None);
  if valid then Ok RCOK else Ok Abort.

Definition validate (txn : TxnManager) (tx : Transaction) (db : list (Row_wsi D)) : res RC :=
  central_validate txn tx db.

Fixpoint update_all (ts : Z) (rows : list nat) (db : list (Row_wsi D))
    : res (list (Row_wsi D)) :=
  match rows with
  | [] => Ok db
  | i :: rows' =>
      match db !! i with
      | Some r => update_all ts rows' (<[i := update_last_commit ts r]> db)
      | None => AssertFail
      end
  end.

(** [wsi::central_finish]: [rc] is not used. *)
Definition central_finish (rc : RC) (txn : TxnManager) (tx : Transaction)
    (db : list (Row_wsi D)) : res (list (Row_wsi D)) :=
  '(rset, _) ← get_rw_set tx;
  update_all (tm_commit_timestamp txn) rset db.

Definition finish (rc : RC) (txn : TxnManager) (tx : Transaction) (db : list (Row_wsi D))
    : res (list (Row_wsi D)) := central_finish rc txn tx db.

(** What the validator compares: some row of the read set was committed after
    the transaction started. *)
Definition read_overwritten (txn : TxnManager) (rset : list nat) (db : list (Row_wsi D)) : bool :=
  existsb (fun i => match db !! i with
                    | Some r => tm_start_timestamp txn <? get_last_commit r
                    | None => false
                    end) rset.

(** ** Lemmas *)

Definition is_write (a : Access) : bool := bool_decide (acc_type a = WR).

Lemma split_rows_spec l :
  split_rows l = (orig_row <$> filter (fun a => is_write a = false) l,
                  orig_row <$> filter (fun a => is_write a = true) l).
Proof using Type.
  unfold split_rows.
  cut (forall rs ws, foldl (fun '(rset, wset) a =>
           if bool_decide (acc_type a = WR) then (rset, wset ++ [orig_row a])
           else (rset ++ [orig_row a], wset)) (rs, ws) l =
         (rs ++ (orig_row <$> filter (fun a => is_write a = false) l),
          ws ++ (orig_row <$> filter (fun a => is_write a = true) l))).
  { intros H. exact (H [] []). }
  induction l as [|a l IH]; intros rs ws.
  - cbn. by rewrite !app_nil_r.
  - cbn [foldl]. rewrite !filter_cons. change (bool_decide (acc_type a = WR)) with (is_write a).
    destruct (is_write a); rewrite IH; cbn; by rewrite <- app_assoc.
Qed.

(** The counters that [TxnManager::get_row] maintains. *)
Record counters_ok (tx : Transaction) : Prop := {
  co_rows : row_cnt tx = Z.of_nat (length (accesses tx));
  co_writes : write_cnt tx = Z.of_nat (length (filter (fun a => is_write a = true) (accesses tx)));
  co_bound : Z.of_nat (length (accesses tx)) < 4294967296;
}.

Lemma length_filter_split {A} (f : A -> bool) (l : list A) :
  (length (filter (fun a => f a = false) l) + length (filter (fun a => f a = true) l))%nat =
  length l.
Proof using Type.
  induction l as [|a l IH]; [done|]. rewrite !filter_cons. destruct (f a) eqn:E.
  - rewrite decide_False, decide_True by congruence. cbn. lia.
  - rewrite decide_True, decide_False by congruence. cbn. lia.
Qed.

Lemma get_rw_set_spec tx :
  counters_ok tx ->
  get_rw_set tx = Ok (orig_row <$> filter (fun a => is_write a = false) (accesses tx),
                      orig_row <$> filter (fun a => is_write a = true) (accesses tx)).
Proof using Type.
  intros [Hr Hw Hb]. unfold get_rw_set, get_write_set_size, get_read_set_size.
  pose proof (length_filter_split is_write (accesses tx)) as Hl.
  set (nw := length (filter (fun a => is_write a = true) (accesses tx))) in *.
  set (nr := length (filter (fun a => is_write a = false) (accesses tx))) in *.
  rewrite Hr, Hw.
  replace (Z.of_nat (length (accesses tx)) - Z.of_nat nw) with (Z.of_nat nr) by lia.
  rewrite (wrap64_small (Z.of_nat nr)) by (unfold UINT64_MAX; lia).
  rewrite (wrap32_small (Z.of_nat nr)), (wrap32_small (Z.of_nat nw)) by lia.
  rewrite wrap32_small by lia.
  rewrite (proj2 (Z.ltb_ge _ _)) by lia.
  replace (Z.to_nat (Z.of_nat nw + Z.of_nat nr)) with (length (accesses tx)) by lia.
  rewrite take_ge by lia. rewrite split_rows_spec, !length_fmap. fold nw nr.
  by rewrite !Z.eqb_refl.
Qed.

Definition rows_exist (tx : Transaction) (db : list (Row_wsi D)) : Prop :=
  Forall (fun a => (orig_row a < length db)%nat) (accesses tx).

Lemma rows_exist_lookup tx db i (P : Access -> Prop) `{!forall a, Decision (P a)} :
  rows_exist tx db -> i ∈ (orig_row <$> filter P (accesses tx)) -> is_Some (db !! i).
Proof using Type.
  intros Hr (a & -> & [_ Ha]%list_elem_of_filter)%list_elem_of_fmap. apply lookup_lt_is_Some.
  unfold rows_exist in Hr. by eapply Forall_forall in Hr.
Qed.

Lemma check_reads_returns ts rset db rc :
  (forall i, i ∈ rset -> is_Some (db !! i)) -> exists rc', check_reads ts rset db rc = Ok rc'.
Proof using Type.
  revert rc. induction rset as [|i rset IH]; intros rc Hr; cbn; [eauto|].
  destruct (Hr i ltac:(by left)) as [r ->]. apply IH. intros j Hj. apply Hr. by right.
Qed.

Lemma update_all_spec ts rows db :
  (forall i, i ∈ rows -> is_Some (db !! i)) ->
  exists db', update_all ts rows db = Ok db' /\
    forall j, db' !! j = if decide (j ∈ rows) then update_last_commit ts <$> db !! j else db !! j.
Proof using Type.
  revert db. induction rows as [|i rows IH]; intros db Hr; cbn.
  { exists db. split; [done|]. intros j. by case_decide; [set_solver|]. }
  destruct (Hr i ltac:(by left)) as [r E]. rewrite E.
  destruct (IH (<[i:=update_last_commit ts r]> db)) as (db' & -> & Hd).
  { intros j Hj. rewrite list_lookup_insert_is_Some. apply Hr. by right. }
  exists db'. split; [done|]. intros j. rewrite Hd.
  assert (forall r : Row_wsi D, update_last_commit ts (update_last_commit ts r) = update_last_commit ts r)
    as Hidem.
  { intros r'. unfold update_last_commit. destruct (Z.ltb_spec (lastCommit r') ts); cbn.
    - by rewrite Z.ltb_irrefl.
    - by rewrite (proj2 (Z.ltb_ge _ _)). }
  destruct (decide (j = i)) as [->|Hne].
  - rewrite (decide_True _ _ (P := i ∈ i :: rows)) by (by left).
    rewrite list_lookup_insert_eq by (by eapply lookup_lt_Some). rewrite E. cbn.
    rewrite Hidem. by case_decide.
  - rewrite list_lookup_insert_ne by done.
    destruct (decide (j ∈ rows)), (decide (j ∈ i :: rows)); try done; set_solver.
Qed.

End Validator.

(** ** Properties *)

(** Validation is vacuous: for every transaction whose counters describe
    its access list and whose rows exist, [wsi::validate] returns RCOK, also
    when it writes and a row it read was committed after it started. *)
Theorem wsi_validate_vacuous (D : Type) (txn : TxnManager) (tx : Transaction)
    (db : list (Row_wsi D)) :
  counters_ok tx -> rows_exist tx db -> validate txn tx db = Ok RCOK.
Proof.
  intros Hc Hr. unfold validate, central_validate. rewrite (get_rw_set_spec tx Hc).
  cbn [mbind res_bind]. destruct (negb _); [|done].
  destruct (check_reads_returns (tm_start_timestamp txn)
    (orig_row <$> filter (fun a => is_write a = false) (accesses tx)) db None) as [rc ->]; [|done].
  intros i Hi. by eapply rows_exist_lookup.
Qed.

(** The last-commit timestamp follows the read set: [wsi::finish] raises
    it to the commit timestamp on exactly the rows the transaction accessed
    otherwise than by a write, whatever the outcome [rc] is.  In particular
    an aborted transaction raises it, and a row that is only written keeps
    it. *)
Theorem wsi_finish_marks_reads (D : Type) (rc : RC) (txn : TxnManager) (tx : Transaction)
    (db : list (Row_wsi D)) :
  counters_ok tx -> rows_exist tx db ->
  exists db', finish rc txn tx db = Ok db' /\
    forall j r, db !! j = Some r ->
      (exists r', db' !! j = Some r' /\ hist r' = hist r /\ prereq_mvcc r' = prereq_mvcc r /\
         ((exists a, a ∈ accesses tx /\ acc_type a <> WR /\ orig_row a = j) ->
            get_last_commit r' = Z.max (get_last_commit r) (tm_commit_timestamp txn)) /\
         (~ (exists a, a ∈ accesses tx /\ acc_type a <> WR /\ orig_row a = j) -> r' = r)).
Proof.
  intros Hc Hr. unfold finish, central_finish. rewrite (get_rw_set_spec tx Hc).
  cbn [mbind res_bind].
  destruct (update_all_spec (tm_commit_timestamp txn)
    (orig_row <$> filter (fun a => is_write a = false) (accesses tx)) db) as (db' & -> & Hd).
  { intros i Hi. by eapply rows_exist_lookup. }
  exists db'. split; [done|]. intros j r E. specialize (Hd j). rewrite E in Hd.
  assert (j ∈ (orig_row <$> filter (fun a => is_write a = false) (accesses tx)) <->
    exists a, a ∈ accesses tx /\ acc_type a <> WR /\ orig_row a = j) as Hj.
  { rewrite list_elem_of_fmap. setoid_rewrite list_elem_of_filter. unfold is_write.
    setoid_rewrite bool_decide_eq_false. naive_solver. }
  case_decide as Hin; cbn in Hd.
  - exists (update_last_commit (tm_commit_timestamp txn) r). rewrite <- Hj.
    split; [exact Hd|]. unfold update_last_commit, get_last_commit.
    destruct (Z.ltb_spec (lastCommit r) (tm_commit_timestamp txn)); cbn; split_and!;
      try done; intros; try contradiction; lia.
  - exists r. rewrite <- Hj. by split_and!.
Qed.

(** *** Witnesses *)

(** Transaction 1 reads row 0 and writes row 1; both rows have been committed
    (at 50) after its start (at 10). *)
Definition ex_db : list (Row_wsi Z) :=
  [update_last_commit 50 (init 7); update_last_commit 50 (init 8)].
Definition ex_tx : Transaction := mkTransaction [mkAccess RD 0; mkAccess WR 1] 2 1.
Definition ex_vtxn : TxnManager := mkTxn 1 1 0 10 60 false.

Lemma ex_tx_counters : counters_ok ex_tx.
Proof. split; done. Qed.

Lemma ex_tx_rows : rows_exist ex_tx ex_db.
Proof. repeat constructor. Qed.

Lemma wsi_validate_vacuous_witness :
  read_overwritten ex_vtxn [0%nat] ex_db = true /\ validate ex_vtxn ex_tx ex_db = Ok RCOK.
Proof.
  split; [reflexivity|].
  apply (wsi_validate_vacuous Z ex_vtxn ex_tx ex_db); [exact ex_tx_counters|exact ex_tx_rows].
Defined.

Lemma wsi_finish_marks_reads_witness :
  exists db', finish Abort ex_vtxn ex_tx ex_db = Ok db' /\
    (get_last_commit <$> db' !! 0%nat) = Some 60 /\ db' !! 1%nat = ex_db !! 1%nat.
Proof.
  destruct (wsi_finish_marks_reads Z Abort ex_vtxn ex_tx ex_db ex_tx_counters ex_tx_rows)
    as (db' & E & H).
  exists db'. split; [exact E|]. split.
  - destruct (H 0%nat _ eq_refl) as (r' & -> & _ & _ & Hr & _). cbn. f_equal.
    apply Hr. exists (mkAccess RD 0). split_and!; [by left|done|reflexivity].
  - destruct (H 1%nat _ eq_refl) as (r' & -> & _ & _ & _ & Hr). cbn. f_equal.
    apply Hr. intros (a & Ha & Hw & Hj).
    apply elem_of_cons in Ha as [->|[->|Ha%elem_of_nil]%elem_of_cons]; done.
Defined.
