(* ===== verification/RowMvcc.v ===== *)
(** * Row_mvcc: multi-version timestamp ordering

    Model of concurrency_control/row_mvcc.cpp (the version of [access] that is
    compiled) on the common histories of [Histories].  [access] runs under the
    row latch and is one step.  What it writes into other transactions, the
    rows and wake-ups handed out by [update_buffer], is returned as the list
    of requests served, in the order of the code; [txn->ts_ready] is false
    after WAIT and true for a request served. *)

From stdpp Require Import gmap list sorting relations.
From S2P Require Import Prelude VersionChain Histories.
#[local] Open Scope Z_scope.

Record Row_mvcc (D : Type) := mkRowMvcc {
  readreq_mvcc : list ReqEntry;
  prereq_mvcc : list ReqEntry;
  rreq_len : Z;
  preq_len : Z;
  hist : Hist D;
}.
Arguments mkRowMvcc {D} _ _ _ _ _.
Arguments readreq_mvcc {D} _.
Arguments prereq_mvcc {D} _.
Arguments rreq_len {D} _.
Arguments preq_len {D} _.
Arguments hist {D} _.

Section RowMvcc.
Context {D : Type}.
Context (g_his_recycle_len g_max_read_req g_max_pre_req : Z).
Implicit Types (r : Row_mvcc D).

Definition init (row : D) : Row_mvcc D := mkRowMvcc [] [] 0 0 (hist_init row).

Definition set_hist (h : Hist D) (r : Row_mvcc D) : Row_mvcc D :=
  mkRowMvcc (readreq_mvcc r) (prereq_mvcc r) (rreq_len r) (preq_len r) h.

Definition clear_history (type : TsType) (ts : Z) (r : Row_mvcc D)
    : res (option D * Row_mvcc D) :=
  '(row, h) ← hist_clear type ts (hist r);
  Ok (row, set_hist h r).

Definition buffer_req (type : TsType) (txn : TxnManager) (r : Row_mvcc D) : Row_mvcc D :=
  let q := mkReq txn (tm_timestamp txn) in
  match type with
  | R_REQ => mkRowMvcc (q :: readreq_mvcc r) (prereq_mvcc r)
               (wrap64 (rreq_len r + 1)) (preq_len r) (hist r)
  | P_REQ => mkRowMvcc (readreq_mvcc r) (q :: prereq_mvcc r)
               (rreq_len r) (wrap64 (preq_len r + 1)) (hist r)
  | _ => r
  end.

(** [debuffer_req(P_REQ, txn)]: the request must be there. *)
Definition debuffer_prewrite (txn : TxnManager) (r : Row_mvcc D) : res (Row_mvcc D) :=
  match req_remove txn (prereq_mvcc r) with
  | Some (_, l) =>
      Ok (mkRowMvcc (readreq_mvcc r) l (rreq_len r) (wrap64 (preq_len r - 1)) (hist r))
  | None => AssertFail
  end.

(** The smallest timestamp of a pending prewrite. *)
Definition min_pts (l : list ReqEntry) : Z :=
  foldl (fun m q => if rq_ts q <? m then rq_ts q else m) UINT64_MAX l.

(** The loop of [debuffer_req(R_REQ, NULL)]: each request that passes is
    unlinked, counted off and pushed on the return queue. *)
Fixpoint debuffer_reads_loop (m : Z) (queue ret : list ReqEntry) (len : Z)
    : list ReqEntry * list ReqEntry * Z :=
  match queue with
  | [] => ([], ret, len)
  | q :: queue' =>
      if rq_ts q <=? m
      then debuffer_reads_loop m queue' (q :: ret) (wrap64 (len - 1))
      else let '(keep, ret', len') := debuffer_reads_loop m queue' ret len in
           (q :: keep, ret', len')
  end.

Definition debuffer_reads (r : Row_mvcc D) : list ReqEntry * Row_mvcc D :=
  let '(keep, ret, len) :=
    debuffer_reads_loop (min_pts (prereq_mvcc r)) (readreq_mvcc r) [] (rreq_len r) in
  (ret, mkRowMvcc keep (prereq_mvcc r) len (preq_len r) (hist r)).

Definition insert_history (ts : Z) (row : option D) (r : Row_mvcc D) : Row_mvcc D :=
  set_hist (hist_insert ts row (hist r)) r.

(** R_REQ: the largest prewrite timestamp below [ts], 0 if there is none. *)
Definition last_prewrite (ts : Z) (l : list ReqEntry) : Z :=
  foldl (fun pts q => if (rq_ts q <? ts) && (pts <? rq_ts q) then rq_ts q else pts) 0 l.

(** P_REQ: the last entry of the read history newer than [ts], 0 if none. *)
Fixpoint first_read_after (ts rts : Z) (l : list (MVHisEntry D)) : Z :=
  match l with
  | [] => rts
  | e :: l' => if ts <? his_ts e then first_read_after ts (his_ts e) l' else rts
  end.

(** The final loop: is there no version strictly between the two? *)
Fixpoint no_version_between (pts rts : Z) (l : list (MVHisEntry D)) : bool :=
  match l with
  | [] => true
  | e :: l' => if pts <? his_ts e
               then if his_ts e <? rts then false else no_version_between pts rts l'
               else true
  end.

(** [conflict] is called with R_REQ and P_REQ only. *)
Definition conflict (type : TsType) (ts : Z) (r : Row_mvcc D) : res bool :=
  match type with
  | R_REQ =>
      let pts := last_prewrite ts (prereq_mvcc r) in
      if pts =? 0 then Ok false
      else Ok (no_version_between pts ts (writehis (hist r)))
  | P_REQ =>
      let rts := first_read_after ts 0 (readhis (hist r)) in
      if rts =? 0 then Ok false
      else assert! (ts <? rts); Ok (no_version_between ts rts (writehis (hist r)))
  | _ => AssertFail
  end.

(** [update_buffer]: serve the reads that are no longer blocked. *)
Fixpoint serve (ready : list ReqEntry) (r : Row_mvcc D)
    : list (ReqEntry * option D) * Row_mvcc D :=
  match ready with
  | [] => ([], r)
  | q :: ready' =>
      let row := hist_version (rq_ts q) (hist r) in
      let '(out, r') := serve ready' (insert_history (rq_ts q) None r) in
      ((q, row) :: out, r')
  end.

Definition update_buffer (r : Row_mvcc D) : list (ReqEntry * option D) * Row_mvcc D :=
  let '(ready, r1) := debuffer_reads r in serve ready r1.

Definition recycle (t_th : Z) (r : Row_mvcc D) : res (Row_mvcc D) :=
  h ← hist_recycle g_his_recycle_len t_th (hist r);
  Ok (set_hist h r).

(** The branches of [access] before the recycling block: return code, the row
    stored in [txn->cur_row], the requests served, the row. *)
Definition access_body (txn : TxnManager) (type : TsType) (row : option D) (r : Row_mvcc D)
    : res (RC * option D * list (ReqEntry * option D) * Row_mvcc D) :=
  let ts := tm_timestamp txn in
  match type with
  | R_REQ =>
      conf ← conflict R_REQ ts r;
      if conf && (rreq_len r <? g_max_read_req) then
        Ok (WAIT, None, [], buffer_req R_REQ txn r)
      else if (conf : bool) then Ok (Abort, None, [], r)
      else Ok (RCOK, hist_version ts (hist r), [], insert_history ts None r)
  | P_REQ =>
      conf ← conflict P_REQ ts r;
      if (conf : bool) then Ok (Abort, None, [], r)
      else if preq_len r <? g_max_pre_req then
        Ok (RCOK, None, [], buffer_req P_REQ txn r)
      else Ok (Abort, None, [], r)
  | W_REQ =>
      r1 ← debuffer_prewrite txn (insert_history ts row r);
      let '(out, r2) := update_buffer r1 in
      Ok (RCOK, None, out, r2)
  | XP_REQ =>
      r1 ← debuffer_prewrite txn r;
      let '(out, r2) := update_buffer r1 in
      Ok (RCOK, None, out, r2)
  end.

(** [Row_mvcc::access]. *)
Definition access (txn : TxnManager) (type : TsType) (row : option D) (t_th : Z)
    (r : Row_mvcc D) : res (RC * option D * list (ReqEntry * option D) * Row_mvcc D) :=
  '(rc, cur, out, r1) ← access_body txn type row r;
  if bool_decide (rc = RCOK)
  then r2 ← recycle t_th r1; Ok (rc, cur, out, r2)
  else Ok (rc, cur, out, r1).
End RowMvcc.

(** ** The conflict test *)

Section Conflict.
Context {D : Type}.
Implicit Types (r : Row_mvcc D) (l : list (MVHisEntry D)).

Lemma min_pts_spec (l : list ReqEntry) :
  (forall q, q ∈ l -> min_pts l <= rq_ts q) /\
  (min_pts l = UINT64_MAX \/ exists q, q ∈ l /\ rq_ts q = min_pts l).
Proof.
  unfold min_pts.
  cut (forall m, let m' := foldl (fun m q => if rq_ts q <? m then rq_ts q else m) m l in
    m' <= m /\ (forall q, q ∈ l -> m' <= rq_ts q) /\
    (m' = m \/ exists q, q ∈ l /\ rq_ts q = m')).
  { intros H. destruct (H UINT64_MAX) as (_ & ? & ?). done. }
  induction l as [|q l IH]; intros m; cbn.
  { split_and!; [lia|set_solver|by left]. }
  destruct (IH (if rq_ts q <? m then rq_ts q else m)) as (H1 & H2 & H3).
  destruct (Z.ltb_spec (rq_ts q) m); split_and!; try lia.
  - intros q' [->|Hq]%elem_of_cons; [lia|by apply H2].
  - right. destruct H3 as [->|(q' & ? & ?)]; [exists q; split; [by left|done]|].
    exists q'. split; [by right|done].
  - intros q' [->|Hq]%elem_of_cons; [lia|by apply H2].
  - destruct H3 as [->|(q' & ? & ?)]; [by left|]. right. exists q'. split; [by right|done].
Qed.

Lemma last_prewrite_spec ts (l : list ReqEntry) :
  let p := last_prewrite ts l in
  (forall q, q ∈ l -> rq_ts q < ts -> rq_ts q <= p) /\
  (p = 0 \/ 0 < p < ts /\ exists q, q ∈ l /\ rq_ts q = p) /\ 0 <= p.
Proof.
  unfold last_prewrite.
  cut (forall m, let p := foldl (fun pts q => if (rq_ts q <? ts) && (pts <? rq_ts q)
      then rq_ts q else pts) m l in
    (forall q, q ∈ l -> rq_ts q < ts -> rq_ts q <= p) /\
    (p = m \/ p < ts /\ exists q, q ∈ l /\ rq_ts q = p) /\ m <= p).
  { intros H. destruct (H 0) as (? & [Hp|[? ?]] & ?); split_and!; try done; [by left|].
    cbn in *. destruct (decide (foldl (fun pts q => if (rq_ts q <? ts) && (pts <? rq_ts q)
      then rq_ts q else pts) 0 l = 0)); [by left|]. right. split; [lia|done]. }
  induction l as [|q l IH]; intros m; cbn.
  { split_and!; [set_solver|by left|lia]. }
  destruct (IH (if (rq_ts q <? ts) && (m <? rq_ts q) then rq_ts q else m)) as (H1 & H2 & H3).
  cbn zeta in *. split_and!.
  - intros q' [->|Hq]%elem_of_cons Hlt; [|by apply H1].
    rewrite (proj2 (Z.ltb_lt _ _) Hlt) in H3 |- *. cbn in H3 |- *.
    destruct (Z.ltb_spec m (rq_ts q)); cbn in *; lia.
  - destruct H2 as [H2|(? & q' & ? & ?)].
    + destruct (Z.ltb_spec (rq_ts q) ts), (Z.ltb_spec m (rq_ts q)); cbn in *; auto.
      right. split; [lia|]. exists q. split; [by left|lia].
    + right. split; [done|]. exists q'. split; [by right|done].
  - destruct (Z.ltb_spec (rq_ts q) ts), (Z.ltb_spec m (rq_ts q)); cbn in *; lia.
Qed.

Lemma first_read_after_spec ts rts l :
  his_sorted l ->
  let x := first_read_after ts rts l in
  (forall e, e ∈ l -> ts < his_ts e -> x <= his_ts e) /\
  ((x = rts /\ forall e, e ∈ l -> his_ts e <= ts) \/ ts < x /\ exists e, e ∈ l /\ his_ts e = x).
Proof.
  revert rts. induction l as [|a l IH]; intros rts Hs; cbn.
  { split; [set_solver|]. left. split; [done|set_solver]. }
  apply StronglySorted_inv in Hs as [Hs Ha]. destruct (Z.ltb_spec ts (his_ts a)) as [Hlt|Hlt].
  - destruct (IH (his_ts a) Hs) as [H1 H2]. split.
    + intros e [->|He]%elem_of_cons Hts; [|by apply H1].
      destruct H2 as [[-> _]|(? & e & He & <-)]; [lia|].
      by eapply Forall_forall in Ha; [|exact He].
    + right. destruct H2 as [[-> _]|(Hx & e & He & Hex)].
      * split; [done|]. exists a. split; [by left|done].
      * split; [done|]. exists e. split; [by right|done].
  - assert (forall e, e ∈ a :: l -> his_ts e <= ts) as Hall.
    { intros e [->|He]%elem_of_cons; [lia|].
      eapply Forall_forall in Ha; [|exact He]. cbn in Ha. lia. }
    split; [|by left]. intros e He Hts. specialize (Hall e He). lia.
Qed.

Lemma no_version_between_spec pts rts l :
  his_sorted l ->
  no_version_between pts rts l = true <-> forall e, e ∈ l -> ~ (pts < his_ts e < rts).
Proof.
  induction l as [|a l IH]; intros Hs; cbn; [set_solver|].
  apply StronglySorted_inv in Hs as [Hs Ha]. specialize (IH Hs).
  destruct (Z.ltb_spec pts (his_ts a)).
  - destruct (Z.ltb_spec (his_ts a) rts).
    + split; [done|]. intros H1. destruct (H1 a); [by left|lia].
    + rewrite IH. split; intros H1 e; [|intros ?; apply H1; by right].
      intros [->|He]%elem_of_cons; [lia|by apply H1].
  - split; [|done]. intros _ e [->|He]%elem_of_cons; [lia|].
    eapply Forall_forall in Ha; [|exact He]. cbn in Ha. lia.
Qed.

(** The prewrite-read couple of the comment in the code, existentially: a
    read at [ts] conflicts with a pending prewrite below it that no version
    separates from it. *)
Lemma conflict_read_spec ts r :
  his_sorted (writehis (hist r)) -> Forall (fun q => 0 < rq_ts q) (prereq_mvcc r) ->
  exists b, conflict R_REQ ts r = Ok b /\
  (b = true <-> exists q, q ∈ prereq_mvcc r /\ rq_ts q < ts /\
     forall e, e ∈ writehis (hist r) -> ~ (rq_ts q < his_ts e < ts)).
Proof.
  intros Hs Hpos. unfold conflict. cbn zeta.
  destruct (last_prewrite_spec ts (prereq_mvcc r)) as (Hmax & Hp & _). cbn zeta in *.
  set (p := last_prewrite ts (prereq_mvcc r)) in *.
  destruct (Z.eqb_spec p 0) as [E|E].
  - exists false. split; [done|]. split; [done|]. intros (q & Hq & Hlt & _).
    specialize (Hmax q Hq Hlt). eapply Forall_forall in Hpos; [|exact Hq]. cbn in Hpos. lia.
  - eexists. split; [done|]. rewrite no_version_between_spec by done.
    destruct Hp as [?|(Hlt & q & Hq & Hqp)]; [done|]. split.
    + intros Hb. exists q. rewrite Hqp. split_and!; [done|lia|done].
    + intros (q' & Hq' & Hlt' & Hb) e He. specialize (Hb e He). specialize (Hmax q' Hq' Hlt').
      lia.
Qed.

(** A prewrite at [ts] conflicts with a read after it that no version
    separates from it. *)
Lemma conflict_prewrite_spec ts r :
  his_sorted (writehis (hist r)) -> his_sorted (readhis (hist r)) -> 0 <= ts ->
  exists b, conflict P_REQ ts r = Ok b /\
  (b = true <-> exists x, x ∈ readhis (hist r) /\ ts < his_ts x /\
     forall e, e ∈ writehis (hist r) -> ~ (ts < his_ts e < his_ts x)).
Proof.
  intros Hs Hr Hpos. unfold conflict. cbn zeta.
  destruct (first_read_after_spec ts 0 (readhis (hist r)) Hr) as (Hmin & Hp). cbn zeta in *.
  set (x := first_read_after ts 0 (readhis (hist r))) in *.
  destruct (Z.eqb_spec x 0) as [E|E].
  - exists false. split; [done|]. split; [done|]. intros (y & Hy & Hlt & _).
    destruct Hp as [[_ Hall]|[? _]]; [|lia]. specialize (Hall y Hy). lia.
  - destruct Hp as [[? _]|(Hlt & y & Hy & Hyx)]; [done|].
    rewrite (proj2 (Z.ltb_lt _ _) Hlt). cbn. eexists. split; [done|].
    rewrite no_version_between_spec by done. split.
    + intros Hb. exists y. rewrite Hyx. split_and!; done.
    + intros (z & Hz & Hltz & Hb) e He. specialize (Hb e He). specialize (Hmin z Hz Hltz). lia.
Qed.

End Conflict.

(** ** Timestamp order

    The ghost part of a state: every write the row has ever received
    ([commits]: timestamp and content), every read it has ever served
    ([reads]: timestamp and content returned) and the largest recycling
    threshold used so far ([th]). *)

Section TimestampOrder.
Context {D : Type}.
Context (g_his_recycle_len g_max_read_req g_max_pre_req : Z) (row0 : D).
Implicit Types (r : Row_mvcc D) (h : Hist D) (C : list (Z * D)).

(** *** Versions *)

(** Every write is still there, or hidden below a version older than the
    threshold; every version is a write; the base row is the initial one
    until something has been folded into it. *)
Record hist_inv (th : Z) (C : list (Z * D)) (h : Hist D) : Prop := {
  hi_ok : hist_ok h;
  hi_commits : forall w d, (w, d) ∈ C ->
    mkHis w (Some d) ∈ writehis h \/ exists e, e ∈ writehis h /\ w <= his_ts e < th;
  hi_versions : forall e, e ∈ writehis h ->
    exists d, his_val e = Some d /\ (his_ts e, d) ∈ C;
  hi_base : row_base h = row0 \/ exists e, e ∈ writehis h /\ his_ts e < th;
}.

Lemma hist_inv_init : hist_inv 0 [] (hist_init row0).
Proof. split; [by auto with promi|set_solver..|by left]. Qed.

Lemma hist_inv_insert_write th C h w d :
  hist_inv th C h -> Z.of_nat (length (writehis h)) < UINT64_MAX ->
  hist_inv th ((w, d) :: C) (hist_insert w (Some d) h).
Proof.
  intros [Hok Hc Hv Hb] Hl. split.
  - by apply hist_insert_write_ok.
  - intros w' d' [[= -> ->]|Hin]%elem_of_cons; cbn; setoid_rewrite elem_of_his_insert.
    + left. by left.
    + destruct (Hc _ _ Hin) as [?|(e & ? & ?)]; [left; by right|]. right. exists e. auto.
  - intros e [->|He]%elem_of_his_insert; cbn.
    + exists d. split; [done|]. by left.
    + destruct (Hv _ He) as (d' & ? & ?). exists d'. split; [done|]. by right.
  - cbn. destruct Hb as [?|(e & ? & ?)]; [by left|]. right. exists e.
    rewrite elem_of_his_insert. auto.
Qed.

Lemma hist_inv_insert_read th C h ts :
  hist_inv th C h -> Z.of_nat (length (readhis h)) < UINT64_MAX ->
  hist_inv th C (hist_insert ts None h).
Proof. intros [Hok Hc Hv Hb] Hl. split; cbn; auto. by apply hist_insert_read_ok. Qed.

Lemma hist_inv_recycled th C h t h' :
  hist_inv th C h -> recycled t h h' -> hist_inv (Z.max th t) C h'.
Proof.
  intros [Hok Hc Hv Hb] (rdrop & wdrop & _ & _ & Hw & Hcut & Hbase & Hok').
  pose proof (ok_wsorted _ Hok) as Hs. rewrite Hw in Hs.
  assert (forall e, e ∈ wdrop -> exists e', e' ∈ writehis h' /\ his_ts e <= his_ts e' < t) as Hd.
  { intros e He. destruct Hcut as (e' & He' & Hlt); [by intros ->; apply elem_of_nil in He|].
    exists e'. assert (e' ∈ writehis h') as Hin by (by apply last_Some_elem_of).
    pose proof (StronglySorted_app_1_elem_of _ _ _ e' e Hs Hin He). auto. }
  rewrite Hw in Hc, Hv, Hb. split.
  - done.
  - intros w d Hin. destruct (Hc _ _ Hin) as [[?|He]%elem_of_app|(e & [?|He]%elem_of_app & ?)].
    + by left.
    + right. destruct (Hd _ He) as (e' & ? & ?). cbn in *. exists e'. split; [done|lia].
    + right. exists e. split; [done|lia].
    + right. destruct (Hd _ He) as (e' & ? & ?). exists e'. split; [done|lia].
  - intros e He. apply Hv. apply elem_of_app. by left.
  - destruct (decide (wdrop = [])) as [->|Hne].
    + rewrite Hbase. cbn. destruct Hb as [?|(e & He & ?)]; [by left|].
      rewrite app_nil_r in He. right. exists e. split; [done|lia].
    + right. destruct Hcut as (e & ? & ?); [done|]. exists e.
      split; [by apply last_Some_elem_of|lia].
Qed.

(** What a read at [ts] returns: the content [x] of a version, or the initial
    row; [v] is the timestamp of the version. *)
Definition content_of (C : list (Z * D)) (ts : Z) (v : option Z) (x : option D) : Prop :=
  match v with
  | None => x = Some row0
  | Some w => w <= ts /\ exists d, x = Some d /\ (w, d) ∈ C
  end.

(** [w] does not lie between the version [v] and the read. *)
Definition covered (v : option Z) (w : Z) : Prop :=
  match v with None => False | Some x => w <= x end.

Lemma hist_inv_read th C h ts :
  hist_inv th C h -> th <= ts ->
  exists v, content_of C ts v (hist_version ts h) /\
    (forall e, e ∈ writehis h -> his_ts e <= ts -> covered v (his_ts e)) /\
    (forall w d, (w, d) ∈ C -> w <= ts -> covered v w).
Proof.
  intros [Hok Hc Hv Hb] Hts.
  destruct (hist_version_spec ts h Hok)
    as [(e & He & Hle & Hmax & -> & _)|(Hnone & -> & _)].
  - destruct (Hv e He) as (d & Ed & Hd). exists (Some (his_ts e)). cbn. split_and!; [done| |done|].
    + exists d. done.
    + intros w d' Hin Hw. destruct (Hc w d' Hin) as [H|(e' & H & ?)].
      * by apply (Hmax _ H).
      * specialize (Hmax _ H). lia.
  - assert (forall e, e ∈ writehis h -> his_ts e < th -> False) as Hno.
    { intros e He Hlt. specialize (Hnone e He). lia. }
    exists None. cbn. split_and!.
    + destruct Hb as [->|(e & ? & ?)]; [done|]. exfalso. eauto.
    + intros e He Hle. specialize (Hnone e He). lia.
    + intros w d Hin Hle. destruct (Hc w d Hin) as [H|(e & H & ?)].
      * specialize (Hnone _ H). cbn in Hnone. lia.
      * eapply Hno; [done|lia].
Qed.

(** *** Reads *)

(** A read in the log saw a version such that every write and every pending
    prewrite below the read is at or below that version. *)
Definition read_ok (C : list (Z * D)) (pend : list Z) (rd : Z * option D) : Prop :=
  exists v, content_of C (fst rd) v (snd rd) /\
    (forall w d, (w, d) ∈ C -> w < fst rd -> covered v w) /\
    (forall p, p ∈ pend -> p < fst rd -> covered v p).

Definition reads_inv (th : Z) (C : list (Z * D)) (pend : list Z) (h : Hist D)
    (reads : list (Z * option D)) : Prop :=
  forall rd, rd ∈ reads -> read_ok C pend rd /\
    (fst rd < th \/ exists e, e ∈ readhis h /\ his_ts e = fst rd).

Lemma read_ok_pend C pend pend' rd :
  (forall p, p ∈ pend' -> p ∈ pend) -> read_ok C pend rd -> read_ok C pend' rd.
Proof. intros Hsub (v & ? & ? & ?). exists v. auto. Qed.

Lemma content_of_cons C c ts v x : content_of C ts v x -> content_of (c :: C) ts v x.
Proof.
  destruct v as [w|]; cbn; [|done]. intros (? & d & ? & ?). split; [done|].
  exists d. split; [done|]. by right.
Qed.

(** A pending prewrite becomes a write. *)
Lemma reads_inv_commit th C pend h reads w d :
  w ∈ pend -> reads_inv th C pend h reads -> reads_inv th ((w, d) :: C) pend h reads.
Proof.
  intros Hw Hi rd Hrd. destruct (Hi rd Hrd) as [(v & Hc & HC & Hp) HL]. split; [|done].
  exists v. split_and!; [by apply content_of_cons| |done].
  intros w' d' [[= -> ->]|Hin]%elem_of_cons Hlt; [by apply Hp|by eapply HC].
Qed.

Lemma reads_inv_pend th C pend pend' h reads :
  (forall p, p ∈ pend' -> p ∈ pend) -> reads_inv th C pend h reads ->
  reads_inv th C pend' h reads.
Proof.
  intros Hsub Hi rd Hrd. destruct (Hi rd Hrd). split; [|done]. by eapply read_ok_pend.
Qed.

Lemma reads_inv_hist th C pend h h' reads :
  readhis h' = readhis h -> reads_inv th C pend h reads -> reads_inv th C pend h' reads.
Proof. intros E Hi rd Hrd. rewrite E. by apply Hi. Qed.

(** A new prewrite that does not conflict. *)
Lemma reads_inv_prewrite th C pend h reads p :
  hist_inv th C h -> reads_inv th C pend h reads -> th <= p ->
  (forall x, x ∈ readhis h -> p < his_ts x ->
     exists e, e ∈ writehis h /\ p < his_ts e < his_ts x) ->
  reads_inv th C (p :: pend) h reads.
Proof.
  intros Hh Hi Hp Hnc rd Hrd. destruct (Hi rd Hrd) as [(v & Hc & HC & Hpd) HL].
  split; [|done]. exists v. split_and!; [done|done|].
  intros p' [->|?]%elem_of_cons Hlt; [|by apply Hpd].
  destruct HL as [?|(x & Hx & Ex)]; [lia|].
  destruct (Hnc x Hx ltac:(lia)) as (e & He & Hb).
  destruct (hi_versions _ _ _ Hh e He) as (d & _ & Hd).
  specialize (HC _ _ Hd ltac:(lia)). destruct v as [y|]; cbn in *; [lia|done].
Qed.

(** A new read at [ts]. *)
Lemma reads_inv_read th C pend h reads ts :
  hist_inv th C h -> reads_inv th C pend h reads -> th <= ts ->
  (forall p, p ∈ pend -> p < ts -> exists e, e ∈ writehis h /\ p < his_ts e < ts) ->
  reads_inv th C pend (hist_insert ts None h) ((ts, hist_version ts h) :: reads).
Proof.
  intros Hh Hi Hts Hnc rd [->|Hrd]%elem_of_cons.
  - split.
    + destruct (hist_inv_read th C h ts Hh Hts) as (v & Hc & Hcv & HC).
      exists v. cbn. split_and!; [done| |].
      * intros w d Hin Hlt. eapply HC; [done|lia].
      * intros p Hp Hlt. destruct (Hnc p Hp Hlt) as (e & He & Hb).
        specialize (Hcv e He ltac:(lia)). destruct v; cbn in *; [lia|done].
    + right. exists (mkHis ts None). cbn. rewrite elem_of_his_insert. auto.
  - destruct (Hi rd Hrd) as [Hok HL]. split; [done|].
    destruct HL as [?|(e & ? & ?)]; [by left|]. right. exists e. cbn.
    rewrite elem_of_his_insert. auto.
Qed.

Lemma reads_inv_recycled th C pend h reads t h' :
  hist_ok h -> reads_inv th C pend h reads -> recycled t h h' ->
  reads_inv (Z.max th t) C pend h' reads.
Proof.
  intros Hok Hi (rdrop & wdrop & Hr & Hcut & _) rd Hrd.
  destruct (Hi rd Hrd) as [? HL]. split; [done|].
  destruct HL as [?|(e & He & Ee)]; [left; lia|]. rewrite Hr in He.
  apply elem_of_app in He as [He|He]; [by right; eauto|]. left.
  pose proof (ok_rsorted _ Hok) as Hs. rewrite Hr in Hs.
  pose proof (cut_dropped _ _ _ _ Hs Hcut He). lia.
Qed.

End TimestampOrder.

(** *** Buffers and steps *)

Section Steps.
Context {D : Type}.
Context (g_his_recycle_len g_max_read_req g_max_pre_req : Z) (row0 : D).
Implicit Types (r : Row_mvcc D).

(** The lengths are right, prewrites have positive timestamps, and a waiting
    read is at or after the threshold and waits for a prewrite below it. *)
Record buffers_inv (th : Z) (r : Row_mvcc D) : Prop := {
  bi_rlen : rreq_len r = Z.of_nat (length (readreq_mvcc r));
  bi_plen : preq_len r = Z.of_nat (length (prereq_mvcc r));
  bi_rbound : Z.of_nat (length (readreq_mvcc r)) <= UINT64_MAX;
  bi_pbound : Z.of_nat (length (prereq_mvcc r)) <= UINT64_MAX;
  bi_pos : Forall (fun q => 0 < rq_ts q) (prereq_mvcc r);
  bi_active : Forall (fun q => th <= rq_ts q <= UINT64_MAX) (readreq_mvcc r);
  bi_blocked : forall q, q ∈ readreq_mvcc r ->
    exists p, p ∈ prereq_mvcc r /\ rq_ts p < rq_ts q;
}.

Lemma debuffer_reads_loop_spec m queue ret len :
  0 <= len - Z.of_nat (length queue) -> len <= UINT64_MAX ->
  exists ready, debuffer_reads_loop m queue ret len =
    (filter (fun q => m < rq_ts q) queue, ready ++ ret,
     len - Z.of_nat (length queue) + Z.of_nat (length (filter (fun q => m < rq_ts q) queue))) /\
    ready = rev (filter (fun q => rq_ts q <= m) queue).
Proof.
  revert ret len. induction queue as [|q queue IH]; intros ret len Hl Hu;
    cbn [debuffer_reads_loop].
  { eexists []. split; [|done]. f_equal. cbn. lia. }
  cbn [length] in *. rewrite !filter_cons. destruct (Z.leb_spec (rq_ts q) m) as [Hle|Hgt].
  - rewrite decide_False by lia. rewrite decide_True by done.
    rewrite wrap64_small by lia.
    destruct (IH (q :: ret) (len - 1)) as (ready & E & ->); [lia|lia|]. rewrite E.
    eexists. split; [|done]. cbn [rev]. rewrite <- app_assoc. cbn [app]. f_equal. lia.
  - rewrite decide_True by lia. rewrite decide_False by lia.
    destruct (IH ret len) as (ready & E & ->); [lia|lia|]. rewrite E.
    eexists. split; [|done]. f_equal. cbn [length]. lia.
Qed.

Lemma serve_spec ready r :
  serve ready r =
  ((fun q => (q, hist_version (rq_ts q) (hist r))) <$> ready,
   set_hist (foldl (fun h q => hist_insert (rq_ts q) None h) (hist r) ready) r).
Proof.
  revert r. induction ready as [|q ready IH]; intros r; cbn; [by destruct r|].
  rewrite IH. cbn. done.
Qed.

(** Serving a list of reads that no pending prewrite precedes. *)
Lemma serve_inv th C pend h reads ready :
  hist_inv row0 th C h -> reads_inv row0 th C pend h reads ->
  Forall (fun q => th <= rq_ts q) ready ->
  (forall q p, q ∈ ready -> p ∈ pend -> rq_ts q <= p) ->
  Z.of_nat (length (readhis h) + length ready) <= UINT64_MAX ->
  let h' := foldl (fun h q => hist_insert (rq_ts q) None h) h ready in
  hist_inv row0 th C h' /\
  reads_inv row0 th C pend h'
    (rev ((fun q => (rq_ts q, hist_version (rq_ts q) h)) <$> ready) ++ reads).
Proof.
  revert h reads. induction ready as [|q ready IH]; intros h reads Hh Hr Hth Hp Hl; [done|].
  cbn in Hl. apply Forall_cons in Hth as [Hq Hth]. cbn -[hist_insert].
  rewrite <- app_assoc. cbn -[hist_insert].
  apply (IH (hist_insert (rq_ts q) None h)).
  - apply hist_inv_insert_read; [done|lia].
  - apply reads_inv_read; [done|done|done|]. intros p Hpd Hlt.
    specialize (Hp q p ltac:(by left) Hpd). lia.
  - done.
  - intros q' p Hq' Hpd. apply Hp; [by right|done].
  - cbn. rewrite his_insert_length. lia.
Qed.

Definition pending (r : Row_mvcc D) : list Z := rq_ts <$> prereq_mvcc r.

(** The log entries of an access. *)
Definition new_reads (txn : TxnManager) (type : TsType) (rc : RC) (cur : option D)
    (out : list (ReqEntry * option D)) : list (Z * option D) :=
  (if bool_decide (type = R_REQ /\ rc = RCOK) then [(tm_timestamp txn, cur)] else []) ++
  rev ((fun '(q, row) => (rq_ts q, row)) <$> out).

Definition new_commits (txn : TxnManager) (type : TsType) (row : option D) : list (Z * D) :=
  match type, row with
  | W_REQ, Some d => [(tm_timestamp txn, d)]
  | _, _ => []
  end.

(** When the callers issue an access: timestamps are positive 64-bit numbers;
    a read or prewrite comes at or after the recycling thresholds of the past;
    a W_REQ or XP_REQ follows a prewrite of the same transaction, made with
    the same timestamp, and a W_REQ brings a row.  The remaining conditions
    bound the lists by what their length fields can count. *)
Definition access_pre (th : Z) (type : TsType) (txn : TxnManager) (row : option D)
    (r : Row_mvcc D) : Prop :=
  0 < tm_timestamp txn <= UINT64_MAX /\
  Z.of_nat (length (readhis (hist r)) + length (readreq_mvcc r)) < UINT64_MAX /\
  Z.of_nat (length (prereq_mvcc r)) < UINT64_MAX /\
  Z.of_nat (length (writehis (hist r))) < UINT64_MAX /\
  match type with
  | R_REQ | P_REQ => th <= tm_timestamp txn
  | W_REQ => is_Some row /\ tm_ptr txn ∈ (rq_ptr <$> prereq_mvcc r) /\
      forall q, q ∈ prereq_mvcc r -> rq_ptr q = tm_ptr txn -> rq_ts q = tm_timestamp txn
  | XP_REQ => tm_ptr txn ∈ (rq_ptr <$> prereq_mvcc r)
  end.

(** What [glob_manager.get_min_ts] promises: it does not exceed the timestamp
    of a transaction that is still active, in particular of the caller and of
    the waiting readers. *)
Definition threshold_ok (t_th : Z) (txn : TxnManager) (r : Row_mvcc D) : Prop :=
  t_th <= tm_timestamp txn /\ Forall (fun q => t_th <= rq_ts q) (readreq_mvcc r).

Record mv_inv (th : Z) (C : list (Z * D)) (reads : list (Z * option D)) (r : Row_mvcc D)
    : Prop := {
  mi_hist : hist_inv row0 th C (hist r);
  mi_reads : reads_inv row0 th C (pending r) (hist r) reads;
  mi_buf : buffers_inv th r;
}.

Lemma mv_inv_init : mv_inv 0 [] [] (init row0).
Proof.
  split; [apply hist_inv_init| |].
  - intros rd Hrd. by apply elem_of_nil in Hrd.
  - split; cbn; try done; set_solver.
Qed.

Lemma debuffer_prewrite_spec txn r :
  tm_ptr txn ∈ (rq_ptr <$> prereq_mvcc r) ->
  Z.of_nat (length (prereq_mvcc r)) <= UINT64_MAX ->
  preq_len r = Z.of_nat (length (prereq_mvcc r)) ->
  exists q l, req_remove txn (prereq_mvcc r) = Some (q, l) /\ rq_ptr q = tm_ptr txn /\
    prereq_mvcc r ≡ₚ q :: l /\
    debuffer_prewrite txn r =
      Ok (mkRowMvcc (readreq_mvcc r) l (rreq_len r) (Z.of_nat (length l)) (hist r)).
Proof.
  intros Hin Hb Hlen. unfold debuffer_prewrite.
  destruct (req_remove_is_Some _ _ Hin) as (q & l & E). rewrite E.
  pose proof (req_remove_Some _ _ _ _ E) as (Hq & Hp & _). exists q, l.
  split_and!; [done|done|done|]. apply Permutation_length in Hp. cbn in Hp.
  rewrite Hlen, wrap64_small by lia. do 2 f_equal. lia.
Qed.

(** [update_buffer] after a prewrite has been taken off the buffer. *)
Lemma update_buffer_inv th C reads readreq l len h :
  hist_inv row0 th C h -> reads_inv row0 th C (rq_ts <$> l) h reads ->
  len = Z.of_nat (length readreq) -> Z.of_nat (length readreq) <= UINT64_MAX ->
  Z.of_nat (length (readhis h) + length readreq) <= UINT64_MAX ->
  Z.of_nat (length l) <= UINT64_MAX ->
  Forall (fun q => 0 < rq_ts q) l ->
  Forall (fun q => th <= rq_ts q <= UINT64_MAX) readreq ->
  exists out r', update_buffer (mkRowMvcc readreq l len (Z.of_nat (length l)) h) = (out, r') /\
    mv_inv th C (rev ((fun '(q, row) => (rq_ts q, row)) <$> out) ++ reads) r' /\
    prereq_mvcc r' = l /\ (forall q, q ∈ readreq_mvcc r' -> q ∈ readreq) /\
    (forall q, q ∈ readreq -> q ∈ readreq_mvcc r' \/ exists row, (q, row) ∈ out).
Proof.
  intros Hh Hr Hlen Hb Hb2 Hlb Hpos Hact.
  unfold update_buffer, debuffer_reads. cbn [prereq_mvcc readreq_mvcc rreq_len preq_len hist].
  destruct (debuffer_reads_loop_spec (min_pts l) readreq [] len) as (ready & -> & Hready);
    [lia|lia|].
  rewrite app_nil_r, serve_spec. do 2 eexists. split; [done|].
  cbn [hist readreq_mvcc prereq_mvcc set_hist].
  destruct (min_pts_spec l) as [Hmin Hex].
  assert (forall q, q ∈ ready <-> q ∈ readreq /\ rq_ts q <= min_pts l) as Hel.
  { intros q. rewrite Hready, list_elem_of_In, <- in_rev, <- list_elem_of_In, list_elem_of_filter.
    tauto. }
  assert (length ready <= length readreq)%nat as Hrl.
  { rewrite Hready, length_rev. apply length_filter. }
  destruct (serve_inv th C (rq_ts <$> l) h reads ready Hh Hr) as [Hh' Hr'].
  { apply Forall_forall. intros q [Hq _]%Hel. eapply Forall_forall in Hact; [|exact Hq].
    cbn in Hact. lia. }
  { intros q p [_ Hle]%Hel (q' & -> & Hq')%list_elem_of_fmap. specialize (Hmin q' Hq'). lia. }
  { lia. }
  split_and!.
  - split; cbn [hist set_hist pending prereq_mvcc]; [done| |].
    + rewrite <- list_fmap_compose. exact Hr'.
    + split; cbn -[Z.of_nat]; try done.
      * lia.
      * pose proof (length_filter (fun q => min_pts l < rq_ts q) readreq). lia.
      * apply Forall_forall. intros q [_ Hq]%list_elem_of_filter.
        by eapply Forall_forall in Hact.
      * intros q [Hlt Hq]%list_elem_of_filter. destruct Hex as [E|(p & Hp & E)].
        -- eapply Forall_forall in Hact; [|exact Hq]. cbn in Hact. lia.
        -- exists p. split; [done|lia].
  - done.
  - intros q [_ Hq]%list_elem_of_filter. done.
  - intros q Hq. destruct (decide (min_pts l < rq_ts q)) as [Hlt|Hge].
    + left. by apply list_elem_of_filter.
    + right. eexists. apply list_elem_of_fmap. exists q. split; [done|]. apply Hel.
      split; [done|lia].
Qed.

(** The branches of [access]. *)
Lemma access_body_inv th C reads r txn type row :
  mv_inv th C reads r -> access_pre th type txn row r ->
  exists rc cur out r1,
    access_body g_max_read_req g_max_pre_req txn type row r = Ok (rc, cur, out, r1) /\
    mv_inv th (new_commits txn type row ++ C) (new_reads txn type rc cur out ++ reads) r1 /\
    (forall q, q ∈ readreq_mvcc r1 -> q ∈ readreq_mvcc r \/ rq_ts q = tm_timestamp txn).
Proof.
  intros [Hh Hr Hb] (Hts & Hb1 & Hb2 & Hb3 & Hp). pose proof (hi_ok _ _ _ _ Hh) as Hok.
  pose proof Hb as []. destruct type; unfold access_body; cbn [new_commits app].
  - (* R_REQ *)
    destruct (conflict_read_spec (tm_timestamp txn) r (ok_wsorted _ Hok) bi_pos0)
      as (conf & -> & Hconf). cbn [mbind res_bind]. destruct conf; cbn [andb].
    + destruct (Z.ltb_spec (rreq_len r) g_max_read_req).
      * do 4 eexists. split; [done|]. split.
        2:{ intros q [->|?]%elem_of_cons; [by right|by left]. }
        split; [done|done|]. split; cbn -[Z.of_nat]; auto.
        -- rewrite bi_rlen0, wrap64_small by lia. lia.
        -- lia.
        -- constructor; [cbn; lia|done].
        -- intros q [->|Hq]%elem_of_cons; [|by apply bi_blocked0].
           destruct (proj1 Hconf eq_refl) as (p & ? & ? & _). exists p. done.
      * do 4 eexists. split; [done|]. split; [by split|]. by left.
    + do 4 eexists. split; [done|]. split; [|by left]. split.
      * apply hist_inv_insert_read; [done|lia].
      * apply reads_inv_read; [done|done|done|].
        intros p (q & -> & Hq)%list_elem_of_fmap Hlt.
        destruct (decide (Exists (fun e => rq_ts q < his_ts e < tm_timestamp txn)
          (writehis (hist r)))) as [(e & He & ?)%Exists_exists|Hno]; [by exists e|].
        assert (false = true) as [=]. apply Hconf. exists q. split_and!; [done|done|].
        intros e He Hbt. apply Hno. apply Exists_exists. by exists e.
      * done.
  - (* W_REQ *)
    destruct Hp as ([d ->] & Hin & Hsame).
    destruct (debuffer_prewrite_spec txn (insert_history (tm_timestamp txn) (Some d) r))
      as (q & l & Er & Hq & Hperm & ->); [done|done|done|]. cbn [mbind res_bind].
    cbn [readreq_mvcc prereq_mvcc rreq_len hist insert_history set_hist] in *.
    assert (rq_ts q = tm_timestamp txn) as Hqts
      by (apply Hsame; [rewrite Hperm; by left|done]).
    pose proof (Permutation_length Hperm) as Hlen. cbn in Hlen.
    destruct (update_buffer_inv th ((tm_timestamp txn, d) :: C) reads (readreq_mvcc r) l
      (rreq_len r) (hist_insert (tm_timestamp txn) (Some d) (hist r)))
      as (out & r' & -> & Hinv & _ & Hsub & _).
    + by apply hist_inv_insert_write.
    + apply (reads_inv_hist _ _ _ _ (hist r)); [done|].
      apply (reads_inv_pend _ _ _ (pending r)).
      { unfold pending. intros p Hpl. rewrite Hperm. cbn. by right. }
      apply reads_inv_commit; [|done]. unfold pending. rewrite Hperm. cbn. rewrite Hqts. by left.
    + done.
    + done.
    + cbn. lia.
    + lia.
    + rewrite Hperm in bi_pos0. by apply Forall_cons in bi_pos0 as [_ ?].
    + done.
    + do 4 eexists. split; [done|]. split; [exact Hinv|]. intros q' Hq'. left. by apply Hsub.
  - (* P_REQ *)
    destruct (conflict_prewrite_spec (tm_timestamp txn) r (ok_wsorted _ Hok) (ok_rsorted _ Hok))
      as (conf & -> & Hconf); [lia|]. cbn [mbind res_bind]. destruct conf.
    { do 4 eexists. split; [done|]. split; [by split|]. by left. }
    destruct (Z.ltb_spec (preq_len r) g_max_pre_req).
    2:{ do 4 eexists. split; [done|]. split; [by split|]. by left. }
    do 4 eexists. split; [done|]. split; [|by left]. split; [done| |].
    + apply reads_inv_prewrite; [done|done|done|]. intros x Hx Hlt.
      destruct (decide (Exists (fun e => tm_timestamp txn < his_ts e < his_ts x)
        (writehis (hist r)))) as [(e & He & ?)%Exists_exists|Hno]; [by exists e|].
      assert (false = true) as [=]. apply Hconf. exists x. split_and!; [done|done|].
      intros e He Hbt. apply Hno. apply Exists_exists. by exists e.
    + split; cbn -[Z.of_nat]; auto.
      * rewrite bi_plen0, wrap64_small by lia. lia.
      * lia.
      * constructor; [cbn; lia|done].
      * intros q Hq. destruct (bi_blocked0 q Hq) as (p & ? & ?). exists p. split; [by right|done].
  - (* XP_REQ *)
    destruct (debuffer_prewrite_spec txn r) as (q & l & Er & Hq & Hperm & ->);
      [done|done|done|]. cbn [mbind res_bind].
    pose proof (Permutation_length Hperm) as Hlen. cbn in Hlen.
    destruct (update_buffer_inv th C reads (readreq_mvcc r) l (rreq_len r) (hist r))
      as (out & r' & -> & Hinv & _ & Hsub & _); try done; try lia.
    + apply (reads_inv_pend _ _ _ (pending r)); [|done].
      unfold pending. intros p Hpl. rewrite Hperm. cbn. by right.
    + rewrite Hperm in bi_pos0. by apply Forall_cons in bi_pos0 as [_ ?].
    + do 4 eexists. split; [done|]. split; [exact Hinv|]. intros q' Hq'. left. by apply Hsub.
Qed.

Lemma mv_inv_recycled th C reads r t h :
  mv_inv th C reads r -> recycled t (hist r) h ->
  Forall (fun q => t <= rq_ts q) (readreq_mvcc r) ->
  mv_inv (Z.max th t) C reads (set_hist h r).
Proof.
  intros [Hh Hr []] Hrec Ht. split.
  - by eapply hist_inv_recycled.
  - eapply reads_inv_recycled; [apply Hh|exact Hr|exact Hrec].
  - split; try done. cbn. apply Forall_forall. intros q Hq.
    eapply Forall_forall in bi_active0; [|exact Hq]. eapply Forall_forall in Ht; [|exact Hq].
    cbn in *. lia.
Qed.

Lemma access_inv th C reads r txn type row t_th :
  mv_inv th C reads r -> access_pre th type txn row r -> threshold_ok t_th txn r ->
  exists rc cur out r',
    access g_his_recycle_len g_max_read_req g_max_pre_req txn type row t_th r =
      Ok (rc, cur, out, r') /\
    mv_inv (Z.max th t_th) (new_commits txn type row ++ C)
      (new_reads txn type rc cur out ++ reads) r'.
Proof.
  intros Hinv Hp [Ht1 Ht2]. unfold access.
  destruct (access_body_inv th C reads r txn type row Hinv Hp)
    as (rc & cur & out & r1 & -> & Hinv1 & Hsub). cbn [mbind res_bind].
  assert (Forall (fun q => t_th <= rq_ts q) (readreq_mvcc r1)) as Ht.
  { apply Forall_forall. intros q Hq. destruct (Hsub q Hq) as [Hq'| -> ]; [|lia].
    by eapply Forall_forall in Ht2; [|exact Hq']. }
  case_bool_decide.
  - unfold recycle.
    destruct (hist_recycle_spec g_his_recycle_len t_th (hist r1)) as (h & -> & Hrec);
      [apply (mi_hist _ _ _ _ Hinv1)|].
    cbn. do 4 eexists. split; [done|]. by apply mv_inv_recycled.
  - do 4 eexists. split; [done|].
    replace r1 with (set_hist (hist r1) r1) by (by destruct r1).
    apply mv_inv_recycled; [done| |done]. apply recycled_refl, (mi_hist _ _ _ _ Hinv1).
Qed.

(** A row with its past. *)
Record MvState := mkMvState {
  mv_row : Row_mvcc D;
  mv_th : Z;
  mv_commits : list (Z * D);
  mv_reads : list (Z * option D);
}.

Inductive mv_step : MvState -> MvState -> Prop :=
| mv_step_access s txn type row t_th rc cur out r' :
    access_pre (mv_th s) type txn row (mv_row s) -> threshold_ok t_th txn (mv_row s) ->
    access g_his_recycle_len g_max_read_req g_max_pre_req txn type row t_th (mv_row s) =
      Ok (rc, cur, out, r') ->
    mv_step s (mkMvState r' (Z.max (mv_th s) t_th)
                 (new_commits txn type row ++ mv_commits s)
                 (new_reads txn type rc cur out ++ mv_reads s)).

Definition mv_init : MvState := mkMvState (init row0) 0 [] [].

Lemma mv_reachable_inv s :
  rtc mv_step mv_init s -> mv_inv (mv_th s) (mv_commits s) (mv_reads s) (mv_row s).
Proof.
  intros R. eapply (rtc_invariant _
    (fun s => mv_inv (mv_th s) (mv_commits s) (mv_reads s) (mv_row s))); [| |exact R].
  - apply mv_inv_init.
  - intros a b Ha St. destruct St as [s0 txn type row t_th rc cur out r' Hp Ht E].
    destruct (access_inv _ _ _ _ _ _ _ _ Ha Hp Ht) as (? & ? & ? & ? & E' & Hinv).
    rewrite E in E'. by injection E' as <- <- <- <-.
Qed.

End Steps.

(** ** Properties *)


(** No lost wake-up.  In every reachable state a buffered read waits for
    a pending prewrite with a smaller timestamp, so a row without pending
    prewrites has no waiting reader; and the next access that meets its
    precondition fails no assertion. *)
Theorem mvcc_no_lost_wakeup (D : Type) (g_his g_read g_pre : Z) (row0 : D)
    (s : MvState (D := D)) :
  rtc (mv_step g_his g_read g_pre) (mv_init row0) s ->
  (forall q, q ∈ readreq_mvcc (mv_row s) ->
     exists p, p ∈ prereq_mvcc (mv_row s) /\ rq_ts p < rq_ts q) /\
  (prereq_mvcc (mv_row s) = [] -> readreq_mvcc (mv_row s) = []) /\
  (forall txn type row t_th, access_pre (mv_th s) type txn row (mv_row s) ->
     threshold_ok t_th txn (mv_row s) ->
     exists rc cur out r', access g_his g_read g_pre txn type row t_th (mv_row s) =
       Ok (rc, cur, out, r')).
Proof.
  intros R. pose proof (mv_reachable_inv _ _ _ _ _ R) as Hinv.
  pose proof (bi_blocked _ _ (mi_buf _ _ _ _ _ Hinv)) as Hbl. split_and!.
  - exact Hbl.
  - intros E. destruct (readreq_mvcc (mv_row s)) as [|q l]; [done|].
    destruct (Hbl q ltac:(by left)) as (p & Hp & _). rewrite E in Hp.
    by apply elem_of_nil in Hp.
  - intros txn type row t_th Hp Ht.
    destruct (access_inv g_his g_read g_pre row0 _ _ _ _ _ _ _ _ Hinv Hp Ht)
      as (rc & cur & out & r' & E & _). eauto.
Qed.

(** The conflict test decides what its comment says, for sorted
    histories: a read conflicts exactly when some pending prewrite below it
    is not separated from it by a version; a prewrite conflicts exactly when
    some recorded read after it is not separated from it by a version.  The
    assertion inside never fails. *)
Theorem mvcc_conflict_correct (D : Type) (r : Row_mvcc D) (ts : Z) :
  his_sorted (writehis (hist r)) -> his_sorted (readhis (hist r)) ->
  Forall (fun q => 0 < rq_ts q) (prereq_mvcc r) -> 0 <= ts ->
  (exists b, conflict R_REQ ts r = Ok b /\
     (b = true <-> exists q, q ∈ prereq_mvcc r /\ rq_ts q < ts /\
        forall e, e ∈ writehis (hist r) -> ~ (rq_ts q < his_ts e < ts))) /\
  (exists b, conflict P_REQ ts r = Ok b /\
     (b = true <-> exists x, x ∈ readhis (hist r) /\ ts < his_ts x /\
        forall e, e ∈ writehis (hist r) -> ~ (ts < his_ts e < his_ts x))).
Proof.
  intros Hw Hr Hp Hts. split; [by apply conflict_read_spec|by apply conflict_prewrite_spec].
Qed.

(** *** Witnesses *)

Definition ex_mtxn (id : Z) : TxnManager := mkTxn id id (id * 10) 0 0 false.

(** Transaction 1 prewrites, transaction 3 reads and has to wait, the write
    of transaction 1 serves it. *)
Definition ex_mv0 : MvState (D := Z) := mv_init 7.
Definition ex_mv1 : MvState (D := Z) :=
  mkMvState (mkRowMvcc [] [mkReq (ex_mtxn 1) 10] 0 1 (mkHist [] [] 0 0 7)) 0 [] [].
Definition ex_mv2 : MvState (D := Z) :=
  mkMvState (mkRowMvcc [mkReq (ex_mtxn 3) 30] [mkReq (ex_mtxn 1) 10] 1 1 (mkHist [] [] 0 0 7))
    0 [] [].
Definition ex_mv3 : MvState (D := Z) :=
  mkMvState (mkRowMvcc [] [] 0 0 (mkHist [mkHis 30 None] [mkHis 10 (Some 101)] 1 1 7))
    0 [(10, 101)] [(30, Some 101)].

Ltac mv_pre :=
  repeat first [split | apply Forall_nil | apply Forall_cons | by eexists | cbn; lia
               | vm_compute; reflexivity | vm_compute; discriminate].

Lemma mv_step_to g_his g_read g_pre (s s' : MvState (D := Z)) txn type row t_th rc cur out r' :
  access_pre (mv_th s) type txn row (mv_row s) -> threshold_ok t_th txn (mv_row s) ->
  access g_his g_read g_pre txn type row t_th (mv_row s) = Ok (rc, cur, out, r') ->
  s' = mkMvState r' (Z.max (mv_th s) t_th) (new_commits txn type row ++ mv_commits s)
         (new_reads txn type rc cur out ++ mv_reads s) ->
  mv_step g_his g_read g_pre s s'.
Proof. intros ? ? E ->. by eapply mv_step_access. Qed.

Lemma ex_mv_run : rtc (mv_step 10 100 100) ex_mv0 ex_mv2.
Proof.
  eapply rtc_l with ex_mv1.
  { eapply (mv_step_to _ _ _ _ _ (ex_mtxn 1) P_REQ None 0);
      [mv_pre|mv_pre|vm_compute; reflexivity|vm_compute; reflexivity]. }
  apply rtc_once.
  eapply (mv_step_to _ _ _ _ _ (ex_mtxn 3) R_REQ None 0);
    [mv_pre|mv_pre|vm_compute; reflexivity|vm_compute; reflexivity].
Qed.

Lemma ex_mv_run3 : rtc (mv_step 10 100 100) ex_mv0 ex_mv3.
Proof.
  eapply rtc_r; [exact ex_mv_run|].
  eapply (mv_step_to _ _ _ _ _ (ex_mtxn 1) W_REQ (Some 101) 0).
  - split_and!; try (vm_compute; reflexivity); [vm_compute; discriminate|by eexists|by left|].
    intros q [->|Hq%elem_of_nil]%elem_of_cons; done.
  - mv_pre.
  - vm_compute. reflexivity.
  - vm_compute. reflexivity.
Qed.


Lemma mvcc_no_lost_wakeup_witness :
  exists p, p ∈ prereq_mvcc (mv_row ex_mv2) /\ rq_ts p < 30.
Proof.
  destruct (mvcc_no_lost_wakeup Z 10 100 100 7 ex_mv2 ex_mv_run) as [H _].
  apply (H (mkReq (ex_mtxn 3) 30)). by left.
Defined.

(** A prewrite at 20 under a read at 30 of version 10: conflict. *)
Lemma mvcc_conflict_correct_witness :
  exists b, conflict P_REQ 20 (mv_row ex_mv3) = Ok b /\
    (b = true <-> exists x, x ∈ readhis (hist (mv_row ex_mv3)) /\ 20 < his_ts x /\
       forall e, e ∈ writehis (hist (mv_row ex_mv3)) -> ~ (20 < his_ts e < his_ts x)).
Proof.
  refine (proj2 (mvcc_conflict_correct Z (mv_row ex_mv3) 20 _ _ _ _)).
  - unfold his_sorted. repeat constructor.
  - unfold his_sorted. repeat constructor.
  - constructor.
  - lia.
Defined.
