(* ===== verification/RowTs.v ===== *)
(** * Row_ts: basic timestamp ordering

    Model of concurrency_control/row_ts.cpp (the version of [access] that is
    compiled, with TS_TWR false as in config.h).  [access] runs under the row
    latch and is one step.  Rows are contents of type [D]; [_row->copy(row)]
    copies a content.  The reads handed out and the writes applied are
    returned as a list of events, in the order in which the code performs
    them; a read event also stands for the wake-up of its transaction. *)

From stdpp Require Import gmap list sorting relations.
From S2P Require Import Prelude.
#[local] Open Scope Z_scope.

Record TsReqEntry (D : Type) := mkTsReq {
  tq_txn : TxnManager;
  tq_row : option D;
  tq_ts : Z;
}.
Arguments mkTsReq {D} _ _ _.
Arguments tq_txn {D} _.
Arguments tq_row {D} _.
Arguments tq_ts {D} _.

Record Row_ts (D : Type) := mkRowTs {
  row_base : D;
  wts : Z;
  rts : Z;
  min_wts : Z;
  min_rts : Z;
  min_pts : Z;
  readreq : list (TsReqEntry D);
  writereq : list (TsReqEntry D);
  prereq : list (TsReqEntry D);
  preq_len : Z;
}.
Arguments mkRowTs {D} _ _ _ _ _ _ _ _ _ _.
Arguments row_base {D} _.
Arguments wts {D} _.
Arguments rts {D} _.
Arguments min_wts {D} _.
Arguments min_rts {D} _.
Arguments min_pts {D} _.
Arguments readreq {D} _.
Arguments writereq {D} _.
Arguments prereq {D} _.
Arguments preq_len {D} _.

Inductive TsEvent (D : Type) :=
| EvRead (txn : TxnManager) (ts : Z) (x : D)
| EvWrite (ts : Z) (x : D).
Arguments EvRead {D} _ _ _.
Arguments EvWrite {D} _ _.

Section RowTs.
Context {D : Type}.
Implicit Types (r : Row_ts D) (q : TsReqEntry D) (l : list (TsReqEntry D)).

Definition init (row : D) : Row_ts D :=
  mkRowTs row 0 0 UINT64_MAX UINT64_MAX UINT64_MAX [] [] [] 0.

Definition buffer_req (type : TsType) (txn : TxnManager) (row : option D) (r : Row_ts D)
    : res (Row_ts D) :=
  let ts := tm_timestamp txn in
  let q := mkTsReq txn row ts in
  match type with
  | R_REQ =>
      Ok (mkRowTs (row_base r) (wts r) (rts r) (min_wts r)
            (if ts <? min_rts r then ts else min_rts r) (min_pts r)
            (q :: readreq r) (writereq r) (prereq r) (preq_len r))
  | W_REQ =>
      assert! bool_decide (is_Some row);
      Ok (mkRowTs (row_base r) (wts r) (rts r)
            (if ts <? min_wts r then ts else min_wts r) (min_rts r) (min_pts r)
            (readreq r) (q :: writereq r) (prereq r) (preq_len r))
  | P_REQ =>
      Ok (mkRowTs (row_base r) (wts r) (rts r) (min_wts r) (min_rts r)
            (if ts <? min_pts r then ts else min_pts r)
            (readreq r) (writereq r) (q :: prereq r) (wrap64 (preq_len r + 1)))
  | XP_REQ => Ok r
  end.

(** [debuffer_req(type, txn)] on a queue: unlink the first request of the
    transaction object. *)
Fixpoint remove_txn (ptr : Z) (l : list (TsReqEntry D))
    : option (TsReqEntry D * list (TsReqEntry D)) :=
  match l with
  | [] => None
  | q :: l' =>
      if tm_ptr (tq_txn q) =? ptr then Some (q, l')
      else match remove_txn ptr l' with
           | Some (x, l'') => Some (x, q :: l'')
           | None => None
           end
  end.

(** [debuffer_req(P_REQ, txn)]: the request must be there. *)
Definition debuffer_prewrite (ptr : Z) (r : Row_ts D) : res (Row_ts D) :=
  match remove_txn ptr (prereq r) with
  | Some (_, l) =>
      Ok (mkRowTs (row_base r) (wts r) (rts r) (min_wts r) (min_rts r) (min_pts r)
            (readreq r) (writereq r) l (wrap64 (preq_len r - 1)))
  | None => AssertFail
  end.

(** [debuffer_req(type, ts)] on a queue: unlink every request up to [ts] and
    push it on the return queue. *)
Fixpoint debuffer_ts (ts : Z) (queue ret : list (TsReqEntry D))
    : list (TsReqEntry D) * list (TsReqEntry D) :=
  match queue with
  | [] => ([], ret)
  | q :: queue' =>
      if tq_ts q <=? ts then debuffer_ts ts queue' (q :: ret)
      else let '(keep, ret') := debuffer_ts ts queue' ret in (q :: keep, ret')
  end.

Definition cal_min (l : list (TsReqEntry D)) : Z :=
  foldl (fun m q => if tq_ts q <? m then tq_ts q else m) UINT64_MAX l.

(** The reads of [update_buffer]: each gets a copy of the current row. *)
Definition do_reads (ready : list (TsReqEntry D)) (r : Row_ts D)
    : list (TsEvent D) * Row_ts D :=
  ((fun q => EvRead (tq_txn q) (tq_ts q) (row_base r)) <$> ready,
   mkRowTs (row_base r) (wts r)
     (foldl (fun m q => if m <? tq_ts q then tq_ts q else m) (rts r) ready)
     (min_wts r) (min_rts r) (min_pts r) (readreq r) (writereq r) (prereq r) (preq_len r)).

(** The first loop over the ready writes: take each one's prewrite off the
    buffer and find the request with the smallest timestamp. *)
Fixpoint take_writes (ready : list (TsReqEntry D)) (young_ts : Z)
    (young : option (TsReqEntry D)) (r : Row_ts D)
    : res (option (TsReqEntry D) * Row_ts D) :=
  match ready with
  | [] => Ok (young, r)
  | q :: ready' =>
      r1 ← debuffer_prewrite (tm_ptr (tq_txn q)) r;
      if tq_ts q <? young_ts then take_writes ready' (tq_ts q) (Some q) r1
      else take_writes ready' young_ts young r1
  end.

(** [_row->copy(row)] and the update of [wts]. *)
Definition do_write (ts : Z) (row : option D) (r : Row_ts D)
    : res (list (TsEvent D) * Row_ts D) :=
  match row with
  | Some x =>
      Ok ([EvWrite ts x],
          mkRowTs x (if wts r <? ts then ts else wts r) (rts r) (min_wts r) (min_rts r)
            (min_pts r) (readreq r) (writereq r) (prereq r) (preq_len r))
  | None => AssertFail
  end.

Definition set_min_pts (m : Z) (r : Row_ts D) : Row_ts D :=
  mkRowTs (row_base r) (wts r) (rts r) (min_wts r) (min_rts r) m
    (readreq r) (writereq r) (prereq r) (preq_len r).
Definition set_min_rts (m : Z) (r : Row_ts D) : Row_ts D :=
  mkRowTs (row_base r) (wts r) (rts r) (min_wts r) m (min_pts r)
    (readreq r) (writereq r) (prereq r) (preq_len r).
Definition set_readreq (l : list (TsReqEntry D)) (r : Row_ts D) : Row_ts D :=
  mkRowTs (row_base r) (wts r) (rts r) (min_wts r) (min_rts r) (min_pts r)
    l (writereq r) (prereq r) (preq_len r).
Definition set_writereq (l : list (TsReqEntry D)) (r : Row_ts D) : Row_ts D :=
  mkRowTs (row_base r) (wts r) (rts r) (min_wts r) (min_rts r) (min_pts r)
    (readreq r) l (prereq r) (preq_len r).

(** [update_buffer]: [while (true)] with its five exits. *)
Fixpoint update_loop (fuel : nat) (r : Row_ts D) : res (list (TsEvent D) * Row_ts D) :=
  match fuel with
  | O => AssertFail
  | S fuel' =>
      let new_min_pts := cal_min (prereq r) in
      assert! (min_pts r <=? new_min_pts);
      if min_pts r <? new_min_pts then
        let r1 := set_min_pts new_min_pts r in
        let '(keep, ready_read) := debuffer_ts (min_pts r1) (readreq r1) [] in
        match ready_read with
        | [] => Ok ([], set_readreq keep r1)
        | _ :: _ =>
            let '(ev, r2) := do_reads ready_read (set_readreq keep r1) in
            let new_min_rts := cal_min (readreq r2) in
            if min_rts r2 <? new_min_rts then
              let r3 := set_min_rts new_min_rts r2 in
              let '(keepw, ready_write) := debuffer_ts (min_rts r3) (writereq r3) [] in
              match ready_write with
              | [] => Ok (ev, set_writereq keepw r3)
              | _ :: _ =>
                  '(young, r4) ← take_writes ready_write UINT64_MAX None (set_writereq keepw r3);
                  match young with
                  | Some y =>
                      '(evw, r5) ← do_write (tq_ts y) (tq_row y) r4;
                      '(ev', r6) ← update_loop fuel' r5;
                      Ok (ev ++ evw ++ ev', r6)
                  | None => AssertFail
                  end
              end
            else Ok (ev, r2)
        end
      else Ok ([], r)
  end.

(** Every round but the last takes a prewrite off the buffer. *)
Definition update_buffer (r : Row_ts D) : res (list (TsEvent D) * Row_ts D) :=
  update_loop (S (length (prereq r))) r.

(** [Row_ts::access]: [row] is the argument, [cur] is [txn->cur_row]. *)
Definition access (txn : TxnManager) (type : TsType) (row cur : option D) (r : Row_ts D)
    : res (RC * list (TsEvent D) * Row_ts D) :=
  let ts := tm_timestamp txn in
  match type with
  | R_REQ =>
      if ts <? wts r then Ok (Abort, [], r)
      else if min_pts r <? ts then
        r1 ← buffer_req R_REQ txn None r;
        Ok (WAIT, [], r1)
      else
        let '(ev, r1) := do_reads [mkTsReq txn None ts] r in
        Ok (RCOK, ev, r1)
  | P_REQ =>
      if ts <? rts r then Ok (Abort, [], r)
      else if ts <? wts r then Ok (Abort, [], r)
      else
        r1 ← buffer_req P_REQ txn None r;
        Ok (RCOK, [], r1)
  | W_REQ =>
      if min_pts r <? ts then
        r1 ← buffer_req W_REQ txn row r;
        Ok (RCOK, [], r1)
      else if min_rts r <? ts then
        r1 ← buffer_req W_REQ txn cur r;
        Ok (RCOK, [], r1)
      else
        '(ev, r1) ← do_write ts row r;
        r2 ← debuffer_prewrite (tm_ptr txn) r1;
        '(ev', r3) ← update_buffer r2;
        Ok (RCOK, ev ++ ev', r3)
  | XP_REQ =>
      r1 ← debuffer_prewrite (tm_ptr txn) r;
      '(ev, r2) ← update_buffer r1;
      Ok (RCOK, ev, r2)
  end.
End RowTs.

(** ** The abstract machine

    Basic timestamp ordering on one item: the content, the largest timestamp
    of a write and of a read.  A read at [t] is admitted if no write lies
    above it and returns the content; a write at [t] is admitted if no read
    lies above it and replaces the content. *)

Section Spec.
Context {D : Type}.

Inductive trace : D -> Z -> Z -> list (TsEvent D) -> D -> Z -> Z -> Prop :=
| trace_nil x W R : trace x W R [] x W R
| trace_read x W R txn t ev x' W' R' :
    W <= t -> trace x W (Z.max R t) ev x' W' R' -> trace x W R (EvRead txn t x :: ev) x' W' R'
| trace_write x W R t y ev x' W' R' :
    R <= t -> trace y (Z.max W t) R ev x' W' R' -> trace x W R (EvWrite t y :: ev) x' W' R'.

Lemma trace_app x W R ev x1 W1 R1 ev' x2 W2 R2 :
  trace x W R ev x1 W1 R1 -> trace x1 W1 R1 ev' x2 W2 R2 -> trace x W R (ev ++ ev') x2 W2 R2.
Proof. induction 1; cbn; intros; [done|constructor; auto..]. Qed.

(** The marks only grow: an event of a trace is admitted by the initial
    marks. *)
Lemma trace_admits x W R ev x' W' R' :
  trace x W R ev x' W' R' ->
  (forall txn t y, EvRead txn t y ∈ ev -> W <= t) /\ (forall t y, EvWrite t y ∈ ev -> R <= t).
Proof.
  induction 1 as [x W R|x W R txn t ev x' W' R' Ht _ [IH1 IH2]|x W R t y ev x' W' R' Ht _ [IH1 IH2]].
  - split; set_solver.
  - split.
    + intros txn' t' y [[= -> -> ->]|Hin]%elem_of_cons; [done|by eapply IH1].
    + intros t' y [[=]|Hin]%elem_of_cons. specialize (IH2 _ _ Hin). lia.
  - split.
    + intros txn t' y' [[=]|Hin]%elem_of_cons. specialize (IH1 _ _ _ Hin). lia.
    + intros t' y' [[= -> ->]|Hin]%elem_of_cons; [done|by eapply IH2].
Qed.

(** Reads and writes conflict in timestamp order. *)
Lemma trace_ordered x W R ev x' W' R' i j :
  trace x W R ev x' W' R' -> (i < j)%nat ->
  (forall txn t y t' y', ev !! i = Some (EvRead txn t y) -> ev !! j = Some (EvWrite t' y') ->
     t <= t') /\
  (forall t y txn t' y', ev !! i = Some (EvWrite t y) -> ev !! j = Some (EvRead txn t' y') ->
     t <= t').
Proof.
  intros Ht. revert i j.
  induction Ht as [x W R|x W R txn t ev x' W' R' Ht Htr IH|x W R t y ev x' W' R' Ht Htr IH];
    intros i j Hij; [done|..]; pose proof (trace_admits _ _ _ _ _ _ _ Htr) as [Ha1 Ha2];
    (destruct j as [|j]; [lia|]); (destruct i as [|i]; cbn; [|apply IH; lia]); split; try done.
  - intros txn' t0 y0 t' y' [= -> -> ->] Hj%list_elem_of_lookup_2.
    specialize (Ha2 _ _ Hj). lia.
  - intros t0 y0 txn' t' y' [= -> ->] Hj%list_elem_of_lookup_2.
    specialize (Ha1 _ _ _ Hj). lia.
Qed.

End Spec.

(** ** Invariant *)

Section Invariant.
Context {D : Type}.
Implicit Types (r : Row_ts D) (q : TsReqEntry D) (l : list (TsReqEntry D)).

Definition tq_ptr (q : TsReqEntry D) : Z := tm_ptr (tq_txn q).

Lemma cal_min_spec l :
  (forall q, q ∈ l -> cal_min l <= tq_ts q) /\ cal_min l <= UINT64_MAX /\
  (cal_min l = UINT64_MAX \/ exists q, q ∈ l /\ tq_ts q = cal_min l).
Proof.
  unfold cal_min.
  cut (forall m, let m' := foldl (fun m q => if tq_ts q <? m then tq_ts q else m) m l in
    m' <= m /\ (forall q, q ∈ l -> m' <= tq_ts q) /\
    (m' = m \/ exists q, q ∈ l /\ tq_ts q = m')).
  { intros H. destruct (H UINT64_MAX) as (? & ? & ?). done. }
  induction l as [|q l IH]; intros m; cbn.
  { split_and!; [lia|set_solver|by left]. }
  destruct (IH (if tq_ts q <? m then tq_ts q else m)) as (H1 & H2 & H3).
  destruct (Z.ltb_spec (tq_ts q) m); split_and!; try lia.
  - intros q' [->|Hq]%elem_of_cons; [lia|by apply H2].
  - right. destruct H3 as [->|(q' & ? & ?)]; [exists q; split; [by left|done]|].
    exists q'. split; [by right|done].
  - intros q' [->|Hq]%elem_of_cons; [lia|by apply H2].
  - destruct H3 as [->|(q' & ? & ?)]; [by left|]. right. exists q'. split; [by right|done].
Qed.

Lemma cal_min_mono l l' : (forall q, q ∈ l' -> q ∈ l) -> cal_min l <= cal_min l'.
Proof.
  intros Hsub. destruct (cal_min_spec l) as (H1 & H2 & _).
  destruct (cal_min_spec l') as (_ & _ & [->|(q & Hq & <-)]); [done|]. by apply H1, Hsub.
Qed.

Lemma cal_min_cons q l : tq_ts q <= UINT64_MAX ->
  cal_min (q :: l) = if tq_ts q <? cal_min l then tq_ts q else cal_min l.
Proof.
  intros Hq. destruct (cal_min_spec (q :: l)) as (H1 & H2 & H3).
  destruct (cal_min_spec l) as (L1 & L2 & L3).
  pose proof (H1 q ltac:(by left)). pose proof (cal_min_mono (q :: l) l ltac:(set_solver)).
  destruct (Z.ltb_spec (tq_ts q) (cal_min l));
    destruct H3 as [?|(q' & [->|Hq']%elem_of_cons & E)]; try lia; specialize (L1 _ Hq'); lia.
Qed.

Lemma debuffer_ts_spec ts queue ret :
  debuffer_ts ts queue ret =
  (filter (fun q => ts < tq_ts q) queue, rev (filter (fun q => tq_ts q <= ts) queue) ++ ret).
Proof.
  revert ret. induction queue as [|q queue IH]; intros ret; cbn [debuffer_ts]; [done|].
  rewrite !filter_cons. destruct (Z.leb_spec (tq_ts q) ts).
  - rewrite decide_False by lia. rewrite decide_True by done. rewrite IH. cbn [rev].
    by rewrite <- app_assoc.
  - rewrite decide_True by lia. rewrite decide_False by lia. by rewrite IH.
Qed.

Lemma elem_of_ready ts queue q :
  q ∈ rev (filter (fun q => tq_ts q <= ts) queue) <-> q ∈ queue /\ tq_ts q <= ts.
Proof. rewrite list_elem_of_In, <- in_rev, <- list_elem_of_In, list_elem_of_filter. tauto. Qed.

Lemma ready_split ts queue :
  rev (filter (fun q => tq_ts q <= ts) queue) ++ filter (fun q => ts < tq_ts q) queue ≡ₚ queue.
Proof.
  etrans; [apply Permutation_app_tail; symmetry; apply Permutation_rev|].
  induction queue as [|q queue IH]; [done|]. rewrite !filter_cons.
  destruct (decide (tq_ts q <= ts)).
  - rewrite decide_False by lia. cbn. by f_equiv.
  - rewrite decide_True by lia. rewrite <- Permutation_middle. by f_equiv.
Qed.

Lemma debuffer_ts_none ts (queue keep : list (TsReqEntry D)) : debuffer_ts ts queue [] = (keep, []) -> keep = queue.
Proof.
  rewrite debuffer_ts_spec, app_nil_r. intros [= <- En].
  pose proof (ready_split ts queue) as Hp. rewrite En in Hp. cbn in Hp.
  assert (forall q, q ∈ queue -> ts < tq_ts q) as Hall.
  { intros q Hq. rewrite <- Hp in Hq. by apply list_elem_of_filter in Hq as [? _]. }
  clear -Hall. induction queue as [|q l IH]; [done|]. rewrite filter_cons.
  rewrite decide_True by (apply Hall; by left). f_equal. apply IH.
  intros q' Hq'. apply Hall. by right.
Qed.

Lemma remove_txn_spec ptr l :
  ptr ∈ (tq_ptr <$> l) ->
  exists q l', remove_txn ptr l = Some (q, l') /\ tq_ptr q = ptr /\ l ≡ₚ q :: l'.
Proof.
  induction l as [|x l IH]; cbn; [set_solver|].
  destruct (Z.eqb_spec (tm_ptr (tq_txn x)) ptr) as [E|E].
  - intros _. exists x, l. done.
  - intros [->|Hin]%elem_of_cons; [done|]. destruct (IH Hin) as (q & l' & -> & ? & Hp).
    exists q, (x :: l'). split_and!; [done|done|]. rewrite Hp. apply Permutation_swap.
Qed.

Definition set_prereq (l : list (TsReqEntry D)) (n : Z) (r : Row_ts D) : Row_ts D :=
  mkRowTs (row_base r) (wts r) (rts r) (min_wts r) (min_rts r) (min_pts r)
    (readreq r) (writereq r) l n.

(** Taking one prewrite off the buffer. *)
Lemma ts_debuffer_prewrite_spec ptr ptrs r :
  ptr :: ptrs ⊆+ (tq_ptr <$> prereq r) ->
  exists l n, debuffer_prewrite ptr r = Ok (set_prereq l n r) /\
    ptrs ⊆+ (tq_ptr <$> l) /\ (forall q, q ∈ l -> q ∈ prereq r) /\
    length (prereq r) = S (length l).
Proof.
  intros Hsub. unfold debuffer_prewrite.
  destruct (remove_txn_spec ptr (prereq r)) as (q & l & -> & Hq & Hp).
  { eapply elem_of_submseteq; [|exact Hsub]. by left. }
  exists l, (wrap64 (preq_len r - 1)). split_and!; [done| | |].
  - rewrite Hp in Hsub. cbn in Hsub. rewrite Hq in Hsub.
    by apply (submseteq_app_inv_l _ _ [ptr]) in Hsub.
  - intros q' Hq'. rewrite Hp. by right.
  - by apply Permutation_length in Hp.
Qed.

Lemma take_writes_spec ready ptrs m young r :
  (tq_ptr <$> ready) ++ ptrs ⊆+ (tq_ptr <$> prereq r) ->
  exists y l n, take_writes ready m young r = Ok (y, set_prereq l n r) /\
    ptrs ⊆+ (tq_ptr <$> l) /\ (forall q, q ∈ l -> q ∈ prereq r) /\
    length (prereq r) = (length ready + length l)%nat /\
    ((y = young /\ forall q, q ∈ ready -> m <= tq_ts q) \/ exists q, q ∈ ready /\ y = Some q).
Proof.
  revert m young r. induction ready as [|q ready IH]; intros m young r Hsub; cbn.
  { exists young, (prereq r), (preq_len r). split_and!; try done; [by destruct r|].
    left. split; [done|set_solver]. }
  cbn in Hsub. destruct (ts_debuffer_prewrite_spec (tq_ptr q) _ r Hsub) as (l & n & E & Hs & Hin & Hl).
  unfold tq_ptr at 1 in E. rewrite E. cbn [mbind res_bind].
  destruct (Z.ltb_spec (tq_ts q) m) as [Hlt|Hge].
  - destruct (IH (tq_ts q) (Some q) (set_prereq l n r) Hs)
      as (y & l' & n' & -> & Hs' & Hin' & Hl' & Hy).
    exists y, l', n'. split_and!; [done|done|auto|cbn in *; lia|]. right.
    destruct Hy as [[-> _]|(q' & ? & ->)]; [exists q; split; [by left|done]|].
    exists q'. split; [by right|done].
  - destruct (IH m young (set_prereq l n r) Hs) as (y & l' & n' & -> & Hs' & Hin' & Hl' & Hy).
    exists y, l', n'. split_and!; [done|done|auto|cbn in *; lia|].
    destruct Hy as [[-> Hm]|(q' & ? & ->)].
    + left. split; [done|]. intros q' [->|?]%elem_of_cons; auto.
    + right. exists q'. split; [by right|done].
Qed.

(** The invariant while [update_buffer] runs ([winv]: [min_pts] may lag
    behind) and between accesses ([inv]). *)
Record winv (r : Row_ts D) : Prop := {
  wi_pts : min_pts r <= cal_min (prereq r);
  wi_rts : min_rts r = cal_min (readreq r);
  wi_read : rts r <= min_pts r;
  wi_write : wts r <= min_rts r;
  wi_wait : Forall (fun q => min_pts r < tq_ts q < UINT64_MAX) (readreq r);
  wi_wbound : Forall (fun q => tq_ts q < UINT64_MAX) (writereq r);
  wi_ptrs : (tq_ptr <$> writereq r) ⊆+ (tq_ptr <$> prereq r);
  wi_ts : forall q p, q ∈ writereq r -> p ∈ prereq r -> tq_ptr p = tq_ptr q -> tq_ts p = tq_ts q;
  wi_rows : Forall (fun q => is_Some (tq_row q)) (writereq r);
}.

Definition inv (r : Row_ts D) : Prop := winv r /\ min_pts r = cal_min (prereq r).

Lemma foldl_max_reads l m :
  foldl (fun m q => if m <? tq_ts q then tq_ts q else m) m l =
  foldl (fun m q => Z.max m (tq_ts q)) m l.
Proof.
  revert m. induction l as [|q l IH]; intros m; cbn; [done|]. rewrite <- IH. f_equal.
  destruct (Z.ltb_spec m (tq_ts q)); lia.
Qed.

Lemma reads_trace l (x : D) W R :
  Forall (fun q => W <= tq_ts q) l ->
  trace x W R ((fun q => EvRead (tq_txn q) (tq_ts q) x) <$> l) x W
    (foldl (fun m q => Z.max m (tq_ts q)) R l).
Proof.
  revert R. induction l as [|q l IH]; intros R Hl; cbn; [constructor|].
  apply Forall_cons in Hl as [? ?]. constructor; auto.
Qed.

Lemma foldl_max_le l m b :
  m <= b -> Forall (fun q => tq_ts q <= b) l -> foldl (fun m q => Z.max m (tq_ts q)) m l <= b.
Proof.
  revert m. induction l as [|q l IH]; intros m Hm Hl; cbn; [done|].
  apply Forall_cons in Hl as [? ?]. apply IH; [lia|done].
Qed.

(** What a sequence of events says about a row. *)
Definition row_trace (r : Row_ts D) (ev : list (TsEvent D)) (r' : Row_ts D) : Prop :=
  trace (row_base r) (wts r) (rts r) ev (row_base r') (wts r') (rts r').

(** One round of the loop up to the ready writes. *)
Lemma round_reads r keep ready :
  winv r -> min_pts r < cal_min (prereq r) ->
  debuffer_ts (cal_min (prereq r)) (readreq r) [] = (keep, ready) ->
  let r2 := snd (do_reads ready (set_readreq keep (set_min_pts (cal_min (prereq r)) r))) in
  row_trace r (fst (do_reads ready (set_readreq keep (set_min_pts (cal_min (prereq r)) r)))) r2 /\
  rts r2 <= min_pts r2 /\ min_rts r2 <= cal_min (readreq r2) /\
  Forall (fun q => min_pts r2 < tq_ts q < UINT64_MAX) (readreq r2) /\
  (ready = [] -> keep = readreq r).
Proof.
  intros [] Hlt E. rewrite debuffer_ts_spec, app_nil_r in E. injection E as <- <-.
  assert (forall q, q ∈ filter (fun q => cal_min (prereq r) < tq_ts q) (readreq r) ->
    q ∈ readreq r) as Hsub by (intros q [_ ?]%list_elem_of_filter; done).
  destruct (cal_min_spec (readreq r)) as (Hmin & _ & _).
  cbn -[filter]. split_and!.
  - unfold row_trace. cbn -[filter]. rewrite foldl_max_reads. apply reads_trace.
    apply Forall_forall. intros q [Hq _]%elem_of_ready. specialize (Hmin q Hq). lia.
  - rewrite foldl_max_reads. apply foldl_max_le; [lia|].
    apply Forall_forall. intros q [_ ?]%elem_of_ready. done.
  - rewrite wi_rts0. by apply cal_min_mono.
  - apply Forall_forall. intros q [? Hq]%list_elem_of_filter.
    eapply Forall_forall in wi_wait0; [|exact Hq]. cbn in wi_wait0. lia.
  - intros En. apply (debuffer_ts_none (cal_min (prereq r))).
    by rewrite debuffer_ts_spec, En.
Qed.

(** The writes of a round: the applied one is admitted, and the loop may go
    on. *)
Lemma round_writes r2 keepw ready :
  winv r2 -> ready <> [] ->
  debuffer_ts (min_rts r2) (writereq r2) [] = (keepw, ready) ->
  exists y x l n r5,
    take_writes ready UINT64_MAX None (set_writereq keepw r2) =
      Ok (Some y, set_prereq l n (set_writereq keepw r2)) /\
    do_write (tq_ts y) (tq_row y) (set_prereq l n (set_writereq keepw r2)) =
      Ok ([EvWrite (tq_ts y) x], r5) /\
    winv r5 /\ row_trace r2 [EvWrite (tq_ts y) x] r5 /\
    prereq r5 = l /\ (length l < length (prereq r2))%nat.
Proof.
  intros Hw Hne E. pose proof Hw as []. rewrite debuffer_ts_spec, app_nil_r in E.
  assert (forall q, q ∈ ready <-> q ∈ writereq r2 /\ tq_ts q <= min_rts r2) as Hel.
  { intros q. injection E as <- <-. apply elem_of_ready. }
  assert (forall q, q ∈ keepw -> q ∈ writereq r2) as Hkw.
  { intros q. injection E as <- <-. intros [_ ?]%list_elem_of_filter. done. }
  assert ((tq_ptr <$> ready) ++ (tq_ptr <$> keepw) ⊆+ (tq_ptr <$> prereq r2)) as Hsub.
  { injection E as <- <-. rewrite <- fmap_app, ready_split. done. }
  destruct (take_writes_spec ready (tq_ptr <$> keepw) UINT64_MAX None (set_writereq keepw r2))
    as (y' & l & n & Et & Hs & Hin & Hl & Hy); [done|]. cbn [prereq set_writereq] in *.
  assert (exists y, y ∈ ready /\ y' = Some y) as (y & Hyr & ->).
  { destruct Hy as [[_ Hm]|?]; [|done]. destruct ready as [|q ready]; [done|].
    specialize (Hm q ltac:(by left)). destruct (proj1 (Hel q) ltac:(by left)) as [Hq _].
    eapply Forall_forall in wi_wbound0; [|exact Hq]. cbn in wi_wbound0. lia. }
  destruct (proj1 (Hel y) Hyr) as [Hyw Hyle].
  assert (exists x, tq_row y = Some x) as [x Hx].
  { eapply Forall_forall in wi_rows0; [|exact Hyw]. done. }
  assert (rts r2 <= tq_ts y) as Hry.
  { assert (tq_ptr y ∈ (tq_ptr <$> prereq r2)) as (p & Ep & Hp)%list_elem_of_fmap.
    { eapply elem_of_submseteq; [|exact wi_ptrs0]. apply list_elem_of_fmap. eauto. }
    destruct (cal_min_spec (prereq r2)) as (Hmin & _).
    rewrite <- (wi_ts0 y p Hyw Hp ltac:(done)). specialize (Hmin p Hp). lia. }
  exists y, x, l, n. eexists. split; [exact Et|]. rewrite Hx. split; [reflexivity|].
  split_and!.
  - split; cbn.
    + etrans; [exact wi_pts0|]. by apply cal_min_mono.
    + done.
    + done.
    + destruct (Z.ltb_spec (wts r2) (tq_ts y)); lia.
    + done.
    + apply Forall_forall. intros q Hq%Hkw. by eapply Forall_forall in wi_wbound0.
    + done.
    + intros q p Hq%Hkw Hp%Hin. by apply wi_ts0.
    + apply Forall_forall. intros q Hq%Hkw. by eapply Forall_forall in wi_rows0.
  - unfold row_trace. cbn. constructor; [done|].
    replace (if wts r2 <? tq_ts y then tq_ts y else wts r2) with (Z.max (wts r2) (tq_ts y))
      by (destruct (Z.ltb_spec (wts r2) (tq_ts y)); lia). constructor.
  - done.
  - destruct ready; [done|]. cbn in Hl. lia.
Qed.

Lemma row_trace_app r1 ev1 r2 ev2 r3 :
  row_trace r1 ev1 r2 -> row_trace r2 ev2 r3 -> row_trace r1 (ev1 ++ ev2) r3.
Proof. apply trace_app. Qed.

(** [update_buffer] returns, within the fuel, restores the invariant and
    performs admitted events. *)
Lemma update_loop_spec fuel r :
  winv r -> (length (prereq r) < fuel)%nat ->
  exists ev r', update_loop fuel r = Ok (ev, r') /\ inv r' /\ row_trace r ev r'.
Proof.
  revert r. induction fuel as [|fuel IH]; intros r Hw Hf; [lia|].
  cbn [update_loop]. cbn zeta. pose proof Hw as [].
  rewrite (proj2 (Z.leb_le _ _) wi_pts0). cbn [assert_ mbind res_bind].
  destruct (Z.ltb_spec (min_pts r) (cal_min (prereq r))) as [Hlt|Hge].
  2:{ exists [], r. split_and!; [done| |constructor]. split; [done|lia]. }
  cbn [min_pts set_min_pts readreq].
  destruct (debuffer_ts (cal_min (prereq r)) (readreq r) []) as [keep ready] eqn:Ed.
  pose proof (round_reads r keep ready Hw Hlt Ed) as (Htr & Hread & Hminr & Hwait & Hkeep).
  destruct ready as [|q0 ready0].
  { exists [], (set_readreq keep (set_min_pts (cal_min (prereq r)) r)).
    split_and!; [done| |exact Htr]. split; [|done].
    split; cbn in *; try done. rewrite (Hkeep eq_refl). done. }
  set (ready := q0 :: ready0) in *.
  destruct (do_reads ready (set_readreq keep (set_min_pts (cal_min (prereq r)) r)))
    as [ev r2] eqn:Er. cbn [fst snd] in *.
  assert (winv r2 \/ min_rts r2 < cal_min (readreq r2)) as Hcase.
  { destruct (Z.lt_ge_cases (min_rts r2) (cal_min (readreq r2))); [by right|]. left.
    unfold do_reads in Er. injection Er as <- <-. cbn -[cal_min foldl] in *.
    split; cbn -[cal_min foldl]; try done; lia. }
  destruct (Z.ltb_spec (min_rts r2) (cal_min (readreq r2))) as [Hr|Hr].
  2:{ destruct Hcase as [Hw2|]; [|lia]. exists ev, r2. split_and!; [done| |done].
      split; [done|]. unfold do_reads in Er. by injection Er as <- <-. }
  assert (winv (set_min_rts (cal_min (readreq r2)) r2)) as Hw3.
  { unfold do_reads in Er. injection Er as <- <-. cbn -[cal_min foldl] in *.
    split; cbn -[cal_min foldl]; try done; lia. }
  assert (prereq r2 = prereq r) as Hpr by (unfold do_reads in Er; by injection Er as <- <-).
  assert (inv (set_min_rts (cal_min (readreq r2)) r2)) as Hi3.
  { split; [done|]. unfold do_reads in Er. by injection Er as <- <-. }
  set (r3 := set_min_rts (cal_min (readreq r2)) r2) in *.
  assert (row_trace r ev r3) as Htr3 by exact Htr.
  destruct (debuffer_ts (min_rts r3) (writereq r3) []) as [keepw readyw] eqn:Ew.
  destruct (decide (readyw = [])) as [->|Hne].
  { exists ev, (set_writereq keepw r3).
    assert (keepw = writereq r3) as ->.
    { by apply debuffer_ts_none in Ew. }
    replace (set_writereq (writereq r3) r3) with r3 by (by destruct r3). done. }
  destruct (round_writes r3 keepw readyw Hw3 Hne Ew)
    as (y & x & l & n & r5 & Et & Edw & Hw5 & Htr5 & Hl5 & Hlen).
  destruct readyw as [|qw readyw]; [done|]. rewrite Et. cbn [mbind res_bind].
  rewrite Edw. cbn [mbind res_bind].
  destruct (IH r5 Hw5) as (ev' & r' & -> & Hinv & Htr').
  { rewrite Hl5. change (prereq r3) with (prereq r2) in Hlen. rewrite Hpr in Hlen. lia. }
  exists (ev ++ [EvWrite (tq_ts y) x] ++ ev'), r'. split_and!; [done|done|].
  eapply row_trace_app; [exact Htr3|]. by eapply row_trace_app.
Qed.

(** When the callers issue an access.  Timestamps are below the maximum; a
    W_REQ or XP_REQ belongs to a prewrite that has no buffered write yet, and
    all requests of one transaction object carry the same timestamp. *)
Definition access_pre (type : TsType) (txn : TxnManager) (row cur : option D) (r : Row_ts D)
    : Prop :=
  0 <= tm_timestamp txn < UINT64_MAX /\
  match type with
  | R_REQ => True
  | P_REQ => forall q, q ∈ writereq r -> tq_ptr q = tm_ptr txn -> tq_ts q = tm_timestamp txn
  | W_REQ => is_Some row /\ is_Some cur /\
      tm_ptr txn :: (tq_ptr <$> writereq r) ⊆+ (tq_ptr <$> prereq r) /\
      forall p, p ∈ prereq r -> tq_ptr p = tm_ptr txn -> tq_ts p = tm_timestamp txn
  | XP_REQ => tm_ptr txn :: (tq_ptr <$> writereq r) ⊆+ (tq_ptr <$> prereq r)
  end.

Lemma inv_init (row : D) : inv (init row).
Proof.
  split; [|done]. split; cbn; try done; try constructor. set_solver.
Qed.

Lemma buffer_write_inv txn row r :
  inv r -> is_Some row -> tm_timestamp txn < UINT64_MAX ->
  tm_ptr txn :: (tq_ptr <$> writereq r) ⊆+ (tq_ptr <$> prereq r) ->
  (forall p, p ∈ prereq r -> tq_ptr p = tm_ptr txn -> tq_ts p = tm_timestamp txn) ->
  exists r', buffer_req W_REQ txn row r = Ok r' /\ inv r' /\ row_trace r [] r'.
Proof.
  intros [Hw Hm] Hs Ht Hsub Hts. pose proof Hw as []. unfold buffer_req. cbn zeta.
  rewrite bool_decide_eq_true_2 by done. cbn. eexists. split; [done|].
  split; [|constructor]. split; [|done]. split; cbn; try done.
  - by constructor.
  - intros q p [->|Hq]%elem_of_cons; [by apply Hts|by apply wi_ts0].
  - by constructor.
Qed.

(** Removing the caller's prewrite and running [update_buffer]. *)
Lemma finish_prewrite_spec ptr r :
  winv r -> ptr :: (tq_ptr <$> writereq r) ⊆+ (tq_ptr <$> prereq r) ->
  exists r1 ev r', debuffer_prewrite ptr r = Ok r1 /\ update_buffer r1 = Ok (ev, r') /\
    inv r' /\ row_trace r ev r'.
Proof.
  intros Hw Hsub. destruct (ts_debuffer_prewrite_spec _ _ _ Hsub) as (l & n & -> & Hs & Hin & _).
  pose proof Hw as [].
  destruct (update_loop_spec (S (length l)) (set_prereq l n r)) as (ev & r' & E & Hi & Ht).
  - split; cbn; try done.
    + etrans; [exact wi_pts0|]. by apply cal_min_mono.
    + intros q p Hq Hp%Hin. by apply wi_ts0.
  - cbn. lia.
  - exists (set_prereq l n r), ev, r'. split_and!; done.
Qed.

Lemma ts_access_inv txn type row cur r :
  inv r -> access_pre type txn row cur r ->
  exists rc ev r', access txn type row cur r = Ok (rc, ev, r') /\ inv r' /\ row_trace r ev r'.
Proof.
  intros Hinv [Ht Hp]. pose proof Hinv as [Hw Hm]. pose proof Hw as [].
  destruct (cal_min_spec (prereq r)) as (Hmin & _).
  destruct (cal_min_spec (readreq r)) as (Hminr & Hmr & _).
  unfold access. cbn zeta. destruct type; cbn in Hp.
  - destruct (Z.ltb_spec (tm_timestamp txn) (wts r)).
    { do 3 eexists. split; [done|]. split; [done|constructor]. }
    destruct (Z.ltb_spec (min_pts r) (tm_timestamp txn)).
    + do 3 eexists. split; [done|]. split; [|constructor]. split; [|done].
      split; cbn -[cal_min]; try done.
      * rewrite wi_rts0, cal_min_cons by (cbn; lia). done.
      * destruct (Z.ltb_spec (tm_timestamp txn) (min_rts r)); lia.
      * constructor; [cbn; lia|done].
    + do 3 eexists. split; [done|]. split; [split; [|done]|].
      * split; cbn; try done. destruct (Z.ltb_spec (rts r) (tm_timestamp txn)); lia.
      * unfold row_trace. cbn. constructor; [lia|].
        replace (if rts r <? tm_timestamp txn then tm_timestamp txn else rts r)
          with (Z.max (rts r) (tm_timestamp txn))
          by (destruct (Z.ltb_spec (rts r) (tm_timestamp txn)); lia). constructor.
  - destruct Hp as (Hrow & Hcur & Hsub & Hts).
    destruct (Z.ltb_spec (min_pts r) (tm_timestamp txn)).
    { destruct (buffer_write_inv txn row r) as (r' & -> & Hi' & Htr'); [done|done|lia|done|done|].
      cbn. eauto 10. }
    destruct (Z.ltb_spec (min_rts r) (tm_timestamp txn)).
    { destruct (buffer_write_inv txn cur r) as (r' & -> & Hi' & Htr'); [done|done|lia|done|done|].
      cbn. eauto 10. }
    destruct Hrow as [x ->]. cbn [do_write mbind res_bind].
    set (r1 := mkRowTs _ _ _ _ _ _ _ _ _ _).
    assert (rts r <= tm_timestamp txn) as Hrt.
    { assert (tm_ptr txn ∈ (tq_ptr <$> prereq r)) as (p & Ep & Hpp)%list_elem_of_fmap.
      { eapply elem_of_submseteq; [|exact Hsub]. by left. }
      rewrite <- (Hts p Hpp ltac:(done)). specialize (Hmin p Hpp). lia. }
    destruct (finish_prewrite_spec (tm_ptr txn) r1) as (r2 & ev & r' & E1 & E2 & Hi' & Htr').
    + split; cbn; try done. destruct (Z.ltb_spec (wts r) (tm_timestamp txn)); lia.
    + done.
    + rewrite E1. cbn [mbind res_bind]. rewrite E2. cbn [mbind res_bind]. do 3 eexists. split; [done|]. split; [done|].
      eapply (row_trace_app r [EvWrite (tm_timestamp txn) x] r1); [|exact Htr'].
      unfold row_trace, r1. cbn. constructor; [done|].
      replace (if wts r <? tm_timestamp txn then tm_timestamp txn else wts r)
        with (Z.max (wts r) (tm_timestamp txn))
        by (destruct (Z.ltb_spec (wts r) (tm_timestamp txn)); lia). constructor.
  - destruct (Z.ltb_spec (tm_timestamp txn) (rts r)).
    { do 3 eexists. split; [done|]. split; [done|constructor]. }
    destruct (Z.ltb_spec (tm_timestamp txn) (wts r)).
    { do 3 eexists. split; [done|]. split; [done|constructor]. }
    do 3 eexists. split; [done|]. split; [|constructor].
    assert ((if tm_timestamp txn <? min_pts r then tm_timestamp txn else min_pts r) =
      cal_min (mkTsReq txn None (tm_timestamp txn) :: prereq r)) as E
      by (rewrite Hm, cal_min_cons by (cbn; lia); done).
    split; [|exact E]. split; cbn -[cal_min]; try done.
    + lia.
    + destruct (Z.ltb_spec (tm_timestamp txn) (min_pts r)); lia.
    + eapply Forall_impl; [exact wi_wait0|]. cbn.
      destruct (Z.ltb_spec (tm_timestamp txn) (min_pts r)); lia.
    + etrans; [exact wi_ptrs0|]. apply submseteq_cons. done.
    + intros q p Hq [->|Hpp]%elem_of_cons E1; [|by apply wi_ts0].
      cbn. symmetry. by apply Hp.
  - destruct (finish_prewrite_spec (tm_ptr txn) r Hw Hp) as (r1 & ev & r' & -> & E2 & Hi' & Htr').
    cbn [mbind res_bind]. rewrite E2. cbn [mbind res_bind]. eauto 10.
Qed.

End Invariant.

(** ** Histories of a row *)

(** A row with the events it has performed, oldest first. *)
Inductive ts_step {D} : Row_ts D * list (TsEvent D) -> Row_ts D * list (TsEvent D) -> Prop :=
| ts_access txn type row cur r log rc ev r' :
    access_pre type txn row cur r -> access txn type row cur r = Ok (rc, ev, r') ->
    ts_step (r, log) (r', log ++ ev).

Lemma ts_reachable {D} (row0 : D) s :
  rtc ts_step (init row0, []) s ->
  inv (fst s) /\ trace row0 0 0 (snd s) (row_base (fst s)) (wts (fst s)) (rts (fst s)).
Proof.
  intros R. eapply (rtc_invariant _ (fun s => inv (fst s) /\
    trace row0 0 0 (snd s) (row_base (fst s)) (wts (fst s)) (rts (fst s)))); [| |exact R].
  - split; [apply inv_init|constructor].
  - intros a b [Hi Ht] St. destruct St as [txn type row cur r log rc ev r' Hp E].
    destruct (ts_access_inv txn type row cur r Hi Hp) as (? & ? & ? & E' & Hi' & Ht').
    rewrite E in E'. injection E' as <- <- <-. split; [done|]. cbn in *.
    eapply trace_app; [exact Ht|exact Ht'].
Qed.

(** Accesses of transactions other than [ptr] with timestamps above [p]. *)
Inductive later_step {D} (ptr p : Z) : Row_ts D -> Row_ts D -> Prop :=
| later_access txn type row cur r rc ev r' :
    tm_ptr txn <> ptr -> p < tm_timestamp txn <= UINT64_MAX ->
    access txn type row cur r = Ok (rc, ev, r') -> later_step ptr p r r'.

(** The oldest pending prewrite is [q0]. *)
Definition oldest_pending {D} (q0 : TsReqEntry D) (r : Row_ts D) : Prop :=
  q0 ∈ prereq r /\ min_pts r = tq_ts q0 /\ cal_min (prereq r) = tq_ts q0.

Lemma oldest_pending_read {D} (q0 : TsReqEntry D) r txn row cur :
  oldest_pending q0 r -> tq_ts q0 < tm_timestamp txn ->
  exists rc r', access txn R_REQ row cur r = Ok (rc, [], r') /\ (rc = WAIT \/ rc = Abort).
Proof.
  intros (_ & Hm & _) Hlt. unfold access. cbn zeta.
  destruct (tm_timestamp txn <? wts r); [eauto|].
  rewrite Hm, (proj2 (Z.ltb_lt _ _) Hlt). cbn. eauto.
Qed.

Lemma remove_txn_other {D} ptr (l : list (TsReqEntry D)) q l' q0 :
  remove_txn ptr l = Some (q, l') -> q0 ∈ l -> tq_ptr q0 <> ptr -> q0 ∈ l'.
Proof.
  revert l'. induction l as [|x l IH]; intros l'; cbn; [done|].
  destruct (Z.eqb_spec (tm_ptr (tq_txn x)) ptr) as [E|E].
  - intros [= -> ->] [->|?]%elem_of_cons Hne; done.
  - destruct (remove_txn ptr l) as [[y l'']|]; [|done]. intros [= -> <-].
    intros [->|Hin]%elem_of_cons Hne; [by left|]. right. by apply IH.
Qed.

Lemma remove_txn_sub {D} ptr (l : list (TsReqEntry D)) q l' q' :
  remove_txn ptr l = Some (q, l') -> q' ∈ l' -> q' ∈ l.
Proof.
  revert l'. induction l as [|x l IH]; intros l'; cbn; [done|].
  destruct (Z.eqb_spec (tm_ptr (tq_txn x)) ptr) as [E|E].
  - intros [= -> ->] Hin. by right.
  - destruct (remove_txn ptr l) as [[y l'']|]; [|done]. intros [= -> <-].
    intros [->|Hin]%elem_of_cons; [by left|]. right. by apply (IH l'').
Qed.

Lemma oldest_pending_step {D} (q0 : TsReqEntry D) r r' :
  oldest_pending q0 r -> later_step (tq_ptr q0) (tq_ts q0) r r' ->
  oldest_pending q0 r' /\ row_base r' = row_base r.
Proof.
  intros (Hin & Hm & Hc) St. destruct St as [txn type row cur r rc ev r' Hptr Hts E].
  unfold access in E. cbn zeta in E. destruct type.
  - rewrite Hm, (proj2 (Z.ltb_lt _ _) (proj1 Hts)) in E.
    destruct (_ <? wts r); cbn in E; injection E as <- <- <-; done.
  - rewrite Hm, (proj2 (Z.ltb_lt _ _) (proj1 Hts)) in E. cbn in E.
    case_bool_decide; cbn in E; [|done]. by injection E as <- <- <-.
  - destruct (_ <? rts r); [by injection E as <- <- <-|].
    destruct (_ <? wts r); [by injection E as <- <- <-|]. cbn in E. injection E as <- <- <-.
    split; [|done]. split_and!; cbn -[cal_min]; [by right| |].
    + by rewrite Hm, (proj2 (Z.ltb_ge _ _)) by lia.
    + rewrite cal_min_cons by (cbn; lia). cbn. by rewrite Hc, (proj2 (Z.ltb_ge _ _)) by lia.
  - unfold debuffer_prewrite in E. destruct (remove_txn _ _) as [[q l]|] eqn:Er; [|done].
    cbn [mbind res_bind] in E.
    assert (q0 ∈ l) as Hin' by (by eapply remove_txn_other).
    assert (cal_min l = tq_ts q0) as Hc'.
    { apply Z.le_antisymm; [by apply cal_min_spec|]. rewrite <- Hc. apply cal_min_mono.
      intros q' Hq'. by eapply remove_txn_sub. }
    unfold update_buffer in E. cbn [update_loop prereq min_pts] in E. cbn zeta in E.
    rewrite Hm, Hc', Z.leb_refl, Z.ltb_irrefl in E. cbn in E. by injection E as <- <- <-.
Qed.

Lemma oldest_pending_steps {D} (q0 : TsReqEntry D) r r' :
  oldest_pending q0 r -> rtc (later_step (tq_ptr q0) (tq_ts q0)) r r' ->
  oldest_pending q0 r' /\ row_base r' = row_base r.
Proof.
  intros Ho R. eapply (rtc_invariant _
    (fun r' => oldest_pending q0 r' /\ row_base r' = row_base r)); [done| |exact R].
  intros a b [Ha Ea] St. destruct (oldest_pending_step q0 a b Ha St) as [Hb Eb].
  split; [done|congruence].
Qed.

(** ** Properties *)

(** C35. Refinement of basic timestamp ordering.  Whatever accesses a row has
    served, its events form a run of the abstract machine that ends in the
    row's content, write mark and read mark: each read returned the content
    of the last write applied before it and was not below the write mark,
    each write applied was not below the read mark.  Moreover no read has
    passed a pending prewrite, every waiting read is above the write mark
    and waits for a pending prewrite below it, and the next access returns
    (the loop of [update_buffer] ends and no assertion fails). *)
Theorem ts_refines_spec (D : Type) (row0 : D) (r : Row_ts D) (log : list (TsEvent D)) :
  rtc ts_step (init row0, []) (r, log) ->
  trace row0 0 0 log (row_base r) (wts r) (rts r) /\
  (forall p, p ∈ prereq r -> rts r <= tq_ts p) /\
  (forall q, q ∈ readreq r -> wts r <= tq_ts q /\ exists p, p ∈ prereq r /\ tq_ts p < tq_ts q) /\
  (forall txn type row cur, access_pre type txn row cur r ->
     exists rc ev r', access txn type row cur r = Ok (rc, ev, r')).
Proof.
  intros R. destruct (ts_reachable row0 (r, log) R) as [[Hw Hm] Ht]. cbn in Hw, Hm, Ht.
  pose proof Hw as []. destruct (cal_min_spec (prereq r)) as (Hmin & _ & Hex).
  destruct (cal_min_spec (readreq r)) as (Hminr & _). split_and!.
  - done.
  - intros p Hp. specialize (Hmin p Hp). lia.
  - intros q Hq. specialize (Hminr q Hq).
    eapply Forall_forall in wi_wait0; [|exact Hq]. cbn in wi_wait0. split; [lia|].
    destruct Hex as [?|(p & Hp & ?)]; [lia|]. exists p. split; [done|lia].
  - intros txn type row cur Hp.
    destruct (ts_access_inv txn type row cur r (conj Hw Hm) Hp) as (rc & ev & r' & E & _). eauto.
Qed.

(** Reads and writes conflict in timestamp order: in the events of any
    history, a read never precedes a write with a smaller timestamp, and a
    write never precedes a read with a smaller timestamp. *)
Theorem ts_rw_conflicts_ordered (D : Type) (row0 : D) (r : Row_ts D) (log : list (TsEvent D))
    (i j : nat) :
  rtc ts_step (init row0, []) (r, log) -> (i < j)%nat ->
  (forall txn t x t' x', log !! i = Some (EvRead txn t x) -> log !! j = Some (EvWrite t' x') ->
     t <= t') /\
  (forall t x txn t' x', log !! i = Some (EvWrite t x) -> log !! j = Some (EvRead txn t' x') ->
     t <= t').
Proof.
  intros R Hij. destruct (ts_reachable row0 (r, log) R) as [_ Ht].
  by apply (trace_ordered _ _ _ _ _ _ _ i j Ht).
Qed.

(** A buffered write can block a row for good.  When the oldest pending
    prewrite belongs to a transaction that issues no further request (it has
    committed, its write is in the buffer), then under all requests of later
    transactions the row keeps its content and every later read waits or
    aborts. *)
Theorem ts_buffered_write_blocks (D : Type) (q0 : TsReqEntry D) (r r' : Row_ts D)
    (txn : TxnManager) (row cur : option D) :
  oldest_pending q0 r -> rtc (later_step (tq_ptr q0) (tq_ts q0)) r r' ->
  tq_ts q0 < tm_timestamp txn ->
  row_base r' = row_base r /\ q0 ∈ prereq r' /\
  exists rc r'', access txn R_REQ row cur r' = Ok (rc, [], r'') /\ (rc = WAIT \/ rc = Abort).
Proof.
  intros Ho R Hlt. destruct (oldest_pending_steps q0 r r' Ho R) as [Ho' Hb].
  split_and!; [done|apply Ho'|]. by eapply oldest_pending_read.
Qed.

(** *** Witnesses *)

Definition ex_ttxn (id : Z) : TxnManager := mkTxn id id (id * 10) 0 0 false.

Lemma ts_step_to {D} (s s' : Row_ts D * list (TsEvent D)) txn type row cur rc ev r' :
  access_pre type txn row cur (fst s) -> access txn type row cur (fst s) = Ok (rc, ev, r') ->
  s' = (r', snd s ++ ev) -> ts_step s s'.
Proof. intros Hp E ->. destruct s as [r log]. by eapply ts_access. Qed.

Ltac ts_pre_tac :=
  cbn; split_and!; cbn;
  try match goal with
  | |- is_Some _ => by eexists
  | |- _ ⊆+ _ => solve_submseteq
  | |- forall q, q ∈ [] -> _ => by intros ? ?%elem_of_nil
  | |- True => exact I
  | |- _ < UINT64_MAX => vm_compute; reflexivity
  | |- _ <= _ => vm_compute; discriminate
  end;
  try (intros ? Hin; cbn in Hin; repeat (apply elem_of_cons in Hin as [->|Hin]);
       [cbn; intros; first [reflexivity|discriminate] ..|by apply elem_of_nil in Hin]).

Ltac ts_do txn type row cur :=
  eapply rtc_l;
  [eapply (ts_step_to _ _ txn type row cur);
   [ts_pre_tac|vm_compute; reflexivity|reflexivity]|cbn [app snd fst]].

Definition ex_r15 : TxnManager := mkTxn 91 91 15 0 0 false.
Definition ex_r100 : TxnManager := mkTxn 92 92 100 0 0 false.

(** Prewrites 10, 20 and 30; reads 15 and 100 wait; the write 30 is buffered;
    the write 10 releases it before the write 20 arrives. *)
Definition ex_overwrite_row : Row_ts Z :=
  mkRowTs 102 30 100 30 18446744073709551615 18446744073709551615 [] [] [] 0.
Definition ex_overwrite_log : list (TsEvent Z) :=
  [EvWrite 10 101; EvRead ex_r15 15 101; EvWrite 30 103; EvWrite 20 102;
   EvRead ex_r100 100 102].

Lemma ex_overwrite_run : rtc ts_step (init 7, []) (ex_overwrite_row, ex_overwrite_log).
Proof.
  ts_do (ex_ttxn 1) P_REQ (@None Z) (@None Z).
  ts_do (ex_ttxn 2) P_REQ (@None Z) (@None Z).
  ts_do (ex_ttxn 3) P_REQ (@None Z) (@None Z).
  ts_do ex_r15 R_REQ (@None Z) (@None Z).
  ts_do ex_r100 R_REQ (@None Z) (@None Z).
  ts_do (ex_ttxn 3) W_REQ (Some 103) (Some 103).
  ts_do (ex_ttxn 1) W_REQ (Some 101) (Some 101).
  ts_do (ex_ttxn 2) W_REQ (Some 102) (Some 102).
  apply rtc_refl.
Qed.

(** Prewrites 10, 20 and 30; the read 15 waits; the writes 20 and 30 are
    buffered; the write 10 releases both and only 20 is applied. *)
Definition ex_drop_row : Row_ts Z :=
  mkRowTs 102 20 15 20 18446744073709551615 18446744073709551615 [] [] [] 0.
Definition ex_drop_log : list (TsEvent Z) :=
  [EvWrite 10 101; EvRead ex_r15 15 101; EvWrite 20 102].

Lemma ex_drop_run : rtc ts_step (init 7, []) (ex_drop_row, ex_drop_log).
Proof.
  ts_do (ex_ttxn 1) P_REQ (@None Z) (@None Z).
  ts_do (ex_ttxn 2) P_REQ (@None Z) (@None Z).
  ts_do (ex_ttxn 3) P_REQ (@None Z) (@None Z).
  ts_do ex_r15 R_REQ (@None Z) (@None Z).
  ts_do (ex_ttxn 2) W_REQ (Some 102) (Some 102).
  ts_do (ex_ttxn 3) W_REQ (Some 103) (Some 103).
  ts_do (ex_ttxn 1) W_REQ (Some 101) (Some 101).
  apply rtc_refl.
Qed.

(** Prewrites 10 and 20; the write 20 is buffered; after the write 10 it stays
    in the buffer. *)
Definition ex_stuck_q0 : TsReqEntry Z := mkTsReq (ex_ttxn 2) None 20.
Definition ex_stuck_row : Row_ts Z :=
  mkRowTs 101 10 0 20 18446744073709551615 20 []
    [mkTsReq (ex_ttxn 2) (Some 102) 20] [ex_stuck_q0] 1.

Lemma ex_stuck_run : rtc ts_step (init 7, []) (ex_stuck_row, [EvWrite 10 101]).
Proof.
  ts_do (ex_ttxn 1) P_REQ (@None Z) (@None Z).
  ts_do (ex_ttxn 2) P_REQ (@None Z) (@None Z).
  ts_do (ex_ttxn 2) W_REQ (Some 102) (Some 102).
  ts_do (ex_ttxn 1) W_REQ (Some 101) (Some 101).
  apply rtc_refl.
Qed.

(** Writes are lost.  There is a history in which the write at 30 is
    applied before the write at 20, which then overwrites it (the row holds
    the older write under write mark 30 and a read at 100 returns it), and
    one in which the writes at 20 and 30 are both accepted and leave the
    buffers, and the one at 30 is never applied. *)
Theorem ts_lost_writes :
  (exists (r : Row_ts Z) log x y, rtc ts_step (init 7, []) (r, log) /\
     log !! 2%nat = Some (EvWrite 30 x) /\ log !! 3%nat = Some (EvWrite 20 y) /\
     row_base r = y /\ wts r = 30 /\
     log !! 4%nat = Some (EvRead ex_r100 100 y)) /\
  (exists (r : Row_ts Z) log, rtc ts_step (init 7, []) (r, log) /\
     writereq r = [] /\ prereq r = [] /\ row_base r = 102 /\ wts r = 20 /\
     forall x, EvWrite 30 x ∉ log).
Proof.
  split.
  - exists ex_overwrite_row, ex_overwrite_log, 103, 102.
    split; [exact ex_overwrite_run|done].
  - exists ex_drop_row, ex_drop_log. split_and!; try done; [exact ex_drop_run|].
    intros x Hin. unfold ex_drop_log in Hin.
    repeat (apply elem_of_cons in Hin as [Hin|Hin]; [discriminate|]).
    by apply elem_of_nil in Hin.
Qed.

Lemma ts_refines_spec_witness :
  trace 7 0 0 ex_drop_log 102 20 15.
Proof. exact (proj1 (ts_refines_spec Z 7 ex_drop_row ex_drop_log ex_drop_run)). Defined.

Lemma ts_rw_conflicts_ordered_witness : 10 <= 15.
Proof.
  refine (proj2 (ts_rw_conflicts_ordered Z 7 ex_drop_row ex_drop_log 0 1 ex_drop_run _)
            10 101 ex_r15 15 101 _ _); [lia|reflexivity|reflexivity].
Defined.

Lemma ts_buffered_write_blocks_witness :
  rtc ts_step (init 7, []) (ex_stuck_row, [EvWrite 10 101]) /\
  exists rc r'', access (ex_ttxn 3) R_REQ None None ex_stuck_row = Ok (rc, [], r'') /\
    (rc = WAIT \/ rc = Abort).
Proof.
  split; [exact ex_stuck_run|].
  refine (proj2 (proj2 (ts_buffered_write_blocks Z ex_stuck_q0 ex_stuck_row ex_stuck_row
            (ex_ttxn 3) None None _ _ _))).
  - split_and!; [by left|reflexivity|reflexivity].
  - apply rtc_refl.
  - cbn. lia.
Defined.
