(* ===== verification/Maat.v ===== *)
(** * Maat: the time table and the MaaT validator

    Model of concurrency_control/maat.cpp and maat.h.  [TimeTable] is the
    chained hash table of [KeyTable] with time-range entries; its operations
    lock their bucket and are atomic.  [validate] holds the semaphore of the
    manager.  The [thd_id] arguments only select statistics counters. *)

From stdpp Require Import gmap list sorting.
From S2P Require Import Prelude StdSet KeyTable.
#[local] Open Scope Z_scope.

Inductive MAATState := MAAT_RUNNING | MAAT_VALIDATED | MAAT_COMMITTED | MAAT_ABORTED.
#[global] Instance MAATState_eq_dec : EqDecision MAATState.
Proof. solve_decision. Defined.

(** [struct TimeTableEntry]. *)
Record TimeTableEntry := mkTT {
  tt_lower : Z;
  tt_upper : Z;
  tt_key : Z;
  tt_state : MAATState;
}.

(** [TimeTableEntry::init]. *)
Definition entry_init (key : Z) : TimeTableEntry := mkTT 0 UINT64_MAX key MAAT_RUNNING.

#[global] Instance TT_TableEntry : TableEntry TimeTableEntry := {
  entry_key := tt_key;
  entry_new := entry_init;
  entry_key_new := fun k => eq_refl;
}.

Definition upd_lower (v : Z) (e : TimeTableEntry) : TimeTableEntry :=
  mkTT v (tt_upper e) (tt_key e) (tt_state e).
Definition upd_upper (v : Z) (e : TimeTableEntry) : TimeTableEntry :=
  mkTT (tt_lower e) v (tt_key e) (tt_state e).
Definition upd_state (s : MAATState) (e : TimeTableEntry) : TimeTableEntry :=
  mkTT (tt_lower e) (tt_upper e) (tt_key e) s.

(** The MaaT fields of [TxnManager]. *)
Record MaatTxn := mkMaatTxn {
  mt_id : Z;
  uncommitted_reads : list Z;
  uncommitted_writes : list Z;
  uncommitted_writes_y : list Z;
  greatest_write_timestamp : Z;
  greatest_read_timestamp : Z;
  commit_timestamp : Z;
}.

Section TimeTable.
Context {T : Type} `{!KeyTable T TimeTableEntry}.
Implicit Types (t : T).

Definition get_lower (key : Z) (t : T) : Z :=
  match kt_find key t with Some e => tt_lower e | None => 0 end.

Definition get_upper (key : Z) (t : T) : Z :=
  match kt_find key t with Some e => tt_upper e | None => UINT64_MAX end.

Definition set_lower (key value : Z) (t : T) : T := kt_update key (upd_lower value) t.

Definition set_upper (key value : Z) (t : T) : T := kt_update key (upd_upper value) t.

Definition get_state (key : Z) (t : T) : MAATState :=
  match kt_find key t with Some e => tt_state e | None => MAAT_ABORTED end.

Definition set_state (key : Z) (value : MAATState) (t : T) : T :=
  kt_update key (upd_state value) t.

(** [state == MAAT_VALIDATED || state == MAAT_COMMITTED]. *)
Definition decided (s : MAATState) : bool :=
  bool_decide (s = MAAT_VALIDATED) || bool_decide (s = MAAT_COMMITTED).

(** ** [Maat::validate] *)

(** First loop: writers that must come after the transaction.  Accumulates
    [upper] and the set [after]. *)
Definition scan_writes (t : T) (l : list Z) (upper : Z) (after : list Z) : Z * list Z :=
  foldl (fun '(upper, after) it =>
    let it_lower := get_lower it t in
    if it_lower <=? upper then
      let state := get_state it t in
      (if decided state then (if 0 <? it_lower then it_lower - 1 else it_lower) else upper,
       if bool_decide (state = MAAT_RUNNING) then set_insert it after else after)
    else (upper, after)) (upper, after) l.

(** Second loop: readers that must come before the transaction. *)
Definition scan_reads (t : T) (l : list Z) (lower : Z) (before : list Z) : Z * list Z :=
  foldl (fun '(lower, before) it =>
    let it_upper := get_upper it t in
    if lower <=? it_upper then
      let state := get_state it t in
      (if decided state then (if it_upper <? UINT64_MAX then it_upper + 1 else it_upper)
       else lower,
       if bool_decide (state = MAAT_RUNNING) then set_insert it before else before)
    else (lower, before)) (lower, before) l.

(** Third loop: writers of the rows the transaction writes. *)
Definition scan_writes_y (t : T) (l : list Z) (lower : Z) (after : list Z) : Z * list Z :=
  foldl (fun '(lower, after) it =>
    let state := get_state it t in
    let it_upper := get_upper it t in
    if bool_decide (state = MAAT_ABORTED) then (lower, after)
    else
      (if decided state && (lower <=? it_upper)
       then (if it_upper <? UINT64_MAX then it_upper + 1 else it_upper) else lower,
       if bool_decide (state = MAAT_RUNNING) then set_insert it after else after)) (lower, after) l.

(** The four loops of a validated transaction. *)
Definition raise_lower (t : T) (before : list Z) (upper lower : Z) : Z :=
  foldl (fun lower it =>
    let it_upper := get_upper it t in
    if (lower <? it_upper) && (it_upper <? wrap64 (upper - 1)) then it_upper + 1 else lower)
    lower before.

Definition cap_before (before : list Z) (lower : Z) (t : T) : T :=
  foldl (fun t it =>
    if lower <=? get_upper it t
    then set_upper it (if 0 <? lower then lower - 1 else lower) t else t) t before.

Definition drop_upper (t : T) (after : list Z) (lower upper : Z) : Z :=
  foldl (fun upper it =>
    let it_lower := get_lower it t in
    let it_upper := get_upper it t in
    let upper1 := if negb (it_upper =? UINT64_MAX) && (wrap64 (lower + 2) <? it_upper) &&
                     (it_upper <? upper)
                  then wrap64 (it_upper - 2) else upper in
    if (it_lower <? upper1) && (wrap64 (lower + 1) <? it_lower) then it_lower - 1 else upper1)
    upper after.

Definition lift_after (after : list Z) (upper : Z) (t : T) : T :=
  foldl (fun t it =>
    if get_lower it t <=? upper
    then set_lower it (if upper <? UINT64_MAX then upper + 1 else upper) t else t) t after.

(** The range the three scanning loops leave, with the sets of running
    transactions to order. *)
Definition scan (txn : MaatTxn) (t : T) : Z * Z * list Z * list Z :=
  let lower := get_lower (mt_id txn) t in
  let upper := get_upper (mt_id txn) t in
  let lower := if lower <=? greatest_write_timestamp txn
               then wrap64 (greatest_write_timestamp txn + 1) else lower in
  let '(upper, after) := scan_writes t (uncommitted_writes txn) upper [] in
  let lower := if lower <=? greatest_read_timestamp txn
               then wrap64 (greatest_read_timestamp txn + 1) else lower in
  let '(lower, before) := scan_reads t (uncommitted_reads txn) lower [] in
  let '(lower, after) := scan_writes_y t (uncommitted_writes_y txn) lower after in
  (lower, upper, before, after).

Definition validate (txn : MaatTxn) (t : T) : res (RC * T) :=
  let '(lower, upper, before, after) := scan txn t in
  if upper <=? lower then
    let t1 := set_state (mt_id txn) MAAT_ABORTED t in
    Ok (Abort, set_upper (mt_id txn) upper (set_lower (mt_id txn) lower t1))
  else
    let t1 := set_state (mt_id txn) MAAT_VALIDATED t in
    let lower := raise_lower t1 before upper lower in
    let t2 := cap_before before lower t1 in
    let upper := drop_upper t2 after lower upper in
    let t3 := lift_after after upper t2 in
    assert! (lower <? upper);
    Ok (RCOK, set_upper (mt_id txn) upper (set_lower (mt_id txn) lower t3)).

(** [Maat::find_bound]: returns the transaction with its commit timestamp. *)
Definition find_bound (txn : MaatTxn) (t : T) : RC * MaatTxn * T :=
  let lower := get_lower (mt_id txn) t in
  let upper := get_upper (mt_id txn) t in
  if upper <=? lower then (Abort, txn, set_state (mt_id txn) MAAT_VALIDATED t)
  else (RCOK,
        mkMaatTxn (mt_id txn) (uncommitted_reads txn) (uncommitted_writes txn)
          (uncommitted_writes_y txn) (greatest_write_timestamp txn)
          (greatest_read_timestamp txn) lower,
        set_state (mt_id txn) MAAT_COMMITTED t).

End TimeTable.

(** ** The scanning loops

    They only read the table. *)

Section Scan.
Context {T : Type} `{!KeyTable T TimeTableEntry}.
Implicit Types (t : T).

(** Bounds are 64-bit numbers; an upper bound is the maximum or leaves room
    for the "+ 2" of the code. *)
Definition bounds_ok (t : T) : Prop :=
  forall k, 0 <= get_lower k t <= UINT64_MAX /\
    (0 <= get_upper k t <= UINT64_MAX - 3 \/ get_upper k t = UINT64_MAX).

Lemma elem_of_if_insert (b : bool) it x s :
  x ∈ (if b then set_insert it s else s) <-> (b = true /\ x = it) \/ x ∈ s.
Proof. destruct b; [rewrite elem_of_set_insert|]; naive_solver. Qed.

Lemma scan_writes_spec t l upper after upper' after' :
  bounds_ok t -> scan_writes t l upper after = (upper', after') -> 0 <= upper ->
  0 <= upper' <= upper /\
  (forall it, it ∈ l -> decided (get_state it t) = true -> 0 < upper' -> upper' < get_lower it t) /\
  (forall it, it ∈ l -> get_state it t = MAAT_RUNNING -> it ∈ after' \/ upper' < get_lower it t) /\
  (forall it, it ∈ after' -> it ∈ after \/ (it ∈ l /\ get_state it t = MAAT_RUNNING)) /\
  (forall it, it ∈ after -> it ∈ after').
Proof.
  intros Hb. unfold scan_writes. revert upper after.
  induction l as [|x l IH]; intros upper after; cbn.
  { intros [= -> ->] H0. split_and!; [lia|lia|set_solver..|auto|auto]. }
  destruct (Hb x) as [Hx _].
  destruct (Z.leb_spec (get_lower x t) upper) as [Hle|Hgt]; intros E H0.
  - apply IH in E as (H1 & H2 & H3 & H4 & H5).
    2:{ destruct (decided _); [|done]. destruct (Z.ltb_spec 0 (get_lower x t)); lia. }
    setoid_rewrite elem_of_if_insert in H4. setoid_rewrite elem_of_if_insert in H5.
    setoid_rewrite bool_decide_eq_true in H4. setoid_rewrite bool_decide_eq_true in H5.
    split_and!.
    + lia.
    + destruct (decided _); [|lia]. destruct (Z.ltb_spec 0 (get_lower x t)); lia.
    + intros it [->|Hit]%elem_of_cons Hd Hpos; [|by apply H2].
      rewrite Hd in H1. destruct (Z.ltb_spec 0 (get_lower x t)); lia.
    + intros it [->|Hit]%elem_of_cons Hr; [|by apply H3]. left. apply H5. by left.
    + intros it Hit. setoid_rewrite elem_of_cons. destruct (H4 it Hit) as [[[? ->]|?]|[? ?]]; auto.
    + intros it Hit. apply H5. by right.
  - apply IH in E as (H1 & H2 & H3 & H4 & H5); [|done]. split_and!; try lia.
    + intros it [->|Hit]%elem_of_cons Hd Hpos; [lia|by apply H2].
    + intros it [->|Hit]%elem_of_cons Hr; [right; lia|by apply H3].
    + intros it Hit. setoid_rewrite elem_of_cons. destruct (H4 it Hit) as [?|[? ?]]; auto.
    + done.
Qed.

(** What a raised lower bound may be: small, or the maximum. *)
Definition low_ok (z : Z) : Prop := 1 <= z <= UINT64_MAX - 2 \/ z = UINT64_MAX.

Lemma raise_to_ok t it :
  bounds_ok t -> low_ok (if get_upper it t <? UINT64_MAX then get_upper it t + 1 else get_upper it t)
  /\ (get_upper it t < (if get_upper it t <? UINT64_MAX then get_upper it t + 1 else get_upper it t)
      \/ get_upper it t = UINT64_MAX).
Proof.
  intros Hb. destruct (Hb it) as [_ Hu]. unfold low_ok.
  destruct (Z.ltb_spec (get_upper it t) UINT64_MAX); lia.
Qed.

Lemma scan_reads_spec t l lower before lower' before' :
  bounds_ok t -> scan_reads t l lower before = (lower', before') -> low_ok lower ->
  low_ok lower' /\ lower <= lower' /\
  (forall it, it ∈ l -> decided (get_state it t) = true -> lower' < UINT64_MAX ->
     get_upper it t < lower') /\
  (forall it, it ∈ l -> get_state it t = MAAT_RUNNING -> it ∈ before' \/ get_upper it t < lower') /\
  (forall it, it ∈ before' -> it ∈ before \/ (it ∈ l /\ get_state it t = MAAT_RUNNING)) /\
  (forall it, it ∈ before -> it ∈ before').
Proof.
  intros Hb. unfold scan_reads. revert lower before.
  induction l as [|x l IH]; intros lower before; cbn.
  { intros [= -> ->] H0. split_and!; [done|lia|set_solver..|auto|auto]. }
  destruct (raise_to_ok t x Hb) as [Hr1 Hr2].
  destruct (Z.leb_spec (lower) (get_upper x t)) as [Hle|Hgt]; intros E H0.
  - apply IH in E as (H0' & H1 & H2 & H3 & H4 & H5).
    2:{ by destruct (decided _). }
    setoid_rewrite elem_of_if_insert in H4. setoid_rewrite elem_of_if_insert in H5.
    setoid_rewrite bool_decide_eq_true in H4. setoid_rewrite bool_decide_eq_true in H5.
    split_and!.
    + done.
    + destruct (decided _); [|lia]. destruct (Z.ltb_spec (get_upper x t) UINT64_MAX); lia.
    + intros it [->|Hit]%elem_of_cons Hd Hpos; [|by apply H2].
      rewrite Hd in H1. destruct (Z.ltb_spec (get_upper x t) UINT64_MAX); lia.
    + intros it [->|Hit]%elem_of_cons Hr; [|by apply H3]. left. apply H5. by left.
    + intros it Hit. setoid_rewrite elem_of_cons. destruct (H4 it Hit) as [[[? ->]|?]|[? ?]]; auto.
    + intros it Hit. apply H5. by right.
  - apply IH in E as (H0' & H1 & H2 & H3 & H4 & H5); [|done]. split_and!; try lia; try done.
    + intros it [->|Hit]%elem_of_cons Hd Hpos; [lia|by apply H2].
    + intros it [->|Hit]%elem_of_cons Hr; [right; lia|by apply H3].
    + intros it Hit. setoid_rewrite elem_of_cons. destruct (H4 it Hit) as [?|[? ?]]; auto.
Qed.

Lemma scan_writes_y_spec t l lower after lower' after' :
  bounds_ok t -> scan_writes_y t l lower after = (lower', after') -> low_ok lower ->
  low_ok lower' /\ lower <= lower' /\
  (forall it, it ∈ l -> decided (get_state it t) = true -> lower' < UINT64_MAX ->
     get_upper it t < lower') /\
  (forall it, it ∈ l -> get_state it t = MAAT_RUNNING -> it ∈ after') /\
  (forall it, it ∈ after' -> it ∈ after \/ (it ∈ l /\ get_state it t = MAAT_RUNNING)) /\
  (forall it, it ∈ after -> it ∈ after').
Proof.
  intros Hb. unfold scan_writes_y. revert lower after.
  induction l as [|x l IH]; intros lower after; cbn.
  { intros [= -> ->] H0. split_and!; [done|lia|set_solver..|auto|auto]. }
  destruct (raise_to_ok t x Hb) as [Hr1 Hr2]. intros E H0.
  destruct (decide (get_state x t = MAAT_ABORTED)) as [Ha|Hna].
  - rewrite bool_decide_eq_true_2 in E by done.
    apply IH in E as (H0' & H1 & H2 & H3 & H4 & H5); [|done]. split_and!; try done.
    + intros it [->|Hit]%elem_of_cons Hd Hpos; [rewrite Ha in Hd; done|by apply H2].
    + intros it [->|Hit]%elem_of_cons Hr; [congruence|by apply H3].
    + intros it Hit. setoid_rewrite elem_of_cons. destruct (H4 it Hit) as [?|[? ?]]; auto.
  - rewrite bool_decide_eq_false_2 in E by done.
    apply IH in E as (H0' & H1 & H2 & H3 & H4 & H5).
    2:{ by destruct (_ && _). }
    setoid_rewrite elem_of_if_insert in H4. setoid_rewrite elem_of_if_insert in H5.
    setoid_rewrite bool_decide_eq_true in H4. setoid_rewrite bool_decide_eq_true in H5.
    split_and!.
    + done.
    + destruct (decided _); cbn in H1; [|lia].
      destruct (Z.leb_spec lower (get_upper x t)); [|lia].
      destruct (Z.ltb_spec (get_upper x t) UINT64_MAX); lia.
    + intros it [->|Hit]%elem_of_cons Hd Hpos; [|by apply H2].
      rewrite Hd in H1. cbn in H1. destruct (Z.leb_spec lower (get_upper x t)); [|lia].
      destruct (Z.ltb_spec (get_upper x t) UINT64_MAX); lia.
    + intros it [->|Hit]%elem_of_cons Hr; [|by apply H3]. apply H5. by left.
    + intros it Hit. setoid_rewrite elem_of_cons. destruct (H4 it Hit) as [[[? ->]|?]|[? ?]]; auto.
    + intros it Hit. apply H5. by right.
Qed.

(** The range found by the scan and the transactions it has to order. *)
Record scan_ok (txn : MaatTxn) (t : T) (lower upper : Z) (before after : list Z) : Prop := {
  so_lower : low_ok lower;
  so_upper : 0 <= upper <= get_upper (mt_id txn) t;
  so_start : get_lower (mt_id txn) t <= lower;
  so_gwt : greatest_write_timestamp txn < lower;
  so_grt : greatest_read_timestamp txn < lower;
  so_writes : forall it, it ∈ uncommitted_writes txn -> decided (get_state it t) = true ->
    0 < upper -> upper < get_lower it t;
  so_reads : forall it, it ∈ uncommitted_reads txn \/ it ∈ uncommitted_writes_y txn ->
    decided (get_state it t) = true -> lower < UINT64_MAX -> get_upper it t < lower;
  so_before : forall it, it ∈ uncommitted_reads txn -> get_state it t = MAAT_RUNNING ->
    it ∈ before \/ get_upper it t < lower;
  so_after : forall it, it ∈ uncommitted_writes txn -> get_state it t = MAAT_RUNNING ->
    it ∈ after \/ upper < get_lower it t;
  so_after_y : forall it, it ∈ uncommitted_writes_y txn -> get_state it t = MAAT_RUNNING ->
    it ∈ after;
  so_running : forall it, it ∈ before \/ it ∈ after -> get_state it t = MAAT_RUNNING;
}.

(** Timestamps of committed transactions leave room for the additions. *)
Definition txn_ok (txn : MaatTxn) (t : T) : Prop :=
  0 <= greatest_write_timestamp txn <= UINT64_MAX - 3 /\
  0 <= greatest_read_timestamp txn <= UINT64_MAX - 3 /\
  get_lower (mt_id txn) t <= UINT64_MAX - 3.

Lemma scan_spec txn t lower upper before after :
  bounds_ok t -> txn_ok txn t -> scan txn t = (lower, upper, before, after) ->
  scan_ok txn t lower upper before after.
Proof.
  intros Hb (Hw & Hr & Hl). unfold scan. destruct (Hb (mt_id txn)) as [Hlo Hup].
  destruct (scan_writes t _ _ []) as [u a1] eqn:E1.
  set (l1 := if get_lower _ t <=? greatest_write_timestamp txn then _ else _).
  set (l2 := if l1 <=? greatest_read_timestamp txn then _ else _).
  destruct (scan_reads t _ l2 []) as [l3 b1] eqn:E2.
  destruct (scan_writes_y t _ l3 a1) as [l4 a2] eqn:E3. intros [= <- <- <- <-].
  assert (low_ok l1 /\ get_lower (mt_id txn) t <= l1 /\ greatest_write_timestamp txn < l1 /\
          l1 <= UINT64_MAX - 2) as (? & ? & ? & ?).
  { unfold l1, low_ok. destruct (Z.leb_spec (get_lower (mt_id txn) t) (greatest_write_timestamp txn));
      [rewrite wrap64_small by lia|]; lia. }
  assert (low_ok l2 /\ l1 <= l2 /\ greatest_read_timestamp txn < l2) as (? & ? & ?).
  { unfold l2, low_ok in *. destruct (Z.leb_spec l1 (greatest_read_timestamp txn));
      [rewrite wrap64_small by lia|]; lia. }
  apply scan_writes_spec in E1 as (U1 & U2 & U3 & U4 & U5); [|done|lia].
  apply scan_reads_spec in E2 as (R0 & R1 & R2 & R3 & R4 & R5); [|done|done].
  apply scan_writes_y_spec in E3 as (Y0 & Y1 & Y2 & Y3 & Y4 & Y5); [|done|done].
  split; try done; try lia.
  - intros it [Hit|Hit] Hd Hlt; [|by apply Y2]. specialize (R2 it Hit Hd ltac:(lia)). lia.
  - intros it Hit Hs. destruct (R3 it Hit Hs); [by left|right; lia].
  - intros it Hit Hs. destruct (U3 it Hit Hs); [left; by apply Y5|by right].
  - intros it [Hit|Hit].
    + destruct (R4 it Hit) as [?%elem_of_nil|[? ?]]; done.
    + destruct (Y4 it Hit) as [Hit'|[? ?]]; [|done].
      destruct (U4 it Hit') as [?%elem_of_nil|[? ?]]; done.
Qed.

End Scan.

(** ** The ordering loops *)

Section Order.
Context {T : Type} `{!KeyTable T TimeTableEntry} (wf : T -> Prop)
  `{!KeyTableLaws T TimeTableEntry wf}.
Implicit Types (t : T).

Definition has_entry (t : T) (k : Z) : Prop := is_Some (kt_find k t).

(** Field reads after a field write. *)
Lemma get_after_update key f t k :
  wf t -> (forall e, entry_key (f e) = entry_key e) ->
  kt_find k (kt_update key f t) = if decide (key = k) then f <$> kt_find k t else kt_find k t.
Proof. intros W Hf. rewrite kt_find_update by done. by case_decide; subst. Qed.

Ltac table_get := unfold get_lower, get_upper, get_state, has_entry;
  rewrite get_after_update by done; case_decide; subst; [|try done];
  destruct (kt_find _ _) eqn:?; cbn; try done.

Lemma set_upper_spec key v t :
  wf t -> wf (set_upper key v t) /\
  (forall k, get_lower k (set_upper key v t) = get_lower k t) /\
  (forall k, get_state k (set_upper key v t) = get_state k t) /\
  (forall k, k <> key -> get_upper k (set_upper key v t) = get_upper k t) /\
  (has_entry t key -> get_upper key (set_upper key v t) = v) /\
  (forall k, has_entry (set_upper key v t) k <-> has_entry t k).
Proof.
  intros W. unfold set_upper. split_and!.
  - by apply kt_update_wf.
  - intros k. table_get.
  - intros k. table_get.
  - intros k Hk. table_get.
  - intros [e He]. unfold get_upper. rewrite get_after_update, decide_True by done. by rewrite He.
  - intros k. unfold has_entry. rewrite get_after_update by done.
    case_decide; [apply fmap_is_Some|done].
Qed.

Lemma set_lower_spec key v t :
  wf t -> wf (set_lower key v t) /\
  (forall k, get_upper k (set_lower key v t) = get_upper k t) /\
  (forall k, get_state k (set_lower key v t) = get_state k t) /\
  (forall k, k <> key -> get_lower k (set_lower key v t) = get_lower k t) /\
  (has_entry t key -> get_lower key (set_lower key v t) = v) /\
  (forall k, has_entry (set_lower key v t) k <-> has_entry t k).
Proof.
  intros W. unfold set_lower. split_and!.
  - by apply kt_update_wf.
  - intros k. table_get.
  - intros k. table_get.
  - intros k Hk. table_get.
  - intros [e He]. unfold get_lower. rewrite get_after_update, decide_True by done. by rewrite He.
  - intros k. unfold has_entry. rewrite get_after_update by done.
    case_decide; [apply fmap_is_Some|done].
Qed.

Lemma set_state_spec key s t :
  wf t -> wf (set_state key s t) /\
  (forall k, get_lower k (set_state key s t) = get_lower k t) /\
  (forall k, get_upper k (set_state key s t) = get_upper k t) /\
  (forall k, k <> key -> get_state k (set_state key s t) = get_state k t) /\
  (has_entry t key -> get_state key (set_state key s t) = s) /\
  (forall k, has_entry (set_state key s t) k <-> has_entry t k).
Proof.
  intros W. unfold set_state. split_and!.
  - by apply kt_update_wf.
  - intros k. table_get.
  - intros k. table_get.
  - intros k Hk. table_get.
  - intros [e He]. unfold get_state. rewrite get_after_update, decide_True by done. by rewrite He.
  - intros k. unfold has_entry. rewrite get_after_update by done.
    case_decide; [apply fmap_is_Some|done].
Qed.

Lemma raise_lower_spec t before upper lower :
  0 <= lower < upper -> upper <= UINT64_MAX -> lower <= raise_lower t before upper lower < upper.
Proof.
  unfold raise_lower. intros H Hu. rewrite wrap64_small by lia. revert lower H.
  induction before as [|x l IH]; intros lower H; cbn; [lia|].
  destruct (Z.ltb_spec lower (get_upper x t)), (Z.ltb_spec (get_upper x t) (upper - 1)); cbn;
    try (apply IH; lia).
  assert (0 <= get_upper x t + 1 < upper) as Hx by lia. specialize (IH _ Hx). lia.
Qed.

Lemma drop_upper_spec t after lower upper :
  0 <= lower < upper -> upper <= UINT64_MAX -> lower <= UINT64_MAX - 2 ->
  (forall k, get_upper k t <= UINT64_MAX) ->
  lower < drop_upper t after lower upper <= upper.
Proof.
  intros H Hu Hl Hb. unfold drop_upper.
  rewrite (wrap64_small (lower + 2)), (wrap64_small (lower + 1)) by lia. revert upper H Hu.
  induction after as [|x l IH]; intros upper H Hu; cbn; [lia|].
  set (u1 := if _ && (lower + 2 <? _) && _ then _ else upper).
  assert (lower < u1 <= upper) as Hu1.
  { unfold u1. destruct (_ =? _); cbn; [lia|].
    destruct (Z.ltb_spec (lower + 2) (get_upper x t)); cbn; [|lia].
    destruct (Z.ltb_spec (get_upper x t) upper); [|lia].
    specialize (Hb x). rewrite wrap64_small by lia. lia. }
  destruct (Z.ltb_spec (get_lower x t) u1), (Z.ltb_spec (lower + 1) (get_lower x t)); cbn;
    match goal with |- context [foldl ?f ?a l] => specialize (IH a ltac:(lia) ltac:(lia)) end;
    lia.
Qed.

Lemma cap_before_spec before lower t :
  wf t -> 0 < lower ->
  let t' := cap_before before lower t in
  wf t' /\
  (forall k, get_lower k t' = get_lower k t) /\ (forall k, get_state k t' = get_state k t) /\
  (forall k, has_entry t' k <-> has_entry t k) /\
  (forall k, get_upper k t' <= get_upper k t) /\
  (forall k, k ∉ before -> get_upper k t' = get_upper k t) /\
  (forall k, k ∈ before -> has_entry t k -> get_upper k t' < lower).
Proof.
  intros W Hl. unfold cap_before. rewrite (proj2 (Z.ltb_lt _ _) Hl).
  revert t W. induction before as [|x l IH]; intros t W; cbn.
  { split_and!; try done; set_solver. }
  destruct (Z.leb_spec lower (get_upper x t)) as [Hle|Hgt].
  - destruct (set_upper_spec x (lower - 1) t W) as (W1 & L1 & S1 & U1 & V1 & E1).
    destruct (IH _ W1) as (W2 & L2 & S2 & E2 & U2 & N2 & B2). cbn zeta in *.
    split_and!; try done.
    + intros k. by rewrite L2.
    + intros k. by rewrite S2.
    + intros k. by rewrite E2.
    + intros k. specialize (U2 k). destruct (decide (k = x)) as [->|Hk]; [|by rewrite U1 in U2].
      destruct (decide (has_entry t x)) as [He|He]; [rewrite V1 in U2 by done; lia|].
      etrans; [exact U2|]. assert (~ has_entry (set_upper x (lower - 1) t) x) as He' by (by rewrite E1).
      unfold get_upper, has_entry in *.
      destruct (kt_find x (set_upper x (lower - 1) t)); [destruct He'; eauto|].
      destruct (kt_find x t); [destruct He; eauto|]. done.
    + intros k [Hk1 Hk2]%not_elem_of_cons. rewrite N2 by done. by apply U1.
    + intros k [->|Hk]%elem_of_cons He; [|apply B2; [done|by apply E1]].
      specialize (U2 x). rewrite V1 in U2 by done. lia.
  - destruct (IH _ W) as (W2 & L2 & S2 & E2 & U2 & N2 & B2). cbn zeta in *. split_and!; try done.
    + intros k [Hk1 Hk2]%not_elem_of_cons. by apply N2.
    + intros k [->|Hk]%elem_of_cons He; [|by apply B2]. specialize (U2 x). lia.
Qed.

(** The bound that [lift_after] leaves. *)
Definition above (upper v : Z) : Prop := upper < v \/ upper = UINT64_MAX /\ v = UINT64_MAX.

Lemma lift_after_spec after upper t :
  wf t -> upper <= UINT64_MAX ->
  let t' := lift_after after upper t in
  wf t' /\
  (forall k, get_upper k t' = get_upper k t) /\ (forall k, get_state k t' = get_state k t) /\
  (forall k, has_entry t' k <-> has_entry t k) /\
  (forall k, k ∉ after -> get_lower k t' = get_lower k t) /\
  (forall k, has_entry t k -> above upper (get_lower k t) -> above upper (get_lower k t')) /\
  (forall k, k ∈ after -> has_entry t k -> above upper (get_lower k t')).
Proof.
  intros W Hu. unfold lift_after. set (v := if upper <? UINT64_MAX then upper + 1 else upper).
  assert (above upper v) as Hv.
  { unfold above, v. destruct (Z.ltb_spec upper UINT64_MAX); lia. }
  revert t W. induction after as [|x l IH]; intros t W; cbn.
  { split_and!; try done; set_solver. }
  destruct (Z.leb_spec (get_lower x t) upper) as [Hle|Hgt].
  - destruct (set_lower_spec x v t W) as (W1 & U1 & S1 & L1 & V1 & E1).
    destruct (IH _ W1) as (W2 & U2 & S2 & E2 & N2 & P2 & B2). cbn zeta in *.
    split_and!; try done.
    + intros k. by rewrite U2.
    + intros k. by rewrite S2.
    + intros k. by rewrite E2.
    + intros k [Hk1 Hk2]%not_elem_of_cons. rewrite N2 by done. by apply L1.
    + intros k He Ha. apply P2; [by apply E1|].
      destruct (decide (k = x)) as [->|Hk]; [by rewrite V1|by rewrite L1].
    + intros k [->|Hk]%elem_of_cons He; [|apply B2; [done|by apply E1]].
      apply P2; [by apply E1|]. by rewrite V1.
  - destruct (IH _ W) as (W2 & U2 & S2 & E2 & N2 & P2 & B2). cbn zeta in *. split_and!; try done.
    + intros k [Hk1 Hk2]%not_elem_of_cons. by apply N2.
    + intros k [->|Hk]%elem_of_cons He; [|by apply B2]. apply P2; [done|]. left. lia.
Qed.

Lemma running_has_entry t k : get_state k t = MAAT_RUNNING -> has_entry t k.
Proof using Type. unfold get_state, has_entry. destruct (kt_find k t); [by eexists|done]. Qed.

(** The outcome of a successful validation: the range of the transaction, and
    how it relates to the transactions it conflicts with. *)
Record validated (txn : MaatTxn) (t t' : T) (lower upper : Z) : Prop := {
  va_state : get_state (mt_id txn) t' = MAAT_VALIDATED;
  va_lower : get_lower (mt_id txn) t' = lower;
  va_upper : get_upper (mt_id txn) t' = upper;
  va_range : get_lower (mt_id txn) t <= lower < upper;
  va_shrink : upper <= get_upper (mt_id txn) t;
  va_gwt : greatest_write_timestamp txn < lower;
  va_grt : greatest_read_timestamp txn < lower;
  (** writers of rows it has read come after it *)
  va_writes : forall it, it ∈ uncommitted_writes txn -> it <> mt_id txn ->
    (decided (get_state it t) = true -> upper < get_lower it t') /\
    (get_state it t = MAAT_RUNNING -> above upper (get_lower it t'));
  (** readers of rows it writes come before it *)
  va_reads : forall it, it ∈ uncommitted_reads txn -> it <> mt_id txn ->
    decided (get_state it t) = true \/ get_state it t = MAAT_RUNNING -> get_upper it t' < lower;
  (** other writers of rows it writes: decided ones before, running after *)
  va_writes_y : forall it, it ∈ uncommitted_writes_y txn -> it <> mt_id txn ->
    (decided (get_state it t) = true -> get_upper it t' < lower) /\
    (get_state it t = MAAT_RUNNING -> above upper (get_lower it t'));
  (** decided transactions keep their range and every other state is kept *)
  va_frame : forall k, k <> mt_id txn -> get_state k t' = get_state k t /\
    (get_state k t <> MAAT_RUNNING -> get_lower k t' = get_lower k t /\
       get_upper k t' = get_upper k t);
}.

Lemma decided_not_running s : decided s = true -> s <> MAAT_RUNNING.
Proof using Type. by destruct s. Qed.

(** Raised bounds stay small. *)
Lemma raise_lower_small t before upper lower :
  (forall k, get_upper k t <= UINT64_MAX - 3 \/ get_upper k t = UINT64_MAX) ->
  lower <= UINT64_MAX - 2 -> raise_lower t before upper lower <= UINT64_MAX - 2.
Proof using Type.
  intros Hk. unfold raise_lower. revert lower.
  induction before as [|x l IH]; intros lower Hl2; cbn; [done|].
  apply IH. destruct (Z.ltb_spec (get_upper x t) (wrap64 (upper - 1)));
    rewrite ?andb_false_r; [|done].
  pose proof (wrap64_range (upper - 1)).
  destruct (lower <? get_upper x t); cbn; [|done]. destruct (Hk x); lia.
Qed.

(** The four loops together: the range shrinks but stays nonempty, the
    transactions in [before] end below it, those in [after] start above. *)
Lemma order_loops_spec t before after lower upper :
  wf t -> (forall k, get_upper k t <= UINT64_MAX - 3 \/ get_upper k t = UINT64_MAX) ->
  1 <= lower <= UINT64_MAX - 2 -> lower < upper <= UINT64_MAX ->
  let lower' := raise_lower t before upper lower in
  let t2 := cap_before before lower' t in
  let upper' := drop_upper t2 after lower' upper in
  let t3 := lift_after after upper' t2 in
  (lower <= lower' < upper' /\ upper' <= upper) /\ wf t3 /\
  (forall k, get_state k t3 = get_state k t) /\ (forall k, has_entry t3 k <-> has_entry t k) /\
  (forall k, get_upper k t3 <= get_upper k t) /\
  (forall k, k ∉ before -> get_upper k t3 = get_upper k t) /\
  (forall k, k ∈ before -> has_entry t k -> get_upper k t3 < lower') /\
  (forall k, k ∉ after -> get_lower k t3 = get_lower k t) /\
  (forall k, has_entry t k -> k ∈ after \/ above upper' (get_lower k t) ->
     above upper' (get_lower k t3)).
Proof.
  intros W Hk Hl Hu lower' t2 upper' t3.
  pose proof (raise_lower_spec t before upper lower ltac:(lia) ltac:(lia)) as Hrl.
  pose proof (raise_lower_small t before upper lower Hk ltac:(lia)) as Hl2'.
  fold lower' in Hrl, Hl2'.
  destruct (cap_before_spec before lower' t W ltac:(lia)) as (W2 & L2 & S2 & E2 & U2 & N2 & B2).
  fold t2 in W2, L2, S2, E2, U2, N2, B2.
  assert (forall k, get_upper k t2 <= UINT64_MAX) as Hu2.
  { intros k. etrans; [apply U2|]. destruct (Hk k); lia. }
  pose proof (drop_upper_spec t2 after lower' upper ltac:(lia) ltac:(lia) Hl2' Hu2) as Hdu.
  fold upper' in Hdu.
  destruct (lift_after_spec after upper' t2 W2 ltac:(lia)) as (W3 & U3 & S3 & E3 & N3 & P3 & B3).
  fold t3 in W3, U3, S3, E3, N3, P3, B3. split_and!; try lia; try done.
  - intros k. by rewrite S3, S2.
  - intros k. by rewrite E3, E2.
  - intros k. rewrite U3. apply U2.
  - intros k Hk'. rewrite U3. by apply N2.
  - intros k Hk' He. rewrite U3. by apply B2.
  - intros k Hk'. rewrite N3 by done. apply L2.
  - intros k He [Hin|Ha]; [apply B3; [done|by apply E2]|].
    apply P3; [by apply E2|]. by rewrite L2.
Qed.

(** The final writes of the transaction's own bounds. *)
Lemma store_bounds_spec me lower upper t :
  wf t -> has_entry t me ->
  let t' := set_upper me upper (set_lower me lower t) in
  wf t' /\ get_lower me t' = lower /\ get_upper me t' = upper /\
  (forall k, get_state k t' = get_state k t) /\
  (forall k, k <> me -> get_lower k t' = get_lower k t /\ get_upper k t' = get_upper k t).
Proof.
  intros W He. cbn zeta.
  destruct (set_lower_spec me lower t W) as (W4 & U4 & S4 & L4 & V4 & E4).
  destruct (set_upper_spec me upper _ W4) as (W5 & L5 & S5 & U5 & V5 & E5).
  split_and!.
  - done.
  - by rewrite L5, V4.
  - apply V5. by apply E4.
  - intros k. by rewrite S5, S4.
  - intros k Hk. by rewrite L5, L4, U5, U4.
Qed.

Lemma validate_abort_spec txn lower upper t :
  wf t -> has_entry t (mt_id txn) ->
  let t' := set_upper (mt_id txn) upper (set_lower (mt_id txn) lower
              (set_state (mt_id txn) MAAT_ABORTED t)) in
  wf t' /\ get_state (mt_id txn) t' = MAAT_ABORTED /\
  forall k, k <> mt_id txn -> get_state k t' = get_state k t /\
    get_lower k t' = get_lower k t /\ get_upper k t' = get_upper k t.
Proof.
  intros W He. destruct (set_state_spec (mt_id txn) MAAT_ABORTED t W) as (W1 & L1 & U1 & S1 & V1 & E1).
  destruct (store_bounds_spec (mt_id txn) lower upper _ W1) as (W2 & _ & _ & S2 & F2);
    [by apply E1|]. cbn zeta. split_and!; [done| |].
  - rewrite S2. by apply V1.
  - intros k Hk. destruct (F2 k Hk) as [-> ->]. by rewrite S2, S1, L1, U1.
Qed.

Lemma maat_validate_spec txn t :
  wf t -> bounds_ok t -> txn_ok txn t -> has_entry t (mt_id txn) ->
  exists rc t', validate txn t = Ok (rc, t') /\ wf t' /\
    ((rc = RCOK /\ exists lower upper, validated txn t t' lower upper) \/
     (rc = Abort /\ get_state (mt_id txn) t' = MAAT_ABORTED /\
      forall k, k <> mt_id txn -> get_state k t' = get_state k t /\
        get_lower k t' = get_lower k t /\ get_upper k t' = get_upper k t)).
Proof.
  intros W Hb Htx He. unfold validate.
  destruct (scan txn t) as [[[lower upper] before] after] eqn:Es.
  apply scan_spec in Es as [Slow Sup Sstart Sgwt Sgrt Sw Sr Sb Sa Say Srun]; [|done|done].
  destruct (Hb (mt_id txn)) as [Hbl Hbu].
  destruct (Z.leb_spec upper lower) as [Hle|Hlt].
  { destruct (validate_abort_spec txn lower upper t W He) as (W' & S' & F').
    do 2 eexists. split; [done|]. split; [done|]. by right. }
  assert (1 <= lower <= UINT64_MAX - 2) as Hl by (unfold low_ok in Slow; lia).
  destruct (set_state_spec (mt_id txn) MAAT_VALIDATED t W) as (W1 & L1 & U1 & S1 & V1 & E1).
  set (t1 := set_state (mt_id txn) MAAT_VALIDATED t) in *.
  destruct (order_loops_spec t1 before after lower upper W1)
    as (Hr & W3 & S3 & E3 & Ule & N3 & B3 & NL3 & A3);
    [intros k; rewrite U1; destruct (Hb k); lia|done|lia|]. cbn zeta.
  set (lower' := raise_lower t1 before upper lower) in *.
  set (t2 := cap_before before lower' t1) in *.
  set (upper' := drop_upper t2 after lower' upper) in *.
  set (t3 := lift_after after upper' t2) in *.
  rewrite (proj2 (Z.ltb_lt lower' upper')) by lia. cbn [assert_ mbind res_bind].
  destruct (store_bounds_spec (mt_id txn) lower' upper' t3 W3) as (W5 & L5 & U5 & S5 & F5);
    [by rewrite E3, E1|].
  do 2 eexists. split; [done|]. split; [done|]. left. split; [done|]. exists lower', upper'.
  assert (forall it, get_state it t = MAAT_RUNNING -> has_entry t1 it) as Hent.
  { intros it Hit. rewrite E1. by apply running_has_entry. }
  split; try done; try lia.
  - rewrite S5, S3. by apply V1.
  - intros it Hit Hne. destruct (F5 it Hne) as [-> _]. split.
    + intros Hd. rewrite NL3, L1; [specialize (Sw it Hit Hd ltac:(lia)); lia|].
      intros Hin. apply (decided_not_running _ Hd), Srun. by right.
    + intros Hrun. apply A3; [by apply Hent|].
      destruct (Sa it Hit Hrun); [by left|]. right. left. rewrite L1. lia.
  - intros it Hit Hne Hst. destruct (F5 it Hne) as [_ ->].
    pose proof (Ule it) as Hule. rewrite U1 in Hule. destruct Hst as [Hd|Hrun].
    + specialize (Sr it ltac:(by left) Hd ltac:(lia)). lia.
    + destruct (Sb it Hit Hrun) as [Hin|Hup]; [|lia]. by apply B3; [|apply Hent].
  - intros it Hit Hne. destruct (F5 it Hne) as [-> ->]. split.
    + intros Hd. pose proof (Ule it) as Hule. rewrite U1 in Hule.
      specialize (Sr it ltac:(by right) Hd ltac:(lia)). lia.
    + intros Hrun. apply A3; [by apply Hent|]. left. by apply Say.
  - intros k Hk. rewrite S5, S3, S1 by done. split; [done|]. intros Hnr.
    destruct (F5 k Hk) as [-> ->]. rewrite NL3, L1, N3, U1; [done| |].
    + intros Hin. apply Hnr, Srun. by left.
    + intros Hin. apply Hnr, Srun. by right.
Qed.

(** [find_bound] after a successful validation. *)
Lemma find_bound_spec txn t t' lower upper :
  wf t' -> validated txn t t' lower upper ->
  exists txn' t'', find_bound txn t' = (RCOK, txn', t'') /\ wf t'' /\
    commit_timestamp txn' = lower /\ get_state (mt_id txn) t'' = MAAT_COMMITTED /\
    (forall k, get_lower k t'' = get_lower k t' /\ get_upper k t'' = get_upper k t').
Proof.
  intros W []. unfold find_bound. rewrite va_lower0, va_upper0.
  rewrite (proj2 (Z.leb_gt _ _)) by lia. do 2 eexists. split; [done|].
  destruct (set_state_spec (mt_id txn) MAAT_COMMITTED t' W) as (W1 & L1 & U1 & S1 & V1 & E1).
  split_and!; [done|done| |intros k; by rewrite L1, U1].
  apply V1. unfold get_state in va_state0. unfold has_entry.
  destruct (kt_find (mt_id txn) t'); [by eexists|done].
Qed.

End Order.

(** ** Properties *)

(** C22. MaaT validation.  For a time table whose bounds leave room for the
    additions of the code, [validate] fails no assertion.  If it returns RCOK
    the transaction is validated with a nonempty range inside its old one,
    above the timestamps of the committed versions it read and overwrites,
    and ordered against every conflicting transaction: writers of rows it
    read start above its range (validated or committed ones strictly; running
    ones are pushed there), readers of rows it writes end below its range,
    validated writers of rows it writes end below it and running ones are
    pushed above; transactions that are not running keep their range.  If it
    returns Abort the transaction is marked aborted and no other entry
    changes. *)
Theorem maat_validate_correct (txn : MaatTxn) (t : HashTable TimeTableEntry) :
  ht_wf t -> bounds_ok t -> txn_ok txn t -> has_entry t (mt_id txn) ->
  exists rc t', validate txn t = Ok (rc, t') /\ ht_wf t' /\
    ((rc = RCOK /\ exists lower upper, validated txn t t' lower upper) \/
     (rc = Abort /\ get_state (mt_id txn) t' = MAAT_ABORTED /\
      forall k, k <> mt_id txn -> get_state k t' = get_state k t /\
        get_lower k t' = get_lower k t /\ get_upper k t' = get_upper k t)).
Proof. apply (maat_validate_spec ht_wf). Qed.

(** The commit timestamp.  When [find_bound] follows a successful
    [validate] it commits the transaction at the lower end of its range: the
    timestamp exceeds those of the committed versions it read and overwrites,
    is below the range of every validated or committed writer of a row it
    read, and above the range of every validated or committed reader or
    writer of a row it writes. *)
Theorem maat_commit_timestamp (txn : MaatTxn) (t t' : HashTable TimeTableEntry) :
  ht_wf t -> bounds_ok t -> txn_ok txn t -> has_entry t (mt_id txn) ->
  validate txn t = Ok (RCOK, t') ->
  exists txn' t'', find_bound txn t' = (RCOK, txn', t'') /\
    get_state (mt_id txn) t'' = MAAT_COMMITTED /\
    let cts := commit_timestamp txn' in
    get_lower (mt_id txn) t'' <= cts < get_upper (mt_id txn) t'' /\
    greatest_write_timestamp txn < cts /\ greatest_read_timestamp txn < cts /\
    (forall it, it <> mt_id txn -> decided (get_state it t) = true ->
       (it ∈ uncommitted_writes txn -> cts < get_lower it t'') /\
       (it ∈ uncommitted_reads txn -> get_upper it t'' < cts) /\
       (it ∈ uncommitted_writes_y txn -> get_upper it t'' < cts)).
Proof.
  intros W Hb Htx He E.
  destruct (maat_validate_spec ht_wf txn t W Hb Htx He) as (rc & t1 & E' & W1 & Hout).
  rewrite E in E'. injection E' as <- <-.
  destruct Hout as [(_ & lower & upper & Hv)|[? _]]; [|done].
  destruct (find_bound_spec ht_wf txn t t' lower upper W1 Hv)
    as (txn' & t'' & E2 & _ & Hc & Hst & Hsame).
  exists txn', t''. split_and!; [done|done|]. cbn zeta. rewrite Hc. destruct Hv.
  destruct (Hsame (mt_id txn)) as [-> ->]. split_and!; try lia.
  intros it Hne Hd. destruct (Hsame it) as [-> ->]. split_and!.
  - intros Hit. destruct (va_writes0 it Hit Hne) as [H _]. specialize (H Hd). lia.
  - intros Hit. apply (va_reads0 it Hit Hne). by left.
  - intros Hit. by apply (va_writes_y0 it Hit Hne).
Qed.

(** *** Witnesses *)

(** Transaction 1 has read a row that 2 (validated from 50) is writing and
    writes rows that 3 (running) has read. *)
Definition ex_time_table : HashTable TimeTableEntry :=
  [[]; [mkTT 0 UINT64_MAX 1 MAAT_RUNNING]; [mkTT 50 90 2 MAAT_VALIDATED];
   [mkTT 0 UINT64_MAX 3 MAAT_RUNNING]; []].
Definition ex_maat_txn : MaatTxn := mkMaatTxn 1 [3] [2] [] 10 20 0.

Lemma ex_time_table_wf : ht_wf ex_time_table.
Proof.
  split; [done|]. repeat constructor; cbn; try set_solver; repeat constructor; set_solver.
Qed.

Lemma ex_time_table_find k :
  ht_find k ex_time_table = None \/ ht_find k ex_time_table = Some (mkTT 0 UINT64_MAX 1 MAAT_RUNNING)
  \/ ht_find k ex_time_table = Some (mkTT 50 90 2 MAAT_VALIDATED)
  \/ ht_find k ex_time_table = Some (mkTT 0 UINT64_MAX 3 MAAT_RUNNING).
Proof.
  unfold ht_find, bucket. pose proof (hash_lt ex_time_table k ltac:(done)) as Hh.
  destruct (hash ex_time_table k) as [|[|[|[|[|n]]]]]; cbn -[Z.eqb] in Hh |- *;
    try lia; auto; match goal with |- context [?a =? k] => destruct (a =? k) end; auto.
Qed.

Lemma ex_time_table_bounds : bounds_ok ex_time_table.
Proof.
  intros k. unfold get_lower, get_upper. cbn [kt_find HashTable_KeyTable].
  destruct (ex_time_table_find k) as [->|[->|[->| ->]]]; cbn; unfold UINT64_MAX; lia.
Qed.

Lemma ex_maat_txn_ok : txn_ok ex_maat_txn ex_time_table.
Proof. split_and!; vm_compute; discriminate. Qed.

Lemma maat_validate_correct_witness :
  exists rc t', validate ex_maat_txn ex_time_table = Ok (rc, t') /\ rc = RCOK /\
    get_lower 1 t' = 21 /\ get_upper 1 t' = 49 /\ get_upper 3 t' = 20.
Proof.
  destruct (maat_validate_correct ex_maat_txn ex_time_table)
    as (rc & t' & E & _ & _); [exact ex_time_table_wf|exact ex_time_table_bounds|
      exact ex_maat_txn_ok|by eexists|].
  exists rc, t'. vm_compute in E. injection E as <- <-. done.
Defined.

Lemma maat_commit_timestamp_witness :
  exists txn' t' t'', validate ex_maat_txn ex_time_table = Ok (RCOK, t') /\
    find_bound ex_maat_txn t' = (RCOK, txn', t'') /\ commit_timestamp txn' < get_lower 2 t''.
Proof.
  destruct (validate ex_maat_txn ex_time_table) as [[rc t']|] eqn:E; [|vm_compute in E; discriminate].
  assert (rc = RCOK) as -> by (vm_compute in E; congruence).
  destruct (maat_commit_timestamp ex_maat_txn ex_time_table t')
    as (txn' & t'' & E2 & _ & _ & _ & _ & H); [exact ex_time_table_wf|exact ex_time_table_bounds|
      exact ex_maat_txn_ok|by eexists|exact E|].
  exists txn', t', t''. split_and!; [reflexivity|exact E2|].
  apply (H 2); [done|reflexivity|by left].
Defined.
