(* ===== verification/RowMaat.v ===== *)
(** * Row_maat: the MaaT row manager

    Model of concurrency_control/row_maat.cpp.  Every operation spins on
    [maat_avail] and is one step.  [tpcc] stands for WORKLOAD == TPCC, which
    selects between two bodies at compile time.  The operations also update
    the MaaT fields of the calling transaction ([MaatTxn]) and, in commit,
    the time table. *)

From stdpp Require Import gmap list sorting relations.
From S2P Require Import Prelude StdSet KeyTable Maat.
#[local] Open Scope Z_scope.

Record Row_maat (D : Type) := mkRowMaat {
  row_base : D;
  row_reads : list Z;
  row_writes : list Z;
  timestamp_last_read : Z;
  timestamp_last_write : Z;
}.
Arguments mkRowMaat {D} _ _ _ _ _.
Arguments row_base {D} _.
Arguments row_reads {D} _.
Arguments row_writes {D} _.
Arguments timestamp_last_read {D} _.
Arguments timestamp_last_write {D} _.

(** [if (a < b) a = b;] *)
Definition raise_to (a b : Z) : Z := if a <? b then b else a.

Section RowMaat.
Context {D : Type}.
Implicit Types (r : Row_maat D) (tx : MaatTxn).

Definition init (row : D) : Row_maat D := mkRowMaat row [] [] 0 0.

(** Read: copy the uncommitted writers and the write timestamp, then take the
    soft read lock. *)
Definition read (tx : MaatTxn) (r : Row_maat D) : MaatTxn * Row_maat D :=
  (mkMaatTxn (mt_id tx) (uncommitted_reads tx)
     (set_insert_all (row_writes r) (uncommitted_writes tx)) (uncommitted_writes_y tx)
     (raise_to (greatest_write_timestamp tx) (timestamp_last_write r))
     (greatest_read_timestamp tx) (commit_timestamp tx),
   mkRowMaat (row_base r) (set_insert (mt_id tx) (row_reads r)) (row_writes r)
     (timestamp_last_read r) (timestamp_last_write r)).

Definition prewrite (tx : MaatTxn) (r : Row_maat D) : MaatTxn * Row_maat D :=
  (mkMaatTxn (mt_id tx) (set_insert_all (row_reads r) (uncommitted_reads tx))
     (uncommitted_writes tx) (set_insert_all (row_writes r) (uncommitted_writes_y tx))
     (raise_to (greatest_write_timestamp tx) (timestamp_last_write r))
     (raise_to (greatest_read_timestamp tx) (timestamp_last_read r)) (commit_timestamp tx),
   mkRowMaat (row_base r) (row_reads r) (set_insert (mt_id tx) (row_writes r))
     (timestamp_last_read r) (timestamp_last_write r)).

Definition read_and_prewrite (tx : MaatTxn) (r : Row_maat D) : MaatTxn * Row_maat D :=
  (mkMaatTxn (mt_id tx) (set_insert_all (row_reads r) (uncommitted_reads tx))
     (set_insert_all (row_writes r) (uncommitted_writes tx))
     (set_insert_all (row_writes r) (uncommitted_writes_y tx))
     (raise_to (greatest_write_timestamp tx) (timestamp_last_write r))
     (raise_to (greatest_read_timestamp tx) (timestamp_last_read r)) (commit_timestamp tx),
   mkRowMaat (row_base r) (set_insert (mt_id tx) (row_reads r))
     (set_insert (mt_id tx) (row_writes r)) (timestamp_last_read r) (timestamp_last_write r)).

Definition access (tpcc : bool) (type : access_t) (tx : MaatTxn) (r : Row_maat D)
    : MaatTxn * Row_maat D :=
  if tpcc then read_and_prewrite tx r
  else match type with
       | RD => read tx r
       | WR => prewrite tx r
       | _ => (tx, r)
       end.

Definition abort (tpcc : bool) (type : access_t) (tx : MaatTxn) (r : Row_maat D) : Row_maat D :=
  mkRowMaat (row_base r)
    (if tpcc || bool_decide (type = RD) then set_erase (mt_id tx) (row_reads r) else row_reads r)
    (if tpcc || bool_decide (type = WR) then set_erase (mt_id tx) (row_writes r) else row_writes r)
    (timestamp_last_read r) (timestamp_last_write r).

Context {T : Type} `{!KeyTable T TimeTableEntry}.

(** Forward validation: transactions unknown to the committer are pushed
    above [cts]. *)
Definition push_above (known : list Z) (cts : Z) (l : list Z) (t : T) : T :=
  foldl (fun t it =>
    if set_mem it known then t
    else if get_lower it t <=? cts then set_lower it (wrap64 (cts + 1)) t else t) t l.

(** ... or capped below [bound]. *)
Definition push_below (known : list Z) (bound : Z) (l : list Z) (t : T) : T :=
  foldl (fun t it =>
    if set_mem it known then t
    else if bound <=? get_upper it t then set_upper it (wrap64 (bound - 1)) t else t) t l.

(** The RD part of [commit]. *)
Definition commit_read (tx : MaatTxn) (r : Row_maat D) : Row_maat D :=
  mkRowMaat (row_base r) (set_erase (mt_id tx) (row_reads r)) (row_writes r)
    (raise_to (timestamp_last_read r) (commit_timestamp tx)) (timestamp_last_write r).

(** The WR part; [write(data)] copies the data into the row. *)
Definition commit_write (tx : MaatTxn) (data : D) (r : Row_maat D) : Row_maat D :=
  mkRowMaat data (row_reads r) (set_erase (mt_id tx) (row_writes r))
    (timestamp_last_read r) (raise_to (timestamp_last_write r) (commit_timestamp tx)).

(** Forward validation of the WR part; the two loops use different bounds. *)
Definition push_writers (tx : MaatTxn) (r : Row_maat D) (t : T) : T :=
  let lower := get_lower (mt_id tx) t in
  push_below (uncommitted_reads tx) lower (row_reads r)
    (push_below (uncommitted_writes_y tx) (commit_timestamp tx) (row_writes r) t).

Definition commit (tpcc : bool) (type : access_t) (tx : MaatTxn) (data : D) (r : Row_maat D)
    (t : T) : Row_maat D * T :=
  if tpcc then
    let r1 := commit_write tx data (commit_read tx r) in
    (r1, push_writers tx r1 (push_above (uncommitted_writes tx) (commit_timestamp tx) (row_writes r1) t))
  else match type with
       | RD => let r1 := commit_read tx r in
               (r1, push_above (uncommitted_writes tx) (commit_timestamp tx) (row_writes r1) t)
       | WR => let r1 := commit_write tx data r in (r1, push_writers tx r1 t)
       | _ => (r, t)
       end.
End RowMaat.

(** ** Forward validation *)

Section Forward.
Context {T : Type} `{!KeyTable T TimeTableEntry} (wf : T -> Prop)
  `{!KeyTableLaws T TimeTableEntry wf}.
Implicit Types (t : T).

Lemma set_mem_false x s : set_mem x s = false <-> x ∉ s.
Proof using Type. rewrite <- set_mem_spec. by destruct (set_mem x s). Qed.

Lemma push_above_spec known cts l t :
  wf t -> 0 <= cts < UINT64_MAX ->
  let t' := push_above known cts l t in
  wf t' /\ (forall k, get_upper k t' = get_upper k t) /\
  (forall k, get_state k t' = get_state k t) /\ (forall k, has_entry t' k <-> has_entry t k) /\
  (forall k, k ∉ l \/ k ∈ known -> get_lower k t' = get_lower k t) /\
  (forall k, has_entry t k -> cts < get_lower k t -> cts < get_lower k t') /\
  (forall k, k ∈ l -> k ∉ known -> has_entry t k -> cts < get_lower k t').
Proof.
  intros W Hc. unfold push_above. rewrite (wrap64_small (cts + 1)) by lia.
  revert t W. induction l as [|x l IH]; intros t W; cbn.
  { split_and!; try done; set_solver. }
  destruct (set_mem x known) eqn:Em.
  - apply set_mem_spec in Em. destruct (IH t W) as (W2 & U2 & S2 & E2 & N2 & P2 & B2).
    cbn zeta in *. split_and!; try done.
    + intros k [Hk|Hk]; apply N2; [left; set_solver|by right].
    + intros k [->|Hk]%elem_of_cons Hnk He; [done|by apply B2].
  - apply set_mem_false in Em. destruct (Z.leb_spec (get_lower x t) cts) as [Hle|Hgt].
    + destruct (set_lower_spec wf x (cts + 1) t W) as (W1 & U1 & S1 & L1 & V1 & E1).
      destruct (IH _ W1) as (W2 & U2 & S2 & E2 & N2 & P2 & B2). cbn zeta in *. split_and!.
      * done.
      * intros k. by rewrite U2.
      * intros k. by rewrite S2.
      * intros k. by rewrite E2.
      * intros k Hk. rewrite N2 by set_solver. apply L1. set_solver.
      * intros k He Ha. apply P2; [by apply E1|].
        destruct (decide (k = x)) as [->|Hk]; [rewrite V1 by done; lia|by rewrite L1].
      * intros k [->|Hk]%elem_of_cons Hnk He; [|apply B2; [done|done|by apply E1]].
        apply P2; [by apply E1|]. rewrite V1 by done. lia.
    + destruct (IH t W) as (W2 & U2 & S2 & E2 & N2 & P2 & B2). cbn zeta in *. split_and!; try done.
      * intros k Hk. apply N2. set_solver.
      * intros k [->|Hk]%elem_of_cons Hnk He; [by apply P2|by apply B2].
Qed.

Lemma push_below_spec known bound l t :
  wf t -> 0 < bound <= UINT64_MAX ->
  let t' := push_below known bound l t in
  wf t' /\ (forall k, get_lower k t' = get_lower k t) /\
  (forall k, get_state k t' = get_state k t) /\ (forall k, has_entry t' k <-> has_entry t k) /\
  (forall k, k ∉ l \/ k ∈ known -> get_upper k t' = get_upper k t) /\
  (forall k, has_entry t k -> get_upper k t' <= get_upper k t) /\
  (forall k, k ∈ l -> k ∉ known -> has_entry t k -> get_upper k t' < bound).
Proof.
  intros W Hc. unfold push_below. rewrite (wrap64_small (bound - 1)) by lia.
  revert t W. induction l as [|x l IH]; intros t W; cbn.
  { split_and!; try done; set_solver. }
  destruct (set_mem x known) eqn:Em.
  - apply set_mem_spec in Em. destruct (IH t W) as (W2 & L2 & S2 & E2 & N2 & P2 & B2).
    cbn zeta in *. split_and!; try done.
    + intros k [Hk|Hk]; apply N2; [left; set_solver|by right].
    + intros k [->|Hk]%elem_of_cons Hnk He; [done|by apply B2].
  - apply set_mem_false in Em. destruct (Z.leb_spec bound (get_upper x t)) as [Hle|Hgt].
    + destruct (set_upper_spec wf x (bound - 1) t W) as (W1 & L1 & S1 & U1 & V1 & E1).
      destruct (IH _ W1) as (W2 & L2 & S2 & E2 & N2 & P2 & B2). cbn zeta in *. split_and!.
      * done.
      * intros k. by rewrite L2.
      * intros k. by rewrite S2.
      * intros k. by rewrite E2.
      * intros k Hk. rewrite N2 by set_solver. apply U1. set_solver.
      * intros k He. etrans; [by apply P2, E1|].
        destruct (decide (k = x)) as [->|Hk]; [rewrite V1 by done; lia|by rewrite U1].
      * intros k [->|Hk]%elem_of_cons Hnk He; [|apply B2; [done|done|by apply E1]].
        apply Z.le_lt_trans with (get_upper x (set_upper x (bound - 1) t)); [by apply P2, E1|].
        rewrite V1 by done. lia.
    + destruct (IH t W) as (W2 & L2 & S2 & E2 & N2 & P2 & B2). cbn zeta in *. split_and!; try done.
      * intros k Hk. apply N2. set_solver.
      * intros k [->|Hk]%elem_of_cons Hnk He; [|by apply B2].
        apply Z.le_lt_trans with (get_upper x t); [by apply P2|done].
Qed.

End Forward.

(** ** Conflicts between transactions on a row

    A row with the MaaT fields of the transactions, by transaction id.  The
    last two steps are what happens elsewhere: a transaction starts with empty
    sets, and accesses to other rows enlarge its sets. *)

Section Conflicts.
Context {D : Type} (tpcc : bool).
Context {T : Type} `{!KeyTable T TimeTableEntry}.

Definition MState : Type := Row_maat D * gmap Z MaatTxn.

Definition grows (tx tx' : MaatTxn) : Prop :=
  mt_id tx' = mt_id tx /\
  (forall k, k ∈ uncommitted_reads tx -> k ∈ uncommitted_reads tx') /\
  (forall k, k ∈ uncommitted_writes tx -> k ∈ uncommitted_writes tx') /\
  (forall k, k ∈ uncommitted_writes_y tx -> k ∈ uncommitted_writes_y tx').

Inductive m_step : MState -> MState -> Prop :=
| m_access r M type tx tx' r' :
    M !! mt_id tx = Some tx -> access tpcc type tx r = (tx', r') ->
    m_step (r, M) (r', <[mt_id tx := tx']> M)
| m_abort r M type tx :
    M !! mt_id tx = Some tx -> m_step (r, M) (abort tpcc type tx r, M)
| m_commit r M type tx data (t t' : T) r' :
    M !! mt_id tx = Some tx -> commit tpcc type tx data r t = (r', t') -> m_step (r, M) (r', M)
| m_elsewhere r M tx tx' :
    M !! mt_id tx = Some tx -> grows tx tx' -> m_step (r, M) (r, <[mt_id tx := tx']> M)
| m_start r M id :
    id ∉ row_reads r -> id ∉ row_writes r ->
    m_step (r, M) (r, <[id := mkMaatTxn id [] [] [] 0 0 0]> M).

(** Who is known to the transaction [id]. *)
Definition ur (M : gmap Z MaatTxn) (id : Z) : list Z :=
  match M !! id with Some tx => uncommitted_reads tx | None => [] end.
Definition uw (M : gmap Z MaatTxn) (id : Z) : list Z :=
  match M !! id with Some tx => uncommitted_writes tx | None => [] end.
Definition uwy (M : gmap Z MaatTxn) (id : Z) : list Z :=
  match M !! id with Some tx => uncommitted_writes_y tx | None => [] end.

Record conflicts_inv (s : MState) : Prop := {
  ci_sets : is_set (row_reads (fst s)) /\ is_set (row_writes (fst s));
  ci_rw : forall a b, a ∈ row_reads (fst s) -> b ∈ row_writes (fst s) -> a <> b ->
    b ∈ uw (snd s) a \/ a ∈ ur (snd s) b;
  ci_ww : forall a b, a ∈ row_writes (fst s) -> b ∈ row_writes (fst s) -> a <> b ->
    b ∈ uwy (snd s) a \/ a ∈ uwy (snd s) b;
}.

(** Rows that lose lock holders and transactions that learn more. *)
Lemma conflicts_inv_mono r M r' M' :
  conflicts_inv (r, M) -> is_set (row_reads r') -> is_set (row_writes r') ->
  (forall k, k ∈ row_reads r' -> k ∈ row_reads r) ->
  (forall k, k ∈ row_writes r' -> k ∈ row_writes r) ->
  (forall k x, k ∈ row_reads r \/ k ∈ row_writes r ->
     (x ∈ ur M k -> x ∈ ur M' k) /\ (x ∈ uw M k -> x ∈ uw M' k) /\
     (x ∈ uwy M k -> x ∈ uwy M' k)) ->
  conflicts_inv (r', M').
Proof.
  intros [_ Hrw Hww] Hs1 Hs2 Hr Hw Hk. cbn in *. split; cbn; [done|..].
  - intros a b Ha%Hr Hb%Hw Hne. destruct (Hrw a b Ha Hb Hne); [left|right]; apply Hk; auto.
  - intros a b Ha%Hw Hb%Hw Hne. destruct (Hww a b Ha Hb Hne); [left|right]; apply Hk; auto.
Qed.

Lemma insert_grows M tx tx' k x :
  M !! mt_id tx = Some tx -> grows tx tx' ->
  (x ∈ ur M k -> x ∈ ur (<[mt_id tx := tx']> M) k) /\
  (x ∈ uw M k -> x ∈ uw (<[mt_id tx := tx']> M) k) /\
  (x ∈ uwy M k -> x ∈ uwy (<[mt_id tx := tx']> M) k).
Proof.
  intros HM (_ & H1 & H2 & H3). unfold ur, uw, uwy.
  destruct (decide (mt_id tx = k)) as [<-|Hne].
  - rewrite lookup_insert_eq, HM. auto.
  - by rewrite lookup_insert_ne.
Qed.

Lemma access_effect type tx tx' (r r' : Row_maat D) :
  access tpcc type tx r = (tx', r') ->
  grows tx tx' /\
  (row_reads r' = row_reads r \/
   row_reads r' = set_insert (mt_id tx) (row_reads r) /\
   (forall k, k ∈ row_writes r -> k ∈ uncommitted_writes tx')) /\
  (row_writes r' = row_writes r \/
   row_writes r' = set_insert (mt_id tx) (row_writes r) /\
   (forall k, k ∈ row_reads r -> k ∈ uncommitted_reads tx') /\
   (forall k, k ∈ row_writes r -> k ∈ uncommitted_writes_y tx')).
Proof.
  unfold access. destruct tpcc; [|destruct type]; intros [= <- <-]; unfold grows; cbn;
    setoid_rewrite elem_of_set_insert_all || idtac; split_and!; auto 10.
Qed.

Lemma access_step_inv type tx tx' (r r' : Row_maat D) M :
  M !! mt_id tx = Some tx -> access tpcc type tx r = (tx', r') ->
  conflicts_inv (r, M) -> conflicts_inv (r', <[mt_id tx := tx']> M).
Proof.
  intros HM E Hi. destruct (access_effect _ _ _ _ _ E) as (Hg & Hr & Hw).
  assert (conflicts_inv (r, <[mt_id tx := tx']> M)) as [[Hs1 Hs2] Hrw Hww].
  { eapply conflicts_inv_mono; [exact Hi|apply Hi|apply Hi|done|done|].
    intros k x _. by apply insert_grows. }
  cbn in *.
  assert (uw (<[mt_id tx:=tx']> M) (mt_id tx) = uncommitted_writes tx' /\
          ur (<[mt_id tx:=tx']> M) (mt_id tx) = uncommitted_reads tx' /\
          uwy (<[mt_id tx:=tx']> M) (mt_id tx) = uncommitted_writes_y tx') as (E1 & E2 & E3)
    by (unfold uw, ur, uwy; by rewrite lookup_insert_eq).
  split; cbn.
  - split; [destruct Hr as [->|[-> _]]|destruct Hw as [->|[-> _]]]; auto with promi.
  - intros a b Ha Hb Hne.
    assert (a ∈ row_reads r \/ a = mt_id tx /\ forall k, k ∈ row_writes r -> k ∈ uncommitted_writes tx')
      as Ha'. { destruct Hr as [Er|[Er ?]]; rewrite Er in Ha; [by left|].
      apply elem_of_set_insert in Ha as [->|?]; auto. }
    assert (b ∈ row_writes r \/ b = mt_id tx /\ forall k, k ∈ row_reads r -> k ∈ uncommitted_reads tx')
      as Hb'. { destruct Hw as [Ew|(Ew & ? & _)]; rewrite Ew in Hb; [by left|].
      apply elem_of_set_insert in Hb as [->|?]; auto. }
    destruct Ha' as [Ha'|[-> Hk]], Hb' as [Hb'|[-> Hk']]; [by apply Hrw| | |done].
    + right. rewrite E2. auto.
    + left. rewrite E1. auto.
  - intros a b Ha Hb Hne.
    assert (forall c, c ∈ row_writes r' -> c ∈ row_writes r \/
      c = mt_id tx /\ forall k, k ∈ row_writes r -> k ∈ uncommitted_writes_y tx') as Hc.
    { intros c Hc. destruct Hw as [Ew|(Ew & _ & ?)]; rewrite Ew in Hc; [by left|].
      apply elem_of_set_insert in Hc as [->|?]; auto. }
    destruct (Hc a Ha) as [Ha'|[-> Hk]], (Hc b Hb) as [Hb'|[-> Hk']]; [by apply Hww| | |done].
    + right. rewrite E3. auto.
    + left. rewrite E3. auto.
Qed.

Lemma m_step_inv s s' : conflicts_inv s -> m_step s s' -> conflicts_inv s'.
Proof.
  intros Hi St. destruct St as [r M type tx tx' r' HM E|r M type tx HM
    |r M type tx data t t' r' HM E|r M tx tx' HM Hg|r M id Hr Hw].
  - by eapply access_step_inv.
  - destruct (ci_sets _ Hi) as [Hs1 Hs2]. cbn in *.
    eapply conflicts_inv_mono; [exact Hi|..]; cbn; auto.
    + destruct (_ || _); auto with promi.
    + destruct (_ || _); auto with promi.
    + intros k. destruct (_ || _); [rewrite elem_of_set_erase by done; tauto|done].
    + intros k. destruct (_ || _); [rewrite elem_of_set_erase by done; tauto|done].
  - destruct (ci_sets _ Hi) as [Hs1 Hs2]. cbn in *.
    unfold commit in E. destruct tpcc; [|destruct type]; injection E as <- <-;
      (eapply conflicts_inv_mono; [exact Hi|..]); cbn; auto with promi;
      intros k; rewrite elem_of_set_erase by done; tauto.
  - eapply conflicts_inv_mono; [exact Hi|apply Hi|apply Hi|done|done|].
    intros k x _. by apply insert_grows.
  - eapply conflicts_inv_mono; [exact Hi|apply Hi|apply Hi|done|done|].
    intros k x Hk. unfold ur, uw, uwy. rewrite lookup_insert_ne; [done|]. naive_solver.
Qed.

End Conflicts.

(** ** Properties *)

(** Every conflict on a row is known to one side.  Whatever transactions
    have done on a row (both workload variants), a transaction that holds the
    soft read lock and another one that holds the soft write lock know of
    each other: the writer is in the reader's set of uncommitted writes, or
    the reader is in the writer's set of uncommitted reads.  Two holders of
    the soft write lock likewise. *)
Theorem maat_conflicts_known (D : Type) (tpcc : bool) (row0 : D) (r : Row_maat D)
    (M : gmap Z MaatTxn) :
  rtc (m_step tpcc (T := HashTable TimeTableEntry)) (init row0, ∅) (r, M) ->
  (forall a b, a ∈ row_reads r -> b ∈ row_writes r -> a <> b -> b ∈ uw M a \/ a ∈ ur M b) /\
  (forall a b, a ∈ row_writes r -> b ∈ row_writes r -> a <> b -> b ∈ uwy M a \/ a ∈ uwy M b).
Proof.
  intros R. assert (conflicts_inv (r, M)) as [_ H1 H2].
  { eapply rtc_invariant; [|intros a b; apply m_step_inv|exact R].
    split; cbn; [by auto with promi|set_solver..]. }
  by split.
Qed.

(** Forward validation at commit (workloads other than TPCC).  A
    committing reader gives up its soft lock, raises the row's read timestamp
    and pushes above its commit timestamp every writer it did not know.  A
    committing writer installs its data, raises the write timestamp, caps
    below its commit timestamp the writers it did not know and below its lower
    bound the readers it did not know.  No other bound and no state changes. *)
Theorem maat_commit_forward (D : Type) (tx : MaatTxn) (data : D) (r : Row_maat D)
    (t : HashTable TimeTableEntry) :
  ht_wf t -> is_set (row_reads r) -> is_set (row_writes r) ->
  0 < commit_timestamp tx < UINT64_MAX -> 0 < get_lower (mt_id tx) t <= UINT64_MAX ->
  (let '(r', t') := commit false RD tx data r t in
   (mt_id tx ∉ row_reads r') /\ row_base r' = row_base r /\
   timestamp_last_read r' = Z.max (timestamp_last_read r) (commit_timestamp tx) /\
   (forall w, w ∈ row_writes r -> w ∉ uncommitted_writes tx -> has_entry t w ->
      commit_timestamp tx < get_lower w t') /\
   (forall k, get_upper k t' = get_upper k t /\ get_state k t' = get_state k t) /\
   (forall k, k ∉ row_writes r \/ k ∈ uncommitted_writes tx -> get_lower k t' = get_lower k t)) /\
  (let '(r', t') := commit false WR tx data r t in
   (mt_id tx ∉ row_writes r') /\ row_base r' = data /\
   timestamp_last_write r' = Z.max (timestamp_last_write r) (commit_timestamp tx) /\
   (forall w, w ∈ row_writes r -> w <> mt_id tx -> w ∉ uncommitted_writes_y tx -> has_entry t w ->
      get_upper w t' < commit_timestamp tx) /\
   (forall a, a ∈ row_reads r -> a ∉ uncommitted_reads tx -> has_entry t a ->
      get_upper a t' < get_lower (mt_id tx) t) /\
   (forall k, get_lower k t' = get_lower k t /\ get_state k t' = get_state k t)).
Proof.
  intros W Hsr Hsw Hc Hl.
  assert (forall a b, raise_to a b = Z.max a b) as Hmax
    by (intros a b; unfold raise_to; destruct (Z.ltb_spec a b); lia).
  split; cbn; rewrite Hmax, elem_of_set_erase by done.
  - destruct (push_above_spec ht_wf (uncommitted_writes tx) (commit_timestamp tx) (row_writes r) t W)
      as (_ & U & S & _ & N & _ & B); [lia|]. split_and!; try tauto; auto.
  - unfold push_writers. cbn.
    destruct (push_below_spec ht_wf (uncommitted_writes_y tx) (commit_timestamp tx)
      (set_erase (mt_id tx) (row_writes r)) t W) as (W1 & L1 & S1 & E1 & _ & P1 & B1); [lia|].
    cbn zeta in *.
    destruct (push_below_spec ht_wf (uncommitted_reads tx) (get_lower (mt_id tx) t) (row_reads r)
      _ W1) as (W2 & L2 & S2 & E2 & _ & P2 & B2); [lia|]. cbn zeta in *. split_and!; try tauto.
    + intros w Hw Hne Hnk He. eapply Z.le_lt_trans; [apply P2; by apply E1|].
      apply B1; [apply elem_of_set_erase; done|done|done].
    + intros a Ha Hnk He. apply B2; [done|done|by apply E1].
    + intros k. by rewrite L2, L1, S2, S1.
Qed.

(** A run of two blind writers of a row: 1 and 2 prewrite, 1 validates, commits
    and leaves the time table, 2 validates and commits.  [None] if a step does
    not succeed. *)
Definition two_writers (tx1 tx2 : MaatTxn) (d1 d2 : Z) (r : Row_maat Z)
    (t : HashTable TimeTableEntry) : option (MaatTxn * MaatTxn * Row_maat Z) :=
  let '(tx1, r) := access false WR tx1 r in
  let '(tx2, r) := access false WR tx2 r in
  match validate tx1 t with
  | Ok (RCOK, t) =>
      match find_bound tx1 t with
      | (RCOK, tx1, t) =>
          let '(r, t) := commit false WR tx1 d1 r t in
          let t := kt_release (mt_id tx1) t in
          match validate tx2 t with
          | Ok (RCOK, t) =>
              match find_bound tx2 t with
              | (RCOK, tx2, t) =>
                  let '(r, t) := commit false WR tx2 d2 r t in Some (tx1, tx2, r)
              | _ => None
              end
          | _ => None
          end
      | _ => None
      end
  | _ => None
  end.

(** The order of two writes can contradict their timestamps.  Two running
    transactions write a row; the first (which has seen timestamp 99 elsewhere)
    commits at 100 and leaves the time table, and caps the second, which
    prewrote later, below 100.  The second still validates, commits at 1 and
    overwrites the row: the row ends with the data of the smaller commit
    timestamp under the write timestamp 100. *)
Theorem maat_write_order_violated :
  exists tx1 tx2 tx1' tx2' (r : Row_maat Z) (t : HashTable TimeTableEntry),
    t = kt_init 2 (kt_init 1 (ht_empty 5)) /\
    two_writers tx1 tx2 101 102 (init 7) t = Some (tx1', tx2', r) /\
    commit_timestamp tx1' = 100 /\ commit_timestamp tx2' = 1 /\
    row_base r = 102 /\ timestamp_last_write r = 100.
Proof.
  exists (mkMaatTxn 1 [] [] [] 99 0 0), (mkMaatTxn 2 [] [] [] 0 0 0).
  do 2 eexists. exists (mkRowMaat 102 [] [] 0 100), (kt_init 2 (kt_init 1 (ht_empty 5))).
  split; [reflexivity|]. split; [vm_compute; reflexivity|]. split_and!; reflexivity.
Qed.

(** *** Witnesses *)

Definition ex_m_row : Row_maat Z := mkRowMaat 7 [1] [2] 0 0.
Definition ex_m_txns : gmap Z MaatTxn :=
  <[2 := mkMaatTxn 2 [1] [] [] 0 0 0]> (<[2 := mkMaatTxn 2 [] [] [] 0 0 0]>
    (<[1 := mkMaatTxn 1 [] [] [] 0 0 0]> (<[1 := mkMaatTxn 1 [] [] [] 0 0 0]> ∅))).

Lemma ex_m_run :
  rtc (m_step false (T := HashTable TimeTableEntry)) (init 7, ∅) (ex_m_row, ex_m_txns).
Proof.
  eapply rtc_l; [apply (m_start false _ _ 1); set_solver|].
  eapply rtc_l; [apply (m_access false _ _ RD (mkMaatTxn 1 [] [] [] 0 0 0) (mkMaatTxn 1 [] [] [] 0 0 0)
    (mkRowMaat 7 [1] [] 0 0)); [by rewrite lookup_insert_eq|reflexivity]|].
  eapply rtc_l; [apply (m_start false _ _ 2); cbn; set_solver|].
  eapply rtc_l; [apply (m_access false _ _ WR (mkMaatTxn 2 [] [] [] 0 0 0) (mkMaatTxn 2 [1] [] [] 0 0 0)
    (mkRowMaat 7 [1] [2] 0 0)); [by rewrite lookup_insert_eq|reflexivity]|].
  apply rtc_refl.
Qed.

Lemma maat_conflicts_known_witness : 2 ∈ uw ex_m_txns 1 \/ 1 ∈ ur ex_m_txns 2.
Proof.
  apply (proj1 (maat_conflicts_known Z false 7 ex_m_row ex_m_txns ex_m_run)); [by left|by left|done].
Defined.

(** Transaction 1 commits its read at 10; writer 3 is unknown to it. *)
Lemma maat_commit_forward_witness :
  let tx := mkMaatTxn 1 [] [2] [] 0 0 10 in
  let '(r', t') := commit false RD tx 0 (mkRowMaat 7 [1] [2; 3] 0 0)
                     (set_lower 1 10 ex_time_table) in
  10 < get_lower 3 t'.
Proof.
  pose proof (maat_commit_forward Z (mkMaatTxn 1 [] [2] [] 0 0 10) 0 (mkRowMaat 7 [1] [2; 3] 0 0)
    (set_lower 1 10 ex_time_table)) as H. cbn zeta.
  destruct H as [H _].
  - apply (kt_update_wf (wf := ht_wf)); [exact ex_time_table_wf|done].
  - repeat constructor.
  - cbn. unfold is_set. repeat constructor; lia.
  - cbn. unfold UINT64_MAX. lia.
  - vm_compute. split; [reflexivity|discriminate].
  - destruct (commit false RD _ _ _ _) as [r' t'].
    destruct H as (_ & _ & _ & H & _). apply (H 3); [right; by left|set_solver|by eexists].
Defined.
