(* ===== verification/TxnTable.v ===== *)
(** * TxnTable: the table of active transactions

    Model of system/txn_table.cpp.  A pool is a list of nodes (head to tail)
    with a count and the smallest timestamp registered in it; operations spin
    on the pool's modify bit and are atomic, except [get_min_ts], which reads
    the pools one after the other without it (its model reads one state, see
    the header of [Manager]).  [mvcc] stands for the algorithms for which the
    table maintains min_ts on lookup and release (MVCC, WOOKONG, DTA, DLI_DTA
    and its variants), [calvin] for CC_ALG == CALVIN, which also compares the
    batch id.  The transaction object comes from an allocation pool and is an
    argument. *)

From stdpp Require Import gmap list sorting relations.
From S2P Require Import Prelude.
#[local] Open Scope Z_scope.

(** A node with what the table reads of its transaction manager. *)
Record txn_node := mkNode {
  tn_man : Z;
  tn_txn_id : Z;
  tn_batch_id : Z;
  tn_timestamp : Z;
}.

Record pool_node := mkPool {
  nodes : list txn_node;
  cnt : Z;
  min_ts : Z;
}.

Abbreviation TxnTable := (list pool_node).

Section TxnTable.
Context (mvcc calvin : bool).

Definition init (pool_size : nat) : TxnTable := replicate pool_size (mkPool [] 0 UINT64_MAX).

Definition is_matching_txn_node (n : txn_node) (txn_id batch_id : Z) : bool :=
  if calvin then (tn_txn_id n =? txn_id) && (tn_batch_id n =? batch_id)
  else tn_txn_id n =? txn_id.

(** [txn_id % pool_size]. *)
Definition pool_id (txn_id : Z) (t : TxnTable) : nat := Z.to_nat (txn_id mod Z.of_nat (length t)).

Definition update_min_ts (txn_id ts : Z) (t : TxnTable) : res TxnTable :=
  match t !! pool_id txn_id t with
  | Some p =>
      Ok (<[pool_id txn_id t := mkPool (nodes p) (cnt p)
             (if ts <? min_ts p then ts else min_ts p)]> t)
  | None => AssertFail
  end.

Fixpoint find_node (txn_id batch_id : Z) (l : list txn_node) : option txn_node :=
  match l with
  | [] => None
  | n :: l' => if is_matching_txn_node n txn_id batch_id then Some n
               else find_node txn_id batch_id l'
  end.

(** [if (get_timestamp() < min_ts) min_ts = get_timestamp()] for the
    algorithms that maintain it. *)
Definition lower_min (ts m : Z) : Z := if mvcc && (ts <? m) then ts else m.

(** [get_transaction_manager]: the manager found, or [man], a fresh object from
    the pool, whose timestamp [Transaction::init] has set to the maximum. *)
Definition get_transaction_manager (txn_id batch_id man : Z) (t : TxnTable)
    : res (Z * TxnTable) :=
  match t !! pool_id txn_id t with
  | Some p =>
      match find_node txn_id batch_id (nodes p) with
      | Some n =>
          Ok (tn_man n, <[pool_id txn_id t := mkPool (nodes p) (cnt p)
                           (lower_min (tn_timestamp n) (min_ts p))]> t)
      | None =>
          let n := mkNode man txn_id batch_id UINT64_MAX in
          Ok (man, <[pool_id txn_id t := mkPool (nodes p ++ [n]) (wrap64 (cnt p + 1))
                      (lower_min (tn_timestamp n) (min_ts p))]> t)
      end
  | None => AssertFail
  end.

(** The loop of [release_transaction_manager]: the nodes kept, the node to
    free, the count and the minimum over the nodes passed.  With [mvcc] the
    loop goes on after a match, otherwise it stops there. *)
Fixpoint release_loop (txn_id batch_id : Z) (l : list txn_node) (saved : option txn_node)
    (c m : Z) : list txn_node * option txn_node * Z * Z :=
  match l with
  | [] => ([], saved, c, m)
  | n :: l' =>
      if is_matching_txn_node n txn_id batch_id then
        if mvcc then release_loop txn_id batch_id l' (Some n) (wrap64 (c - 1)) m
        else (l', Some n, wrap64 (c - 1), m)
      else
        let m' := if mvcc && (tn_timestamp n <? m) then tn_timestamp n else m in
        let '(l'', s, c', m'') := release_loop txn_id batch_id l' saved c m' in
        (n :: l'', s, c', m'')
  end.

(** [release_transaction_manager]: returns the manager handed back to the
    pool; the node must be there. *)
Definition release_transaction_manager (txn_id batch_id : Z) (t : TxnTable)
    : res (Z * TxnTable) :=
  match t !! pool_id txn_id t with
  | Some p =>
      let '(l, saved, c, m) :=
        release_loop txn_id batch_id (nodes p) None (cnt p) UINT64_MAX in
      match saved with
      | Some n => Ok (tn_man n, <[pool_id txn_id t := mkPool l c (if mvcc then m else min_ts p)]> t)
      | None => AssertFail
      end
  | None => AssertFail
  end.

(** [restart_txn]: the manager whose continuation message is enqueued. *)
Definition restart_txn (txn_id batch_id : Z) (t : TxnTable) : res (option Z) :=
  match t !! pool_id txn_id t with
  | Some p => Ok (tn_man <$> find_node txn_id batch_id (nodes p))
  | None => AssertFail
  end.

Definition get_min_ts (t : TxnTable) : Z :=
  foldl (fun m p => if min_ts p <? m then min_ts p else m) UINT64_MAX t.

(** [txn_man->set_timestamp(ts)] by the worker that runs the transaction: the
    table is not told. *)
Definition set_timestamp (txn_id batch_id ts : Z) (t : TxnTable) : TxnTable :=
  match t !! pool_id txn_id t with
  | Some p =>
      <[pool_id txn_id t := mkPool
          ((fun n => if is_matching_txn_node n txn_id batch_id
                     then mkNode (tn_man n) (tn_txn_id n) (tn_batch_id n) ts else n) <$> nodes p)
          (cnt p) (min_ts p)]> t
  | None => t
  end.
End TxnTable.

(** ** The table as a map from transactions to managers *)

Section Map.
Context (mvcc calvin : bool).
Implicit Types (t : TxnTable) (n : txn_node) (l : list txn_node).

(** What identifies a transaction. *)
Definition key (txn_id batch_id : Z) : Z * Z := (txn_id, if calvin then batch_id else 0).
Definition node_key (n : txn_node) : Z * Z := key (tn_txn_id n) (tn_batch_id n).

Definition lookup_node (txn_id batch_id : Z) (t : TxnTable) : option txn_node :=
  match t !! pool_id txn_id t with
  | Some p => find_node calvin txn_id batch_id (nodes p)
  | None => None
  end.

(** No transaction has two nodes, and counts are right. *)
Record pool_ok (p : pool_node) : Prop := {
  po_nodup : NoDup (node_key <$> nodes p);
  po_cnt : cnt p = Z.of_nat (length (nodes p));
  po_bound : Z.of_nat (length (nodes p)) <= UINT64_MAX;
}.

Definition table_ok (t : TxnTable) : Prop := t <> [] /\ Forall pool_ok t.

Lemma matching_key n txn_id batch_id :
  is_matching_txn_node calvin n txn_id batch_id = bool_decide (node_key n = key txn_id batch_id).
Proof using Type.
  unfold is_matching_txn_node, node_key, key. destruct calvin;
    destruct (Z.eqb_spec (tn_txn_id n) txn_id), (Z.eqb_spec (tn_batch_id n) batch_id); cbn;
    symmetry; first [apply bool_decide_eq_true_2; congruence | apply bool_decide_eq_false_2; congruence].
Qed.

Lemma pool_id_lt txn_id t : t <> [] -> (pool_id txn_id t < length t)%nat.
Proof using Type.
  intros Ht. unfold pool_id. destruct t as [|p t]; [done|].
  pose proof (Z.mod_pos_bound txn_id (Z.of_nat (length (p :: t)))). cbn -[Z.modulo] in *. lia.
Qed.

Lemma pool_lookup txn_id t : table_ok t -> exists p, t !! pool_id txn_id t = Some p /\ pool_ok p.
Proof using Type.
  intros [Ht Hp]. destruct (lookup_lt_is_Some_2 t (pool_id txn_id t)) as [p E];
    [by apply pool_id_lt|]. exists p. split; [done|]. by eapply Forall_lookup_1.
Qed.

Lemma pool_id_insert txn_id i p t : pool_id txn_id (<[i := p]> t) = pool_id txn_id t.
Proof using Type. unfold pool_id. by rewrite length_insert. Qed.

Lemma table_ok_insert i p t : table_ok t -> pool_ok p -> table_ok (<[i := p]> t).
Proof using Type.
  intros [Ht Hp] Hok. split; [|by apply Forall_insert].
  intros E%(f_equal length). rewrite length_insert in E. by destruct t.
Qed.

(** Lookups after replacing the pool of [txn_id]. *)
Lemma lookup_node_insert txn_id p p' t id b :
  t !! pool_id txn_id t = Some p ->
  lookup_node id b (<[pool_id txn_id t := p']> t) =
  if decide (pool_id id t = pool_id txn_id t) then find_node calvin id b (nodes p')
  else lookup_node id b t.
Proof using Type.
  intros E. unfold lookup_node. rewrite pool_id_insert. case_decide as Hd.
  - rewrite Hd, list_lookup_insert_eq; [done|]. by eapply lookup_lt_Some.
  - by rewrite list_lookup_insert_ne.
Qed.

Lemma find_node_Some id b l n :
  find_node calvin id b l = Some n -> n ∈ l /\ node_key n = key id b.
Proof using Type.
  induction l as [|x l IH]; cbn; [done|]. rewrite matching_key. case_bool_decide as Hk.
  - intros [= ->]. split; [by left|done].
  - intros [? ?]%IH. split; [by right|done].
Qed.

Lemma find_node_None id b l :
  find_node calvin id b l = None <-> key id b ∉ (node_key <$> l).
Proof using Type.
  induction l as [|x l IH]; cbn; [set_solver|]. rewrite matching_key, not_elem_of_cons.
  case_bool_decide as Hk; [naive_solver|]. rewrite IH. naive_solver.
Qed.

Lemma find_node_app id b l1 l2 :
  find_node calvin id b (l1 ++ l2) =
  match find_node calvin id b l1 with Some n => Some n | None => find_node calvin id b l2 end.
Proof using Type. induction l1 as [|x l1 IH]; cbn; [done|]. by destruct (is_matching_txn_node _ _ _ _). Qed.

Lemma find_node_filter id b id' b' l :
  key id b <> key id' b' ->
  find_node calvin id b (filter (fun n => node_key n <> key id' b') l) = find_node calvin id b l.
Proof using Type.
  intros Hne. induction l as [|x l IH]; [done|]. rewrite filter_cons. cbn.
  rewrite matching_key. case_decide as Hx; cbn; rewrite ?matching_key, IH; [done|].
  rewrite bool_decide_eq_false_2; [done|congruence].
Qed.

(** The release loop on a pool without duplicates. *)
Lemma release_loop_spec id b l saved c m :
  NoDup (node_key <$> l) -> Z.of_nat (length l) <= UINT64_MAX -> c = Z.of_nat (length l) ->
  exists m',
    release_loop mvcc calvin id b l saved c m =
      (filter (fun n => node_key n <> key id b) l,
       match find_node calvin id b l with Some n => Some n | None => saved end,
       Z.of_nat (length (filter (fun n => node_key n <> key id b) l)), m') /\
    (mvcc = true -> m' <= m /\
       forall n, n ∈ filter (fun n => node_key n <> key id b) l -> m' <= tn_timestamp n).
Proof using Type.
  cut (forall k, NoDup (node_key <$> l) -> 0 <= c -> c = k + Z.of_nat (length l) -> 0 <= k ->
    c <= UINT64_MAX ->
    exists m', release_loop mvcc calvin id b l saved c m =
      (filter (fun n => node_key n <> key id b) l,
       match find_node calvin id b l with Some n => Some n | None => saved end,
       k + Z.of_nat (length (filter (fun n => node_key n <> key id b) l)), m') /\
    (mvcc = true -> m' <= m /\
       forall n, n ∈ filter (fun n => node_key n <> key id b) l -> m' <= tn_timestamp n)).
  { intros H Hnd Hb Hc. destruct (H 0) as (m' & E & Hm); try done; try lia. eauto. }
  revert saved c m. induction l as [|n l IH]; intros saved c m k Hnd Hc0 Hc Hk Hb;
    cbn [release_loop find_node].
  { exists m. split; [cbn; do 2 f_equal; cbn in Hc; lia|]. intros _. split; [lia|set_solver]. }
  cbn [fmap list_fmap] in Hnd. apply NoDup_cons in Hnd as [Hn Hnd]. cbn [length] in Hc.
  rewrite filter_cons, matching_key. case_bool_decide as Ek.
  - rewrite decide_False by tauto.
    assert (filter (fun n => node_key n <> key id b) l = l) as Hfl.
    { clear -Hn Ek. induction l as [|x l IH]; [done|]. cbn in Hn. apply not_elem_of_cons in Hn as [? ?].
      rewrite filter_cons, decide_True by congruence. by rewrite IH. }
    assert (find_node calvin id b l = None) as Hfn by (apply find_node_None; by rewrite <- Ek).
    rewrite wrap64_small by lia. destruct mvcc.
    + destruct (IH (Some n) (c - 1) m k) as (m' & -> & Hm); [done|lia..|]. rewrite Hfn. eauto.
    + exists m. rewrite Hfl. split; [|done]. do 2 f_equal. lia.
  - rewrite decide_True by done. cbn zeta.
    destruct (IH saved c (if mvcc && (tn_timestamp n <? m) then tn_timestamp n else m) (k + 1))
      as (m' & -> & Hm); [done|lia..|].
    exists m'. split; [do 2 f_equal; cbn [length]; lia|]. intros Hmv. specialize (Hm Hmv).
    destruct Hm as [Hm1 Hm2]. rewrite Hmv in Hm1. cbn in Hm1.
    destruct (Z.ltb_spec (tn_timestamp n) m); split; try lia;
      intros x [->|Hx]%elem_of_cons; try lia; by apply Hm2.
Qed.

Lemma pool_ok_append p id b man m :
  pool_ok p -> find_node calvin id b (nodes p) = None ->
  Z.of_nat (length (nodes p)) < UINT64_MAX ->
  pool_ok (mkPool (nodes p ++ [mkNode man id b UINT64_MAX]) (wrap64 (cnt p + 1)) m).
Proof using Type.
  intros [] Hf Hb. apply find_node_None in Hf. split; cbn.
  - rewrite fmap_app. apply NoDup_app. split_and!; [done| |apply NoDup_singleton].
    intros x Hx ->%list_elem_of_singleton. by apply Hf.
  - rewrite po_cnt0, wrap64_small, length_app by lia. cbn. lia.
  - rewrite length_app. cbn. lia.
Qed.

(** [get_transaction_manager] as an operation on the map. *)
Lemma get_spec id b man t :
  table_ok t -> (forall p, p ∈ t -> Z.of_nat (length (nodes p)) < UINT64_MAX) ->
  exists t', get_transaction_manager mvcc calvin id b man t =
      Ok (default man (tn_man <$> lookup_node id b t), t') /\ table_ok t' /\
    (forall id' b', lookup_node id' b' t' =
       if decide (key id' b' = key id b)
       then Some (default (mkNode man id b UINT64_MAX) (lookup_node id b t))
       else lookup_node id' b' t).
Proof using Type.
  intros Hok Hb. unfold get_transaction_manager.
  destruct (pool_lookup id t Hok) as (p & E & Hp). rewrite E.
  assert (lookup_node id b t = find_node calvin id b (nodes p)) as Hl
    by (unfold lookup_node; by rewrite E).
  assert (forall id' b', key id' b' = key id b -> id' = id) as Hid
    by (intros ? ?; by intros [= ? ?]).
  assert (forall id' b' l, key id' b' = key id b -> find_node calvin id' b' l = find_node calvin id b l)
    as Hsame.
  { intros id' b' l Hk. induction l as [|x l IH]; cbn; [done|]. rewrite !matching_key, Hk, IH. done. }
  rewrite Hl. destruct (find_node calvin id b (nodes p)) as [n|] eqn:Ef; cbn.
  - eexists. split; [done|]. split; [apply table_ok_insert; [done|]; by destruct Hp|].
    intros id' b'. rewrite (lookup_node_insert id p) by done. cbn. case_decide as Hd.
    + case_decide as Hk; [by rewrite (Hsame id' b')|]. unfold lookup_node. by rewrite Hd, E.
    + rewrite decide_False; [done|]. intros Hk. by rewrite (Hid _ _ Hk) in Hd.
  - eexists. split; [done|]. split.
    { apply table_ok_insert; [done|]. apply pool_ok_append; [done|done|].
      apply Hb. by eapply list_elem_of_lookup_2. }
    intros id' b'. rewrite (lookup_node_insert id p) by done. cbn. case_decide as Hd.
    + rewrite find_node_app. cbn. rewrite matching_key. unfold node_key. cbn.
      case_decide as Hk.
      * rewrite (Hsame id' b' _ Hk), Ef. by rewrite bool_decide_eq_true_2.
      * rewrite bool_decide_eq_false_2 by congruence. unfold lookup_node. rewrite Hd, E.
        by destruct (find_node calvin id' b' (nodes p)).
    + rewrite decide_False; [done|]. intros Hk. by rewrite (Hid _ _ Hk) in Hd.
Qed.

Lemma release_spec id b t n :
  table_ok t -> lookup_node id b t = Some n ->
  exists t', release_transaction_manager mvcc calvin id b t = Ok (tn_man n, t') /\ table_ok t' /\
    (forall id' b', lookup_node id' b' t' =
       if decide (key id' b' = key id b) then None else lookup_node id' b' t).
Proof using Type.
  intros Hok Hl. unfold release_transaction_manager.
  destruct (pool_lookup id t Hok) as (p & E & Hp). rewrite E.
  unfold lookup_node in Hl. rewrite E in Hl. pose proof Hp as [].
  destruct (release_loop_spec id b (nodes p) None (cnt p) UINT64_MAX) as (m' & -> & _); [done|lia|done|].
  rewrite Hl. eexists. split; [done|].
  assert (pool_ok (mkPool (filter (fun n => node_key n <> key id b) (nodes p))
    (Z.of_nat (length (filter (fun n => node_key n <> key id b) (nodes p))))
    (if mvcc then m' else min_ts p))) as Hp'.
  { split; cbn.
    - clear -po_nodup0. induction (nodes p) as [|x l IH]; [constructor|].
      cbn in po_nodup0. apply NoDup_cons in po_nodup0 as [Hx Hnd]. rewrite filter_cons.
      case_decide; [|by apply IH]. cbn. apply NoDup_cons. split; [|by apply IH].
      intros (y & Ey & [_ Hy]%list_elem_of_filter)%list_elem_of_fmap. apply Hx.
      apply list_elem_of_fmap. eauto.
    - done.
    - pose proof (length_filter (fun n => node_key n <> key id b) (nodes p)). lia. }
  split; [by apply table_ok_insert|]. intros id' b'.
  rewrite (lookup_node_insert id p) by done. cbn [nodes]. case_decide as Hd.
  - case_decide as Hk.
    + apply find_node_None. rewrite Hk. intros (x & Ex & [Hx _]%list_elem_of_filter)%list_elem_of_fmap.
      congruence.
    + rewrite find_node_filter by done. unfold lookup_node. by rewrite Hd, E.
  - rewrite decide_False; [done|]. intros [= Hk _]. by rewrite Hk in Hd.
Qed.

End Map.

(** ** The smallest active timestamp *)

Lemma get_min_ts_foldl t m :
  let m' := foldl (fun m p => if min_ts p <? m then min_ts p else m) m t in
  m' <= m /\ (forall p, p ∈ t -> m' <= min_ts p) /\ (m' = m \/ exists p, p ∈ t /\ m' = min_ts p).
Proof.
  revert m. induction t as [|p t IH]; intros m; cbn.
  { split_and!; [lia|set_solver|by left]. }
  destruct (IH (if min_ts p <? m then min_ts p else m)) as (H1 & H2 & H3).
  destruct (Z.ltb_spec (min_ts p) m); split_and!; try lia.
  - intros q [->|Hq]%elem_of_cons; [lia|by apply H2].
  - right. destruct H3 as [->|(q & ? & ?)]; [exists p|exists q]; (split; [|done]); [by left|by right].
  - intros q [->|Hq]%elem_of_cons; [lia|by apply H2].
  - destruct H3 as [->|(q & ? & ?)]; [by left|]. right. exists q. split; [by right|done].
Qed.

Lemma get_min_ts_le t p : p ∈ t -> get_min_ts t <= min_ts p.
Proof. intros Hp. by apply (get_min_ts_foldl t UINT64_MAX). Qed.

(** A table all of whose pools are lowered has a lower minimum. *)
Lemma get_min_ts_mono t t' :
  Forall2 (fun p p' => min_ts p' <= min_ts p) t t' -> get_min_ts t' <= get_min_ts t.
Proof.
  intros HF. unfold get_min_ts.
  destruct (get_min_ts_foldl t UINT64_MAX) as (_ & _ & H).
  destruct (get_min_ts_foldl t' UINT64_MAX) as (H1 & H2 & _). cbn zeta in *.
  destruct H as [->|(p & Hp & ->)]; [done|].
  apply list_elem_of_lookup in Hp as [i Hi].
  destruct (Forall2_lookup_l _ _ _ _ _ HF Hi) as (p' & Hi' & Hle).
  etrans; [apply H2; by eapply list_elem_of_lookup_2|done].
Qed.

Lemma Forall2_insert_min (t : TxnTable) i p p' :
  t !! i = Some p -> min_ts p' <= min_ts p ->
  Forall2 (fun p p' => min_ts p' <= min_ts p) t (<[i := p']> t).
Proof.
  intros E Hle. apply Forall2_same_length_lookup. split; [by rewrite length_insert|].
  intros j a b Ha Hb. destruct (decide (i = j)) as [->|Hne].
  - rewrite list_lookup_insert_eq in Hb by (by eapply lookup_lt_Some). congruence.
  - rewrite list_lookup_insert_ne in Hb by done. assert (a = b) as -> by congruence. lia.
Qed.

(** The operations of the program on the table, with the set of transactions
    whose current timestamp the table has been told. *)
Inductive tt_step (mvcc : bool) : TxnTable * list Z -> TxnTable * list Z -> Prop :=
| tts_get id b man m t t' R :
    (forall p, p ∈ t -> Z.of_nat (length (nodes p)) < UINT64_MAX) ->
    get_transaction_manager mvcc false id b man t = Ok (m, t') ->
    tt_step mvcc (t, R) (t', if mvcc then id :: R else R)
| tts_set id b ts t R :
    tt_step mvcc (t, R) (set_timestamp false id b ts t, filter (fun k => k <> id) R)
| tts_update id b n t t' R :
    lookup_node false id b t = Some n -> update_min_ts id (tn_timestamp n) t = Ok t' ->
    tt_step mvcc (t, R) (t', id :: R)
| tts_release id b m t t' R :
    release_transaction_manager mvcc false id b t = Ok (m, t') ->
    tt_step mvcc (t, R) (t', filter (fun k => k <> id) R).

Section MinTs.
Implicit Types (t : TxnTable) (R : list Z).

(** In each pool the minimum is below the timestamps it has been told. *)
Definition pool_min_ok (R : list Z) (p : pool_node) : Prop :=
  min_ts p <= UINT64_MAX /\
  forall n, n ∈ nodes p -> tn_txn_id n ∈ R -> min_ts p <= tn_timestamp n.

Definition min_inv (s : TxnTable * list Z) : Prop :=
  table_ok false (fst s) /\ Forall (pool_min_ok (snd s)) (fst s) /\
  (forall i p n, fst s !! i = Some p -> n ∈ nodes p -> pool_id (tn_txn_id n) (fst s) = i).

(** Replacing a pool: the other pools do not hold the transaction. *)
Lemma min_inv_insert t R R' id p p' :
  min_inv (t, R) -> t !! pool_id id t = Some p -> pool_ok false p' -> pool_min_ok R' p' ->
  (forall n, n ∈ nodes p' -> pool_id (tn_txn_id n) t = pool_id id t) ->
  (forall k, k ∈ R' -> k = id \/ k ∈ R) ->
  min_inv (<[pool_id id t := p']> t, R').
Proof.
  intros (Hok & Hmin & Hid) E Hp' Hm' Hn' HR. cbn in *. split_and!; cbn.
  - by apply table_ok_insert.
  - apply Forall_lookup_2. intros i q Hq. destruct (decide (i = pool_id id t)) as [->|Hne].
    + rewrite list_lookup_insert_eq in Hq by (by eapply lookup_lt_Some). by injection Hq as <-.
    + rewrite list_lookup_insert_ne in Hq by done.
      destruct (Forall_lookup_1 _ _ _ _ Hmin Hq) as [H1 H2]. split; [done|].
      intros n Hn Hin. apply H2; [done|]. destruct (HR _ Hin) as [Hk|?]; [|done].
      specialize (Hid i q n Hq Hn). rewrite Hk in Hid. congruence.
  - intros i q n Hq Hn. rewrite pool_id_insert. destruct (decide (i = pool_id id t)) as [->|Hne].
    + rewrite list_lookup_insert_eq in Hq by (by eapply lookup_lt_Some). injection Hq as <-. by apply Hn'.
    + rewrite list_lookup_insert_ne in Hq by done. by eapply Hid.
Qed.

(** A pool has one node per transaction id. *)
Lemma tt_same_id p n n' :
  pool_ok false p -> n ∈ nodes p -> n' ∈ nodes p -> tn_txn_id n = tn_txn_id n' -> n = n'.
Proof.
  intros [Hnd _ _] [i Hi]%list_elem_of_lookup [j Hj]%list_elem_of_lookup E.
  assert (i = j) as ->; [|congruence].
  eapply (NoDup_lookup _ _ _ (node_key false n) Hnd).
  - by rewrite list_lookup_fmap, Hi.
  - rewrite list_lookup_fmap, Hj. cbn. unfold node_key, key. by rewrite E.
Qed.

Lemma min_inv_pool t R id p :
  min_inv (t, R) -> t !! pool_id id t = Some p ->
  pool_ok false p /\ pool_min_ok R p /\
  (forall n, n ∈ nodes p -> pool_id (tn_txn_id n) t = pool_id id t).
Proof.
  intros ([_ Hok] & Hmin & Hid) E. cbn in *. split_and!.
  - by eapply (Forall_lookup_1 _ _ _ _ Hok).
  - by eapply (Forall_lookup_1 _ _ _ _ Hmin).
  - intros n. by apply Hid.
Qed.

Lemma min_inv_get mvcc id b man m t t' R :
  min_inv (t, R) -> (forall p, p ∈ t -> Z.of_nat (length (nodes p)) < UINT64_MAX) ->
  get_transaction_manager mvcc false id b man t = Ok (m, t') ->
  min_inv (t', if mvcc then id :: R else R).
Proof.
  intros Hinv Hb. unfold get_transaction_manager.
  destruct (t !! pool_id id t) as [p|] eqn:E; [|done].
  destruct (min_inv_pool _ _ _ _ Hinv E) as (Hp & [Hu Hm] & Hid).
  assert (forall k, k ∈ (if mvcc then id :: R else R) -> k = id \/ k ∈ R) as HR
    by (destruct mvcc; set_solver).
  destruct (find_node false id b (nodes p)) as [n|] eqn:Ef; intros [= <- <-].
  - apply find_node_Some in Ef as [Hn Hk]. assert (tn_txn_id n = id) as Hnid by (by injection Hk).
    eapply min_inv_insert; [done|done|by destruct Hp| |done|done].
    unfold lower_min. split; cbn.
    { destruct (mvcc && _) eqn:Hl; [|done]. apply andb_true_iff in Hl as [_ Hl%Z.ltb_lt]. lia. }
    intros x Hx HxR. destruct (HR _ HxR) as [Hxi|Hxr].
    + assert (x = n) as -> by (eapply tt_same_id; [done..|congruence]).
      destruct mvcc; cbn; [destruct (Z.ltb_spec (tn_timestamp n) (min_ts p)); lia|by apply Hm].
    + specialize (Hm _ Hx Hxr). destruct (mvcc && _) eqn:Hl; [|done].
      apply andb_true_iff in Hl as [_ Hl%Z.ltb_lt]. lia.
  - assert (lower_min mvcc UINT64_MAX (min_ts p) = min_ts p) as Hl.
    { unfold lower_min. destruct (Z.ltb_spec UINT64_MAX (min_ts p)); [lia|by rewrite andb_false_r]. }
    eapply min_inv_insert; [done|done| | | |done].
    + apply pool_ok_append; [done|done|]. apply Hb. by eapply list_elem_of_lookup_2.
    + cbn [tn_timestamp]. rewrite Hl. split; cbn; [done|].
      intros x [Hx| -> %list_elem_of_singleton]%elem_of_app HxR; [|done].
      destruct (HR _ HxR) as [Hxi|]; [|by apply Hm].
      apply find_node_None in Ef. destruct Ef. apply list_elem_of_fmap. exists x.
      split; [|done]. unfold node_key, key. by rewrite Hxi.
    + cbn. intros x [Hx| -> %list_elem_of_singleton]%elem_of_app; [by apply Hid|done].
Qed.

Lemma min_inv_set id b ts t R :
  min_inv (t, R) -> min_inv (set_timestamp false id b ts t, filter (fun k => k <> id) R).
Proof.
  intros Hinv. unfold set_timestamp. destruct (t !! pool_id id t) as [p|] eqn:E.
  2:{ destruct (pool_lookup false id t) as (? & ? & _); [apply Hinv|congruence]. }
  destruct (min_inv_pool _ _ _ _ Hinv E) as (Hp & [Hu Hm] & Hid).
  set (f := fun n => if is_matching_txn_node false n id b
                     then mkNode (tn_man n) (tn_txn_id n) (tn_batch_id n) ts else n).
  assert (forall n, tn_txn_id (f n) = tn_txn_id n) as Hf
    by (intros n; unfold f; by destruct (is_matching_txn_node _ _ _ _)).
  eapply min_inv_insert; [done|done| | | |].
  - destruct Hp as [H1 H2 H3]. split; cbn; rewrite ?length_fmap; [|done|done].
    rewrite <- list_fmap_compose.
    rewrite (list_fmap_ext _ (node_key false)); [done|]. intros i x _. cbn.
    unfold node_key, key. by rewrite Hf.
  - split; cbn; [done|]. intros x (n & -> & Hn)%list_elem_of_fmap [Hne HxR]%list_elem_of_filter.
    rewrite Hf in Hne, HxR. unfold f, is_matching_txn_node.
    destruct (Z.eqb_spec (tn_txn_id n) id); [done|]. by apply Hm.
  - cbn. intros x (n & -> & Hn)%list_elem_of_fmap. rewrite Hf. by apply Hid.
  - intros k [_ ?]%list_elem_of_filter. by right.
Qed.

Lemma min_inv_update id b n t t' R :
  min_inv (t, R) -> lookup_node false id b t = Some n ->
  update_min_ts id (tn_timestamp n) t = Ok t' -> min_inv (t', id :: R).
Proof.
  intros Hinv. unfold lookup_node, update_min_ts. destruct (t !! pool_id id t) as [p|] eqn:E; [|done].
  destruct (min_inv_pool _ _ _ _ Hinv E) as (Hp & [Hu Hm] & Hid).
  intros [Hn Hk]%find_node_Some [= <-]. assert (tn_txn_id n = id) as Hnid by (by injection Hk).
  eapply min_inv_insert; [done|done|by destruct Hp| |done|set_solver].
  split; cbn; destruct (Z.ltb_spec (tn_timestamp n) (min_ts p)); try lia;
    (intros x Hx [Hxi|Hxr]%elem_of_cons;
     [assert (x = n) as -> by (eapply tt_same_id; [done..|congruence]); lia
     |specialize (Hm _ Hx Hxr); lia]).
Qed.

Lemma min_inv_release mvcc id b m t t' R :
  min_inv (t, R) -> release_transaction_manager mvcc false id b t = Ok (m, t') ->
  min_inv (t', filter (fun k => k <> id) R).
Proof.
  intros Hinv Hr. pose proof Hinv as (Hok & _).
  destruct (lookup_node false id b t) as [n|] eqn:Hl.
  - destruct (release_spec mvcc false id b t n Hok Hl) as (t1 & Hr1 & Hok1 & _).
    revert Hr Hr1. unfold release_transaction_manager.
    destruct (t !! pool_id id t) as [p|] eqn:E; [|done].
    destruct (min_inv_pool _ _ _ _ Hinv E) as (Hp & [Hu Hm] & Hid). pose proof Hp as [].
    destruct (release_loop_spec mvcc false id b (nodes p) None (cnt p) UINT64_MAX)
      as (m' & -> & Hm'); [done|lia|done|].
    destruct (match find_node _ _ _ _ with Some n => Some n | None => None end); [|done].
    intros [= _ <-] [= _ <-].
    assert (t !! pool_id id t = Some p -> pool_ok false (mkPool
      (filter (fun n => node_key false n <> key false id b) (nodes p))
      (Z.of_nat (length (filter (fun n => node_key false n <> key false id b) (nodes p))))
      (if mvcc then m' else min_ts p))) as Hp'.
    { intros _. destruct Hok1 as [_ Hok1]. eapply (Forall_lookup_1 _ _ (pool_id id t)); [exact Hok1|].
      apply list_lookup_insert_eq. by eapply lookup_lt_Some. }
    eapply min_inv_insert; [done|done|by apply Hp'| | |].
    + destruct mvcc; split; cbn.
      * by destruct (Hm' eq_refl).
      * intros x Hx _. by apply (Hm' eq_refl).
      * done.
      * intros x [_ Hx]%list_elem_of_filter [_ HxR]%list_elem_of_filter. by apply Hm.
    + cbn. intros x [_ Hx]%list_elem_of_filter. by apply Hid.
    + intros k [_ ?]%list_elem_of_filter. by right.
  - revert Hr Hl. unfold lookup_node, release_transaction_manager.
    destruct (t !! pool_id id t) as [p|] eqn:E; [|done].
    destruct (min_inv_pool _ _ _ _ Hinv E) as (Hp & _ & _). pose proof Hp as [].
    destruct (release_loop_spec mvcc false id b (nodes p) None (cnt p) UINT64_MAX)
      as (m' & -> & _); [done|lia|done|]. intros Hr Hl. by rewrite Hl in Hr.
Qed.

Lemma min_inv_step mvcc s s' : tt_step mvcc s s' -> min_inv s -> min_inv s'.
Proof.
  intros [] Hinv.
  - by eapply min_inv_get.
  - by apply min_inv_set.
  - by eapply min_inv_update.
  - by eapply min_inv_release.
Qed.

Lemma min_inv_init k : (0 < k)%nat -> min_inv (init k, []).
Proof.
  intros Hk. assert (forall i p, init k !! i = Some p -> p = mkPool [] 0 UINT64_MAX) as H
    by (intros i p [-> _]%lookup_replicate; done).
  split_and!; cbn.
  - split; [destruct k; [lia|done]|]. apply Forall_lookup_2. intros i p ->%H.
    split; cbn; [constructor|done|vm_compute; discriminate].
  - apply Forall_lookup_2. intros i p ->%H. split; cbn; [done|set_solver].
  - intros i p n ->%H. cbn. set_solver.
Qed.

Lemma min_inv_reachable mvcc k s :
  (0 < k)%nat -> rtc (tt_step mvcc) (init k, []) s -> min_inv s.
Proof.
  intros Hk. apply rtc_invariant; [by apply min_inv_init|]. intros a b Ha Hs. by eapply min_inv_step.
Qed.

Lemma min_inv_safe t R id b n :
  min_inv (t, R) -> id ∈ R -> lookup_node false id b t = Some n -> get_min_ts t <= tn_timestamp n.
Proof.
  intros (_ & Hmin & _) Hin. unfold lookup_node. destruct (t !! pool_id id t) as [p|] eqn:E; [|done].
  intros [Hn Hk]%find_node_Some. cbn in *.
  destruct (Forall_lookup_1 _ _ _ _ Hmin E) as [_ Hm].
  etrans; [apply get_min_ts_le; by eapply list_elem_of_lookup_2|]. apply Hm; [done|].
  by injection Hk as ->.
Qed.

(** Where the table does not maintain the minimum, no step raises it. *)
Lemma min_ts_step_lowers t R t' R' :
  tt_step false (t, R) (t', R') -> get_min_ts t' <= get_min_ts t.
Proof.
  assert (forall t, Forall2 (fun p p' => min_ts p' <= min_ts p) t t) as Hrefl
    by (intros u; apply Forall_Forall2_diag, Forall_forall; intros; lia).
  intros Hs. apply get_min_ts_mono. inversion Hs as [? ? ? ? ? ? ? _ E| | |]; subst; clear Hs.
  - revert E. unfold get_transaction_manager. destruct (t !! pool_id id t) as [p|] eqn:Ep; [|done].
    destruct (find_node _ _ _ _); intros [= _ <-]; by eapply Forall2_insert_min.
  - unfold set_timestamp. destruct (t !! pool_id id t) as [p|] eqn:Ep; [|by apply Hrefl].
    by eapply Forall2_insert_min.
  - match goal with H : update_min_ts _ _ _ = _ |- _ => revert H end. unfold update_min_ts.
    destruct (t !! pool_id id t) as [p|] eqn:Ep; [|done]. intros [= <-].
    eapply Forall2_insert_min; [done|]. cbn.
    destruct (Z.ltb_spec (tn_timestamp n) (min_ts p)); lia.
  - match goal with H : release_transaction_manager _ _ _ _ _ = _ |- _ => revert H end.
    unfold release_transaction_manager. destruct (t !! pool_id id t) as [p|] eqn:Ep; [|done].
    destruct (release_loop _ _ _ _ _ _ _ _) as [[[l s] c] mm]. destruct s; [|done].
    intros [= _ <-]. by eapply Forall2_insert_min.
Qed.

End MinTs.

(** ** Properties *)

(** The manager the table holds for a transaction. *)
Definition managers (calvin : bool) (txn_id batch_id : Z) (t : TxnTable) : option Z :=
  tn_man <$> lookup_node calvin txn_id batch_id t.

Lemma lookup_update_min_ts calvin id ts t t' id' b' :
  update_min_ts id ts t = Ok t' -> lookup_node calvin id' b' t' = lookup_node calvin id' b' t.
Proof.
  unfold update_min_ts. destruct (t !! pool_id id t) as [p|] eqn:E; [|done]. intros [= <-].
  rewrite (lookup_node_insert calvin id p) by done. cbn. case_decide as Hd; [|done].
  unfold lookup_node. by rewrite Hd, E.
Qed.

Lemma release_absent mvcc calvin id b t :
  table_ok calvin t -> lookup_node calvin id b t = None ->
  release_transaction_manager mvcc calvin id b t = AssertFail.
Proof.
  intros Hok. unfold lookup_node, release_transaction_manager.
  destruct (pool_lookup calvin id t Hok) as (p & E & Hp). rewrite E. destruct Hp.
  destruct (release_loop_spec mvcc calvin id b (nodes p) None (cnt p) UINT64_MAX) as (m' & -> & _);
    [done|lia|done|]. by intros ->.
Qed.

(** C36. The transaction table is a map from transactions (the id, and under
    Calvin the batch) to transaction managers.  [get_transaction_manager]
    returns the manager of a known transaction and registers the fresh one for
    an unknown transaction, and changes the entry of no other transaction;
    [release_transaction_manager] returns the manager of a known transaction
    and removes exactly its entry, and fails its assertion on an unknown one;
    [restart_txn] finds the same manager; [update_min_ts] changes no entry.
    All of them keep the pools free of duplicates with their counts right. *)
Theorem txn_table_map (mvcc calvin : bool) (t : TxnTable) :
  table_ok calvin t ->
  (forall p, p ∈ t -> Z.of_nat (length (nodes p)) < UINT64_MAX) ->
  (forall id b man, exists t',
     get_transaction_manager mvcc calvin id b man t =
       Ok (default man (managers calvin id b t), t') /\ table_ok calvin t' /\
     forall id' b', managers calvin id' b' t' =
       if decide (key calvin id' b' = key calvin id b)
       then Some (default man (managers calvin id b t)) else managers calvin id' b' t) /\
  (forall id b m, managers calvin id b t = Some m -> exists t',
     release_transaction_manager mvcc calvin id b t = Ok (m, t') /\ table_ok calvin t' /\
     forall id' b', managers calvin id' b' t' =
       if decide (key calvin id' b' = key calvin id b) then None else managers calvin id' b' t) /\
  (forall id b, managers calvin id b t = None ->
     release_transaction_manager mvcc calvin id b t = AssertFail) /\
  (forall id b, restart_txn calvin id b t = Ok (managers calvin id b t)) /\
  (forall id ts, exists t', update_min_ts id ts t = Ok t' /\ table_ok calvin t' /\
     forall id' b', managers calvin id' b' t' = managers calvin id' b' t).
Proof.
  intros Hok Hb. unfold managers. split_and!.
  - intros id b man. destruct (get_spec mvcc calvin id b man t Hok Hb) as (t' & E & Hok' & Hl).
    exists t'. split_and!; [done|done|]. intros id' b'. rewrite Hl. case_decide; [|done].
    by destruct (lookup_node calvin id b t).
  - intros id b m Hm. destruct (lookup_node calvin id b t) as [n|] eqn:Hn; [|done].
    injection Hm as <-. destruct (release_spec mvcc calvin id b t n Hok Hn) as (t' & E & Hok' & Hl).
    exists t'. split_and!; [done|done|]. intros id' b'. rewrite Hl. by case_decide.
  - intros id b Hm%fmap_None. by apply release_absent.
  - intros id b. unfold restart_txn, lookup_node.
    by destruct (pool_lookup calvin id t Hok) as (p & -> & _).
  - intros id ts. destruct (update_min_ts id ts t) as [t'|] eqn:E.
    + exists t'. split_and!; [done| |intros; by rewrite (lookup_update_min_ts _ _ _ _ _ _ _ E)].
      revert E. unfold update_min_ts. destruct (pool_lookup calvin id t Hok) as (p & -> & Hp).
      intros [= <-]. apply table_ok_insert; [done|]. by destruct Hp.
    + unfold update_min_ts in E. destruct (pool_lookup calvin id t Hok) as (p & Ep & _).
      by rewrite Ep in E.
Qed.

Lemma txn_table_map_witness :
  exists t', get_transaction_manager true false 7 0 42 (init 3) = Ok (42, t') /\
    managers false 7 0 t' = Some 42 /\ managers false 10 0 t' = None.
Proof.
  destruct (txn_table_map true false (init 3)) as (Hget & _).
  - apply (min_inv_init 3). lia.
  - cbn. intros p Hp. repeat (apply elem_of_cons in Hp as [-> |Hp]; [vm_compute; reflexivity|]).
    by apply elem_of_nil in Hp.
  - destruct (Hget 7 0 42) as (t' & E & _ & Hl). exists t'. split_and!; [done| |]; by rewrite Hl.
Defined.

(** A run on a table of three pools: transaction 7 arrives, gets timestamp 100
    and reports it. *)
Definition table3 (l : list txn_node) (m : Z) : TxnTable :=
  [mkPool [] 0 UINT64_MAX; mkPool l (Z.of_nat (length l)) m; mkPool [] 0 UINT64_MAX].

Lemma tt_steps_100 mvcc :
  tt_step mvcc (init 3, [])
    (table3 [mkNode 42 7 0 UINT64_MAX] UINT64_MAX, if mvcc then [7] else []) /\
  tt_step mvcc (table3 [mkNode 42 7 0 UINT64_MAX] UINT64_MAX, if mvcc then [7] else [])
    (table3 [mkNode 42 7 0 100] UINT64_MAX, []) /\
  tt_step mvcc (table3 [mkNode 42 7 0 100] UINT64_MAX, []) (table3 [mkNode 42 7 0 100] 100, [7]).
Proof.
  split_and!.
  - apply (tts_get mvcc 7 0 42 42); [|by destruct mvcc].
    cbn. intros p Hp. repeat (apply elem_of_cons in Hp as [-> |Hp]; [vm_compute; reflexivity|]).
    by apply elem_of_nil in Hp.
  - set (t1 := table3 [mkNode 42 7 0 UINT64_MAX] UINT64_MAX).
    pose proof (tts_set mvcc 7 0 100 t1 (if mvcc then [7] else [])) as H.
    assert ((set_timestamp false 7 0 100 t1, filter (fun k => k <> 7) (if mvcc then [7] else []))
      = (table3 [mkNode 42 7 0 100] UINT64_MAX, [])) as E by (destruct mvcc; vm_compute; reflexivity).
    by rewrite E in H.
  - apply (tts_update mvcc 7 0 (mkNode 42 7 0 100)); vm_compute; reflexivity.
Qed.

(** In every state the table can reach, [get_min_ts] is at most the
    timestamp of every transaction whose current timestamp the table has been
    told (by [update_min_ts], or by a lookup under MVCC): the versions a
    registered transaction may still read are not below the threshold of
    history recycling. *)
Theorem txn_table_min_ts_safe (mvcc : bool) (pool_size : nat) (t : TxnTable) (told : list Z)
    (id b : Z) (n : txn_node) :
  (0 < pool_size)%nat -> rtc (tt_step mvcc) (init pool_size, []) (t, told) ->
  id ∈ told -> lookup_node false id b t = Some n -> get_min_ts t <= tn_timestamp n.
Proof. intros Hk Hr. apply min_inv_safe. by eapply min_inv_reachable. Qed.

Lemma txn_table_min_ts_safe_witness :
  get_min_ts (table3 [mkNode 42 7 0 100] 100) <= 100.
Proof.
  destruct (tt_steps_100 true) as (H1 & H2 & H3). apply (txn_table_min_ts_safe true 3 _ [7] 7 0 (mkNode 42 7 0 100)).
  - lia.
  - do 3 (eapply rtc_l; [eassumption|]). apply rtc_refl.
  - by left.
  - vm_compute. reflexivity.
Defined.

(** For the algorithms that report timestamps to the table but for which
    [release_transaction_manager] does not recompute the minimum (SSI and WSI),
    the threshold never rises above a timestamp once reported, even after that
    transaction and all the others have been released: history recycling stops
    at the first transaction's timestamp. *)
Theorem txn_table_min_ts_stuck (id ts : Z) (t t1 t' : TxnTable) (told told' : list Z) :
  update_min_ts id ts t = Ok t1 -> rtc (tt_step false) (t1, told) (t', told') ->
  get_min_ts t' <= ts.
Proof.
  intros Hu Hr. assert (get_min_ts t1 <= ts) as H1.
  { revert Hu. unfold update_min_ts. destruct (t !! pool_id id t) as [p|] eqn:E; [|done].
    intros [= <-]. etrans; [apply get_min_ts_le, (list_elem_of_lookup_2 _ (pool_id id t))|].
    - apply list_lookup_insert_eq. by eapply lookup_lt_Some.
    - destruct (Z.ltb_spec ts (min_ts p)); cbn [min_ts]; lia. }
  cut (get_min_ts (fst (t', told')) <= ts); [done|].
  eapply (rtc_invariant (tt_step false) (fun s => get_min_ts (fst s) <= ts)); [|intros [u R] [u' R']|exact Hr].
  - done.
  - cbn [fst]. intros Hi Hs%min_ts_step_lowers. lia.
Qed.

Lemma txn_table_min_ts_stuck_witness : get_min_ts (table3 [] 100) <= 100.
Proof.
  apply (txn_table_min_ts_stuck 7 100 (table3 [mkNode 42 7 0 100] UINT64_MAX)
    (table3 [mkNode 42 7 0 100] 100) _ [7] []).
  - vm_compute. reflexivity.
  - apply rtc_once, (tts_release false 7 0 42 (table3 [mkNode 42 7 0 100] 100) _ [7]).
    vm_compute. reflexivity.
Defined.
