(* ===== verification/Manager.v ===== *)
(** * Manager: the timestamp manager

    Model of system/manager.cpp: allocation of timestamps ([get_ts], with
    [WorkerThread::get_next_ts] above it) and the threshold of history
    recycling ([get_min_ts]).  The clocks the code reads are arguments.
    [get_min_ts] reads the pools of the transaction table one after the other
    without their modify bits; the model reads one state, so what is proved
    here of interleavings has whole operations as its steps. *)

From stdpp Require Import gmap list sorting relations.
From S2P Require Import Prelude TxnTable.
#[local] Open Scope Z_scope.

(** [TS_MUTEX], [TS_CAS], [TS_HW], [TS_CLOCK] of config.h. *)
Inductive ts_alloc := TS_MUTEX | TS_CAS | TS_HW | TS_CLOCK.

(** The fields of [Manager] that its operations use. *)
Record Manager := mkManager {
  timestamp : Z;
  last_min_ts_time : Z;
  mgr_min_ts : Z;
}.

Definition mgr_init : Manager := mkManager 1 0 0.

(** [MIN_TS_INTVL] of config.h: 10 milliseconds, in nanoseconds. *)
Definition MIN_TS_INTVL : Z := 10000000.

(** [BUCKET_CNT] and [MEM_ALLIGN]. *)
Definition BUCKET_CNT : Z := 31.
Definition MEM_ALLIGN : Z := 8.

Section Manager.
Context (g_ts_alloc : ts_alloc) (g_ts_batch_alloc : bool) (g_ts_batch_num : Z).
Context (g_node_cnt g_thread_cnt g_node_id : Z).

(** The timestamp of [TS_CLOCK]: the products and sums of [UInt32]
    configuration values wrap at 32 bits, the others at 64. *)
Definition clock_ts (wall thread_id : Z) : Z :=
  wrap64 (wrap64 (wall * wrap32 (g_node_cnt + g_thread_cnt)) +
          wrap64 (wrap32 (g_node_id * g_thread_cnt) + thread_id)).

Definition ts_alloc_is_cas : bool := match g_ts_alloc with TS_CAS => true | _ => false end.

Definition get_ts (thread_id wall : Z) (m : Manager) : res (Z * Manager) :=
  assert! (negb g_ts_batch_alloc || ts_alloc_is_cas);
  match g_ts_alloc with
  | TS_MUTEX =>
      let t := wrap64 (timestamp m + 1) in
      Ok (t, mkManager t (last_min_ts_time m) (mgr_min_ts m))
  | TS_CAS =>
      let n := if g_ts_batch_alloc then g_ts_batch_num else 1 in
      Ok (timestamp m, mkManager (wrap64 (timestamp m + n)) (last_min_ts_time m) (mgr_min_ts m))
  | TS_HW => AssertFail
  | TS_CLOCK => Ok (clock_ts wall thread_id, m)
  end.

(** [WorkerThread::get_next_ts]: [curr] is the worker's [_curr_ts]. *)
Definition get_next_ts (thread_id wall curr : Z) (m : Manager) : res (Z * Z * Manager) :=
  if g_ts_batch_alloc then
    if curr mod g_ts_batch_num =? 0 then
      '(t, m') ← get_ts thread_id wall m;
      let c := wrap64 (t + 1) in mret (wrap64 (c - 1), c, m')
    else
      let c := wrap64 (curr + 1) in mret (wrap64 (c - 1), c, m)
  else
    '(t, m') ← get_ts thread_id wall m; mret (t, t, m').
End Manager.

(** [Manager::get_min_ts]: the threshold is refreshed from the table at most
    once per interval and never goes back. *)
Definition mgr_get_min_ts (now : Z) (t : TxnTable) (m : Manager) : Z * Manager :=
  if MIN_TS_INTVL <? wrap64 (now - last_min_ts_time m) then
    let min := get_min_ts t in
    let th := if mgr_min_ts m <? min then min else mgr_min_ts m in
    (th, mkManager (timestamp m) now th)
  else (mgr_min_ts m, m).

(** [hash] of a row's address to one of the row mutexes. *)
Definition hash (row : Z) : Z :=
  wrap64 (wrap64 (row / MEM_ALLIGN * 1103515247) + 12345) mod BUCKET_CNT.

(** Several workers that call [get_next_ts] in some order: [currs] are their
    [_curr_ts], [calls] the workers in the order of their calls, and the result
    the timestamps in that order. *)
Fixpoint run_next_ts (alloc : ts_alloc) (batch : bool) (b : Z) (calls : list nat) (currs : list Z)
    (m : Manager) : res (list Z) :=
  match calls with
  | [] => Ok []
  | i :: calls' =>
      match currs !! i with
      | Some c =>
          '(t, c', m') ← get_next_ts alloc batch b 1 1 0 0 0 c m;
          out ← run_next_ts alloc batch b calls' (<[i := c']> currs) m';
          mret (t :: out)
      | None => AssertFail
      end
  end.

Section Counter.
Context (b : Z).

(** The block of [b] counter values that [c] lies in. *)
Definition block (c : Z) : Z := (c - 1) / b.

(** With batches: the counter starts a block; a worker in the middle of a
    block has not issued the rest of it, nor has anybody else. *)
Record batch_inv (X : list Z) (currs : list Z) (m : Manager) : Prop := {
  bi_counter : timestamp m mod b = 1 mod b /\ 1 <= timestamp m;
  bi_issued : Forall (fun x => 1 <= x < timestamp m) X;
  bi_curr i c : currs !! i = Some c -> c mod b <> 0 ->
    1 <= c < timestamp m /\ forall x, x ∈ X -> block x = block c -> x < c;
  bi_apart i j c d : i <> j -> currs !! i = Some c -> currs !! j = Some d ->
    c mod b <> 0 -> d mod b <> 0 -> block c <> block d;
}.

Lemma mod_one_div T : 0 < b -> T mod b = 1 mod b -> T = b * ((T - 1) / b) + 1.
Proof using Type.
  intros Hb HT. assert ((T - 1) mod b = 0) as H.
  { rewrite Zminus_mod, HT, <- Zminus_mod. by apply Z.mod_0_l; lia. }
  pose proof (Z.div_mod (T - 1) b). lia.
Qed.

(** A value below a block start lies in an earlier block, and the values of
    the block are in it. *)
Lemma block_before T c : 0 < b -> T mod b = 1 mod b -> c < T -> block c < block T.
Proof using Type.
  intros Hb HT Hc. unfold block. apply mod_one_div in HT; [|done].
  apply Z.div_lt_upper_bound; lia.
Qed.

Lemma block_inside T c : 0 < b -> T mod b = 1 mod b -> T <= c < T + b -> block c = block T.
Proof using Type.
  intros Hb HT Hc. unfold block. apply mod_one_div in HT; [|done].
  symmetry. apply Z.div_unique with (r := c - 1 - b * ((T - 1) / b)); lia.
Qed.

(** The next value of a block is in it unless it is a multiple of [b]. *)
Lemma block_succ c : 0 < b -> c mod b <> 0 -> block (c + 1) = block c.
Proof using Type.
  intros Hb Hc. unfold block. replace (c + 1 - 1) with c by lia.
  pose proof (Z.div_mod c b). pose proof (Z.mod_pos_bound c b).
  apply Z.div_unique with (r := c mod b - 1); lia.
Qed.

Lemma batch_inv_step X currs m i c :
  0 < b -> batch_inv X currs m -> currs !! i = Some c -> timestamp m + b <= UINT64_MAX ->
  exists t c' m', get_next_ts TS_CAS true b 1 1 0 0 0 c m = Ok (t, c', m') /\
    (t ∉ X) /\ timestamp m' <= timestamp m + b /\ batch_inv (t :: X) (<[i := c']> currs) m'.
Proof using Type.
  intros Hb [[HT HT1] HX Hcur Hap] Hi Hover. unfold get_next_ts.
  assert (forall j d, j <> i -> <[i := c + 1]> currs !! j = Some d -> currs !! j = Some d) as Hne.
  { intros j d Hji. by rewrite list_lookup_insert_ne. }
  assert (forall v, <[i := v]> currs !! i = Some v) as Heq.
  { intros v. apply list_lookup_insert_eq. by eapply lookup_lt_Some. }
  assert (forall v j d, <[i := v]> currs !! j = Some d ->
    j = i /\ d = v \/ j <> i /\ currs !! j = Some d) as Hcase.
  { intros v j d Hd. destruct (decide (j = i)) as [->|Hji].
    - rewrite Heq in Hd. left. by injection Hd.
    - right. by rewrite list_lookup_insert_ne in Hd. }
  rewrite Forall_forall in HX.
  destruct (Z.eqb_spec (c mod b) 0) as [Hm|Hm]; cbn.
  - set (T := timestamp m) in *. rewrite !(wrap64_small (T + _)) by lia.
    rewrite (wrap64_small (T + 1 - 1)) by lia. replace (T + 1 - 1) with T by lia.
    eexists T, _, _. split; [done|]. cbn. split_and!; [intros H%HX; lia|lia|].
    assert (forall j d, currs !! j = Some d -> d mod b <> 0 -> block d < block T) as Hbef.
    { intros j d Hd Hdm. apply block_before; [done|done|]. by apply (Hcur j d Hd Hdm). }
    split; cbn.
    + split; [|lia]. rewrite <- HT. replace (T + b) with (T + 1 * b) by lia. apply Z_mod_plus_full.
    + apply Forall_forall. intros x [->|Hx]%elem_of_cons; [lia|]. specialize (HX _ Hx). lia.
    + intros j d [[-> ->]|[Hj Hd]]%Hcase Hdm.
      * assert (b <> 1) by (intros ->; by rewrite Z.mod_1_r in Hdm). split; [lia|].
        intros x [->|Hx]%elem_of_cons Hbl; [lia|]. specialize (HX _ Hx). lia.
      * destruct (Hcur j d Hd Hdm) as [? Hxs]. split; [lia|].
        intros x [->|Hx]%elem_of_cons Hbl; [specialize (Hbef _ _ Hd Hdm); lia|auto].
    + assert (forall d j, currs !! j = Some d -> d mod b <> 0 -> (T + 1) mod b <> 0 ->
        block d <> block (T + 1)) as Hd'.
      { intros d j Hd Hdm HTm. assert (b <> 1) by (intros ->; by rewrite Z.mod_1_r in HTm).
        rewrite (block_inside T (T + 1)) by (done || lia). specialize (Hbef _ _ Hd Hdm). lia. }
      intros j k d e Hjk [[-> ->]|[Hj Hd]]%Hcase [[-> ->]|[Hk He]]%Hcase Hdm Hem;
        [done| | |by eapply (Hap j k)].
      * intros E. by eapply Hd'.
      * by eapply Hd'.
  - destruct (Hcur i c Hi Hm) as [Hc Hxc].
    rewrite (wrap64_small (c + 1)) by lia. rewrite (wrap64_small (c + 1 - 1)) by lia.
    replace (c + 1 - 1) with c by lia. eexists c, _, _. split; [done|].
    split_and!; [intros H; specialize (Hxc _ H eq_refl); lia|lia|]. split.
    + done.
    + apply Forall_forall. intros x [->|Hx]%elem_of_cons; [lia|by apply HX].
    + intros j d [[-> ->]|[Hj Hd]]%Hcase Hdm.
      * assert (block (c + 1) = block c) as Hbs by (by apply block_succ).
        split.
        { split; [lia|]. destruct (Z_lt_le_dec (c + 1) (timestamp m)); [done|]. exfalso.
          assert (timestamp m = c + 1) as E by lia.
          assert (block c < block (timestamp m)) by (apply block_before; lia || done).
          rewrite E in *. lia. }
        intros x [->|Hx]%elem_of_cons Hbl; [lia|]. rewrite Hbs in Hbl. specialize (Hxc _ Hx Hbl). lia.
      * destruct (Hcur j d Hd Hdm) as [? Hxs]. split; [done|].
        intros x [->|Hx]%elem_of_cons Hbl; [|auto]. exfalso. by eapply (Hap j i).
    + intros j k d e Hjk [[-> ->]|[Hj Hd]]%Hcase [[-> ->]|[Hk He]]%Hcase Hdm Hem;
        [done| | |by eapply (Hap j k)]; rewrite block_succ by done; (eapply Hap; [|eassumption..]); congruence.
Qed.

(** Without batches: the greatest timestamp issued. *)
Definition last_issued (alloc : ts_alloc) (m : Manager) : Z :=
  match alloc with TS_MUTEX => timestamp m | _ => timestamp m - 1 end.

Lemma counter_step alloc X m c :
  alloc = TS_MUTEX \/ alloc = TS_CAS ->
  0 <= timestamp m < UINT64_MAX ->
  Forall (fun x => x <= last_issued alloc m) X ->
  exists t c' m', get_next_ts alloc false b 1 1 0 0 0 c m = Ok (t, c', m') /\
    (t ∉ X) /\ timestamp m' = timestamp m + 1 /\
    Forall (fun x => x <= last_issued alloc m') (t :: X).
Proof using Type.
  intros Ha HT HX. rewrite Forall_forall in HX. unfold get_next_ts, get_ts.
  destruct Ha as [-> | ->]; cbn; rewrite wrap64_small by lia; cbn in HX;
    (eexists _, _, _; split; [done|]; cbn; split_and!; [|done|]).
  - intros Hx%HX. lia.
  - apply Forall_cons. split; [lia|]. apply Forall_forall. intros x Hx%HX. lia.
  - intros Hx%HX. lia.
  - apply Forall_cons. split; [lia|]. apply Forall_forall. intros x Hx%HX. lia.
Qed.
End Counter.

Lemma run_batch b calls : 0 < b -> forall X currs m,
  batch_inv b X currs m -> Forall (fun i => (i < length currs)%nat) calls -> NoDup X ->
  timestamp m + Z.of_nat (length calls) * b <= UINT64_MAX ->
  exists out, run_next_ts TS_CAS true b calls currs m = Ok out /\ length out = length calls /\
    NoDup (rev out ++ X).
Proof.
  intros Hb. induction calls as [|i calls IH]; intros X currs m Hinv Hi Hnd Hover;
    [by exists []|]. cbn [length run_next_ts] in *. apply Forall_cons in Hi as [Hi His].
  destruct (lookup_lt_is_Some_2 currs i Hi) as [c Hc]. rewrite Hc.
  destruct (batch_inv_step b X currs m i c) as (t & c' & m' & -> & Ht & Hm' & Hinv'); [done..|nia|].
  destruct (IH (t :: X) (<[i := c']> currs) m') as (out & Hout & Hlen & Hnd'); [done| | |nia|].
  - by rewrite length_insert.
  - by constructor.
  - cbn. rewrite Hout. exists (t :: out). cbn. split_and!; [done|lia|]. by rewrite <- app_assoc.
Qed.

Lemma run_counter alloc b calls : alloc = TS_MUTEX \/ alloc = TS_CAS -> forall X currs m,
  Forall (fun x => x <= last_issued alloc m) X ->
  Forall (fun i => (i < length currs)%nat) calls -> NoDup X ->
  0 <= timestamp m -> timestamp m + Z.of_nat (length calls) <= UINT64_MAX ->
  exists out, run_next_ts alloc false b calls currs m = Ok out /\ length out = length calls /\
    NoDup (rev out ++ X).
Proof.
  intros Ha. induction calls as [|i calls IH]; intros X currs m Hinv Hi Hnd Hm Hover;
    [by exists []|]. cbn [length run_next_ts] in *. apply Forall_cons in Hi as [Hi His].
  destruct (lookup_lt_is_Some_2 currs i Hi) as [c Hc]. rewrite Hc.
  destruct (counter_step b alloc X m c) as (t & c' & m' & -> & Ht & Hm' & Hinv'); [done|lia|done|].
  destruct (IH (t :: X) (<[i := c']> currs) m') as (out & Hout & Hlen & Hnd'); [done| | |lia..|].
  - by rewrite length_insert.
  - by constructor.
  - cbn. rewrite Hout. exists (t :: out). cbn. split_and!; [done|lia|]. by rewrite <- app_assoc.
Qed.

(** Timestamps allocated from the counter are unique.  However the calls
    of the workers of a node interleave, [get_next_ts] succeeds and no two
    calls return the same timestamp, with the mutex, with the atomic counter,
    and with batches of [g_ts_batch_num] handed out by the workers themselves
    (whose [_curr_ts] must start at a multiple of the batch size: the
    constructor does not initialise it), until the counter overflows. *)
Theorem next_ts_unique (alloc : ts_alloc) (batch : bool) (b : Z) (calls : list nat) (currs : list Z) :
  (alloc = TS_MUTEX /\ batch = false \/ alloc = TS_CAS) -> 0 < b ->
  Forall (fun c => c mod b = 0) currs -> Forall (fun i => (i < length currs)%nat) calls ->
  1 + Z.of_nat (length calls) * b <= UINT64_MAX ->
  exists out, run_next_ts alloc batch b calls currs mgr_init = Ok out /\
    length out = length calls /\ NoDup out.
Proof.
  intros Ha Hb Hc Hi Hover.
  assert (forall out : list Z, NoDup (rev out ++ []) -> NoDup out) as Hrev.
  { intros out. rewrite app_nil_r, <- (Permutation_rev out). done. }
  destruct batch.
  - destruct Ha as [[_ ?]| ->]; [done|].
    destruct (run_batch b calls Hb [] currs mgr_init) as (out & ? & ? & ?); [|done|constructor|cbn; lia|eauto].
    assert (forall i c, currs !! i = Some c -> c mod b = 0) as Hz
      by (intros i c Hl; by apply (Forall_lookup_1 _ _ _ _ Hc Hl)).
    split; cbn; [lia|constructor| |]; intros; exfalso; eauto.
  - destruct (run_counter alloc b calls) with (X := @nil Z) (currs := currs) (m := mgr_init)
      as (out & ? & ? & ?); [tauto|constructor|done|constructor|cbn; lia|cbn; nia|eauto].
Qed.

Lemma next_ts_unique_witness :
  exists out, run_next_ts TS_CAS true 4 [0; 1; 0; 1; 1; 0; 0]%nat [0; 8] mgr_init = Ok out /\
    length out = 7%nat /\ NoDup out.
Proof.
  apply (next_ts_unique TS_CAS true 4 [0; 1; 0; 1; 1; 0; 0]%nat [0; 8]);
    [by right|lia|by repeat constructor|repeat constructor; cbn; lia|vm_compute; discriminate].
Defined.

(** ** Timestamps from the clock *)

Lemma clock_ts_small nc tc id wall thd :
  0 < nc -> 0 < tc -> nc + tc < 4294967296 -> nc * tc < 4294967296 ->
  0 <= id < nc -> 0 <= thd < tc -> 0 <= wall -> (wall + 1) * (nc + tc) + nc * tc <= UINT64_MAX ->
  clock_ts nc tc id wall thd = wall * (nc + tc) + (id * tc + thd).
Proof.
  intros. unfold clock_ts. assert (id * tc + thd < nc * tc) by nia.
  assert (0 <= wall * (nc + tc)) by nia.
  rewrite !wrap32_small by nia. rewrite (wrap64_small (wall * _)) by nia.
  rewrite (wrap64_small (id * tc + thd)) by nia. apply wrap64_small. nia.
Qed.

(** Timestamps from the clock are unique across the nodes and worker
    threads exactly when the configuration has [nodes * threads <= nodes +
    threads].  [get_ts] scales the wall clock by the sum of the two counts but
    adds an offset that ranges over their product, so with the repository's
    configuration (2 nodes, 32 threads) two workers whose clocks differ by one
    tick can get the same timestamp. *)
Theorem clock_ts_unique_iff (nc tc : Z) :
  0 < nc -> 0 < tc -> nc + tc < 4294967296 -> nc * tc < 4294967296 ->
  (forall n1 t1 w1 n2 t2 w2,
     0 <= n1 < nc -> 0 <= t1 < tc -> 0 <= w1 -> 0 <= n2 < nc -> 0 <= t2 < tc -> 0 <= w2 ->
     (w1 + 1) * (nc + tc) + nc * tc <= UINT64_MAX -> (w2 + 1) * (nc + tc) + nc * tc <= UINT64_MAX ->
     clock_ts nc tc n1 w1 t1 = clock_ts nc tc n2 w2 t2 -> n1 = n2 /\ t1 = t2 /\ w1 = w2) <->
  nc * tc <= nc + tc.
Proof.
  intros Hn Ht Hs Hp. split.
  - intros Hu. destruct (Z_le_gt_dec (nc * tc) (nc + tc)) as [|Hgt]; [done|]. exfalso.
    set (s := nc + tc) in *. pose proof (Z.div_mod s tc). pose proof (Z.mod_pos_bound s tc).
    assert (0 <= s / tc < nc) by (split; [apply Z.div_pos; lia|apply Z.div_lt_upper_bound; lia]).
    destruct (Hu (s / tc) (s mod tc) 0 0 0 1) as (_ & _ & ?); [lia..| | | |done];
      [unfold UINT64_MAX; lia..|]. subst s. rewrite !clock_ts_small by (unfold UINT64_MAX; lia). lia.
  - intros Hle n1 t1 w1 n2 t2 w2 ? ? ? ? ? ? ? ?. rewrite !clock_ts_small by lia. intros E.
    assert (forall n t, 0 <= n < nc -> 0 <= t < tc -> 0 <= n * tc + t < nc + tc) as Hoff.
    { intros n t ? ?. assert ((n + 1) * tc <= nc * tc) by (apply Z.mul_le_mono_nonneg_r; lia). lia. }
    destruct (Z.div_mod_unique (nc + tc) w1 w2 (n1 * tc + t1) (n2 * tc + t2)) as [Hw Ho];
      [left; by apply Hoff..|lia|].
    destruct (Z.div_mod_unique tc n1 n2 t1 t2) as [Hn1 Ht1]; [left; lia..|lia|done].
Qed.

Lemma clock_ts_unique_iff_witness :
  ~ (forall n1 t1 w1 n2 t2 w2,
     0 <= n1 < 2 -> 0 <= t1 < 32 -> 0 <= w1 -> 0 <= n2 < 2 -> 0 <= t2 < 32 -> 0 <= w2 ->
     (w1 + 1) * (2 + 32) + 2 * 32 <= UINT64_MAX -> (w2 + 1) * (2 + 32) + 2 * 32 <= UINT64_MAX ->
     clock_ts 2 32 n1 w1 t1 = clock_ts 2 32 n2 w2 t2 -> n1 = n2 /\ t1 = t2 /\ w1 = w2).
Proof.
  intros H%(clock_ts_unique_iff 2 32); [|lia..]. by vm_compute in H.
Defined.

(** ** The recycling threshold *)

(** The manager next to the transaction table of its node.  A table step may
    only tell the table of timestamps that are not below the threshold in
    force ([mg_table]'s condition); [mg_race] has no such condition. *)
Inductive mg_step (mvcc : bool) : Manager * TxnTable * list Z -> Manager * TxnTable * list Z -> Prop :=
| mg_table m t told t' told' :
    tt_step mvcc (t, told) (t', told') ->
    (forall id b n, id ∈ told' -> id ∉ told \/ lookup_node false id b t <> Some n ->
       lookup_node false id b t' = Some n -> mgr_min_ts m <= tn_timestamp n) ->
    mg_step mvcc (m, t, told) (m, t', told')
| mg_min now th m m' t told :
    mgr_get_min_ts now t m = (th, m') ->
    mg_step mvcc (m, t, told) (m', t, told).

Lemma mgr_get_min_ts_le now t m th m' :
  mgr_get_min_ts now t m = (th, m') ->
  th = mgr_min_ts m' /\ mgr_min_ts m <= mgr_min_ts m' /\
  (mgr_min_ts m' = mgr_min_ts m \/ mgr_min_ts m' = get_min_ts t).
Proof.
  unfold mgr_get_min_ts. destruct (_ <? _).
  - intros [= <- <-]. cbn. destruct (Z.ltb_spec (mgr_min_ts m) (get_min_ts t)); split_and!; lia || tauto.
  - intros [= <- <-]. split_and!; lia || tauto.
Qed.

Definition mg_inv (s : Manager * TxnTable * list Z) : Prop :=
  let '(m, t, told) := s in
  min_inv (t, told) /\
  forall id b n, id ∈ told -> lookup_node false id b t = Some n -> mgr_min_ts m <= tn_timestamp n.

Lemma mg_inv_step mvcc s s' : mg_inv s -> mg_step mvcc s s' -> mg_inv s'.
Proof.
  intros Hinv Hstep. destruct Hstep as [m t told t' told' Hs Hc|now th m m' t told Hm];
    cbn in Hinv |- *; destruct Hinv as [Hmin Hth].
  - split; [by eapply min_inv_step|]. intros id b n Hin Hl.
    destruct (decide (id ∈ told)) as [Hold|Hnew]; [|by eapply (Hc id b n); [|left|]].
    destruct (lookup_node false id b t) as [n0|] eqn:Hl0.
    + destruct (Z.le_gt_cases (mgr_min_ts m) (tn_timestamp n)) as [|Hlt]; [done|].
      eapply (Hc id b n); [done| |done]. right. intros E. rewrite Hl0 in E. injection E as ->.
      specialize (Hth _ _ _ Hold Hl0). lia.
    + eapply (Hc id b n); [done|by right; rewrite Hl0|done].
  - split; [done|]. apply mgr_get_min_ts_le in Hm as (_ & _ & Hm). intros id b n Hin Hl.
    specialize (Hth _ _ _ Hin Hl). pose proof (min_inv_safe _ _ _ _ _ Hmin Hin Hl). lia.
Qed.

(** The recycling threshold is safe while no transaction reports a
    timestamp below it: then [Manager::get_min_ts] never goes back, and never
    exceeds the timestamp of a transaction that has reported to the table. *)
Theorem mgr_min_ts_safe (mvcc : bool) (pool_size : nat) (m m' : Manager) (t : TxnTable)
    (told : list Z) (id b now th : Z) (n : txn_node) :
  (0 < pool_size)%nat ->
  rtc (mg_step mvcc) (mgr_init, init pool_size, []) (m, t, told) ->
  mgr_get_min_ts now t m = (th, m') ->
  mgr_min_ts m <= th /\
  (id ∈ told -> lookup_node false id b t = Some n -> th <= tn_timestamp n).
Proof.
  intros Hk Hr Hm. assert (mg_inv (m, t, told)) as Hinv.
  { eapply rtc_invariant; [|intros ? ?; apply mg_inv_step|exact Hr].
    split; [by apply min_inv_init|]. set_solver. }
  pose proof Hm as Hle. apply mgr_get_min_ts_le in Hle as (-> & Hmono & _). split; [done|].
  assert (mg_inv (m', t, told)) as [_ Hth]
    by (eapply mg_inv_step; [exact Hinv|]; by eapply (mg_min mvcc)).
  eauto.
Qed.

(** Steps of a table whose timestamps are not below the threshold. *)
Lemma mg_table_above mvcc m t told t' told' :
  tt_step mvcc (t, told) (t', told') ->
  Forall (fun p => Forall (fun n => mgr_min_ts m <= tn_timestamp n) (nodes p)) t' ->
  mg_step mvcc (m, t, told) (m, t', told').
Proof.
  intros Hs HF. apply mg_table; [done|]. intros id b n _ _. unfold lookup_node.
  destruct (t' !! pool_id id t') as [p|] eqn:E; [|done]. intros [Hn _]%find_node_Some.
  pose proof (Forall_lookup_1 _ _ _ _ HF E) as Hp. rewrite Forall_forall in Hp. auto.
Qed.

Lemma mgr_min_ts_safe_witness :
  mgr_get_min_ts 20000000 (table3 [mkNode 42 7 0 100] 100) mgr_init =
    (100, mkManager 1 20000000 100) /\ 0 <= 100 <= 100.
Proof.
  split; [vm_compute; reflexivity|]. destruct (tt_steps_100 true) as (S1 & S2 & S3).
  edestruct (mgr_min_ts_safe true 3 mgr_init (mkManager 1 20000000 100)
    (table3 [mkNode 42 7 0 100] 100) [7] 7 0
    20000000 100 (mkNode 42 7 0 100)) as [H1 H2]; [lia| |vm_compute; reflexivity|].
  - do 3 (eapply rtc_l; [eapply mg_table_above;
      [eassumption|repeat constructor; vm_compute; discriminate]|]). apply rtc_refl.
  - split; [done|]. apply H2; [by left|vm_compute; reflexivity].
Defined.

(** Nothing makes the condition of the previous property hold.  A worker
    allocates a timestamp, stores it in the transaction, and reports it to the
    table in three separate steps: transaction 7 takes timestamp 100, then
    transaction 8 takes 200, reports it and asks for the threshold, and then 7
    reports.  Without any condition on the table steps, the threshold is then
    200 while transaction 7, active and registered, has timestamp 100. *)
Theorem mgr_min_ts_race :
  exists t m told,
    rtc (tt_step true) (init 2, [])
      ([mkPool [mkNode 43 8 0 200] 1 200; mkPool [mkNode 42 7 0 100] 1 UINT64_MAX], [8]) /\
    mgr_get_min_ts 20000000
      [mkPool [mkNode 43 8 0 200] 1 200; mkPool [mkNode 42 7 0 100] 1 UINT64_MAX] mgr_init =
      (200, m) /\
    tt_step true
      ([mkPool [mkNode 43 8 0 200] 1 200; mkPool [mkNode 42 7 0 100] 1 UINT64_MAX], [8])
      (t, told) /\
    7 ∈ told /\ lookup_node false 7 0 t = Some (mkNode 42 7 0 100) /\
    mgr_get_min_ts 20000001 t m = (200, m).
Proof.
  eexists [mkPool [mkNode 43 8 0 200] 1 200; mkPool [mkNode 42 7 0 100] 1 100],
    (mkManager 1 20000000 200), [7; 8]. split_and!; try (vm_compute; reflexivity).
  - assert (forall p : pool_node, p ∈ init 2 -> Z.of_nat (length (nodes p)) < UINT64_MAX) as Hc1.
    { cbn. intros p Hp. repeat (apply elem_of_cons in Hp as [-> |Hp]; [vm_compute; reflexivity|]).
      by apply elem_of_nil in Hp. }
    set (e := mkPool [] 0 UINT64_MAX). set (p7 := mkPool [mkNode 42 7 0 UINT64_MAX] 1 UINT64_MAX).
    set (p7' := mkPool [mkNode 42 7 0 100] 1 UINT64_MAX).
    set (p8 := mkPool [mkNode 43 8 0 UINT64_MAX] 1 UINT64_MAX).
    set (p8' := mkPool [mkNode 43 8 0 200] 1 UINT64_MAX).
    eapply (rtc_l _ _ ([e; p7], [7])).
    { by apply (tts_get true 7 0 42 42). }
    eapply (rtc_l _ _ ([p8; p7], [8; 7])).
    { apply (tts_get true 8 0 43 43); [|done]. intros p Hp.
      repeat (apply elem_of_cons in Hp as [-> |Hp]; [vm_compute; reflexivity|]). by apply elem_of_nil in Hp. }
    eapply (rtc_l _ _ ([p8; p7'], [8])).
    { apply (tts_set true 7 0 100 [p8; p7] [8; 7]). }
    eapply (rtc_l _ _ ([p8'; p7'], [])).
    { apply (tts_set true 8 0 200 [p8; p7'] [8]). }
    apply rtc_once. by apply (tts_update true 8 0 (mkNode 43 8 0 200)).
  - by apply (tts_update true 7 0 (mkNode 42 7 0 100)).
  - by left.
Qed.
