(* ===== verification/IndexHash.v ===== *)
(** * IndexHash: the hash index

    Model of storage/index_hash.cpp and of the two [index_insert] helpers of
    system/wl.cpp.  A bucket is its list of nodes (first to last), a node a key
    with the chain of rows that its items point to.  Inserts hold the bucket's
    latch and are atomic; reads take no latch (the code has it commented out),
    so what is proved of them is for reads that do not overlap an insert.
    [g_part_cnt] is the scaling of the YCSB hash function. *)

From stdpp Require Import gmap list sorting relations.
From S2P Require Import Prelude.
#[local] Open Scope Z_scope.

(** [BucketNode]: the key and the rows of its items, the newest first. *)
Record BucketNode := mkBNode {
  bn_key : Z;
  bn_items : list Z;
}.

Abbreviation BucketHeader := (list BucketNode).

Record IndexHash := mkIndex {
  bucket_cnt : Z;
  buckets : list BucketHeader;
}.

Section IndexHash.
Context (ycsb : bool) (g_part_cnt : Z).

Definition index_init (cnt : Z) : IndexHash := mkIndex cnt (replicate (Z.to_nat cnt) []).

Definition index_hash (key : Z) (idx : IndexHash) : Z :=
  if ycsb then (key / g_part_cnt) mod bucket_cnt idx else key mod bucket_cnt idx.

(** [insert_item] of an item whose row is [row] and whose [next] is null. *)
Fixpoint insert_item (key row : Z) (b : BucketHeader) : BucketHeader :=
  match b with
  | [] => [mkBNode key [row]]
  | n :: b' => if bn_key n =? key then mkBNode (bn_key n) (row :: bn_items n) :: b'
               else n :: insert_item key row b'
  end.

Definition insert_item_nonunique (key row : Z) (b : BucketHeader) : BucketHeader :=
  mkBNode key [row] :: b.

Fixpoint read_item (key : Z) (b : BucketHeader) : res (list Z) :=
  match b with
  | [] => AssertFail
  | n :: b' => if bn_key n =? key then Ok (bn_items n) else read_item key b'
  end.

(** The overload with a count: [None] is the null item. *)
Fixpoint read_item_nth (key count ctr : Z) (b : BucketHeader) : option (list Z) :=
  match b with
  | [] => None
  | n :: b' =>
      if bn_key n =? key then
        if ctr =? count then Some (bn_items n) else read_item_nth key count (wrap32 (ctr + 1)) b'
      else read_item_nth key count ctr b'
  end.

(** The bucket of a key, with the assertion on its number. *)
Definition bucket_of (key : Z) (idx : IndexHash) : res BucketHeader :=
  assert! (index_hash key idx <? bucket_cnt idx);
  match buckets idx !! Z.to_nat (index_hash key idx) with
  | Some b => Ok b
  | None => AssertFail
  end.

Definition set_bucket (key : Z) (b : BucketHeader) (idx : IndexHash) : IndexHash :=
  mkIndex (bucket_cnt idx) (<[Z.to_nat (index_hash key idx) := b]> (buckets idx)).

Definition index_insert (key row : Z) (idx : IndexHash) : res IndexHash :=
  b ← bucket_of key idx; mret (set_bucket key (insert_item key row b) idx).

Definition index_insert_nonunique (key row : Z) (idx : IndexHash) : res IndexHash :=
  b ← bucket_of key idx; mret (set_bucket key (insert_item_nonunique key row b) idx).

Definition index_read (key : Z) (idx : IndexHash) : res (list Z) :=
  b ← bucket_of key idx; read_item key b.

Definition index_read_nth (key count : Z) (idx : IndexHash) : res (option (list Z)) :=
  b ← bucket_of key idx; mret (read_item_nth key (wrap32 count) 0 b).

(** [delete_bucket]: the rows it frees; the bucket is empty afterwards. *)
Definition delete_bucket (b : BucketHeader) : list Z := omap (fun n => head (bn_items n)) b.

Definition index_reset (idx : IndexHash) : list Z * IndexHash :=
  (concat (delete_bucket <$> buckets idx), mkIndex (bucket_cnt idx) ((fun _ => []) <$> buckets idx)).

(** [index_delete] frees the rows of every bucket, then the buckets. *)
Definition index_delete (idx : IndexHash) : list Z := concat (delete_bucket <$> buckets idx).

(** [index_exist] is not implemented: its body is [assert(false)]. *)
Definition index_exist (key : Z) (idx : IndexHash) : res bool := AssertFail.

(** The operations that change the index, and a run of them. *)
Inductive idx_op :=
| OpInsert (key row : Z)
| OpInsertNonunique (key row : Z)
| OpReset.

Definition idx_step (o : idx_op) (idx : IndexHash) : res IndexHash :=
  match o with
  | OpInsert key row => index_insert key row idx
  | OpInsertNonunique key row => index_insert_nonunique key row idx
  | OpReset => Ok (snd (index_reset idx))
  end.

Fixpoint idx_run (ops : list idx_op) (idx : IndexHash) : res IndexHash :=
  match ops with
  | [] => Ok idx
  | o :: ops' => idx' ← idx_step o idx; idx_run ops' idx'
  end.
End IndexHash.

(** ** Specification

    For each key, the chains of rows that readers find, in the order in which
    the overload with a count numbers them. *)

Definition index_spec : Type := Z -> list (list Z).

Definition spec_step (o : idx_op) (s : index_spec) : index_spec :=
  match o with
  | OpInsert key row => fun k =>
      if k =? key then match s k with [] => [[row]] | c :: cs => (row :: c) :: cs end else s k
  | OpInsertNonunique key row => fun k => if k =? key then [row] :: s k else s k
  | OpReset => fun _ => []
  end.

Definition spec_run (ops : list idx_op) (s : index_spec) : index_spec :=
  foldl (fun s o => spec_step o s) s ops.

(** The chains of a key in a bucket. *)
Definition chains (key : Z) (b : BucketHeader) : list (list Z) :=
  omap (fun n => if bn_key n =? key then Some (bn_items n) else None) b.

Section Refinement.
Context (ycsb : bool) (g_part_cnt : Z).

Abbreviation hash := (index_hash ycsb g_part_cnt).

(** The refinement relation: every key's chains are in its bucket, and its
    bucket only holds keys that hash to it. *)
Record index_rel (idx : IndexHash) (s : index_spec) : Prop := {
  ir_cnt : 0 < bucket_cnt idx;
  ir_len : length (buckets idx) = Z.to_nat (bucket_cnt idx);
  ir_chains k : exists b, buckets idx !! Z.to_nat (hash k idx) = Some b /\ chains k b = s k;
  ir_home i b n : buckets idx !! i = Some b -> n ∈ b -> Z.to_nat (hash (bn_key n) idx) = i;
  ir_items i b n : buckets idx !! i = Some b -> n ∈ b -> bn_items n <> [];
}.

Lemma hash_bound k idx : 0 < bucket_cnt idx -> 0 <= hash k idx < bucket_cnt idx.
Proof using Type. intros. unfold index_hash. destruct ycsb; by apply Z.mod_pos_bound. Qed.

Lemma bucket_of_ok k idx b :
  0 < bucket_cnt idx -> buckets idx !! Z.to_nat (hash k idx) = Some b ->
  bucket_of ycsb g_part_cnt k idx = Ok b.
Proof using Type.
  intros Hc E. unfold bucket_of. pose proof (hash_bound k idx Hc).
  rewrite (proj2 (Z.ltb_lt _ _)) by lia. cbn. by rewrite E.
Qed.

Lemma chains_cons k n b :
  chains k (n :: b) = if bn_key n =? k then bn_items n :: chains k b else chains k b.
Proof using Type. unfold chains. cbn. by destruct (bn_key n =? k). Qed.

Lemma chains_insert k key row b :
  chains k (insert_item key row b) =
  if k =? key then match chains k b with [] => [[row]] | c :: cs => (row :: c) :: cs end
  else chains k b.
Proof using Type.
  induction b as [|n b IH]; cbn [insert_item].
  - rewrite chains_cons. cbn. rewrite (Z.eqb_sym key k). by destruct (k =? key).
  - destruct (Z.eqb_spec (bn_key n) key) as [E|E]; rewrite !chains_cons; cbn [bn_key bn_items].
    + rewrite E, (Z.eqb_sym key k). by destruct (Z.eqb_spec k key).
    + destruct (Z.eqb_spec (bn_key n) k) as [Ek|Ek]; [|apply IH].
      rewrite IH, (proj2 (Z.eqb_neq k key)) by congruence. done.
Qed.

Lemma chains_insert_nonunique k key row b :
  chains k (insert_item_nonunique key row b) = if k =? key then [row] :: chains k b else chains k b.
Proof using Type.
  unfold insert_item_nonunique. rewrite chains_cons. cbn. rewrite (Z.eqb_sym key k).
  by destruct (k =? key).
Qed.

Lemma insert_item_elem key row b n :
  n ∈ insert_item key row b -> n ∈ b \/ bn_key n = key /\ bn_items n <> [].
Proof using Type.
  induction b as [|x b IH]; cbn.
  - intros ->%list_elem_of_singleton. by right.
  - destruct (Z.eqb_spec (bn_key x) key) as [E|E]; intros [->|H]%elem_of_cons.
    + by right.
    + left. by right.
    + left. by left.
    + destruct (IH H); [left; by right|by right].
Qed.

(** Replacing the bucket of [key]. *)
Lemma index_rel_set idx s key b b' (s' : index_spec) :
  index_rel idx s -> buckets idx !! Z.to_nat (hash key idx) = Some b ->
  (forall n, n ∈ b' -> n ∈ b \/ bn_key n = key /\ bn_items n <> []) ->
  (forall k, chains k b = s k -> chains k b' = s' k) ->
  (forall k, k <> key -> s' k = s k) ->
  index_rel (set_bucket ycsb g_part_cnt key b' idx) s'.
Proof using Type.
  intros [Hc Hl Hch Hh Hi] E Hb' Hs Hs'.
  assert (Z.to_nat (hash key idx) < length (buckets idx))%nat as Hlt by (by eapply lookup_lt_Some).
  split; cbn.
  - done.
  - by rewrite length_insert.
  - intros k. destruct (Hch k) as (bk & Ek & Hk).
    change (hash k (set_bucket ycsb g_part_cnt key b' idx)) with (hash k idx).
    destruct (decide (Z.to_nat (hash k idx) = Z.to_nat (hash key idx))) as [Eq|Ne].
    + exists b'. rewrite Eq, list_lookup_insert_eq by done. split; [done|]. apply Hs. congruence.
    + exists bk. rewrite list_lookup_insert_ne by done. split; [done|].
      rewrite Hk. symmetry. apply Hs'. congruence.
  - intros i bi n Hbi Hn. change (hash (bn_key n) (set_bucket ycsb g_part_cnt key b' idx))
      with (hash (bn_key n) idx).
    destruct (decide (i = Z.to_nat (hash key idx))) as [->|Ne].
    + rewrite list_lookup_insert_eq in Hbi by done. injection Hbi as <-.
      destruct (Hb' n Hn) as [Hb|[-> _]]; [by eapply Hh|done].
    + rewrite list_lookup_insert_ne in Hbi by done. by eapply Hh.
  - intros i bi n Hbi Hn. destruct (decide (i = Z.to_nat (hash key idx))) as [->|Ne].
    + rewrite list_lookup_insert_eq in Hbi by done. injection Hbi as <-.
      destruct (Hb' n Hn) as [Hb|[_ ?]]; [by eapply Hi|done].
    + rewrite list_lookup_insert_ne in Hbi by done. by eapply Hi.
Qed.

Lemma index_rel_init cnt : 0 < cnt -> index_rel (index_init cnt) (fun _ => []).
Proof using Type.
  intros Hc. assert (forall i b, buckets (index_init cnt) !! i = Some b -> b = []) as Hb
    by (intros i b [-> _]%lookup_replicate; done).
  split; cbn.
  - done.
  - by rewrite length_replicate.
  - intros k. exists []. split; [|done]. apply lookup_replicate. split; [done|].
    pose proof (hash_bound k (index_init cnt) Hc). cbn in *. lia.
  - intros i b n ->%Hb. set_solver.
  - intros i b n ->%Hb. set_solver.
Qed.

Lemma index_rel_reset idx s : index_rel idx s -> index_rel (snd (index_reset idx)) (fun _ => []).
Proof using Type.
  intros [Hc Hl Hch Hh Hi].
  assert (forall i b, buckets (snd (index_reset idx)) !! i = Some b -> b = []) as Hb.
  { intros i b. cbn. rewrite list_lookup_fmap. by intros (? & ? & ->)%fmap_Some. }
  split; cbn.
  - done.
  - by rewrite length_fmap.
  - intros k. destruct (Hch k) as (b & E & _). exists []. rewrite list_lookup_fmap.
    split; [|done]. change (hash k (mkIndex _ _)) with (hash k idx). by rewrite E.
  - intros i b n ->%Hb. set_solver.
  - intros i b n ->%Hb. set_solver.
Qed.

Lemma index_rel_step o idx s :
  index_rel idx s -> exists idx', idx_step ycsb g_part_cnt o idx = Ok idx' /\
    index_rel idx' (spec_step o s).
Proof using Type.
  intros Hr. destruct o as [key row|key row|]; cbn.
  - destruct (ir_chains _ _ Hr key) as (b & E & _). unfold index_insert.
    rewrite (bucket_of_ok _ _ _ (ir_cnt _ _ Hr) E). eexists. split; [done|].
    eapply index_rel_set; [done|done|by apply insert_item_elem| |].
    + intros k <-. apply chains_insert.
    + intros k Hk. cbn. by rewrite (proj2 (Z.eqb_neq _ _)).
  - destruct (ir_chains _ _ Hr key) as (b & E & _). unfold index_insert_nonunique.
    rewrite (bucket_of_ok _ _ _ (ir_cnt _ _ Hr) E). eexists. split; [done|].
    eapply index_rel_set; [done|done| | |].
    + intros n [->|H]%elem_of_cons; [by right|by left].
    + intros k <-. apply chains_insert_nonunique.
    + intros k Hk. cbn. by rewrite (proj2 (Z.eqb_neq _ _)).
  - eexists. split; [done|]. by eapply index_rel_reset.
Qed.

Lemma index_rel_run ops : forall idx s,
  index_rel idx s -> exists idx', idx_run ycsb g_part_cnt ops idx = Ok idx' /\
    index_rel idx' (spec_run ops s).
Proof using Type.
  induction ops as [|o ops IH]; intros idx s Hr; [by exists idx|]. cbn.
  destruct (index_rel_step o idx s Hr) as (idx1 & -> & Hr1). by apply IH.
Qed.

Lemma read_item_chains k b :
  read_item k b = match chains k b with [] => AssertFail | c :: _ => Ok c end.
Proof using Type. induction b as [|n b IH]; [done|]. rewrite chains_cons. cbn. by destruct (bn_key n =? k). Qed.

Lemma read_item_nth_chains k b : forall ctr count,
  0 <= ctr <= count -> count < 4294967296 ->
  read_item_nth k count ctr b = chains k b !! Z.to_nat (count - ctr).
Proof using Type.
  induction b as [|n b IH]; intros ctr count Hle Hb; [done|]. rewrite chains_cons. cbn [read_item_nth].
  destruct (bn_key n =? k); [|by apply IH].
  destruct (Z.eqb_spec ctr count) as [->|Hne]; [by rewrite Z.sub_diag|].
  rewrite wrap32_small, IH by lia.
  replace (Z.to_nat (count - ctr)) with (S (Z.to_nat (count - (ctr + 1)))) by lia. done.
Qed.
End Refinement.

(** ** Properties *)

(** C37. The hash index implements a map from keys to chains of rows.  After any
    run of inserts and resets, which never fails, [index_read] of a key
    returns the first chain of the specification, with the newest row first,
    and fails its assertion exactly when the key has none; the overload with a
    count returns the chain of that number, or null; keys that share a bucket
    do not disturb each other. *)
Theorem index_hash_refines (ycsb : bool) (g_part_cnt cnt : Z) (ops : list idx_op) :
  0 < cnt ->
  exists idx, idx_run ycsb g_part_cnt ops (index_init cnt) = Ok idx /\
    forall key,
      index_read ycsb g_part_cnt key idx =
        match spec_run ops (fun _ => []) key with [] => AssertFail | c :: _ => Ok c end /\
      forall count, 0 <= count < 4294967296 ->
        index_read_nth ycsb g_part_cnt key count idx =
          Ok (spec_run ops (fun _ => []) key !! Z.to_nat count).
Proof.
  intros Hc. destruct (index_rel_run ycsb g_part_cnt ops _ _ (index_rel_init _ _ cnt Hc))
    as (idx & E & Hr). exists idx. split; [done|]. intros key.
  destruct (ir_chains _ _ _ _ Hr key) as (b & Eb & <-).
  unfold index_read, index_read_nth. rewrite (bucket_of_ok _ _ _ _ _ (ir_cnt _ _ _ _ Hr) Eb). cbn.
  split; [apply read_item_chains|]. intros count Hcount.
  rewrite wrap32_small, read_item_nth_chains by lia. by rewrite Z.sub_0_r.
Qed.

Lemma index_hash_refines_witness :
  exists idx, idx_run true 2 [OpInsert 4 100; OpInsertNonunique 10 200; OpInsert 10 201] (index_init 3)
      = Ok idx /\ index_read true 2 10 idx = Ok [201; 200] /\ index_read true 2 4 idx = Ok [100].
Proof.
  destruct (index_hash_refines true 2 3
    [OpInsert 4 100; OpInsertNonunique 10 200; OpInsert 10 201]) as (idx & E & H); [lia|].
  exists idx. split; [done|]. split; by rewrite (proj1 (H _)).
Defined.

(** [index_reset] empties the index, but of the rows of a chain it frees
    only the newest: a row is freed exactly when it heads a chain, so the other
    rows inserted under the same key are leaked. *)
Theorem index_reset_frees_heads (ycsb : bool) (g_part_cnt cnt : Z) (ops : list idx_op)
    (idx idx' : IndexHash) (freed : list Z) :
  0 < cnt -> idx_run ycsb g_part_cnt ops (index_init cnt) = Ok idx ->
  index_reset idx = (freed, idx') ->
  (forall key, index_read ycsb g_part_cnt key idx' = AssertFail) /\
  (forall row, row ∈ freed <-> exists key c, (row :: c) ∈ spec_run ops (fun _ => []) key).
Proof.
  intros Hc Hrun Hreset.
  destruct (index_rel_run ycsb g_part_cnt ops _ _ (index_rel_init _ _ cnt Hc)) as (idx1 & E & Hr).
  rewrite Hrun in E. injection E as <-. split.
  - intros key. pose proof (index_rel_reset _ _ _ _ Hr) as Hr'. rewrite Hreset in Hr'. cbn in Hr'.
    destruct (ir_chains _ _ _ _ Hr' key) as (b & Eb & Hb). unfold index_read.
    rewrite (bucket_of_ok _ _ _ _ _ (ir_cnt _ _ _ _ Hr') Eb). cbn. by rewrite read_item_chains, Hb.
  - intros row. unfold index_reset in Hreset. injection Hreset as <- _. rewrite list_elem_of_In, in_concat.
    setoid_rewrite <- list_elem_of_In. split.
    + intros (l & (b & -> & Hb)%list_elem_of_fmap & (n & Hn & Hh)%list_elem_of_omap).
      destruct (bn_items n) as [|r c] eqn:En; [done|]. injection Hh as ->.
      exists (bn_key n), c. apply list_elem_of_lookup in Hb as [i Hi].
      destruct (ir_chains _ _ _ _ Hr (bn_key n)) as (b' & Eb & <-).
      rewrite (ir_home _ _ _ _ Hr i b n Hi Hn) in Eb. rewrite Hi in Eb. injection Eb as <-.
      apply list_elem_of_omap. exists n. split; [done|]. by rewrite Z.eqb_refl, En.
    + intros (key & c & Hin). destruct (ir_chains _ _ _ _ Hr key) as (b & Eb & Hs).
      rewrite <- Hs in Hin. apply list_elem_of_omap in Hin as (n & Hn & Hkn).
      destruct (Z.eqb_spec (bn_key n) key); [|done]. injection Hkn as Hit.
      exists (delete_bucket b). split.
      * apply list_elem_of_fmap. exists b. split; [done|]. by eapply list_elem_of_lookup_2.
      * apply list_elem_of_omap. exists n. split; [done|]. by rewrite Hit.
Qed.

Lemma index_reset_frees_heads_witness :
  ~ 200 ∈ ([100; 201] : list Z) /\ 201 ∈ ([100; 201] : list Z).
Proof.
  split; [set_solver|].
  eapply (index_reset_frees_heads true 2 3 [OpInsert 4 100; OpInsert 10 200; OpInsert 10 201]
    (mkIndex 3 [[]; []; [mkBNode 4 [100]; mkBNode 10 [201; 200]]]) (mkIndex 3 [[]; []; []])).
  - lia.
  - vm_compute. reflexivity.
  - vm_compute. reflexivity.
  - exists 10, [200]. vm_compute. left.
Defined.
