(* ===== verification/Loops.v ===== *)
(** * Loops: C arrays and counted loops

    Accesses to an array fail outside of its bounds, where C++ leaves the
    behaviour undefined: a run that is [Ok] stays within them.  [for_up lo n]
    runs its body for [i = lo, ..., lo + n - 1], [for_down hi n] for
    [i = hi, ..., hi - n + 1]; each comes with a total-correctness rule for
    a loop invariant. *)

From stdpp Require Import base tactics numbers list.
From Stdlib Require Import Lia.
From S2P Require Import Prelude.

Section Arrays.
Context {A : Type}.

(** [a[i]] and [a[i] = x]. *)
Definition aget (a : list A) (i : nat) : res A :=
  match a !! i with Some x => Ok x | None => AssertFail end.
Definition aset (a : list A) (i : nat) (x : A) : res (list A) :=
  if decide (i < length a) then Ok (<[i := x]> a) else AssertFail.

Lemma aget_Some a i x : a !! i = Some x -> aget a i = Ok x.
Proof. intros H. unfold aget. by rewrite H. Qed.
Lemma aget_Ok a i x : aget a i = Ok x <-> a !! i = Some x.
Proof. unfold aget. destruct (a !! i); split; congruence. Qed.
Lemma aset_ok a i x : i < length a -> aset a i x = Ok (<[i := x]> a).
Proof. intros H. unfold aset. by rewrite decide_True. Qed.

End Arrays.

Section For.
Context {S : Type}.

Fixpoint for_up (lo n : nat) (body : nat -> S -> res S) (s : S) : res S :=
  match n with
  | 0 => Ok s
  | Datatypes.S n => s ← body lo s; for_up (Datatypes.S lo) n body s
  end.

Fixpoint for_down (hi n : nat) (body : nat -> S -> res S) (s : S) : res S :=
  match n with
  | 0 => Ok s
  | Datatypes.S n => s ← body hi s; for_down (pred hi) n body s
  end.

Lemma for_up_rule (I : nat -> S -> Prop) lo n body s :
  I lo s ->
  (forall i s, lo <= i < lo + n -> I i s -> exists s', body i s = Ok s' /\ I (Datatypes.S i) s') ->
  exists s', for_up lo n body s = Ok s' /\ I (lo + n) s'.
Proof.
  revert lo s. induction n as [|n IH]; intros lo s H0 Hs; cbn.
  { exists s. by rewrite Nat.add_0_r. }
  destruct (Hs lo s ltac:(lia) H0) as (s1 & Hb & H1). rewrite Hb. cbn.
  rewrite Nat.add_succ_r, <- Nat.add_succ_l. apply IH; [done|].
  intros i s2 Hi. apply Hs. lia.
Qed.

(** [for (i = lo + n - 1; i >= lo; i--)]; the invariant at [i + 1] holds
    before the round of [i]. *)
Lemma for_down_rule (I : nat -> S -> Prop) lo n body s :
  I (lo + n) s ->
  (forall i s, lo <= i < lo + n -> I (Datatypes.S i) s ->
    exists s', body i s = Ok s' /\ I i s') ->
  exists s', for_down (pred (lo + n)) n body s = Ok s' /\ I lo s'.
Proof.
  revert s. induction n as [|n IH]; intros s H0 Hs; cbn [for_down].
  { exists s. by rewrite Nat.add_0_r in H0. }
  rewrite Nat.add_succ_r in *. cbn [pred] in *.
  destruct (Hs (lo + n) s ltac:(lia) H0) as (s1 & Hb & H1). rewrite Hb. cbn.
  apply IH; [done|]. intros i s2 Hi. apply Hs. lia.
Qed.

End For.

(** [while (i < n && p a[i]) i++] from [i]: the first index whose element
    fails the test. *)
Fixpoint scan_while {A} (p : A -> bool) (a : list A) (n i : nat) : res nat :=
  match n with
  | 0 => Ok i
  | S n => x ← aget a i; if p x then scan_while p a n (S i) else Ok i
  end.

(** The length of the longest prefix on which [p] holds. *)
Fixpoint prefix_len {A} (p : A -> bool) (l : list A) : nat :=
  match l with
  | [] => 0
  | x :: l => if p x then S (prefix_len p l) else 0
  end.

Lemma prefix_len_le {A} p (l : list A) : prefix_len p l <= length l.
Proof. induction l as [|x l IH]; cbn; [lia|]. destruct (p x); lia. Qed.

Lemma prefix_len_below {A} p (l : list A) i x :
  i < prefix_len p l -> l !! i = Some x -> p x = true.
Proof.
  revert i. induction l as [|y l IH]; cbn; intros i Hi Hx; [lia|].
  destruct (p y) eqn:E; [|lia]. destruct i; cbn in Hx; [by simplify_eq|].
  apply (IH i); [lia|done].
Qed.

Lemma prefix_len_at {A} p (l : list A) x : l !! prefix_len p l = Some x -> p x = false.
Proof.
  induction l as [|y l IH]; cbn; [done|]. destruct (p y) eqn:E; cbn; [done|].
  intros [= <-]. done.
Qed.

Lemma scan_while_prefix {A} (p : A -> bool) a n i :
  i + n <= length a ->
  scan_while p a n i = Ok (i + prefix_len p (take n (drop i a))).
Proof.
  revert i. induction n as [|n IH]; intros i Hn; cbn [scan_while].
  { by rewrite take_0, Nat.add_0_r. }
  destruct (lookup_lt_is_Some_2 a i ltac:(lia)) as [x Hx].
  rewrite (aget_Some a i x Hx). cbn [mbind res_bind].
  rewrite (drop_S _ _ _ Hx). cbn [take firstn prefix_len]. destruct (p x).
  - rewrite IH by lia. f_equal. cbn. lia.
  - f_equal. lia.
Qed.

(** ** Insertion at an index *)

Definition ins_at {A} (i : nat) (x : A) (l : list A) : list A := take i l ++ x :: drop i l.

Section InsAt.
Context {A : Type}.
Implicit Types (l : list A) (i j : nat) (x : A).

Lemma length_ins_at i x l : length (ins_at i x l) = S (length l).
Proof. unfold ins_at. rewrite length_app, length_take. cbn. rewrite length_drop. lia. Qed.

Lemma ins_at_lt i x l j : j < i -> i <= length l -> ins_at i x l !! j = l !! j.
Proof.
  intros Hj Hi. unfold ins_at. rewrite lookup_app_l by (rewrite length_take; lia).
  by apply lookup_take_lt.
Qed.

Lemma ins_at_eq i x l : i <= length l -> ins_at i x l !! i = Some x.
Proof.
  intros Hi. unfold ins_at. rewrite lookup_app_r by (rewrite length_take; lia).
  rewrite length_take, Nat.min_l, Nat.sub_diag by lia. done.
Qed.

Lemma ins_at_gt i x l j : i < j -> i <= length l -> ins_at i x l !! j = l !! pred j.
Proof.
  intros Hj Hi. unfold ins_at. rewrite lookup_app_r by (rewrite length_take; lia).
  rewrite length_take, Nat.min_l by lia.
  destruct (j - i) as [|k] eqn:E; [lia|].
  change (drop i l !! k = l !! pred j). rewrite lookup_drop. f_equal. lia.
Qed.

Lemma elem_of_ins_at i x l y : y ∈ ins_at i x l <-> y = x \/ y ∈ l.
Proof.
  unfold ins_at. rewrite <- (take_drop i l) at 3.
  rewrite !elem_of_app, elem_of_cons. tauto.
Qed.

Lemma fmap_ins_at {B} (f : A -> B) i x l : f <$> ins_at i x l = ins_at i (f x) (f <$> l).
Proof. unfold ins_at. by rewrite fmap_app, fmap_cons, fmap_take, fmap_drop. Qed.

(** An array whose cells [i] to [n] are those of [a] shifted by one, with [x]
    at [i], starts with the insertion of [x] at [i]. *)
Lemma take_ins_at i x l (a a' : list A) n :
  take n a = l -> n < length a -> i <= n ->
  length a' = length a ->
  (forall j, j < i -> a' !! j = a !! j) ->
  a' !! i = Some x ->
  (forall j, i < j <= n -> a' !! j = a !! pred j) ->
  take (S n) a' = ins_at i x l.
Proof.
  intros <- Hn Hi Hlen Hlt Heq Hgt.
  assert (length (take n a) = n) as Hl by (rewrite length_take; lia).
  apply (list_eq_same_length _ _ (S n)); [by rewrite length_ins_at, Hl|rewrite length_take; lia|].
  intros j y z Hj. rewrite lookup_take_lt by lia.
  destruct (decide (j < i)); [|destruct (decide (j = i)) as [->|]].
  - rewrite Hlt, ins_at_lt, lookup_take_lt by lia. congruence.
  - rewrite Heq, ins_at_eq by lia. congruence.
  - rewrite Hgt, ins_at_gt, lookup_take_lt by lia. congruence.
Qed.

End InsAt.

(** ** Shifting and copying *)

(** The loop that moves cells up to [n] one place to the right has arrived at
    [i]: cells above [i] have moved. *)
Definition shifted {A} (a0 : list A) (n i : nat) (a : list A) : Prop :=
  length a = length a0 /\ (forall j, j <= i -> a !! j = a0 !! j) /\
  (forall j, i < j <= n -> a !! j = a0 !! pred j).

Section Shift.
Context {A : Type}.
Implicit Types (a l : list A).

Lemma shifted_start (a0 : list A) n : shifted a0 n n a0.
Proof. split_and!; [done..|]. intros; lia. Qed.

Lemma shifted_step (a0 : list A) n i a :
  shifted a0 n (S i) a -> S i <= n -> n < length a0 ->
  exists x, aget a i = Ok x /\ aset a (S i) x = Ok (<[S i := x]> a) /\
    shifted a0 n i (<[S i := x]> a).
Proof.
  intros (Hlen & Hle & Hgt) Hi Hn.
  destruct (lookup_lt_is_Some_2 a i ltac:(lia)) as [x Hx]. exists x.
  split; [by apply aget_Some|]. split; [apply aset_ok; lia|].
  split_and!; [by rewrite length_insert| |].
  - intros j Hj. rewrite list_lookup_insert_ne by lia. apply Hle. lia.
  - intros j Hj. destruct (decide (j = S i)) as [->|].
    + rewrite list_lookup_insert_eq by lia. rewrite <- Hx. apply Hle. lia.
    + rewrite list_lookup_insert_ne by lia. apply Hgt. lia.
Qed.

(** Writing the free cell completes the insertion. *)
Lemma shifted_ins (a0 : list A) n i a x l :
  shifted a0 n i a -> take n a0 = l -> n < length a0 -> i <= n ->
  take (S n) (<[i := x]> a) = ins_at i x l.
Proof.
  intros (Hlen & Hle & Hgt) Hl Hn Hi.
  apply (take_ins_at i x l a0); [done|done|done|by rewrite length_insert| | |].
  - intros j Hj. rewrite list_lookup_insert_ne by lia. apply Hle. lia.
  - apply list_lookup_insert_eq. lia.
  - intros j Hj. rewrite list_lookup_insert_ne by lia. apply Hgt. lia.
Qed.

Lemma take_S_insert l n x : n < length l -> take (S n) (<[n := x]> l) = take n l ++ [x].
Proof.
  intros Hn. rewrite (take_S_r _ n x) by (by apply list_lookup_insert_eq).
  by rewrite take_insert_ge by lia.
Qed.

End Shift.
