(* ===== verification/BTree.v ===== *)
(** * BTree: the B-tree index, as the code has it

    storage/index_btree.cpp on a heap of nodes, and [key_to_part] of
    system/helper.cpp.  A node keeps its arrays whole: cells beyond [num_keys]
    hold what the code leaves there.  Latching is off ([ENABLE_LATCH] is false
    in config.h): [latch_node] and [upgrade_latch] succeed and [release_latch]
    does nothing, so what remains of them is the list of nodes that
    [find_leaf] and [index_insert] compute.  [roots[p]] is a header node of
    which only [next] is used; it is [roots !! p] here.  An item is the list of
    rows on its chain, the newest first.  Following a null pointer, an access
    outside of an array, and a loop that does not end within its fuel are
    [AssertFail]; the theorems of [BTreeRefine] show that none of them happens.
    [junk] is what a cell holds before it is written. *)

From stdpp Require Import base tactics numbers list gmap.
From Stdlib Require Import ZArith Lia.
From S2P Require Import Prelude Loops.
#[local] Open Scope Z_scope.

Abbreviation addr := nat.

(** A [void *] in the array [pointers]. *)
Inductive slot :=
| PNull
| PNode (a : addr)
| PItem (rows : list Z).

#[global] Instance slot_eq_dec : EqDecision slot.
Proof. solve_decision. Defined.

Record bt_node := mkNode {
  pointers : list slot;
  is_leaf : bool;
  keys : list Z;
  parent : option addr;
  num_keys : nat;
  next : option addr;
}.

(** The nodes, the next address that [mem_allocator] hands out, and
    [roots[p]->next]. *)
Record bt_heap := mkHeap {
  cells : gmap addr bt_node;
  brk : addr;
  roots : list addr;
}.

(** The index with the position of the last access of each thread. *)
Record index_btree := mkBTree {
  bt : bt_heap;
  part_cnt : Z;
  cur_leaf_per_thd : list (option addr);
  cur_idx_per_thd : list nat;
}.

Inductive idx_acc_t := INDEX_INSERT | INDEX_READ | INDEX_NONE.

(** ** Memory *)

Definition load (h : bt_heap) (a : addr) : res bt_node :=
  match cells h !! a with Some n => Ok n | None => AssertFail end.
Definition store (a : addr) (n : bt_node) (h : bt_heap) : bt_heap :=
  mkHeap (<[a := n]> (cells h)) (brk h) (roots h).
Definition deref (p : option addr) : res addr :=
  match p with Some a => Ok a | None => AssertFail end.
(** The casts of [void *]. *)
Definition as_node (s : slot) : res addr :=
  match s with PNode a => Ok a | _ => AssertFail end.
Definition as_item (s : slot) : res (list Z) :=
  match s with PItem rows => Ok rows | PNull => Ok [] | PNode _ => AssertFail end.

Definition set_parent (p : option addr) (n : bt_node) : bt_node :=
  mkNode (pointers n) (is_leaf n) (keys n) p (num_keys n) (next n).
Definition set_next (p : option addr) (n : bt_node) : bt_node :=
  mkNode (pointers n) (is_leaf n) (keys n) (parent n) (num_keys n) p.
Definition set_num_keys (k : nat) (n : bt_node) : bt_node :=
  mkNode (pointers n) (is_leaf n) (keys n) (parent n) k (next n).
Definition set_arrays (ks : list Z) (ps : list slot) (n : bt_node) : bt_node :=
  mkNode ps (is_leaf n) ks (parent n) (num_keys n) (next n).

(** Enough for every walk up or down a tree of the heap. *)
Definition heap_fuel (h : bt_heap) : nat := S (size (cells h)).

Definition cut (length : nat) : nat :=
  if (length mod 2 =? 0)%nat then (length / 2)%nat else (length / 2 + 1)%nat.

Section BTree.
(** Configuration: [g_part_alloc], [KEY_TO_PART == HASH_MODE], [g_part_cnt],
    [g_synth_table_size], [BTREE_ORDER]; and the contents of fresh memory. *)
Context (g_part_alloc hash_mode : bool) (g_part_cnt g_synth_table_size : Z).
Context (order : nat) (junk : Z).

Definition key_to_part (key : Z) : Z :=
  if g_part_alloc
  then if hash_mode then key mod g_part_cnt else key / (g_synth_table_size / g_part_cnt)
  else 0.

(** ** Creating nodes *)

Definition make_node (h : bt_heap) : addr * bt_heap :=
  (brk h,
   mkHeap (<[brk h := mkNode (replicate order PNull) false (replicate (order - 1) junk)
                        None 0 None]> (cells h))
     (S (brk h)) (roots h)).
Definition make_nl (h : bt_heap) : addr * bt_heap := make_node h.
Definition set_is_leaf (n : bt_node) : bt_node :=
  mkNode (pointers n) true (keys n) (parent n) (num_keys n) (next n).
Definition make_lf (h : bt_heap) : res (addr * bt_heap) :=
  let '(a, h) := make_node h in
  n ← load h a;
  Ok (a, store a (set_is_leaf n) h).
(** [make_lf_init] of the next partition: the header's [next] is the leaf. *)
Definition make_lf_init (h : bt_heap) : res bt_heap :=
  '(a, h) ← make_lf h;
  Ok (mkHeap (cells h) (brk h) (roots h ++ [a])).

Fixpoint init_parts (n : nat) (h : bt_heap) : res bt_heap :=
  match n with
  | 0%nat => Ok h
  | S n => h ← make_lf_init h; init_parts n h
  end.
Definition init (cnt : Z) (thds : nat) : res index_btree :=
  h ← init_parts (Z.to_nat cnt) (mkHeap ∅ 0 []);
  Ok (mkBTree h cnt (replicate thds None) (replicate thds 0%nat)).

(** ** Searching *)

(** [for (i = 0; i < c->num_keys; i++) if (key < c->keys[i]) break;] *)
Definition child_index (key : Z) (n : bt_node) : res nat :=
  scan_while (fun k => negb (key <? k)) (keys n) (num_keys n) 0.

(** The index of the key, or [None] for -1. *)
Definition leaf_has_key (leaf : bt_node) (key : Z) : res (option nat) :=
  i ← scan_while (fun k => negb (k =? key)) (keys leaf) (num_keys leaf) 0;
  Ok (if decide (i < num_keys leaf)%nat then Some i else None).

(** The [do ... while (node != last_ex)] of [cleanup]. *)
Fixpoint cleanup_loop (fuel : nat) (node last_ex : addr) (h : bt_heap) : res unit :=
  match fuel with
  | 0%nat => AssertFail
  | S fuel =>
      n ← load h node;
      if decide (parent n = Some last_ex) then Ok tt
      else p ← deref (parent n); cleanup_loop fuel p last_ex h
  end.
Definition cleanup (node : addr) (last_ex : option addr) (h : bt_heap) : res unit :=
  match last_ex with
  | None => Ok tt
  | Some e => cleanup_loop (heap_fuel h) node e h
  end.

Fixpoint find_none (fuel : nat) (key : Z) (c : addr) (h : bt_heap) : res addr :=
  match fuel with
  | 0%nat => AssertFail
  | S fuel =>
      n ← load h c;
      if is_leaf n then Ok c
      else
        i ← child_index key n;
        p ← aget (pointers n) i;
        c ← as_node p;
        find_none fuel key c h
  end.

Fixpoint find_loop (fuel : nat) (part_id key : Z) (insert : bool) (c : addr)
    (last_ex : option addr) (h : bt_heap) : res (addr * option addr) :=
  match fuel with
  | 0%nat => AssertFail
  | S fuel =>
      n ← load h c;
      if is_leaf n then Ok (c, last_ex)
      else
        k0 ← aget (keys n) 0;
        assert! (key_to_part k0 =? part_id);
        i ← child_index key n;
        p ← aget (pointers n) i;
        child ← as_node p;
        if insert then
          cn ← load h child;
          if decide (num_keys cn = order - 1)%nat then
            find_loop fuel part_id key insert child
              (match last_ex with None => Some c | Some e => Some e end) h
          else
            _ ← cleanup c last_ex h;
            find_loop fuel part_id key insert child None h
        else find_loop fuel part_id key insert child last_ex h
  end.

Definition find_root (part_id : Z) (cnt : Z) (h : bt_heap) : res addr :=
  assert! (wrap64 part_id <? cnt);
  match roots h !! Z.to_nat (wrap64 part_id) with Some a => Ok a | None => AssertFail end.

(** Both overloads: the leaf and [last_ex]. *)
Definition find_leaf (part_id key : Z) (access_type : idx_acc_t) (cnt : Z) (h : bt_heap)
    : res (addr * option addr) :=
  c ← find_root part_id cnt h;
  match access_type with
  | INDEX_NONE => leaf ← find_none (heap_fuel h) key c h; Ok (leaf, None)
  | INDEX_INSERT => find_loop (heap_fuel h) part_id key true c None h
  | INDEX_READ => find_loop (heap_fuel h) part_id key false c None h
  end.

(** ** Inserting *)

(** [a[i] = a[i - 1]] for both arrays of a leaf. *)
Definition shift_leaf (i : nat) (a : list Z * list slot) : res (list Z * list slot) :=
  k ← aget a.1 (i - 1); ks ← aset a.1 i k;
  p ← aget a.2 (i - 1); ps ← aset a.2 i p;
  Ok (ks, ps).

Definition insert_into_leaf (leaf : addr) (key row : Z) (h : bt_heap) : res bt_heap :=
  n ← load h leaf;
  idx ← leaf_has_key n key;
  match idx with
  | Some i =>
      p ← aget (pointers n) i;
      rows ← as_item p;
      ps ← aset (pointers n) i (PItem (row :: rows));
      Ok (store leaf (set_arrays (keys n) ps n) h)
  | None =>
      ip ← scan_while (fun k => k <? key) (keys n) (num_keys n) 0;
      a ← for_down (num_keys n) (num_keys n - ip) shift_leaf (keys n, pointers n);
      ks ← aset a.1 ip key;
      ps ← aset a.2 ip (PItem [row]);
      assert! (bool_decide (S (num_keys n) < order)%nat);
      Ok (store leaf (set_num_keys (S (num_keys n)) (set_arrays ks ps n)) h)
  end.

(** [temp[j] = src[i]], where [j] skips [ip]. *)
Definition copy_skip {A} (src : list A) (ip : nat) (i : nat) (s : nat * list A)
    : res (nat * list A) :=
  let j := if decide (s.1 = ip) then S s.1 else s.1 in
  x ← aget src i;
  tmp ← aset s.2 j x;
  Ok (S j, tmp).

(** [n->pointers[j] = temp_pointers[i]; n->keys[j] = temp_keys[i];
    n->num_keys++;] with [j = i - off]. *)
Definition move_entry (tk : list Z) (tp : list slot) (off : nat) (i : nat) (n : bt_node)
    : res bt_node :=
  p ← aget tp i; ps ← aset (pointers n) (i - off) p;
  k ← aget tk i; ks ← aset (keys n) (i - off) k;
  Ok (set_num_keys (S (num_keys n)) (set_arrays ks ps n)).

(** The copy back into the old node, whose number of keys the assertion
    checks. *)
Definition fill_old (tk : list Z) (tp : list slot) (cnt : nat) (n : bt_node) : res bt_node :=
  for_up 0 cnt (fun i n =>
      n ← move_entry tk tp 0 i n;
      assert! (bool_decide (num_keys n < order)%nat);
      Ok n) (set_num_keys 0 n).

(** [for (i = n->num_keys; i < order - 1; i++) n->pointers[i] = NULL;] *)
Definition clear_pointers (n : bt_node) : res bt_node :=
  ps ← for_up (num_keys n) (order - 1 - num_keys n) (fun i ps => aset ps i PNull) (pointers n);
  Ok (set_arrays (keys n) ps n).

Definition insert_into_new_root (part_id : Z) (left : addr) (key : Z) (right : addr)
    (h : bt_heap) : res bt_heap :=
  let '(new_root, h) := make_nl h in
  n ← load h new_root;
  ks ← aset (keys n) 0 key;
  ps ← aset (pointers n) 0 (PNode left);
  ps ← aset ps 1 (PNode right);
  let n := set_num_keys 1 (set_arrays ks ps n) in
  assert! (bool_decide (num_keys n < order)%nat);
  let h := store new_root (set_parent None n) h in
  l ← load h left;
  let h := store left (set_parent (Some new_root) l) h in
  r ← load h right;
  let h := store right (set_parent (Some new_root) r) h in
  l ← load h left;
  let h := store left (set_next (Some right) l) h in
  if decide (Z.to_nat part_id < length (roots h))%nat
  then Ok (mkHeap (cells h) (brk h) (<[Z.to_nat part_id := new_root]> (roots h)))
  else AssertFail.

(** [keys[i + 1] = keys[i]; pointers[i + 2] = pointers[i + 1]]. *)
Definition shift_parent (i : nat) (a : list Z * list slot) : res (list Z * list slot) :=
  k ← aget a.1 i; ks ← aset a.1 (i + 1) k;
  p ← aget a.2 (i + 1); ps ← aset a.2 (i + 2) p;
  Ok (ks, ps).

(** [for (i = num_keys - 1; i >= insert_idx; i--) { ...; if (i == 0) break; }]:
    with no keys, [i] starts at [UINT32_MAX] and the accesses are out of
    bounds. *)
Definition shift_parents (insert_idx : nat) (n : bt_node) : res (list Z * list slot) :=
  match num_keys n with
  | 0%nat => AssertFail
  | S i => for_down i (S i - insert_idx) shift_parent (keys n, pointers n)
  end.

(** [for (i = 0; i <= n->num_keys; i++) n->pointers[i]->parent = a]. *)
Definition adopt (a : addr) (n : bt_node) (h : bt_heap) : res bt_heap :=
  for_up 0 (S (num_keys n)) (fun i h =>
    p ← aget (pointers n) i;
    child ← as_node p;
    c ← load h child;
    Ok (store child (set_parent (Some a) c) h)) h.

(** The two nodes of an inner split, and [k_prime]: [o] and [n] are the old
    node and the new one at [new_node]. *)
Definition split_nl_nodes (new_node : addr) (o n : bt_node) (left_index : nat) (key : Z)
    (right : addr) : res (bt_node * bt_node * Z) :=
  tp ← for_up 0 (num_keys o + 1) (copy_skip (pointers o) (left_index + 1))
         (0%nat, replicate (order + 1) PNull);
  tk ← for_up 0 (num_keys o) (copy_skip (keys o) left_index) (0%nat, replicate order junk);
  tp ← aset tp.2 (left_index + 1) (PNode right);
  tk ← aset tk.2 left_index key;
  let split := cut order in
  o ← fill_old tk tp (split - 1) o;
  let n := set_next (next o) n in
  let o := set_next (Some new_node) o in
  p ← aget tp (split - 1);
  ps ← aset (pointers o) (split - 1) p;
  let o := set_arrays (keys o) ps o in
  k_prime ← aget tk (split - 1);
  n ← for_up split (order - split) (move_entry tk tp split) n;
  assert! (bool_decide (num_keys o < order)%nat);
  p ← aget tp order;
  ps ← aset (pointers n) (order - split) p;
  Ok (o, set_parent (parent o) (set_arrays (keys n) ps n), k_prime).

(** [up] is the final call of [insert_into_parent]. *)
Definition split_nl_insert (up : addr -> Z -> addr -> bt_heap -> res bt_heap)
    (old_node : addr) (left_index : nat) (key : Z) (right : addr) (h : bt_heap)
    : res bt_heap :=
  let '(new_node, h) := make_node h in
  o ← load h old_node;
  n ← load h new_node;
  '(o, n, k_prime) ← split_nl_nodes new_node o n left_index key right;
  h ← adopt new_node n (store new_node n (store old_node o h));
  up old_node k_prime new_node h.

(** The loop reads [parent->keys[insert_idx]] once more when [insert_idx] has
    reached [num_keys], past the end of a full node, and ignores the value. *)
Fixpoint insert_into_parent (fuel : nat) (part_id : Z) (left : addr) (key : Z) (right : addr)
    (h : bt_heap) : res bt_heap :=
  match fuel with
  | 0%nat => AssertFail
  | S fuel =>
      l ← load h left;
      match parent l with
      | None => insert_into_new_root part_id left key right h
      | Some par =>
          n ← load h par;
          insert_idx ← scan_while (fun k => k <? key) (keys n) (num_keys n) 0;
          if decide (num_keys n < order - 1)%nat then
            a ← shift_parents insert_idx n;
            ks ← aset a.1 insert_idx key;
            ps ← aset a.2 (insert_idx + 1) (PNode right);
            Ok (store par (set_num_keys (S (num_keys n)) (set_arrays ks ps n)) h)
          else
            split_nl_insert (insert_into_parent fuel part_id) par insert_idx key right h
      end
  end.

(** The two leaves of a split. *)
Definition split_lf_nodes (new_leaf : addr) (l n : bt_node) (key row : Z)
    : res (bt_node * bt_node) :=
  assert! (bool_decide (num_keys l = order - 1)%nat);
  ip ← scan_while (fun k => k <? key) (keys l) (order - 1) 0;
  tk ← for_up 0 (num_keys l) (copy_skip (keys l) ip) (0%nat, replicate order junk);
  tp ← for_up 0 (num_keys l) (copy_skip (pointers l) ip) (0%nat, replicate order PNull);
  tk ← aset tk.2 ip key;
  tp ← aset tp.2 ip (PItem [row]);
  let split := cut (order - 1) in
  l ← fill_old tk tp split l;
  n ← for_up split (order - split) (move_entry tk tp split) n;
  assert! (bool_decide (num_keys l < order)%nat);
  let n := set_next (next l) n in
  let l := set_next (Some new_leaf) l in
  l ← clear_pointers l;
  n ← clear_pointers n;
  Ok (l, set_parent (parent l) n).

Definition split_lf_insert (part_id : Z) (leaf : addr) (key row : Z) (h : bt_heap)
    : res bt_heap :=
  '(new_leaf, h) ← make_lf h;
  l ← load h leaf;
  n ← load h new_leaf;
  '(l, n) ← split_lf_nodes new_leaf l n key row;
  new_key ← aget (keys n) 0;
  insert_into_parent (heap_fuel h) part_id leaf new_key new_leaf (store new_leaf n (store leaf l h)).

(** [ex_list]: the nodes from the leaf to [last_ex], at most 100. *)
Fixpoint ex_list (fuel : nat) (depth : nat) (node last_ex : addr) (h : bt_heap)
    : res (list addr) :=
  match fuel with
  | 0%nat => AssertFail
  | S fuel =>
      if decide (node = last_ex) then Ok [last_ex]
      else
        n ← load h node;
        p ← deref (parent n);
        assert! (bool_decide (S depth < 100)%nat);
        rest ← ex_list fuel (S depth) p last_ex h;
        Ok (node :: rest)
  end.

Definition tree_insert (key row part_id cnt : Z) (h : bt_heap) : res bt_heap :=
  assert! (negb (part_id =? -1));
  _ ← find_root part_id cnt h;
  '(leaf, last_ex) ← find_leaf part_id key INDEX_INSERT cnt h;
  _ ← match last_ex with
      | Some e => ex_list (heap_fuel h) 0 leaf e h
      | None => Ok [leaf]
      end;
  n ← load h leaf;
  idx ← leaf_has_key n key;
  if decide (num_keys n < order - 1)%nat
  then insert_into_leaf leaf key row h
  else match idx with
       | Some _ => insert_into_leaf leaf key row h
       | None => split_lf_insert part_id leaf key row h
       end.

(** ** The interface *)

Definition index_insert (key row part_id : Z) (ix : index_btree) : res index_btree :=
  h ← tree_insert key row part_id (part_cnt ix) (bt ix);
  Ok (mkBTree h (part_cnt ix) (cur_leaf_per_thd ix) (cur_idx_per_thd ix)).

Definition index_exist (key : Z) (ix : index_btree) : res bool := AssertFail.
Definition index_read_any (key : Z) (ix : index_btree) : res (list Z * index_btree) := AssertFail.

Definition set_cursor (thd_id : nat) (leaf : option addr) (idx : nat) (ix : index_btree)
    : res index_btree :=
  l ← aset (cur_leaf_per_thd ix) thd_id leaf;
  i ← aset (cur_idx_per_thd ix) thd_id idx;
  Ok (mkBTree (bt ix) (part_cnt ix) l i).

Definition index_read_thd (key part_id : Z) (thd_id : nat) (ix : index_btree)
    : res (list Z * index_btree) :=
  assert! (negb (part_id =? -1));
  '(leaf, _) ← find_leaf part_id key INDEX_READ (part_cnt ix) (bt ix);
  n ← load (bt ix) leaf;
  idx ← leaf_has_key n key;
  match idx with
  | Some i =>
      p ← aget (pointers n) i;
      rows ← as_item p;
      ix ← set_cursor thd_id (Some leaf) i ix;
      Ok (rows, ix)
  | None => AssertFail
  end.

(** The overload with a partition passes 0 for the partition and the
    partition for the thread. *)
Definition index_read (key part_id : Z) (ix : index_btree) : res (list Z * index_btree) :=
  index_read_thd key 0 (Z.to_nat part_id) ix.

Definition index_next (thd_id : nat) (samekey : bool) (ix : index_btree)
    : res (option (list Z) * index_btree) :=
  idx ← aget (cur_idx_per_thd ix) thd_id;
  cur ← aget (cur_leaf_per_thd ix) thd_id;
  leaf ← deref cur;
  n ← load (bt ix) leaf;
  cur_key ← aget (keys n) idx;
  let '(cur, idx) := if decide (num_keys n <= S idx)%nat then (next n, 0%nat)
                     else (Some leaf, S idx) in
  ix ← set_cursor thd_id cur idx ix;
  match cur with
  | None => Ok (None, ix)
  | Some leaf =>
      n ← load (bt ix) leaf;
      assert! (is_leaf n);
      k ← aget (keys n) idx;
      if samekey && negb (k =? cur_key) then Ok (None, ix)
      else
        p ← aget (pointers n) idx;
        rows ← as_item p;
        Ok (Some rows, ix)
  end.

End BTree.
