(* ===== verification/BTreeInv.v ===== *)
(** * BTreeInv: the shape of a B-tree

    What the nodes of one tree of [BTree] are, without arrays: a finite map from
    addresses to [gnode], which adds to the parent and the contents of a node
    its level and the interval of keys that belong to it.  [tree_ok] is the
    invariant; its last argument names two halves of a node that has been split
    and whose right half has no parent yet.  Each lemma named [.._ok] is one of
    the steps by which the code changes a tree, and [levels_size] is the
    counting argument that bounds the height. *)

From stdpp Require Import base tactics numbers list gmap sorting.
From Stdlib Require Import ZArith Lia.
From S2P Require Import Prelude Loops BTree.

(** ** Intervals and separators *)

Definition above (lo : option Z) (k : Z) : Prop :=
  match lo with None => True | Some l => (l <= k)%Z end.
Definition strictly_above (lo : option Z) (k : Z) : Prop :=
  match lo with None => True | Some l => (l < k)%Z end.
Definition below (hi : option Z) (k : Z) : Prop :=
  match hi with None => True | Some h => (k < h)%Z end.

Definition increasing (ks : list Z) : Prop :=
  forall i j x y, i < j -> ks !! i = Some x -> ks !! j = Some y -> (x < y)%Z.

(** The bounds of the children of a node: child [i] has the interval from
    element [i] to element [i + 1]. *)
Definition seps (lo : option Z) (ks : list Z) (hi : option Z) : list (option Z) :=
  lo :: (Some <$> ks) ++ [hi].

Lemma above_weaken lo k : strictly_above lo k -> above lo k.
Proof. destruct lo; cbn; lia. Qed.

Lemma increasing_nil : increasing [].
Proof. intros i j x y _ H. rewrite lookup_nil in H. done. Qed.

Lemma increasing_sorted ks : StronglySorted Z.lt ks -> increasing ks.
Proof.
  induction 1 as [|k ks _ IH Hk]; [apply increasing_nil|].
  intros [|i] [|j] x y Hij Hx Hy; cbn in *; simplify_eq; try lia.
  - rewrite Forall_forall in Hk. apply Hk. by eapply list_elem_of_lookup_2.
  - apply (IH i j); [lia|done..].
Qed.

Lemma increasing_inj ks i j x :
  increasing ks -> ks !! i = Some x -> ks !! j = Some x -> i = j.
Proof.
  intros Hs Hi Hj. destruct (Nat.lt_trichotomy i j) as [H|[H|H]]; [|done|].
  - pose proof (Hs _ _ _ _ H Hi Hj). lia.
  - pose proof (Hs _ _ _ _ H Hj Hi). lia.
Qed.

Lemma increasing_take n ks : increasing ks -> increasing (take n ks).
Proof.
  intros Hs i j x y Hij Hx Hy. apply lookup_take_Some in Hx, Hy.
  eapply (Hs i j); tauto.
Qed.

Lemma increasing_drop n ks : increasing ks -> increasing (drop n ks).
Proof.
  intros Hs i j x y Hij. rewrite !lookup_drop. apply Hs. lia.
Qed.

(** The place of a key. *)
Lemma prefix_len_lt_ins ks key :
  increasing ks -> key ∉ ks ->
  increasing (ins_at (prefix_len (fun k => (k <? key)%Z) ks) key ks).
Proof.
  intros Hs Hn. set (ip := prefix_len _ ks).
  assert (ip <= length ks) as Hip by apply prefix_len_le.
  assert (forall i x, ks !! i = Some x -> if decide (i < ip) then (x < key)%Z else (key < x)%Z)
    as Hside.
  { intros i x Hx. case_decide as Hi.
    - apply Z.ltb_lt. by apply (prefix_len_below (fun k => (k <? key)%Z) ks i x).
    - destruct (lookup_lt_is_Some_2 ks ip) as [y Hy].
      { apply lookup_lt_Some in Hx. lia. }
      assert (y ≠ key) by (intros ->; apply Hn; by apply list_elem_of_lookup_2 in Hy).
      pose proof (prefix_len_at _ ks y Hy) as Hky. cbn in Hky. apply Z.ltb_ge in Hky.
      destruct (decide (i = ip)) as [->|]; [simplify_eq; lia|].
      pose proof (Hs ip i y x ltac:(lia) Hy Hx). lia. }
  intros i j x y Hij Hx Hy.
  assert (forall i x, ins_at ip key ks !! i = Some x ->
    (i < ip /\ ks !! i = Some x) \/ (i = ip /\ x = key) \/ (ip < i /\ ks !! pred i = Some x)) as Hl.
  { intros i' x' H'. destruct (Nat.lt_trichotomy i' ip) as [H|[H|H]].
    - rewrite ins_at_lt in H' by lia. auto.
    - subst. rewrite ins_at_eq in H' by lia. simplify_eq. auto.
    - rewrite ins_at_gt in H' by lia. auto. }
  destruct (Hl _ _ Hx) as [[? Hx']|[[? ?]|[? Hx']]], (Hl _ _ Hy) as [[? Hy']|[[? ?]|[? Hy']]];
    subst; try lia;
    try (pose proof (Hside _ _ Hx')); try (pose proof (Hside _ _ Hy'));
    repeat case_decide; try lia.
  - by apply (Hs i j).
  - apply (Hs (pred i) (pred j)); [lia|done..].
Qed.

Lemma length_seps lo ks hi : length (seps lo ks hi) = S (S (length ks)).
Proof. unfold seps. cbn. rewrite length_app, length_fmap. cbn. lia. Qed.

Lemma seps_S lo ks hi i : seps lo ks hi !! S i = ((Some <$> ks) ++ [hi]) !! i.
Proof. reflexivity. Qed.

Lemma seps_key lo ks hi i k : ks !! i = Some k -> seps lo ks hi !! S i = Some (Some k).
Proof.
  intros H. rewrite seps_S, lookup_app_l.
  - by rewrite list_lookup_fmap, H.
  - rewrite length_fmap. by apply lookup_lt_Some in H.
Qed.

Lemma seps_last lo ks hi : seps lo ks hi !! S (length ks) = Some hi.
Proof.
  rewrite seps_S, lookup_app_r by (by rewrite length_fmap).
  by rewrite length_fmap, Nat.sub_diag.
Qed.

(** A separator is the lower bound, a key, or the upper bound. *)
Lemma seps_inv lo ks hi i b :
  seps lo ks hi !! i = Some b ->
  (i = 0 /\ b = lo) \/ (exists j k, i = S j /\ b = Some k /\ ks !! j = Some k) \/
  (i = S (length ks) /\ b = hi).
Proof.
  destruct i as [|i]; intros H; [by left; cbn in H; simplify_eq|right].
  destruct (ks !! i) as [k|] eqn:E.
  - rewrite (seps_key _ _ _ _ _ E) in H. simplify_eq. left. eauto.
  - right. apply lookup_ge_None in E.
    pose proof (lookup_lt_Some _ _ _ H) as Hl. rewrite length_seps in Hl.
    assert (i = length ks) as -> by lia. rewrite seps_last in H. by simplify_eq.
Qed.

Lemma seps_ins_at lo ks hi i k :
  i <= length ks -> seps lo (ins_at i k ks) hi = ins_at (S i) (Some k) (seps lo ks hi).
Proof.
  intros Hi. unfold seps, ins_at. rewrite firstn_cons, skipn_cons, <- app_comm_cons. f_equal.
  rewrite fmap_app, fmap_cons, fmap_take, fmap_drop.
  rewrite take_app_le, drop_app_le by (rewrite length_fmap; lia).
  by rewrite <- app_assoc.
Qed.

Lemma seps_take lo ks hi n k :
  ks !! n = Some k -> seps lo (take n ks) (Some k) = take (S (S n)) (seps lo ks hi).
Proof.
  intros Hk. unfold seps. rewrite firstn_cons. f_equal.
  rewrite take_app_le by (rewrite length_fmap; apply lookup_lt_Some in Hk; lia).
  rewrite (take_S_r _ _ (Some k)) by (by rewrite list_lookup_fmap, Hk).
  by rewrite fmap_take.
Qed.

Lemma seps_drop lo ks hi n k :
  ks !! n = Some k -> seps (Some k) (drop (S n) ks) hi = drop (S n) (seps lo ks hi).
Proof.
  intros Hk. unfold seps. rewrite skipn_cons.
  rewrite drop_app_le by (rewrite length_fmap; apply lookup_lt_Some in Hk; lia).
  rewrite (drop_S (Some <$> ks) (Some k) n) by (by rewrite list_lookup_fmap, Hk).
  by rewrite fmap_drop.
Qed.

(** Within a node: keys increase strictly between the bounds. *)
Definition keys_ok (lo : option Z) (ks : list Z) (hi : option Z) : Prop :=
  increasing ks /\ forall k, k ∈ ks -> strictly_above lo k /\ below hi k.

(** The lower bounds of the children are different. *)
Lemma seps_inj lo ks hi i j b :
  keys_ok lo ks hi -> i <= length ks -> j <= length ks ->
  seps lo ks hi !! i = Some b -> seps lo ks hi !! j = Some b -> i = j.
Proof.
  intros [Hs Hb] Hi Hj H1 H2.
  apply seps_inv in H1 as [[-> ->]|[(i' & k & -> & -> & Hk)|[? _]]];
    apply seps_inv in H2 as [[-> ?]|[(j' & k' & -> & ? & Hk')|[? _]]]; try lia; simplify_eq; try done.
  - destruct (Hb k') as [H _]; [by apply list_elem_of_lookup_2 in Hk'|]. cbn in H. lia.
  - destruct (Hb k) as [H _]; [by apply list_elem_of_lookup_2 in Hk|]. cbn in H. lia.
  - f_equal. by apply (increasing_inj ks _ _ k').
Qed.

(** Where a key goes: [p] holds up to the key. *)
Lemma seps_step lo ks hi i b c :
  keys_ok lo ks hi -> seps lo ks hi !! i = Some b -> seps lo ks hi !! S i = Some c ->
  forall k, k ∈ ks -> (exists b', b = Some b' /\ (k <= b')%Z) \/ (exists c', c = Some c' /\ (c' <= k)%Z).
Proof.
  intros [Hs Hb] H1 H2 k (j & Hk)%list_elem_of_lookup.
  destruct (decide (j < i)).
  - left. apply seps_inv in H1 as [[-> ->]|[(i' & b' & -> & -> & Hb')|[-> ->]]]; [lia| |].
    + exists b'. split; [done|]. destruct (decide (j = i')) as [->|]; [simplify_eq; lia|].
      pose proof (Hs j i' k b' ltac:(lia) Hk Hb'). lia.
    + apply lookup_lt_Some in H2. rewrite length_seps in H2. lia.
  - right. apply seps_inv in H2 as [[? _]|[(i' & c' & ? & -> & Hc')|[? ->]]]; [lia| |].
    + simplify_eq. exists c'. split; [done|]. destruct (decide (j = i')) as [->|]; [simplify_eq; lia|].
      pose proof (Hs i' j c' k ltac:(lia) Hc' Hk). lia.
    + apply lookup_lt_Some in Hk. lia.
Qed.

Lemma prefix_len_eq {A} (p : A -> bool) (l : list A) i :
  i <= length l ->
  (forall j x, j < i -> l !! j = Some x -> p x = true) ->
  (forall x, l !! i = Some x -> p x = false) ->
  prefix_len p l = i.
Proof.
  intros Hi Hlt Heq. pose proof (prefix_len_le p l).
  destruct (Nat.lt_trichotomy (prefix_len p l) i) as [H'|[H'|H']]; [|done|].
  - destruct (lookup_lt_is_Some_2 l (prefix_len p l)) as [x Hx]; [lia|].
    pose proof (prefix_len_at _ _ _ Hx) as E. by rewrite (Hlt _ _ H' Hx) in E.
  - destruct (lookup_lt_is_Some_2 l i) as [x Hx]; [lia|].
    pose proof (prefix_len_below _ _ _ _ H' Hx) as E. by rewrite (Heq _ Hx) in E.
Qed.

(** The child that the search for [k] takes covers [k]. *)
Lemma seps_search lo ks hi k :
  keys_ok lo ks hi -> above lo k -> below hi k ->
  exists b c, seps lo ks hi !! prefix_len (fun s => negb (k <? s)%Z) ks = Some b /\
    seps lo ks hi !! S (prefix_len (fun s => negb (k <? s)%Z) ks) = Some c /\
    above b k /\ below c k.
Proof.
  intros [Hs Hb] Hlo Hhi. set (i := prefix_len _ ks).
  assert (i <= length ks) as Hi by apply prefix_len_le.
  destruct (lookup_lt_is_Some_2 (seps lo ks hi) i) as [b Hbi]; [rewrite length_seps; lia|].
  destruct (lookup_lt_is_Some_2 (seps lo ks hi) (S i)) as [c Hci]; [rewrite length_seps; lia|].
  exists b, c. split_and!; [done..| |].
  - apply seps_inv in Hbi as [[_ ->]|[(j & b' & E & -> & Hj)|[? _]]]; [done| |lia].
    assert (negb (k <? b')%Z = true) as E'.
    { apply (prefix_len_below (fun s => negb (k <? s)%Z) ks j); [fold i; lia|done]. }
    cbn. bool_to_Z. lia.
  - apply seps_inv in Hci as [[? _]|[(j & c' & E & -> & Hj)|[_ ->]]]; [lia| |done].
    simplify_eq. pose proof (prefix_len_at _ _ _ Hj) as E'. cbn in *. bool_to_Z. lia.
Qed.

(** The place where the parent puts the key between two halves of child [i]. *)
Lemma seps_split_place lo ks hi i b c key :
  keys_ok lo ks hi -> seps lo ks hi !! i = Some b -> seps lo ks hi !! S i = Some c ->
  strictly_above b key -> below c key ->
  prefix_len (fun k => (k <? key)%Z) ks = i /\ key ∉ ks.
Proof.
  intros Hok Hb Hc Hlo Hhi. pose proof Hok as [Hs _].
  assert (i <= length ks) as Hi.
  { apply lookup_lt_Some in Hc. rewrite length_seps in Hc. lia. }
  assert (forall j x, ks !! j = Some x -> if decide (j < i) then (x < key)%Z else (key < x)%Z) as Hx.
  { intros j x Hj. case_decide.
    - apply seps_inv in Hb as [[? _]|[(i' & b' & -> & -> & Hb')|[? _]]]; [lia| |lia]. cbn in Hlo.
      destruct (decide (j = i')) as [->|]; [simplify_eq; lia|].
      pose proof (Hs j i' x b' ltac:(lia) Hj Hb'). lia.
    - apply seps_inv in Hc as [[? _]|[(i' & c' & ? & -> & Hc')|[? ->]]]; [lia| |].
      + simplify_eq. cbn in Hhi. destruct (decide (j = i')) as [->|]; [simplify_eq; lia|].
        pose proof (Hs i' j c' x ltac:(lia) Hc' Hj). lia.
      + apply lookup_lt_Some in Hj. lia. }
  split.
  - apply prefix_len_eq; [done| |].
    + intros j x Hj E. specialize (Hx _ _ E). rewrite decide_True in Hx by lia. lia.
    + intros x E. specialize (Hx _ _ E). rewrite decide_False in Hx by lia. lia.
  - intros (j & E)%list_elem_of_lookup. specialize (Hx _ _ E). case_decide; lia.
Qed.

(** A key within the bounds of a child is within the bounds of the node. *)
Lemma seps_above lo ks hi i b k :
  keys_ok lo ks hi -> seps lo ks hi !! i = Some b -> i <= length ks ->
  strictly_above b k -> strictly_above lo k.
Proof.
  intros [_ Hb] Hi Hle Hk.
  apply seps_inv in Hi as [[_ ->]|[(j & b' & _ & -> & Hj)|[-> _]]]; [done| |lia].
  destruct (Hb b') as [Hlo _]; [by apply list_elem_of_lookup_2 in Hj|].
  destruct lo; cbn in *; lia.
Qed.

Lemma seps_below lo ks hi i c k :
  keys_ok lo ks hi -> seps lo ks hi !! S i = Some c -> below c k -> below hi k.
Proof.
  intros [_ Hb] Hi Hk.
  apply seps_inv in Hi as [[? _]|[(j & c' & _ & -> & Hj)|[_ ->]]]; [lia| |done].
  destruct (Hb c') as [_ Hhi]; [by apply list_elem_of_lookup_2 in Hj|].
  destruct hi; cbn in *; lia.
Qed.

Lemma keys_ok_ins lo ks hi key :
  keys_ok lo ks hi -> key ∉ ks -> strictly_above lo key -> below hi key ->
  keys_ok lo (ins_at (prefix_len (fun k => (k <? key)%Z) ks) key ks) hi.
Proof.
  intros [Hs Hb] Hn Hlo Hhi. split; [by apply prefix_len_lt_ins|].
  intros k [->|Hk]%elem_of_ins_at; auto.
Qed.

Lemma keys_ok_take lo ks hi n k :
  keys_ok lo ks hi -> ks !! n = Some k -> keys_ok lo (take n ks) (Some k).
Proof.
  intros [Hs Hb] Hk. split; [by apply increasing_take|].
  intros x (i & Hx)%list_elem_of_lookup. apply lookup_take_Some in Hx as [Hx Hi]. split.
  - apply Hb. by apply list_elem_of_lookup_2 in Hx.
  - cbn. by apply (Hs i n).
Qed.

Lemma keys_ok_drop lo ks hi n k :
  keys_ok lo ks hi -> ks !! n = Some k -> keys_ok (Some k) (drop (S n) ks) hi.
Proof.
  intros [Hs Hb] Hk. split; [by apply increasing_drop|].
  intros x (i & Hx)%list_elem_of_lookup. rewrite lookup_drop in Hx. split.
  - cbn. apply (Hs n (S n + i)); [lia|done..].
  - apply Hb. by apply list_elem_of_lookup_2 in Hx.
Qed.

(** ** Nodes and trees *)

Inductive body :=
| BLeaf (es : list (Z * list Z)) (nx : option addr)
| BInner (ks : list Z) (cs : list addr).

Record gnode := GN {
  g_lvl : nat;
  g_lo : option Z;
  g_hi : option Z;
  g_par : option addr;
  g_body : body;
}.

Definition with_par (p : option addr) (g : gnode) : gnode :=
  GN (g_lvl g) (g_lo g) (g_hi g) p (g_body g).
Definition with_body (b : body) (g : gnode) : gnode :=
  GN (g_lvl g) (g_lo g) (g_hi g) (g_par g) b.

(** The upper bound of a child as its parent sees it: the left half of a split
    node still stands for both. *)
Definition span_hi (G : gmap addr gnode) (pend : option (addr * addr)) (c : addr) (gc : gnode)
    : option Z :=
  match pend with
  | Some (l, r) =>
      if decide (c = l) then match G !! r with Some gr => g_hi gr | None => g_hi gc end
      else g_hi gc
  | None => g_hi gc
  end.

Section Tree.
(** What holds of the keys of this tree: that they are in its partition. *)
Context (P : Z -> Prop).

Definition leaf_ok (G : gmap addr gnode) (g : gnode) (es : list (Z * list Z)) (nx : option addr)
    : Prop :=
  g_lvl g = 0 /\ increasing es.*1 /\
  (forall k, k ∈ es.*1 -> above (g_lo g) k /\ below (g_hi g) k /\ P k) /\
  (es ≠ [] \/ (g_lo g = None /\ g_hi g = None)) /\
  match g_hi g with
  | None => nx = None
  | Some k => exists b gb, nx = Some b /\ G !! b = Some gb /\ g_lvl gb = 0 /\ g_lo gb = Some k
  end.

(** Child [c] of [a], with bounds [b] and [b']. *)
Definition kid_ok (G : gmap addr gnode) (pend : option (addr * addr)) (a : addr) (l : nat)
    (b b' : option (option Z)) (c : addr) : Prop :=
  exists gc, G !! c = Some gc /\ g_lvl gc = l /\ g_par gc = Some a /\
    b = Some (g_lo gc) /\ b' = Some (span_hi G pend c gc).

Definition inner_ok (G : gmap addr gnode) (pend : option (addr * addr)) (a : addr) (g : gnode)
    (ks : list Z) (cs : list addr) : Prop :=
  length cs = S (length ks) /\ ks ≠ [] /\ keys_ok (g_lo g) ks (g_hi g) /\
  (forall k, k ∈ ks -> P k) /\
  exists l, g_lvl g = S l /\
    forall i c, cs !! i = Some c ->
      kid_ok G pend a l (seps (g_lo g) ks (g_hi g) !! i) (seps (g_lo g) ks (g_hi g) !! S i) c.

Definition node_ok (G : gmap addr gnode) (pend : option (addr * addr)) (a : addr) (g : gnode)
    : Prop :=
  match g_body g with
  | BLeaf es nx => leaf_ok G g es nx
  | BInner ks cs => inner_ok G pend a g ks cs
  end.

Definition child_of (G : gmap addr gnode) (p a : addr) : Prop :=
  exists gp ks cs, G !! p = Some gp /\ g_body gp = BInner ks cs /\ a ∈ cs.

(** The two halves of a split node. *)
Definition pend_ok (G : gmap addr gnode) (root l r : addr) : Prop :=
  l ≠ r /\ r ≠ root /\
  exists gl gr key, G !! l = Some gl /\ G !! r = Some gr /\ g_lvl gl = g_lvl gr /\
    g_par gl = g_par gr /\ g_hi gl = Some key /\ g_lo gr = Some key /\
    strictly_above (g_lo gl) key /\ below (g_hi gr) key /\ P key /\
    forall es nx, g_body gl = BLeaf es nx -> nx = Some r.

Record tree_ok (G : gmap addr gnode) (root : addr) (H : nat) (pend : option (addr * addr))
    : Prop := {
  ok_root : exists gr, G !! root = Some gr /\ g_lvl gr = H /\ g_par gr = None /\
    g_lo gr = None /\ span_hi G pend root gr = None;
  ok_node a g : G !! a = Some g -> g_lvl g <= H /\ node_ok G pend a g;
  ok_parent a g : G !! a = Some g -> a ≠ root -> (forall l, pend ≠ Some (l, a)) ->
    exists p, g_par g = Some p /\ child_of G p a;
  ok_pend l r : pend = Some (l, r) -> pend_ok G root l r;
}.

(** The entries of all leaves. *)
Definition leaf_entry (G : gmap addr gnode) (k : Z) (rows : list Z) : Prop :=
  exists a g es nx, G !! a = Some g /\ g_body g = BLeaf es nx /\ (k, rows) ∈ es.

Definition same_entries (G G' : gmap addr gnode) : Prop :=
  forall k rows, leaf_entry G' k rows <-> leaf_entry G k rows.

(** ** What the conditions on a node depend on *)

Definition same_span (g g' : gnode) : Prop :=
  g_lvl g' = g_lvl g /\ g_lo g' = g_lo g /\ g_hi g' = g_hi g.

Definition keeps_leaves (G G' : gmap addr gnode) : Prop :=
  forall b gb, G !! b = Some gb -> g_lvl gb = 0 ->
    exists gb', G' !! b = Some gb' /\ g_lvl gb' = 0 /\ g_lo gb' = g_lo gb.

Lemma leaf_ok_mono G G' g g' es nx :
  keeps_leaves G G' -> same_span g g' -> leaf_ok G g es nx -> leaf_ok G' g' es nx.
Proof.
  intros Hk (E1 & E2 & E3) (Hl & Hs & Hb & Hne & Hnx). unfold leaf_ok. rewrite E1, E2, E3.
  split_and!; try done. destruct (g_hi g) as [k|]; [|done].
  destruct Hnx as (b & gb & -> & Hgb & Hlvl & Hlo).
  destruct (Hk _ _ Hgb Hlvl) as (gb' & ? & ? & ?). exists b, gb'. by rewrite <- Hlo.
Qed.

Definition keeps_child (G G' : gmap addr gnode) (pend pend' : option (addr * addr)) (c : addr)
    : Prop :=
  forall gc, G !! c = Some gc ->
    exists gc', G' !! c = Some gc' /\ g_lvl gc' = g_lvl gc /\ g_par gc' = g_par gc /\
      g_lo gc' = g_lo gc /\ span_hi G' pend' c gc' = span_hi G pend c gc.

Lemma inner_ok_mono G G' pend pend' a g g' ks cs :
  (forall c gc, c ∈ cs -> G !! c = Some gc -> g_par gc = Some a -> keeps_child G G' pend pend' c) ->
  same_span g g' -> inner_ok G pend a g ks cs -> inner_ok G' pend' a g' ks cs.
Proof.
  intros Hk (E1 & E2 & E3) (Hlen & Hne & Hok & HP & l & Hl & Hc).
  unfold inner_ok. rewrite E1, E2, E3. split_and!; try done. exists l. split; [done|].
  intros i c Hi. destruct (Hc _ _ Hi) as (gc & Hgc & Hlvl & Hpar & Hlo & Hhi).
  destruct (Hk c gc (list_elem_of_lookup_2 _ _ _ Hi) Hgc Hpar _ Hgc)
    as (gc' & Hgc' & Hlvl' & Hpar' & Hlo' & Hhi').
  exists gc'. rewrite Hlvl', Hpar', Hlo', Hhi'. auto.
Qed.

Lemma span_hi_ne G pend c gc :
  (forall r, pend ≠ Some (c, r)) -> span_hi G pend c gc = g_hi gc.
Proof.
  intros H. unfold span_hi. destruct pend as [[l r]|]; [|done].
  rewrite decide_False; [done|]. intros ->. by apply (H r).
Qed.

(** ** Facts about trees *)

Section Facts.
Context {G : gmap addr gnode} {root : addr} {H : nat} {pend : option (addr * addr)}.
Context (Hok : tree_ok G root H pend).

Lemma inner_node a g ks cs :
  G !! a = Some g -> g_body g = BInner ks cs -> inner_ok G pend a g ks cs.
Proof using Hok. intros Ha Hb. destruct (ok_node _ _ _ _ Hok _ _ Ha) as [_ Hn]. unfold node_ok in Hn. by rewrite Hb in Hn. Qed.

Lemma leaf_node a g es nx :
  G !! a = Some g -> g_body g = BLeaf es nx -> leaf_ok G g es nx.
Proof using Hok. intros Ha Hb. destruct (ok_node _ _ _ _ Hok _ _ Ha) as [_ Hn]. unfold node_ok in Hn. by rewrite Hb in Hn. Qed.

(** A node at level 0 is a leaf. *)
Lemma leaf_of_level a g :
  G !! a = Some g -> g_lvl g = 0 -> exists es nx, g_body g = BLeaf es nx.
Proof using Hok.
  intros Ha Hl. destruct (g_body g) as [es nx|ks cs] eqn:E; [eauto|].
  destruct (inner_node _ _ _ _ Ha E) as (_ & _ & _ & _ & l & ? & _). lia.
Qed.

(** The children of a node are different. *)
Lemma children_NoDup p gp ks cs :
  G !! p = Some gp -> g_body gp = BInner ks cs -> NoDup cs.
Proof using Hok.
  intros Hp Hb. destruct (inner_node _ _ _ _ Hp Hb) as (Hlen & _ & Hkeys & _ & l & _ & Hc).
  apply NoDup_alt. intros i j c Hi Hj.
  destruct (Hc _ _ Hi) as (gi & Hgi & _ & _ & Hlo & _).
  destruct (Hc _ _ Hj) as (gj & Hgj & _ & _ & Hlo' & _). simplify_eq.
  apply lookup_lt_Some in Hi, Hj.
  apply (seps_inj _ _ _ i j (g_lo gi) Hkeys); [lia|lia|done|done].
Qed.

(** A child of [p] has [p] as its parent and is one level below. *)
Lemma child_parent p a g :
  child_of G p a -> G !! a = Some g -> g_par g = Some p.
Proof using Hok.
  intros (gp & ks & cs & Hp & Hb & (i & Hi)%list_elem_of_lookup) Ha.
  destruct (inner_node _ _ _ _ Hp Hb) as (_ & _ & _ & _ & l & _ & Hc).
  destruct (Hc _ _ Hi) as (gc & Hgc & _ & Hpar & _). by simplify_eq.
Qed.

Lemma child_present p gp ks cs c :
  G !! p = Some gp -> g_body gp = BInner ks cs -> c ∈ cs ->
  exists gc, G !! c = Some gc /\ g_par gc = Some p /\ g_lvl gp = S (g_lvl gc).
Proof using Hok.
  intros Hp Hb (i & Hi)%list_elem_of_lookup.
  destruct (inner_node _ _ _ _ Hp Hb) as (_ & _ & _ & _ & l & Hl & Hc).
  destruct (Hc _ _ Hi) as (gc & Hgc & <- & Hpar & _). eauto.
Qed.

Lemma root_no_parent g : G !! root = Some g -> g_par g = None.
Proof using Hok. intros Hr. destruct (ok_root _ _ _ _ Hok) as (gr & ? & _ & ? & _). by simplify_eq. Qed.

(** Only the root and the right half have no parent. *)
Lemma parent_node a g p :
  G !! a = Some g -> (forall l, pend ≠ Some (l, a)) -> g_par g = Some p -> child_of G p a.
Proof using Hok.
  intros Ha Hp Hpar. destruct (decide (a = root)) as [->|Hne].
  { by rewrite (root_no_parent _ Ha) in Hpar. }
  destruct (ok_parent _ _ _ _ Hok _ _ Ha Hne Hp) as (p' & Hp' & Hc). by simplify_eq.
Qed.

End Facts.

(** ** Giving the right half to the parent *)

(** The children of a node after an insertion. *)
Lemma kids_ins (K K' : option (option Z) -> option (option Z) -> addr -> Prop)
    (s : list (option Z)) (cs : list addr) i l r key :
  length s = S (length cs) -> cs !! i = Some l ->
  (forall j c, cs !! j = Some c -> K (s !! j) (s !! S j) c) ->
  (forall j c, j ≠ i -> cs !! j = Some c -> K (s !! j) (s !! S j) c -> K' (s !! j) (s !! S j) c) ->
  K' (s !! i) (Some key) l -> K' (Some key) (s !! S i) r ->
  forall j c, ins_at (S i) r cs !! j = Some c ->
    K' (ins_at (S i) key s !! j) (ins_at (S i) key s !! S j) c.
Proof.
  intros Hlen Hi HK HKK Hl Hr j c Hj. pose proof (lookup_lt_Some _ _ _ Hi) as Hil.
  destruct (Nat.lt_trichotomy j (S i)) as [Hji|[->|Hji]].
  - rewrite ins_at_lt in Hj by lia. destruct (decide (j = i)) as [->|Hne].
    + rewrite ins_at_lt, ins_at_eq by lia. by simplify_eq.
    + rewrite !ins_at_lt by lia. auto.
  - rewrite ins_at_eq in Hj by lia. rewrite ins_at_eq, ins_at_gt by lia. by simplify_eq.
  - rewrite ins_at_gt in Hj by lia. rewrite !ins_at_gt by lia. destruct j as [|j]; [lia|].
    cbn [pred] in *. apply HKK; [lia|done|auto].
Qed.

Section Attach.
Context {G : gmap addr gnode} {root : addr} {H : nat} {l r : addr} {gl gr gp : gnode}.
Context {p : addr} {ks : list Z} {cs : list addr} {i : nat} {key : Z}.
Context (Hok : tree_ok G root H (Some (l, r))).
Context (Hl : G !! l = Some gl) (Hr : G !! r = Some gr) (Hp : G !! p = Some gp).
Context (Hpar : g_par gl = Some p) (Hb : g_body gp = BInner ks cs) (Hi : cs !! i = Some l).
Context (Hlo : g_lo gr = Some key).

Let G' := <[p := with_body (BInner (ins_at i key ks) (ins_at (S i) r cs)) gp]> G.

Lemma attach_pend :
  l ≠ r /\ r ≠ root /\ g_lvl gl = g_lvl gr /\ g_par gr = Some p /\ g_hi gl = Some key /\
  strictly_above (g_lo gl) key /\ below (g_hi gr) key /\ P key.
Proof using Hok Hl Hr Hpar Hlo.
  destruct (ok_pend _ _ _ _ Hok _ _ eq_refl)
    as (? & ? & gl' & gr' & key' & ? & ? & ? & ? & ? & ? & ? & ? & ? & _). simplify_eq.
  split_and!; congruence.
Qed.

Lemma attach_lvl : g_lvl gp = S (g_lvl gl).
Proof using Hok Hl Hp Hb Hi.
  destruct (child_present Hok _ _ _ _ l Hp Hb) as (gc & ? & _ & ?);
    [by apply list_elem_of_lookup_2 in Hi|]. by simplify_eq.
Qed.

Lemma attach_ne : p ≠ l /\ p ≠ r.
Proof using Hok Hl Hr Hp Hpar Hb Hi Hlo.
  pose proof attach_lvl. pose proof attach_pend as (_ & _ & ? & _).
  split; intros ->; simplify_eq; lia.
Qed.

(** The key goes to the index of the left half. *)
Lemma attach_place :
  prefix_len (fun k => (k <? key)%Z) ks = i /\ i <= length ks /\
  keys_ok (g_lo gp) (ins_at i key ks) (g_hi gp).
Proof using Hok Hl Hr Hp Hpar Hb Hi Hlo.
  pose proof attach_pend as (_ & _ & _ & _ & _ & Hsa & Hbe & _).
  pose proof (inner_node Hok _ _ _ _ Hp Hb) as (Hlen & _ & Hkeys & _ & lv & _ & Hc).
  destruct (Hc _ _ Hi) as (? & ? & _ & _ & Hs1 & Hs2). simplify_eq.
  unfold span_hi in Hs2. rewrite decide_True, Hr in Hs2 by done.
  destruct (seps_split_place _ _ _ _ _ _ key Hkeys Hs1 Hs2 Hsa Hbe) as [Hpl Hnk].
  assert (i <= length ks) by (apply lookup_lt_Some in Hi; lia).
  split_and!; [done..|]. rewrite <- Hpl. apply keys_ok_ins; [done|done| |].
  - eapply seps_above; [exact Hkeys|exact Hs1|done|done].
  - eapply seps_below; [exact Hkeys|exact Hs2|done].
Qed.

Lemma attach_same c : c ≠ p -> G' !! c = G !! c.
Proof using. intros. by apply lookup_insert_ne. Qed.

Lemma attach_keeps_leaves : keeps_leaves G G'.
Proof using Hok Hl Hp Hb Hi.
  intros b gb Hgb Hl0. exists gb. rewrite attach_same; [done|]. pose proof attach_lvl.
  intros ->. simplify_eq. lia.
Qed.

Lemma attach_keeps_child c : c ≠ l -> keeps_child G G' (Some (l, r)) None c.
Proof using Hp.
  intros Hcl gc Hgc. cbn. rewrite decide_False by done.
  destruct (decide (c = p)) as [->|].
  - simplify_eq. eexists. split; [apply lookup_insert_eq|]. done.
  - rewrite attach_same by done. eauto 10.
Qed.

Lemma attach_node_p :
  node_ok G' None p (with_body (BInner (ins_at i key ks) (ins_at (S i) r cs)) gp).
Proof using Hok Hl Hr Hp Hpar Hb Hi Hlo.
  pose proof attach_pend as (Hlr & _ & Hlvl & Hparr & Hhi & _ & _ & HP).
  pose proof attach_lvl as Hlp. pose proof attach_ne as [Hpl Hpr].
  pose proof attach_place as (_ & Hile & Hkeys').
  pose proof (inner_node Hok _ _ _ _ Hp Hb) as (Hlen & Hne & Hkeys & HPs & lv & Hlv & Hc).
  unfold node_ok, inner_ok. cbn [g_body g_lvl g_lo g_hi with_body]. split_and!.
  - rewrite !length_ins_at. lia.
  - intros E. apply (f_equal length) in E. by rewrite length_ins_at in E.
  - done.
  - intros k [->|Hk]%elem_of_ins_at; auto.
  - exists lv. split; [done|]. rewrite seps_ins_at by done.
    apply kids_ins with (K := kid_ok G (Some (l, r)) p lv) (l := l); [|done|done| | |].
    + rewrite length_seps. lia.
    + intros j c Hji Hj (gc & Hgc & Hlc & ? & ? & Hs).
      assert (c ≠ l) as Hcl.
      { intros ->. apply Hji. by apply (NoDup_lookup cs j i l (children_NoDup Hok _ _ _ _ Hp Hb)). }
      exists gc. rewrite attach_same by (intros ->; simplify_eq; lia).
      rewrite span_hi_ne by done. rewrite span_hi_ne in Hs by congruence. auto.
    + destruct (Hc _ _ Hi) as (? & ? & ? & ? & ? & _). simplify_eq.
      exists gl. rewrite attach_same by done. rewrite span_hi_ne, Hhi by done. auto.
    + destruct (Hc _ _ Hi) as (? & ? & ? & ? & ? & Hs2). simplify_eq.
      unfold span_hi in Hs2. rewrite decide_True, Hr in Hs2 by done.
      exists gr. rewrite attach_same by done. rewrite span_hi_ne by done.
      split_and!; congruence.
Qed.

Lemma attach_child_of q a : child_of G q a -> child_of G' q a.
Proof using Hp Hb Hi.
  intros (gq & ks' & cs' & Hq & Hbq & Hin). destruct (decide (q = p)) as [->|].
  - rewrite Hp in Hq. simplify_eq. rewrite Hb in Hbq. simplify_eq. eexists _, _, _.
    split; [apply lookup_insert_eq|]. split; [done|]. apply elem_of_ins_at. by right.
  - exists gq, ks', cs'. by rewrite attach_same.
Qed.

Lemma attach_ok : tree_ok G' root H None.
Proof using Hok Hl Hr Hp Hpar Hb Hi Hlo.
  pose proof attach_pend as (_ & _ & _ & Hparr & _). pose proof attach_ne as [Hpl Hpr].
  split.
  - destruct (ok_root _ _ _ _ Hok) as (g & Hg & Hg1 & Hg2 & Hg3 & Hg4).
    destruct (attach_keeps_child root) with (gc := g) as (g' & ? & ? & ? & ? & E);
      [intros ->; simplify_eq|done|].
    exists g'. rewrite E. split_and!; congruence.
  - intros a g Ha. destruct (decide (a = p)) as [->|Hap].
    { unfold G' in Ha. rewrite lookup_insert_eq in Ha. simplify_eq.
      split; [by apply (ok_node _ _ _ _ Hok _ _ Hp)|apply attach_node_p]. }
    rewrite attach_same in Ha by done. destruct (ok_node _ _ _ _ Hok _ _ Ha) as [Hle Hn].
    split; [done|]. unfold node_ok in *. destruct (g_body g) as [es nx|ks' cs'].
    + by apply (leaf_ok_mono G G' g); [apply attach_keeps_leaves| |].
    + eapply inner_ok_mono; [|done|exact Hn]. intros c gc _ Hgc Hpc.
      apply attach_keeps_child. intros ->. simplify_eq.
  - intros a g Ha Har _. destruct (decide (a = r)) as [->|].
    { rewrite attach_same in Ha by done. simplify_eq. exists p. split; [done|].
      eexists _, _, _. split; [apply lookup_insert_eq|]. split; [done|].
      apply elem_of_ins_at. by left. }
    assert (exists g0, G !! a = Some g0 /\ g_par g = g_par g0) as (g0 & Ha0 & ->).
    { destruct (decide (a = p)) as [->|].
      - unfold G' in Ha. rewrite lookup_insert_eq in Ha. simplify_eq. eauto.
      - rewrite attach_same in Ha by done. eauto. }
    destruct (ok_parent _ _ _ _ Hok _ _ Ha0 Har) as (q & ? & ?); [congruence|].
    eauto using attach_child_of.
  - done.
Qed.

Lemma attach_same_entries : same_entries G G'.
Proof using Hp Hb.
  intros k rows. split; intros (a & g & es & nx & Ha & Hg & Hin).
  - destruct (decide (a = p)) as [->|].
    + unfold G' in Ha. rewrite lookup_insert_eq in Ha. simplify_eq.
    + rewrite attach_same in Ha by done. exists a, g, es, nx. auto.
  - exists a, g, es, nx. rewrite attach_same; [auto|]. intros ->. congruence.
Qed.

End Attach.

End Tree.
