(* ===== verification/BTreeSplit.v ===== *)
(** * BTreeSplit: splitting nodes and growing the tree

    The other steps by which [BTree] changes a tree of [BTreeInv]: the contents
    of a leaf change, a leaf or an inner node is split into two halves, and the
    two halves of the root get a new root. *)

From stdpp Require Import base tactics numbers list gmap.
From Stdlib Require Import ZArith Lia.
From S2P Require Import Prelude Loops BTree BTreeInv.

(** [cs] get the parent [b]. *)
Definition adopt_all (cs : list addr) (b : addr) (G : gmap addr gnode) : gmap addr gnode :=
  map_imap (fun c g => Some (if decide (c ∈ cs) then with_par (Some b) g else g)) G.

Lemma lookup_adopt_all cs b G c :
  adopt_all cs b G !! c =
    (fun g => if decide (c ∈ cs) then with_par (Some b) g else g) <$> G !! c.
Proof. unfold adopt_all. rewrite map_lookup_imap. by destruct (G !! c). Qed.

Section Split.
Context {P : Z -> Prop} {G : gmap addr gnode} {root : addr} {H : nat} {a b : addr} {g : gnode}.
Context {k : Z} {cs : list addr} {bl br : body}.
Context (Hok : tree_ok P G root H None) (Ha : G !! a = Some g) (Hb : G !! b = None).
Context (Hcs : forall c, c ∈ cs -> child_of G a c).
Context (Hlo : strictly_above (g_lo g) k) (Hhi : below (g_hi g) k) (HP : P k).

Definition half_l : gnode := GN (g_lvl g) (g_lo g) (Some k) (g_par g) bl.
Definition half_r : gnode := GN (g_lvl g) (Some k) (g_hi g) (g_par g) br.

Definition split_map : gmap addr gnode := <[b := half_r]> (<[a := half_l]> (adopt_all cs b G)).

Lemma split_ne : a ≠ b.
Proof using Ha Hb Hcs. intros E. pose proof Ha as X. rewrite E, Hb in X. discriminate X. Qed.

Lemma split_l : split_map !! a = Some half_l.
Proof using Ha Hb Hcs. unfold split_map. rewrite lookup_insert_ne by (apply not_eq_sym, split_ne). apply lookup_insert_eq. Qed.

Lemma split_r : split_map !! b = Some half_r.
Proof using Ha Hb Hcs. apply lookup_insert_eq. Qed.

Lemma split_other c g0 :
  c ≠ a -> G !! c = Some g0 ->
  split_map !! c = Some (if decide (c ∈ cs) then with_par (Some b) g0 else g0).
Proof using Ha Hb Hcs.
  intros Hca Hc. unfold split_map. rewrite lookup_insert_ne by (intros ->; by rewrite Hb in Hc).
  rewrite lookup_insert_ne by done. by rewrite lookup_adopt_all, Hc.
Qed.

Lemma split_inv c g0' :
  split_map !! c = Some g0' ->
  (c = b /\ g0' = half_r) \/ (c = a /\ g0' = half_l) \/
  (c ≠ a /\ c ≠ b /\ exists g0, G !! c = Some g0 /\
    g0' = if decide (c ∈ cs) then with_par (Some b) g0 else g0).
Proof using Ha Hb Hcs.
  unfold split_map. intros [[-> <-]|[Hcb H']]%lookup_insert_Some; [auto|].
  apply lookup_insert_Some in H' as [[-> <-]|[Hca H']]; [auto|].
  rewrite lookup_adopt_all in H'. apply fmap_Some in H' as (g0 & ? & ->).
  right; right. eauto 10.
Qed.

Lemma split_keeps_leaves : keeps_leaves G split_map.
Proof using Ha Hb Hcs.
  intros c gc Hc Hl. destruct (decide (c = a)) as [->|].
  - simplify_eq. exists half_l. split; [apply split_l|done].
  - rewrite (split_other c gc) by done. eexists. split; [done|]. by case_decide.
Qed.

(** A node that keeps its parent looks the same to it. *)
Lemma split_keeps_child c : c ∉ cs -> keeps_child G split_map None (Some (a, b)) c.
Proof using Ha Hb Hcs.
  intros Hnc gc Hc. destruct (decide (c = a)) as [->|Hca].
  - simplify_eq. exists half_l. split; [apply split_l|].
    unfold span_hi. by rewrite decide_True, split_r by done.
  - exists gc. rewrite (split_other c gc), decide_False by done.
    rewrite !span_hi_ne by congruence. done.
Qed.

(** A moved child is not the root, nor the split node. *)
Lemma split_moved c : c ∈ cs -> c ≠ root /\ c ≠ a.
Proof using All.
  intros (gp & ks' & cs' & Hp & Hbo & Hin)%Hcs. simplify_eq.
  destruct (child_present P Hok _ _ _ _ c Ha Hbo Hin) as (gc & Hc & Hpar & Hlvl).
  split; intros ->; [|simplify_eq; lia].
  by rewrite (root_no_parent P Hok _ Hc) in Hpar.
Qed.

Lemma split_b_not_root : b ≠ root.
Proof using All.
  intros ->. destruct (ok_root _ _ _ _ _ Hok) as (gr & Hgr & _). congruence.
Qed.

Context (Hnl : node_ok P split_map (Some (a, b)) a half_l).
Context (Hnr : node_ok P split_map (Some (a, b)) b half_r).
Context (Hkids : forall c, child_of G a c ->
  if decide (c ∈ cs) then child_of split_map b c else child_of split_map a c).
Context (Hnx : forall es nx, bl = BLeaf es nx -> nx = Some b).

Lemma split_node c gc : split_map !! c = Some gc -> g_lvl gc <= H /\ node_ok P split_map (Some (a, b)) c gc.
Proof using All.
  intros [[-> ->]|[[-> ->]|(Hca & Hcb & g0 & Hc & ->)]]%split_inv.
  - split; [apply (ok_node _ _ _ _ _ Hok _ _ Ha)|done].
  - split; [apply (ok_node _ _ _ _ _ Hok _ _ Ha)|done].
  - destruct (ok_node _ _ _ _ _ Hok _ _ Hc) as [Hl Hn]. split; [by case_decide|].
    assert (same_span g0 (if decide (c ∈ cs) then with_par (Some b) g0 else g0)) as Hss by by case_decide.
    assert (g_body (if decide (c ∈ cs) then with_par (Some b) g0 else g0) = g_body g0) as Hbo
      by by case_decide.
    unfold node_ok in *. rewrite Hbo. destruct (g_body g0) as [es nx|ks' cs'] eqn:E.
    + by apply (leaf_ok_mono P G _ g0); [apply split_keeps_leaves| |].
    + eapply (inner_ok_mono P); [|exact Hss|exact Hn]. intros x gx _ Hx Hpx.
      apply split_keeps_child. intros Hin. apply Hca.
      pose proof (child_parent P Hok _ _ _ (Hcs _ Hin) Hx). congruence.
Qed.

Lemma split_child_of q c : q ≠ a -> child_of G q c -> child_of split_map q c.
Proof using All.
  intros Hqa (gq & ks' & cs' & Hq & Hbo & Hin).
  eexists _, ks', cs'. split; [by apply (split_other q gq)|]. split; [by case_decide|done].
Qed.

(** Every old node but a moved child has its parent's node still. *)
Lemma split_parent c g0 :
  G !! c = Some g0 -> c ≠ root ->
  exists p, (if decide (c ∈ cs) then Some b else g_par g0) = Some p /\ child_of split_map p c.
Proof using All.
  intros Hc Hcr. destruct (ok_parent _ _ _ _ _ Hok _ _ Hc Hcr) as (p & Hp & Hch); [done|].
  case_decide as Hin.
  - exists b. split; [done|]. specialize (Hkids c (Hcs _ Hin)). by rewrite decide_True in Hkids.
  - exists p. split; [done|]. destruct (decide (p = a)) as [->|].
    + specialize (Hkids c Hch). by rewrite decide_False in Hkids.
    + by apply split_child_of.
Qed.

Lemma split_ok : tree_ok P split_map root H (Some (a, b)).
Proof using All.
  split.
  - destruct (ok_root _ _ _ _ _ Hok) as (g0 & Hg & Hg1 & Hg2 & Hg3 & Hg4).
    destruct (split_keeps_child root) with (gc := g0) as (g' & ? & ? & ? & ? & E);
      [by intros [? _]%split_moved|done|].
    exists g'. rewrite E. split_and!; congruence.
  - apply split_node.
  - intros c gc Hc Hcr Hp.
    apply split_inv in Hc as [[-> ->]|[[-> ->]|(Hca & Hcb & g0 & Hc & ->)]].
    + by destruct (Hp a).
    + destruct (split_parent a g Ha Hcr) as (p & Hpar & Hch).
      rewrite decide_False in Hpar by (by intros [_ ?]%split_moved). eauto.
    + destruct (split_parent c g0 Hc Hcr) as (p & Hpar & Hch). exists p.
      split; [|done]. by case_decide.
  - intros l r [= <- <-]. split; [apply split_ne|]. split; [apply split_b_not_root|].
    exists half_l, half_r, k. split_and!; first [apply split_l | apply split_r | exact Hnx | done].
Qed.

End Split.

Arguments split_map G a b g k cs bl br : clear implicits.
Arguments half_l g k bl : clear implicits.
Arguments half_r g k br : clear implicits.

(** ** The two kinds of nodes *)

Section Steps.
Context {P : Z -> Prop} {G : gmap addr gnode} {root : addr} {H : nat} {a : addr} {g : gnode}.
Context (Hok : tree_ok P G root H None) (Ha : G !! a = Some g).

(** New entries in a leaf. *)
Lemma leaf_set_ok es nx es' :
  g_body g = BLeaf es nx -> increasing es'.*1 -> es' ≠ [] ->
  (forall k, k ∈ es'.*1 -> above (g_lo g) k /\ below (g_hi g) k /\ P k) ->
  tree_ok P (<[a := with_body (BLeaf es' nx) g]> G) root H None.
Proof using Hok Ha.
  intros Hbo Hs Hne Hb. set (G' := <[a := _]> G).
  pose proof (leaf_node P Hok _ _ _ _ Ha Hbo) as (Hl & _ & _ & _ & Hnx).
  assert (G' !! a = Some (with_body (BLeaf es' nx) g)) as Ha' by apply lookup_insert_eq.
  assert (forall c, c ≠ a -> G' !! c = G !! c) as Hsame by (intros; by apply lookup_insert_ne).
  assert (forall c, keeps_child G G' None None c) as Hkc.
  { intros c gc Hc. destruct (decide (c = a)) as [->|].
    - assert (gc = g) as -> by congruence. exists (with_body (BLeaf es' nx) g). done.
    - exists gc. by rewrite Hsame. }
  assert (keeps_leaves G G') as Hkl.
  { intros c gc Hc Hl0. destruct (Hkc c gc Hc) as (gc' & ? & ? & _ & ? & _). exists gc'.
    split_and!; congruence. }
  split.
  - destruct (ok_root _ _ _ _ _ Hok) as (g0 & Hg & Hg1 & Hg2 & Hg3 & Hg4).
    destruct (Hkc root g0 Hg) as (g' & ? & ? & ? & ? & E). exists g'. rewrite E. split_and!; congruence.
  - intros c gc Hc. destruct (decide (c = a)) as [->|Hca].
    + rewrite Ha' in Hc. simplify_eq. split; [by apply (ok_node _ _ _ _ _ Hok _ _ Ha)|].
      unfold node_ok. cbn [g_body with_body]. split_and!; [done..|by left|].
      cbn [g_hi with_body]. destruct (g_hi g) as [h|]; [|done].
      destruct Hnx as (b & gb & -> & Hgb & Hlb & Hlo).
      destruct (Hkl _ _ Hgb Hlb) as (gb' & ? & ? & ?). exists b, gb'. split_and!; congruence.
    + rewrite Hsame in Hc by done. destruct (ok_node _ _ _ _ _ Hok _ _ Hc) as [Hle Hn].
      split; [done|]. unfold node_ok in *. destruct (g_body gc).
      * by apply (leaf_ok_mono P G _ gc).
      * by eapply (inner_ok_mono P G G' None None c gc gc).
  - intros c gc Hc Hcr _.
    assert (exists g0, G !! c = Some g0 /\ g_par gc = g_par g0) as (g0 & Hg0 & ->).
    { destruct (decide (c = a)) as [->|]; [rewrite Ha' in Hc; simplify_eq; eauto|].
      rewrite Hsame in Hc by done. eauto. }
    destruct (ok_parent _ _ _ _ _ Hok _ _ Hg0 Hcr ltac:(done))
      as (p & Hp & gp & ks & cs & Hgp & Hbp & Hin).
    exists p. split; [done|]. exists gp, ks, cs. rewrite Hsame; [done|]. intros ->. congruence.
  - done.
Qed.

Context {b : addr} (Hb : G !! b = None).

(** A leaf is split before the entry with key [k]. *)
Lemma split_leaf_ok es nx s k rows :
  g_body g = BLeaf es nx -> 0 < s -> es !! s = Some (k, rows) ->
  tree_ok P (split_map G a b g k [] (BLeaf (take s es) (Some b)) (BLeaf (drop s es) nx))
    root H (Some (a, b)).
Proof using Hok Ha Hb.
  intros Hbo Hs Hk.
  pose proof (leaf_node P Hok _ _ _ _ Ha Hbo) as (Hl & Hinc & Hbd & _ & Hnx).
  assert (es.*1 !! s = Some k) as Hk1 by (by rewrite list_lookup_fmap, Hk).
  pose proof (lookup_lt_Some _ _ _ Hk) as Hlen.
  destruct (lookup_lt_is_Some_2 es 0) as [[k0 rows0] H0]; [lia|].
  assert (es.*1 !! 0 = Some k0) as H01 by (by rewrite list_lookup_fmap, H0).
  destruct (Hbd k) as (_ & Hhi & HP); [by apply list_elem_of_lookup_2 in Hk1|].
  assert (strictly_above (g_lo g) k) as Hlo.
  { destruct (Hbd k0) as (Hlo0 & _); [by apply list_elem_of_lookup_2 in H01|].
    pose proof (Hinc _ _ _ _ Hs H01 Hk1). destruct (g_lo g); cbn in *; lia. }
  apply split_ok; try done.
  - intros c Hc. by apply elem_of_nil in Hc.
  - unfold node_ok. cbn [g_body half_l]. unfold leaf_ok. cbn [g_lvl g_lo g_hi half_l]. split_and!.
    + done.
    + rewrite fmap_take. by apply increasing_take.
    + intros x (i & Hx)%list_elem_of_lookup. rewrite fmap_take in Hx.
      apply lookup_take_Some in Hx as [Hx Hi].
      destruct (Hbd x) as (? & _ & ?); [by apply list_elem_of_lookup_2 in Hx|].
      split_and!; [done| |done]. by apply (Hinc i s).
    + left. intros E. apply (f_equal length) in E. rewrite length_take in E. cbn in E. lia.
    + eexists b, _. split; [done|]. split; [apply lookup_insert_eq|]. by cbn.
  - unfold node_ok. cbn [g_body half_r]. unfold leaf_ok. cbn [g_lvl g_lo g_hi half_r]. split_and!.
    + done.
    + rewrite fmap_drop. by apply increasing_drop.
    + intros x (i & Hx)%list_elem_of_lookup. rewrite fmap_drop, lookup_drop in Hx.
      destruct (Hbd x) as (_ & ? & ?); [by apply list_elem_of_lookup_2 in Hx|].
      split_and!; [|done..]. cbn. destruct i as [|i].
      * rewrite Nat.add_0_r in Hx. simplify_eq. lia.
      * pose proof (Hinc s (s + S i) k x ltac:(lia) Hk1 Hx). lia.
    + left. intros E. apply (f_equal length) in E. rewrite length_drop in E. cbn in E. lia.
    + destruct (g_hi g) as [h|]; [|done]. destruct Hnx as (c & gc & -> & Hgc & Hlc & Hloc).
      destruct (split_keeps_leaves (k := k) (bl := BLeaf (take s es) (Some b))
        (br := BLeaf (drop s es) (Some c)) Ha Hb (cs := [])) with (b := c) (gb := gc)
        as (gc' & ? & ? & ?); [by intros ? ?%elem_of_nil|done..|].
      exists c, gc'. split_and!; congruence.
  - intros c (gp & ks & cs & Hgp & Hbp & _). congruence.
  - intros es' nx' [= _ <-]. done.
Qed.

(** An inner node is split at its key [k]. *)
Lemma split_inner_ok ks cs s k :
  g_body g = BInner ks cs -> 0 < s -> S s < length ks -> ks !! s = Some k ->
  tree_ok P (split_map G a b g k (drop (S s) cs) (BInner (take s ks) (take (S s) cs))
    (BInner (drop (S s) ks) (drop (S s) cs))) root H (Some (a, b)).
Proof using Hok Ha Hb.
  intros Hbo Hs Hlt Hk.
  pose proof (inner_node P Hok _ _ _ _ Ha Hbo) as (Hlen & _ & Hkeys & HPs & l & Hl & Hc).
  pose proof (children_NoDup P Hok _ _ _ _ Ha Hbo) as HN.
  assert (k ∈ ks) as Hin by (by apply list_elem_of_lookup_2 in Hk).
  destruct (proj2 Hkeys k Hin) as [Hlo Hhi].
  assert (forall c, c ∈ drop (S s) cs -> child_of G a c) as Hcs.
  { intros c Hc'. exists g, ks, cs. split_and!; [done..|]. rewrite <- (take_drop (S s) cs).
    apply elem_of_app. by right. }
  assert (forall c, c ∈ take (S s) cs -> c ∉ drop (S s) cs) as Hdis.
  { rewrite <- (take_drop (S s) cs), NoDup_app in HN. apply HN. }
  apply split_ok; try done; [by apply HPs|..].
  - unfold node_ok. cbn [g_body half_l]. unfold inner_ok. cbn [g_lvl g_lo g_hi half_l]. split_and!.
    + rewrite !length_take. lia.
    + intros E. apply (f_equal length) in E. rewrite length_take in E. cbn in E. lia.
    + by eapply keys_ok_take.
    + intros x Hx. apply HPs. rewrite <- (take_drop s ks). apply elem_of_app. by left.
    + exists l. split; [done|]. intros i c Hi.
      assert (c ∉ drop (S s) cs) as Hnc by (apply Hdis; by apply list_elem_of_lookup_2 in Hi).
      apply lookup_take_Some in Hi as [Hi Hil].
      rewrite (seps_take _ _ (g_hi g)) by done. rewrite !lookup_take_lt by lia.
      destruct (Hc _ _ Hi) as (gc & Hgc & Hlc & Hpc & Hb1 & Hb2).
      destruct (split_keeps_child (bl := BInner (take s ks) (take (S s) cs))
        (br := BInner (drop (S s) ks) (drop (S s) cs)) (k := k) Ha Hb Hcs c Hnc gc Hgc)
        as (gc' & ? & ? & ? & ? & E).
      exists gc'. rewrite E. split_and!; congruence.
  - unfold node_ok. cbn [g_body half_r]. unfold inner_ok. cbn [g_lvl g_lo g_hi half_r]. split_and!.
    + rewrite !length_drop. lia.
    + intros E. apply (f_equal length) in E. rewrite length_drop in E. cbn in E. lia.
    + by eapply keys_ok_drop.
    + intros x Hx. apply HPs. rewrite <- (take_drop (S s) ks). apply elem_of_app. by right.
    + exists l. split; [done|]. intros i c Hi.
      assert (c ∈ drop (S s) cs) as Hcin by (by apply list_elem_of_lookup_2 in Hi).
      rewrite lookup_drop in Hi. rewrite (seps_drop (g_lo g) _ _ s) by done. rewrite !lookup_drop.
      destruct (Hc _ _ Hi) as (gc & Hgc & Hlc & Hpc & Hb1 & Hb2).
      assert (c ≠ a) as Hca by (intros ->; simplify_eq; lia).
      exists (with_par (Some b) gc). split_and!; [|done|done|done|].
      * rewrite (split_other Ha Hb Hcs c gc) by done. by rewrite decide_True.
      * rewrite span_hi_ne by congruence. cbn in Hb2. by rewrite Nat.add_succ_r.
  - intros c (gp & ks' & cs' & Hgp & Hbp & Hc'). rewrite Ha in Hgp. simplify_eq.
    rewrite Hbo in Hbp. simplify_eq. case_decide as Hd.
    + eexists _, _, _. split; [apply lookup_insert_eq|]. done.
    + eexists _, _, _. split; [apply (split_l Ha Hb Hcs)|]. split; [done|].
      rewrite <- (take_drop (S s) cs'), elem_of_app in Hc'. tauto.
Qed.

End Steps.

(** ** A new root *)

Section NewRoot.
Context {P : Z -> Prop} {G : gmap addr gnode} {root : addr} {H : nat} {l r R : addr} {gl gr : gnode}.
Context {key : Z}.
Context (Hok : tree_ok P G root H (Some (l, r))).
Context (Hl : G !! l = Some gl) (Hr : G !! r = Some gr) (HR : G !! R = None).
Context (Hpar : g_par gl = None) (Hlo : g_lo gr = Some key).

Definition root_node : gnode := GN (S H) None None None (BInner [key] [l; r]).
Definition new_root_map : gmap addr gnode :=
  <[R := root_node]> (<[r := with_par (Some R) gr]> (<[l := with_par (Some R) gl]> G)).

Lemma new_root_pend :
  l = root /\ l ≠ r /\ r ≠ root /\ g_lvl gl = H /\ g_lvl gr = H /\ g_lo gl = None /\ g_hi gr = None /\
  g_hi gl = Some key /\ P key /\ g_par gr = None.
Proof using Hok Hl Hr Hpar Hlo.
  destruct (ok_pend _ _ _ _ _ Hok _ _ eq_refl)
    as (Hlr & Hrr & gl' & gr' & key' & ? & ? & ? & ? & ? & ? & ? & ? & HPk & _). simplify_eq.
  destruct (decide (l = root)) as [->|Hne].
  - destruct (ok_root _ _ _ _ _ Hok) as (g0 & Hg & Hg1 & Hg2 & Hg3 & Hg4). simplify_eq.
    unfold span_hi in Hg4. rewrite decide_True, Hr in Hg4 by done. split_and!; congruence.
  - destruct (ok_parent _ _ _ _ _ Hok _ _ Hl Hne ltac:(congruence)) as (p & ? & _). congruence.
Qed.

Lemma new_root_ne : R ≠ l /\ R ≠ r.
Proof using Hl Hr HR. split; intros E; rewrite E in HR; congruence. Qed.

Lemma new_root_R : new_root_map !! R = Some root_node.
Proof using. apply lookup_insert_eq. Qed.

Lemma new_root_l : new_root_map !! l = Some (with_par (Some R) gl).
Proof using All.
  pose proof new_root_ne as [? ?]. pose proof new_root_pend as (_ & ? & _).
  unfold new_root_map. rewrite !lookup_insert_ne by done. apply lookup_insert_eq.
Qed.

Lemma new_root_r : new_root_map !! r = Some (with_par (Some R) gr).
Proof using All.
  pose proof new_root_ne as [? ?]. unfold new_root_map. rewrite lookup_insert_ne by done.
  apply lookup_insert_eq.
Qed.

Lemma new_root_other c : c ≠ l -> c ≠ r -> c ≠ R -> new_root_map !! c = G !! c.
Proof using. intros. unfold new_root_map. by rewrite !lookup_insert_ne. Qed.

Lemma new_root_old c gc :
  G !! c = Some gc ->
  new_root_map !! c = Some (if decide (c = l \/ c = r) then with_par (Some R) gc else gc).
Proof using All.
  intros Hc. destruct (decide (c = l)) as [->|Hcl].
  { rewrite new_root_l, decide_True by auto. congruence. }
  destruct (decide (c = r)) as [->|Hcr].
  { rewrite new_root_r, decide_True by auto. congruence. }
  rewrite new_root_other, decide_False by (try tauto; intros ->; congruence). done.
Qed.

Lemma new_root_inv c gc' :
  new_root_map !! c = Some gc' -> c ≠ R ->
  exists gc, G !! c = Some gc /\
    gc' = if decide (c = l \/ c = r) then with_par (Some R) gc else gc.
Proof using All.
  intros Hc HcR. destruct (G !! c) as [gc|] eqn:E.
  - exists gc. rewrite (new_root_old _ _ E) in Hc. by simplify_eq.
  - rewrite new_root_other in Hc by (try done; intros ->; congruence). congruence.
Qed.

Lemma new_root_node :
  inner_ok P new_root_map None R root_node [key] [l; r].
Proof using All.
  pose proof new_root_pend as (_ & _ & _ & Hll & Hlr & Hlol & Hhir & Hhil & HPk & _).
  unfold inner_ok. cbn [g_lo g_hi g_lvl root_node]. split_and!; [done..| | |].
  - split.
    + intros i j x y Hij Hx Hy. apply list_lookup_singleton_Some in Hx as [-> _], Hy as [-> _]. lia.
    + intros k ->%list_elem_of_singleton. done.
  - intros k ->%list_elem_of_singleton. done.
  - exists H. split; [done|]. intros [|[|i]] c Hi; cbn in Hi; simplify_eq.
    + eexists. split; [apply new_root_l|]. cbn. split_and!; congruence.
    + eexists. split; [apply new_root_r|]. cbn. split_and!; congruence.
Qed.

Lemma new_root_child_of q c : child_of G q c -> child_of new_root_map q c.
Proof using All.
  intros (gq & ks & cs & Hq & Hb & Hin). eexists _, ks, cs. split; [by apply new_root_old|].
  split; [by case_decide|done].
Qed.

Lemma new_root_ok : tree_ok P new_root_map R (S H) None.
Proof using All.
  pose proof new_root_pend as (_ & _ & Hrr & Hll & _ & _ & _ & _ & _ & Hparr).
  split.
  - exists root_node. split_and!; [apply new_root_R|done..].
  - intros c gc Hc. destruct (decide (c = R)) as [->|HcR].
    { rewrite new_root_R in Hc. simplify_eq. split; [done|]. apply new_root_node. }
    destruct (new_root_inv c gc Hc HcR) as (g0 & Hg0 & ->).
    destruct (ok_node _ _ _ _ _ Hok _ _ Hg0) as [Hle Hn]. split; [case_decide; cbn; lia|].
    set (g' := if decide _ then _ else _).
    assert (same_span g0 g') as Hss by (unfold g'; by case_decide).
    assert (g_body g' = g_body g0) as Hbo by (unfold g'; by case_decide).
    unfold node_ok in *. rewrite Hbo. destruct (g_body g0) as [es nx|ks cs] eqn:E.
    + apply (leaf_ok_mono P G _ g0); [|done|done]. intros x gx Hx Hlx.
      eexists. split; [by apply new_root_old|].
      destruct (decide (x = l \/ x = r)); cbn; auto.
    + eapply (inner_ok_mono P); [|exact Hss|exact Hn]. intros x gx Hin Hx Hpx gx' Hx'.
      assert (x ≠ l) by (intros ->; congruence). assert (x ≠ r) by (intros ->; congruence).
      simplify_eq. exists gx. rewrite (new_root_old _ _ Hx), decide_False by tauto.
      rewrite !span_hi_ne by congruence. done.
  - intros c gc Hc HcR _. destruct (new_root_inv c gc Hc HcR) as (g0 & Hg0 & ->).
    case_decide as Hd.
    + exists R. split; [done|]. eexists _, _, _. split; [apply new_root_R|]. split; [done|].
      rewrite !elem_of_cons. tauto.
    + destruct (ok_parent _ _ _ _ _ Hok _ _ Hg0) as (p & Hp & Hch).
      { intros ->. apply Hd. left. symmetry. apply new_root_pend. }
      { intros ? [= _ E]. apply Hd. by right. }
      exists p. split; [done|]. by apply new_root_child_of.
  - done.
Qed.

Lemma new_root_same_entries : same_entries G new_root_map.
Proof using All.
  intros k rows. split; intros (c & gc & es & nx & Hc & Hb & Hin).
  - destruct (decide (c = R)) as [->|HcR]; [rewrite new_root_R in Hc; by simplify_eq|].
    destruct (new_root_inv c gc Hc HcR) as (g0 & Hg0 & ->). exists c, g0, es, nx.
    split; [done|]. split; [by case_decide|done].
  - exists c. eexists _, es, nx. split; [by apply new_root_old|]. split; [by case_decide|done].
Qed.

End NewRoot.

Arguments root_node H l r key : clear implicits.
Arguments new_root_map G H l r R gl gr key : clear implicits.

(** ** Entries *)

Lemma split_leaf_entries G a b g k es nx s :
  G !! a = Some g -> G !! b = None -> g_body g = BLeaf es nx ->
  same_entries G (split_map G a b g k [] (BLeaf (take s es) (Some b)) (BLeaf (drop s es) nx)).
Proof.
  intros Ha Hb Hbo x rows. assert (forall c, c ∈ [] -> child_of G a c) as Hcs.
  { intros c Hc. by apply elem_of_nil in Hc. }
  split; intros (c & gc & es' & nx' & Hc & Hbc & Hin).
  - apply split_inv in Hc as [[-> ->]|[[-> ->]|(Hca & Hcb & g0 & Hc & ->)]]; [..|done|done|done].
    + cbn in Hbc. simplify_eq. exists a, g, es, nx'. split_and!; [done..|].
      rewrite <- (take_drop s es). apply elem_of_app. by right.
    + cbn in Hbc. simplify_eq. exists a, g, es, nx. split_and!; [done..|].
      rewrite <- (take_drop s es). apply elem_of_app. by left.
    + exists c, g0, es', nx'. by case_decide.
  - destruct (decide (c = a)) as [->|Hca].
    + assert (gc = g) as -> by congruence. rewrite Hbo in Hbc. simplify_eq.
      rewrite <- (take_drop s es'), elem_of_app in Hin. destruct Hin as [Hin|Hin].
      * eexists a, _, _, _. split; [by apply split_l|]. split; [done|exact Hin].
      * eexists b, _, _, _. split; [apply lookup_insert_eq|]. split; [done|exact Hin].
    + eexists c, _, es', nx'. split; [by apply split_other|]. by case_decide.
Qed.

Lemma split_inner_entries G a b g k ks cs mv ks1 cs1 ks2 cs2 :
  G !! a = Some g -> G !! b = None -> g_body g = BInner ks cs ->
  (forall c, c ∈ mv -> child_of G a c) ->
  same_entries G (split_map G a b g k mv (BInner ks1 cs1) (BInner ks2 cs2)).
Proof.
  intros Ha Hb Hbo Hcs x rows. split; intros (c & gc & es' & nx' & Hc & Hbc & Hin).
  - apply split_inv in Hc as [[-> ->]|[[-> ->]|(Hca & Hcb & g0 & Hc & ->)]];
      [done|done| |done|done|done].
    exists c, g0, es', nx'. split; [done|]. by case_decide.
  - assert (c ≠ a) as Hca by (intros ->; congruence).
    eexists c, _, es', nx'. split; [by apply split_other|]. by case_decide.
Qed.

Lemma leaf_set_entries G a g es nx es' :
  G !! a = Some g -> g_body g = BLeaf es nx ->
  forall k rows, leaf_entry (<[a := with_body (BLeaf es' nx) g]> G) k rows <->
    (k, rows) ∈ es' \/
    (exists c gc es0 nx0, c ≠ a /\ G !! c = Some gc /\ g_body gc = BLeaf es0 nx0 /\ (k, rows) ∈ es0).
Proof.
  intros Ha Hbo k rows. split.
  - intros (c & gc & es0 & nx0 & Hc & Hbc & Hin).
    apply lookup_insert_Some in Hc as [[<- <-]|[Hca Hc]].
    + cbn in Hbc. simplify_eq. by left.
    + right. exists c, gc, es0, nx0. auto.
  - intros [Hin|(c & gc & es0 & nx0 & Hca & Hc & Hbc & Hin)].
    + eexists a, _, es', nx. split; [apply lookup_insert_eq|]. done.
    + exists c, gc, es0, nx0. by rewrite lookup_insert_ne.
Qed.
