(* ===== verification/BTreeFacts.v ===== *)
(** * BTreeFacts: what the shape of a B-tree implies

    The intervals of the nodes of a level are disjoint, so an entry is in the
    leaf that covers its key ([cover_unique]); the entries after a position are
    those of the rest of the leaf and of the leaves that follow
    ([next_entry]); a tree of height [H] has at least [2 ^ H] nodes
    ([height_bound]). *)

From stdpp Require Import base tactics numbers list gmap fin_maps.
From Stdlib Require Import ZArith Lia.
From S2P Require Import Prelude Loops BTree BTreeInv.

Definition covers (g : gnode) (k : Z) : Prop := above (g_lo g) k /\ below (g_hi g) k.

(** At most one child covers a key. *)
Lemma seps_cover_lt lo ks hi i j b b' k :
  increasing ks -> i < j -> j <= length ks ->
  seps lo ks hi !! S i = Some b -> below b k ->
  seps lo ks hi !! j = Some b' -> above b' k -> False.
Proof.
  intros Hs Hij Hj Hb Hbk Hb' Hbk'.
  apply seps_inv in Hb as [[? _]|[(i' & x & ? & -> & Hx)|[? _]]]; [lia| |lia].
  apply seps_inv in Hb' as [[-> _]|[(j' & y & -> & -> & Hy)|[? _]]]; [lia| |lia].
  simplify_eq. cbn in *. destruct (decide (i' = j')) as [->|]; [simplify_eq; lia|].
  pose proof (Hs i' j' x y ltac:(lia) Hx Hy). lia.
Qed.

Lemma seps_cover_inj lo ks hi i j b c b' c' k :
  increasing ks -> i <= length ks -> j <= length ks ->
  seps lo ks hi !! i = Some b -> seps lo ks hi !! S i = Some c -> above b k -> below c k ->
  seps lo ks hi !! j = Some b' -> seps lo ks hi !! S j = Some c' -> above b' k -> below c' k ->
  i = j.
Proof.
  intros Hs Hi Hj Hb Hc Hbk Hck Hb' Hc' Hbk' Hck'.
  destruct (Nat.lt_trichotomy i j) as [Hl|[Hl|Hl]]; [|done|]; exfalso.
  - by eapply (seps_cover_lt lo ks hi i j).
  - by eapply (seps_cover_lt lo ks hi j i).
Qed.

Lemma kid_within lo ks hi i b c k :
  keys_ok lo ks hi -> i <= length ks ->
  seps lo ks hi !! i = Some b -> seps lo ks hi !! S i = Some c -> above b k -> below c k ->
  above lo k /\ below hi k.
Proof.
  intros Hok Hi Hb Hc Hbk Hck. split; [|by eapply seps_below].
  apply seps_inv in Hb as [[_ ->]|[(j & b' & _ & -> & Hj)|[-> _]]]; [done| |lia].
  destruct (proj2 Hok b') as [Hlo _]; [by apply list_elem_of_lookup_2 in Hj|].
  destruct lo; cbn in *; lia.
Qed.

Definition kids (G : gmap addr gnode) (a : addr) : list addr :=
  match G !! a with Some g => match g_body g with BInner _ cs => cs | _ => [] end | None => [] end.

Section Facts.
Context {P : Z -> Prop} {G : gmap addr gnode} {root : addr} {H : nat}.
Context (Hok : tree_ok P G root H None).

Lemma level_root a g : G !! a = Some g -> g_lvl g = H -> a = root.
Proof using Hok.
  intros Ha Hl. destruct (decide (a = root)) as [|Hne]; [done|].
  destruct (ok_parent _ _ _ _ _ Hok _ _ Ha Hne) as (p & _ & gp & ks & cs & Hp & Hb & Hin); [done|].
  destruct (child_present P Hok _ _ _ _ a Hp Hb Hin) as (g' & ? & _ & Hlp). simplify_eq.
  pose proof (proj1 (ok_node _ _ _ _ _ Hok _ _ Hp)). lia.
Qed.

(** A node below the root is a child of a node that covers what it covers. *)
Lemma level_parent a g k :
  G !! a = Some g -> g_lvl g < H -> covers g k ->
  exists p gp ks cs i, G !! p = Some gp /\ g_body gp = BInner ks cs /\ cs !! i = Some a /\
    i <= length ks /\ g_lvl gp = S (g_lvl g) /\ covers gp k /\ keys_ok (g_lo gp) ks (g_hi gp) /\
    seps (g_lo gp) ks (g_hi gp) !! i = Some (g_lo g) /\
    seps (g_lo gp) ks (g_hi gp) !! S i = Some (g_hi g).
Proof using Hok.
  intros Ha Hl [Hlo Hhi]. destruct (ok_root _ _ _ _ _ Hok) as (gr & Hgr & Hlr & _).
  assert (a ≠ root) as Hne by (intros ->; simplify_eq; lia).
  destruct (ok_parent _ _ _ _ _ Hok _ _ Ha Hne)
    as (p & _ & gp & ks & cs & Hp & Hb & (i & Hi)%list_elem_of_lookup); [done|].
  pose proof (inner_node P Hok _ _ _ _ Hp Hb) as (Hlen & _ & Hkeys & _ & l & Hlp & Hc).
  destruct (Hc _ _ Hi) as (gc & Hgc & <- & Hpar & Hs1 & Hs2). simplify_eq.
  assert (i <= length ks) as Hile by (apply lookup_lt_Some in Hi; lia).
  pose proof (kid_within _ _ _ _ _ _ k Hkeys Hile Hs1 Hs2 Hlo Hhi).
  exists p, gp, ks, cs, i. done.
Qed.

Lemma cover_unique_level n a b ga gb k :
  G !! a = Some ga -> G !! b = Some gb -> g_lvl ga + n = H -> g_lvl gb + n = H ->
  covers ga k -> covers gb k -> a = b.
Proof using Hok.
  revert a b ga gb. induction n as [|n IH]; intros a b ga gb Ha Hb Hla Hlb Hca Hcb.
  { rewrite (level_root a ga), (level_root b gb); auto; lia. }
  destruct (level_parent a ga k Ha ltac:(lia) Hca)
    as (p & gp & ks & cs & i & Hp & Hbp & Hi & Hil & Hlp & Hcp & Hkeys & Hs1 & Hs2).
  destruct (level_parent b gb k Hb ltac:(lia) Hcb)
    as (q & gq & ks' & cs' & j & Hq & Hbq & Hj & Hjl & Hlq & Hcq & _ & Hs1' & Hs2').
  assert (p = q) as <- by (apply (IH p q gp gq); auto; lia).
  assert (gq = gp) as -> by congruence. rewrite Hbp in Hbq. simplify_eq.
  destruct Hca, Hcb.
  assert (i = j) as <- by (eapply (seps_cover_inj _ ks' _ i j); [apply Hkeys|done..]). congruence.
Qed.

(** One leaf covers a key. *)
Lemma cover_unique a b ga gb es nx es' nx' k :
  G !! a = Some ga -> g_body ga = BLeaf es nx -> G !! b = Some gb -> g_body gb = BLeaf es' nx' ->
  covers ga k -> covers gb k -> a = b.
Proof using Hok.
  intros Ha Hba Hb Hbb. apply (cover_unique_level H a b ga gb k Ha Hb).
  - destruct (leaf_node P Hok _ _ _ _ Ha Hba) as [-> _]. done.
  - destruct (leaf_node P Hok _ _ _ _ Hb Hbb) as [-> _]. done.
Qed.

Lemma entry_covered a g es nx k rows :
  G !! a = Some g -> g_body g = BLeaf es nx -> (k, rows) ∈ es -> covers g k.
Proof using Hok.
  intros Ha Hb Hin. destruct (leaf_node P Hok _ _ _ _ Ha Hb) as (_ & _ & Hbd & _).
  destruct (Hbd k) as (? & ? & _); [|done].
  apply (list_elem_of_fmap_2 fst es (k, rows)) in Hin. done.
Qed.

(** An entry is in the leaf that covers its key. *)
Lemma entry_in_leaf a g es nx k rows :
  G !! a = Some g -> g_body g = BLeaf es nx -> covers g k ->
  leaf_entry G k rows <-> (k, rows) ∈ es.
Proof using Hok.
  intros Ha Hb Hc. split.
  - intros (b & gb & es' & nx' & Hgb & Hbb & Hin).
    assert (a = b) as <- by (eapply (cover_unique a b g gb); try done; by eapply entry_covered).
    simplify_eq. by rewrite Hb in Hbb; simplify_eq.
  - intros Hin. by exists a, g, es, nx.
Qed.

(** The next entry in the order of keys, from position [i] of a leaf. *)
Lemma next_entry a g es nx i k rows :
  G !! a = Some g -> g_body g = BLeaf es nx -> es !! i = Some (k, rows) ->
  match es !! S i with
  | Some (k', rows') => (k < k')%Z /\
      forall x r, leaf_entry G x r -> (k < x)%Z -> (k' <= x)%Z
  | None =>
      match nx with
      | None => forall x r, leaf_entry G x r -> (x <= k)%Z
      | Some b => exists gb es' nx' k' rows', G !! b = Some gb /\ g_body gb = BLeaf es' nx' /\
          es' !! 0 = Some (k', rows') /\ (k < k')%Z /\
          forall x r, leaf_entry G x r -> (k < x)%Z -> (k' <= x)%Z
      end
  end.
Proof using Hok.
  intros Ha Hb Hi. pose proof (leaf_node P Hok _ _ _ _ Ha Hb) as (Hl & Hinc & Hbd & _ & Hnx).
  assert (es.*1 !! i = Some k) as Hi1 by (by rewrite list_lookup_fmap, Hi).
  destruct (Hbd k) as (Hlo & Hhi & _); [by apply list_elem_of_lookup_2 in Hi1|].
  assert (forall x r, leaf_entry G x r -> (k < x)%Z -> below (g_hi g) x ->
    exists j, i < j /\ es !! j = Some (x, r)) as Hin.
  { intros x r Hx Hkx Hbx. assert (covers g x) as Hc.
    { split; [|done]. destruct (g_lo g); cbn in *; lia. }
    apply (entry_in_leaf a g es nx x r Ha Hb Hc) in Hx as (j & Hj)%list_elem_of_lookup.
    exists j. split; [|done]. destruct (decide (i < j)); [done|exfalso].
    assert (es.*1 !! j = Some x) as Hj1 by (by rewrite list_lookup_fmap, Hj).
    destruct (decide (i = j)) as [->|]; [simplify_eq; lia|].
    pose proof (Hinc j i x k ltac:(lia) Hj1 Hi1). lia. }
  destruct (es !! S i) as [[k' rows']|] eqn:Ei.
  - assert (es.*1 !! S i = Some k') as Ei1 by (by rewrite list_lookup_fmap, Ei).
    split; [apply (Hinc i (S i)); [lia|done..]|]. intros x r Hx Hkx.
    destruct (decide (k' <= x)%Z); [done|].
    destruct (Hbd k') as (_ & Hhi' & _); [by apply list_elem_of_lookup_2 in Ei1|].
    destruct (Hin x r Hx Hkx) as (j & Hij & Hj); [destruct (g_hi g); cbn in *; lia|].
    assert (es.*1 !! j = Some x) as Hj1 by (by rewrite list_lookup_fmap, Hj).
    destruct (decide (j = S i)) as [->|]; [simplify_eq; lia|].
    pose proof (Hinc (S i) j k' x ltac:(lia) Ei1 Hj1). lia.
  - apply lookup_ge_None in Ei.
    assert (forall x r, leaf_entry G x r -> (k < x)%Z -> ~ below (g_hi g) x) as Hout.
    { intros x r Hx Hkx Hbx. destruct (Hin x r Hx Hkx Hbx) as (j & ? & Hj).
      apply lookup_lt_Some in Hj. lia. }
    destruct (g_hi g) as [h|] eqn:Eh.
    + destruct Hnx as (b & gb & -> & Hgb & Hlb & Hlob).
      destruct (leaf_of_level P Hok _ _ Hgb Hlb) as (es' & nx' & Hbb).
      pose proof (leaf_node P Hok _ _ _ _ Hgb Hbb) as (_ & _ & Hbd' & Hne & _).
      destruct es' as [|[k' rows'] es'']; [destruct Hne as [|[? _]]; congruence|].
      destruct (Hbd' k') as (Hlo' & Hhi' & _); [apply elem_of_cons; by left|].
      rewrite Hlob in Hlo'. cbn in Hhi, Hlo'.
      eexists gb, _, nx', k', rows'. split_and!; [done..|lia|]. intros x r Hx Hkx.
      destruct (decide (k' <= x)%Z); [done|].
      assert (h <= x)%Z by (pose proof (Hout x r Hx Hkx) as Hn; cbn in Hn; lia).
      assert (covers gb x) as Hc.
      { split; [rewrite Hlob; cbn; lia|]. destruct (g_hi gb); cbn in *; lia. }
      apply (entry_in_leaf b gb _ nx' x r Hgb Hbb Hc) in Hx as (j & Hj)%list_elem_of_lookup.
      pose proof (leaf_node P Hok _ _ _ _ Hgb Hbb) as (_ & Hinc' & _).
      assert ((((k', rows') :: es'').*1) !! j = Some x) as Hj1 by (by rewrite list_lookup_fmap, Hj).
      destruct j as [|j]; [cbn in Hj1; simplify_eq; lia|].
      pose proof (Hinc' 0 (S j) k' x ltac:(lia) eq_refl Hj1). lia.
    + subst nx. intros x r Hx. destruct (decide (x <= k)%Z); [done|].
      exfalso. apply (Hout x r Hx); [lia|done].
Qed.

(** ** The height *)

Lemma kids_NoDup L :
  NoDup L -> NoDup (L ≫= kids G).
Proof using Hok.
  assert (forall a, NoDup (kids G a)) as Hk.
  { intros a. unfold kids. destruct (G !! a) as [g|] eqn:Ha; [|constructor].
    destruct (g_body g) eqn:Hb; [constructor|]. by apply (children_NoDup P Hok a g ks). }
  assert (forall a c, c ∈ kids G a -> exists g, G !! c = Some g /\ g_par g = Some a) as Hpar.
  { intros a c. unfold kids. destruct (G !! a) as [g|] eqn:Ha; [|by intros ?%elem_of_nil].
    destruct (g_body g) eqn:Hb; [by intros ?%elem_of_nil|]. intros Hin.
    destruct (child_present P Hok _ _ _ _ c Ha Hb Hin) as (gc & ? & ? & _). eauto. }
  intros HN. apply NoDup_bind; [|by intros|done].
  intros a b c _ _ (g & Hg & Hg1)%Hpar (g' & Hg' & Hg2)%Hpar. congruence.
Qed.

Lemma levels n :
  n <= H -> exists L, NoDup L /\ 2 ^ n <= length L /\
    forall a, a ∈ L -> exists g, G !! a = Some g /\ g_lvl g + n = H.
Proof using Hok.
  induction n as [|n IH]; intros Hn.
  - exists [root]. split; [apply NoDup_singleton|]. split; [done|].
    intros a ->%list_elem_of_singleton. destruct (ok_root _ _ _ _ _ Hok) as (gr & ? & ? & _).
    exists gr. split; [done|lia].
  - destruct (IH ltac:(lia)) as (L & HN & Hlen & HL).
    assert (forall a, a ∈ L -> 2 <= length (kids G a) /\
      forall c, c ∈ kids G a -> exists g, G !! c = Some g /\ g_lvl g + S n = H) as Hkids.
    { intros a Ha. destruct (HL a Ha) as (g & Hg & Hl). unfold kids. rewrite Hg.
      destruct (g_body g) as [es nx|ks cs] eqn:Hb.
      - destruct (leaf_node P Hok _ _ _ _ Hg Hb) as [? _]. lia.
      - pose proof (inner_node P Hok _ _ _ _ Hg Hb) as (Hlc & Hne & _). split.
        + destruct ks; [done|]. cbn in Hlc. lia.
        + intros c Hc. destruct (child_present P Hok _ _ _ _ c Hg Hb Hc) as (gc & ? & _ & ?).
          exists gc. split; [done|lia]. }
    exists ((L ≫= kids G)). split; [by apply kids_NoDup|]. split.
    + assert (2 * length L <= length (L ≫= kids G)); [|cbn; lia].
      clear -Hkids. induction L as [|a L IH]; [done|]. rewrite bind_cons, length_app. cbn [length].
      destruct (Hkids a) as [? _]; [apply elem_of_cons; by left|].
      assert (2 * length L <= length (L ≫= kids G)); [|lia].
      apply IH. intros b Hb. apply Hkids. apply elem_of_cons. by right.
    + intros c (a & Hc & Ha)%list_elem_of_bind. by apply (proj2 (Hkids a Ha)).
Qed.

Lemma height_bound : 2 ^ H <= size G.
Proof using Hok.
  destruct (levels H ltac:(done)) as (L & HN & Hlen & HL).
  etransitivity; [exact Hlen|].
  rewrite <- (size_list_to_set (C := gset addr) L HN), <- (size_dom (D := gset addr)).
  apply subseteq_size. intros a Ha%elem_of_list_to_set.
  destruct (HL a Ha) as (g & Hg & _). by eapply elem_of_dom_2.
Qed.

End Facts.
