(* ===== verification/BTreeNode.v ===== *)
(** * BTreeNode: the array code of a node

    What the loops of [BTree] do to the arrays of one node, in terms of the
    entries of a [gnode] ([node_rep]). *)

From stdpp Require Import base tactics numbers list gmap.
From Stdlib Require Import ZArith Lia.
From S2P Require Import Prelude Loops BTree BTreeInv.

(** ** Copying with a gap *)

(** After [i] rounds of the copy that leaves cell [ip] free. *)
Definition copied {A} (src tmp0 : list A) (ip i : nat) (s : nat * list A) : Prop :=
  s.1 = (if decide (i <= ip) then i else S i) /\ length s.2 = length tmp0 /\
  (forall t, t < i -> t < ip -> s.2 !! t = src !! t) /\
  (forall t, t < i -> ip <= t -> s.2 !! S t = src !! t).

Lemma copy_skip_step {A} (src tmp0 : list A) ip i s :
  copied src tmp0 ip i s -> i < length src -> S i < length tmp0 ->
  exists s', copy_skip src ip i s = Ok s' /\ copied src tmp0 ip (S i) s'.
Proof.
  destruct s as [j tmp]. intros (Hj & Hlen & Hlt & Hge) Hi Hn. cbn in *.
  destruct (lookup_lt_is_Some_2 src i Hi) as [x Hx].
  unfold copy_skip. cbn [fst snd]. rewrite (aget_Some _ _ _ Hx). cbn [mbind res_bind].
  set (j' := if decide (j = ip) then S j else j).
  assert (j' = if decide (i < ip) then i else S i) as Hj'.
  { unfold j'. subst j. repeat case_decide; lia. }
  rewrite aset_ok by (rewrite Hj'; case_decide; lia). cbn [mbind res_bind]. rewrite Hj'.
  eexists. split; [done|]. unfold copied. cbn [fst snd].
  split_and!; [repeat case_decide; lia|by rewrite length_insert| |].
  - intros t Ht Htp. destruct (decide (t = i)) as [->|].
    + rewrite decide_True, list_lookup_insert_eq by lia. done.
    + rewrite list_lookup_insert_ne by (case_decide; lia). apply Hlt; lia.
  - intros t Ht Htp. destruct (decide (t = i)) as [->|].
    + rewrite decide_False, list_lookup_insert_eq by lia. done.
    + rewrite list_lookup_insert_ne by (case_decide; lia). apply Hge; lia.
Qed.

(** Copying [n] cells and writing the free one inserts it. *)
Lemma copy_skip_ins {A} (src tmp0 : list A) ip n x :
  n <= length src -> ip <= n -> length tmp0 = S n ->
  exists s, for_up 0 n (copy_skip src ip) (0, tmp0) = Ok s /\
    aset s.2 ip x = Ok (ins_at ip x (take n src)).
Proof.
  intros Hn Hip Hlen.
  destruct (for_up_rule (copied src tmp0 ip) 0 n (copy_skip src ip) (0, tmp0))
    as ([j tmp] & Hrun & _ & Hl & Hlt & Hge).
  - unfold copied. cbn. rewrite decide_True by lia. split_and!; [done..| |]; intros; lia.
  - intros i s Hi HI. apply (copy_skip_step src tmp0); [done|lia|lia].
  - exists (j, tmp). split; [done|]. cbn in *. rewrite aset_ok by lia. f_equal.
    assert (length (take n src) = n) as Hlt' by (rewrite length_take; lia).
    apply (list_eq_same_length _ _ (S n)); [rewrite length_ins_at; lia|rewrite length_insert; lia|].
    intros t y z Ht. destruct (Nat.lt_trichotomy t ip) as [H|[->|H]].
    + rewrite list_lookup_insert_ne, ins_at_lt, lookup_take_lt, Hlt by lia. congruence.
    + rewrite list_lookup_insert_eq, ins_at_eq by lia. congruence.
    + rewrite list_lookup_insert_ne, ins_at_gt, lookup_take_lt by lia.
      destruct t as [|t]; [lia|]. cbn [pred]. rewrite Hge by lia. congruence.
Qed.

(** ** Moving entries into a node *)

(** [n] is [n0] with [m] entries from cell [off] on. *)
Definition moved (tk : list Z) (tp : list slot) (off : nat) (n0 : bt_node) (m : nat)
    (n : bt_node) : Prop :=
  num_keys n = m /\ is_leaf n = is_leaf n0 /\ parent n = parent n0 /\ next n = next n0 /\
  length (keys n) = length (keys n0) /\ length (pointers n) = length (pointers n0) /\
  take m (keys n) = take m (drop off tk) /\ take m (pointers n) = take m (drop off tp).

Lemma moved_start tk tp off n : moved tk tp off n 0 (set_num_keys 0 n).
Proof. done. Qed.

Lemma move_entry_step tk tp off n0 m n :
  moved tk tp off n0 m n -> off + m < length tk -> off + m < length tp ->
  m < length (keys n0) -> m < length (pointers n0) ->
  exists n', move_entry tk tp off (off + m) n = Ok n' /\ moved tk tp off n0 (S m) n'.
Proof.
  intros (Hm & Hl & Hp & Hn & Hlk & Hlp & Hk & Hpt) H1 H2 H3 H4.
  destruct (lookup_lt_is_Some_2 tk (off + m) H1) as [k Hkm].
  destruct (lookup_lt_is_Some_2 tp (off + m) H2) as [p Hpm].
  unfold move_entry. rewrite (aget_Some _ _ _ Hkm), (aget_Some _ _ _ Hpm).
  replace (off + m - off) with m by lia. cbn [mbind res_bind].
  rewrite !aset_ok by lia. cbn [mbind res_bind]. eexists. split; [done|].
  unfold moved. cbn. rewrite !length_insert. split_and!; try congruence.
  - rewrite take_S_insert, Hk by lia. symmetry. apply take_S_r. by rewrite lookup_drop.
  - rewrite take_S_insert, Hpt by lia. symmetry. apply take_S_r. by rewrite lookup_drop.
Qed.

Lemma move_entries tk tp off cnt n0 :
  num_keys n0 = 0 -> off + cnt <= length tk -> off + cnt <= length tp ->
  cnt <= length (keys n0) -> cnt <= length (pointers n0) ->
  exists n, for_up off cnt (move_entry tk tp off) n0 = Ok n /\ moved tk tp off n0 cnt n.
Proof.
  intros H0 H1 H2 H3 H4.
  destruct (for_up_rule (fun i n => moved tk tp off n0 (i - off) n) off cnt
    (move_entry tk tp off) n0) as (n & Hrun & Hn).
  - rewrite Nat.sub_diag. done.
  - intros i n Hi HI. replace (S i - off) with (S (i - off)) by lia.
    destruct (move_entry_step tk tp off n0 (i - off) n HI) as (n' & Hn'); [lia..|].
    exists n'. by replace (off + (i - off)) with i in Hn' by lia.
  - exists n. split; [done|]. by replace (off + cnt - off) with cnt in Hn by lia.
Qed.

Lemma fill_old_spec order tk tp cnt n0 :
  cnt < order -> cnt <= length tk -> cnt <= length tp ->
  cnt <= length (keys n0) -> cnt <= length (pointers n0) ->
  exists n, fill_old order tk tp cnt n0 = Ok n /\ moved tk tp 0 n0 cnt n.
Proof.
  intros H0 H1 H2 H3 H4. unfold fill_old.
  apply (for_up_rule (fun i n => moved tk tp 0 n0 i n)).
  - apply moved_start.
  - intros i n Hi HI.
    destruct (move_entry_step tk tp 0 n0 i n HI) as (n' & Hn' & HI'); [lia..|].
    cbn in Hn'. rewrite Hn'. cbn [mbind res_bind].
    rewrite bool_decide_eq_true_2 by (destruct HI' as [-> _]; lia). cbn. eauto.
Qed.

(** Filling the rest of the pointers with null. *)
Lemma clear_pointers_spec order n :
  length (pointers n) = order -> num_keys n < order ->
  exists ps, clear_pointers order n = Ok (set_arrays (keys n) ps n) /\ length ps = order /\
    take (num_keys n) ps = take (num_keys n) (pointers n).
Proof.
  intros Hlen Hn. unfold clear_pointers.
  destruct (for_up_rule (fun (_ : nat) (ps : list slot) => length ps = order /\
      take (num_keys n) ps = take (num_keys n) (pointers n))
    (num_keys n) (order - 1 - num_keys n) (fun i ps => aset ps i PNull) (pointers n))
    as (ps & Hrun & Hl & Ht).
  - done.
  - intros i ps Hi [Hl Ht]. rewrite aset_ok by lia. eexists. split; [done|].
    rewrite length_insert. split; [done|]. by rewrite take_insert_ge by lia.
  - exists ps. by rewrite Hrun.
Qed.

(** ** Nodes *)

Definition node_rep (order : nat) (g : gnode) (n : bt_node) : Prop :=
  length (keys n) = order - 1 /\ length (pointers n) = order /\ parent n = g_par g /\
  match g_body g with
  | BLeaf es nx =>
      is_leaf n = true /\ num_keys n = length es /\ next n = nx /\ length es < order /\
      take (length es) (keys n) = es.*1 /\ take (length es) (pointers n) = PItem <$> es.*2
  | BInner ks cs =>
      is_leaf n = false /\ num_keys n = length ks /\ length ks < order /\
      length cs = S (length ks) /\
      take (length ks) (keys n) = ks /\ take (length cs) (pointers n) = PNode <$> cs
  end.

Lemma lookup_take_eq {A} (l l' : list A) n i :
  take n l = l' -> i < n -> l !! i = l' !! i.
Proof. intros <- Hi. by rewrite lookup_take_lt. Qed.

(** The searches see the keys in use. *)
Lemma scan_while_take {A} (p : A -> bool) a n l :
  take n a = l -> n <= length a -> scan_while p a n 0 = Ok (prefix_len p l).
Proof. intros <- Hn. rewrite scan_while_prefix by lia. by rewrite drop_0. Qed.

Section Node.
Context {order : nat} {g : gnode} {n : bt_node}.
Context (Hrep : node_rep order g n).

Lemma leaf_has_key_spec es nx key :
  g_body g = BLeaf es nx ->
  (exists i rows, es !! i = Some (key, rows) /\ leaf_has_key n key = Ok (Some i)) \/
  ((key ∉ es.*1) /\ leaf_has_key n key = Ok None).
Proof using Hrep.
  intros Hb. destruct Hrep as (Hlk & _ & _ & H). rewrite Hb in H.
  destruct H as (_ & Hn & _ & Hlt & Hk & _).
  unfold leaf_has_key. rewrite Hn, (scan_while_take _ _ _ _ Hk) by lia. cbn [mbind res_bind].
  set (p := fun k => negb (k =? key)%Z). set (i := prefix_len p es.*1).
  case_decide as Hi.
  - left. destruct (lookup_lt_is_Some_2 es i Hi) as [[k rows] He].
    exists i, rows. split; [|done].
    assert (es.*1 !! i = Some k) as He1 by (by rewrite list_lookup_fmap, He).
    pose proof (prefix_len_at p es.*1 k He1) as E.
    unfold p in E. bool_to_Z. by subst.
  - right. split; [|done]. intros (j & Hj)%list_elem_of_lookup.
    assert (p key = true) as E.
    { apply (prefix_len_below p es.*1 j); [|done]. apply lookup_lt_Some in Hj.
      rewrite length_fmap in Hj. fold i. lia. }
    unfold p in E. bool_to_Z. done.
Qed.

Lemma leaf_item es nx i key rows :
  g_body g = BLeaf es nx -> es !! i = Some (key, rows) ->
  aget (keys n) i = Ok key /\ aget (pointers n) i = Ok (PItem rows).
Proof using Hrep.
  intros Hb Hi. destruct Hrep as (Hlk & _ & _ & H). rewrite Hb in H.
  destruct H as (_ & _ & _ & _ & Hk & Hp). pose proof (lookup_lt_Some _ _ _ Hi) as Hlt.
  split; apply aget_Some.
  - by rewrite (lookup_take_eq _ _ _ i Hk Hlt), list_lookup_fmap, Hi.
  - by rewrite (lookup_take_eq _ _ _ i Hp Hlt), !list_lookup_fmap, Hi.
Qed.

Lemma inner_child ks cs i c :
  g_body g = BInner ks cs -> cs !! i = Some c -> aget (pointers n) i = Ok (PNode c).
Proof using Hrep.
  intros Hb Hi. destruct Hrep as (_ & _ & _ & H). rewrite Hb in H.
  destruct H as (_ & _ & _ & _ & _ & Hp). apply aget_Some.
  by rewrite (lookup_take_eq _ _ _ i Hp (lookup_lt_Some _ _ _ Hi)), list_lookup_fmap, Hi.
Qed.

End Node.

(** ** The two shifting loops *)

Lemma shift_leaf_spec ks0 ps0 N ip :
  N < length ks0 -> N < length ps0 -> ip <= N ->
  exists a, for_down N (N - ip) shift_leaf (ks0, ps0) = Ok a /\
    shifted ks0 N ip a.1 /\ shifted ps0 N ip a.2.
Proof.
  intros Hk Hp Hi.
  destruct (for_down_rule (fun i a => shifted ks0 N (pred i) a.1 /\ shifted ps0 N (pred i) a.2)
    (S ip) (N - ip) shift_leaf (ks0, ps0)) as (a & Hrun & Ha).
  - replace (pred (S ip + (N - ip))) with N by lia. split; apply shifted_start.
  - intros i [ks ps] Hin [H1 H2]. cbn [pred fst snd] in *. destruct i as [|i]; [lia|].
    destruct (shifted_step _ _ _ _ H1 ltac:(lia) Hk) as (k & E1 & E2 & H1').
    destruct (shifted_step _ _ _ _ H2 ltac:(lia) Hp) as (p & E3 & E4 & H2').
    unfold shift_leaf. cbn [fst snd]. replace (S i - 1) with i by lia.
    rewrite E1. cbn [mbind res_bind]. rewrite E2. cbn [mbind res_bind].
    rewrite E3. cbn [mbind res_bind]. rewrite E4. cbn. eauto.
  - exists a. replace (pred (S ip + (N - ip))) with N in Hrun by lia. done.
Qed.

Lemma shift_parents_spec n ip :
  num_keys n ≠ 0 -> num_keys n < length (keys n) -> S (num_keys n) < length (pointers n) ->
  ip <= num_keys n ->
  exists a, shift_parents ip n = Ok a /\ shifted (keys n) (num_keys n) ip a.1 /\
    shifted (pointers n) (S (num_keys n)) (S ip) a.2.
Proof.
  intros H0 Hk Hp Hi. unfold shift_parents. destruct (num_keys n) as [|N] eqn:E; [done|].
  destruct (for_down_rule (fun i a => shifted (keys n) (S N) i a.1 /\
      shifted (pointers n) (S (S N)) (S i) a.2)
    ip (S N - ip) shift_parent (keys n, pointers n)) as (a & Hrun & Ha).
  - replace (ip + (S N - ip)) with (S N) by lia. split; apply shifted_start.
  - intros i [ks ps] Hin [H1 H2]. cbn [fst snd] in *.
    destruct (shifted_step _ _ _ _ H1 ltac:(lia) Hk) as (k & E1 & E2 & H1').
    destruct (shifted_step _ _ _ _ H2 ltac:(lia) Hp) as (p & E3 & E4 & H2').
    unfold shift_parent. cbn [fst snd]. rewrite Nat.add_1_r.
    replace (i + 2) with (S (S i)) by lia.
    rewrite E1. cbn [mbind res_bind]. rewrite E2. cbn [mbind res_bind].
    rewrite E3. cbn [mbind res_bind]. rewrite E4. cbn. eauto.
  - exists a. replace (pred (ip + (S N - ip))) with N in Hrun by lia. done.
Qed.

(** ** Insertion into one node *)

(** A leaf with room. *)
Lemma leaf_insert_rep order g n es nx ip key row :
  node_rep order g n -> g_body g = BLeaf es nx -> ip <= length es -> S (length es) < order ->
  exists a ks ps,
    for_down (num_keys n) (num_keys n - ip) shift_leaf (keys n, pointers n) = Ok a /\
    aset a.1 ip key = Ok ks /\ aset a.2 ip (PItem [row]) = Ok ps /\
    node_rep order (with_body (BLeaf (ins_at ip (key, [row]) es) nx) g)
      (set_num_keys (S (num_keys n)) (set_arrays ks ps n)).
Proof.
  intros (Hlk & Hlp & Hpar & H) Hb Hip Hlt. rewrite Hb in H.
  destruct H as (Hleaf & Hn & Hnx & _ & Hk & Hp). rewrite Hn.
  destruct (shift_leaf_spec (keys n) (pointers n) (length es) ip) as (a & Hrun & H1 & H2); [lia..|].
  exists a, (<[ip := key]> a.1), (<[ip := PItem [row]]> a.2).
  pose proof H1 as (L1 & _). pose proof H2 as (L2 & _).
  split_and!; [done|apply aset_ok; lia|apply aset_ok; lia|].
  unfold node_rep. cbn. rewrite !length_insert, length_ins_at. split_and!; try congruence; try lia.
  - rewrite (shifted_ins _ _ _ _ key _ H1 Hk) by lia. by rewrite fmap_ins_at.
  - rewrite (shifted_ins _ _ _ _ (PItem [row]) _ H2 Hp) by lia. by rewrite !fmap_ins_at.
Qed.

(** A key that is there gets one more item. *)
Lemma leaf_update_rep order g n es nx i key rows rows' :
  node_rep order g n -> g_body g = BLeaf es nx -> es !! i = Some (key, rows) ->
  aset (pointers n) i (PItem rows') = Ok (<[i := PItem rows']> (pointers n)) /\
  node_rep order (with_body (BLeaf (<[i := (key, rows')]> es) nx) g)
    (set_arrays (keys n) (<[i := PItem rows']> (pointers n)) n).
Proof.
  intros (Hlk & Hlp & Hpar & H) Hb Hi. rewrite Hb in H.
  destruct H as (Hleaf & Hn & Hnx & Hlt & Hk & Hp). pose proof (lookup_lt_Some _ _ _ Hi) as Hil.
  split; [apply aset_ok; lia|]. unfold node_rep. cbn. rewrite !length_insert.
  split_and!; try done.
  - rewrite Hk, list_fmap_insert. cbn. symmetry. apply list_insert_id.
    by rewrite list_lookup_fmap, Hi.
  - rewrite take_insert_lt by lia. by rewrite Hp, !list_fmap_insert.
Qed.

(** An inner node with room. *)
Lemma parent_insert_rep order g n ks cs ip key r :
  node_rep order g n -> g_body g = BInner ks cs -> ks ≠ [] -> ip <= length ks ->
  length ks < order - 1 ->
  exists a ks' ps', shift_parents ip n = Ok a /\ aset a.1 ip key = Ok ks' /\
    aset a.2 (ip + 1) (PNode r) = Ok ps' /\
    node_rep order (with_body (BInner (ins_at ip key ks) (ins_at (S ip) r cs)) g)
      (set_num_keys (S (num_keys n)) (set_arrays ks' ps' n)).
Proof.
  intros (Hlk & Hlp & Hpar & H) Hb Hne Hip Hlt. rewrite Hb in H.
  destruct H as (Hleaf & Hn & _ & Hlc & Hk & Hp).
  assert (length ks ≠ 0) by (by destruct ks).
  destruct (shift_parents_spec n ip) as (a & Hrun & H1 & H2); [lia..|]. rewrite Nat.add_1_r.
  exists a, (<[ip := key]> a.1), (<[S ip := PNode r]> a.2).
  pose proof H1 as (L1 & _). pose proof H2 as (L2 & _).
  split_and!; [done|apply aset_ok; lia|apply aset_ok; lia|]. rewrite Hn in *.
  unfold node_rep. cbn. rewrite !length_insert, !length_ins_at. split_and!; try congruence; try lia.
  - by rewrite (shifted_ins _ _ _ _ key _ H1 Hk) by lia.
  - rewrite Hlc. rewrite Hlc in Hp. rewrite (shifted_ins _ _ _ _ (PNode r) _ H2 Hp) by lia.
    by rewrite fmap_ins_at.
Qed.
