(* ===== verification/BTreeHeap.v ===== *)
(** * BTreeHeap: the B-tree operations on the heap

    Each operation of [BTree] that changes nodes does, on a heap that
    represents a tree, one or more of the steps of [BTreeInv] and
    [BTreeSplit], without running into a failed assertion, an access out of
    bounds or the end of its fuel, and leaves the rest of the heap alone
    ([frame]). *)

From stdpp Require Import base tactics numbers list gmap.
From Stdlib Require Import ZArith Lia.
From S2P Require Import Prelude Loops BTree BTreeInv BTreeSplit BTreeFacts BTreeNode.

Definition heap_rep (order : nat) (m : gmap addr bt_node) (G : gmap addr gnode) : Prop :=
  forall a g, G !! a = Some g -> exists n, m !! a = Some n /\ node_rep order g n.

(** Nodes below [brk] are all that is allocated. *)
Definition heap_ok (h : bt_heap) : Prop := forall a n, cells h !! a = Some n -> a < brk h.

(** What is outside of the tree stays, and the tree only grows by new nodes. *)
Record frame (h : bt_heap) (G : gmap addr gnode) (h' : bt_heap) (G' : gmap addr gnode) : Prop := {
  frame_brk : brk h <= brk h';
  frame_cells a : a < brk h -> G !! a = None -> cells h' !! a = cells h !! a;
  frame_dom a g : G' !! a = Some g -> is_Some (G !! a) \/ brk h <= a;
}.

Lemma frame_trans h G h1 G1 h2 G2 : frame h G h1 G1 -> frame h1 G1 h2 G2 -> frame h G h2 G2.
Proof.
  intros [B1 C1 D1] [B2 C2 D2]. split.
  - lia.
  - intros a Ha HG. rewrite C2; [by apply C1|lia|].
    destruct (G1 !! a) as [g|] eqn:E; [|done].
    destruct (D1 _ _ E) as [[? ?]|?]; [congruence|lia].
  - intros a g Hg. destruct (D2 _ _ Hg) as [[g1 Hg1]|]; [by eapply D1|right; lia].
Qed.

(** ** Memory *)

Lemma load_Some h a n : cells h !! a = Some n -> load h a = Ok n.
Proof. intros H. unfold load. by rewrite H. Qed.

Lemma heap_rep_load order h G a g :
  heap_rep order (cells h) G -> G !! a = Some g ->
  exists n, load h a = Ok n /\ cells h !! a = Some n /\ node_rep order g n.
Proof.
  intros Hr Ha. destruct (Hr a g Ha) as (n & Hn & Hrep). exists n. by rewrite (load_Some _ _ _ Hn).
Qed.

Lemma heap_rep_insert order m G a g n :
  heap_rep order m G -> node_rep order g n -> heap_rep order (<[a := n]> m) (<[a := g]> G).
Proof.
  intros Hr Hn b g' Hb. destruct (decide (b = a)) as [->|Hne].
  - rewrite lookup_insert_eq in Hb. simplify_eq. exists n. split; [apply lookup_insert_eq|done].
  - rewrite lookup_insert_ne in Hb by done. destruct (Hr _ _ Hb) as (n' & ? & ?).
    exists n'. by rewrite lookup_insert_ne.
Qed.

Lemma heap_rep_fresh order m G a n :
  heap_rep order m G -> G !! a = None -> heap_rep order (<[a := n]> m) G.
Proof.
  intros Hr Ha b g Hb. destruct (Hr _ _ Hb) as (n' & ? & ?). exists n'.
  by rewrite lookup_insert_ne by congruence.
Qed.

Lemma node_rep_parent order g n p : node_rep order g n -> node_rep order (with_par p g) (set_parent p n).
Proof. intros (H1 & H2 & _ & H). split_and!; [done..|]. by destruct g as [??? ? []]. Qed.

(** The link that [left->next = right] writes is there already when they are
    leaves. *)
Lemma node_rep_next order g n p :
  node_rep order g n -> (forall es nx, g_body g = BLeaf es nx -> nx = p) ->
  node_rep order g (set_next p n).
Proof.
  intros (H1 & H2 & H3 & H) Hp. split_and!; [done..|].
  destruct (g_body g) as [es nx|ks cs] eqn:E; [|done].
  rewrite (Hp es nx eq_refl) in H |- *. by destruct H as (? & ? & ? & ? & ? & ?).
Qed.

Lemma heap_ok_store h a n : heap_ok h -> a < brk h -> heap_ok (store a n h).
Proof.
  intros Hok Ha b n' Hb. cbn in Hb. apply lookup_insert_Some in Hb as [[<- _]|[_ Hb]]; [done|].
  by eapply Hok.
Qed.

Lemma heap_ok_fresh order h G : heap_ok h -> heap_rep order (cells h) G -> G !! brk h = None.
Proof.
  intros Hok Hr. destruct (G !! brk h) as [g|] eqn:E; [|done].
  destruct (Hr _ _ E) as (n & Hn & _). apply Hok in Hn. lia.
Qed.

Lemma heap_rep_lt order h G a g :
  heap_ok h -> heap_rep order (cells h) G -> G !! a = Some g -> a < brk h.
Proof. intros Hok Hr Ha. destruct (Hr _ _ Ha) as (n & Hn & _). by eapply Hok. Qed.

Lemma cut_eq n : cut n = (n + 1) / 2.
Proof.
  unfold cut. pose proof (Nat.div_mod_eq n 2). pose proof (Nat.div_mod_eq (n + 1) 2).
  pose proof (Nat.mod_upper_bound n 2). pose proof (Nat.mod_upper_bound (n + 1) 2).
  destruct (Nat.eqb_spec (n mod 2) 0); lia.
Qed.

Lemma cut_bounds n : 2 <= n -> 1 <= cut n /\ cut n < n \/ n = 2 /\ cut n = 1.
Proof.
  intros Hn. rewrite cut_eq. pose proof (Nat.div_mod_eq (n + 1) 2).
  pose proof (Nat.mod_upper_bound (n + 1) 2). lia.
Qed.
Lemma cut_inner n : 3 <= n -> 2 <= cut n /\ cut n < n.
Proof.
  intros Hn. rewrite cut_eq. pose proof (Nat.div_mod_eq (n + 1) 2).
  pose proof (Nat.mod_upper_bound (n + 1) 2). lia.
Qed.

(** The loop that gives the children of a node their new parent. *)
Lemma adopt_ok h a n cs :
  take (length cs) (pointers n) = PNode <$> cs -> length cs = S (num_keys n) ->
  (forall c, c ∈ cs -> is_Some (cells h !! c)) ->
  exists h', adopt a n h = Ok h' /\ brk h' = brk h /\ roots h' = roots h /\
    forall c, cells h' !! c =
      (fun m => if decide (c ∈ cs) then set_parent (Some a) m else m) <$> cells h !! c.
Proof.
  intros Hp Hlen Hc.
  destruct (for_up_rule (fun i h' => brk h' = brk h /\ roots h' = roots h /\
      forall c, cells h' !! c =
        (fun m => if decide (c ∈ take i cs) then set_parent (Some a) m else m) <$> cells h !! c)
    0 (S (num_keys n)) (fun i h => p ← aget (pointers n) i; child ← as_node p; c ← load h child;
      Ok (store child (set_parent (Some a) c) h)) h) as (h' & Hrun & Hb & Hro & Hcells).
  - split_and!; [done..|]. intros c. rewrite take_0. destruct (cells h !! c); [|done].
    cbn. by rewrite decide_False by (by intros ?%elem_of_nil).
  - intros i h1 Hi (Hb & Hro & Hcells).
    destruct (lookup_lt_is_Some_2 cs i ltac:(lia)) as [c Hci].
    rewrite (aget_Some _ _ (PNode c)).
    2: { rewrite (lookup_take_eq _ _ _ i Hp) by lia. by rewrite list_lookup_fmap, Hci. }
    cbn [mbind res_bind as_node].
    destruct (Hc c) as [m Hm]; [by apply list_elem_of_lookup_2 in Hci|].
    pose proof (Hcells c) as Hcc. rewrite Hm in Hcc. cbn in Hcc.
    rewrite (load_Some _ _ _ Hcc). cbn [mbind res_bind]. eexists. split; [done|].
    split_and!; [done..|]. intros x. cbn [cells store].
    rewrite (take_S_r _ _ _ Hci). destruct (decide (x = c)) as [->|Hne].
    + rewrite lookup_insert_eq, Hm. cbn. rewrite (decide_True (P := c ∈ take i cs ++ [c])) by set_solver.
      f_equal. by case_decide.
    + rewrite lookup_insert_ne, Hcells by done. destruct (cells h !! x); [|done]. cbn. f_equal.
      destruct (decide (x ∈ take i cs)); [rewrite decide_True by set_solver|rewrite decide_False by set_solver]; done.
  - exists h'. split; [done|]. split_and!; [done..|]. intros c. rewrite Hcells.
    rewrite <- Hlen. cbn [Nat.add]. by rewrite firstn_all.
Qed.

Lemma split_heap_map {order h G a g} g1 :
  heap_rep order (cells h) G -> heap_ok h -> G !! a = Some g ->
  <[a := g1]> G !! a = Some g1 /\ <[a := g1]> G !! brk h = None.
Proof.
  intros Hr Hok Ha. split; [apply lookup_insert_eq|].
  pose proof (heap_rep_lt _ _ _ _ _ Hok Hr Ha).
  rewrite lookup_insert_ne by lia. by eapply heap_ok_fresh.
Qed.

(** A heap after node [a], with the contents of [g1], has been split into [o']
    and the new node [n'], and the nodes [mv] have got their new parent. *)
Section SplitHeap.
Context {order : nat} {h h3 : bt_heap} {G : gmap addr gnode} {a : addr} {g g1 : gnode} {k : Z}.
Context {mv : list addr} {bl br : body} {o' n' : bt_node}.
Context (Hr : heap_rep order (cells h) G) (Hok : heap_ok h) (Ha : G !! a = Some g).
Context (Hmv : forall c, c ∈ mv -> is_Some (G !! c) /\ c ≠ a).
Context (Ho : node_rep order (half_l g1 k bl) o') (Hn : node_rep order (half_r g1 k br) n').
Context (Hbrk : brk h3 = S (brk h)).
Context (Hcells : forall c, cells h3 !! c =
  (fun m => if decide (c ∈ mv) then set_parent (Some (brk h)) m else m) <$>
    (<[brk h := n']> (<[a := o']> (cells h))) !! c).
Context (Hcs : forall c, c ∈ mv -> child_of (<[a := g1]> G) a c).

Lemma split_heap_mv c : c ∈ mv -> c ≠ a /\ c ≠ brk h.
Proof using All.
  intros [[gc Hgc] Hca]%Hmv. split; [done|]. intros ->.
  pose proof (heap_rep_lt _ _ _ _ _ Hok Hr Hgc). lia.
Qed.

Lemma split_heap_new : cells h3 !! brk h = Some n'.
Proof using All.
  rewrite Hcells, lookup_insert_eq. cbn. rewrite decide_False; [done|].
  intros [_ E]%split_heap_mv. by apply E.
Qed.

Lemma split_heap_old : cells h3 !! a = Some o'.
Proof using All.
  pose proof (heap_rep_lt _ _ _ _ _ Hok Hr Ha). rewrite Hcells, lookup_insert_ne, lookup_insert_eq by lia. cbn.
  rewrite decide_False; [done|]. intros [E _]%split_heap_mv. by apply E.
Qed.

Lemma split_heap_other c : c ≠ brk h -> c ≠ a ->
  cells h3 !! c =
    (fun m => if decide (c ∈ mv) then set_parent (Some (brk h)) m else m) <$> cells h !! c.
Proof using All. intros Hcb Hca. rewrite Hcells. by rewrite !lookup_insert_ne by done. Qed.

Lemma split_heap_rep : heap_rep order (cells h3) (split_map (<[a := g1]> G) a (brk h) g1 k mv bl br).
Proof using All.
  pose proof (split_heap_map g1 Hr Hok Ha) as [Ha1 Hb1]. intros c gc Hc.
  apply (split_inv Ha1 Hb1 Hcs) in Hc as [[-> ->]|[[-> ->]|(Hca & Hcb & g0 & Hc & ->)]].
  - exists n'. split; [apply split_heap_new|done].
  - exists o'. split; [apply split_heap_old|done].
  - rewrite lookup_insert_ne in Hc by done. destruct (Hr _ _ Hc) as (m & Hm & Hmr).
    rewrite split_heap_other, Hm by done. eexists. split; [done|].
    case_decide; [by apply node_rep_parent|done].
Qed.

Lemma split_heap_ok : heap_ok h3.
Proof using All.
  pose proof (heap_rep_lt _ _ _ _ _ Hok Hr Ha). intros c m Hc. rewrite Hbrk.
  destruct (decide (c = brk h)) as [->|]; [lia|]. destruct (decide (c = a)) as [->|]; [lia|].
  rewrite split_heap_other in Hc by done. apply fmap_Some in Hc as (m0 & Hc & _).
  apply Hok in Hc. lia.
Qed.

Lemma split_heap_frame : frame h G h3 (split_map (<[a := g1]> G) a (brk h) g1 k mv bl br).
Proof using All.
  pose proof (split_heap_map g1 Hr Hok Ha) as [Ha1 Hb1]. split.
  - lia.
  - intros c Hc HG. rewrite split_heap_other; [|lia|intros ->; congruence].
    destruct (cells h !! c); [|done]. cbn. rewrite decide_False; [done|].
    intros Hin. destruct (Hmv c Hin) as [[gc ?] _]. congruence.
  - intros c gc Hc.
    apply (split_inv Ha1 Hb1 Hcs) in Hc as [[-> _]|[[-> _]|(Hca & _ & g0 & Hc & _)]]; [by right|left; eauto|].
    rewrite lookup_insert_ne in Hc by done. left; eauto.
Qed.

End SplitHeap.

Section Heap.
Context (order : nat) (junk : Z) (P : Z -> Prop) (part : Z).
Context (Horder : 3 <= order).

(** A heap with a tree. *)
Record rep (h : bt_heap) (G : gmap addr gnode) (root : addr) (H : nat)
    (pend : option (addr * addr)) : Prop := {
  rep_heap : heap_rep order (cells h) G;
  rep_tree : tree_ok P G root H pend;
  rep_ok : heap_ok h;
  rep_root : roots h !! Z.to_nat part = Some root;
}.

(** A new node, as [make_node] leaves it. *)
Definition new_node : bt_node :=
  mkNode (replicate order PNull) false (replicate (order - 1) junk) None 0 None.

Lemma make_node_eq h :
  make_node order junk h =
    (brk h, mkHeap (<[brk h := new_node]> (cells h)) (S (brk h)) (roots h)).
Proof using. done. Qed.

Lemma order_succ : exists m, order = S (S (S m)).
Proof using Horder. exists (order - 3). lia. Qed.

(** Where a cell of an updated map comes from. *)
Ltac ins_inv Hc :=
  repeat (apply lookup_insert_Some in Hc as [[<- Hc]|[_ Hc]]; [try lia; eauto|]).
Ltac mstep := cbn [mbind res_bind fst snd cells brk roots store].

(** [insert_into_new_root]. *)
Lemma insert_into_new_root_ok h G root H l r gl gr key :
  rep h G root H (Some (l, r)) -> G !! l = Some gl -> G !! r = Some gr ->
  g_par gl = None -> g_lo gr = Some key ->
  exists h', insert_into_new_root order junk part l key r h = Ok h' /\
    rep h' (new_root_map G H l r (brk h) gl gr key)
      (brk h) (S H) None /\
    frame h G h' (new_root_map G H l r (brk h) gl gr key) /\
    roots h' = <[Z.to_nat part := brk h]> (roots h) /\ brk h' = S (brk h).
Proof using Horder.
  intros [Hr Ht Hok Hroot] Hl Hrr Hpar Hlo.
  pose proof (heap_ok_fresh _ _ _ Hok Hr) as HR. destruct order_succ as [m Em].
  destruct (Hr _ _ Hl) as (nl & Hnl & Hrl). destruct (Hr _ _ Hrr) as (nr & Hnr & Hrrep).
  pose proof (new_root_pend Ht Hl Hrr Hpar Hlo) as (_ & Hne & _).
  pose proof (Hok _ _ Hnl) as Hll. pose proof (Hok _ _ Hnr) as Hlr.
  destruct (ok_pend _ _ _ _ _ Ht _ _ eq_refl)
    as (_ & _ & gl' & _ & _ & Hl' & _ & _ & _ & _ & _ & _ & _ & _ & Hnx).
  assert (gl' = gl) as -> by congruence.
  unfold insert_into_new_root, make_nl. rewrite make_node_eq. mstep.
  rewrite (load_Some _ _ new_node) by (apply lookup_insert_eq). mstep. cbn [keys pointers new_node].
  rewrite !aset_ok by (rewrite ?length_insert, length_replicate; lia). mstep.
  rewrite aset_ok by (rewrite ?length_insert, length_replicate; lia). mstep.
  unfold assert_. cbn [num_keys set_num_keys]. rewrite bool_decide_eq_true_2 by lia. mstep.
  set (nR := set_parent None _).
  rewrite (load_Some _ _ nl) by (mstep; rewrite !lookup_insert_ne by lia; done). mstep.
  rewrite (load_Some _ _ nr) by (mstep; rewrite !lookup_insert_ne by lia; done). mstep.
  rewrite (load_Some _ _ (set_parent (Some (brk h)) nl))
    by (mstep; rewrite lookup_insert_ne by done; apply lookup_insert_eq). mstep.
  rewrite decide_True by (apply lookup_lt_Some in Hroot; done).
  eexists. split; [done|].
  split_and!; [split; mstep| |done|done].
  - replace (new_root_map G H l r (brk h) gl gr key) with
      (<[l := with_par (Some (brk h)) gl]> (<[r := with_par (Some (brk h)) gr]>
        (<[l := with_par (Some (brk h)) gl]> (<[brk h := root_node H l r key]> G)))).
    2: { unfold new_root_map. apply map_eq. intros c.
      destruct (decide (c = brk h)) as [->|]; [|destruct (decide (c = l)) as [->|];
        [|destruct (decide (c = r)) as [->|]]];
      repeat first [rewrite lookup_insert_eq | rewrite lookup_insert_ne by (done || lia)]; done. }
    repeat apply heap_rep_insert.
    + by apply heap_rep_fresh.
    + unfold node_rep. cbn. rewrite !length_insert, !length_replicate.
      split_and!; try done; try lia.
      * by rewrite Em.
      * by rewrite Em.
    + by apply node_rep_parent.
    + by apply node_rep_parent.
    + apply node_rep_next; [by apply node_rep_parent|]. exact Hnx.
  - apply (new_root_ok Ht Hl Hrr HR Hpar Hlo).
  - intros c n Hc. cbn in *. ins_inv Hc. apply Hok in Hc. lia.
  - apply list_lookup_insert_eq. by apply lookup_lt_Some in Hroot.
  - split; mstep.
    + lia.
    + intros c Hc HG. repeat rewrite lookup_insert_ne by (intros <-; congruence || lia). done.
    + intros c g Hg. unfold new_root_map in Hg. ins_inv Hg; eauto.
Qed.
(** What [insert_into_parent] finds at the parent of the left half. *)
Lemma parent_data h G root H l r gl gr key p :
  rep h G root H (Some (l, r)) -> G !! l = Some gl -> G !! r = Some gr ->
  g_par gl = Some p -> g_lo gr = Some key ->
  exists gp ks cs i n, G !! p = Some gp /\ g_body gp = BInner ks cs /\ cs !! i = Some l /\
    prefix_len (fun k => (k <? key)%Z) ks = i /\ i <= length ks /\
    cells h !! p = Some n /\ node_rep order gp n /\ inner_ok P G (Some (l, r)) p gp ks cs /\
    tree_ok P (<[p := with_body (BInner (ins_at i key ks) (ins_at (S i) r cs)) gp]> G) root H None.
Proof using.
  intros [Hr Ht Hok Hroot] Hl Hrr Hpar Hlo.
  destruct (ok_pend _ _ _ _ _ Ht _ _ eq_refl) as (Hlr & _).
  destruct (parent_node P Ht l gl p Hl ltac:(intros ? [= ]; done) Hpar)
    as (gp & ks & cs & Hp & Hb & (i & Hi)%list_elem_of_lookup).
  destruct (Hr _ _ Hp) as (n & Hn & Hnr).
  destruct (attach_place P Ht Hl Hrr Hp Hpar Hb Hi Hlo) as (Hpl & Hile & _).
  exists gp, ks, cs, i, n. split_and!; try done; [by apply (inner_node P Ht)|].
  exact (attach_ok P Ht Hl Hrr Hp Hpar Hb Hi Hlo).
Qed.

(** The scan of the parent's keys. *)
Lemma parent_scan g n ks cs key :
  node_rep order g n -> g_body g = BInner ks cs ->
  num_keys n = length ks /\
  scan_while (fun k => (k <? key)%Z) (keys n) (num_keys n) 0 =
    Ok (prefix_len (fun k => (k <? key)%Z) ks).
Proof using.
  intros (Hlk & _ & _ & H) Hb. rewrite Hb in H. destruct H as (_ & -> & Hlt & _ & Hk & _).
  split; [done|]. apply scan_while_take; [done|]. clear -Hk. apply (f_equal length) in Hk.
  rewrite length_take in Hk. lia.
Qed.

(** A parent with room. *)
Lemma parent_room_ok h G root H l r p gp ks cs i n key :
  rep h G root H (Some (l, r)) -> G !! p = Some gp -> g_body gp = BInner ks cs ->
  inner_ok P G (Some (l, r)) p gp ks cs -> cells h !! p = Some n -> node_rep order gp n ->
  i <= length ks -> length ks < order - 1 ->
  let G' := <[p := with_body (BInner (ins_at i key ks) (ins_at (S i) r cs)) gp]> G in
  tree_ok P G' root H None ->
  exists a ks' ps', shift_parents i n = Ok a /\ aset a.1 i key = Ok ks' /\
    aset a.2 (i + 1) (PNode r) = Ok ps' /\
    let h' := store p (set_num_keys (S (num_keys n)) (set_arrays ks' ps' n)) h in
    rep h' G' root H None /\ frame h G h' G'.
Proof using.
  intros [Hr Ht Hok Hroot] Hp Hb (Hlc & Hne & _) Hn Hnr Hi Hlt G' Ht'.
  destruct (parent_insert_rep order gp n ks cs i key r Hnr Hb Hne Hi Hlt)
    as (a & ks' & ps' & E1 & E2 & E3 & Hnr').
  exists a, ks', ps'. do 3 (split; [done|]). intros h'. split.
  - split; mstep; [|done| |done].
    + by apply heap_rep_insert.
    + apply heap_ok_store; [done|by eapply Hok].
  - split; mstep; [done| |].
    + intros c _ HG. unfold h'. mstep. by rewrite lookup_insert_ne by (intros <-; congruence).
    + intros c g Hg. unfold G' in Hg. ins_inv Hg; eauto.
Qed.

(** The two halves of a full inner node. *)
Lemma split_nl_nodes_ok b n gp ks cs i key r k :
  node_rep order gp n -> g_body gp = BInner ks cs -> i <= length ks -> length ks = order - 1 ->
  let s := cut order - 1 in
  let ks' := ins_at i key ks in let cs' := ins_at (S i) r cs in
  ks' !! s = Some k ->
  exists o' n', split_nl_nodes order junk b n new_node i key r = Ok (o', n', k) /\
    (forall lo hi, node_rep order
      (GN (g_lvl gp) lo hi (g_par gp) (BInner (take s ks') (take (S s) cs'))) o') /\
    (forall lo hi, node_rep order
      (GN (g_lvl gp) lo hi (g_par gp) (BInner (drop (S s) ks') (drop (S s) cs'))) n').
Proof using Horder.
  intros (Hlk & Hlp & Hpar & H) Hb Hi Hlen s ks' cs' Hk. rewrite Hb in H.
  destruct H as (Hleaf & Hn & _ & Hlc & Hks & Hcs).
  pose proof (cut_inner order Horder) as [Hc2 Hco].
  assert (length ks' = order) as Hlk' by (unfold ks'; rewrite length_ins_at; lia).
  assert (length cs' = S order) as Hlc' by (unfold cs'; rewrite length_ins_at; lia).
  unfold split_nl_nodes. rewrite Hn.
  destruct (copy_skip_ins (pointers n) (replicate (order + 1) PNull) (S i) (length ks + 1) (PNode r))
    as (tp & E1 & E2); [lia|lia|rewrite length_replicate; lia|].
  rewrite !Nat.add_1_r in *. rewrite E1. mstep.
  destruct (copy_skip_ins (keys n) (replicate order junk) i (length ks) key)
    as (tk & E3 & E4); [lia|lia|rewrite length_replicate; lia|].
  rewrite E3. mstep. rewrite E2. mstep. rewrite E4. mstep.
  replace (take (length ks) (keys n)) with ks by done. fold ks'.
  rewrite <- Hlc, Hcs, <- fmap_ins_at. fold cs'.
  set (tp' := PNode <$> cs'). assert (length tp' = S order) as Htp by (by unfold tp'; rewrite length_fmap).
  destruct (fill_old_spec order ks' tp' (cut order - 1) n) as (o & E5 & Ho); [lia..|].
  rewrite E5. mstep. destruct Ho as (Ho1 & Ho2 & Ho3 & Ho4 & Ho5 & Ho6 & Ho7 & Ho8).
  rewrite !drop_0 in *.
  destruct (lookup_lt_is_Some_2 cs' (cut order - 1) ltac:(lia)) as [c1 Hc1].
  rewrite (aget_Some tp' (cut order - 1) (PNode c1)) by (unfold tp'; by rewrite list_lookup_fmap, Hc1). mstep.
  cbn [pointers set_next]. rewrite aset_ok by lia. mstep.
  rewrite (aget_Some ks' (cut order - 1) k Hk). mstep.
  destruct (move_entries ks' tp' (cut order) (order - cut order) (set_next (next o) new_node))
    as (n1 & E6 & Hn1); [done|lia|lia| |cbn; rewrite length_replicate; lia|].
  { cbn. rewrite length_replicate. lia. }
  rewrite E6. mstep. destruct Hn1 as (N1 & N2 & N3 & N4 & N5 & N6 & N7 & N8).
  unfold assert_. cbn [num_keys set_arrays set_next]. rewrite bool_decide_eq_true_2 by lia. mstep.
  destruct (lookup_lt_is_Some_2 cs' order ltac:(lia)) as [c2 Hc2'].
  rewrite (aget_Some tp' order (PNode c2)) by (unfold tp'; by rewrite list_lookup_fmap, Hc2'). mstep.
  cbn [keys pointers new_node set_next] in N5, N6. rewrite length_replicate in N5. rewrite length_replicate in N6.
  rewrite aset_ok by lia. mstep.
  eexists _, _. split; [done|]. split; intros lo hi; unfold node_rep;
    cbn [g_body g_par keys pointers parent is_leaf num_keys set_arrays set_next set_parent];
    rewrite ?length_insert, ?length_take, ?length_drop.
  - split_and!; try congruence; try lia.
    + rewrite Nat.min_l by lia. fold s in Ho7. rewrite Ho7. done.
    + rewrite Nat.min_l by lia. fold s. rewrite take_S_insert by (unfold s; lia). fold s in Ho8.
      rewrite Ho8. unfold tp'. rewrite (take_S_r cs' s c1) by done. by rewrite fmap_app, fmap_take.
  - split_and!; try congruence; try lia.
    + by rewrite N2.
    + replace (length ks' - S s) with (order - cut order) by (unfold s; lia). rewrite N7.
      replace (S s) with (cut order) by (unfold s; lia). apply take_ge. rewrite length_drop. lia.
    + replace (length cs' - S s) with (S (order - cut order)) by (unfold s; lia).
      rewrite take_S_insert by lia. rewrite N8. replace (S s) with (cut order) by (unfold s; lia).
      unfold tp'. rewrite <- fmap_drop, <- fmap_take.
      change [PNode c2] with (PNode <$> [c2]). rewrite <- fmap_app. f_equal.
      rewrite <- (take_S_r (drop (cut order) cs') (order - cut order) c2).
      * apply take_ge. rewrite length_drop. lia.
      * rewrite lookup_drop. by replace (cut order + (order - cut order)) with order by lia.
Qed.

(** Splitting a full parent leaves two halves one level up. *)
Lemma split_nl_insert_ok up h G root H l r gl gr key p gp ks cs i n :
  rep h G root H (Some (l, r)) -> G !! l = Some gl -> G !! r = Some gr ->
  G !! p = Some gp -> g_body gp = BInner ks cs -> cs !! i = Some l -> i <= length ks ->
  cells h !! p = Some n -> node_rep order gp n -> length ks = order - 1 ->
  tree_ok P (<[p := with_body (BInner (ins_at i key ks) (ins_at (S i) r cs)) gp]> G) root H None ->
  exists h' G' k gp' gb, split_nl_insert order junk up p i key r h = up p k (brk h) h' /\
    rep h' G' root H (Some (p, brk h)) /\ G' !! p = Some gp' /\ g_lvl gp' = g_lvl gp /\
    G' !! brk h = Some gb /\ g_lo gb = Some k /\ same_entries G G' /\ frame h G h' G' /\
    roots h' = roots h /\ brk h' = S (brk h).
Proof using Horder.
  intros [Hr Ht Hok Hroot] Hl Hrr Hp Hb Hi Hile Hn Hnr Hlen Ht1.
  set (ks' := ins_at i key ks) in *. set (cs' := ins_at (S i) r cs) in *.
  pose proof (cut_inner order Horder) as [Hc2 Hco]. set (s := cut order - 1).
  assert (Hlk' : length ks' = order) by (unfold ks'; rewrite length_ins_at; lia).
  destruct (lookup_lt_is_Some_2 ks' s ltac:(lia)) as [k Hk].
  destruct (split_heap_map (with_body (BInner ks' cs') gp) Hr Hok Hp) as [Hp1 Hb1].
  pose proof (heap_rep_lt _ _ _ _ _ Hok Hr Hp) as Hlt.
  pose proof (split_inner_ok (P := P) Ht1 Hp1 Hb1 ks' cs' s k eq_refl ltac:(lia) ltac:(lia) Hk) as Ht2.
  destruct (split_nl_nodes_ok (brk h) n gp ks cs i key r k Hnr Hb Hile Hlen Hk)
    as (o' & n' & Enodes & Ho & Hn').
  fold ks' cs' s in Ho, Hn'. set (mv := drop (S s) cs') in *.
  assert (forall c, c ∈ mv -> child_of (<[p := with_body (BInner ks' cs') gp]> G) p c) as Hcs.
  { intros c Hc. eexists _, ks', cs'. split; [exact Hp1|]. split; [done|].
    rewrite <- (take_drop (S s) cs'). apply elem_of_app. by right. }
  assert (forall c, c ∈ mv -> is_Some (G !! c) /\ c ≠ p) as Hmv.
  { intros c (g0 & ks0 & cs0 & Hg0 & Hb0 & Hc)%Hcs.
    destruct (child_present P Ht1 p _ _ _ c Hg0 Hb0 Hc) as (gc & Hgc & _ & Hlv).
    assert (c ≠ p) as Hcp by (intros ->; simplify_eq; cbn in Hlv; lia).
    rewrite lookup_insert_ne in Hgc by done. eauto. }
  unfold split_nl_insert. rewrite make_node_eq. mstep.
  assert (brk h ≠ p) as Hbp by lia.
  rewrite (load_Some _ p n) by (mstep; by rewrite lookup_insert_ne). mstep.
  rewrite (load_Some _ (brk h) new_node) by (mstep; apply lookup_insert_eq). mstep.
  rewrite Enodes. mstep.
  destruct (Hn' None None) as (_ & _ & _ & _ & Hnn & _ & Hlcs & _ & Hpp). cbn in Hnn, Hlcs, Hpp.
  destruct (adopt_ok (store (brk h) n' (store p o'
      (mkHeap (<[brk h := new_node]> (cells h)) (S (brk h)) (roots h)))) (brk h) n' mv)
    as (h3 & Ead & Hbrk & Hroots & Hcells); [done|lia| |].
  { intros c Hc. destruct (Hmv c Hc) as [[gc Hgc] _]. destruct (Hr _ _ Hgc) as (m & Hm & _).
    mstep. rewrite !lookup_insert_is_Some'. right. right. right. eauto. }
  rewrite Ead. mstep.
  cbn [store cells brk roots] in Hbrk, Hroots, Hcells.
  assert (forall c, cells h3 !! c =
    (fun m => if decide (c ∈ mv) then set_parent (Some (brk h)) m else m) <$>
      (<[brk h := n']> (<[p := o']> (cells h))) !! c) as Hcells'.
  { intros c. rewrite Hcells. f_equal. destruct (decide (c = brk h)) as [->|].
    - by rewrite !lookup_insert_eq.
    - rewrite (lookup_insert_ne _ (brk h)), (lookup_insert_ne _ (brk h) c n') by done.
      destruct (decide (c = p)) as [->|]; [by rewrite !lookup_insert_eq|].
      by rewrite !lookup_insert_ne by done. }
  set (g1 := with_body (BInner ks' cs') gp) in *.
  pose proof (Ho (g_lo gp) (Some k)
    : node_rep order (half_l g1 k (BInner (take s ks') (take (S s) cs'))) o') as Ho'.
  pose proof (Hn' (Some k) (g_hi gp) : node_rep order (half_r g1 k (BInner (drop (S s) ks') mv)) n') as Hn''.
  eexists h3, _, k, _, _. split; [done|].
  split; [split; [|exact Ht2| |by rewrite Hroots]|].
  - exact (split_heap_rep Hr Hok Hp Hmv Ho' Hn'' Hbrk Hcells' Hcs).
  - exact (split_heap_ok Hr Hok Hp Hmv Ho' Hn'' Hbrk Hcells' Hcs).
  - split; [apply (split_l Hp1 Hb1 Hcs)|]. split; [done|]. split; [apply lookup_insert_eq|].
    split; [done|]. split_and!; [| |done|done].
    + intros k0 rows. etransitivity; [by apply (split_inner_entries _ _ _ _ _ ks' cs')|].
      exact (attach_same_entries Hp Hb k0 rows).
    + exact (split_heap_frame Hr Hok Hp Hmv Ho' Hn'' Hbrk Hcells' Hcs).
Qed.

(** The new tree after an operation. *)
Definition grown (h : bt_heap) (G : gmap addr gnode) (h' : bt_heap) (G' : gmap addr gnode) : Prop :=
  exists root' H', rep h' G' root' H' None /\ frame h G h' G' /\
    roots h' = <[Z.to_nat part := root']> (roots h).

(** [insert_into_parent] gives the right half a place in the tree. *)
Lemma insert_into_parent_ok fuel h G root H l r gl gr key :
  rep h G root H (Some (l, r)) -> G !! l = Some gl -> G !! r = Some gr -> g_lo gr = Some key ->
  H - g_lvl gl < fuel ->
  exists h' G', insert_into_parent order junk fuel part l key r h = Ok h' /\
    grown h G h' G' /\ same_entries G G' /\ brk h' + g_lvl gl <= brk h + H + 1.
Proof using Horder.
  revert h G root H l r gl gr key.
  induction fuel as [|fuel IH]; intros h G root H l r gl gr key Hrep Hl Hr Hlo Hfuel; [lia|].
  destruct (rep_heap _ _ _ _ _ Hrep _ _ Hl) as (nl & Hnl & _ & _ & Hpar & _).
  destruct (ok_node _ _ _ _ _ (rep_tree _ _ _ _ _ Hrep) _ _ Hl) as [Hll _].
  cbn [insert_into_parent]. rewrite (load_Some _ _ _ Hnl). mstep. rewrite Hpar.
  destruct (g_par gl) as [p|] eqn:Ep.
  - destruct (parent_data _ _ _ _ _ _ _ _ _ _ Hrep Hl Hr Ep Hlo)
      as (gp & ks & cs & i & n & Hp & Hb & Hi & Hpl & Hile & Hn & Hnr & Hin & Ht1).
    rewrite (load_Some _ _ _ Hn). mstep.
    destruct (parent_scan _ _ _ _ key Hnr Hb) as [Hnk ->]. mstep. rewrite Hpl, Hnk.
    case_decide as Hroom.
    + destruct (parent_room_ok h G root H l r p gp ks cs i n key Hrep Hp Hb Hin Hn Hnr Hile Hroom Ht1)
        as (a & ks' & ps' & E1 & E2 & E3 & Hrep' & Hfr).
      rewrite E1. mstep. rewrite E2. mstep. rewrite E3. mstep. rewrite <- Hnk.
      eexists _, (<[p := with_body (BInner (ins_at i key ks) (ins_at (S i) r cs)) gp]> G).
      split; [done|]. split; [|split; [exact (attach_same_entries Hp Hb)|mstep; lia]].
      exists root, H. split; [exact Hrep'|]. split; [exact Hfr|].
      symmetry. apply list_insert_id. apply Hrep.
    + assert (length ks = order - 1) as Hfull.
      { destruct Hnr as (_ & _ & _ & Hx). rewrite Hb in Hx. lia. }
      destruct (split_nl_insert_ok (insert_into_parent order junk fuel part) h G root H l r gl gr key
          p gp ks cs i n Hrep Hl Hr Hp Hb Hi Hile Hn Hnr Hfull Ht1)
        as (h1 & G1 & k & gp' & gb & E & Hrep1 & Hp1 & Hlv & Hb1 & Hk & Hent & Hfr & Hroots & Hbk).
      rewrite E.
      assert (g_lvl gp = S (g_lvl gl)) as Hlp.
      { destruct Hin as (_ & _ & _ & _ & lv & Hlv' & Hc). destruct (Hc _ _ Hi) as (gc & Hgc & <- & _).
        congruence. }
      destruct (ok_node _ _ _ _ _ (rep_tree _ _ _ _ _ Hrep) _ _ Hp) as [HH _].
      destruct (IH h1 G1 root H p (brk h) gp' gb k Hrep1 Hp1 Hb1 Hk ltac:(lia))
        as (h2 & G2 & E2 & (root' & H' & Hrep2 & Hfr2 & Hroots2) & Hent2 & Hbk2).
      exists h2, G2. split; [done|]. split_and!; [| |lia].
      * exists root', H'. split; [done|]. split; [by eapply frame_trans|]. congruence.
      * intros k0 rows. etransitivity; [apply Hent2|apply Hent].
  - destruct (insert_into_new_root_ok h G root H l r gl gr key Hrep Hl Hr Ep Hlo)
      as (h' & E & Hrep' & Hfr & Hroots & Hbk).
    exists h', (new_root_map G H l r (brk h) gl gr key).
    split; [exact E|]. split; [by eexists _, _|]. split; [|lia].
    destruct Hrep as [Hrr Ht Hok _].
    exact (new_root_same_entries Ht Hl Hr (heap_ok_fresh _ _ _ Hok Hrr) Ep Hlo).
Qed.

(** ** Leaves *)

(** The two leaves of a split. *)
Lemma split_lf_nodes_ok b n g es nx key row new :
  node_rep order g n -> g_body g = BLeaf es nx -> length es = order - 1 ->
  length (keys new) = order - 1 -> length (pointers new) = order -> num_keys new = 0 ->
  is_leaf new = true ->
  let s := cut (order - 1) in
  let es' := ins_at (prefix_len (fun k => (k <? key)%Z) es.*1) (key, [row]) es in
  exists l' n', split_lf_nodes order junk b n new key row = Ok (l', n') /\
    (forall lo hi, node_rep order (GN (g_lvl g) lo hi (g_par g) (BLeaf (take s es') (Some b))) l') /\
    (forall lo hi, node_rep order (GN (g_lvl g) lo hi (g_par g) (BLeaf (drop s es') nx)) n').
Proof using Horder.
  intros (Hlk & Hlp & Hpar & H) Hb Hlen Hk' Hp' Hn' Hl' s es'. rewrite Hb in H.
  destruct H as (Hleaf & Hn & Hnx & _ & Hks & Hps).
  assert (1 <= s /\ s < order) as [Hs1 Hs2] by (unfold s; destruct (cut_bounds (order - 1)) as [|]; lia).
  set (ip := prefix_len (fun k => (k <? key)%Z) es.*1).
  assert (ip <= length es) as Hip.
  { unfold ip. pose proof (prefix_len_le (fun k => (k <? key)%Z) es.*1) as Hpl.
    rewrite length_fmap in Hpl. lia. }
  assert (length es' = order) as Hle by (unfold es'; rewrite length_ins_at; lia).
  unfold split_lf_nodes, assert_. rewrite bool_decide_eq_true_2 by lia. mstep.
  rewrite (scan_while_take _ _ _ es.*1) by (lia || by rewrite <- Hlen). mstep. fold ip. rewrite Hn.
  destruct (copy_skip_ins (keys n) (replicate order junk) ip (length es) key) as (tk & E1 & E2);
    [lia|lia|rewrite length_replicate; lia|].
  destruct (copy_skip_ins (pointers n) (replicate order PNull) ip (length es) (PItem [row]))
    as (tp & E3 & E4); [lia|lia|rewrite length_replicate; lia|].
  rewrite E1. mstep. rewrite E3. mstep. rewrite E2. mstep. rewrite E4. mstep.
  rewrite Hks, Hps.
  replace (ins_at ip key es.*1) with es'.*1 by (unfold es'; by rewrite fmap_ins_at).
  replace (ins_at ip (PItem [row]) (PItem <$> es.*2)) with (PItem <$> es'.*2)
    by (unfold es'; by rewrite !fmap_ins_at). fold s.
  destruct (fill_old_spec order es'.*1 (PItem <$> es'.*2) s n) as (l1 & E5 & Hl1);
    [lia|rewrite ?length_fmap; lia..|].
  rewrite E5. mstep. destruct Hl1 as (L1 & L2 & L3 & L4 & L5 & L6 & L7 & L8). rewrite !drop_0 in *.
  destruct (move_entries es'.*1 (PItem <$> es'.*2) s (order - s) new) as (n1 & E6 & Hn1);
    [done|rewrite ?length_fmap; lia..|].
  rewrite E6. mstep. destruct Hn1 as (N1 & N2 & N3 & N4 & N5 & N6 & N7 & N8).
  rewrite bool_decide_eq_true_2 by lia. mstep.
  destruct (clear_pointers_spec order (set_next (Some b) l1)) as (ps1 & E7 & C1 & C2); [cbn; lia..|].
  destruct (clear_pointers_spec order (set_next (next l1) n1)) as (ps2 & E8 & C3 & C4); [cbn; lia..|].
  rewrite E7. mstep. rewrite E8. mstep. eexists _, _. split; [done|].
  cbn in C2, C4. rewrite L1 in C2. rewrite N1 in C4.
  split; intros lo hi; unfold node_rep; cbn; rewrite ?length_take, ?length_drop, ?Hle.
  - rewrite Nat.min_l by lia. split_and!; try congruence; try lia.
    + by rewrite L7, fmap_take.
    + by rewrite C2, L8, !fmap_take.
  - split_and!; try congruence; try lia.
    + rewrite N7, fmap_drop. apply take_ge. rewrite length_drop, length_fmap. lia.
    + rewrite C4, N8, !fmap_drop. apply take_ge. rewrite length_drop, !length_fmap. lia.
Qed.

End Heap.
