(* ===== verification/BTreeRefine.v ===== *)
(** * BTreeRefine: the B-tree refines a map

    The index of [BTree] implements, for each partition, a finite map from keys
    to the rows inserted under them, the newest first: searching, inserting and
    scanning, starting from [init], for any sequence of insertions. *)

From stdpp Require Import base tactics numbers list gmap fin_maps.
From Stdlib Require Import ZArith Lia.
From S2P Require Import Prelude Loops BTree BTreeInv BTreeSplit BTreeFacts BTreeNode BTreeHeap.

Abbreviation content := (gmap Z (list Z)).

Definition contents (G : gmap addr gnode) (m : content) : Prop :=
  forall k rows, m !! k = Some rows <-> leaf_entry G k rows.

(** The map after an insertion. *)
Definition add_row (key row : Z) (m : content) : content :=
  <[key := row :: default [] (m !! key)]> m.

Lemma size_le {A B} (m : gmap addr A) (m' : gmap addr B) :
  (forall a, is_Some (m !! a) -> is_Some (m' !! a)) -> size m <= size m'.
Proof.
  intros H. rewrite <- !(size_dom (D := gset addr)). apply subseteq_size.
  intros a. rewrite !elem_of_dom. apply H.
Qed.

(** ** New entries of a leaf *)

Definition adds (key row : Z) (old : list Z) (es es' : list (Z * list Z)) : Prop :=
  forall k rows, (k, rows) ∈ es' <->
    (k = key /\ rows = row :: old) \/ (k ≠ key /\ (k, rows) ∈ es).

Lemma elem_of_fst {k : Z} {rows : list Z} {es : list (Z * list Z)} : (k, rows) ∈ es -> k ∈ es.*1.
Proof. intros H. by apply (list_elem_of_fmap_2 fst es (k, rows)) in H. Qed.

Lemma adds_new key row es ip :
  key ∉ es.*1 -> adds key row [] es (ins_at ip (key, [row]) es).
Proof.
  intros Hn k rows. rewrite elem_of_ins_at. split.
  - intros [[= -> ->]|Hin]; [by left|]. right. split; [|done]. intros ->.
    apply Hn. by eapply elem_of_fst.
  - intros [[-> ->]|[_ ?]]; auto.
Qed.

Lemma adds_old key row es i rows0 :
  increasing es.*1 -> es !! i = Some (key, rows0) ->
  adds key row rows0 es (<[i := (key, row :: rows0)]> es).
Proof.
  intros Hinc Hi k rows. pose proof (lookup_lt_Some _ _ _ Hi) as Hlt.
  assert (es.*1 !! i = Some key) as Hi1 by (by rewrite list_lookup_fmap, Hi).
  rewrite !list_elem_of_lookup. split.
  - intros (j & Hj). destruct (decide (j = i)) as [->|Hji].
    + rewrite list_lookup_insert_eq in Hj by done. left. by simplify_eq.
    + rewrite list_lookup_insert_ne in Hj by done. right. split; [|eauto]. intros ->.
      apply Hji. apply (increasing_inj es.*1 _ _ key); [done| |done]. by rewrite list_lookup_fmap, Hj.
  - intros [[-> ->]|[Hne [j Hj]]].
    + exists i. by apply list_lookup_insert_eq.
    + exists j. rewrite list_lookup_insert_ne; [done|]. intros ->. congruence.
Qed.

Lemma contents_leaf_set P G root H a g es nx es' m key row :
  tree_ok P G root H None -> G !! a = Some g -> g_body g = BLeaf es nx -> covers g key ->
  contents G m -> adds key row (default [] (m !! key)) es es' ->
  contents (<[a := with_body (BLeaf es' nx) g]> G) (add_row key row m).
Proof.
  intros Hok Ha Hb Hcov Hm Hadd k rows.
  rewrite (leaf_set_entries G a g es nx es' Ha Hb). unfold add_row.
  destruct (decide (k = key)) as [->|Hne].
  - rewrite lookup_insert_eq. split.
    + intros [= <-]. left. apply Hadd. by left.
    + intros [[[_ ->]|[? _]]%Hadd|(c & gc & es0 & nx0 & Hca & Hc & Hbc & Hin)]; [done|done|].
      destruct Hca. symmetry. eapply (cover_unique Hok a c g gc); try done. by eapply entry_covered.
  - rewrite lookup_insert_ne by done. rewrite (Hm k rows). split.
    + intros (c & gc & es0 & nx0 & Hc & Hbc & Hin). destruct (decide (c = a)) as [->|].
      * left. apply Hadd. right. split; [done|]. assert (gc = g) as -> by congruence.
        rewrite Hb in Hbc. by simplify_eq.
      * right. by exists c, gc, es0, nx0.
    + intros [[[? _]|[_ ?]]%Hadd|(c & gc & es0 & nx0 & _ & ?)]; [done|by exists a, g, es, nx|].
      by exists c, gc, es0, nx0.
Qed.

Lemma contents_same G G' m : same_entries G G' -> contents G m -> contents G' m.
Proof. intros HG Hm k rows. rewrite (Hm k rows). symmetry. apply HG. Qed.

Lemma contents_in_leaf P G root H a g es nx m k rows :
  tree_ok P G root H None -> G !! a = Some g -> g_body g = BLeaf es nx -> covers g k ->
  contents G m -> m !! k = Some rows <-> (k, rows) ∈ es.
Proof. intros Hok Ha Hb Hc Hm. rewrite (Hm k rows). by apply (entry_in_leaf Hok a g es nx). Qed.

Section Refine.
Context (order : nat) (junk : Z) (P : Z -> Prop) (part : Z).
Context (Horder : 3 <= order).

#[local] Abbreviation rep := (rep order P part).
#[local] Abbreviation grown := (grown order P part).
Ltac mstep := cbn [mbind res_bind fst snd cells brk roots store].

Lemma rep_height h G root H : rep h G root H None -> 2 ^ H <= size (cells h).
Proof using All.
  intros [Hr Ht _ _]. etransitivity; [by eapply height_bound|]. apply size_le.
  intros a [g Hg]. destruct (Hr _ _ Hg) as (n & -> & _). eauto.
Qed.

Lemma rep_fuel h G root H : rep h G root H None -> H < heap_fuel h.
Proof using All.
  intros Hrep%rep_height. unfold heap_fuel. pose proof (Nat.pow_gt_lin_r 2 H). lia.
Qed.

(** Replacing the entries of a leaf in place. *)
Lemma store_leaf_ok h G root H a g es nx es' n' :
  rep h G root H None -> G !! a = Some g -> g_body g = BLeaf es nx ->
  node_rep order (with_body (BLeaf es' nx) g) n' ->
  tree_ok P (<[a := with_body (BLeaf es' nx) g]> G) root H None ->
  grown h G (store a n' h) (<[a := with_body (BLeaf es' nx) g]> G).
Proof using All.
  intros [Hr Ht Hok Hroot] Ha Hb Hn Ht'. exists root, H. split_and!.
  - split; mstep; [by apply heap_rep_insert|done| |done].
    apply heap_ok_store; [done|by eapply heap_rep_lt].
  - split; mstep; [done| |].
    + intros c _ HG. by rewrite lookup_insert_ne by (intros <-; congruence).
    + intros c gc Hc. apply lookup_insert_Some in Hc as [[<- _]|[_ ?]]; left; eauto.
  - symmetry. by apply list_insert_id.
Qed.

(** The leaf with the new entry satisfies the invariant. *)
Lemma leaf_with_ok G root H a g es nx es' key row old :
  tree_ok P G root H None -> G !! a = Some g -> g_body g = BLeaf es nx -> covers g key -> P key ->
  increasing es'.*1 -> adds key row old es es' ->
  tree_ok P (<[a := with_body (BLeaf es' nx) g]> G) root H None.
Proof using All.
  intros Hok Ha Hb [Hlo Hhi] HP Hinc Hadd.
  destruct (leaf_node P Hok _ _ _ _ Ha Hb) as (_ & _ & Hbd & _).
  apply (leaf_set_ok Hok Ha es); [done|done| |].
  - intros ->. assert ((key, row :: old) ∈ ([] : list (Z * list Z))) as E by (apply Hadd; by left).
    by apply elem_of_nil in E.
  - intros k ([k' rows] & -> & Hin)%list_elem_of_fmap. cbn.
    apply Hadd in Hin as [[-> _]|[_ Hin]]; [done|]. apply Hbd. by eapply elem_of_fst.
Qed.

Lemma increasing_update (es : list (Z * list Z)) i key rows rows' :
  increasing es.*1 -> es !! i = Some (key, rows) -> increasing (<[i := (key, rows')]> es).*1.
Proof using All.
  intros Hinc Hi. rewrite list_fmap_insert. cbn. rewrite list_insert_id; [done|].
  by rewrite list_lookup_fmap, Hi.
Qed.

Definition ins_place (key : Z) (es : list (Z * list Z)) : nat :=
  prefix_len (fun k => (k <? key)%Z) es.*1.

Lemma increasing_new key row es :
  increasing es.*1 -> key ∉ es.*1 -> increasing (ins_at (ins_place key es) (key, [row]) es).*1.
Proof using All.
  intros Hinc Hn. rewrite fmap_ins_at. cbn. by apply prefix_len_lt_ins.
Qed.

Lemma ins_place_le key es : ins_place key es <= length es.
Proof using All.
  unfold ins_place. etransitivity; [apply prefix_len_le|]. by rewrite length_fmap.
Qed.

Section Leaf.
Context {h : bt_heap} {G : gmap addr gnode} {root : addr} {H : nat} {m : content}.
Context {a : addr} {g : gnode} {es : list (Z * list Z)} {nx : option addr} {key row : Z}.
Context (Hrep : rep h G root H None) (Hm : contents G m).
Context (Ha : G !! a = Some g) (Hb : g_body g = BLeaf es nx) (Hcov : covers g key) (HP : P key).

(** A key that is in the leaf. *)
Lemma insert_old_ok i rows :
  es !! i = Some (key, rows) ->
  exists h' G', insert_into_leaf order a key row h = Ok h' /\ grown h G h' G' /\
    contents G' (add_row key row m) /\ brk h' = brk h.
Proof using All.
  intros Hi. pose proof (rep_tree _ _ _ _ _ _ _ _ Hrep) as Ht.
  destruct (rep_heap _ _ _ _ _ _ _ _ Hrep _ _ Ha) as (n & Hn & Hnr).
  pose proof (leaf_node P Ht _ _ _ _ Ha Hb) as (_ & Hinc & _).
  assert (m !! key = Some rows) as Hmk.
  { eapply contents_in_leaf; try done. by apply list_elem_of_lookup_2 in Hi. }
  unfold insert_into_leaf. rewrite (load_Some _ _ _ Hn). mstep.
  destruct (leaf_has_key_spec Hnr es nx key Hb) as [(i' & rows' & Hi' & ->)|[Hn' _]].
  2: { destruct Hn'. apply list_elem_of_lookup_2 in Hi. by eapply elem_of_fst. }
  assert (i' = i) as ->.
  { apply (increasing_inj es.*1 _ _ key Hinc); by rewrite list_lookup_fmap, ?Hi, ?Hi'. }
  assert (rows' = rows) as -> by congruence. mstep.
  destruct (leaf_item Hnr es nx i key rows Hb Hi) as [_ ->]. cbn [mbind res_bind as_item].
  destruct (leaf_update_rep order g n es nx i key rows (row :: rows) Hnr Hb Hi) as [-> Hnr']. mstep.
  eexists _, _. split; [done|]. split_and!; [| |done].
  - eapply store_leaf_ok; [done|done|done|exact Hnr'|].
    eapply (leaf_with_ok _ _ _ _ _ es); [done..|by eapply increasing_update|by apply adds_old].
  - eapply contents_leaf_set; try done. rewrite Hmk. by apply adds_old.
Qed.

Context (Hnew : key ∉ es.*1).

Lemma new_key_none : m !! key = None.
Proof using All.
  destruct (m !! key) as [rows|] eqn:E; [|done].
  apply (contents_in_leaf _ _ _ _ _ _ _ _ _ _ _ (rep_tree _ _ _ _ _ _ _ _ Hrep) Ha Hb Hcov Hm) in E.
  destruct Hnew. by eapply elem_of_fst.
Qed.

Let es' := ins_at (ins_place key es) (key, [row]) es.

Lemma new_leaf_tree :
  tree_ok P (<[a := with_body (BLeaf es' nx) g]> G) root H None /\
  contents (<[a := with_body (BLeaf es' nx) g]> G) (add_row key row m).
Proof using All.
  pose proof (rep_tree _ _ _ _ _ _ _ _ Hrep) as Ht.
  pose proof (leaf_node P Ht _ _ _ _ Ha Hb) as (_ & Hinc & _). split.
  - eapply (leaf_with_ok _ _ _ _ _ es); [done..|by apply increasing_new|by apply adds_new].
  - eapply contents_leaf_set; try done. rewrite new_key_none. by apply adds_new.
Qed.

(** A new key and a leaf with room. *)
Lemma insert_new_ok :
  S (length es) < order ->
  exists h' G', insert_into_leaf order a key row h = Ok h' /\ grown h G h' G' /\
    contents G' (add_row key row m) /\ brk h' = brk h.
Proof using All.
  intros Hlt. destruct (rep_heap _ _ _ _ _ _ _ _ Hrep _ _ Ha) as (n & Hn & Hnr).
  unfold insert_into_leaf. rewrite (load_Some _ _ _ Hn). mstep.
  destruct (leaf_has_key_spec Hnr es nx key Hb) as [(i & rows & Hi & _)|[_ ->]].
  { destruct Hnew. apply list_elem_of_lookup_2 in Hi. by eapply elem_of_fst. }
  mstep. pose proof Hnr as (Hlk & _ & _ & Hx). rewrite Hb in Hx. destruct Hx as (_ & Hnk & _ & _ & Hks & _).
  rewrite (scan_while_take _ _ _ es.*1) by (rewrite Hnk; done || lia). mstep.
  destruct (leaf_insert_rep order g n es nx (ins_place key es) key row Hnr Hb (ins_place_le key es) Hlt)
    as (ar & ks & ps & E1 & E2 & E3 & Hnr').
  unfold ins_place in E1, E2, E3. rewrite E1. mstep. rewrite E2. mstep. rewrite E3. mstep.
  unfold assert_. rewrite bool_decide_eq_true_2 by lia. mstep.
  destruct new_leaf_tree as [Ht' Hm'].
  eexists _, _. split; [done|]. split_and!; [|exact Hm'|done].
  eapply store_leaf_ok; [done..|exact Hnr'|exact Ht'].
Qed.

(** A new key and a full leaf. *)
Lemma split_lf_insert_ok :
  length es = order - 1 ->
  exists h' G', split_lf_insert order junk part a key row h = Ok h' /\ grown h G h' G' /\
    contents G' (add_row key row m) /\ brk h' <= brk h + H + 2.
Proof using All.
  intros Hlen. destruct new_leaf_tree as [Ht' Hm'].
  pose proof Hrep as [Hr Ht Hok Hroot].
  destruct (rep_heap _ _ _ _ _ _ _ _ Hrep _ _ Ha) as (n & Hn & Hnr).
  pose proof (heap_rep_lt _ _ _ _ _ Hok Hr Ha) as Hlt.
  pose proof (leaf_node P Ht _ _ _ _ Ha Hb) as (Hlvl & _).
  set (s := cut (order - 1)). set (nl := set_is_leaf (new_node order junk)).
  assert (1 <= s /\ s < order) as [Hs1 Hs2] by (unfold s; destruct (cut_bounds (order - 1)) as [|]; lia).
  assert (length es' = order) as Hle by (unfold es'; rewrite length_ins_at; lia).
  destruct (lookup_lt_is_Some_2 es' s ltac:(lia)) as [[k rows] Hk].
  destruct (split_heap_map (with_body (BLeaf es' nx) g) Hr Hok Ha) as [Ha1 Hb1].
  pose proof (split_leaf_ok (P := P) Ht' Ha1 Hb1 es' nx s k rows eq_refl ltac:(lia) Hk) as Ht2.
  destruct (split_lf_nodes_ok order junk Horder (brk h) n g es nx key row nl) as (l' & n' & E & Hl' & Hn');
    try done; try (cbn; by rewrite length_replicate).
  fold (ins_place key es) in Hl', Hn'. fold es' s in Hl', Hn'.
  unfold split_lf_insert, make_lf. rewrite make_node_eq. mstep.
  rewrite (load_Some _ (brk h) (new_node order junk)) by (mstep; apply lookup_insert_eq). mstep.
  assert (brk h ≠ a) as Hba by lia.
  rewrite (load_Some _ a n) by (mstep; by rewrite !lookup_insert_ne). mstep.
  rewrite (load_Some _ (brk h) nl) by (mstep; apply lookup_insert_eq). mstep.
  rewrite E. mstep.
  assert (drop s es' !! 0 = Some (k, rows)) as H0 by (by rewrite lookup_drop, Nat.add_0_r).
  destruct (leaf_item (Hn' None None) (drop s es') nx 0 k rows eq_refl H0) as [-> _]. mstep.
  set (h3 := store (brk h) n' _).
  assert (brk h3 = S (brk h)) as Hbk3 by done.
  set (g1 := with_body (BLeaf es' nx) g) in *.
  pose proof (Hl' (g_lo g) (Some k) : node_rep order (half_l g1 k (BLeaf (take s es') (Some (brk h)))) l') as Hl2.
  pose proof (Hn' (Some k) (g_hi g) : node_rep order (half_r g1 k (BLeaf (drop s es') nx)) n') as Hn2.
  assert (forall c, c ∈ ([] : list addr) -> is_Some (G !! c) /\ c ≠ a) as Hmv by (by intros c ?%elem_of_nil).
  assert (forall c, c ∈ ([] : list addr) -> child_of (<[a := g1]> G) a c) as Hcs by (by intros c ?%elem_of_nil).
  assert (forall c, cells h3 !! c =
    (fun x => if decide (c ∈ ([] : list addr)) then set_parent (Some (brk h)) x else x) <$>
      (<[brk h := n']> (<[a := l']> (cells h))) !! c) as Hcells.
  { intros c. unfold h3. mstep. destruct (decide (c = brk h)) as [->|].
    - by rewrite !lookup_insert_eq.
    - rewrite (lookup_insert_ne _ (brk h)), (lookup_insert_ne _ (brk h) c n') by done.
      destruct (decide (c = a)) as [->|]; [by rewrite !lookup_insert_eq|].
      rewrite !lookup_insert_ne by done. by destruct (cells h !! c). }
  assert (rep h3 (split_map (<[a := g1]> G) a (brk h) g1 k [] (BLeaf (take s es') (Some (brk h)))
    (BLeaf (drop s es') nx)) root H (Some (a, brk h))) as Hrep3.
  { split; [exact (split_heap_rep Hr Hok Ha Hmv Hl2 Hn2 Hbk3 Hcells Hcs)|exact Ht2|
      exact (split_heap_ok Hr Hok Ha Hmv Hl2 Hn2 Hbk3 Hcells Hcs)|exact Hroot]. }
  set (h1 := store (brk h) (set_is_leaf (new_node order junk)) _).
  assert (size (cells h) <= size (cells h1)) as Hsize.
  { apply size_le. intros c [x Hc]. unfold h1. mstep. rewrite !lookup_insert_is_Some'. eauto. }
  destruct (insert_into_parent_ok order junk P part Horder (heap_fuel h1) h3 _ root H a (brk h)
    (half_l g1 k (BLeaf (take s es') (Some (brk h)))) (half_r g1 k (BLeaf (drop s es') nx)) k Hrep3)
    as (h4 & G4 & E4 & (root' & H' & Hrep4 & Hfr4 & Hroots4) & Hent & Hbrk).
  - apply (split_l Ha1 Hb1 Hcs).
  - apply lookup_insert_eq.
  - done.
  - pose proof (rep_fuel _ _ _ _ Hrep). unfold heap_fuel in *. lia.
  - exists h4, G4. split; [exact E4|]. split_and!.
    + exists root', H'. split; [done|]. split; [|exact Hroots4].
      eapply frame_trans; [|exact Hfr4].
      exact (split_heap_frame Hr Hok Ha Hmv Hl2 Hn2 Hbk3 Hcells Hcs).
    + eapply contents_same; [exact Hent|]. eapply contents_same; [|exact Hm'].
      exact (split_leaf_entries _ _ _ _ k es' nx s Ha1 Hb1 eq_refl).
    + cbn in Hbrk. lia.
Qed.

End Leaf.
End Refine.
