(* ===== verification/BTreeIndex.v ===== *)
(** * BTreeIndex: the index as a family of maps

    Searching from the root ([find_loop_ok]), the insertion as a whole, and
    the index with its partitions and cursors: it implements, for each
    partition, the map from keys to the rows inserted under them, read in the
    order of keys by [index_next]. *)

From stdpp Require Import base tactics numbers list gmap fin_maps.
From Stdlib Require Import ZArith Lia.
From S2P Require Import Prelude Loops BTree BTreeInv BTreeSplit BTreeFacts BTreeNode BTreeHeap BTreeRefine.

(** [e] is [n] parents above [c]. *)
Fixpoint ancestor (G : gmap addr gnode) (n : nat) (c e : addr) : Prop :=
  match n with
  | 0 => c = e
  | S n => exists g p, G !! c = Some g /\ g_par g = Some p /\ ancestor G n p e
  end.

Section Search.
Context (g_part_alloc hash_mode : bool) (g_part_cnt g_synth_table_size : Z).
Context (order : nat) (junk : Z) (part : Z).
Context (Horder : 3 <= order).

#[local] Abbreviation key_to_part := (key_to_part g_part_alloc hash_mode g_part_cnt g_synth_table_size).
(** The keys of the partition. *)
Definition in_part (k : Z) : Prop := key_to_part k = part.

#[local] Abbreviation rep := (rep order in_part part).
#[local] Abbreviation grown := (grown order in_part part).
#[local] Abbreviation find_loop := (find_loop g_part_alloc hash_mode g_part_cnt g_synth_table_size order).
Ltac mstep := cbn [mbind res_bind fst snd cells brk roots store].

Section Find.
Context {h : bt_heap} {G : gmap addr gnode} {root : addr} {H : nat}.
Context (Hrep : rep h G root H None).

Lemma ancestor_lvl n c e gc :
  ancestor G n c e -> G !! c = Some gc -> exists ge, G !! e = Some ge /\ g_lvl ge = g_lvl gc + n.
Proof using Hrep Horder.
  pose proof (rep_tree _ _ _ _ _ _ _ _ Hrep) as Ht.
  revert c gc. induction n as [|n IH]; intros c gc Ha Hc.
  - cbn in Ha. subst. exists gc. by rewrite Nat.add_0_r.
  - destruct Ha as (g & p & Hg & Hp & Ha). assert (g = gc) as -> by congruence.
    destruct (parent_node _ Ht c gc p Hc ltac:(done) Hp) as (gp & ks & cs & Hgp & Hb & Hin).
    destruct (child_present _ Ht _ _ _ _ c Hgp Hb Hin) as (gc' & ? & _ & Hl).
    assert (gc' = gc) as -> by congruence.
    destruct (IH p gp Ha Hgp) as (ge & ? & ?). exists ge. split; [done|lia].
Qed.

Lemma ancestor_bound n c e : is_Some (G !! c) -> ancestor G n c e -> n <= H.
Proof using Hrep Horder.
  intros [gc Hc] Ha. destruct (ancestor_lvl _ _ _ _ Ha Hc) as (ge & He & Hl).
  destruct (ok_node _ _ _ _ _ (rep_tree _ _ _ _ _ _ _ _ Hrep) _ _ He). lia.
Qed.

Lemma load_parent c p g :
  G !! c = Some g -> g_par g = Some p -> exists n, load h c = Ok n /\ parent n = Some p.
Proof using Hrep Horder.
  intros Hc Hp. destruct (heap_rep_load _ _ _ _ _ (rep_heap _ _ _ _ _ _ _ _ Hrep) Hc)
    as (n & Hn & _ & _ & _ & Hpar & _). exists n. by rewrite Hpar.
Qed.

(** [cleanup] ends at [last_ex]. *)
Lemma cleanup_loop_ok n fuel c e :
  ancestor G (S n) c e -> S n <= fuel -> cleanup_loop fuel c e h = Ok tt.
Proof using Hrep Horder.
  revert fuel c. induction n as [|n IH]; intros [|fuel] c (g & p & Hg & Hp & Ha) Hf; try lia;
    destruct (load_parent c p g Hg Hp) as (m & Hm & Hmp); cbn [cleanup_loop]; rewrite Hm; mstep;
    rewrite Hmp.
  - cbn in Ha. subst. by rewrite decide_True.
  - case_decide as Hd; [done|]. mstep. cbn [deref mbind res_bind]. apply IH; [done|lia].
Qed.

Lemma cleanup_ok c last_ex :
  is_Some (G !! c) ->
  match last_ex with None => True | Some e => exists n, ancestor G (S n) c e end ->
  cleanup c last_ex h = Ok tt.
Proof using All.
  intros Hc Hl. destruct last_ex as [e|]; [|done]. destruct Hl as (n & Ha). unfold cleanup.
  apply (cleanup_loop_ok n); [done|].
  pose proof (ancestor_bound _ _ _ Hc Ha).
  pose proof (rep_fuel order junk in_part part Horder _ _ _ _ Hrep). lia.
Qed.

(** The array [ex_list] is long enough for the nodes up to [last_ex]. *)
Lemma ex_list_ok n fuel d c e :
  ancestor G n c e -> n < fuel -> d + n < 100 -> exists l, ex_list fuel d c e h = Ok l.
Proof using Hrep Horder.
  revert fuel d c. induction n as [|n IH]; intros [|fuel] d c Ha Hf Hd; try lia; cbn [ex_list].
  - cbn in Ha. subst. rewrite decide_True by done. eauto.
  - case_decide; [eauto|]. destruct Ha as (g & p & Hg & Hp & Ha).
    destruct (load_parent c p g Hg Hp) as (m & Hm & Hmp). rewrite Hm. mstep. rewrite Hmp.
    cbn [deref mbind res_bind]. unfold assert_. rewrite bool_decide_eq_true_2 by lia. mstep.
    destruct (IH fuel (S d) p Ha ltac:(lia) ltac:(lia)) as (l & ->). mstep. eauto.
Qed.

(** At an inner node the search finds a child that covers the key. *)
Lemma search_step c gc ks cs key :
  G !! c = Some gc -> g_body gc = BInner ks cs -> covers gc key ->
  exists n i child gch, load h c = Ok n /\ is_leaf n = false /\
    (exists k0, aget (keys n) 0 = Ok k0 /\ key_to_part k0 = part) /\
    child_index key n = Ok i /\ aget (pointers n) i = Ok (PNode child) /\
    G !! child = Some gch /\ covers gch key /\ g_lvl gc = S (g_lvl gch) /\ g_par gch = Some c.
Proof using Hrep Horder.
  intros Hc Hb [Hlo Hhi]. pose proof (rep_tree _ _ _ _ _ _ _ _ Hrep) as Ht.
  destruct (heap_rep_load _ _ _ _ _ (rep_heap _ _ _ _ _ _ _ _ Hrep) Hc) as (n & Hn & _ & Hnr).
  pose proof (inner_node _ Ht _ _ _ _ Hc Hb) as (Hlen & Hne & Hkeys & HPs & l & Hl & Hkids).
  destruct (seps_search _ _ _ key Hkeys Hlo Hhi) as (b & b' & Hb1 & Hb2 & Hab & Hbe).
  set (i := prefix_len _ ks) in *.
  assert (i <= length ks) by apply prefix_len_le.
  destruct (lookup_lt_is_Some_2 cs i ltac:(lia)) as [child Hchild].
  destruct (Hkids _ _ Hchild) as (gch & Hgch & Hlc & Hpc & Hs1 & Hs2).
  pose proof Hnr as (Hlk & _ & _ & Hx). rewrite Hb in Hx. destruct Hx as (Hleaf & Hnk & Hlt & _ & Hks & _).
  exists n, i, child, gch. split_and!; try done.
  - destruct ks as [|k0 ks']; [done|]. exists k0. split.
    + apply aget_Some. rewrite (lookup_take_eq _ _ _ 0 Hks); [done|cbn; lia].
    + apply HPs. apply elem_of_cons. by left.
  - unfold child_index. rewrite Hnk. apply scan_while_take; [done|]. lia.
  - by eapply inner_child.
  - rewrite Hb1 in Hs1. rewrite Hb2 in Hs2. injection Hs1 as ->. injection Hs2 as ->. done.
  - by rewrite Hlc.
Qed.

(** The search reaches the leaf that covers the key; [last_ex] is an
    ancestor of it. *)
Lemma find_loop_ok fuel c gc key insert last_ex :
  G !! c = Some gc -> covers gc key -> g_lvl gc < fuel ->
  match last_ex with None => True | Some e => exists n, ancestor G (S n) c e end ->
  exists leaf g es nx last_ex',
    find_loop fuel part key insert c last_ex h = Ok (leaf, last_ex') /\
    G !! leaf = Some g /\ g_body g = BLeaf es nx /\ covers g key /\
    match last_ex' with None => True | Some e => exists n, ancestor G (S n) leaf e end.
Proof using All.
  revert c gc last_ex. induction fuel as [|fuel IH]; intros c gc last_ex Hc Hcov Hf Hex; [lia|].
  cbn [BTree.find_loop]. destruct (g_body gc) as [es nx|ks cs] eqn:Hb.
  - destruct (heap_rep_load _ _ _ _ _ (rep_heap _ _ _ _ _ _ _ _ Hrep) Hc) as (n & -> & _ & Hnr).
    mstep. destruct Hnr as (_ & _ & _ & Hx). rewrite Hb in Hx. destruct Hx as (-> & _).
    by exists c, gc, es, nx, last_ex.
  - destruct (search_step c gc ks cs key Hc Hb Hcov)
      as (n & i & child & gch & -> & Hleaf & (k0 & Hk0 & Hpk) & Hi & Hp & Hch & Hcch & Hl & Hpar).
    mstep. rewrite Hleaf, Hk0. mstep. rewrite Hpk, Z.eqb_refl. mstep. cbn [assert_ mbind res_bind].
    rewrite Hi. mstep. rewrite Hp. mstep. cbn [as_node mbind res_bind].
    assert (forall e n, ancestor G n c e -> ancestor G (S n) child e) as Hup by (intros e n' ?; by exists gch, c).
    destruct insert.
    + destruct (heap_rep_load _ _ _ _ _ (rep_heap _ _ _ _ _ _ _ _ Hrep) Hch) as (cn & -> & _).
      mstep. case_decide.
      * apply (IH child gch); [done|done|lia|]. destruct last_ex as [e|].
        -- destruct Hex as (m & Hm). exists (S m). by apply Hup.
        -- exists 0. by apply Hup.
      * rewrite (cleanup_ok c last_ex) by eauto. mstep. by apply (IH child gch); [..|lia|].
    + apply (IH child gch); [done|done|lia|]. destruct last_ex as [e|]; [|done].
      destruct Hex as (m & Hm). exists (S m). by apply Hup.
Qed.

Context (cnt : Z) (Hpart : (0 <= part < cnt)%Z) (Hcnt : (cnt <= UINT64_MAX)%Z).

Lemma find_root_ok : find_root part cnt h = Ok root.
Proof using Hrep Horder Hpart Hcnt.
  unfold find_root. rewrite wrap64_small by lia. unfold assert_.
  rewrite (proj2 (Z.ltb_lt part cnt)) by lia. mstep. by rewrite (rep_root _ _ _ _ _ _ _ _ Hrep).
Qed.

Lemma find_leaf_ok access key :
  access ≠ INDEX_NONE ->
  exists leaf g es nx last_ex,
    find_leaf g_part_alloc hash_mode g_part_cnt g_synth_table_size order part key access cnt h
      = Ok (leaf, last_ex) /\
    G !! leaf = Some g /\ g_body g = BLeaf es nx /\ covers g key /\
    match last_ex with None => True | Some e => exists n, ancestor G (S n) leaf e end.
Proof using All.
  intros Hacc. unfold find_leaf. rewrite find_root_ok. mstep.
  destruct (ok_root _ _ _ _ _ (rep_tree _ _ _ _ _ _ _ _ Hrep)) as (gr & Hgr & Hl & _ & Hlo & Hhi).
  assert (covers gr key) as Hcov by (unfold covers; cbn in Hhi; by rewrite Hlo, Hhi).
  pose proof (rep_fuel order junk in_part part Horder _ _ _ _ Hrep) as Hfuel.
  destruct access; [| |done]; apply (find_loop_ok _ root gr); done || lia.
Qed.

(** [index_insert] on the tree of one partition. *)
Lemma tree_insert_ok m key row :
  contents G m -> in_part key -> (Z.of_nat (brk h) <= UINT64_MAX)%Z ->
  exists h' G',
    tree_insert g_part_alloc hash_mode g_part_cnt g_synth_table_size order junk key row part cnt h = Ok h' /\
    grown h G h' G' /\ contents G' (add_row key row m) /\ brk h' <= brk h + 102.
Proof using All.
  intros Hm HP Hbrk. pose proof Hrep as [Hr Ht Hok _].
  assert (H < 100) as Hheight.
  { assert (size (cells h) <= brk h) as Hsz.
    { rewrite <- (size_dom (D := gset addr)), <- (size_set_seq (C := gset addr) 0 (brk h)).
      apply subseteq_size. intros a (n & Hn)%elem_of_dom. apply Hok in Hn. apply elem_of_set_seq. lia. }
    pose proof (rep_height order junk in_part part Horder _ _ _ _ Hrep) as Hh.
    assert (Z.of_nat (2 ^ H) <= UINT64_MAX)%Z as Hz by lia. rewrite Nat2Z.inj_pow in Hz.
    destruct (decide (H < 100)); [done|exfalso].
    pose proof (Z.pow_le_mono_r 2 100 (Z.of_nat H) ltac:(lia) ltac:(lia)) as Hp.
    unfold UINT64_MAX in Hz. lia. }
  unfold tree_insert. unfold assert_. rewrite (proj2 (Z.eqb_neq part (-1))) by lia. mstep.
  rewrite find_root_ok. cbn [negb mbind res_bind].
  destruct (find_leaf_ok INDEX_INSERT key ltac:(done)) as (leaf & g & es & nx & le & -> & Hg & Hb & Hcov & Hle).
  mstep.
  assert (exists l, match le with Some e => ex_list (heap_fuel h) 0 leaf e h | None => Ok [leaf] end = Ok l)
    as (l & ->).
  { destruct le as [e|]; [|eauto]. destruct Hle as (n & Ha).
    pose proof (ancestor_bound _ _ _ ltac:(eauto) Ha).
    pose proof (rep_fuel order junk in_part part Horder _ _ _ _ Hrep).
    apply (ex_list_ok (S n)); [done|lia|lia]. }
  mstep. destruct (heap_rep_load _ _ _ _ _ Hr Hg) as (n & -> & Hn & Hnr). mstep.
  pose proof Hnr as (_ & _ & _ & Hx). rewrite Hb in Hx. destruct Hx as (_ & -> & _ & Hlt & _).
  destruct (leaf_has_key_spec Hnr es nx key Hb) as [(i & rows & Hi & ->)|[Hnk ->]]; mstep.
  - destruct (insert_old_ok order junk in_part part Horder Hrep Hm Hg Hb Hcov HP (row := row) i rows Hi)
      as (h' & G' & E & Hgr & Hm' & Hbk).
    exists h', G'. rewrite E. split_and!; [by case_decide|done|done|lia].
  - case_decide as Hroom.
    + destruct (insert_new_ok order junk in_part part Horder Hrep Hm Hg Hb Hcov HP (row := row) Hnk ltac:(lia))
        as (h' & G' & E & Hgr & Hm' & Hbk).
      exists h', G'. split_and!; [done..|lia].
    + destruct (split_lf_insert_ok order junk in_part part Horder Hrep Hm Hg Hb Hcov HP (row := row) Hnk ltac:(lia))
        as (h' & G' & E & Hgr & Hm' & Hbk).
      exists h', G'. split_and!; [done..|lia].
Qed.

End Find.
End Search.

(** ** The whole index *)

Section Index.
Context (g_part_alloc hash_mode : bool) (g_part_cnt g_synth_table_size : Z).
Context (order : nat) (junk : Z).
Context (Horder : 3 <= order).

#[local] Abbreviation in_part := (in_part g_part_alloc hash_mode g_part_cnt g_synth_table_size).
#[local] Abbreviation index_insert :=
  (index_insert g_part_alloc hash_mode g_part_cnt g_synth_table_size order junk).
#[local] Abbreviation index_read_thd :=
  (index_read_thd g_part_alloc hash_mode g_part_cnt g_synth_table_size order).
#[local] Abbreviation init := (init order junk).
Ltac mstep := cbn [mbind res_bind fst snd cells brk roots store].

(** The trees [Gs] of the partitions share no node; tree [p] holds [ms p]. *)
Record index_state (ix : index_btree) (Gs : nat -> gmap addr gnode) (ms : nat -> content) : Prop := {
  st_cnt : (0 <= part_cnt ix <= UINT64_MAX)%Z;
  st_roots : length (roots (bt ix)) = Z.to_nat (part_cnt ix);
  st_tree p : p < Z.to_nat (part_cnt ix) ->
    (exists root H, rep order (in_part (Z.of_nat p)) (Z.of_nat p) (bt ix) (Gs p) root H None) /\
    contents (Gs p) (ms p);
  st_disjoint p q a g : p < Z.to_nat (part_cnt ix) -> q < Z.to_nat (part_cnt ix) ->
    Gs p !! a = Some g -> p ≠ q -> Gs q !! a = None;
}.

(** The specification: a map per partition. *)
Definition spec_insert (key row part : Z) (ms : nat -> content) : nat -> content :=
  fset (Z.to_nat part) (add_row key row (ms (Z.to_nat part))) ms.

Lemma rep_frame P p h h' G G' Gq root H :
  rep order P p h Gq root H None -> frame h G h' G' ->
  heap_ok h' -> (forall a g, Gq !! a = Some g -> G !! a = None) ->
  roots h' !! Z.to_nat p = roots h !! Z.to_nat p ->
  rep order P p h' Gq root H None.
Proof using.
  intros [Hr Ht Hok Hroot] Hf Hok' Hdis Hroots. split; [|done|done|congruence].
  intros a g Ha. destruct (Hr _ _ Ha) as (n & Hn & Hnr). exists n. split; [|done].
  rewrite (frame_cells _ _ _ _ Hf); [done|by eapply Hok|by eapply Hdis].
Qed.

Lemma index_insert_ok ix Gs ms key row part :
  index_state ix Gs ms -> (0 <= part < part_cnt ix)%Z -> in_part part key ->
  (Z.of_nat (brk (bt ix)) <= UINT64_MAX)%Z ->
  exists ix' Gs', index_insert key row part ix = Ok ix' /\
    index_state ix' Gs' (spec_insert key row part ms) /\
    part_cnt ix' = part_cnt ix /\ cur_leaf_per_thd ix' = cur_leaf_per_thd ix /\
    cur_idx_per_thd ix' = cur_idx_per_thd ix /\ brk (bt ix') <= brk (bt ix) + 102.
Proof using Horder.
  intros [Hcnt Hlen Htree Hdis] Hpart Hin Hbrk. set (p := Z.to_nat part).
  assert (p < Z.to_nat (part_cnt ix)) as Hp by lia.
  destruct (Htree p Hp) as ((root & H & Hrep) & Hm).
  assert (Z.of_nat p = part) as Ep by (unfold p; lia). rewrite Ep in Hrep.
  destruct (tree_insert_ok _ _ _ _ order junk part Horder Hrep (part_cnt ix) Hpart ltac:(lia)
    (ms p) key row Hm Hin Hbrk) as (h' & G' & E & (root' & H' & Hrep' & Hfr & Hroots) & Hm' & Hbk).
  unfold BTree.index_insert. rewrite E. mstep.
  eexists _, (fset p G' Gs). split; [done|]. cbn. split_and!; try done.
  split; cbn; [done|by rewrite Hroots, length_insert| |].
  - intros q Hq. unfold spec_insert. fold p. destruct (decide (q = p)) as [->|Hqp].
    + rewrite !fset_eq. split; [|done]. exists root', H'. by rewrite Ep.
    + rewrite !fset_ne by done. destruct (Htree q Hq) as ((rq & Hq' & Hrq) & Hmq). split; [|done].
      exists rq, Hq'. eapply rep_frame; [exact Hrq|exact Hfr|apply Hrep'| |].
      * intros a g Ha. by apply (Hdis q p a g).
      * rewrite Hroots. apply list_lookup_insert_ne. fold p. rewrite Nat2Z.id. done.
  - intros q1 q2 a g H1 H2 Ha Hne.
    assert (forall q b gb, q ≠ p -> q < Z.to_nat (part_cnt ix) -> Gs q !! b = Some gb -> G' !! b = None)
      as Hnew.
    { intros q b gb Hqp Hq Hb. destruct (G' !! b) as [gb'|] eqn:Eb; [|done]. exfalso.
      destruct (frame_dom _ _ _ _ Hfr _ _ Eb) as [[g0 Hg0]|Hge].
      - pose proof (Hdis q p b gb Hq Hp Hb Hqp). congruence.
      - destruct (Htree q Hq) as ((rq & Hq' & Hrq) & _).
        pose proof (heap_rep_lt _ _ _ _ _ (rep_ok _ _ _ _ _ _ _ _ Hrq) (rep_heap _ _ _ _ _ _ _ _ Hrq) Hb).
        lia. }
    destruct (decide (q1 = p)) as [->|H1p]; destruct (decide (q2 = p)) as [->|H2p]; [done|..];
      rewrite ?fset_eq, ?fset_ne in * by done.
    + destruct (Gs q2 !! a) as [g2|] eqn:E2; [|done]. pose proof (Hnew q2 a g2 H2p H2 E2). congruence.
    + by eapply Hnew.
    + by apply (Hdis q1 q2 a g).
Qed.

(** ** Creation *)

Definition empty_leaf : gnode := GN 0 None None None (BLeaf [] None).

Lemma empty_tree_ok P a : tree_ok P {[a := empty_leaf]} a 0 None.
Proof using.
  split.
  - exists empty_leaf. by rewrite lookup_singleton_eq.
  - intros b g [<- <-]%lookup_singleton_Some. split; [done|]. unfold node_ok, leaf_ok. cbn.
    split_and!; [done|apply increasing_nil| |by right|done].
    intros k Hk. by apply elem_of_nil in Hk.
  - by intros b g [<- <-]%lookup_singleton_Some Hne.
  - done.
Qed.

(** After the creation of [n] partitions. *)
Definition fresh_parts (n : nat) (h : bt_heap) : Prop :=
  heap_ok h /\ length (roots h) = n /\ brk h = n /\
  forall p a, roots h !! p = Some a ->
    (exists m, cells h !! a = Some m /\ node_rep order empty_leaf m) /\
    forall q b, roots h !! q = Some b -> p ≠ q -> a ≠ b.

Lemma make_lf_init_ok n h :
  fresh_parts n h -> exists h', make_lf_init order junk h = Ok h' /\ fresh_parts (S n) h'.
Proof using Horder.
  intros (Hok & Hlen & Hbrk & Hroots). unfold make_lf_init, make_lf. rewrite make_node_eq. mstep.
  rewrite (load_Some _ _ (new_node order junk)) by apply lookup_insert_eq. mstep.
  eexists. split; [done|].
  assert (forall p a, roots h !! p = Some a -> a < brk h) as Hlt.
  { intros p a Ha. destruct (Hroots p a Ha) as [(m & Hm & _) _]. by eapply Hok. }
  split_and!; mstep.
  - intros a m Ha. cbn in *. apply lookup_insert_Some in Ha as [[<- _]|[_ Ha]]; [lia|].
    apply lookup_insert_Some in Ha as [[<- _]|[_ Ha]]; [lia|]. apply Hok in Ha. lia.
  - rewrite length_app. cbn. lia.
  - by rewrite Hbrk.
  - intros p a Ha. apply lookup_app_Some in Ha as [Ha|[Hge Ha]].
    + split.
      * destruct (Hroots p a Ha) as [(m & Hm & Hr) _]. exists m. pose proof (Hlt _ _ Ha).
        by rewrite !lookup_insert_ne by lia.
      * intros q b Hb Hpq. apply lookup_app_Some in Hb as [Hb|[_ Hb]].
        -- by apply (proj2 (Hroots p a Ha) q).
        -- apply list_lookup_singleton_Some in Hb as [_ <-]. pose proof (Hlt _ _ Ha). lia.
    + apply list_lookup_singleton_Some in Ha as [? <-]. split.
      * exists (set_is_leaf (new_node order junk)). split; [apply lookup_insert_eq|].
        unfold node_rep. cbn. rewrite !length_replicate. split_and!; done || lia.
      * intros q b Hb Hpq. apply lookup_app_Some in Hb as [Hb|[? Hb]].
        -- pose proof (Hlt _ _ Hb). lia.
        -- apply list_lookup_singleton_Some in Hb as [? _]. lia.
Qed.

Lemma init_parts_ok k n h :
  fresh_parts n h -> exists h', init_parts order junk k h = Ok h' /\ fresh_parts (n + k) h'.
Proof using Horder.
  revert n h. induction k as [|k IH]; intros n h Hf; cbn [init_parts].
  { exists h. by rewrite Nat.add_0_r. }
  destruct (make_lf_init_ok n h Hf) as (h1 & -> & H1). mstep.
  destruct (IH (S n) h1 H1) as (h2 & E & H2). exists h2. split; [done|].
  by rewrite Nat.add_succ_r.
Qed.

Lemma init_ok cnt thds :
  (0 <= cnt <= UINT64_MAX)%Z ->
  exists ix Gs, init cnt thds = Ok ix /\ index_state ix Gs (fun _ => ∅) /\ part_cnt ix = cnt /\
    cur_leaf_per_thd ix = replicate thds None /\ cur_idx_per_thd ix = replicate thds 0 /\ brk (bt ix) = Z.to_nat cnt.
Proof using Horder.
  intros Hcnt. unfold BTree.init.
  destruct (init_parts_ok (Z.to_nat cnt) 0 (mkHeap ∅ 0 [])) as (h & -> & Hok & Hlen & Hbrk & Hroots).
  { split_and!; [|done|done|].
    - intros a n Ha. cbn in Ha. by rewrite lookup_empty in Ha.
    - intros p a Ha. cbn [roots] in Ha. by rewrite lookup_nil in Ha. }
  mstep. eexists _, (fun p => match roots h !! p with Some a => {[a := empty_leaf]} | None => ∅ end).
  split; [done|]. split; [|done]. split; cbn; [done|done| |].
  - intros p Hp. destruct (lookup_lt_is_Some_2 (roots h) p ltac:(lia)) as [a Ha]. rewrite Ha. split.
    + exists a, 0. split; [|apply empty_tree_ok|done|by rewrite Nat2Z.id].
      intros b g [<- <-]%lookup_singleton_Some. apply (Hroots p a Ha).
    + intros k rows. rewrite lookup_empty. split; [done|].
      intros (b & g & es & nx & [<- <-]%lookup_singleton_Some & [= <- _] & Hin). by apply elem_of_nil in Hin.
  - intros p q a g Hp Hq Ha Hne. destruct (roots h !! p) as [b|] eqn:Eb; [|by rewrite lookup_empty in Ha].
    apply lookup_singleton_Some in Ha as [<- _].
    destruct (roots h !! q) as [c|] eqn:Ec; [|apply lookup_empty]. apply lookup_singleton_ne.
    intros ->. by apply (proj2 (Hroots p b Eb) q b Ec Hne).
Qed.

End Index.
