(* ===== verification/BTreeSpec.v ===== *)
(** * BTreeSpec: what the B-tree index promises

    The theorems on [BTree], for every index that a sequence of insertions
    makes from an empty one: reads return what the map of the partition holds
    ([btree_refines]), a read followed by calls of [index_next] returns the
    rows in the order of keys ([btree_scan_ordered]), searches end within the
    logarithm of the number of nodes ([btree_search_terminates]), and the
    untyped slots of the nodes are used at one type
    ([btree_well_typed]). *)

From stdpp Require Import base tactics numbers list gmap.
From Stdlib Require Import ZArith Lia.
From S2P Require Import Prelude Loops BTree BTreeInv BTreeFacts BTreeNode BTreeHeap BTreeRefine BTreeIndex.

(** A call of [index_insert]. *)
Record bt_op := BtInsert { op_key : Z; op_row : Z; op_part : Z }.

Section Spec.
Context (g_part_alloc hash_mode : bool) (g_part_cnt g_synth_table_size : Z).
Context (order : nat) (junk : Z).

#[local] Abbreviation key_to_part := (key_to_part g_part_alloc hash_mode g_part_cnt g_synth_table_size).
#[local] Abbreviation index_insert :=
  (index_insert g_part_alloc hash_mode g_part_cnt g_synth_table_size order junk).
#[local] Abbreviation index_read_thd :=
  (index_read_thd g_part_alloc hash_mode g_part_cnt g_synth_table_size order).
#[local] Abbreviation init := (init order junk).
#[local] Abbreviation index_state :=
  (index_state g_part_alloc hash_mode g_part_cnt g_synth_table_size order).
Ltac mstep := cbn [mbind res_bind fst snd cells brk roots store].

Fixpoint bt_run (ops : list bt_op) (ix : index_btree) : res index_btree :=
  match ops with
  | [] => Ok ix
  | o :: ops => ix ← index_insert (op_key o) (op_row o) (op_part o) ix; bt_run ops ix
  end.

Fixpoint bt_spec (ops : list bt_op) (ms : nat -> content) : nat -> content :=
  match ops with
  | [] => ms
  | o :: ops => bt_spec ops (spec_insert (op_key o) (op_row o) (op_part o) ms)
  end.

(** The loader passes the partition of the key. *)
Definition bt_valid (cnt : Z) (o : bt_op) : Prop :=
  (0 <= op_part o < cnt)%Z /\ key_to_part (op_key o) = op_part o.

(** The calls of [index_next] until the null item, at most [n]. *)
Fixpoint bt_scan (n : nat) (thd : nat) (ix : index_btree) : res (list (list Z) * index_btree) :=
  match n with
  | 0 => Ok ([], ix)
  | S n =>
      '(item, ix) ← index_next thd false ix;
      match item with
      | None => Ok ([], ix)
      | Some rows => '(l, ix) ← bt_scan n thd ix; Ok (rows :: l, ix)
      end
  end.

(** [a] is reached from a root along the pointers of inner nodes. *)
Inductive reachable (h : bt_heap) : addr -> Prop :=
| reach_root p a : roots h !! p = Some a -> reachable h a
| reach_child a n i c : reachable h a -> cells h !! a = Some n -> is_leaf n = false ->
    i <= num_keys n -> pointers n !! i = Some (PNode c) -> reachable h c.

Definition node_typed (h : bt_heap) (a : addr) (n : bt_node) : Prop :=
  length (keys n) = order - 1 /\ length (pointers n) = order /\ num_keys n < order /\
  if is_leaf n
  then forall i, i < num_keys n -> exists rows, pointers n !! i = Some (PItem rows)
  else forall i, i <= num_keys n -> exists c nc,
    pointers n !! i = Some (PNode c) /\ cells h !! c = Some nc /\ parent nc = Some a.

Context (Horder : 3 <= order).

Lemma bt_run_ok ops : forall ix Gs ms,
  index_state ix Gs ms -> Forall (bt_valid (part_cnt ix)) ops ->
  (Z.of_nat (brk (bt ix)) + 102 * Z.of_nat (length ops) <= UINT64_MAX)%Z ->
  exists ix' Gs', bt_run ops ix = Ok ix' /\ index_state ix' Gs' (bt_spec ops ms) /\
    part_cnt ix' = part_cnt ix /\ cur_leaf_per_thd ix' = cur_leaf_per_thd ix /\
    cur_idx_per_thd ix' = cur_idx_per_thd ix.
Proof using Horder.
  induction ops as [|o ops IH]; intros ix Gs ms Hst Hv Hbrk.
  { cbn. eauto 10. }
  inversion Hv as [|? ? [Hp Hk] Hv']; subst. cbn [length] in Hbrk. cbn [bt_run bt_spec].
  destruct (index_insert_ok _ _ _ _ order junk Horder ix Gs ms (op_key o) (op_row o) (op_part o) Hst Hp Hk
    ltac:(lia)) as (ix1 & G1 & -> & Hst1 & Hc & Hcl & Hci & Hb). mstep.
  destruct (IH ix1 G1 _ Hst1) as (ix2 & G2 & E & Hst2 & Hc2 & Hcl2 & Hci2); [by rewrite Hc|lia|].
  exists ix2, G2. split_and!; congruence.
Qed.

(** From an empty index. *)
Lemma bt_built ops cnt thds :
  (0 <= cnt)%Z -> (cnt + 102 * Z.of_nat (length ops) <= UINT64_MAX)%Z ->
  Forall (bt_valid cnt) ops ->
  exists ix Gs, mbind (bt_run ops) (init cnt thds) = Ok ix /\
    index_state ix Gs (bt_spec ops (fun _ => ∅)) /\ part_cnt ix = cnt /\
    cur_leaf_per_thd ix = replicate thds None /\ cur_idx_per_thd ix = replicate thds 0.
Proof using Horder.
  intros Hc Hbrk Hv.
  destruct (init_ok g_part_alloc hash_mode g_part_cnt g_synth_table_size order junk Horder cnt thds
    ltac:(lia)) as (ix & Gs & -> & Hst & Hcnt & Hcl & Hci & Hbk). mstep.
  destruct (bt_run_ok ops ix Gs _ Hst) as (ix' & Gs' & E & Hst' & ? & ? & ?); [by rewrite Hcnt|lia|].
  exists ix', Gs'. split_and!; congruence.
Qed.

(** ** Reading *)

(** The position of thread [thd] is key [k] of partition [p]. *)
Definition at_key (ix : index_btree) (Gs : nat -> gmap addr gnode) (thd p : nat) (k : Z) : Prop :=
  exists leaf g es nx i rows,
    cur_leaf_per_thd ix !! thd = Some (Some leaf) /\ cur_idx_per_thd ix !! thd = Some i /\
    Gs p !! leaf = Some g /\ g_body g = BLeaf es nx /\ es !! i = Some (k, rows).

Lemma set_cursor_ok ix thd leaf idx :
  thd < length (cur_leaf_per_thd ix) -> thd < length (cur_idx_per_thd ix) ->
  exists ix', set_cursor thd leaf idx ix = Ok ix' /\ bt ix' = bt ix /\ part_cnt ix' = part_cnt ix /\
    length (cur_leaf_per_thd ix') = length (cur_leaf_per_thd ix) /\
    length (cur_idx_per_thd ix') = length (cur_idx_per_thd ix) /\
    cur_leaf_per_thd ix' !! thd = Some leaf /\ cur_idx_per_thd ix' !! thd = Some idx.
Proof using.
  clear Horder. intros H1 H2. unfold set_cursor. rewrite !aset_ok by done. mstep. eexists. split; [done|]. cbn.
  rewrite !length_insert, !list_lookup_insert_eq by done. done.
Qed.

Lemma state_cursor ix ix' Gs ms :
  index_state ix Gs ms -> bt ix' = bt ix -> part_cnt ix' = part_cnt ix -> index_state ix' Gs ms.
Proof using. intros [H1 H2 H3 H4] Hb Hc. split; rewrite ?Hb, ?Hc; done. Qed.

Section Read.
Context {ix : index_btree} {Gs : nat -> gmap addr gnode} {ms : nat -> content}.
Context (Hst : index_state ix Gs ms).
Context {thd : nat} (Hthd : thd < length (cur_leaf_per_thd ix)) (Hthd' : thd < length (cur_idx_per_thd ix)).

Lemma index_read_ok part key :
  (0 <= part < part_cnt ix)%Z ->
  match ms (Z.to_nat part) !! key with
  | Some rows => exists ix', index_read_thd key part thd ix = Ok (rows, ix') /\
      index_state ix' Gs ms /\ at_key ix' Gs thd (Z.to_nat part) key /\
      length (cur_leaf_per_thd ix') = length (cur_leaf_per_thd ix) /\
      length (cur_idx_per_thd ix') = length (cur_idx_per_thd ix) /\ part_cnt ix' = part_cnt ix
  | None => index_read_thd key part thd ix = AssertFail
  end.
Proof using All.
  intros Hpart. set (p := Z.to_nat part). pose proof Hst as [Hcnt _ Htree _].
  destruct (Htree p ltac:(lia)) as ((root & H & Hrep) & Hm).
  assert (Z.of_nat p = part) as Ep by (unfold p; lia). rewrite Ep in Hrep.
  unfold BTree.index_read_thd, assert_. rewrite (proj2 (Z.eqb_neq part (-1))) by lia.
  cbn [negb mbind res_bind].
  destruct (find_leaf_ok _ _ _ _ order junk part Horder Hrep (part_cnt ix) Hpart ltac:(lia) INDEX_READ key ltac:(done))
    as (leaf & g & es & nx & le & -> & Hg & Hb & Hcov & _). mstep.
  destruct (heap_rep_load _ _ _ _ _ (rep_heap _ _ _ _ _ _ _ _ Hrep) Hg) as (n & -> & _ & Hnr). mstep.
  assert (forall rows, ms p !! key = Some rows <-> (key, rows) ∈ es) as Hin.
  { intros rows. eapply contents_in_leaf; [by eapply rep_tree|done..]. }
  destruct (leaf_has_key_spec Hnr es nx key Hb) as [(i & rows & Hi & ->)|[Hn ->]]; mstep.
  - assert (ms p !! key = Some rows) as ->.
    { apply Hin. by eapply list_elem_of_lookup_2. }
    destruct (leaf_item Hnr es nx i key rows Hb Hi) as [_ ->]. cbn [mbind res_bind as_item].
    destruct (set_cursor_ok ix thd (Some leaf) i Hthd Hthd')
      as (ix' & -> & Hbt & Hc & L1 & L2 & C1 & C2). mstep.
    exists ix'. split_and!; [done|by eapply state_cursor| |done..].
    by exists leaf, g, es, nx, i, rows.
  - destruct (ms p !! key) as [rows|] eqn:E; [exfalso|done].
    apply Hn. eapply elem_of_fst. by apply Hin.
Qed.

(** [index_next] moves to the next key of the partition; asked for the same
    key, it returns nothing. *)
Lemma index_next_ok p k :
  p < Z.to_nat (part_cnt ix) -> at_key ix Gs thd p k ->
  (exists k' rows' ix', ms p !! k' = Some rows' /\ (k < k')%Z /\
     (forall x, is_Some (ms p !! x) -> (k < x)%Z -> (k' <= x)%Z) /\
     index_next thd false ix = Ok (Some rows', ix') /\
     index_next thd true ix = Ok (None, ix') /\
     index_state ix' Gs ms /\ at_key ix' Gs thd p k' /\
     length (cur_leaf_per_thd ix') = length (cur_leaf_per_thd ix) /\
     length (cur_idx_per_thd ix') = length (cur_idx_per_thd ix) /\ part_cnt ix' = part_cnt ix) \/
  ((forall x, is_Some (ms p !! x) -> (x <= k)%Z) /\
   exists ix', forall b, index_next thd b ix = Ok (None, ix')).
Proof using All.
  intros Hp (leaf & g & es & nx & i & rows & C1 & C2 & Hg & Hb & Hi).
  pose proof Hst as [Hcnt _ Htree _]. destruct (Htree p Hp) as ((root & H & Hrep) & Hm).
  pose proof (rep_tree _ _ _ _ _ _ _ _ Hrep) as Ht.
  pose proof (next_entry Ht leaf g es nx i k rows Hg Hb Hi) as Hnext.
  destruct (heap_rep_load _ _ _ _ _ (rep_heap _ _ _ _ _ _ _ _ Hrep) Hg) as (n & Hn & _ & Hnr).
  pose proof Hnr as (_ & _ & _ & Hx). rewrite Hb in Hx. destruct Hx as (Hleaf & Hnk & Hnx & _).
  assert (forall b cur idx ix' r, (cur, idx) = (if decide (num_keys n <= S i)
      then (next n, 0) else (Some leaf, S i)) -> set_cursor thd cur idx ix = Ok ix' ->
      r = match cur with None => Ok (None, ix') | Some l =>
        m ← load (bt ix') l; assert! (is_leaf m); k2 ← aget (keys m) idx;
        if b && negb (k2 =? k)%Z then Ok (None, ix')
        else p ← aget (pointers m) idx; rows ← as_item p; Ok (Some rows, ix') end ->
      index_next thd b ix = r) as Hrun.
  { intros b cur idx ix' r Hc Hs ->. unfold index_next.
    rewrite (aget_Some _ _ _ C2), (aget_Some _ _ _ C1). cbn [mbind res_bind deref]. rewrite Hn. mstep.
    rewrite (proj1 (leaf_item Hnr es nx i k rows Hb Hi)). mstep. rewrite <- Hc, Hs. done. }
  assert (forall l gl esl nxl j k' rows', Gs p !! l = Some gl -> g_body gl = BLeaf esl nxl ->
      esl !! j = Some (k', rows') -> (k < k')%Z ->
      (Some l, j) = (if decide (num_keys n <= S i) then (next n, 0) else (Some leaf, S i)) ->
      (forall x r, leaf_entry (Gs p) x r -> (k < x)%Z -> (k' <= x)%Z) ->
      exists k' rows' ix', ms p !! k' = Some rows' /\ (k < k')%Z /\
       (forall x, is_Some (ms p !! x) -> (k < x)%Z -> (k' <= x)%Z) /\
       index_next thd false ix = Ok (Some rows', ix') /\ index_next thd true ix = Ok (None, ix') /\
       index_state ix' Gs ms /\ at_key ix' Gs thd p k' /\
       length (cur_leaf_per_thd ix') = length (cur_leaf_per_thd ix) /\
       length (cur_idx_per_thd ix') = length (cur_idx_per_thd ix) /\ part_cnt ix' = part_cnt ix) as Hmove.
  { intros l gl esl nxl j k' rows' Hgl Hbl Hj Hlt Hc Hleast.
    destruct (set_cursor_ok ix thd (Some l) j Hthd Hthd') as (ix' & Hs & Hbt & Hpc & L1 & L2 & D1 & D2).
    destruct (heap_rep_load _ _ _ _ _ (rep_heap _ _ _ _ _ _ _ _ Hrep) Hgl) as (m & Hlm & _ & Hmr).
    pose proof Hmr as (_ & _ & _ & Hy). rewrite Hbl in Hy. destruct Hy as (Hlf & _).
    destruct (leaf_item Hmr esl nxl j k' rows' Hbl Hj) as [Hk' Hp'].
    assert (negb (k' =? k)%Z = true) as Hne by (apply negb_true_iff, Z.eqb_neq; lia).
    exists k', rows', ix'. split_and!; [|done| | | |by eapply state_cursor| |done..].
    - apply Hm. exists l, gl, esl, nxl. split_and!; [done..|]. by eapply list_elem_of_lookup_2.
    - intros x [r Hx]. apply (Hleast x r). by apply Hm.
    - eapply Hrun; [done|exact Hs|]. rewrite Hbt, Hlm. mstep. unfold assert_. rewrite Hlf. mstep.
      rewrite Hk'. mstep. cbn [andb]. rewrite Hp'. done.
    - eapply Hrun; [done|exact Hs|]. rewrite Hbt, Hlm. mstep. unfold assert_. rewrite Hlf. mstep.
      rewrite Hk'. mstep. cbn [andb]. by rewrite Hne.
    - by exists l, gl, esl, nxl, j, rows'. }
  destruct (es !! S i) as [[k' rows']|] eqn:Es.
  - left. destruct Hnext as [Hlt Hleast]. apply (Hmove leaf g es nx (S i) k' rows'); try done.
    apply lookup_lt_Some in Es. by rewrite decide_False by lia.
  - apply lookup_ge_None in Es. destruct nx as [b|].
    + left. destruct Hnext as (gb & es' & nx' & k' & rows' & Hgb & Hbb & H0 & Hlt & Hleast).
      apply (Hmove b gb es' nx' 0 k' rows'); try done. by rewrite decide_True, Hnx by lia.
    + right. split; [intros x [r Hx]; by apply (Hnext x r), Hm|].
      destruct (set_cursor_ok ix thd None 0 Hthd Hthd') as (ix' & Hs & _).
      exists ix'. intros b. eapply Hrun; [|exact Hs|done]. by rewrite decide_True, Hnx by lia.
Qed.

End Read.
(** ** Scanning *)

Lemma scan_ok p ks : forall ix Gs ms thd k,
  index_state ix Gs ms -> thd < length (cur_leaf_per_thd ix) -> thd < length (cur_idx_per_thd ix) ->
  p < Z.to_nat (part_cnt ix) -> at_key ix Gs thd p k -> increasing ks ->
  (forall x, x ∈ ks <-> (k < x)%Z /\ is_Some (ms p !! x)) ->
  exists l ix', bt_scan (S (length ks)) thd ix = Ok (l, ix') /\
    Forall2 (fun x rows => ms p !! x = Some rows) ks l.
Proof using All.
  induction ks as [|x0 ks IH]; intros ix Gs ms thd k Hst H1 H2 Hp Hat Hinc Hks;
    destruct (index_next_ok Hst H1 H2 p k Hp Hat)
      as [(k' & rows' & ix' & Hk' & Hlt & Hleast & E & _ & Hst' & Hat' & L1 & L2 & Hcnt)|[Hmax (ix' & E)]].
  - assert (k' ∈ []) as Hin by (apply Hks; eauto). by apply elem_of_nil in Hin.
  - cbn [bt_scan length]. rewrite (E false). mstep. eauto.
  - assert (x0 = k') as ->.
    { destruct (proj1 (Hks x0)) as [Hx0 Hs0]; [apply elem_of_cons; by left|].
      pose proof (Hleast x0 Hs0 Hx0).
      assert (k' ∈ x0 :: ks) as (j & Hj)%list_elem_of_lookup by (apply Hks; eauto).
      destruct j as [|j]; [cbn in Hj; congruence|].
      pose proof (Hinc 0 (S j) x0 k' ltac:(lia) eq_refl Hj). lia. }
    assert (increasing ks) as Hinc'.
    { intros i j x y Hij Hx Hy. apply (Hinc (S i) (S j) x y); [lia|done..]. }
    destruct (IH ix' Gs ms thd k' Hst' ltac:(lia) ltac:(lia) ltac:(by rewrite Hcnt) Hat' Hinc')
      as (l & ix2 & E2 & Hl).
    { intros x. split.
      - intros Hx. split; [|by apply Hks, elem_of_cons; right].
        apply list_elem_of_lookup in Hx as (j & Hj). by apply (Hinc 0 (S j) k' x ltac:(lia) eq_refl).
      - intros [Hx Hs]. assert (x ∈ k' :: ks) as [->|?]%elem_of_cons by (apply Hks; split; [lia|done]); [lia|done]. }
    exists (rows' :: l), ix2. split; [|by constructor].
    cbn [bt_scan length] in *. rewrite E. mstep. by rewrite E2.
  - destruct (proj1 (Hks x0)) as [Hx0 Hs0]; [apply elem_of_cons; by left|].
    pose proof (Hmax x0 Hs0). lia.
Qed.

(** ** The promises *)

(** C9. For any sequence of insertions into the partitions of their keys, from
    an empty index: none of them fails, and then a read of any key by any
    thread returns the rows inserted under it, the newest first; a read of a
    key that is not there is a failed assertion. *)
Theorem btree_refines (ops : list bt_op) (cnt : Z) (thds : nat) :
  (0 <= cnt)%Z -> (cnt + 102 * Z.of_nat (length ops) <= UINT64_MAX)%Z ->
  Forall (bt_valid cnt) ops ->
  exists ix, init cnt thds ≫= bt_run ops = Ok ix /\
    forall key part thd, (0 <= part < cnt)%Z -> thd < thds ->
      match bt_spec ops (fun _ => ∅) (Z.to_nat part) !! key with
      | Some rows => exists ix', index_read_thd key part thd ix = Ok (rows, ix')
      | None => index_read_thd key part thd ix = AssertFail
      end.
Proof using All.
  intros Hc Hb Hv. destruct (bt_built ops cnt thds Hc Hb Hv) as (ix & Gs & E & Hst & Hcnt & Hcl & Hci).
  exists ix. split; [done|]. intros key part thd Hp Ht.
  pose proof (index_read_ok Hst (thd := thd) ltac:(by rewrite Hcl, length_replicate)
    ltac:(by rewrite Hci, length_replicate) part key ltac:(by rewrite Hcnt)) as H.
  destruct (bt_spec ops _ _ !! key) as [rows|]; [|done]. destruct H as (ix' & H & _). eauto.
Qed.

(** C39. Reading a key and then calling [index_next] until it returns null
    returns the rows of the partition's greater keys, in increasing order of
    keys, all of them and each once. *)
Theorem btree_scan_ordered (ops : list bt_op) (cnt : Z) (thds thd : nat) (key part : Z)
    (rows : list Z) (ks : list Z) :
  (0 <= cnt)%Z -> (cnt + 102 * Z.of_nat (length ops) <= UINT64_MAX)%Z ->
  Forall (bt_valid cnt) ops -> (0 <= part < cnt)%Z -> thd < thds ->
  let m := bt_spec ops (fun _ => ∅) (Z.to_nat part) in
  m !! key = Some rows -> increasing ks ->
  (forall x, x ∈ ks <-> (key < x)%Z /\ is_Some (m !! x)) ->
  exists ix ix1 ix2 l, init cnt thds ≫= bt_run ops = Ok ix /\
    index_read_thd key part thd ix = Ok (rows, ix1) /\
    bt_scan (S (length ks)) thd ix1 = Ok (l, ix2) /\
    Forall2 (fun x r => m !! x = Some r) ks l.
Proof using All.
  intros Hc Hb Hv Hp Ht m Hm Hinc Hks.
  destruct (bt_built ops cnt thds Hc Hb Hv) as (ix & Gs & E & Hst & Hcnt & Hcl & Hci).
  assert (thd < length (cur_leaf_per_thd ix)) as L1 by (by rewrite Hcl, length_replicate).
  assert (thd < length (cur_idx_per_thd ix)) as L2 by (by rewrite Hci, length_replicate).
  pose proof (index_read_ok Hst L1 L2 part key ltac:(by rewrite Hcnt)) as H.
  fold m in H. rewrite Hm in H. destruct H as (ix1 & E1 & Hst1 & Hat & L3 & L4 & Hcnt1).
  destruct (scan_ok (Z.to_nat part) ks ix1 Gs _ thd key Hst1 ltac:(lia) ltac:(lia) ltac:(lia) Hat Hinc Hks)
    as (l & ix2 & E2 & Hl).
  exists ix, ix1, ix2, l. done.
Qed.

(** A search for any key, for a read or an insertion, visits at most as
    many nodes as the logarithm of the number of nodes, plus one: any fuel [f]
    with fewer than [2 ^ f] nodes is enough for the loop of [find_leaf]. *)
Theorem btree_search_terminates (ops : list bt_op) (cnt : Z) (thds : nat) :
  (0 <= cnt)%Z -> (cnt + 102 * Z.of_nat (length ops) <= UINT64_MAX)%Z ->
  Forall (bt_valid cnt) ops ->
  exists ix, init cnt thds ≫= bt_run ops = Ok ix /\
    forall key part root insert f, (0 <= part < cnt)%Z ->
      roots (bt ix) !! Z.to_nat part = Some root -> size (cells (bt ix)) < 2 ^ f ->
      exists leaf last_ex n,
        find_loop g_part_alloc hash_mode g_part_cnt g_synth_table_size order f part key insert root
          None (bt ix) = Ok (leaf, last_ex) /\
        load (bt ix) leaf = Ok n /\ is_leaf n = true.
Proof using All.
  intros Hc Hb Hv. destruct (bt_built ops cnt thds Hc Hb Hv) as (ix & Gs & E & Hst & Hcnt & _).
  exists ix. split; [done|]. intros key part root insert f Hp Hroot Hf.
  pose proof Hst as [_ _ Htree _].
  destruct (Htree (Z.to_nat part) ltac:(lia)) as ((root' & H & Hrep) & _).
  rewrite Z2Nat.id in Hrep by lia. pose proof (rep_root _ _ _ _ _ _ _ _ Hrep) as Hr.
  assert (root' = root) as -> by congruence.
  pose proof (rep_tree _ _ _ _ _ _ _ _ Hrep) as Ht.
  destruct (ok_root _ _ _ _ _ Ht) as (gr & Hgr & Hl & _ & Hlo & Hhi).
  assert (covers gr key) as Hcov by (unfold covers; cbn in Hhi; by rewrite Hlo, Hhi).
  pose proof (rep_height order junk _ _ Horder _ _ _ _ Hrep) as Hh.
  assert (H < f) by (apply (Nat.pow_lt_mono_r_iff 2); lia).
  destruct (find_loop_ok g_part_alloc hash_mode g_part_cnt g_synth_table_size order junk part Horder
    Hrep f root gr key insert None Hgr Hcov ltac:(lia) I)
    as (leaf & g & es & nx & le & E' & Hg & Hbo & _).
  destruct (heap_rep_load _ _ _ _ _ (rep_heap _ _ _ _ _ _ _ _ Hrep) Hg) as (n & Hn & _ & Hnr).
  exists leaf, le, n. split_and!; [done..|]. destruct Hnr as (_ & _ & _ & Hx). rewrite Hbo in Hx. apply Hx.
Qed.

Lemma reachable_tree ix Gs ms a :
  index_state ix Gs ms -> reachable (bt ix) a ->
  exists p g root H, p < Z.to_nat (part_cnt ix) /\ Gs p !! a = Some g /\
    rep order (in_part g_part_alloc hash_mode g_part_cnt g_synth_table_size (Z.of_nat p)) (Z.of_nat p)
      (bt ix) (Gs p) root H None.
Proof using All.
  intros [_ Hlen Htree _]. induction 1 as [p a Ha|a n i c _ (p & g & root & H & Hp & Hg & Hrep) Hn Hlf Hi Hc].
  - assert (p < Z.to_nat (part_cnt ix)) as Hp by (rewrite <- Hlen; by eapply lookup_lt_Some).
    destruct (Htree p Hp) as ((root & H & Hrep) & _).
    pose proof (rep_root _ _ _ _ _ _ _ _ Hrep) as Hr. rewrite Nat2Z.id in Hr.
    assert (root = a) as -> by congruence.
    destruct (ok_root _ _ _ _ _ (rep_tree _ _ _ _ _ _ _ _ Hrep)) as (gr & Hgr & _).
    by exists p, gr, a, H.
  - destruct (heap_rep_load _ _ _ _ _ (rep_heap _ _ _ _ _ _ _ _ Hrep) Hg) as (n' & _ & Hn' & Hnr).
    assert (n' = n) as -> by congruence. destruct Hnr as (_ & _ & _ & Hx).
    destruct (g_body g) as [es nx|ks cs] eqn:Hb; [destruct Hx; congruence|].
    destruct Hx as (_ & Hnk & _ & Hlc & _ & Hps).
    rewrite (lookup_take_eq _ _ _ i Hps) in Hc by lia. rewrite list_lookup_fmap in Hc.
    apply fmap_Some in Hc as (c' & Hc & [= ->]).
    destruct (child_present _ (rep_tree _ _ _ _ _ _ _ _ Hrep) _ _ _ _ c' Hg Hb) as (gc & Hgc & _);
      [by eapply list_elem_of_lookup_2|]. by exists p, gc, root, H.
Qed.

(** C40. The slots of nodes are untyped pointers.  Every node that is reached
    from a root has arrays of the sizes allocated for it and fewer keys than
    [order]; the slots in use of a leaf hold items and those of an inner node
    hold nodes, each with this node as its [parent]. *)
Theorem btree_well_typed (ops : list bt_op) (cnt : Z) (thds : nat) :
  (0 <= cnt)%Z -> (cnt + 102 * Z.of_nat (length ops) <= UINT64_MAX)%Z ->
  Forall (bt_valid cnt) ops ->
  exists ix, init cnt thds ≫= bt_run ops = Ok ix /\
    forall a, reachable (bt ix) a -> exists n, cells (bt ix) !! a = Some n /\ node_typed (bt ix) a n.
Proof using All.
  intros Hc Hb Hv. destruct (bt_built ops cnt thds Hc Hb Hv) as (ix & Gs & E & Hst & _).
  exists ix. split; [done|]. intros a Ha.
  destruct (reachable_tree ix Gs _ a Hst Ha) as (p & g & root & H & Hp & Hg & Hrep).
  pose proof (rep_tree _ _ _ _ _ _ _ _ Hrep) as Ht.
  destruct (heap_rep_load _ _ _ _ _ (rep_heap _ _ _ _ _ _ _ _ Hrep) Hg) as (n & _ & Hn & Hnr).
  exists n. split; [done|]. pose proof Hnr as (Hlk & Hlp & _ & Hx). unfold node_typed.
  destruct (g_body g) as [es nx|ks cs] eqn:Hbo.
  - destruct Hx as (-> & -> & _ & Hlt & _). split_and!; [done..|]. intros i Hi.
    destruct (lookup_lt_is_Some_2 es i Hi) as [[k rows] He].
    exists rows. by apply aget_Ok, (leaf_item Hnr es nx i k rows Hbo He).
  - destruct Hx as (-> & -> & Hlt & Hlc & _). split_and!; [done..|]. intros i Hi.
    destruct (lookup_lt_is_Some_2 cs i ltac:(lia)) as [c Hci].
    destruct (child_present _ Ht _ _ _ _ c Hg Hbo) as (gc & Hgc & Hpar & _); [by eapply list_elem_of_lookup_2|].
    destruct (heap_rep_load _ _ _ _ _ (rep_heap _ _ _ _ _ _ _ _ Hrep) Hgc) as (nc & _ & Hnc & _ & _ & Hpc & _).
    exists c, nc. split; [|by rewrite Hpc]. by apply aget_Ok, (inner_child Hnr ks cs i c Hbo Hci).
Qed.

(** ** What the overloads do *)

(** The overload with a partition reads partition 0. *)
Lemma index_read_part_zero ix key part :
  index_read g_part_alloc hash_mode g_part_cnt g_synth_table_size order key part ix =
    index_read_thd key 0 (Z.to_nat part) ix.
Proof using. done. Qed.

End Spec.

(** ** Runs *)

(** Ten insertions into two partitions, with [BTREE_ORDER] of config.h. *)
Definition ex_ops : list bt_op :=
  [BtInsert 10 1 0; BtInsert 4 2 0; BtInsert 8 3 0; BtInsert 7 4 1; BtInsert 2 5 0; BtInsert 4 6 0;
   BtInsert 6 7 0; BtInsert 12 8 0; BtInsert 14 9 0; BtInsert 16 10 0; BtInsert 18 11 0; BtInsert 20 12 0].

Lemma ex_valid : Forall (bt_valid true true 2 100 2) ex_ops.
Proof. repeat constructor; vm_compute; congruence. Qed.

Lemma btree_refines_witness :
  exists ix, init 4 0 2 1 ≫= bt_run true true 2 100 4 0 ex_ops = Ok ix /\
    exists ix', index_read_thd true true 2 100 4 4 0 0 ix = Ok ([6; 2]%Z, ix').
Proof.
  destruct (btree_refines true true 2 100 4 0 ltac:(lia) ex_ops 2 1) as (ix & E & H);
    [lia|vm_compute; congruence|apply ex_valid|].
  exists ix. split; [exact E|]. exact (H 4%Z 0%Z 0 ltac:(lia) ltac:(lia)).
Defined.

Lemma btree_scan_ordered_witness :
  exists ix ix1 ix2, init 4 0 2 1 ≫= bt_run true true 2 100 4 0 ex_ops = Ok ix /\
    index_read_thd true true 2 100 4 12 0 0 ix = Ok ([8]%Z, ix1) /\
    exists l, bt_scan 5 0 ix1 = Ok (l, ix2).
Proof.
  destruct (btree_scan_ordered true true 2 100 4 0 ltac:(lia) ex_ops 2 1 0 12 0 [8]%Z [14; 16; 18; 20]%Z)
    as (ix & ix1 & ix2 & l & E & E1 & E2 & _);
    [lia|vm_compute; congruence|apply ex_valid|lia|lia|reflexivity| | |eauto 10].
  - apply increasing_sorted. repeat constructor; lia.
  - intros x. rewrite <- (elem_of_dom (D := gset Z)), <- elem_of_elements.
    replace (elements (dom _)) with [14; 18; 10; 6; 20; 12; 16; 8; 4; 2]%Z by (vm_compute; reflexivity).
    rewrite !elem_of_cons, elem_of_nil. lia.
Defined.

Lemma btree_search_terminates_witness :
  exists ix, init 4 0 2 1 ≫= bt_run true true 2 100 4 0 ex_ops = Ok ix /\
    exists leaf last_ex root, roots (bt ix) !! 0 = Some root /\
      find_loop true true 2 100 4 (size (cells (bt ix))) 0 9 true root None (bt ix) = Ok (leaf, last_ex).
Proof.
  destruct (btree_search_terminates true true 2 100 4 0 ltac:(lia) ex_ops 2 1) as (ix & E & H);
    [lia|vm_compute; congruence|apply ex_valid|].
  exists ix. split; [exact E|].
  assert (exists root, roots (bt ix) !! 0 = Some root) as (root & Hr).
  { revert E. vm_compute. intros [= <-]. eexists. reflexivity. }
  destruct (H 9%Z 0%Z root true (size (cells (bt ix))) ltac:(lia) Hr (Nat.pow_gt_lin_r 2 _ ltac:(lia)))
    as (leaf & last_ex & n & E' & _).
  exists leaf, last_ex, root. split; [exact Hr|exact E'].
Defined.

Lemma btree_well_typed_witness :
  exists ix, init 4 0 2 1 ≫= bt_run true true 2 100 4 0 ex_ops = Ok ix /\
    exists root n, cells (bt ix) !! root = Some n /\ is_leaf n = false /\ node_typed 4 (bt ix) root n.
Proof.
  destruct (btree_well_typed true true 2 100 4 0 ltac:(lia) ex_ops 2 1) as (ix & E & H);
    [lia|vm_compute; congruence|apply ex_valid|].
  exists ix. split; [exact E|].
  assert (exists root n, roots (bt ix) !! 0 = Some root /\ cells (bt ix) !! root = Some n /\
    is_leaf n = false) as (root & n & Hr & Hn & Hl).
  { revert E. vm_compute. intros [= <-]. eexists _, _. split; [reflexivity|]. split; reflexivity. }
  destruct (H root (reach_root _ _ _ Hr)) as (n' & Hn' & Ht).
  exists root, n. split; [exact Hn|]. split; [exact Hl|]. congruence.
Defined.
