(* ===== verification/BubbleSort.v ===== *)
(** * BubbleSort: the sorting loops of the validators

    [validate_silo] (silo.cpp) and [OptCC::per_row_validate] (occ.cpp) sort
    accesses with the same two loops over [swap]: the outer index runs from
    the last element down to 1, the inner one compares neighbours and swaps
    those for which [gt] holds.  The loops are written once over [gt]; a client
    shows that "not [gt]" is transitive and that [gt] is asymmetric. *)

From stdpp Require Import gmap list sorting.
From S2P Require Import Prelude.
#[local] Open Scope Z_scope.

Section BubbleSort.
Context {A : Type} (gt : A -> A -> bool).
Implicit Types (l p s : list A).

(** One pass: [n] comparisons from the front. *)
Fixpoint bubble_pass (n : nat) (l : list A) : list A :=
  match n, l with
  | S n', x :: ((y :: l') as t) =>
      if gt x y then y :: bubble_pass n' (x :: l') else x :: bubble_pass n' t
  | _, _ => l
  end.

Fixpoint bubble_sort (i : nat) (l : list A) : list A :=
  match i with
  | O => l
  | S i' => bubble_sort i' (bubble_pass i l)
  end.

(** The order the loops establish. *)
Definition le (x y : A) : Prop := gt x y = false.

Lemma bubble_pass_perm n l : bubble_pass n l ≡ₚ l.
Proof using Type.
  revert l. induction n as [|n IH]; intros [|x [|y l]]; cbn; try done.
  destruct (gt x y); rewrite IH; [constructor|done].
Qed.

Lemma bubble_sort_perm i l : bubble_sort i l ≡ₚ l.
Proof using Type.
  revert l. induction i as [|i IH]; intros l; [done|]. cbn [bubble_sort]. by rewrite IH, bubble_pass_perm.
Qed.

Context (le_trans : Transitive le) (gt_asym : forall x y, gt x y = true -> le y x).

#[local] Instance le_refl : Reflexive le.
Proof using gt_asym. intros x. unfold le. destruct (gt x x) eqn:E; [|done]. by rewrite <- E, (gt_asym x x). Qed.

(** A pass moves the greatest of the first elements to their end. *)
Lemma bubble_pass_max n p s :
  length p = S n -> exists p' m, bubble_pass n (p ++ s) = p' ++ m :: s /\ p' ++ [m] ≡ₚ p /\
    forall a, a ∈ p -> le a m.
Proof using le_trans gt_asym.
  revert p. induction n as [|n IH]; intros p Hp.
  - destruct p as [|x [|]]; [done| |done]. exists [], x. cbn. split_and!; [done|done|].
    intros y ->%list_elem_of_singleton. reflexivity.
  - destruct p as [|x [|y p]]; [done|done|]. cbn in Hp. cbn. destruct (gt x y) eqn:Hxy.
    + destruct (IH (x :: p)) as (p' & m & E & Hperm & Hm); [cbn; lia|]. exists (y :: p'), m.
      cbn in E. rewrite E. cbn. split_and!; [done|rewrite Hperm; constructor|].
      intros z [->|[->|Hz]%elem_of_cons]%elem_of_cons.
      * apply Hm. by left.
      * transitivity x; [by apply gt_asym|]. apply Hm. by left.
      * apply Hm. by right.
    + destruct (IH (y :: p)) as (p' & m & E & Hperm & Hm); [cbn; lia|]. exists (x :: p'), m.
      cbn in E. rewrite E. cbn. split_and!; [done|by rewrite Hperm|].
      intros z [->|Hz]%elem_of_cons; [|by apply Hm].
      transitivity y; [done|]. apply Hm. by left.
Qed.

Lemma bubble_sort_sorted_app i p s :
  length p = S i -> StronglySorted le s -> (forall a b, a ∈ p -> b ∈ s -> le a b) ->
  StronglySorted le (bubble_sort i (p ++ s)).
Proof using le_trans gt_asym.
  revert p s. induction i as [|i IH]; intros p s Hp Hs Hps.
  - destruct p as [|x [|]]; [done| |done]. cbn. constructor; [done|]. apply Forall_forall.
    intros y Hy. apply Hps; [by left|done].
  - cbn [bubble_sort]. destruct (bubble_pass_max (S i) p s Hp) as (p' & m & -> & Hperm & Hm).
    assert (forall x, x ∈ p' \/ x = m -> x ∈ p) as Hin.
    { intros x Hx. rewrite <- Hperm. set_solver. }
    apply IH.
    + apply Permutation_length in Hperm. rewrite length_app in Hperm. cbn in Hperm. lia.
    + constructor; [done|]. apply Forall_forall. intros y Hy. apply Hps; [apply Hin; by right|done].
    + intros x y Hx [->|Hy]%elem_of_cons; [apply Hm, Hin; by left|].
      apply Hps; [apply Hin; by left|done].
Qed.

Lemma bubble_sort_sorted l : StronglySorted le (bubble_sort (length l - 1) l).
Proof using le_trans gt_asym.
  destruct l as [|x l]; [constructor|]. rewrite <- (app_nil_r (x :: l)) at 2.
  apply bubble_sort_sorted_app; [cbn; lia|constructor|]. intros ? ? _ ?%not_elem_of_nil. done.
Qed.

(** On elements that the order tells apart the loops compute the sorted list,
    whatever the algorithm. *)
Lemma bubble_sort_unique l l' :
  (forall x y, x ∈ l -> y ∈ l -> le x y -> le y x -> x = y) ->
  l' ≡ₚ l -> StronglySorted le l' -> bubble_sort (length l - 1) l = l'.
Proof using le_trans gt_asym.
  intros Hanti Hp Hs. pose proof (bubble_sort_perm (length l - 1) l) as Hp'.
  pose proof (bubble_sort_sorted l) as Hs'.
  set (k := bubble_sort (length l - 1) l) in *. clearbody k.
  assert (forall x, x ∈ k -> x ∈ l) as Hk by (intros x; by rewrite Hp').
  assert (k ≡ₚ l') as Hkl by by rewrite Hp', Hp. clear Hp Hp'.
  revert l' Hkl Hs. induction k as [|x k IH]; intros l' Hkl Hs.
  - by apply Permutation_nil_l in Hkl.
  - destruct l' as [|y l']; [by apply Permutation_nil_r in Hkl|].
    apply StronglySorted_inv in Hs as [Hs Hy], Hs' as [Hs' Hx].
    rewrite Forall_forall in Hx, Hy.
    assert (x = y) as <-.
    { assert (x ∈ y :: l') as [?|Hxl]%elem_of_cons by (rewrite <- Hkl; by left); [done|].
      assert (y ∈ x :: k) as [?|Hyk]%elem_of_cons by (rewrite Hkl; by left); [done|].
      apply Hanti; [apply Hk; by left|apply Hk; by right|by apply Hx|by apply Hy]. }
    f_equal. apply IH; [done| |by apply Permutation_cons_inv in Hkl|done].
    intros z Hz. apply Hk. by right.
Qed.
End BubbleSort.
