(* ===== verification/Serial.v ===== *)
(** * Serial: serial executions of transactions

    The protocols of [SiloProtocol] and [OccProtocol] are compared with the
    execution of their transactions one after the other.  A transaction counts
    through what it leaves at each row: [written t r] is [Some x] when it has
    committed and writes [x] at row [r]. *)

From stdpp Require Import gmap list.
From S2P Require Import Prelude.

(** A log without a transaction that has given up. *)
Definition drop_log (i : Z) (l : list Z) : list Z := filter (fun x => x <> i) l.

Section Serial.
Context {St V : Type} (written : St -> nat -> option V).
Implicit Types (T : Z -> St) (l : list Z) (v w : nat -> V) (r : nat) (t : St).

(** The effect of a transaction that runs alone. *)
Definition effect t v : nat -> V := fun r => default (v r) (written t r).

Definition serial T l v : nat -> V := foldl (fun v i => effect (T i) v) v l.

Lemma serial_app T l1 l2 v : serial T (l1 ++ l2) v = serial T l2 (serial T l1 v).
Proof using Type. apply foldl_app. Qed.

Lemma serial_cons T x l v : serial T (x :: l) v = serial T l (effect (T x) v).
Proof using Type. done. Qed.

(** At one row, the execution depends on what is written there only. *)
Lemma serial_row T T' l v v' r :
  v r = v' r -> (forall x, x ∈ l -> written (T x) r = written (T' x) r) ->
  serial T l v r = serial T' l v' r.
Proof using Type.
  revert v v'. induction l as [|x l IH]; intros v v' Hv He; [done|]. rewrite !serial_cons. apply IH.
  - unfold effect. by rewrite He, Hv by by left.
  - intros y Hy. apply He. by right.
Qed.

Lemma serial_same T T' l v r :
  (forall x, x ∈ l -> written (T x) r = written (T' x) r) -> serial T l v r = serial T' l v r.
Proof using Type. by apply serial_row. Qed.

Lemma serial_skip T l v r : (forall x, x ∈ l -> written (T x) r = None) -> serial T l v r = v r.
Proof using Type.
  revert v. induction l as [|x l IH]; intros v H; [done|]. rewrite serial_cons, IH.
  - unfold effect. by rewrite H by by left.
  - intros y Hy. apply H. by right.
Qed.

(** The last writer decides. *)
Lemma serial_writer T l1 x l2 v r d :
  written (T x) r = Some d -> (forall y, y ∈ l2 -> written (T y) r = None) ->
  serial T (l1 ++ x :: l2) v r = d.
Proof using Type.
  intros Hx Hl. rewrite serial_app, serial_cons, serial_skip by done. unfold effect. by rewrite Hx.
Qed.

(** Transactions that write nothing do not count. *)
Lemma serial_filter (P : Z -> Prop) `{!forall x, Decision (P x)} T l v r :
  (forall x, x ∈ l -> ~ P x -> written (T x) r = None) -> serial T (filter P l) v r = serial T l v r.
Proof using Type.
  revert v. induction l as [|x l IH]; intros v Hn; [done|]. rewrite filter_cons, serial_cons.
  assert (forall w, serial T (filter P l) w r = serial T l w r) as IH' by (intros w; apply IH; set_solver).
  case_decide as Hx; rewrite ?serial_cons, IH'; [done|]. apply serial_row; [|done].
  unfold effect. by rewrite Hn by (done || by left).
Qed.

Lemma serial_drop T i l v r :
  written (T i) r = None -> serial T (drop_log i l) v r = serial T l v r.
Proof using Type.
  intros Hi. apply serial_filter. intros x _ Hx. destruct (decide (x = i)) as [->|]; [done|by destruct Hx].
Qed.
End Serial.

(** ** Logs of transactions *)

Lemma snoc_split {A} (l l1 l2 : list A) x m :
  l ++ [x] = l1 ++ m :: l2 ->
  (l2 = [] /\ m = x /\ l1 = l) \/ exists l2', l2 = l2' ++ [x] /\ l = l1 ++ m :: l2'.
Proof.
  destruct l2 as [|y l2' _] using rev_ind.
  - intros [-> ->]%app_inj_tail. by left.
  - rewrite app_comm_cons, app_assoc. intros [-> ->]%app_inj_tail. right. by exists l2'.
Qed.

Lemma filter_split {A} (P : A -> Prop) `{!forall x, Decision (P x)} l l1 m l2 :
  filter P l = l1 ++ m :: l2 ->
  exists k1 k2, l = k1 ++ m :: k2 /\ l1 = filter P k1 /\ l2 = filter P k2.
Proof.
  revert l1. induction l as [|x l IH]; intros l1 E; [by destruct l1|].
  rewrite filter_cons in E. case_decide as Hx.
  - destruct l1 as [|y l1]; injection E as -> E.
    + exists [], l. by rewrite E.
    + destruct (IH _ E) as (k1 & k2 & -> & -> & ->). exists (y :: k1), k2. by rewrite filter_cons, decide_True.
  - destruct (IH _ E) as (k1 & k2 & -> & -> & ->). exists (x :: k1), k2. by rewrite filter_cons, decide_False.
Qed.

Lemma elem_of_drop_log i l x : x ∈ drop_log i l <-> x <> i /\ x ∈ l.
Proof. unfold drop_log. by rewrite list_elem_of_filter. Qed.

Lemma drop_log_absent i l : i ∉ l -> drop_log i l = l.
Proof.
  unfold drop_log. induction l as [|x l IH]; [done|]. rewrite not_elem_of_cons. intros [? ?].
  rewrite filter_cons, decide_True by done. by rewrite IH.
Qed.

Lemma drop_log_snoc i l : i ∉ l -> drop_log i (l ++ [i]) = l.
Proof.
  intros Hi. unfold drop_log. rewrite list.filter_app, filter_cons, decide_False, app_nil_r by tauto.
  by apply drop_log_absent.
Qed.

Lemma drop_log_split i l l1 m l2 :
  drop_log i l = l1 ++ m :: l2 ->
  exists k1 k2, l = k1 ++ m :: k2 /\ l1 = drop_log i k1 /\ l2 = drop_log i k2.
Proof. apply filter_split. Qed.
