(* ===== verification/Silo.v ===== *)
(** * Silo: optimistic validation with row latches

    Model of concurrency_control/row_silo.cpp and silo.cpp, with the part of
    [TxnManager::validate] (system/txn.cpp) that assigns the commit TID, in the
    configuration of config.h: [ATOMIC_WORD] is false, so a row has a mutex and
    a TID.  A row is an element of a store indexed by row identity; [rs_latch]
    is the holder of the mutex.  An [Access] carries the local copy a
    transaction works on; [acc_read] is that copy as it was made, a ghost field
    for the properties.  The write set, an array of indices into the accesses
    in the code, is the list of the accesses themselves.  Here whole operations
    run alone; [SiloProtocol] interleaves them. *)

From stdpp Require Import gmap list sorting relations.
From S2P Require Import Prelude BubbleSort.
#[local] Open Scope Z_scope.

Section Silo.
Context {D : Type}.
(** [orig_row->get_primary_key()]. *)
Context (pk : nat -> Z).

Record Row_silo := mkRowSilo {
  rs_data : D;
  rs_tid : Z;
  rs_latch : option Z;
}.

Record Access := mkAccess {
  acc_type : access_t;
  acc_row : nat;
  acc_tid : Z;
  acc_read : D;
  acc_data : D;
}.

Definition Store : Type := nat -> Row_silo.
(** ** Row_silo *)

Definition init (data : D) : Row_silo := mkRowSilo data 0 None.

Definition try_lock (id : Z) (row : Row_silo) : option Row_silo :=
  match rs_latch row with
  | None => Some (mkRowSilo (rs_data row) (rs_tid row) (Some id))
  | Some _ => None
  end.

Definition release (row : Row_silo) : Row_silo := mkRowSilo (rs_data row) (rs_tid row) None.

Definition get_tid (row : Row_silo) : Z := rs_tid row.

(** [access]: the copy, and the TID the transaction remembers. *)
Definition access (id : Z) (row : Row_silo) : option (D * Z) :=
  match try_lock id row with
  | Some row' => Some (rs_data row', rs_tid row')
  | None => None
  end.

Definition row_validate (id tid : Z) (in_write_set : bool) (row : Row_silo) : bool :=
  if in_write_set then tid =? rs_tid row
  else match try_lock id row with
       | Some row' => tid =? rs_tid row'
       | None => false
       end.

Definition write (data : D) (tid : Z) (row : Row_silo) : Row_silo := mkRowSilo data tid (rs_latch row).

(** ** The write set *)

(** The comparison of the bubble sort of the write set. *)
Definition key_after (x y : Access) : bool := pk (acc_row y) <? pk (acc_row x).

Definition write_accesses (accs : list Access) : list Access :=
  filter (fun a => acc_type a = WR) accs.
Definition read_set (accs : list Access) : list Access := filter (fun a => acc_type a <> WR) accs.
Definition write_set (accs : list Access) : list Access :=
  bubble_sort key_after (length (write_accesses accs) - 1) (write_accesses accs).

(** ** Validation *)

Record SiloTxn := mkSiloTxn {
  sx_id : Z;
  sx_accesses : list Access;
  sx_write_set : list Access;
  sx_num_locks : nat;
  sx_max_tid : Z;
  sx_cur_tid : Z;
  sx_commit_ts : Z;
}.

Inductive lock_result := AllLocked | LockAbort | LockBlocked.

(** The loop that locks the write set, with the number of locks taken.  With
    [_validation_no_wait] a busy row aborts; otherwise [lock] waits for it. *)
Fixpoint lock_loop (no_wait : bool) (id : Z) (ws : list Access) (n : nat) (db : Store)
    : lock_result * nat * Store :=
  match ws with
  | [] => (AllLocked, n, db)
  | a :: ws' =>
      match try_lock id (db (acc_row a)) with
      | None => (if no_wait then LockAbort else LockBlocked, n, db)
      | Some row =>
          let db' := fset (acc_row a) row db in
          if get_tid row =? acc_tid a then lock_loop no_wait id ws' (S n) db'
          else (LockAbort, S n, db')
      end
  end.

(** The loops that validate the read set and then the write set. *)
Fixpoint validate_loop (id : Z) (in_write_set : bool) (l : list Access) (max_tid : Z) (db : Store)
    : option Z :=
  match l with
  | [] => Some max_tid
  | a :: l' =>
      if row_validate id (acc_tid a) in_write_set (db (acc_row a))
      then validate_loop id in_write_set l' (if max_tid <? acc_tid a then acc_tid a else max_tid) db
      else None
  end.

Definition tid_current (db : Store) (a : Access) : bool := get_tid (db (acc_row a)) =? acc_tid a.

(** [validate_silo]; [None] is a thread that waits in [lock]. *)
Definition validate_silo (pre_abort no_wait : bool) (tx : SiloTxn) (db : Store)
    : option (RC * SiloTxn * Store) :=
  let ws := write_set (sx_accesses tx) in
  let rs := read_set (sx_accesses tx) in
  let tx_with n m := mkSiloTxn (sx_id tx) (sx_accesses tx) ws n m (sx_cur_tid tx) (sx_commit_ts tx) in
  if pre_abort && negb (forallb (tid_current db) ws && forallb (tid_current db) rs)
  then Some (Abort, tx_with 0%nat (sx_max_tid tx), db)
  else
    match lock_loop no_wait (sx_id tx) ws 0 db with
    | (LockBlocked, _, _) => None
    | (LockAbort, n, db') => Some (Abort, tx_with n (sx_max_tid tx), db')
    | (AllLocked, n, db') =>
        match validate_loop (sx_id tx) false rs 0 db' with
        | None => Some (Abort, tx_with n (sx_max_tid tx), db')
        | Some m =>
            match validate_loop (sx_id tx) true ws m db' with
            | None => Some (Abort, tx_with n (sx_max_tid tx), db')
            | Some m' => Some (RCOK, tx_with n m', db')
            end
        end
    end.

Definition find_tid_silo (max_tid : Z) (tx : SiloTxn) : SiloTxn :=
  mkSiloTxn (sx_id tx) (sx_accesses tx) (sx_write_set tx) (sx_num_locks tx) (sx_max_tid tx)
    (if sx_cur_tid tx <? max_tid then max_tid else sx_cur_tid tx) (sx_commit_ts tx).

(** The Silo branch of [TxnManager::validate]: on its home node a validated
    transaction gets the next TID. *)
Definition validate (pre_abort no_wait is_local : bool) (tx : SiloTxn) (db : Store)
    : option (RC * SiloTxn * Store) :=
  match validate_silo pre_abort no_wait tx db with
  | Some (RCOK, tx', db') =>
      if is_local then
        let c := wrap64 (sx_cur_tid tx' + 1) in
        Some (RCOK, mkSiloTxn (sx_id tx') (sx_accesses tx') (sx_write_set tx') (sx_num_locks tx')
                      (sx_max_tid tx') c c, db')
      else Some (RCOK, tx', db')
  | r => r
  end.

Definition release_all (l : list Access) (db : Store) : Store :=
  foldl (fun db a => fset (acc_row a) (release (db (acc_row a))) db) db l.

Definition install_all (commit_ts : Z) (l : list Access) (db : Store) : Store :=
  foldl (fun db a => fset (acc_row a) (release (write (acc_data a) commit_ts (db (acc_row a)))) db) db l.

(** [TxnManager::finish]. *)
Definition finish (rc : RC) (tx : SiloTxn) (db : Store) : SiloTxn * Store :=
  let done := mkSiloTxn (sx_id tx) (sx_accesses tx) [] 0 (sx_max_tid tx) (sx_cur_tid tx)
                (sx_commit_ts tx) in
  match rc with
  | Abort =>
      if (length (sx_accesses tx) <? sx_num_locks tx)%nat then (tx, db)
      else (done, release_all (take (sx_num_locks tx) (sx_write_set tx)) db)
  | _ => (done, install_all (sx_commit_ts tx) (sx_write_set tx) db)
  end.

End Silo.
Arguments Row_silo : clear implicits.
Arguments Access : clear implicits.
Arguments SiloTxn : clear implicits.
Arguments Store : clear implicits.

Section Validation.
Context {D : Type} (pk : nat -> Z).
Implicit Types (db : Store D) (l ws accs : list (Access D)) (a : Access D) (tx : SiloTxn D).

Abbreviation rows := (fmap acc_row).

(** *** The sort *)

#[export] Instance key_after_trans : Transitive (le (key_after (D := D) pk)).
Proof using Type. intros x y z. unfold le, key_after. rewrite !Z.ltb_ge. lia. Qed.
Lemma key_after_asym (x y : Access D) : key_after pk x y = true -> le (key_after pk) y x.
Proof using Type. unfold le, key_after. rewrite Z.ltb_ge, Z.ltb_lt. lia. Qed.

Lemma write_set_perm accs : write_set pk accs ≡ₚ write_accesses accs.
Proof using Type. apply bubble_sort_perm. Qed.

Lemma write_set_sorted accs :
  StronglySorted (fun a b => pk (acc_row a) <= pk (acc_row b)) (write_set pk accs).
Proof using Type.
  eapply StronglySorted_impl; [|apply (bubble_sort_sorted (key_after pk) _ key_after_asym)].
  intros x y. apply Z.ltb_ge.
Qed.

Lemma elem_of_write_set accs a : a ∈ write_set pk accs <-> acc_type a = WR /\ a ∈ accs.
Proof using Type. rewrite write_set_perm. unfold write_accesses. by rewrite list_elem_of_filter. Qed.

Lemma elem_of_read_set accs a : a ∈ read_set accs <-> acc_type a <> WR /\ a ∈ accs.
Proof using Type. unfold read_set. by rewrite list_elem_of_filter. Qed.

Lemma elem_of_sets accs a : a ∈ write_set pk accs ++ read_set accs <-> a ∈ accs.
Proof using Type.
  rewrite elem_of_app, elem_of_write_set, elem_of_read_set. destruct (decide (acc_type a = WR)); tauto.
Qed.

(** *** Stores *)

(** The store with the given rows latched by a transaction. *)
Definition latched (id : Z) (rs : list nat) db : Store D :=
  fun r => if decide (r ∈ rs) then mkRowSilo (rs_data (db r)) (rs_tid (db r)) (Some id) else db r.

Lemma lock_loop_spec no_wait id ws : forall n db,
  let '(res, n', db') := lock_loop no_wait id ws n db in
  exists k, n' = (n + k)%nat /\ (k <= length ws)%nat /\ NoDup (rows (take k ws)) /\
    Forall (fun a => rs_latch (db (acc_row a)) = None) (take k ws) /\
    (forall r, db' r = latched id (rows (take k ws)) db r) /\
    (res = AllLocked -> k = length ws) /\
    (res = AllLocked <-> NoDup (rows ws) /\
       Forall (fun a => rs_latch (db (acc_row a)) = None /\ rs_tid (db (acc_row a)) = acc_tid a) ws) /\
    (no_wait = true -> res <> LockBlocked).
Proof using Type.
  induction ws as [|a ws IH]; intros n db; cbn [lock_loop].
  { exists 0%nat. cbn. split_and!; try done; try lia; try (by constructor); intros; repeat constructor. }
  unfold try_lock. destruct (rs_latch (db (acc_row a))) as [o|] eqn:El.
  - exists 0%nat. do 4 (split; [cbn; lia || constructor|]). split; [done|].
    split; [by destruct no_wait|]. split; [split; [by destruct no_wait|]|by destruct no_wait].
    intros [_ [[He _] _]%Forall_cons]. congruence.
  - set (row := mkRowSilo _ _ _). unfold get_tid. cbn [rs_tid row].
    destruct (Z.eqb_spec (rs_tid (db (acc_row a))) (acc_tid a)) as [Et|Et].
    + specialize (IH (S n) (fset (acc_row a) row db)).
      destruct (lock_loop _ _ _ _ _) as [[res n'] db'].
      destruct IH as (k & -> & Hk & Hnd & Hun & Hdb & Hall & Hiff & Hnb).
      assert (acc_row a ∉ rows (take k ws)) as Hna.
      { intros (b & Eb & Hb)%list_elem_of_fmap. rewrite Forall_forall in Hun.
        specialize (Hun b Hb). rewrite <- Eb, fset_eq in Hun. done. }
      exists (S k). split; [lia|]. split; [cbn; lia|]. cbn [take fmap list_fmap].
      split; [by constructor|]. split; [|split; [|split; [|split; [|done]]]].
      * constructor; [done|]. eapply Forall_impl_In; [exact Hun|]. intros b Hb. cbn.
        rewrite fset_ne; [done|]. intros Eb. apply Hna. rewrite <- Eb. by apply list_elem_of_fmap_2.
      * intros r. rewrite Hdb. unfold latched. destruct (decide (r = acc_row a)) as [->|Hne].
        -- rewrite (decide_False (P := acc_row a ∈ rows (take k ws))) by done.
           rewrite decide_True by (by left). by rewrite fset_eq.
        -- rewrite !fset_ne by done. destruct (decide (r ∈ rows (take k ws))).
           ++ by rewrite decide_True by (by right).
           ++ rewrite decide_False; [done|]. by intros [|]%elem_of_cons.
      * intros Hr. cbn. by rewrite (Hall Hr).
      * rewrite Hiff, NoDup_cons, Forall_cons. split.
        -- intros [Hn HF]. assert (acc_row a ∉ rows ws) as Hnw.
           { intros (b & Eb & Hb)%list_elem_of_fmap. rewrite Forall_forall in HF.
             destruct (HF b Hb) as [Hl _]. rewrite <- Eb, fset_eq in Hl. done. }
           split_and!; [done|done|done|done|]. eapply Forall_impl_In; [exact HF|]. intros b Hb. cbn.
           rewrite fset_ne; [done|]. intros Eb. apply Hnw. rewrite <- Eb. by apply list_elem_of_fmap_2.
        -- intros ([Hnw Hn] & _ & HF). split; [done|]. eapply Forall_impl_In; [exact HF|]. intros b Hb. cbn.
           rewrite fset_ne; [done|]. intros Eb. apply Hnw. rewrite <- Eb. by apply list_elem_of_fmap_2.
    + exists 1%nat. cbn [take]. rewrite take_0. split; [lia|]. split; [cbn; lia|].
      split; [apply NoDup_singleton|]. split; [by repeat constructor|]. split; [|split; [done|split; [|done]]].
      * intros r. unfold latched. cbn. destruct (decide (r = acc_row a)) as [->|Hne].
        -- by rewrite fset_eq, decide_True by (by left).
        -- rewrite fset_ne by done. rewrite decide_False; [done|]. by intros ->%list_elem_of_singleton.
      * split; [done|]. by intros [_ [[_ He] _]%Forall_cons].
Qed.

Lemma validate_loop_spec id w l m db :
  match validate_loop id w l m db with
  | Some m' => Forall (fun a => row_validate id (acc_tid a) w (db (acc_row a)) = true) l /\
      m <= m' /\ Forall (fun a => acc_tid a <= m') l
  | None => ~ Forall (fun a => row_validate id (acc_tid a) w (db (acc_row a)) = true) l
  end.
Proof using Type.
  revert m. induction l as [|a l IH]; intros m; cbn; [split_and!; [constructor|lia|constructor]|].
  destruct (row_validate _ _ _ _) eqn:Ev; [|intros [? _]%Forall_cons; congruence].
  specialize (IH (if m <? acc_tid a then acc_tid a else m)).
  destruct (validate_loop _ _ _ _ _).
  - destruct IH as (HF & Hm & Hl). destruct (Z.ltb_spec m (acc_tid a));
      (split_and!; [by constructor|lia|constructor; [lia|done]]).
  - by intros [_ ?]%Forall_cons.
Qed.

Lemma row_validate_spec id tid w (row : Row_silo D) :
  row_validate id tid w row = true <-> rs_tid row = tid /\ (w = false -> rs_latch row = None).
Proof using Type.
  unfold row_validate, try_lock. destruct w; [rewrite Z.eqb_eq; naive_solver|].
  destruct (rs_latch row); cbn; [naive_solver|]. rewrite Z.eqb_eq. naive_solver.
Qed.

(** *** Finishing *)

Lemma release_all_row l db r :
  release_all l db r = if decide (r ∈ rows l) then release (db r) else db r.
Proof using Type.
  unfold release_all. revert db. induction l as [|a l IH]; intros db; cbn; [done|]. rewrite IH.
  destruct (decide (r = acc_row a)) as [->|Hne].
  - rewrite !fset_eq. rewrite (decide_True (P := acc_row a ∈ acc_row a :: _)) by (by left).
    by case_decide.
  - rewrite !fset_ne by done. destruct (decide (r ∈ acc_row <$> l)).
    + by rewrite decide_True by (by right).
    + rewrite decide_False; [done|]. by intros [|]%elem_of_cons.
Qed.

Lemma install_all_cons c a l db :
  install_all c (a :: l) db =
  install_all c l (fset (acc_row a) (release (write (acc_data a) c (db (acc_row a)))) db).
Proof using Type. done. Qed.

Lemma install_all_other c l db r : r ∉ rows l -> install_all c l db r = db r.
Proof using Type.
  revert db. induction l as [|a l IH]; intros db; [done|].
  intros [Hne Hn]%not_elem_of_cons. rewrite install_all_cons, IH by done. by apply fset_ne.
Qed.

Lemma install_all_row c l db a :
  NoDup (rows l) -> a ∈ l -> install_all c l db (acc_row a) = mkRowSilo (acc_data a) c None.
Proof using Type.
  revert db. induction l as [|b l IH]; intros db; [set_solver|].
  intros [Hn Hnd]%NoDup_cons Ha. rewrite install_all_cons.
  apply elem_of_cons in Ha as [->|Ha]; [|by apply IH].
  rewrite install_all_other by done. by rewrite fset_eq.
Qed.

(** What a successful validation needs of the store: every row accessed is
    unlatched and has the TID seen, and no row is written twice or both read
    and written through two accesses. *)
Definition valid_in (tx : SiloTxn D) db : Prop :=
  Forall (fun a => rs_latch (db (acc_row a)) = None /\ rs_tid (db (acc_row a)) = acc_tid a)
    (sx_accesses tx) /\
  NoDup (rows (write_accesses (sx_accesses tx))) /\
  (forall a b, a ∈ sx_accesses tx -> b ∈ sx_accesses tx -> acc_type a = WR -> acc_type b <> WR ->
     acc_row a <> acc_row b).

Lemma pre_abort_valid tx db :
  valid_in tx db ->
  forallb (tid_current db) (write_set pk (sx_accesses tx)) &&
  forallb (tid_current db) (read_set (sx_accesses tx)) = true.
Proof using Type.
  intros [HF _]. rewrite Forall_forall in HF.
  apply andb_true_iff. split; apply forallb_forall; intros a Ha%list_elem_of_In;
    unfold tid_current, get_tid; apply Z.eqb_eq, HF.
  - by apply elem_of_write_set in Ha as [_ ?].
  - by apply elem_of_read_set in Ha as [_ ?].
Qed.

(** The store after locking: released, it is the store before. *)
Lemma release_latched id k ws db db' r :
  Forall (fun a => rs_latch (db (acc_row a)) = None) (take k ws) ->
  (forall x, db' x = latched id (rows (take k ws)) db x) ->
  release_all (take k ws) db' r = db r.
Proof using Type.
  intros HF Hdb. rewrite release_all_row, Hdb. unfold latched. case_decide as Hr; [|done].
  apply list_elem_of_fmap in Hr as (a & -> & Ha). rewrite Forall_forall in HF.
  unfold release. cbn. rewrite <- (HF a Ha). by destruct (db (acc_row a)).
Qed.

(** The validation of a transaction alone: the general statement. *)
Lemma validate_silo_spec pre_abort tx db :
  exists rc tx' db', validate_silo pk pre_abort true tx db = Some (rc, tx', db') /\
    (rc = RCOK \/ rc = Abort) /\ (rc = RCOK <-> valid_in tx db) /\
    sx_accesses tx' = sx_accesses tx /\ sx_write_set tx' = write_set pk (sx_accesses tx) /\
    sx_cur_tid tx' = sx_cur_tid tx /\ sx_id tx' = sx_id tx /\
    (exists k, sx_num_locks tx' = k /\ (k <= length (write_set pk (sx_accesses tx)))%nat /\
      (rc = RCOK -> k = length (write_set pk (sx_accesses tx))) /\
      Forall (fun a => rs_latch (db (acc_row a)) = None) (take k (write_set pk (sx_accesses tx))) /\
      forall r, db' r = latched (sx_id tx) (rows (take k (write_set pk (sx_accesses tx)))) db r) /\
    (rc = RCOK -> Forall (fun a => acc_tid a <= sx_max_tid tx') (sx_accesses tx)).
Proof using Type.
  unfold validate_silo. set (ws := write_set pk (sx_accesses tx)). set (rs := read_set (sx_accesses tx)).
  assert (ws ≡ₚ write_accesses (sx_accesses tx)) as Hws by apply write_set_perm.
  destruct (pre_abort && _) eqn:Epre.
  { eexists _, _, _. split; [done|]. cbn. split_and!; try done; [by right| |].
    - split; [done|]. intros Hv%pre_abort_valid. apply andb_true_iff in Epre as [_ Epre].
      fold ws rs in Hv. by rewrite Hv in Epre.
    - exists 0%nat. split_and!; [done|lia|done|constructor|done]. }
  pose proof (lock_loop_spec true (sx_id tx) ws 0 db) as Hlock.
  destruct (lock_loop _ _ _ _ _) as [[res n] db'].
  destruct Hlock as (k & -> & Hk & Hnd & Hun & Hdb & Hall & Hiff & Hnb). cbn in Hnb.
  assert (valid_in tx db <-> res = AllLocked /\
    Forall (fun a => row_validate (sx_id tx) (acc_tid a) false (db' (acc_row a)) = true) rs) as Hv.
  { rewrite Hiff, (Forall_forall _ rs). setoid_rewrite row_validate_spec. split.
    - intros (HF & Hnw & Hrw). rewrite Forall_forall in HF.
      assert (res = AllLocked) as Hres.
      { apply Hiff. split; [by rewrite Hws|].
        apply Forall_forall. intros a [_ Ha]%elem_of_write_set. by apply HF. }
      split; [by apply Hiff|]. intros b [Hb Hbin]%elem_of_read_set. rewrite Hdb. unfold latched.
      rewrite decide_False.
      + destruct (HF b Hbin). done.
      + rewrite (Hall Hres), firstn_all. intros (a & Ea & [Hw Ha]%elem_of_write_set)%list_elem_of_fmap.
        by eapply (Hrw a b).
    - intros [[Hn HF] Hr]. assert (res = AllLocked) as Hres by (by apply Hiff).
      rewrite (Hall Hres), firstn_all in Hdb.
      assert (forall b, b ∈ rs -> acc_row b ∉ rows ws) as Hout.
      { intros b Hb Hin. destruct (Hr b Hb) as [_ Hl]. specialize (Hl eq_refl).
        rewrite Hdb in Hl. unfold latched in Hl. by rewrite decide_True in Hl. }
      split_and!.
      + apply Forall_forall. intros a Ha%elem_of_sets. apply elem_of_app in Ha as [Ha|Ha].
        * by rewrite Forall_forall in HF; apply HF.
        * destruct (Hr a Ha) as [Ht Hl]. rewrite Hdb in Ht, Hl. unfold latched in Ht, Hl.
          rewrite decide_False in Ht, Hl by (by apply Hout). auto.
      + by rewrite <- Hws.
      + intros a b Ha Hb Hw Hnw E. apply (Hout b); [by apply elem_of_read_set|]. rewrite <- E.
        apply list_elem_of_fmap_2. by apply elem_of_write_set. }
  destruct res; [|eexists _, _, _; split; [done|]; cbn; split_and!; try done;
    [by right|rewrite Hv; naive_solver|by exists k]|by destruct (Hnb eq_refl)].
  pose proof (validate_loop_spec (sx_id tx) false rs 0 db') as H1.
  destruct (validate_loop _ false _ _ _) as [m|];
    [|eexists _, _, _; split; [done|]; cbn; split_and!; try done; [by right|rewrite Hv; naive_solver|by exists k]].
  destruct H1 as (HF1 & Hm1 & Hl1).
  pose proof (validate_loop_spec (sx_id tx) true ws m db') as H2.
  assert (Forall (fun a => row_validate (sx_id tx) (acc_tid a) true (db' (acc_row a)) = true) ws) as HF2.
  { destruct (proj1 Hiff eq_refl) as [_ HF]. rewrite Forall_forall in *. intros a Ha.
    apply row_validate_spec. split; [|done]. rewrite Hdb, (Hall eq_refl), firstn_all. unfold latched.
    rewrite decide_True by (by apply list_elem_of_fmap_2). cbn. by apply HF. }
  destruct (validate_loop _ true _ _ _) as [m'|]; [|by destruct (H2 HF2)].
  destruct H2 as (_ & Hm2 & Hl2). eexists _, _, _. split; [done|]. cbn.
  split_and!; try done; [by left|by rewrite Hv|eauto 10|].
  intros _. rewrite Forall_forall in *. intros a Ha%elem_of_sets. apply elem_of_app in Ha as [Ha|Ha].
  - by apply Hl2.
  - specialize (Hl1 a Ha). lia.
Qed.
End Validation.

(** ** Properties *)

(** C28. Validation and completion of a transaction that runs alone, with the
    no-wait validation of config.h.  The write set is locked in the order of
    the primary keys.  Validation never waits; it succeeds exactly when every
    row accessed is unlatched and still has the TID that was seen (and no row
    is accessed twice with a write among the accesses: such a transaction
    aborts itself); [max_tid] is then an upper bound of the TIDs seen.
    Completing with Abort, after a failed or a successful validation, gives
    back the store of before the validation, latches included; completing a
    validated transaction installs its copies with the commit TID in exactly
    the rows it writes and leaves them unlatched. *)
Theorem silo_validate_correct (D : Type) (pk : nat -> Z) (pre_abort is_local : bool)
    (tx : SiloTxn D) (db : Store D) :
  exists rc tx' db', validate pk pre_abort true is_local tx db = Some (rc, tx', db') /\
    sx_write_set tx' ≡ₚ write_accesses (sx_accesses tx) /\
    StronglySorted (fun a b => pk (acc_row a) <= pk (acc_row b)) (sx_write_set tx') /\
    (rc = RCOK <-> valid_in tx db) /\ (rc <> RCOK -> rc = Abort) /\
    (forall r, snd (finish Abort tx' db') r = db r) /\
    (rc = RCOK ->
       Forall (fun a => acc_tid a <= sx_max_tid tx') (sx_accesses tx) /\
       (forall a, a ∈ write_accesses (sx_accesses tx) ->
          snd (finish RCOK tx' db') (acc_row a) = mkRowSilo (acc_data a) (sx_commit_ts tx') None) /\
       (forall r, r ∉ (acc_row <$> write_accesses (sx_accesses tx)) ->
          snd (finish RCOK tx' db') r = db r)).
Proof.
  destruct (validate_silo_spec pk pre_abort tx db) as (rc & tx1 & db' & E & Hrc & Hv & Hacc & Hws & _ & _ & Hk & Hm).
  destruct Hk as (k & Hn & Hle & Hkall & Hun & Hdb).
  assert (forall tx', sx_accesses tx' = sx_accesses tx1 -> sx_write_set tx' = sx_write_set tx1 ->
    sx_num_locks tx' = sx_num_locks tx1 -> forall r, snd (finish Abort tx' db') r = db r) as Habort.
  { intros tx' Ha Hw Hnl r. unfold finish. rewrite Ha, Hw, Hnl, Hacc, Hws, Hn.
    assert (k <= length (sx_accesses tx))%nat as Hb.
    { etrans; [exact Hle|]. rewrite (Permutation_length (write_set_perm pk (sx_accesses tx))).
      apply length_filter. }
    apply Nat.ltb_ge in Hb. rewrite Hb. by eapply release_latched. }
  assert (forall tx', sx_write_set tx' = sx_write_set tx1 -> rc = RCOK ->
    (forall a, a ∈ write_accesses (sx_accesses tx) ->
       snd (finish RCOK tx' db') (acc_row a) = mkRowSilo (acc_data a) (sx_commit_ts tx') None) /\
    (forall r, r ∉ (acc_row <$> write_accesses (sx_accesses tx)) ->
       snd (finish RCOK tx' db') r = db r)) as Hcommit.
  { intros tx' Hw Hok. pose proof Hok as Hvalid%Hv. destruct Hvalid as (_ & Hnd & _).
    cbn. rewrite Hw, Hws. split.
    - intros a Ha. apply install_all_row; by rewrite (write_set_perm pk (sx_accesses tx)).
    - intros r Hr. rewrite (Hkall Hok), firstn_all in Hdb.
      rewrite <- (write_set_perm pk (sx_accesses tx)) in Hr.
      rewrite install_all_other by done. rewrite Hdb. unfold latched. by rewrite decide_False. }
  unfold validate. rewrite E. destruct Hrc as [-> | ->]; [destruct is_local|].
  all: eexists _, _, _; split; [done|]; cbn [sx_write_set].
  all: rewrite Hws; split; [apply write_set_perm|]; split; [apply write_set_sorted|].
  all: split; [done|]; split; [done|]; split; [by apply Habort|].
  all: intros Hok; (split; [by apply Hm|]); by apply Hcommit.
Qed.

(** TIDs do not change when local transactions commit, and an update is
    lost.  [find_tid_silo] is only applied to the maxima that other nodes
    acknowledge, so a transaction of one node always commits with TID 1.  From
    then on validation cannot tell versions apart: two transactions that read
    the same version of a row and write it both validate and commit, and the
    second overwrites the first without having read it. *)
Theorem silo_lost_update (D : Type) (pk : nat -> Z) (db : Store D) (r : nat) (id1 id2 : Z) (d1 d2 : D) :
  rs_tid (db r) = 1 -> rs_latch (db r) = None ->
  exists v tx1 tx2 tx1' tx2' db1 db2 db3 db4,
    access id1 (db r) = Some (v, 1) /\ access id2 (db r) = Some (v, 1) /\
    tx1 = mkSiloTxn id1 [mkAccess WR r 1 v d1] [] 0 0 0 0 /\
    tx2 = mkSiloTxn id2 [mkAccess WR r 1 v d2] [] 0 0 0 0 /\
    validate pk true true true tx2 db = Some (RCOK, tx2', db1) /\ sx_commit_ts tx2' = 1 /\
    snd (finish RCOK tx2' db1) = db2 /\ db2 r = mkRowSilo d2 1 None /\
    validate pk true true true tx1 db2 = Some (RCOK, tx1', db3) /\
    snd (finish RCOK tx1' db3) = db4 /\ db4 r = mkRowSilo d1 1 None.
Proof.
  intros Ht Hl.
  assert (forall id d v (s : Store D), rs_tid (s r) = 1 -> rs_latch (s r) = None ->
    validate pk true true true (mkSiloTxn id [mkAccess WR r 1 v d] [] 0 0 0 0) s =
    Some (RCOK, mkSiloTxn id [mkAccess WR r 1 v d] [mkAccess WR r 1 v d] 1 1 1 1,
      fset r (mkRowSilo (rs_data (s r)) 1 (Some id)) s)) as Hval.
  { intros id d v s Hts Hls. unfold validate, validate_silo, write_set, write_accesses, read_set.
    cbn [sx_accesses]. rewrite !filter_cons, !filter_nil, decide_True, decide_False by (cbn; tauto || done). cbn.
    unfold tid_current, get_tid. cbn. rewrite Hts. cbn. unfold try_lock. rewrite Hls, Hts. cbn.
    unfold row_validate. rewrite fset_eq. cbn. done. }
  eexists (rs_data (db r)), _, _, _, _, _, _, _, _. split_and!.
  - unfold access, try_lock. rewrite Hl. cbn. by rewrite Ht.
  - unfold access, try_lock. rewrite Hl. cbn. by rewrite Ht.
  - done.
  - done.
  - by apply Hval.
  - done.
  - done.
  - cbn. by rewrite !fset_eq.
  - apply Hval; cbn; by rewrite !fset_eq.
  - done.
  - cbn. by rewrite !fset_eq.
Qed.

(** A fresh row whose first writer has committed is in the situation of the
    property. *)
Definition ex_silo_store : Store Z := fun _ => mkRowSilo 10 1 None.

Lemma silo_lost_update_witness :
  exists tx1' tx2' db1 db3,
    validate (fun r => Z.of_nat r) true true true (mkSiloTxn 2 [mkAccess WR 0%nat 1 10 12] [] 0 0 0 0)
      ex_silo_store = Some (RCOK, tx2', db1) /\
    validate (fun r => Z.of_nat r) true true true (mkSiloTxn 1 [mkAccess WR 0%nat 1 10 11] [] 0 0 0 0)
      (snd (finish RCOK tx2' db1)) = Some (RCOK, tx1', db3) /\
    rs_data (snd (finish RCOK tx1' db3) 0%nat) = 11.
Proof.
  destruct (silo_lost_update Z (fun r => Z.of_nat r) ex_silo_store 0 1 2 11 12)
    as (v & tx1 & tx2 & tx1' & tx2' & db1 & db2 & db3 & db4 & Ha & _ & -> & -> & H2 & _ & Hf2 & _ & H1 & Hf1 & Hr);
    [reflexivity|reflexivity|].
  injection Ha as <-. exists tx1', tx2', db1, db3. split; [exact H2|]. rewrite Hf2, Hf1, Hr.
  split; [exact H1|reflexivity].
Defined.
