(* ===== verification/SiloProtocol.v ===== *)
(** * SiloProtocol: interleaved Silo transactions are serializable

    The transactions of [Silo] as a step relation: each step is one access to
    one row under its latch, so the loops of [validate_silo] and [finish] of
    different transactions interleave row by row.  The step that makes a
    validated transaction commit requires a TID above those the transaction
    has seen, Silo's rule; the code follows it for the maxima of other nodes
    ([find_tid_silo]), not for those of the home node, see
    [Silo.silo_lost_update].  A transaction may give up at any step, which
    covers the pre-abort check, a row whose latch is taken for a moment by a
    reader, and a distributed abort after validation. *)

From stdpp Require Import gmap list sorting relations.
From S2P Require Import Prelude Serial Silo.
#[local] Open Scope Z_scope.

(** Where a transaction is: running; locking the write set ([k] rows locked);
    validating the read set, then the write set ([k] rows done); installing
    ([k] rows written and released) with its commit TID; done; aborting
    ([j] of the first [n] rows of the write set released); aborted. *)
Inductive Pc :=
| Running
| Locking (k : nat)
| Reading (k : nat)
| Checking (k : nat)
| Committing (k : nat) (cts : Z)
| Done (cts : Z)
| Aborting (j n : nat)
| Aborted.

Section Protocol.
Context {D : Type} (pk : nat -> Z).

Record TState := mkT { t_acc : list (Access D); t_pc : Pc }.

Definition W (t : TState) : list (Access D) := write_set pk (t_acc t).
Definition R (t : TState) : list (Access D) := read_set (t_acc t).
Definition at_pc (t : TState) (p : Pc) : TState := mkT (t_acc t) p.

(** The store, the transactions, and the order in which they passed their
    lock point (the end of the locking loop), without the aborted ones. *)
Record State := mkState { st_db : Store D; st_txn : Z -> TState; st_log : list Z }.

Inductive step : State -> State -> Prop :=
| s_access db T l i ty r v tid :
    t_pc (T i) = Running -> access i (db r) = Some (v, tid) ->
    step (mkState db T l)
         (mkState db (fset i (mkT (t_acc (T i) ++ [mkAccess ty r tid v v]) Running) T) l)
| s_write db T l i pre a post d :
    t_pc (T i) = Running -> t_acc (T i) = pre ++ a :: post -> acc_type a = WR ->
    step (mkState db T l)
         (mkState db (fset i (mkT (pre ++ mkAccess WR (acc_row a) (acc_tid a) (acc_read a) d :: post)
                                Running) T) l)
| s_start db T l i :
    t_pc (T i) = Running ->
    step (mkState db T l) (mkState db (fset i (at_pc (T i) (Locking 0)) T) l)
| s_lock db T l i k a row :
    t_pc (T i) = Locking k -> W (T i) !! k = Some a -> try_lock i (db (acc_row a)) = Some row ->
    step (mkState db T l)
         (mkState (fset (acc_row a) row db)
            (fset i (at_pc (T i) (if get_tid row =? acc_tid a then Locking (S k) else Aborting 0 (S k))) T) l)
| s_locked db T l i :
    t_pc (T i) = Locking (length (W (T i))) ->
    step (mkState db T l) (mkState db (fset i (at_pc (T i) (Reading 0)) T) (l ++ [i]))
| s_read db T l i k a :
    t_pc (T i) = Reading k -> R (T i) !! k = Some a ->
    row_validate i (acc_tid a) false (db (acc_row a)) = true ->
    step (mkState db T l) (mkState db (fset i (at_pc (T i) (Reading (S k))) T) l)
| s_reads_done db T l i :
    t_pc (T i) = Reading (length (R (T i))) ->
    step (mkState db T l) (mkState db (fset i (at_pc (T i) (Checking 0)) T) l)
| s_check db T l i k a :
    t_pc (T i) = Checking k -> W (T i) !! k = Some a ->
    row_validate i (acc_tid a) true (db (acc_row a)) = true ->
    step (mkState db T l) (mkState db (fset i (at_pc (T i) (Checking (S k))) T) l)
| s_validated db T l i cts :
    t_pc (T i) = Checking (length (W (T i))) -> Forall (fun a => acc_tid a < cts) (t_acc (T i)) ->
    step (mkState db T l) (mkState db (fset i (at_pc (T i) (Committing 0 cts)) T) l)
| s_install db T l i k cts a :
    t_pc (T i) = Committing k cts -> W (T i) !! k = Some a ->
    step (mkState db T l)
         (mkState (fset (acc_row a) (release (write (acc_data a) cts (db (acc_row a)))) db)
            (fset i (at_pc (T i) (Committing (S k) cts)) T) l)
| s_done db T l i cts :
    t_pc (T i) = Committing (length (W (T i))) cts ->
    step (mkState db T l) (mkState db (fset i (at_pc (T i) (Done cts)) T) l)
| s_abort db T l i n :
    (match t_pc (T i) with
     | Running => n = 0%nat
     | Locking k => n = k
     | Reading _ | Checking _ => n = length (W (T i))
     | _ => False
     end) ->
    step (mkState db T l) (mkState db (fset i (at_pc (T i) (Aborting 0 n)) T) (drop_log i l))
| s_release db T l i j n a :
    t_pc (T i) = Aborting j n -> (j < n)%nat -> W (T i) !! j = Some a ->
    step (mkState db T l)
         (mkState (fset (acc_row a) (release (db (acc_row a))) db)
            (fset i (at_pc (T i) (Aborting (S j) n)) T) l)
| s_aborted db T l i n :
    t_pc (T i) = Aborting n n ->
    step (mkState db T l) (mkState db (fset i (at_pc (T i) Aborted) T) l).

(** The initial state: no transaction has done anything. *)
Definition start (db : Store D) : State := mkState db (fun _ => mkT [] Running) [].

(** ** The serial execution

    A version map gives the TID and the data of each row. *)

Definition committed (t : TState) : option Z :=
  match t_pc t with Committing _ c | Done c => Some c | _ => None end.

Fixpoint find_row (r : nat) (l : list (Access D)) : option (Access D) :=
  match l with
  | [] => None
  | a :: l' => if decide (acc_row a = r) then Some a else find_row r l'
  end.

(** What a committed transaction leaves at a row. *)
Definition written (t : TState) (r : nat) : option (Z * D) :=
  match committed t with
  | Some c => (fun a => (c, acc_data a)) <$> find_row r (W t)
  | None => None
  end.

Abbreviation effect := (Serial.effect written).
Abbreviation serial := (Serial.serial written).

Definition versions (db : Store D) (r : nat) : Z * D := (rs_tid (db r), rs_data (db r)).

(** ** Views of a transaction *)

(** The accesses whose rows it has latched. *)
Definition locked (t : TState) : list (Access D) :=
  match t_pc t with
  | Locking k => take k (W t)
  | Reading _ | Checking _ => W t
  | Committing k _ => drop k (W t)
  | Aborting j n => drop j (take n (W t))
  | _ => []
  end.

(** Those that are known to be at the TID it has seen. *)
Definition clean (t : TState) : list (Access D) :=
  match t_pc t with
  | Locking k => take k (W t)
  | Reading _ | Checking _ => W t
  | Committing k _ => drop k (W t)
  | _ => []
  end.

Definition in_log (t : TState) : bool :=
  match t_pc t with Reading _ | Checking _ | Committing _ _ | Done _ => true | _ => false end.

(** The accesses that are validated at the lock point. *)
Definition checked (t : TState) : list (Access D) :=
  match t_pc t with
  | Reading k => W t ++ take k (R t)
  | Checking _ | Committing _ _ | Done _ => W t ++ R t
  | _ => []
  end.

Abbreviation rows := (fmap acc_row).

(** ** The invariant *)

Record inv (v0 : nat -> Z * D) (s : State) : Prop := {
  i_latch r i : rs_latch (st_db s r) = Some i <-> r ∈ rows (locked (st_txn s i));
  i_nodup i : NoDup (rows (locked (st_txn s i)));
  i_nodupW i : in_log (st_txn s i) = true -> NoDup (rows (W (st_txn s i)));
  i_log i : i ∈ st_log s <-> in_log (st_txn s i) = true;
  i_lognd : NoDup (st_log s);
  i_acc i a : a ∈ t_acc (st_txn s i) ->
    acc_tid a <= rs_tid (st_db s (acc_row a)) /\
    (rs_tid (st_db s (acc_row a)) = acc_tid a -> rs_data (st_db s (acc_row a)) = acc_read a);
  i_clean i a : a ∈ clean (st_txn s i) -> rs_tid (st_db s (acc_row a)) = acc_tid a;
  i_cts i c : committed (st_txn s i) = Some c -> Forall (fun a => acc_tid a < c) (W (st_txn s i));
  i_cur r : (forall i c, committed (st_txn s i) = Some c -> r ∉ rows (locked (st_txn s i))) ->
    serial (st_txn s) (st_log s) v0 r = versions (st_db s) r;
  i_pend i c a : committed (st_txn s i) = Some c -> a ∈ locked (st_txn s i) ->
    serial (st_txn s) (st_log s) v0 (acc_row a) = (c, acc_data a);
  i_free l1 m l2 j a : st_log s = l1 ++ m :: l2 -> j ∈ l1 -> committed (st_txn s j) = None ->
    a ∈ checked (st_txn s m) -> acc_row a ∉ rows (W (st_txn s j));
  i_read l1 m l2 a : st_log s = l1 ++ m :: l2 -> a ∈ checked (st_txn s m) ->
    serial (st_txn s) l1 v0 (acc_row a) = (acc_tid a, acc_read a);
  i_after l1 j l2 m c a : st_log s = l1 ++ j :: l2 -> m ∈ l2 -> committed (st_txn s m) = Some c ->
    a ∈ t_acc (st_txn s j) -> acc_row a ∈ rows (W (st_txn s m)) -> acc_tid a < c;
}.

(** ** Lemmas on lists and on the serial execution *)

Lemma find_row_Some r l a : find_row r l = Some a -> a ∈ l /\ acc_row a = r.
Proof using Type.
  induction l as [|b l IH]; cbn; [done|]. case_decide as Hb.
  - intros [= ->]. split; [by left|done].
  - intros [? ?]%IH. split; [by right|done].
Qed.

Lemma find_row_None r l : find_row r l = None <-> r ∉ rows l.
Proof using pk.
  induction l as [|b l IH]; cbn; [set_solver|]. rewrite not_elem_of_cons. case_decide.
  - split; [done|]. intros [? _]. congruence.
  - rewrite IH. split; [|by intros [_ ?]]. intros ?. split; [congruence|done].
Qed.

Lemma find_row_nodup l a : NoDup (rows l) -> a ∈ l -> find_row (acc_row a) l = Some a.
Proof using pk.
  induction l as [|b l IH]; cbn; [set_solver|].
  intros [Hb Hnd]%NoDup_cons [->|Ha]%elem_of_cons; [by rewrite decide_True|].
  rewrite decide_False; [by apply IH|]. intros E. apply Hb. rewrite E. by apply list_elem_of_fmap_2.
Qed.

(** Committed transactions that write a row. *)
Definition writes (t : TState) (r : nat) : Prop := is_Some (committed t) /\ r ∈ rows (W t).

Lemma written_None t r : ~ writes t r -> written t r = None.
Proof using pk.
  unfold writes, written. destruct (committed t) as [c|]; [|done]. intros Hn.
  rewrite (proj2 (find_row_None r (W t))); [done|]. intros Hr. apply Hn. eauto.
Qed.

Lemma effect_other t v r : ~ writes t r -> effect t v r = v r.
Proof using pk. intros H. unfold effect. by rewrite written_None. Qed.

Lemma written_same t t' r :
  committed t = committed t' -> (is_Some (committed t) -> W t = W t') -> written t r = written t' r.
Proof using pk.
  unfold written. intros <- HW. destruct (committed t) as [c|]; [|done]. by rewrite <- HW by eauto.
Qed.

Lemma serial_unwritten T l v r : (forall x, x ∈ l -> ~ writes (T x) r) -> serial T l v r = v r.
Proof using pk. intros H. apply serial_skip. intros x Hx. by apply written_None, H. Qed.

(** The version of a row is that of its last writer. *)
Lemma serial_last T l v r :
  (forall x, x ∈ l -> ~ writes (T x) r) \/
  exists j c a, j ∈ l /\ committed (T j) = Some c /\ a ∈ W (T j) /\ acc_row a = r /\
    serial T l v r = (c, acc_data a).
Proof using pk.
  induction l as [|x l IH] using rev_ind; [left; set_solver|].
  rewrite serial_app, serial_cons. cbn [serial foldl]. destruct (decide (is_Some (committed (T x)))) as [[c Hc]|Hn].
  - destruct (find_row r (W (T x))) as [a|] eqn:Ef.
    + right. destruct (find_row_Some _ _ _ Ef) as [Ha Hr]. exists x, c, a. split_and!; try done.
      * apply elem_of_app. right. by left.
      * unfold effect, written. by rewrite Hc, Ef.
    + assert (~ writes (T x) r) as Hw by (intros [_ ?]; by apply find_row_None in Ef).
      rewrite effect_other by done. destruct IH as [IH|(j & c' & a & ? & ?)].
      * left. intros y [Hy| ->%list_elem_of_singleton]%elem_of_app; [by apply IH|done].
      * right. exists j, c', a. split; [apply elem_of_app; by left|done].
  - assert (~ writes (T x) r) as Hw by (by intros [? _]).
    rewrite effect_other by done. destruct IH as [IH|(j & c' & a & ? & ?)].
    + left. intros y [Hy| ->%list_elem_of_singleton]%elem_of_app; [by apply IH|done].
    + right. exists j, c', a. split; [apply elem_of_app; by left|done].
Qed.

(** *** Views *)

Lemma committed_in_log t c : committed t = Some c -> in_log t = true.
Proof using pk. unfold committed, in_log. by destruct (t_pc t). Qed.

Lemma clean_locked t a : a ∈ clean t -> a ∈ locked t.
Proof using pk. unfold clean, locked. destruct (t_pc t); set_solver. Qed.

Lemma uncommitted_locked t : in_log t = true -> committed t = None -> locked t = W t.
Proof using pk. unfold in_log, committed, locked. by destruct (t_pc t). Qed.

Lemma W_acc t a : a ∈ W t -> a ∈ t_acc t.
Proof using pk. unfold W. by intros [_ ?]%elem_of_write_set. Qed.

Lemma R_acc t a : a ∈ R t -> a ∈ t_acc t.
Proof using pk. unfold R. by intros [_ ?]%elem_of_read_set. Qed.

Lemma elem_of_take {A} (x : A) k l : x ∈ take k l -> x ∈ l.
Proof using Type. intros H. rewrite <- (take_drop k l). apply elem_of_app. by left. Qed.

Lemma elem_of_drop {A} (x : A) k l : x ∈ drop k l -> x ∈ l.
Proof using Type. intros H. rewrite <- (take_drop k l). apply elem_of_app. by right. Qed.

Lemma checked_acc t a : a ∈ checked t -> a ∈ t_acc t.
Proof using pk.
  unfold checked. destruct (t_pc t); try set_solver; intros [H|H]%elem_of_app;
    try (by apply W_acc); apply R_acc; [by eapply elem_of_take|done..].
Qed.

Lemma W_checked t a : in_log t = true -> a ∈ W t -> a ∈ checked t.
Proof using pk. unfold in_log, checked. destruct (t_pc t); try done; intros _ H; apply elem_of_app; by left. Qed.

Lemma locked_W t a : a ∈ locked t -> a ∈ W t.
Proof using pk.
  unfold locked. destruct (t_pc t); try set_solver; intros H;
    repeat first [apply elem_of_drop in H | apply elem_of_take in H]; done.
Qed.
(** ** Preservation *)

Section Preservation.
Context (v0 : nat -> Z * D).
Implicit Types (db : Store D) (T : Z -> TState) (l : list Z) (a b : Access D).

(** A latched row has one holder. *)
Lemma holder_unique s i j a b :
  inv v0 s -> a ∈ locked (st_txn s i) -> b ∈ locked (st_txn s j) -> acc_row a = acc_row b -> i = j.
Proof using pk.
  intros H Ha Hb E. assert (rs_latch (st_db s (acc_row a)) = Some i) as H1
    by (apply (i_latch _ _ H); by apply list_elem_of_fmap_2).
  assert (rs_latch (st_db s (acc_row a)) = Some j) as H2
    by (apply (i_latch _ _ H); rewrite E; by apply list_elem_of_fmap_2).
  congruence.
Qed.

(** A row that no committed transaction has latched is at its last version. *)
Lemma current s i a :
  inv v0 s -> committed (st_txn s i) = None -> a ∈ locked (st_txn s i) ->
  serial (st_txn s) (st_log s) v0 (acc_row a) = versions (st_db s) (acc_row a).
Proof using pk.
  intros H Hi Ha. apply (i_cur _ _ H). intros j c Hj (b & E & Hb)%list_elem_of_fmap.
  assert (i = j) as -> by (by eapply holder_unique). congruence.
Qed.

Lemma current_unlatched s r :
  inv v0 s -> rs_latch (st_db s r) = None ->
  serial (st_txn s) (st_log s) v0 r = versions (st_db s) r.
Proof using pk.
  intros H Hl. apply (i_cur _ _ H). intros j c _ Hj%(i_latch _ _ H). congruence.
Qed.

(** The version a transaction has seen, when the row is still at its TID. *)
Lemma seen s i a :
  inv v0 s -> a ∈ t_acc (st_txn s i) -> rs_tid (st_db s (acc_row a)) = acc_tid a ->
  versions (st_db s) (acc_row a) = (acc_tid a, acc_read a).
Proof using pk.
  intros H Ha Ht. destruct (i_acc _ _ H i a Ha) as [_ Hd]. unfold versions. by rewrite Ht, (Hd Ht).
Qed.

(** A row is free of the uncommitted transactions of the log when its latch is
    free or held by a transaction outside them. *)
Lemma free_row s l1 i (a : Access D) :
  inv v0 s -> (forall j, j ∈ l1 -> j ∈ st_log s) ->
  (rs_latch (st_db s (acc_row a)) = None \/ rs_latch (st_db s (acc_row a)) = Some i /\ i ∉ l1) ->
  forall j, j ∈ l1 -> committed (st_txn s j) = None -> acc_row a ∉ rows (W (st_txn s j)).
Proof using pk.
  intros H Hl Hlat j Hj Hc Hin. pose proof (Hl _ Hj) as Hlog%(i_log _ _ H).
  rewrite <- (uncommitted_locked _ Hlog Hc) in Hin. apply (i_latch _ _ H) in Hin.
  destruct Hlat as [|[? ?]]; [congruence|]. rewrite Hin in H0. injection H0 as ->. done.
Qed.

(** Steps that leave the versions, the log and the commits alone. *)
Lemma inv_views db db' T T' l :
  inv v0 (mkState db T l) ->
  (forall r, versions db' r = versions db r) ->
  (forall r i, rs_latch (db' r) = Some i <-> r ∈ rows (locked (T' i))) ->
  (forall i, NoDup (rows (locked (T' i)))) ->
  (forall i, committed (T' i) = committed (T i)) ->
  (forall i, in_log (T' i) = in_log (T i)) ->
  (forall i, in_log (T i) = true -> t_acc (T' i) = t_acc (T i)) ->
  (forall i c, committed (T i) = Some c -> locked (T' i) = locked (T i)) ->
  (forall i a, a ∈ t_acc (T' i) ->
     acc_tid a <= rs_tid (db (acc_row a)) /\
     (rs_tid (db (acc_row a)) = acc_tid a -> rs_data (db (acc_row a)) = acc_read a)) ->
  (forall i a, a ∈ clean (T' i) -> rs_tid (db (acc_row a)) = acc_tid a) ->
  (forall l1 m l2 a, l = l1 ++ m :: l2 -> a ∈ checked (T' m) ->
     a ∈ checked (T m) \/
     (forall j, j ∈ l1 -> committed (T j) = None -> acc_row a ∉ rows (W (T j))) /\
     serial T l1 v0 (acc_row a) = (acc_tid a, acc_read a)) ->
  inv v0 (mkState db' T' l).
Proof using pk.
  intros H Hv Hlat Hnd Hcom Hlog Hacc Hlk Hacc' Hcl Hck.
  assert (forall i, in_log (T i) = true -> W (T' i) = W (T i)) as HW
    by (intros i Hi; unfold W; by rewrite Hacc).
  assert (forall i, i ∈ l -> in_log (T i) = true) as Hin by (intros i Hi; by apply (i_log _ _ H)).
  assert (forall k v r, (forall x, x ∈ k -> x ∈ l) -> serial T' k v r = serial T k v r) as Hser.
  { intros k v r Hk. apply serial_same. intros x Hx. apply written_same; [by rewrite Hcom|]. intros _.
    apply HW. auto. }
  assert (forall r, rs_tid (db' r) = rs_tid (db r)) as Htid
    by (intros r; specialize (Hv r); unfold versions in Hv; congruence).
  assert (forall r, rs_data (db' r) = rs_data (db r)) as Hdat
    by (intros r; specialize (Hv r); unfold versions in Hv; congruence).
  assert (forall l1 m l2, l = l1 ++ m :: l2 -> forall x, x ∈ l1 -> x ∈ l) as Hpre
    by (intros l1 m l2 -> x Hx; apply elem_of_app; by left).
  assert (forall l1 m l2, l = l1 ++ m :: l2 -> forall x, x ∈ m :: l2 -> x ∈ l) as Hsuf
    by (intros l1 m l2 -> x Hx; apply elem_of_app; by right).
  split; cbn [st_db st_txn st_log].
  - done.
  - done.
  - intros i Hi. rewrite Hlog in Hi. rewrite HW by done. by apply (i_nodupW _ _ H).
  - intros i. rewrite Hlog. apply (i_log _ _ H).
  - apply (i_lognd _ _ H).
  - intros i a Ha. rewrite Htid, Hdat. eauto.
  - intros i a Ha. rewrite Htid. eauto.
  - intros i c Hc. rewrite Hcom in Hc. rewrite HW by (by eapply committed_in_log).
    by apply (i_cts _ _ H i c).
  - intros r Hr. rewrite Hser, Hv by done. apply (i_cur _ _ H). intros i c Hc. cbn.
    rewrite <- (Hlk i c Hc). apply (Hr i c). by rewrite Hcom.
  - intros i c a Hc Ha. rewrite Hcom in Hc. rewrite (Hlk i c Hc) in Ha. rewrite Hser by done.
    by apply (i_pend _ _ H i).
  - intros l1 m l2 j a E Hj Hc Ha. rewrite Hcom in Hc.
    rewrite HW by (apply Hin; by eapply Hpre).
    destruct (Hck _ _ _ _ E Ha) as [Ha'|[Hf _]]; [by eapply (i_free _ _ H l1 m l2)|auto].
  - intros l1 m l2 a E Ha. rewrite Hser by (by eapply Hpre).
    destruct (Hck _ _ _ _ E Ha) as [Ha'|[_ Hs]]; [by eapply (i_read _ _ H l1 m l2)|done].
  - intros l1 j l2 m c a E Hm Hc Ha Hin'. rewrite Hcom in Hc.
    rewrite HW in Hin' by (by eapply committed_in_log).
    rewrite Hacc in Ha by (apply Hin; eapply Hsuf; [done|by left]).
    by eapply (i_after _ _ H l1 j l2 m).
Qed.

(** The special case of a step of one transaction that touches no row. *)
Lemma inv_pc db T l i t' :
  inv v0 (mkState db T l) ->
  locked t' = locked (T i) -> committed t' = committed (T i) -> in_log t' = in_log (T i) ->
  (in_log (T i) = true -> t_acc t' = t_acc (T i)) ->
  (forall a, a ∈ t_acc t' ->
     acc_tid a <= rs_tid (db (acc_row a)) /\
     (rs_tid (db (acc_row a)) = acc_tid a -> rs_data (db (acc_row a)) = acc_read a)) ->
  (forall a, a ∈ clean t' -> a ∈ clean (T i)) ->
  (forall l1 l2 a, l = l1 ++ i :: l2 -> a ∈ checked t' ->
     a ∈ checked (T i) \/
     (forall j, j ∈ l1 -> committed (T j) = None -> acc_row a ∉ rows (W (T j))) /\
     serial T l1 v0 (acc_row a) = (acc_tid a, acc_read a)) ->
  inv v0 (mkState db (fset i t' T) l).
Proof using pk.
  intros H Hlk Hcom Hlog Hacc Hacc' Hcl Hck.
  assert (forall x, locked (fset i t' T x) = locked (T x)) as Hl
    by (intros x; unfold fset; case_decide; by subst).
  apply (inv_views db db T); [done|done| | | | | | | | |].
  - intros r x. rewrite Hl. apply (i_latch _ _ H).
  - intros x. rewrite Hl. apply (i_nodup _ _ H).
  - intros x. unfold fset. case_decide; by subst.
  - intros x. unfold fset. case_decide; by subst.
  - intros x. unfold fset. case_decide; subst; auto.
  - intros x c _. apply Hl.
  - intros x a. unfold fset. case_decide; [apply Hacc'|apply (i_acc _ _ H)].
  - intros x a. unfold fset. case_decide; [subst; intros Ha%Hcl|intros Ha]; by apply (i_clean _ _ H) in Ha.
  - intros l1 m l2 a E. unfold fset. case_decide as Hm; [subst m|auto]. apply (Hck l1 l2 a E).
Qed.

(** Locking the next row of the write set. *)
Lemma inv_lock db T l i k a row :
  inv v0 (mkState db T l) -> t_pc (T i) = Locking k -> W (T i) !! k = Some a ->
  try_lock i (db (acc_row a)) = Some row ->
  inv v0 (mkState (fset (acc_row a) row db)
    (fset i (at_pc (T i) (if get_tid row =? acc_tid a then Locking (S k) else Aborting 0 (S k))) T) l).
Proof using pk.
  intros H Hpc Ha Ht. unfold try_lock in Ht. destruct (rs_latch (db (acc_row a))) eqn:El; [done|].
  injection Ht as <-. unfold get_tid. cbn [rs_tid]. set (t' := at_pc _ _).
  assert (locked t' = locked (T i) ++ [a]) as Hlk.
  { transitivity (take (S k) (W (T i))).
    - unfold t', locked. by destruct (_ =? _).
    - unfold locked. rewrite Hpc. by apply take_S_r. }
  assert (committed t' = None /\ in_log t' = false /\ checked t' = []) as (Hc' & Hl' & Hk')
    by (unfold t', committed, in_log, checked; cbn; by destruct (_ =? _)).
  assert (committed (T i) = None /\ in_log (T i) = false) as (Hc & Hl)
    by (unfold committed, in_log; by rewrite Hpc).
  assert (forall b, b ∈ clean t' ->
    b ∈ clean (T i) \/ b = a /\ rs_tid (db (acc_row a)) = acc_tid a) as Hcl.
  { intros b. unfold t', clean at 1.
    destruct (Z.eqb_spec (rs_tid (db (acc_row a))) (acc_tid a)) as [Ht|]; cbn; [|set_solver].
    change (b ∈ take (S k) (W (T i)) -> b ∈ clean (T i) \/ b = a /\ rs_tid (db (acc_row a)) = acc_tid a).
    rewrite (take_S_r _ _ a) by done. unfold clean. rewrite Hpc.
    intros [Hb| ->%list_elem_of_singleton]%elem_of_app; auto. }
  assert (acc_row a ∉ rows (locked (T i))) as Hna.
  { intros Hin%(i_latch _ _ H). cbn in Hin. congruence. }
  apply (inv_views db _ T); [done| | | | | | | | | |].
  - intros r. unfold versions, fset. by case_decide; subst.
  - intros r x. unfold fset, fset. case_decide as Hr; case_decide as Hx; subst; cbn.
    + rewrite Hlk, fmap_app. split; [|done]. intros _. apply elem_of_app. right. by left.
    + split; [congruence|]. intros Hin%(i_latch _ _ H). cbn in Hin. congruence.
    + rewrite (i_latch _ _ H), Hlk, fmap_app, elem_of_app. cbn. rewrite elem_of_cons. set_solver.
    + apply (i_latch _ _ H).
  - intros x. unfold fset. case_decide; [|apply (i_nodup _ _ H)]. rewrite Hlk, fmap_app.
    apply NoDup_app. split_and!; [apply (i_nodup _ _ H)| |apply NoDup_singleton].
    intros r Hr ->%list_elem_of_singleton. done.
  - intros x. unfold fset. case_decide; [subst; congruence|done].
  - intros x. unfold fset. case_decide; [subst; congruence|done].
  - intros x Hx. unfold fset. case_decide; [subst; congruence|done].
  - intros x c Hx. unfold fset. case_decide; [subst; congruence|done].
  - intros x b. unfold fset. case_decide; [subst; apply (i_acc _ _ H)|apply (i_acc _ _ H)].
  - intros x b. unfold fset. case_decide; [subst x|by apply (i_clean _ _ H)].
    intros [Hb|[-> Ht]]%Hcl; [by apply (i_clean _ _ H i)|done].
  - intros l1 m l2 b _. unfold fset. case_decide; [|auto]. rewrite Hk'. set_solver.
Qed.

(** Releasing a row of the write set of an aborting transaction. *)
Lemma inv_release db T l i j n a :
  inv v0 (mkState db T l) -> t_pc (T i) = Aborting j n -> (j < n)%nat -> W (T i) !! j = Some a ->
  inv v0 (mkState (fset (acc_row a) (release (db (acc_row a))) db)
    (fset i (at_pc (T i) (Aborting (S j) n)) T) l).
Proof using pk.
  intros H Hpc Hj Ha. set (t' := at_pc _ _).
  assert (locked (T i) = a :: locked t') as Hlk.
  { unfold locked at 1. rewrite Hpc. apply (drop_S (take n (W (T i)))). by rewrite lookup_take_lt. }
  assert (committed (T i) = None /\ in_log (T i) = false) as (Hc & Hl)
    by (unfold committed, in_log; by rewrite Hpc).
  pose proof (i_nodup _ _ H i) as Hnd. cbn in Hnd. rewrite Hlk in Hnd. cbn in Hnd.
  apply NoDup_cons in Hnd as [Hna Hnd].
  assert (rs_latch (db (acc_row a)) = Some i) as Hlat.
  { apply (i_latch _ _ H). cbn. rewrite Hlk. by left. }
  apply (inv_views db _ T); [done| | | | | | | | | |].
  - intros r. unfold versions, fset. by case_decide; subst.
  - intros r x. unfold fset, fset. case_decide as Hr; case_decide as Hx; subst; cbn.
    + done.
    + split; [done|]. intros Hin%(i_latch _ _ H). cbn in Hin. congruence.
    + rewrite (i_latch _ _ H). cbn. rewrite Hlk. cbn. rewrite elem_of_cons. tauto.
    + apply (i_latch _ _ H).
  - intros x. unfold fset. case_decide; [done|apply (i_nodup _ _ H)].
  - intros x. unfold fset. case_decide; [subst; by rewrite Hc|done].
  - intros x. unfold fset. case_decide; [subst; by rewrite Hl|done].
  - intros x Hx. unfold fset. case_decide; [subst; congruence|done].
  - intros x c Hx. unfold fset. case_decide; [subst; congruence|done].
  - intros x b. unfold fset. case_decide; [subst; apply (i_acc _ _ H)|apply (i_acc _ _ H)].
  - intros x b. unfold fset. case_decide; [|by apply (i_clean _ _ H)]. unfold clean. cbn. set_solver.
  - intros l1 m l2 b _. unfold fset. case_decide; [|auto]. unfold checked. cbn. set_solver.
Qed.

(** The lock point. *)
Lemma inv_locked db T l i :
  inv v0 (mkState db T l) -> t_pc (T i) = Locking (length (W (T i))) ->
  inv v0 (mkState db (fset i (at_pc (T i) (Reading 0)) T) (l ++ [i])).
Proof using pk.
  intros H Hpc. set (t' := at_pc _ _).
  assert (locked (T i) = W (T i)) as Hlk by (unfold locked; by rewrite Hpc, firstn_all).
  assert (clean (T i) = W (T i)) as Hcl by (unfold clean; by rewrite Hpc, firstn_all).
  assert (committed (T i) = None /\ in_log (T i) = false) as (Hc & Hl)
    by (unfold committed, in_log; by rewrite Hpc).
  assert (i ∉ l) as Hni by (rewrite (i_log _ _ H); cbn; by rewrite Hl).
  assert (forall x, locked (fset i t' T x) = locked (T x)) as Hlk'
    by (intros x; unfold fset; case_decide; subst; done).
  assert (forall x, committed (fset i t' T x) = committed (T x)) as Hc'
    by (intros x; unfold fset; case_decide; subst; done).
  assert (forall x, t_acc (fset i t' T x) = t_acc (T x)) as Ha'
    by (intros x; unfold fset; case_decide; subst; done).
  assert (forall x, W (fset i t' T x) = W (T x)) as HW' by (intros x; unfold W; by rewrite Ha').
  assert (forall k v r, serial (fset i t' T) k v r = serial T k v r) as Hser
    by (intros k v r; apply serial_same; intros x _; apply written_same; by rewrite ?Hc', ?HW').
  assert (forall v r, serial (fset i t' T) (l ++ [i]) v r = serial T l v r) as Hser'.
  { intros v r. rewrite Hser, serial_app, serial_cons. cbn. apply effect_other.
    intros [[c Hcc] _]. congruence. }
  assert (forall m, m <> i -> checked (fset i t' T m) = checked (T m)) as Hck
    by (intros m Hm; by rewrite fset_ne).
  assert (forall a, a ∈ checked t' -> a ∈ W (T i)) as Hcki.
  { intros a. unfold checked, t'. cbn. by rewrite app_nil_r. }
  split; cbn [st_db st_txn st_log].
  - intros r x. rewrite Hlk'. apply (i_latch _ _ H).
  - intros x. rewrite Hlk'. apply (i_nodup _ _ H).
  - intros x. rewrite HW'. unfold fset. case_decide; [subst x|apply (i_nodupW _ _ H)].
    intros _. rewrite <- Hlk. apply (i_nodup _ _ H).
  - intros x. rewrite elem_of_app, list_elem_of_singleton, (i_log _ _ H). cbn. unfold fset.
    case_decide; subst; [tauto|naive_solver].
  - apply NoDup_app. split_and!; [apply (i_lognd _ _ H)| |apply NoDup_singleton].
    intros x Hx ->%list_elem_of_singleton. done.
  - intros x a. rewrite Ha'. apply (i_acc _ _ H).
  - intros x a. unfold fset. case_decide; [subst x|apply (i_clean _ _ H)]. intros Ha.
    apply (i_clean _ _ H i). cbn. by rewrite Hcl.
  - intros x c. rewrite Hc', HW'. apply (i_cts _ _ H).
  - intros r Hr. rewrite Hser'. apply (i_cur _ _ H). intros x c Hx. cbn. rewrite <- Hlk'.
    apply (Hr x c). by rewrite Hc'.
  - intros x c a. rewrite Hc', Hlk', Hser'. apply (i_pend _ _ H).
  - intros l1 m l2 j a E Hj. rewrite Hc', HW'. intros Hjc Ha.
    apply snoc_split in E as [(-> & -> & ->)|(l2' & -> & E)].
    + rewrite fset_eq in Ha. apply Hcki in Ha.
      apply (free_row (mkState db T l) l i); [done|done| |done|done]. right. split; [|done].
      apply (i_latch _ _ H). cbn. rewrite Hlk. by apply list_elem_of_fmap_2.
    + rewrite Hck in Ha.
      * by eapply (i_free _ _ H l1 m l2').
      * intros ->. apply Hni. rewrite E. apply elem_of_app. right. by left.
  - intros l1 m l2 a E. rewrite Hser. intros Ha.
    apply snoc_split in E as [(-> & -> & ->)|(l2' & -> & E)].
    + rewrite fset_eq in Ha. apply Hcki in Ha.
      rewrite <- (seen (mkState db T l) i a); [|done|by apply W_acc|].
      * apply (current (mkState db T l) i); [done|done|]. cbn. by rewrite Hlk.
      * apply (i_clean _ _ H i). cbn. by rewrite Hcl.
    + rewrite Hck in Ha.
      * by eapply (i_read _ _ H l1 m l2').
      * intros ->. apply Hni. rewrite E. apply elem_of_app. right. by left.
  - intros l1 j l2 m c a E Hm. rewrite Hc', Ha', HW'. intros Hmc Ha Hr.
    apply snoc_split in E as [(-> & _)|(l2' & -> & E)]; [by apply elem_of_nil in Hm|].
    apply elem_of_app in Hm as [Hm| ->%list_elem_of_singleton]; [|congruence].
    by eapply (i_after _ _ H l1 j l2' m).
Qed.

(** A row of the read set validates. *)
Lemma inv_read db T l i k a :
  inv v0 (mkState db T l) -> t_pc (T i) = Reading k -> R (T i) !! k = Some a ->
  row_validate i (acc_tid a) false (db (acc_row a)) = true ->
  inv v0 (mkState db (fset i (at_pc (T i) (Reading (S k))) T) l).
Proof using pk.
  intros H Hpc Ha [Ht Hlat]%row_validate_spec. specialize (Hlat eq_refl).
  assert (a ∈ t_acc (T i)) as Hacc by (by apply R_acc; eapply list_elem_of_lookup_2).
  assert (committed (T i) = None) as Hc by (unfold committed; by rewrite Hpc).
  apply inv_pc; [done|by unfold locked; rewrite Hpc|by unfold committed; rewrite Hpc| |done| | |].
  - unfold in_log. by rewrite Hpc.
  - intros b. apply (i_acc _ _ H i).
  - intros b. unfold clean. by rewrite Hpc.
  - intros l1 l2 b El Hb.
    assert (b ∈ checked (T i) \/ b = a) as [| -> ]; [|by left|].
    { revert Hb. unfold checked at 1. cbn [t_pc at_pc].
      change (b ∈ W (T i) ++ take (S k) (R (T i)) -> b ∈ checked (T i) \/ b = a).
      rewrite (take_S_r _ _ a) by done. unfold checked. rewrite Hpc.
      rewrite !elem_of_app, list_elem_of_singleton. tauto. }
    right. split.
    + intros j. apply (free_row (mkState db T l) l1 i); [done| |by left].
      intros x Hx. cbn. rewrite El. apply elem_of_app. by left.
    + rewrite <- (seen (mkState db T l) i a) by done.
      rewrite <- (current_unlatched (mkState db T l) (acc_row a)) by done. cbn [st_txn st_log].
      rewrite El, serial_app. destruct (serial_last T (i :: l2) (serial T l1 v0) (acc_row a))
        as [Hn|(j & c & w & Hj & Hjc & Hw & Hwr & Hs)].
      { symmetry. by apply serial_unwritten. }
      exfalso. apply elem_of_cons in Hj as [->|Hj]; [congruence|].
      pose proof (current_unlatched (mkState db T l) (acc_row a) H Hlat) as Hcur. cbn [st_txn st_log st_db] in Hcur.
      rewrite El, serial_app, Hs in Hcur.
      assert (acc_tid a < c) as Hlt.
      { apply (i_after _ _ H l1 i l2 j c a); [done..|]. cbn. rewrite <- Hwr. by apply list_elem_of_fmap_2. }
      unfold versions in Hcur. injection Hcur as Hcur _. lia.
Qed.

(** Validation succeeds: the transaction commits. *)
Lemma inv_validated db T l i cts :
  inv v0 (mkState db T l) -> t_pc (T i) = Checking (length (W (T i))) ->
  Forall (fun a => acc_tid a < cts) (t_acc (T i)) ->
  inv v0 (mkState db (fset i (at_pc (T i) (Committing 0 cts)) T) l).
Proof using pk.
  intros H Hpc Hcts. set (t' := at_pc _ _). rewrite Forall_forall in Hcts.
  assert (locked (T i) = W (T i) /\ clean (T i) = W (T i)) as [Hlk Hcl]
    by (unfold locked, clean; by rewrite Hpc).
  assert (committed (T i) = None /\ in_log (T i) = true) as (Hc & Hl)
    by (unfold committed, in_log; by rewrite Hpc).
  assert (forall x, locked (fset i t' T x) = locked (T x)) as Hlk'
    by (intros x; unfold fset; case_decide; subst; [by rewrite Hlk|done]).
  assert (forall x, clean (fset i t' T x) = clean (T x)) as Hcl'
    by (intros x; unfold fset; case_decide; subst; [by rewrite Hcl|done]).
  assert (forall x, in_log (fset i t' T x) = in_log (T x)) as Hl'
    by (intros x; unfold fset; case_decide; subst; [by rewrite Hl|done]).
  assert (forall x, t_acc (fset i t' T x) = t_acc (T x)) as Ha'
    by (intros x; unfold fset; case_decide; subst; done).
  assert (forall x, W (fset i t' T x) = W (T x)) as HW' by (intros x; unfold W; by rewrite Ha').
  assert (forall x, checked (fset i t' T x) = checked (T x)) as Hck'
    by (intros x; unfold fset; case_decide; subst; [unfold checked; by rewrite Hpc|done]).
  assert (forall x, x <> i -> committed (fset i t' T x) = committed (T x)) as Hc'
    by (intros x Hx; by rewrite fset_ne).
  assert (committed (fset i t' T i) = Some cts) as Hci by (by rewrite fset_eq).
  (* rows the transaction does not write keep their version *)
  assert (forall k v r, (i ∈ k -> r ∉ rows (W (T i))) ->
    serial (fset i t' T) k v r = serial T k v r) as Hser.
  { intros k v r Hr. apply serial_row; [done|]. intros x Hx.
    destruct (decide (x = i)) as [->|Hne].
    - specialize (Hr Hx). rewrite !written_None; [done| |].
      + by intros [_ ?].
      + rewrite fset_eq. by intros [_ ?].
    - apply written_same; [by apply Hc'|by rewrite HW']. }
  assert (forall r, (forall j c, committed (fset i t' T j) = Some c -> r ∉ rows (locked (T j))) ->
    r ∉ rows (W (T i))) as Hout by (intros r Hr; rewrite <- Hlk; by apply (Hr i cts)).
  assert (i ∈ l) as Hil by (by apply (i_log _ _ H)).
  split; cbn [st_db st_txn st_log].
  - intros r x. rewrite Hlk'. apply (i_latch _ _ H).
  - intros x. rewrite Hlk'. apply (i_nodup _ _ H).
  - intros x. rewrite Hl', HW'. apply (i_nodupW _ _ H).
  - intros x. rewrite Hl'. apply (i_log _ _ H).
  - apply (i_lognd _ _ H).
  - intros x a. rewrite Ha'. apply (i_acc _ _ H).
  - intros x a. rewrite Hcl'. apply (i_clean _ _ H).
  - intros x c Hx. rewrite HW'. destruct (decide (x = i)) as [->|Hne].
    + rewrite Hci in Hx. injection Hx as <-. apply Forall_forall. intros a Ha. by apply Hcts, W_acc.
    + rewrite Hc' in Hx by done. by apply (i_cts _ _ H x).
  - intros r Hr. setoid_rewrite Hlk' in Hr. rewrite Hser by (intros _; by apply Hout).
    apply (i_cur _ _ H). intros j c Hj. apply (Hr j c). cbn in Hj.
    destruct (decide (j = i)) as [->|]; [congruence|by rewrite Hc'].
  - intros x c a Hx Ha. rewrite Hlk' in Ha. destruct (decide (x = i)) as [->|Hne].
    + rewrite Hci in Hx. injection Hx as <-. rewrite Hlk in Ha.
      apply list_elem_of_split in Hil as (l1 & l2 & El). rewrite El, serial_app, serial_cons.
      rewrite serial_unwritten.
      * rewrite fset_eq. unfold effect, written. cbn [committed t_pc t' at_pc]. change (W t') with (W (T i)).
        rewrite (find_row_nodup (W (T i))); [done| |done]. rewrite <- Hlk. apply (i_nodup _ _ H i).
      * intros m Hm [[c Hmc] Hin]. rewrite HW' in Hin.
        assert (m <> i) as Hmi.
        { intros ->. pose proof (i_lognd _ _ H) as Hnd. cbn in Hnd. rewrite El in Hnd.
          apply NoDup_app in Hnd as (_ & _ & Hnd). by apply NoDup_cons in Hnd as [? _]. }
        rewrite Hc' in Hmc by done. apply list_elem_of_fmap in Hin as (b & Eb & Hb).
        apply list_elem_of_split in Hm as (m1 & m2 & Em).
        eapply (i_free _ _ H (l1 ++ i :: m1) m m2 i b); cbn; [| |done| |].
        -- by rewrite El, Em, <- app_assoc.
        -- apply elem_of_app. right. by left.
        -- apply W_checked; [|done]. by eapply committed_in_log.
        -- rewrite <- Eb. by apply list_elem_of_fmap_2.
    + rewrite Hc' in Hx by done. rewrite Hser; [by apply (i_pend _ _ H x)|].
      intros _ (b & Eb & Hb)%list_elem_of_fmap. apply Hne. rewrite <- Hlk in Hb.
      by eapply (holder_unique (mkState db T l)).
  - intros l1 m l2 j a E Hj Hjc. rewrite Hck', HW'.
    assert (j <> i) by (intros ->; congruence). rewrite Hc' in Hjc by done.
    by eapply (i_free _ _ H l1 m l2).
  - intros l1 m l2 a E. rewrite Hck'. intros Ha. rewrite Hser; [by eapply (i_read _ _ H l1 m l2)|].
    intros Hi. by eapply (i_free _ _ H l1 m l2).
  - intros l1 j l2 m c a E Hm Hmc. rewrite Ha', HW'. intros Ha Hr.
    destruct (decide (m = i)) as [->|Hne].
    + rewrite Hci in Hmc. injection Hmc as <-. apply list_elem_of_fmap in Hr as (b & Eb & Hb).
      destruct (i_acc _ _ H j a Ha) as [Hle _]. cbn in Hle. rewrite Eb in Hle.
      pose proof (i_clean _ _ H i b) as Hbt. cbn in Hbt. rewrite Hcl in Hbt. rewrite (Hbt Hb) in Hle.
      specialize (Hcts b (W_acc _ _ Hb)). lia.
    + rewrite Hc' in Hmc by done. by eapply (i_after _ _ H l1 j l2 m).
Qed.

(** Installing the next row of the write set. *)
Lemma inv_install db T l i k cts a :
  inv v0 (mkState db T l) -> t_pc (T i) = Committing k cts -> W (T i) !! k = Some a ->
  inv v0 (mkState (fset (acc_row a) (release (write (acc_data a) cts (db (acc_row a)))) db)
    (fset i (at_pc (T i) (Committing (S k) cts)) T) l).
Proof using pk.
  intros H Hpc Ha. set (t' := at_pc _ _).
  assert (locked (T i) = a :: locked t') as Hlk.
  { unfold locked at 1. rewrite Hpc. by apply (drop_S (W (T i))). }
  assert (clean t' = locked t') as Hclt by done.
  assert (clean (T i) = locked (T i)) as Hcli by (unfold clean, locked; by rewrite Hpc).
  assert (committed (T i) = Some cts) as Hc by (unfold committed; by rewrite Hpc).
  assert (forall x, committed (fset i t' T x) = committed (T x)) as Hc'
    by (intros x; unfold fset; case_decide; subst; [by rewrite Hc|done]).
  assert (forall x, in_log (fset i t' T x) = in_log (T x)) as Hl'
    by (intros x; unfold fset; case_decide; subst; [unfold in_log; by rewrite Hpc|done]).
  assert (forall x, t_acc (fset i t' T x) = t_acc (T x)) as Ha'
    by (intros x; unfold fset; case_decide; subst; done).
  assert (forall x, W (fset i t' T x) = W (T x)) as HW' by (intros x; unfold W; by rewrite Ha').
  assert (forall x, checked (fset i t' T x) = checked (T x)) as Hck'
    by (intros x; unfold fset; case_decide; subst; [unfold checked; by rewrite Hpc|done]).
  assert (forall k v r, serial (fset i t' T) k v r = serial T k v r) as Hser
    by (intros ? v r; apply serial_same; intros x _; apply written_same; by rewrite ?Hc', ?HW').
  pose proof (i_nodup _ _ H i) as Hnd. cbn in Hnd. rewrite Hlk in Hnd. cbn in Hnd.
  apply NoDup_cons in Hnd as [Hna Hnd].
  assert (forall x b, b ∈ locked (T x) -> acc_row b = acc_row a -> x = i) as Hown.
  { intros x b Hb E. eapply (holder_unique (mkState db T l)); [done|done| |done]. cbn.
    rewrite Hlk. by left. }
  assert (forall x b, b ∈ locked (fset i t' T x) -> b ∈ locked (T x) /\ acc_row b <> acc_row a) as Hlk'.
  { intros x b. unfold fset. case_decide; [subst x|].
    - rewrite Hlk. intros Hb. split; [by right|]. intros E. apply Hna. rewrite <- E.
      by apply list_elem_of_fmap_2.
    - intros Hb. split; [done|]. intros E. by apply (Hown x b) in E. }
  assert (acc_tid a < cts) as Hlt.
  { pose proof (i_cts _ _ H i cts Hc) as HF. rewrite Forall_forall in HF. apply HF.
    by eapply list_elem_of_lookup_2. }
  assert (rs_tid (db (acc_row a)) = acc_tid a) as Htid.
  { apply (i_clean _ _ H i). cbn. rewrite Hcli, Hlk. by left. }
  split; cbn [st_db st_txn st_log].
  - intros r x. destruct (decide (r = acc_row a)) as [->|Hr].
    + rewrite fset_eq. cbn. split; [done|]. intros (b & E & Hb)%list_elem_of_fmap.
      by destruct (Hlk' x b Hb).
    + rewrite fset_ne by done. rewrite (i_latch _ _ H). cbn. unfold fset. case_decide; [subst x|done].
      rewrite Hlk. cbn. rewrite elem_of_cons. tauto.
  - intros x. unfold fset. case_decide; [done|apply (i_nodup _ _ H)].
  - intros x. rewrite Hl', HW'. apply (i_nodupW _ _ H).
  - intros x. rewrite Hl'. apply (i_log _ _ H).
  - apply (i_lognd _ _ H).
  - intros x b Hb. rewrite Ha' in Hb. destruct (i_acc _ _ H x b Hb) as [Hle Hd]. cbn in Hle, Hd.
    destruct (decide (acc_row b = acc_row a)) as [E|Hr]; [|by rewrite fset_ne].
    rewrite E in *. rewrite fset_eq. cbn. split; [lia|]. intros. lia.
  - intros x b Hb. assert (b ∈ clean (T x) /\ acc_row b <> acc_row a) as [Hcl Hr].
    { split; [|apply (Hlk' x b), clean_locked, Hb].
      revert Hb. unfold fset. case_decide; [subst x|done]. rewrite Hcli, Hclt, Hlk. intros. by right. }
    rewrite fset_ne by done. by apply (i_clean _ _ H x).
  - intros x c. rewrite Hc', HW'. apply (i_cts _ _ H).
  - intros r Hr. rewrite Hser. destruct (decide (r = acc_row a)) as [->|Hne].
    + unfold versions. rewrite fset_eq. cbn. apply (i_pend _ _ H i); [done|]. cbn. rewrite Hlk. by left.
    + unfold versions. rewrite fset_ne by done. apply (i_cur _ _ H). cbn. intros x c Hx Hin.
      apply (Hr x c); [by rewrite Hc'|]. unfold fset. case_decide; [subst x|done].
      rewrite Hlk in Hin. cbn in Hin. apply elem_of_cons in Hin as [?|?]; [done|done].
  - intros x c b. rewrite Hc', Hser. intros Hx [Hb _]%Hlk'. by apply (i_pend _ _ H x).
  - intros l1 m l2 j b E Hj. rewrite Hc', Hck', HW'. by apply (i_free _ _ H l1 m l2).
  - intros l1 m l2 b E. rewrite Hck', Hser. by apply (i_read _ _ H l1 m l2).
  - intros l1 j l2 m c b E Hm. rewrite Hc', Ha', HW'. by apply (i_after _ _ H l1 j l2 m).
Qed.

(** Giving up. *)
Lemma inv_abort db T l i n :
  inv v0 (mkState db T l) ->
  (match t_pc (T i) with
   | Running => n = 0%nat
   | Locking k => n = k
   | Reading _ | Checking _ => n = length (W (T i))
   | _ => False
   end) ->
  inv v0 (mkState db (fset i (at_pc (T i) (Aborting 0 n)) T) (drop_log i l)).
Proof using pk.
  intros H Hpc. set (t' := at_pc _ _).
  assert (locked t' = locked (T i)) as Hlk.
  { unfold t', locked at 1. cbn [t_pc at_pc]. rewrite drop_0. change (W (at_pc _ _)) with (W (T i)).
    unfold locked. destruct (t_pc (T i)); try done; subst n; by rewrite ?firstn_all. }
  assert (committed (T i) = None) as Hc by (unfold committed; by destruct (t_pc (T i))).
  assert (forall x, locked (fset i t' T x) = locked (T x)) as Hlk'
    by (intros x; unfold fset; case_decide; by subst).
  assert (forall x, committed (fset i t' T x) = committed (T x)) as Hc'
    by (intros x; unfold fset; case_decide; subst; [by rewrite Hc|done]).
  assert (forall x, t_acc (fset i t' T x) = t_acc (T x)) as Ha'
    by (intros x; unfold fset; case_decide; subst; done).
  assert (forall x, W (fset i t' T x) = W (T x)) as HW' by (intros x; unfold W; by rewrite Ha').
  assert (forall x, in_log (fset i t' T x) = true -> x <> i /\ in_log (T x) = true) as Hl'.
  { intros x. unfold fset. case_decide; [done|]. auto. }
  assert (forall k v r, serial (fset i t' T) (drop_log i k) v r = serial T k v r) as Hser.
  { intros k v r. rewrite serial_drop by (unfold written; by rewrite Hc', Hc). apply serial_same.
    intros x _. apply written_same; by rewrite ?Hc', ?HW'. }
  assert (forall m a, a ∈ checked (fset i t' T m) -> a ∈ checked (T m)) as Hck'.
  { intros m a. unfold fset. case_decide; [|done]. unfold checked. cbn. set_solver. }
  assert (forall k x, x ∈ drop_log i k <-> x <> i /\ x ∈ k) as Hdl
    by (intros k x; unfold drop_log; by rewrite list_elem_of_filter).
  split; cbn [st_db st_txn st_log].
  - intros r x. rewrite Hlk'. apply (i_latch _ _ H).
  - intros x. rewrite Hlk'. apply (i_nodup _ _ H).
  - intros x [_ Hx]%Hl'. rewrite HW'. by apply (i_nodupW _ _ H).
  - intros x. rewrite Hdl, (i_log _ _ H). cbn. split; [|apply Hl'].
    intros [Hne Hx]. by rewrite fset_ne.
  - apply NoDup_filter, (i_lognd _ _ H).
  - intros x a. rewrite Ha'. apply (i_acc _ _ H).
  - intros x a Ha. apply (i_clean _ _ H x). cbn. revert Ha. unfold fset. case_decide; [|done].
    unfold clean. cbn. set_solver.
  - intros x c. rewrite Hc', HW'. apply (i_cts _ _ H).
  - intros r Hr. rewrite Hser. apply (i_cur _ _ H). intros x c Hx. cbn. rewrite <- Hlk'.
    apply (Hr x c). by rewrite Hc'.
  - intros x c a. rewrite Hc', Hlk', Hser. apply (i_pend _ _ H).
  - intros l1 m l2 j a (k1 & k2 & -> & -> & ->)%drop_log_split [Hji Hj]%Hdl.
    rewrite Hc', HW'. intros Hjc Ha%Hck'. by eapply (i_free _ _ H k1 m k2).
  - intros l1 m l2 a (k1 & k2 & -> & -> & ->)%drop_log_split Ha%Hck'. rewrite Hser.
    by eapply (i_read _ _ H k1 m k2).
  - intros l1 j l2 m c a (k1 & k2 & -> & -> & ->)%drop_log_split [Hmi Hm]%Hdl.
    rewrite Hc', Ha', HW'. by apply (i_after _ _ H k1 j k2 m).
Qed.

Lemma inv_step s s' : inv v0 s -> step s s' -> inv v0 s'.
Proof using pk.
  intros H Hs. destruct Hs.
  - apply inv_pc; [done|unfold locked; by rewrite H0|unfold committed; by rewrite H0
      |unfold in_log; by rewrite H0|unfold in_log; by rewrite H0| |unfold clean; cbn; set_solver|].
    + cbn. intros a [Ha| ->%list_elem_of_singleton]%elem_of_app; [by apply (i_acc _ _ H i)|]. cbn.
      unfold access, try_lock in H1. destruct (rs_latch (db r)); [done|]. cbn in H1.
      injection H1 as <- <-. by split.
    + intros l1 l2 a _. unfold checked. cbn. set_solver.
  - apply inv_pc; [done|unfold locked; by rewrite H0|unfold committed; by rewrite H0
      |unfold in_log; by rewrite H0|unfold in_log; by rewrite H0| |unfold clean; cbn; set_solver|].
    + cbn. intros b Hb. pose proof (i_acc _ _ H i) as Hacc. cbn in Hacc. rewrite H1 in Hacc.
      apply elem_of_app in Hb as [Hb|[->|Hb]%elem_of_cons]; [apply Hacc, elem_of_app; by left| |].
      * cbn. apply Hacc, elem_of_app. right. by left.
      * apply Hacc, elem_of_app. right. by right.
    + intros l1 l2 b _. unfold checked. cbn. set_solver.
  - apply inv_pc; [done|unfold locked; by rewrite H0|unfold committed; by rewrite H0
      |unfold in_log; by rewrite H0|done|apply (i_acc _ _ H i)|unfold clean; cbn; set_solver|].
    intros l1 l2 b _. unfold checked. cbn. set_solver.
  - by eapply inv_lock.
  - by apply inv_locked.
  - by eapply inv_read.
  - apply inv_pc; [done|unfold locked; by rewrite H0|unfold committed; by rewrite H0
      |unfold in_log; by rewrite H0|done|apply (i_acc _ _ H i)|unfold clean; by rewrite H0|].
    intros l1 l2 b _ Hb. left. unfold checked. by rewrite H0, firstn_all.
  - apply inv_pc; [done|unfold locked; by rewrite H0|unfold committed; by rewrite H0
      |unfold in_log; by rewrite H0|done|apply (i_acc _ _ H i)|unfold clean; by rewrite H0|].
    intros l1 l2 b _ Hb. left. unfold checked. by rewrite H0.
  - by apply inv_validated.
  - by eapply inv_install.
  - apply inv_pc; [done|unfold locked; rewrite H0; by rewrite drop_all|unfold committed; by rewrite H0
      |unfold in_log; by rewrite H0|done|apply (i_acc _ _ H i)|unfold clean; cbn; set_solver|].
    intros l1 l2 b _ Hb. left. unfold checked. by rewrite H0.
  - by apply inv_abort.
  - by eapply inv_release.
  - apply inv_pc; [done| |unfold committed; by rewrite H0
      |unfold in_log; by rewrite H0|done|apply (i_acc _ _ H i)|unfold clean; cbn; set_solver|].
    + unfold locked. rewrite H0. cbn. symmetry. apply drop_ge. apply firstn_le_length.
    + intros l1 l2 b _. unfold checked. cbn. set_solver.
Qed.

End Preservation.

Lemma inv_start (db : Store D) :
  (forall r, rs_latch (db r) = None) -> inv (versions db) (start db).
Proof using pk.
  intros Hl. split; cbn; try set_solver; try done.
  - intros r i. rewrite Hl. set_solver.
  - intros. constructor.
  - constructor.
  all: by intros [|].
Qed.
End Protocol.
Arguments TState : clear implicits.
Arguments State : clear implicits.

(** ** The code takes these steps

    A run of [validate] and [finish] is a sequence of steps of its
    transaction. *)

Section Code.
Context {D : Type} (pk : nat -> Z) (i : Z).
Implicit Types (db : Store D) (T : Z -> TState D) (l : list Z) (a : Access D).

Abbreviation W := (W pk).

(** The transaction moves to [p], with its accesses, and the others stay. *)
Definition moves db T l db' l' (p : Pc) : Prop :=
  exists T', rtc (step pk) (mkState db T l) (mkState db' T' l') /\
    T' i = at_pc (T i) p /\ forall j, j <> i -> T' j = T j.

Lemma moves_refl db T l p : t_pc (T i) = p -> moves db T l db l p.
Proof using Type.
  intros Hp. exists T. split_and!; [apply rtc_refl| |done]. destruct (T i). cbn in Hp. by subst.
Qed.

(** A step to [p], and then a move from there. *)
Lemma moves_step db T l db1 l1 p db' l' p' :
  step pk (mkState db T l) (mkState db1 (fset i (at_pc (T i) p) T) l1) ->
  moves db1 (fset i (at_pc (T i) p) T) l1 db' l' p' ->
  moves db T l db' l' p'.
Proof using Type.
  intros Hs (T' & Hr & Hi & Hj). exists T'. split_and!; [by eapply rtc_l| |].
  - rewrite Hi. by rewrite fset_eq.
  - intros j Hne. rewrite (Hj j Hne). by apply fset_ne.
Qed.

Lemma moves_trans db T l db1 l1 p db' l' p' :
  moves db T l db1 l1 p ->
  (forall T1, T1 i = at_pc (T i) p -> moves db1 T1 l1 db' l' p') -> moves db T l db' l' p'.
Proof using Type.
  intros (T1 & Hr & Hi & Hj) Hn. destruct (Hn T1 Hi) as (T' & Hr' & Hi' & Hj'). exists T'.
  split_and!; [by etrans| |].
  - rewrite Hi', Hi. done.
  - intros j Hne. by rewrite Hj', Hj.
Qed.

Lemma lookup_cons_drop {A} k (x : A) (l1 l2 : list A) :
  drop k l1 = x :: l2 -> l1 !! k = Some x /\ drop (S k) l1 = l2.
Proof using Type.
  intros E. assert (l1 !! k = Some x) as Hl.
  { rewrite <- (Nat.add_0_r k), <- lookup_drop, E. done. }
  split; [done|]. rewrite (drop_S _ _ _ Hl) in E. by injection E.
Qed.

Lemma drop_nil_length {A} k (l1 : list A) : drop k l1 = [] -> (k <= length l1)%nat -> k = length l1.
Proof using Type. intros E Hk. apply (f_equal length) in E. rewrite length_drop in E. cbn in E. lia. Qed.

Lemma lock_loop_moves no_wait ws : forall k db T l,
  t_pc (T i) = Locking k -> drop k (W (T i)) = ws -> (k <= length (W (T i)))%nat -> i ∉ l ->
  match lock_loop no_wait i ws k db with
  | (AllLocked, n, db') => moves db T l db' l (Locking (length (W (T i))))
  | (LockAbort, n, db') => (n <= length (W (T i)))%nat /\ moves db T l db' l (Aborting 0 n)
  | (LockBlocked, _, _) => True
  end.
Proof using Type.
  induction ws as [|a ws IH]; intros k db T l Hp Hd Hk Hl; cbn [lock_loop].
  - apply drop_nil_length in Hd; [|done]. apply moves_refl. by rewrite <- Hd.
  - apply lookup_cons_drop in Hd as [Ha Hd]. pose proof (lookup_lt_Some _ _ _ Ha) as Hlt.
    destruct (try_lock i (db (acc_row a))) as [row|] eqn:Et.
    + pose proof (s_lock pk db T l i k a row Hp Ha Et) as Hs.
      destruct (get_tid row =? acc_tid a).
      * specialize (IH (S k) (fset (acc_row a) row db) (fset i (at_pc (T i) (Locking (S k))) T) l).
        rewrite fset_eq in IH. specialize (IH eq_refl Hd Hlt Hl).
        destruct (lock_loop _ _ _ _ _) as [[[] n] db']; [| |done].
        -- by eapply moves_step.
        -- destruct IH as [Hn IH]. split; [done|]. by eapply moves_step.
      * split; [done|]. eapply moves_step; [done|]. apply moves_refl. by rewrite fset_eq.
    + destruct no_wait; [|done]. split; [done|].
      rewrite <- (drop_log_absent _ l) at 2 by done. eapply moves_step; [apply (s_abort pk db T l i k)|].
      * by rewrite Hp.
      * apply moves_refl. by rewrite fset_eq.
Qed.

Lemma read_loop_moves rs m m' : forall k db T l,
  t_pc (T i) = Reading k -> drop k (R (T i)) = rs -> (k <= length (R (T i)))%nat ->
  validate_loop i false rs m db = Some m' ->
  moves db T l db l (Reading (length (R (T i)))).
Proof using Type.
  revert m. induction rs as [|a rs IH]; intros m k db T l Hp Hd Hk E; cbn [validate_loop] in E.
  - apply drop_nil_length in Hd; [|done]. apply moves_refl. by rewrite <- Hd.
  - apply lookup_cons_drop in Hd as [Ha Hd]. destruct (row_validate _ _ _ _) eqn:Ev; [|done].
    eapply moves_step; [by eapply (s_read pk db T l i k a)|].
    specialize (IH (if m <? acc_tid a then acc_tid a else m) (S k) db (fset i (at_pc (T i) (Reading (S k))) T) l). rewrite fset_eq in IH.
    eapply IH; [done|done| |exact E]. by eapply (lookup_lt_Some (R (T i))).
Qed.

Lemma check_loop_moves ws m m' : forall k db T l,
  t_pc (T i) = Checking k -> drop k (W (T i)) = ws -> (k <= length (W (T i)))%nat ->
  validate_loop i true ws m db = Some m' ->
  moves db T l db l (Checking (length (W (T i)))).
Proof using Type.
  revert m. induction ws as [|a ws IH]; intros m k db T l Hp Hd Hk E; cbn [validate_loop] in E.
  - apply drop_nil_length in Hd; [|done]. apply moves_refl. by rewrite <- Hd.
  - apply lookup_cons_drop in Hd as [Ha Hd]. destruct (row_validate _ _ _ _) eqn:Ev; [|done].
    eapply moves_step; [by eapply (s_check pk db T l i k a)|].
    specialize (IH (if m <? acc_tid a then acc_tid a else m) (S k) db (fset i (at_pc (T i) (Checking (S k))) T) l). rewrite fset_eq in IH.
    eapply IH; [done|done| |exact E]. by eapply (lookup_lt_Some (W (T i))).
Qed.

Lemma install_moves c ws : forall k db T l,
  t_pc (T i) = Committing k c -> drop k (W (T i)) = ws -> (k <= length (W (T i)))%nat ->
  moves db T l (install_all c ws db) l (Done c).
Proof using Type.
  induction ws as [|a ws IH]; intros k db T l Hp Hd Hk.
  - apply drop_nil_length in Hd; [|done]. subst k. eapply moves_step; [by apply s_done|].
    apply moves_refl. by rewrite fset_eq.
  - apply lookup_cons_drop in Hd as [Ha Hd]. rewrite install_all_cons.
    eapply moves_step; [by apply (s_install pk db T l i k c a)|].
    apply (IH (S k)); rewrite fset_eq; [done|done|]. by eapply (lookup_lt_Some (W (T i))).
Qed.

Lemma release_moves n ws : forall j db T l,
  t_pc (T i) = Aborting j n -> drop j (take n (W (T i))) = ws -> (j <= n)%nat ->
  (n <= length (W (T i)))%nat ->
  moves db T l (release_all ws db) l Aborted.
Proof using Type.
  induction ws as [|a ws IH]; intros j db T l Hp Hd Hj Hn.
  - apply drop_nil_length in Hd; rewrite length_take, Nat.min_l in * by done; [|done]. subst j.
    eapply moves_step; [by eapply s_aborted|]. apply moves_refl. by rewrite fset_eq.
  - apply lookup_cons_drop in Hd as [Ha Hd]. pose proof (lookup_lt_Some _ _ _ Ha) as Hlt.
    rewrite length_take in Hlt. rewrite lookup_take_lt in Ha by lia.
    eapply moves_step; [apply (s_release pk db T l i j n a); [done|lia|done]|].
    apply (IH (S j)); rewrite ?fset_eq; [done|done|lia|done].
Qed.

(** A validation that fails after the lock point. *)
Lemma fail_moves db T l n :
  (exists k, t_pc (T i) = Reading k \/ t_pc (T i) = Checking k) -> n = length (W (T i)) -> i ∉ l ->
  moves db T (l ++ [i]) db l (Aborting 0 n).
Proof using Type.
  intros [k Hp] -> Hl. rewrite <- (drop_log_snoc _ l) at 2 by done.
  eapply moves_step; [apply (s_abort pk db T (l ++ [i]) i (length (W (T i))))|].
  - by destruct Hp as [-> | ->].
  - apply moves_refl. by rewrite fset_eq.
Qed.

(** The whole of [validate_silo], up to its verdict. *)
Lemma validate_silo_moves pre_abort no_wait tx db T l rc tx' db' :
  T i = mkT (sx_accesses tx) (Locking 0) -> sx_id tx = i -> i ∉ l ->
  validate_silo pk pre_abort no_wait tx db = Some (rc, tx', db') ->
  sx_accesses tx' = sx_accesses tx /\ sx_write_set tx' = W (T i) /\
  ((rc = RCOK /\ moves db T l db' (l ++ [i]) (Checking (length (W (T i))))) \/
   (rc = Abort /\ (sx_num_locks tx' <= length (W (T i)))%nat /\
    moves db T l db' l (Aborting 0 (sx_num_locks tx')))).
Proof using Type.
  intros HT Hid Hl. unfold validate_silo. rewrite Hid.
  assert (write_set pk (sx_accesses tx) = W (T i)) as HW by (by rewrite HT).
  assert (read_set (sx_accesses tx) = R (T i)) as HR by (by rewrite HT).
  rewrite HW, HR. assert (t_pc (T i) = Locking 0) as Hp by (by rewrite HT).
  destruct (pre_abort && _).
  { intros [= <- <- <-]. cbn. split_and!; [done..|]. right. split_and!; [done|lia|].
    rewrite <- (drop_log_absent _ l) at 2 by done. eapply moves_step; [apply (s_abort pk db T l i 0)|].
    - by rewrite Hp.
    - apply moves_refl. by rewrite fset_eq. }
  pose proof (lock_loop_moves no_wait (W (T i)) 0 db T l Hp eq_refl (Nat.le_0_l _) Hl) as Hlock.
  pose proof (lock_loop_spec no_wait i (W (T i)) 0 db) as Hspec.
  destruct (lock_loop _ _ _ _ _) as [[[] n] db1]; [| |done].
  2:{ intros [= <- <- <-]. destruct Hlock. cbn. split_and!; [done..|]. by right. }
  assert (n = length (W (T i))) as Hn by (destruct Hspec as (k & -> & _ & _ & _ & _ & Hk & _); by rewrite Hk).
  assert (moves db T l db1 (l ++ [i]) (Reading 0)) as Hread.
  { eapply moves_trans; [done|]. intros T1 HT1. eapply moves_step; [apply s_locked; by rewrite HT1|].
    apply moves_refl. by rewrite fset_eq. }
  assert (forall k T1, T1 i = at_pc (T i) k -> W (T1 i) = W (T i) /\ R (T1 i) = R (T i)) as HWR
    by (intros k T1 ->; done).
  assert (moves db T l db1 l (Aborting 0 n)) as Hfail.
  { eapply moves_trans; [done|]. intros T1 HT1. apply fail_moves; [|by rewrite HT1|done].
    exists 0%nat. left. by rewrite HT1. }
  destruct (validate_loop i false _ _ _) as [m|] eqn:Er.
  2:{ intros [= <- <- <-]. cbn. split_and!; [done..|]. right. split_and!; [done|lia|done]. }
  assert (moves db T l db1 (l ++ [i]) (Checking 0)) as Hcheck.
  { eapply moves_trans; [exact Hread|]. intros T1 HT1.
    destruct (HWR _ _ HT1) as [_ HR1]. eapply moves_trans.
    - apply (read_loop_moves (R (T1 i)) 0 m 0); [by rewrite HT1|done|lia|]. by rewrite HR1.
    - intros T2 HT2. eapply moves_step; [apply s_reads_done; by rewrite HT2|].
      apply moves_refl. by rewrite fset_eq. }
  destruct (validate_loop i true _ _ _) as [m'|] eqn:Ew.
  2:{ intros [= <- <- <-]. cbn. split_and!; [done..|]. right. split_and!; [done|lia|done]. }
  intros [= <- <- <-]. cbn. split_and!; [done..|]. left. split; [done|].
  eapply moves_trans; [exact Hcheck|]. intros T1 HT1. destruct (HWR _ _ HT1) as [HW1 _].
  rewrite <- HW1. apply (check_loop_moves (W (T1 i)) m m' 0); [by rewrite HT1|done|lia|]. by rewrite HW1.
Qed.
End Code.

(** ** Properties *)


(** Transaction 1 reads row 0, replaces 10 by 11 and commits with TID 5. *)
Lemma ex_silo_run :
  exists s, rtc (step (fun r => Z.of_nat r)) (start ex_silo_store) s /\
    st_log s = [1] /\ t_acc (st_txn s 1) = [mkAccess WR 0%nat 1 10 11] /\
    t_pc (st_txn s 1) = Done 5 /\ (forall i, i <> 1 -> t_pc (st_txn s i) = Running) /\
    rs_data (st_db s 0%nat) = 11.
Proof.
  eexists. split.
  - eapply rtc_l; [apply (s_access _ ex_silo_store _ _ 1 WR 0%nat 10 1); reflexivity|].
    eapply rtc_l; [apply (s_write _ _ _ _ 1 [] (mkAccess WR 0%nat 1 10 10) [] 11); reflexivity|].
    eapply rtc_l; [apply (s_start _ _ _ _ 1); reflexivity|].
    eapply rtc_l; [eapply (s_lock _ _ _ _ 1 0 (mkAccess WR 0%nat 1 10 11)); reflexivity|].
    eapply rtc_l; [apply (s_locked _ _ _ _ 1); reflexivity|].
    eapply rtc_l; [apply (s_reads_done _ _ _ _ 1); reflexivity|].
    eapply rtc_l; [eapply (s_check _ _ _ _ 1 0 (mkAccess WR 0%nat 1 10 11)); reflexivity|].
    eapply rtc_l; [apply (s_validated _ _ _ _ 1 5); [reflexivity|repeat constructor]|].
    eapply rtc_l; [apply (s_install _ _ _ _ 1 0 5 (mkAccess WR 0%nat 1 10 11)); reflexivity|].
    eapply rtc_l; [apply (s_done _ _ _ _ 1 5); reflexivity|]. apply rtc_refl.
  - split_and!; try reflexivity. intros i Hi. cbn [st_txn]. by rewrite !fset_ne.
Qed.



