(* ===== verification/Occ.v ===== *)
(** * Occ: optimistic concurrency control with central or per-row validation

    Model of concurrency_control/occ.cpp and row_occ.cpp, with the bookkeeping
    of [TxnManager::get_row] that gives [write_cnt] and [row_cnt] (system/txn.cpp)
    and [row_t::return_row] (storage/row.cpp).  A row pointer is a [nat], a
    transaction pointer a [Z].  [OptCC::central_validate] is two critical
    sections with a private part between them; each is a definition here, and
    [central_validate] composes them as one thread runs them.  [OccProtocol]
    interleaves them.  The global timestamp is an argument ([Manager] models
    it).  An entry of [history] is paired with its [tn], which the code sets
    on, and reads from, no other entry. *)

From stdpp Require Import gmap list sorting strings.
From S2P Require Import Prelude BubbleSort.
#[local] Open Scope Z_scope.

Section Occ.
Context {D : Type}.
(** [WORKLOAD == TPCC]. *)
Context (tpcc : bool).
(** [get_table_name()] and [get_primary_key()] of a row. *)
Context (table_name : nat -> string) (primary_key : nat -> Z).

(** [ac_data] is the local copy; [ac_read] is that copy as it was made, a
    ghost field for the properties. *)
Record Access := mkAcc {
  ac_type : access_t;
  ac_row : nat;
  ac_read : D;
  ac_data : D;
}.

Record OccTxn := mkOccTxn {
  ot_txn : Z;
  ot_start_timestamp : Z;
  ot_end_timestamp : Z;
  ot_accesses : list Access;
  ot_row_cnt : Z;
  ot_write_cnt : Z;
}.

(** What [get_row] does with an access that was granted. *)
Definition add_access (a : Access) (tx : OccTxn) : OccTxn :=
  mkOccTxn (ot_txn tx) (ot_start_timestamp tx) (ot_end_timestamp tx) (ot_accesses tx ++ [a])
    (wrap64 (ot_row_cnt tx + 1))
    (if decide (ac_type a = WR) then wrap64 (ot_write_cnt tx + 1) else ot_write_cnt tx).

Definition get_access_cnt (tx : OccTxn) : Z := ot_row_cnt tx.
Definition get_write_set_size (tx : OccTxn) : Z := ot_write_cnt tx.
Definition get_read_set_size (tx : OccTxn) : Z := wrap64 (ot_row_cnt tx - ot_write_cnt tx).

(** ** Read and write sets *)

(** [rows] has [set_size] elements. *)
Record set_ent := mkSet { se_txn : Z; se_rows : list nat }.

(** The loop over the accesses: write rows and read rows.  [accesses[i]] fails
    an assertion past the end of the array. *)
Fixpoint split_accesses (n : nat) (l : list Access) : res (list nat * list nat) :=
  match n with
  | O => Ok ([], [])
  | S n' =>
      match l with
      | [] => AssertFail
      | a :: l' =>
          '(ws, rs) ← split_accesses n' l';
          if decide (ac_type a = WR) then Ok (ac_row a :: ws, rs) else Ok (ws, ac_row a :: rs)
      end
  end.

(** The read set and the write set. *)
Definition get_rw_set (tx : OccTxn) : res (set_ent * set_ent) :=
  let wsize := wrap32 (get_write_set_size tx) in
  let rsize := wrap32 (get_read_set_size tx) in
  '(ws, rs) ← split_accesses (Z.to_nat (wrap32 (wsize + rsize))) (ot_accesses tx);
  assert! (Z.of_nat (length ws) =? wsize);
  assert! (Z.of_nat (length rs) =? rsize);
  Ok (mkSet (ot_txn tx) rs, mkSet (ot_txn tx) ws).

(** No row of one set is a row of the other. *)
Definition test_valid (set1 set2 : set_ent) : bool :=
  forallb (fun r1 => forallb (fun r2 => negb (r1 =? r2)%nat) (se_rows set2)) (se_rows set1).

(** ** The central validator *)

(** [history] and [active] from the head. *)
Record OptCC := mkOptCC {
  history : list (Z * set_ent);
  active : list set_ent;
  his_len : Z;
  active_len : Z;
}.

Definition OptCC_init : OptCC := mkOptCC [] [] 0 0.

(** What a validating thread takes out of the first critical section. *)
Record Snapshot := mkSnap {
  finish_tn : Z;
  finish_active : list set_ent;
  his : list (Z * set_ent);
}.

Definition readonly (wset : set_ent) : bool := bool_decide (se_rows wset = []).

(** The first critical section.  [finish_active] is a stack array of
    [active_len] elements: copying a longer list overruns it, and a shorter
    one leaves elements that are read before they are written. *)
Definition validate_enter (ts : Z) (wset : set_ent) (o : OptCC) : res (Snapshot * OptCC) :=
  assert! (Z.of_nat (length (active o)) =? active_len o);
  let snap := mkSnap ts (active o) (history o) in
  if readonly wset then Ok (snap, o)
  else Ok (snap, mkOptCC (history o) (wset :: active o) (his_len o) (wrap64 (active_len o + 1))).

Fixpoint skip_newer (ts : Z) (l : list (Z * set_ent)) : list (Z * set_ent) :=
  match l with
  | (tn, e) :: l' => if ts <? tn then skip_newer ts l' else l
  | [] => []
  end.

Fixpoint validate_history (start_tn : Z) (rset wset : set_ent) (l : list (Z * set_ent)) : bool :=
  match l with
  | (tn, e) :: l' =>
      if start_tn <? tn then
        if test_valid e rset && (if tpcc then test_valid e wset else true)
        then validate_history start_tn rset wset l'
        else false
      else true
  | [] => true
  end.

Fixpoint validate_active (rset wset : set_ent) (l : list set_ent) : bool :=
  match l with
  | e :: l' =>
      if test_valid e rset && test_valid e wset then validate_active rset wset l' else false
  | [] => true
  end.

(** The private part: [valid] at the label [final]. *)
Definition validate_check (start_tn : Z) (rset wset : set_ent) (s : Snapshot) : bool :=
  (if start_tn <? finish_tn s
   then validate_history start_tn rset wset (skip_newer (finish_tn s) (his s)) else true) &&
  validate_active rset wset (finish_active s).

(** Unlink the first entry of a transaction; [None] is a list without one. *)
Fixpoint unlink (txn : Z) (l : list set_ent) : option (list set_ent) :=
  match l with
  | [] => None
  | e :: l' => if se_txn e =? txn then Some l' else option_map (cons e) (unlink txn l')
  end.

(** The second critical section, of a transaction that does not pass. *)
Definition validate_fail (txn : Z) (o : OptCC) : OptCC :=
  match unlink txn (active o) with
  | Some l => mkOptCC (history o) l (his_len o) (wrap64 (active_len o - 1))
  | None => o
  end.

Definition central_validate (ts : Z) (tx : OccTxn) (o : OptCC) : res (RC * OptCC) :=
  '(rset, wset) ← get_rw_set tx;
  '(snap, o1) ← validate_enter ts wset o;
  if validate_check (ot_start_timestamp tx) rset wset snap then Ok (RCOK, o1)
  else Ok (Abort, validate_fail (ot_txn tx) o1).

Definition central_finish (rc : RC) (ts : Z) (tx : OccTxn) (o : OptCC) : res OptCC :=
  '(_, wset) ← get_rw_set tx;
  if readonly wset then Ok o
  else
    match unlink (ot_txn tx) (active o) with
    | None => Ok o
    | Some l =>
        let o1 := mkOptCC (history o) l (his_len o) (wrap64 (active_len o - 1)) in
        if decide (rc = RCOK)
        then Ok (mkOptCC ((ts, wset) :: history o1) (active o1) (wrap64 (his_len o1 + 1)) (active_len o1))
        else Ok o1
    end.

(** ** Rows *)

(** [PER_ROW_VALID]. *)
Context (per_row_valid : bool).

(** [ro_latch] is the thread's transaction that holds [_latch]. *)
Record Row_occ := mkRowOcc {
  ro_data : D;
  ro_wts : Z;
  ro_latch : option Z;
}.

Definition Store : Type := nat -> Row_occ.
Definition row_init (data : D) : Row_occ := mkRowOcc data 0 None.

(** [None]: the thread waits for the latch, for ever if it holds it itself. *)
Definition latch (txn : Z) (row : Row_occ) : option Row_occ :=
  match ro_latch row with
  | None => Some (mkRowOcc (ro_data row) (ro_wts row) (Some txn))
  | Some _ => None
  end.

Definition row_release (row : Row_occ) : Row_occ := mkRowOcc (ro_data row) (ro_wts row) None.

(** The copy, when the access is granted. *)
Definition row_access (type : TsType) (tx : OccTxn) (row : Row_occ) : option (res (RC * option D)) :=
  match latch (ot_txn tx) row with
  | None => None
  | Some row' =>
      Some (if decide (type = R_REQ) then
              if ot_start_timestamp tx <? ro_wts row' then Ok (Abort, None)
              else Ok (RCOK, Some (ro_data row'))
            else AssertFail)
  end.

Definition row_validate (ts : Z) (row : Row_occ) : bool := negb (ts <? ro_wts row).

Definition row_write (data : D) (ts : Z) (row : Row_occ) : res Row_occ :=
  if per_row_valid then
    assert! (ro_wts row <? ts); Ok (mkRowOcc data ts (ro_latch row))
  else Ok (mkRowOcc data (ro_wts row) (ro_latch row)).

(** [get_row] of the transaction manager over [row_t::get_row]. *)
Definition get_row (type : access_t) (r : nat) (tx : OccTxn) (db : Store) : option (res (RC * OccTxn)) :=
  match row_access R_REQ tx (db r) with
  | None => None
  | Some (Ok (RCOK, Some d)) => Some (Ok (RCOK, add_access (mkAcc type r d d) tx))
  | Some (Ok (rc, _)) => Some (Ok (rc, tx))
  | Some AssertFail => Some AssertFail
  end.

(** ** Per-row validation *)

(** The comparison of the bubble sort; [strcmp] orders the table names. *)
Definition row_after (x y : Access) : bool :=
  match String.compare (table_name (ac_row x)) (table_name (ac_row y)) with
  | Gt => true
  | Eq => primary_key (ac_row y) <? primary_key (ac_row x)
  | Lt => false
  end.

(** The sorting loops.  With no access the counter starts at [0 - 1] and the
    first comparison reads past the array. *)
Definition sort_accesses (tx : OccTxn) : res (list Access) :=
  assert! negb (get_access_cnt tx =? 0);
  assert! (get_access_cnt tx <=? Z.of_nat (length (ot_accesses tx)));
  Ok (bubble_sort row_after (Z.to_nat (get_access_cnt tx - 1)) (ot_accesses tx)).

(** The loop that latches and validates. *)
Fixpoint latch_validate (txn start : Z) (l : list Access) (db : Store) : option (bool * Store) :=
  match l with
  | [] => Some (true, db)
  | a :: l' =>
      match latch txn (db (ac_row a)) with
      | None => None
      | Some row =>
          if row_validate start row then latch_validate txn start l' (fset (ac_row a) row db)
          else Some (false, fset (ac_row a) row db)
      end
  end.

Definition set_accesses (l : list Access) (tx : OccTxn) : OccTxn :=
  mkOccTxn (ot_txn tx) (ot_start_timestamp tx) (ot_end_timestamp tx) l (ot_row_cnt tx) (ot_write_cnt tx).
Definition set_end_timestamp (ts : Z) (tx : OccTxn) : OccTxn :=
  mkOccTxn (ot_txn tx) (ot_start_timestamp tx) ts (ot_accesses tx) (ot_row_cnt tx) (ot_write_cnt tx).

Definition per_row_validate (tx : OccTxn) (db : Store) : res (option (RC * OccTxn * Store)) :=
  l ← sort_accesses tx;
  Ok match latch_validate (ot_txn tx) (ot_start_timestamp tx) (take (Z.to_nat (get_access_cnt tx)) l) db with
     | None => None
     | Some (ok, db') => Some (if ok : bool then RCOK else Abort, set_accesses l tx, db')
     end.

Definition per_row_finish (rc : RC) (ts : Z) (tx : OccTxn) : OccTxn :=
  if decide (rc = RCOK) then set_end_timestamp ts tx else tx.

(** ** Completion *)

(** [row_t::return_row].  The latch is released whoever holds it. *)
Definition return_row (type : access_t) (ts : Z) (a : Access) (db : Store) : res Store :=
  row ← (if decide (type = WR) then row_write (ac_data a) ts (db (ac_row a)) else Ok (db (ac_row a)));
  Ok (fset (ac_row a) (row_release row) db).

Definition cleanup_row (rc : RC) (ts : Z) (a : Access) (db : Store) : res Store :=
  return_row (if decide (ac_type a = WR /\ rc = Abort) then XP else ac_type a) ts a db.

(** The loop of [cleanup], from the last access to the first. *)
Fixpoint cleanup_rows (rc : RC) (ts : Z) (l : list Access) (db : Store) : res Store :=
  match l with
  | [] => Ok db
  | a :: l' => db' ← cleanup_row rc ts a db; cleanup_rows rc ts l' db'
  end.

(** [validate], [finish] and [cleanup]; [ts] is the timestamp the operation
    takes, [None] a thread that waits. *)
Definition validate (ts : Z) (tx : OccTxn) (o : OptCC) (db : Store)
    : res (option (RC * OccTxn * OptCC * Store)) :=
  if per_row_valid then
    r ← per_row_validate tx db;
    Ok (option_map (fun '(rc, tx', db') => (rc, tx', o, db')) r)
  else
    '(rc, o') ← central_validate ts tx o;
    Ok (Some (rc, tx, o', db)).

Definition finish (rc : RC) (ts : Z) (tx : OccTxn) (o : OptCC) : res (OccTxn * OptCC) :=
  if per_row_valid then Ok (per_row_finish rc ts tx, o)
  else o' ← central_finish rc ts tx o; Ok (tx, o').

Definition cleanup (rc : RC) (ts : Z) (tx : OccTxn) (o : OptCC) (db : Store) : res (OccTxn * OptCC * Store) :=
  '(tx', o') ← finish rc ts tx o;
  assert! (Z.of_nat (length (ot_accesses tx')) =? ot_row_cnt tx');
  db' ← cleanup_rows rc (ot_end_timestamp tx') (rev (ot_accesses tx')) db;
  Ok (tx', o', db').
End Occ.

Arguments Access : clear implicits.
Arguments OccTxn : clear implicits.
Arguments Row_occ : clear implicits.
Arguments Store : clear implicits.

Section Lemmas.
Context {D : Type} (tpcc : bool).
Implicit Types (tx : OccTxn D) (a : Access D) (accs : list (Access D)) (e rset wset : set_ent) (o : OptCC).

(** ** Read and write sets *)

Definition write_rows accs : list nat := ac_row <$> filter (fun a => ac_type a = WR) accs.
Definition read_rows accs : list nat := ac_row <$> filter (fun a => ac_type a <> WR) accs.
Definition read_ent tx : set_ent := mkSet (ot_txn tx) (read_rows (ot_accesses tx)).
Definition write_ent tx : set_ent := mkSet (ot_txn tx) (write_rows (ot_accesses tx)).

#[local] Arguments write_rows : simpl never.
#[local] Arguments read_rows : simpl never.

(** The counters are those of the accesses. *)
Definition accounted tx : Prop :=
  ot_row_cnt tx = Z.of_nat (length (ot_accesses tx)) /\
  ot_write_cnt tx = Z.of_nat (length (write_rows (ot_accesses tx))) /\
  Z.of_nat (length (ot_accesses tx)) < 4294967296.

Lemma write_rows_cons a (l : list (Access D)) :
  write_rows (a :: l) = if decide (ac_type a = WR) then ac_row a :: write_rows l else write_rows l.
Proof using Type. unfold write_rows. rewrite filter_cons. by case_decide. Qed.
Lemma read_rows_cons a (l : list (Access D)) :
  read_rows (a :: l) = if decide (ac_type a = WR) then read_rows l else ac_row a :: read_rows l.
Proof using Type.
  unfold read_rows. rewrite filter_cons. case_decide as H; case_decide as H'; try done; tauto.
Qed.
Lemma write_rows_app (l k : list (Access D)) : write_rows (l ++ k) = write_rows l ++ write_rows k.
Proof using Type. unfold write_rows. by rewrite list.filter_app, fmap_app. Qed.
Lemma read_rows_app (l k : list (Access D)) : read_rows (l ++ k) = read_rows l ++ read_rows k.
Proof using Type. unfold read_rows. by rewrite list.filter_app, fmap_app. Qed.

Lemma rows_length (l : list (Access D)) : (length (write_rows l) + length (read_rows l) = length l)%nat.
Proof using Type.
  induction l as [|a l IH]; [done|]. rewrite write_rows_cons, read_rows_cons.
  case_decide; cbn; lia.
Qed.

Lemma elem_of_write_rows r (l : list (Access D)) : r ∈ write_rows l <-> exists a, a ∈ l /\ ac_type a = WR /\ ac_row a = r.
Proof using Type. unfold write_rows. rewrite list_elem_of_fmap. setoid_rewrite list_elem_of_filter. naive_solver. Qed.
Lemma elem_of_read_rows r (l : list (Access D)) : r ∈ read_rows l <-> exists a, a ∈ l /\ ac_type a <> WR /\ ac_row a = r.
Proof using Type. unfold read_rows. rewrite list_elem_of_fmap. setoid_rewrite list_elem_of_filter. naive_solver. Qed.
Lemma elem_of_rows r (l : list (Access D)) : r ∈ read_rows l ++ write_rows l <-> r ∈ ac_row <$> l.
Proof using Type.
  rewrite elem_of_app, elem_of_read_rows, elem_of_write_rows, list_elem_of_fmap.
  split; [naive_solver|]. intros (a & -> & Ha). destruct (decide (ac_type a = WR)); naive_solver.
Qed.

Lemma add_access_accounted a tx :
  accounted tx -> Z.of_nat (length (ot_accesses tx)) + 1 < 4294967296 -> accounted (add_access a tx).
Proof using Type.
  intros (Hr & Hw & _) Hl. pose proof (rows_length (ot_accesses tx)).
  unfold accounted, add_access. cbn. rewrite length_app, write_rows_app, length_app. cbn.
  rewrite write_rows_cons, Hr, Hw. change (write_rows []) with (@nil nat). split_and!; [rewrite wrap64_small; unfold UINT64_MAX; lia| |lia].
  case_decide; cbn; [|lia]. rewrite wrap64_small; unfold UINT64_MAX; lia.
Qed.

Lemma split_accesses_all (l : list (Access D)) : split_accesses (length l) l = Ok (write_rows l, read_rows l).
Proof using Type.
  induction l as [|a l IH]; [done|]. cbn [length split_accesses]. rewrite IH, write_rows_cons, read_rows_cons.
  cbn. by case_decide.
Qed.

(** The assertions of [get_rw_set] hold for a transaction whose counters are
    right, and the sets are the rows of its reads and of its writes. *)
Lemma get_rw_set_ok tx : accounted tx -> get_rw_set tx = Ok (read_ent tx, write_ent tx).
Proof using Type.
  intros (Hr & Hw & Hl). pose proof (rows_length (ot_accesses tx)) as HL.
  unfold get_rw_set, get_write_set_size, get_read_set_size. rewrite Hr, Hw.
  rewrite (wrap64_small (_ - _)) by (unfold UINT64_MAX; lia). rewrite !wrap32_small by lia.
  replace (Z.to_nat _) with (length (ot_accesses tx)) by lia. rewrite split_accesses_all. cbn.
  rewrite Z.eqb_refl. cbn. by rewrite (proj2 (Z.eqb_eq _ _)) by lia.
Qed.

Lemma test_valid_spec e e' : test_valid e e' = true <-> forall r, r ∈ se_rows e -> r ∉ se_rows e'.
Proof using Type.
  unfold test_valid. rewrite forallb_forall. setoid_rewrite forallb_forall.
  setoid_rewrite negb_true_iff. setoid_rewrite Nat.eqb_neq. setoid_rewrite <- list_elem_of_In.
  split; [intros H r Hr Hr'; by apply (H r Hr r)|]. intros H r Hr r' Hr' ->. by apply (H r').
Qed.

Lemma readonly_spec wset : readonly wset = true <-> se_rows wset = [].
Proof using Type. unfold readonly. apply bool_decide_eq_true. Qed.

(** ** The validator *)

(** Newest first. *)
Definition his_sorted (l : list (Z * set_ent)) : Prop := StronglySorted (fun x y => y.1 < x.1) l.

(** The rows tested against the history: the reads, and in TPCC the writes. *)
Definition history_clear start ts rset wset (l : list (Z * set_ent)) : Prop :=
  forall tn e r, (tn, e) ∈ l -> start < tn <= ts -> r ∈ se_rows e ->
    (r ∉ se_rows rset) /\ (tpcc = true -> r ∉ se_rows wset).

Definition active_clear rset wset (l : list set_ent) : Prop :=
  forall e r, e ∈ l -> r ∈ se_rows e -> (r ∉ se_rows rset) /\ (r ∉ se_rows wset).

Lemma validate_active_spec rset wset (l : list set_ent) : validate_active rset wset l = true <-> active_clear rset wset l.
Proof using Type.
  unfold active_clear. induction l as [|e l IH]; cbn; [set_solver|].
  destruct (test_valid e rset && test_valid e wset) eqn:E.
  - apply andb_true_iff in E as [E1 E2]. rewrite test_valid_spec in E1, E2. rewrite IH.
    setoid_rewrite elem_of_cons. naive_solver.
  - split; [done|]. intros H. apply not_true_iff_false in E. contradict E.
    rewrite andb_true_iff, !test_valid_spec. split; intros r Hr; by apply (H e r ltac:(by left)).
Qed.

Lemma validate_history_spec start rset wset (l : list (Z * set_ent)) :
  his_sorted l ->
  validate_history tpcc start rset wset l = true <->
  forall tn e r, (tn, e) ∈ l -> start < tn -> r ∈ se_rows e ->
    (r ∉ se_rows rset) /\ (tpcc = true -> r ∉ se_rows wset).
Proof using Type.
  induction l as [|[tn e] l IH]; intros Hs; cbn; [set_solver|].
  apply StronglySorted_inv in Hs as [Hs Hh]. rewrite Forall_forall in Hh. cbn in Hh.
  destruct (Z.ltb_spec start tn) as [Hlt|Hge].
  - destruct (test_valid e rset && _) eqn:E.
    + apply andb_true_iff in E as [E1 E2]. rewrite test_valid_spec in E1. rewrite (IH Hs).
      setoid_rewrite elem_of_cons. split; [|naive_solver].
      intros H tn' e' r [[= -> ->]|Hin]; [|by apply H]. intros _ Hr. split; [by apply E1|].
      destruct tpcc; [|done]. rewrite test_valid_spec in E2. intros _. by apply E2.
    + split; [done|]. intros H. apply not_true_iff_false in E. contradict E.
      rewrite andb_true_iff, test_valid_spec. split; [intros r Hr; by apply (H tn e r ltac:(by left))|].
      destruct tpcc; [|done]. rewrite test_valid_spec. intros r Hr. by apply (H tn e r ltac:(by left)).
  - split; [|done]. intros _ tn' e' r [[= -> ->]|Hin]%elem_of_cons Hst; [lia|].
    specialize (Hh _ Hin). cbn in Hh. lia.
Qed.

Lemma skip_newer_spec ts (l : list (Z * set_ent)) :
  his_sorted l -> his_sorted (skip_newer ts l) /\
  forall x, x ∈ skip_newer ts l <-> x ∈ l /\ x.1 <= ts.
Proof using Type.
  induction l as [|[tn e] l IH]; intros Hs; cbn; [split; [done|set_solver]|].
  pose proof Hs as [Hs' Hh]%StronglySorted_inv. rewrite Forall_forall in Hh. cbn in Hh.
  destruct (Z.ltb_spec ts tn) as [Hlt|Hge].
  - destruct (IH Hs') as [? Hin]. split; [done|]. intros x. rewrite Hin, elem_of_cons.
    split; [tauto|]. intros [[->|?] ?]; [cbn in *; lia|done].
  - split; [done|]. intros x. split; [|tauto]. intros Hx. split; [done|].
    apply elem_of_cons in Hx as [->|Hx]; [done|]. specialize (Hh x Hx). lia.
Qed.

(** The private part accepts exactly when no entry of the history between the
    two timestamps, and none of the captured active entries, meets the
    transaction. *)
Lemma validate_check_spec start rset wset s :
  his_sorted (his s) ->
  validate_check tpcc start rset wset s = true <->
  history_clear start (finish_tn s) rset wset (his s) /\ active_clear rset wset (finish_active s).
Proof using Type.
  intros Hs. unfold validate_check. rewrite andb_true_iff, validate_active_spec.
  apply and_iff_compat_r. unfold history_clear.
  destruct (Z.ltb_spec start (finish_tn s)).
  - destruct (skip_newer_spec (finish_tn s) _ Hs) as [Hs' Hin]. rewrite validate_history_spec by done.
    setoid_rewrite Hin. cbn. naive_solver.
  - split; [|done]. intros _ tn e r _ Hst. lia.
Qed.

(** ** Lists of active entries *)

Abbreviation txns := (fmap se_txn).

Lemma unlink_None txn (l : list set_ent) : unlink txn l = None <-> txn ∉ txns l.
Proof using Type.
  induction l as [|e l IH]; cbn; [set_solver|]. rewrite not_elem_of_cons.
  destruct (Z.eqb_spec (se_txn e) txn); [split; [done|]; intros [? _]; congruence|].
  destruct (unlink txn l); cbn; [|rewrite <- IH; naive_solver].
  split; [done|]. intros [_ H]. by apply IH in H.
Qed.

Lemma unlink_Some txn (l k : list set_ent) :
  unlink txn l = Some k -> exists l1 e l2, l = l1 ++ e :: l2 /\ k = l1 ++ l2 /\ se_txn e = txn /\ txn ∉ txns l1.
Proof using Type.
  revert k. induction l as [|e l IH]; cbn; intros k; [done|].
  destruct (Z.eqb_spec (se_txn e) txn) as [He|He].
  - intros [= <-]. exists [], e, l. split_and!; [done|done|done|set_solver].
  - destruct (unlink txn l) as [k'|]; [|done]. cbn. intros [= <-].
    destruct (IH k' eq_refl) as (l1 & e' & l2 & -> & -> & ? & ?).
    exists (e :: l1), e', l2. split_and!; [done|done|done|]. cbn. set_solver.
Qed.

(** An unlinked entry is the transaction's; the others stay. *)
Lemma unlink_nodup txn (l k : list set_ent) :
  unlink txn l = Some k -> NoDup (txns l) ->
  length l = S (length k) /\ NoDup (txns k) /\ (txn ∉ txns k) /\ forall e, e ∈ k <-> e ∈ l /\ se_txn e <> txn.
Proof using Type.
  intros (l1 & e & l2 & -> & -> & He & Hn)%unlink_Some Hnd. rewrite fmap_app, fmap_cons in Hnd.
  assert ((txn ∉ txns l1 ++ txns l2) /\ NoDup (txns l1 ++ txns l2)) as [Hni Hnd'].
  { apply NoDup_cons. rewrite <- He. eapply NoDup_Permutation_proper; [|exact Hnd]. by rewrite Permutation_middle. }
  rewrite <- fmap_app in Hni, Hnd'. split_and!; [rewrite !length_app; cbn; lia|done|done|].
  intros x. assert (x ∈ l1 ++ l2 -> se_txn x <> txn) as Hx.
  { intros Hx <-. apply Hni. by apply list_elem_of_fmap_2. }
  rewrite !elem_of_app, elem_of_cons. rewrite elem_of_app in Hx. split; [tauto|].
  intros [[?|[->|?]] ?]; tauto.
Qed.

(** *** The state of the validator *)

(** [clk] is a bound of the timestamps that have been given out. *)
Record opt_wf (clk : Z) (o : OptCC) : Prop := {
  wf_active_len : active_len o = Z.of_nat (length (active o));
  wf_his_len : his_len o = wrap64 (Z.of_nat (length (history o)));
  wf_active : NoDup (txns (active o));
  wf_history : his_sorted (history o);
  wf_clk : Forall (fun x => x.1 <= clk) (history o);
}.

(** One [set_ent] per live transaction fits in memory. *)
Definition few (o : OptCC) : Prop := Z.of_nat (length (active o)) < UINT64_MAX.

Lemma opt_wf_init : opt_wf 0 OptCC_init.
Proof using Type. constructor; try done; constructor. Qed.

Lemma opt_wf_mono clk clk' o : opt_wf clk o -> clk <= clk' -> opt_wf clk' o.
Proof using Type.
  intros [] ?. constructor; try done. eapply Forall_impl; [eassumption|]. cbn. lia.
Qed.

(** The validator with a write set registered. *)
Definition register wset o : OptCC :=
  if readonly wset then o
  else mkOptCC (history o) (wset :: active o) (his_len o) (wrap64 (active_len o + 1)).

Lemma validate_enter_ok clk ts wset o :
  opt_wf clk o -> validate_enter ts wset o = Ok (mkSnap ts (active o) (history o), register wset o).
Proof using Type.
  intros [Ha _ _ _ _]. unfold validate_enter, register. rewrite Ha, Z.eqb_refl. cbn. by destruct (readonly wset).
Qed.

Lemma register_wf clk wset o :
  opt_wf clk o -> few o -> se_txn wset ∉ txns (active o) -> opt_wf clk (register wset o).
Proof using Type.
  intros [Ha Hh Hnd Hs Hc] Hf Hn. unfold register. destruct (readonly wset); [done|].
  constructor; try done; [|by constructor]. cbn. unfold few in Hf. rewrite wrap64_small; lia.
Qed.

Lemma validate_fail_ok clk txn o :
  opt_wf clk o -> few o ->
  opt_wf clk (validate_fail txn o) /\ history (validate_fail txn o) = history o /\
  (txn ∉ txns (active (validate_fail txn o))) /\
  forall e, e ∈ active (validate_fail txn o) <-> e ∈ active o /\ se_txn e <> txn.
Proof using Type.
  intros [Ha Hh Hnd Hs Hc] Hf. unfold validate_fail, few in *. destruct (unlink txn (active o)) as [k|] eqn:E.
  - destruct (unlink_nodup _ _ _ E Hnd) as (Hl & Hk & Hn & Hin). split_and!; [|done|done|done].
    constructor; try done. cbn. rewrite wrap64_small; lia.
  - apply unlink_None in E. split_and!; [done|done|done|]. intros e. split; [|tauto].
    intros He. split; [done|]. intros <-. apply E. by apply list_elem_of_fmap_2.
Qed.

(** A transaction that fails leaves no trace. *)
Lemma fail_register clk wset o :
  opt_wf clk o -> few o -> se_txn wset ∉ txns (active o) ->
  validate_fail (se_txn wset) (register wset o) = o.
Proof using Type.
  intros [Ha _ _ _ _] Hf Hn. unfold validate_fail, register, few in *. destruct (readonly wset).
  - by rewrite (proj2 (unlink_None _ _) Hn).
  - cbn. rewrite Z.eqb_refl, (wrap64_small (active_len o + 1)), wrap64_small by lia.
    replace (_ + 1 - 1) with (active_len o) by lia. by destruct o.
Qed.

(** The transaction meets neither the updates committed since it began nor
    those under way. *)
Definition passes (ts : Z) tx (o : OptCC) : Prop :=
  history_clear (ot_start_timestamp tx) ts (read_ent tx) (write_ent tx) (history o) /\
  active_clear (read_ent tx) (write_ent tx) (active o).

(** C27. [OptCC::central_validate] of a transaction that is not yet active
    returns [RCOK] exactly when no committed update between its two timestamps
    and no active update touches its rows; the rows it is registered with are
    then those it writes.  Otherwise it returns [Abort] and leaves the
    validator as it found it.  No assertion fails, and the state stays
    well formed. *)
Theorem occ_validate_correct clk ts tx o :
  opt_wf clk o -> few o -> accounted tx -> ot_txn tx ∉ txns (active o) -> clk <= ts ->
  exists rc o', central_validate tpcc ts tx o = Ok (rc, o') /\ opt_wf ts o' /\
    (rc = RCOK \/ rc = Abort) /\ (rc = RCOK <-> passes ts tx o) /\
    (rc = Abort -> o' = o) /\
    (rc = RCOK -> o' = register (write_ent tx) o).
Proof using Type.
  intros Hwf Hf Hacc Hn Hts. unfold central_validate. rewrite get_rw_set_ok by done. cbn [mbind res_bind].
  rewrite (validate_enter_ok clk) by done. cbn [mbind res_bind].
  pose proof (validate_check_spec (ot_start_timestamp tx) (read_ent tx) (write_ent tx)
    (mkSnap ts (active o) (history o)) (wf_history _ _ Hwf)) as Hck. cbn in Hck. fold (passes ts tx o) in Hck.
  destruct (validate_check _ _ _ _ _).
  - eexists RCOK, _. split_and!; [done| |by left|tauto|done|done].
    apply (opt_wf_mono clk); [|done]. by apply register_wf.
  - exists Abort, o. change (ot_txn tx) with (se_txn (write_ent tx)). rewrite (fail_register clk) by done.
    split_and!; [done|by apply (opt_wf_mono clk)|by right| |done|done].
    split; [done|]. intros H. by apply Hck in H.
Qed.

(** [OptCC::central_finish] of an active transaction takes its entry off the
    list and, when it commits, puts its write set on the history under the
    timestamp; it does nothing for a transaction without an entry. *)
Lemma occ_finish_correct clk rc ts tx o :
  opt_wf clk o -> few o -> accounted tx -> clk < ts ->
  exists o', central_finish rc ts tx o = Ok o' /\ opt_wf ts o' /\
    (write_rows (ot_accesses tx) = [] \/ ot_txn tx ∉ txns (active o) -> o' = o) /\
    (write_rows (ot_accesses tx) <> [] -> ot_txn tx ∈ txns (active o) ->
       history o' = (if decide (rc = RCOK) then (ts, write_ent tx) :: history o else history o) /\
       (ot_txn tx ∉ txns (active o')) /\ (forall e, e ∈ active o' <-> e ∈ active o /\ se_txn e <> ot_txn tx)).
Proof using Type.
  intros Hwf Hf Hacc Hts. pose proof Hwf as [Ha Hh Hnd Hs Hc].
  unfold central_finish. rewrite get_rw_set_ok by done. cbn [mbind res_bind].
  assert (opt_wf ts o) as Hwf' by (apply (opt_wf_mono clk); [done|lia]).
  destruct (readonly (write_ent tx)) eqn:Hro.
  { apply readonly_spec in Hro. cbn in Hro. exists o. split_and!; done. }
  assert (write_rows (ot_accesses tx) <> []) as Hne.
  { intros E. apply not_true_iff_false in Hro. apply Hro. by apply readonly_spec. }
  destruct (unlink (ot_txn tx) (active o)) as [k|] eqn:E.
  - destruct (unlink_nodup _ _ _ E Hnd) as (Hl & Hk & Hn & Hin). unfold few in Hf.
    assert (ot_txn tx ∈ txns (active o)) as Hact.
    { destruct (decide (ot_txn tx ∈ txns (active o))) as [|Hx]; [done|]. apply unlink_None in Hx. congruence. }
    assert (wrap64 (active_len o - 1) = Z.of_nat (length k)) as Hal by (rewrite wrap64_small; lia).
    assert (Forall (fun x => x.1 <= ts) (history o)) as Hc' by (eapply Forall_impl; [exact Hc|]; cbn; lia).
    cbn. rewrite Hal. case_decide as Hrc; eexists; (split_and!; [reflexivity| | |]).
    + constructor; cbn; [done| |done| |].
      * rewrite Hh. unfold wrap64. rewrite Zplus_mod_idemp_l. f_equal. lia.
      * constructor; [done|]. eapply Forall_impl; [exact Hc|]. cbn. lia.
      * constructor; [cbn; lia|done].
    + intros [?|?]; done.
    + done.
    + constructor; done.
    + intros [?|?]; done.
    + done.
  - apply unlink_None in E. exists o. done.
Qed.

(** ** Rows *)

(** A row as the writes of other transactions leave it, each with a timestamp
    taken after [ts]. *)
Inductive overwritten (ts : Z) : Row_occ D -> Row_occ D -> Prop :=
| ow_write d t row row' : ts < t -> row_write true d t row = Ok row' -> overwritten ts row row'
| ow_latch row l : overwritten ts row (mkRowOcc (ro_data row) (ro_wts row) l).

(** The validation of a row sees every write since it was read: if [validate]
    accepts, the row holds what [access] copied. *)
Lemma row_validate_current tx row row' d :
  row_access R_REQ tx row = Some (Ok (RCOK, Some d)) ->
  rtc (overwritten (ot_start_timestamp tx)) row row' ->
  row_validate (ot_start_timestamp tx) row' = true -> ro_data row' = d.
Proof using Type.
  unfold row_access, latch. destruct (ro_latch row); [done|]. cbn.
  destruct (Z.ltb_spec (ot_start_timestamp tx) (ro_wts row)) as [|Hle]; [done|]. intros [= <-] Hrun.
  cut (ro_data row' = ro_data row \/ ot_start_timestamp tx < ro_wts row').
  { intros [?|Hlt] Hv; [done|]. unfold row_validate in Hv. apply Z.ltb_lt in Hlt. by rewrite Hlt in Hv. }
  eapply (rtc_invariant _ (fun x => ro_data x = ro_data row \/ ot_start_timestamp tx < ro_wts x)); [| |exact Hrun].
  - by left.
  - intros x y Hx Hxy. inversion Hxy as [? t ? ? Ht Hw|]; subst; [|done]. right.
    unfold row_write in Hw. cbn in Hw. res_inv. by subst.
Qed.
End Lemmas.

(** ** Per-row validation *)

Section PerRow.
Context {D : Type} (table_name : nat -> string) (primary_key : nat -> Z).
Implicit Types (tx : OccTxn D) (a x y : Access D) (l accs : list (Access D)) (db : Store D).

Abbreviation after := (row_after (D := D) table_name primary_key).

(** Table by table, in key order. *)
Lemma row_after_false x y :
  after x y = false <->
  String.le (table_name (ac_row x)) (table_name (ac_row y)) /\
  (table_name (ac_row x) = table_name (ac_row y) -> primary_key (ac_row x) <= primary_key (ac_row y)).
Proof using Type.
  unfold row_after, String.le, String.leb.
  destruct (String.compare (table_name (ac_row x)) (table_name (ac_row y))) eqn:E; cbn.
  - apply String.compare_eq_iff in E. rewrite Z.ltb_ge. naive_solver.
  - split; [|done]. intros _. split; [done|]. intros Ht. rewrite Ht in E.
    pose proof (String.compare_antisym (table_name (ac_row y)) (table_name (ac_row y))) as Ha.
    by rewrite E in Ha.
  - split; [done|]. by intros [? _].
Qed.

#[export] Instance after_trans : Transitive (le after).
Proof using Type.
  intros x y z. unfold le. rewrite !row_after_false. intros [H1 H1'] [H2 H2'].
  split; [by etrans|]. intros Ht.
  assert (table_name (ac_row x) = table_name (ac_row y)) as Hxy.
  { apply (anti_symm String.le); [done|]. by rewrite Ht. }
  etrans; [by apply H1'|]. apply H2'. congruence.
Qed.

Lemma after_asym x y : after x y = true -> le after y x.
Proof using Type.
  unfold le, row_after. rewrite (String.compare_antisym (table_name (ac_row y))).
  destruct (String.compare (table_name (ac_row x)) (table_name (ac_row y))); cbn; [|done..].
  rewrite Z.ltb_lt, Z.ltb_ge. lia.
Qed.

#[export] Instance after_total : Total (le after).
Proof using Type.
  intros x y. unfold le. destruct (after x y) eqn:E; [right; by apply after_asym|by left].
Qed.

#[export] Instance after_dec x y : Decision (le after x y).
Proof using Type. unfold le. apply _. Defined.

(** The key of a row identifies it. *)
Definition keyed : Prop := forall r r',
  table_name r = table_name r' -> primary_key r = primary_key r' -> r = r'.

Lemma after_anti l x y :
  keyed -> NoDup (ac_row <$> l) -> x ∈ l -> y ∈ l -> le after x y -> le after y x -> x = y.
Proof using Type.
  intros Hk Hnd Hx Hy [H1 H1']%row_after_false [H2 H2']%row_after_false.
  assert (table_name (ac_row x) = table_name (ac_row y)) as Ht by by apply (anti_symm String.le).
  assert (ac_row x = ac_row y) as Hr.
  { apply Hk; [done|]. specialize (H1' Ht). symmetry in Ht. specialize (H2' Ht). lia. }
  apply list_elem_of_lookup in Hx as [i Hi], Hy as [j Hj].
  assert (i = j) as <-; [|congruence].
  apply (NoDup_lookup _ i j (ac_row x) Hnd); rewrite list_lookup_fmap; [by rewrite Hi|].
  rewrite Hj. cbn. congruence.
Qed.

(** The two sorting loops of [per_row_validate] compute what merge sort
    computes from the accesses of a transaction, by table name and key. *)
Theorem sort_accesses_merge tx :
  keyed -> accounted tx -> ot_accesses tx <> [] -> NoDup (ac_row <$> ot_accesses tx) ->
  sort_accesses table_name primary_key tx = Ok (merge_sort (le after) (ot_accesses tx)).
Proof using Type.
  intros Hk (Hr & _ & _) Hne Hnd. unfold sort_accesses, get_access_cnt. rewrite Hr.
  destruct (ot_accesses tx) as [|a0 l0] eqn:El; [done|]. rewrite <- El in *. clear Hne.
  rewrite (proj2 (Z.eqb_neq _ _)) by (rewrite El; cbn; lia). rewrite Z.leb_refl. cbn. f_equal.
  replace (Z.to_nat _) with (length (ot_accesses tx) - 1)%nat by lia.
  apply (bubble_sort_unique _ after_trans after_asym).
  - intros x y Hx Hy. by apply (after_anti (ot_accesses tx)).
  - apply merge_sort_Permutation.
  - apply StronglySorted_merge_sort; apply _.
Qed.

(** *** Latching *)

Definition free_rows l db : Prop := forall a, a ∈ l -> ro_latch (db (ac_row a)) = None.

(** What a row holds, whoever has its latch. *)
Definition content (row : Row_occ D) : D * Z := (ro_data row, ro_wts row).

Lemma latch_validate_spec txn start l db :
  NoDup (ac_row <$> l) -> free_rows l db ->
  exists ok db', latch_validate txn start l db = Some (ok, db') /\
    (ok = true <-> forall a, a ∈ l -> row_validate start (db (ac_row a)) = true) /\
    (forall r, r ∉ ac_row <$> l -> db' r = db r) /\
    (forall r, content (db' r) = content (db r)) /\
    (ok = true -> forall a, a ∈ l -> ro_latch (db' (ac_row a)) = Some txn).
Proof using Type.
  revert db. induction l as [|a l IH]; intros db Hnd Hfr.
  { eexists true, db. split_and!; set_solver. }
  apply NoDup_cons in Hnd as [Ha Hnd]. cbn [latch_validate].
  unfold latch. rewrite (Hfr a) by by left. set (row := mkRowOcc _ _ _).
  change (row_validate start row) with (row_validate start (db (ac_row a))).
  assert (forall r, content (fset (ac_row a) row db r) = content (db r)) as Hcont.
  { intros r. unfold fset. by case_decide as Hr; [rewrite Hr|]. }
  destruct (row_validate start (db (ac_row a))) eqn:Hv.
  - assert (forall b, b ∈ l -> fset (ac_row a) row db (ac_row b) = db (ac_row b)) as Hb.
    { intros b Hb. apply fset_ne. intros E. apply Ha. rewrite <- E. by apply list_elem_of_fmap_2. }
    destruct (IH (fset (ac_row a) row db)) as (ok & db' & -> & Hok & Hout & Hc & Hl); [done| |].
    { intros b Hb'. rewrite Hb by done. apply Hfr. by right. }
    exists ok, db'. split_and!; [done| | | |].
    + rewrite Hok. setoid_rewrite elem_of_cons. split; [intros H b [->|Hb']; [done|]|intros H b Hb'].
      * rewrite <- Hb by done. by apply H.
      * rewrite Hb by done. apply H. by right.
    + intros r. rewrite fmap_cons, not_elem_of_cons. intros [? ?]. rewrite Hout by done. by apply fset_ne.
    + intros r. by rewrite Hc.
    + intros Ht b [->|Hb']%elem_of_cons; [|by apply Hl]. by rewrite Hout, fset_eq.
  - exists false, (fset (ac_row a) row db). split_and!; [done| | |done|done].
    + split; [done|]. intros H. rewrite (H a) in Hv by by left. done.
    + intros r. rewrite fmap_cons, not_elem_of_cons. intros [? _]. by apply fset_ne.
Qed.

(** The rows a completed transaction leaves: written and stamped by its
    writes if it commits, all latches free. *)
Definition completed (rc : RC) (ts : Z) (a : Access D) (row : Row_occ D) : Row_occ D :=
  if decide (ac_type a = WR /\ rc <> Abort) then mkRowOcc (ac_data a) ts None else row_release row.

Lemma cleanup_row_spec rc ts a db :
  (rc <> Abort -> ac_type a = WR -> ro_wts (db (ac_row a)) < ts) ->
  cleanup_row true rc ts a db = Ok (fset (ac_row a) (completed rc ts a (db (ac_row a))) db).
Proof using Type.
  intros Hts. unfold cleanup_row, return_row, completed.
  destruct (decide (ac_type a = WR)) as [Hw|Hw]; [destruct (decide (rc = Abort)) as [Hr|Hr]|].
  - rewrite (decide_True (P := _ /\ rc = Abort)), decide_False, decide_False by (done || tauto). done.
  - rewrite (decide_False (P := _ /\ rc = Abort)), decide_True, decide_True by (done || tauto).
    cbn. by rewrite (proj2 (Z.ltb_lt _ _)) by auto.
  - rewrite (decide_False (P := _ /\ rc = Abort)), decide_False, decide_False by (done || tauto). done.
Qed.

Lemma cleanup_rows_spec rc ts l db :
  NoDup (ac_row <$> l) ->
  (rc <> Abort -> forall a, a ∈ l -> ac_type a = WR -> ro_wts (db (ac_row a)) < ts) ->
  exists db', cleanup_rows true rc ts l db = Ok db' /\
    (forall r, r ∉ ac_row <$> l -> db' r = db r) /\
    (forall a, a ∈ l -> db' (ac_row a) = completed rc ts a (db (ac_row a))).
Proof using Type.
  revert db. induction l as [|a l IH]; intros db Hnd Hts.
  { exists db. split_and!; set_solver. }
  apply NoDup_cons in Hnd as [Ha Hnd].
  assert (Hc : cleanup_row true rc ts a db = Ok (fset (ac_row a) (completed rc ts a (db (ac_row a))) db)).
  { apply cleanup_row_spec. intros. apply Hts; [done|by left|done]. }
  cbn [cleanup_rows]. rewrite Hc. cbn [mbind res_bind].
  assert (forall b, b ∈ l -> ac_row b <> ac_row a) as Hb.
  { intros b Hb E. apply Ha. rewrite <- E. by apply list_elem_of_fmap_2. }
  destruct (IH (fset (ac_row a) (completed rc ts a (db (ac_row a))) db)) as (db' & -> & Hout & Hin); [done| |].
  { intros Hr b Hb' Hw. rewrite fset_ne by auto. apply Hts; [done|by right|done]. }
  exists db'. split_and!; [done| |].
  - intros r. rewrite fmap_cons, not_elem_of_cons. intros [? ?]. rewrite Hout by done. by apply fset_ne.
  - intros b [->|Hb']%elem_of_cons; [by rewrite Hout, fset_eq|]. rewrite Hin by done. by rewrite fset_ne by auto.
Qed.

Lemma completed_content rc ts a (row row' : Row_occ D) :
  content row = content row' -> completed rc ts a row = completed rc ts a row'.
Proof using Type. unfold completed, row_release, content. intros [= -> ->]. done. Qed.

Lemma sort_accesses_ok tx :
  accounted tx -> ot_accesses tx <> [] ->
  exists l, sort_accesses table_name primary_key tx = Ok l /\ l ≡ₚ ot_accesses tx /\ StronglySorted (le after) l /\
    take (Z.to_nat (get_access_cnt tx)) l = l.
Proof using Type.
  intros (Hr & _ & _) Hne. unfold sort_accesses, get_access_cnt. rewrite Hr.
  rewrite (proj2 (Z.eqb_neq _ _)) by (destruct (ot_accesses tx); cbn; [done|lia]).
  rewrite Z.leb_refl. cbn. replace (Z.to_nat (_ - 1)) with (length (ot_accesses tx) - 1)%nat by lia.
  pose proof (bubble_sort_perm after (length (ot_accesses tx) - 1) (ot_accesses tx)) as Hp.
  eexists. split_and!; [done|done|by apply bubble_sort_sorted; [apply _|exact after_asym]|].
  apply take_ge. rewrite Hp. lia.
Qed.

(** In per-row mode a transaction on distinct, unlatched rows validates
    with [RCOK] exactly when none of its rows was written after its start
    timestamp, and then holds every latch; [cleanup] with the result installs
    its writes under the end timestamp, or nothing, and leaves all latches
    free. *)
Theorem per_row_commit_correct tpcc ts0 ts tx o db :
  accounted tx -> ot_accesses tx <> [] -> NoDup (ac_row <$> ot_accesses tx) -> free_rows (ot_accesses tx) db ->
  (forall a, a ∈ ot_accesses tx -> ac_type a = WR -> ro_wts (db (ac_row a)) < ts) ->
  exists rc tx1 db1, validate tpcc table_name primary_key true ts0 tx o db = Ok (Some (rc, tx1, o, db1)) /\
    (rc = RCOK \/ rc = Abort) /\
    (rc = RCOK <-> forall a, a ∈ ot_accesses tx -> ro_wts (db (ac_row a)) <= ot_start_timestamp tx) /\
    (rc = RCOK -> forall a, a ∈ ot_accesses tx -> ro_latch (db1 (ac_row a)) = Some (ot_txn tx)) /\
    exists tx2 db2, cleanup true rc ts tx1 o db1 = Ok (tx2, o, db2) /\
      (forall r, r ∉ ac_row <$> ot_accesses tx -> db2 r = db r) /\
      (forall a, a ∈ ot_accesses tx -> db2 (ac_row a) = completed rc ts a (db (ac_row a))).
Proof using Type.
  intros Hacc Hne Hnd Hfr Hts. destruct (sort_accesses_ok tx Hacc Hne) as (l & Hsort & Hp & _ & Htake).
  assert (forall a, a ∈ l <-> a ∈ ot_accesses tx) as Hin by (intros a; by rewrite Hp).
  assert (forall r, r ∈ ac_row <$> l <-> r ∈ ac_row <$> ot_accesses tx) as Hinr by (intros r; by rewrite Hp).
  assert (NoDup (ac_row <$> l)) as Hndl by by rewrite Hp.
  destruct (latch_validate_spec (ot_txn tx) (ot_start_timestamp tx) l db) as (ok & db1 & Hlv & Hok & Hout & Hc & Hl);
    [done|intros a Ha; by apply Hfr, Hin|].
  set (rc := if ok then RCOK else Abort). exists rc, (set_accesses l tx), db1.
  unfold validate, per_row_validate. rewrite Hsort. cbn [mbind res_bind]. rewrite Htake, Hlv.
  split_and!; [done|subst rc; destruct ok; tauto| | |].
  - transitivity (ok = true); [subst rc; by destruct ok|]. rewrite Hok. setoid_rewrite Hin.
    unfold row_validate. setoid_rewrite negb_true_iff. by setoid_rewrite Z.ltb_ge.
  - intros Hrc a Ha. apply Hl; [subst rc; by destruct ok|by apply Hin].
  - destruct (cleanup_rows_spec rc (if decide (rc = RCOK) then ts else ot_end_timestamp tx) (rev l) db1)
      as (db2 & Hcl & Ho & Hi).
    { by rewrite <- Permutation_rev. }
    { intros Hrc a Ha Hw. rewrite decide_True by (subst rc; by destruct ok).
      specialize (Hc (ac_row a)). injection Hc as _ ->. apply Hts; [|done].
      apply Hin. by rewrite <- Permutation_rev in Ha. }
    destruct Hacc as (Hr & _ & _). eexists _, db2. unfold cleanup, finish, per_row_finish. cbn [mbind res_bind].
    replace (ot_accesses (if decide (rc = RCOK) then _ else _)) with l by by case_decide.
    replace (ot_row_cnt (if decide (rc = RCOK) then _ else _)) with (ot_row_cnt tx) by by case_decide.
    rewrite Hr, <- Hp, Z.eqb_refl. cbn [assert_ mbind res_bind].
    replace (ot_end_timestamp (if decide (rc = RCOK) then _ else _))
      with (if decide (rc = RCOK) then ts else ot_end_timestamp tx) by by case_decide.
    rewrite Hcl. split_and!; [done| |].
    + intros r Hr'. rewrite Ho; [apply Hout|]; rewrite <- ?Permutation_rev; by rewrite Hinr.
    + intros a Ha. rewrite Hi by (rewrite <- Permutation_rev; by apply Hin).
      rewrite (completed_content _ _ _ _ _ (Hc (ac_row a))). unfold completed.
      destruct (decide (rc = RCOK)) as [->|Hn]; [done|]. rewrite !decide_False; [done|..]; subst rc; destruct ok; tauto.
Qed.

(** *** Latching in key order cannot deadlock

    A thread in the loop of [per_row_validate] has latched the first [lk_held]
    rows of its sorted accesses. *)

Record Latching := mkLatching { lk_rows : list (Access D); lk_held : nat }.

Definition latching_of tx (k : nat) : option Latching :=
  match sort_accesses table_name primary_key tx with
  | Ok l => Some (mkLatching l k)
  | AssertFail => None
  end.

(** Thread [t] waits for a row that thread [u] has latched. *)
Definition waits_for (T : Z -> option Latching) (t u : Z) : Prop :=
  exists s s' a b, T t = Some s /\ T u = Some s' /\
    lk_rows s !! lk_held s = Some a /\ b ∈ take (lk_held s') (lk_rows s') /\ ac_row a = ac_row b.

(** However many threads latch the rows of their transactions, none waits
    for itself through a chain of the others: the sort makes them latch in one
    order. *)
Theorem per_row_no_deadlock T :
  keyed ->
  (forall t s, T t = Some s -> exists tx k, accounted tx /\ ot_accesses tx <> [] /\
     NoDup (ac_row <$> ot_accesses tx) /\ latching_of tx k = Some s) ->
  forall t, ~ tc (waits_for T) t t.
Proof using Type.
  intros Hk HT.
  assert (forall t s, T t = Some s -> StronglySorted (le after) (lk_rows s) /\ NoDup (ac_row <$> lk_rows s)) as Hs.
  { intros t s Ht. destruct (HT t s Ht) as (tx & k & Hacc & Hne & Hnd & E). unfold latching_of in E.
    destruct (sort_accesses_ok tx Hacc Hne) as (l & E' & Hp & Hss & _). rewrite E' in E. injection E as <-.
    cbn. split; [done|]. by rewrite Hp. }
  assert (forall t u, tc (waits_for T) t u -> exists s s' a b, T t = Some s /\ T u = Some s' /\
    lk_rows s !! lk_held s = Some a /\ b ∈ take (lk_held s') (lk_rows s') /\ le after a b) as Hchain.
  { intros t u. induction 1 as [t u (s & s' & a & b & Ht & Hu & Ha & Hb & E)|t u v (s & s' & a & b & Ht & Hu & Ha & Hb & E) _ IH].
    - exists s, s', a, b. split_and!; try done. apply row_after_false. rewrite E. split; [done|lia].
    - destruct IH as (s1 & s'' & c & d & Hu' & Hv & Hc & Hd & Hcd). simplify_eq.
      exists s, s'', a, d. split_and!; try done. transitivity b; [apply row_after_false; rewrite E; split; [done|lia]|].
      transitivity c; [|done]. destruct (Hs u s' Hu) as [Hss _].
      rewrite <- (take_drop (lk_held s') (lk_rows s')) in Hss.
      apply (StronglySorted_app_1_elem_of _ _ _ _ _ Hss); [done|].
      apply list_elem_of_lookup. exists 0%nat. by rewrite lookup_drop, Nat.add_0_r. }
  intros t Ht. destruct (Hchain t t Ht) as (s & s' & a & b & Hs1 & Hs2 & Ha & Hb & Hab). simplify_eq.
  destruct (Hs t s Hs1) as [Hss Hnd]. assert (a ∈ lk_rows s) as Hal by (by eapply list_elem_of_lookup_2).
  assert (b ∈ lk_rows s) as Hbl by (eapply elem_of_take in Hb as (i & ? & _); by eapply list_elem_of_lookup_2).
  apply elem_of_take in Hb as (i & Hi & Hlt).
  assert (le after b a) as Hba by (by eapply StronglySorted_lookup; [exact Hss|exact Hlt|..]).
  assert (a = b) as -> by (by apply (after_anti (lk_rows s))).
  assert (i = lk_held s); [|lia].
  apply (NoDup_lookup _ _ _ (ac_row b) Hnd); rewrite list_lookup_fmap; [by rewrite Hi|by rewrite Ha].
Qed.
End PerRow.

(** ** Examples *)

Definition ex_occ_tables (r : nat) : string := if (r <? 2)%nat then "A"%string else "B"%string.
Definition ex_occ_keys (r : nat) : Z := Z.of_nat r.
Definition ex_occ_store : Store Z := fun r => mkRowOcc (Z.of_nat r * 10) 1 None.
Definition ex_occ_begin (i start : Z) : OccTxn Z := mkOccTxn i start 0 [] 0 0.
(** Reads row 3 and updates row 1. *)
Definition ex_occ_txn (i start : Z) : OccTxn Z :=
  add_access (mkAcc WR 1%nat 10 11) (add_access (mkAcc RD 3%nat 30 30) (ex_occ_begin i start)).
(** Another transaction has updated row 2 under timestamp 4 and one that
    updates row 5 is under way. *)
Definition ex_opt : OptCC := mkOptCC [(4, mkSet 8 [2%nat])] [mkSet 9 [5%nat]] 1 1.

Lemma ex_opt_wf : opt_wf 4 ex_opt.
Proof. constructor; try reflexivity; repeat constructor; set_solver. Qed.

Lemma ex_occ_txn_accounted i start : accounted (ex_occ_txn i start).
Proof. split; [reflexivity|]. split; reflexivity. Qed.

Lemma occ_validate_correct_witness :
  exists o', central_validate true 5 (ex_occ_txn 1 2) ex_opt = Ok (RCOK, o') /\
    active o' = [mkSet 1 [1%nat]; mkSet 9 [5%nat]].
Proof.
  destruct (occ_validate_correct true 4 5 (ex_occ_txn 1 2) ex_opt) as (rc & o' & Hv & _ & _ & Hrc & _ & Ho).
  - apply ex_opt_wf.
  - reflexivity.
  - apply ex_occ_txn_accounted.
  - cbn. set_solver.
  - lia.
  - assert (rc = RCOK) as ->.
    { apply Hrc. split.
      - intros tn e r [= -> ->]%list_elem_of_singleton _ ->%list_elem_of_singleton. cbn. split; [|intros _]; set_solver.
      - intros e r ->%list_elem_of_singleton ->%list_elem_of_singleton. cbn. split; set_solver. }
    exists o'. split; [exact Hv|]. rewrite (Ho eq_refl). reflexivity.
Defined.

Lemma ex_occ_keyed : keyed ex_occ_tables ex_occ_keys.
Proof. intros r r' _. unfold ex_occ_keys. lia. Qed.

Lemma ex_occ_rows i start : NoDup (ac_row <$> ot_accesses (ex_occ_txn i start)).
Proof. cbn. repeat constructor; set_solver. Qed.

Lemma sort_accesses_merge_witness :
  sort_accesses ex_occ_tables ex_occ_keys (ex_occ_txn 1 2) = Ok [mkAcc WR 1%nat 10 11; mkAcc RD 3%nat 30 30].
Proof.
  rewrite (sort_accesses_merge ex_occ_tables ex_occ_keys (ex_occ_txn 1 2));
    [reflexivity|exact ex_occ_keyed|apply ex_occ_txn_accounted|discriminate|apply ex_occ_rows].
Defined.

Lemma per_row_commit_correct_witness :
  exists tx1 db1 tx2 db2,
    validate true ex_occ_tables ex_occ_keys true 5 (ex_occ_txn 1 2) OptCC_init ex_occ_store = Ok (Some (RCOK, tx1, OptCC_init, db1)) /\
    cleanup true RCOK 6 tx1 OptCC_init db1 = Ok (tx2, OptCC_init, db2) /\ db2 1%nat = mkRowOcc 11 6 None.
Proof.
  destruct (per_row_commit_correct ex_occ_tables ex_occ_keys true 5 6 (ex_occ_txn 1 2) OptCC_init ex_occ_store)
    as (rc & tx1 & db1 & Hv & _ & Hrc & _ & tx2 & db2 & Hc & _ & Hin).
  - apply ex_occ_txn_accounted.
  - discriminate.
  - apply ex_occ_rows.
  - intros a _. reflexivity.
  - intros a _ _. reflexivity.
  - assert (rc = RCOK) as -> by (apply Hrc; intros a _; cbn; lia).
    exists tx1, db1, tx2, db2. split; [exact Hv|]. split; [exact Hc|].
    apply (Hin (mkAcc WR 1%nat 10 11)). cbn. right. left.
Defined.

(** Two transactions on the same rows: the second waits for the first. *)
Definition ex_latching (t : Z) : option Latching :=
  if t =? 1 then latching_of ex_occ_tables ex_occ_keys (ex_occ_txn 1 2) 1
  else if t =? 2 then latching_of ex_occ_tables ex_occ_keys (ex_occ_txn 2 3) 0 else None.

Lemma per_row_no_deadlock_witness :
  waits_for ex_latching 2 1 /\ ~ tc (waits_for ex_latching) 2 2.
Proof.
  split.
  - eexists _, _, (mkAcc WR 1%nat 10 11), (mkAcc WR 1%nat 10 11). split; [reflexivity|]. split; [reflexivity|].
    split; [reflexivity|]. split; [|reflexivity]. cbn. left.
  - apply (per_row_no_deadlock ex_occ_tables ex_occ_keys).
    + exact ex_occ_keyed.
    + intros t s. unfold ex_latching. destruct (t =? 1); [|destruct (t =? 2); [|discriminate]]; intros E.
      * exists (ex_occ_txn 1 2), 1%nat. split; [apply ex_occ_txn_accounted|]. split; [discriminate|].
        split; [apply ex_occ_rows|exact E].
      * exists (ex_occ_txn 2 3), 0%nat. split; [apply ex_occ_txn_accounted|]. split; [discriminate|].
        split; [apply ex_occ_rows|exact E].
Defined.
