(* ===== verification/OccProtocol.v ===== *)
(** * OccProtocol: interleaved optimistic transactions

    The transactions of [Occ] with central validation as a step relation.  A
    step is one critical section of the validator, one access to a row under
    its latch, or one private computation, so transactions interleave as the
    threads of the code do.  [TxnManager::cleanup] (system/txn.cpp) calls
    [occ_man.finish] first, which puts the write set on the history, and
    installs the writes row by row afterwards; the steps follow this order.
    [quiet] forbids a transaction to begin while another one is between the
    two: what is serializable with it and what goes wrong without it are the
    two main theorems.  Timestamps come from one clock, each above those given
    out before. *)

From stdpp Require Import gmap list sorting relations strings.
From S2P Require Import Prelude Serial BubbleSort Occ.
#[local] Open Scope Z_scope.

(** Not begun; executing; out of the first critical section of
    [central_validate]; to be unlinked; validated; with the write set on the
    history under [tn] and the first [k] accesses still to return; completed;
    given up. *)
Inductive Pc :=
| Idle
| Running
| Entered (s : Snapshot)
| Failing
| Valid
| Installing (k : nat) (tn : Z)
| Done (tn : Z)
| Aborted.

Section Protocol.
Context {D : Type} (tpcc quiet : bool).

Record TState := mkT { x_tx : OccTxn D; x_pc : Pc }.

(** The rows, the validator, the transactions, the clock, and the order in
    which the transactions entered validation, without the aborted ones. *)
Record State := mkState {
  st_db : Store D;
  st_opt : OptCC;
  st_txn : Z -> TState;
  st_clk : Z;
  st_log : list Z;
}.

Definition installing (t : TState) : bool := match x_pc t with Installing _ _ => true | _ => false end.

Definition new_txn (i ts : Z) : OccTxn D := mkOccTxn i ts UINT64_MAX [] 0 0.

(** A local write changes the copy of an access of type [WR]. *)
Definition set_data (d : D) (a : Access D) : Access D := mkAcc (ac_type a) (ac_row a) (ac_read a) d.

Inductive step : State -> State -> Prop :=
| s_begin db o T clk l i ts :
    x_pc (T i) = Idle -> clk < ts -> (quiet = true -> forall j, installing (T j) = false) ->
    step (mkState db o T clk l) (mkState db o (fset i (mkT (new_txn i ts) Running) T) ts l)
| s_access db o T clk l i ty r tx :
    x_pc (T i) = Running -> Z.of_nat (length (ot_accesses (x_tx (T i)))) + 1 < 4294967296 ->
    get_row ty r (x_tx (T i)) db = Some (Ok (RCOK, tx)) ->
    step (mkState db o T clk l) (mkState db o (fset i (mkT tx Running) T) clk l)
| s_write db o T clk l i pre a post d :
    x_pc (T i) = Running -> ot_accesses (x_tx (T i)) = pre ++ a :: post -> ac_type a = WR ->
    step (mkState db o T clk l)
         (mkState db o (fset i (mkT (set_accesses (pre ++ set_data d a :: post) (x_tx (T i))) Running) T) clk l)
| s_enter db o T clk l i ts rset wset s o' :
    x_pc (T i) = Running -> clk < ts -> few o -> get_rw_set (x_tx (T i)) = Ok (rset, wset) ->
    validate_enter ts wset o = Ok (s, o') ->
    step (mkState db o T clk l)
         (mkState db o' (fset i (mkT (x_tx (T i)) (Entered s)) T) ts (l ++ [i]))
| s_pass db o T clk l i s rset wset :
    x_pc (T i) = Entered s -> get_rw_set (x_tx (T i)) = Ok (rset, wset) ->
    validate_check tpcc (ot_start_timestamp (x_tx (T i))) rset wset s = true ->
    step (mkState db o T clk l) (mkState db o (fset i (mkT (x_tx (T i)) Valid) T) clk l)
| s_reject db o T clk l i s rset wset :
    x_pc (T i) = Entered s -> get_rw_set (x_tx (T i)) = Ok (rset, wset) ->
    validate_check tpcc (ot_start_timestamp (x_tx (T i))) rset wset s = false ->
    step (mkState db o T clk l)
         (mkState db o (fset i (mkT (x_tx (T i)) Failing) T) clk (drop_log i l))
| s_fail db o T clk l i :
    x_pc (T i) = Failing -> few o ->
    step (mkState db o T clk l)
         (mkState db (validate_fail i o) (fset i (mkT (x_tx (T i)) Aborted) T) clk l)
| s_commit db o T clk l i ts o' :
    x_pc (T i) = Valid -> clk < ts -> few o -> central_finish RCOK ts (x_tx (T i)) o = Ok o' ->
    step (mkState db o T clk l)
         (mkState db o' (fset i (mkT (x_tx (T i)) (Installing (length (ot_accesses (x_tx (T i)))) ts)) T) ts l)
| s_abort db o T clk l i ts o' :
    x_pc (T i) = Running \/ x_pc (T i) = Valid -> clk < ts -> few o ->
    central_finish Abort ts (x_tx (T i)) o = Ok o' ->
    step (mkState db o T clk l)
         (mkState db o' (fset i (mkT (x_tx (T i)) Aborted) T) ts (drop_log i l))
| s_install db o T clk l i k tn a db' :
    x_pc (T i) = Installing (S k) tn -> ot_accesses (x_tx (T i)) !! k = Some a ->
    cleanup_row false RCOK (ot_end_timestamp (x_tx (T i))) a db = Ok db' ->
    step (mkState db o T clk l) (mkState db' o (fset i (mkT (x_tx (T i)) (Installing k tn)) T) clk l)
| s_done db o T clk l i tn :
    x_pc (T i) = Installing 0 tn ->
    step (mkState db o T clk l) (mkState db o (fset i (mkT (x_tx (T i)) (Done tn)) T) clk l).

(** No transaction has begun. *)
Definition start (db : Store D) : State :=
  mkState db OptCC_init (fun i => mkT (new_txn i 0) Idle) 0 [].

(** ** The serial execution *)

Definition acc (t : TState) : list (Access D) := ot_accesses (x_tx t).
Definition W (t : TState) : list nat := write_rows (acc t).
Definition begun (t : TState) : Z := ot_start_timestamp (x_tx t).

(** The timestamp of the write set of a committed transaction. *)
Definition committed (t : TState) : option Z :=
  match x_pc t with Installing _ tn | Done tn => Some tn | _ => None end.

(** The access whose copy stays at a row: the loop of [cleanup] runs from the
    last access to the first. *)
Fixpoint find_write (r : nat) (l : list (Access D)) : option (Access D) :=
  match l with
  | [] => None
  | a :: l' => if decide (ac_type a = WR /\ ac_row a = r) then Some a else find_write r l'
  end.

Definition written (t : TState) (r : nat) : option D :=
  match committed t with Some _ => ac_data <$> find_write r (acc t) | None => None end.

Definition data (db : Store D) (r : nat) : D := ro_data (db r).

Abbreviation serial := (Serial.serial written).

(** ** The invariant *)

(** The accesses of a committed transaction that have yet to be returned. *)
Definition pending (t : TState) : list (Access D) :=
  match x_pc t with Installing k _ => take k (acc t) | _ => [] end.

(** In the list of active transactions, if it writes. *)
Definition is_active (t : TState) : bool :=
  match x_pc t with Entered _ | Failing | Valid => true | _ => false end.

Definition in_log (t : TState) : bool :=
  match x_pc t with Entered _ | Valid | Installing _ _ | Done _ => true | _ => false end.

(** The transactions before [m] in the log that it need not be tested
    against: those committed before it began. *)
Definition earlier (T : Z -> TState) (j m : Z) : Prop :=
  exists tn, committed (T j) = Some tn /\ tn < begun (T m).

(** [m] is tested, or has been tested, against [j]. *)
Definition ordered (T : Z -> TState) (j m : Z) : Prop :=
  match x_pc (T m) with
  | Entered s =>
      write_ent (x_tx (T j)) ∈ finish_active s \/
      exists tn, (tn, write_ent (x_tx (T j))) ∈ his s /\ begun (T m) < tn <= finish_tn s
  | _ => forall r, r ∈ W (T j) -> r ∉ ac_row <$> acc (T m)
  end.

Record inv (v0 : nat -> D) (s : State) : Prop := {
  i_wf : opt_wf (st_clk s) (st_opt s);
  i_txn i : x_pc (st_txn s i) <> Idle -> ot_txn (x_tx (st_txn s i)) = i /\
    accounted (x_tx (st_txn s i)) /\ begun (st_txn s i) <= st_clk s;
  i_active e : e ∈ active (st_opt s) <->
    exists i, is_active (st_txn s i) = true /\ W (st_txn s i) <> [] /\ e = write_ent (x_tx (st_txn s i));
  i_history tn e : (tn, e) ∈ history (st_opt s) <->
    exists i, committed (st_txn s i) = Some tn /\ W (st_txn s i) <> [] /\ e = write_ent (x_tx (st_txn s i));
  i_log i : i ∈ st_log s <-> in_log (st_txn s i) = true;
  i_lognd : NoDup (st_log s);
  i_tn i tn : committed (st_txn s i) = Some tn -> tn <= st_clk s;
  i_distinct i j tn : committed (st_txn s i) = Some tn -> x_pc (st_txn s j) <> Idle -> begun (st_txn s j) <> tn;
  i_quiet i j tn : committed (st_txn s i) = Some tn -> installing (st_txn s i) = true ->
    x_pc (st_txn s j) <> Idle -> begun (st_txn s j) < tn;
  i_snap i sn : x_pc (st_txn s i) = Entered sn -> his_sorted (his sn);
  i_order l1 m l2 j : st_log s = l1 ++ m :: l2 -> j ∈ l1 -> W (st_txn s j) <> [] ->
    earlier (st_txn s) j m \/ ordered (st_txn s) j m;
  i_read l1 m l2 a : st_log s = l1 ++ m :: l2 -> a ∈ acc (st_txn s m) ->
    (forall j tn, j ∈ l1 -> committed (st_txn s j) = Some tn -> ac_row a ∈ W (st_txn s j) ->
       tn < begun (st_txn s m)) ->
    serial (st_txn s) l1 v0 (ac_row a) = ac_read a;
  i_run m a : x_pc (st_txn s m) = Running -> a ∈ acc (st_txn s m) ->
    data (st_db s) (ac_row a) = ac_read a \/
    exists j tn, committed (st_txn s j) = Some tn /\ begun (st_txn s m) < tn /\ ac_row a ∈ W (st_txn s j);
  i_cur r : (forall i, r ∉ write_rows (pending (st_txn s i))) ->
    serial (st_txn s) (st_log s) v0 r = data (st_db s) r;
  i_pend i r a : r ∈ write_rows (pending (st_txn s i)) -> find_write r (acc (st_txn s i)) = Some a ->
    serial (st_txn s) (st_log s) v0 r = ac_data a;
}.

(** ** Lemmas on transactions *)

Lemma find_write_None r (l : list (Access D)) : find_write r l = None <-> r ∉ write_rows l.
Proof using Type.
  induction l as [|a l IH]; [split; [intros _; apply not_elem_of_nil|done]|]. cbn [find_write].
  rewrite write_rows_cons. destruct (decide (ac_type a = WR)) as [Hw|Hw]; [rewrite not_elem_of_cons|]; case_decide; naive_solver.
Qed.

Lemma find_write_Some r (l : list (Access D)) a : find_write r l = Some a -> r ∈ write_rows l.
Proof using Type.
  intros H. destruct (decide (r ∈ write_rows l)) as [|Hn]; [done|]. apply find_write_None in Hn. congruence.
Qed.

Lemma find_write_app r (l k : list (Access D)) :
  find_write r (l ++ k) = match find_write r l with Some a => Some a | None => find_write r k end.
Proof using Type. induction l as [|a l IH]; [done|]. cbn. by case_decide. Qed.

Lemma find_write_take r n (l : list (Access D)) :
  r ∈ write_rows (take n l) -> find_write r (take n l) = find_write r l.
Proof using Type.
  intros H. rewrite <- (take_drop n l) at 2. rewrite find_write_app.
  destruct (find_write r (take n l)) eqn:E; [done|]. by apply find_write_None in E.
Qed.

Lemma write_rows_take r n (l : list (Access D)) : r ∈ write_rows (take n l) -> r ∈ write_rows l.
Proof using Type. intros H. rewrite <- (take_drop n l), write_rows_app. apply elem_of_app. by left. Qed.

Lemma occ_written_None t r : committed t = None \/ r ∉ W t -> written t r = None.
Proof using Type.
  unfold written. intros [->|H]; [done|]. destruct (committed t); [|done]. by rewrite (proj2 (find_write_None _ _)).
Qed.

Lemma W_rows t r : r ∈ W t -> r ∈ ac_row <$> acc t.
Proof using Type. unfold W. rewrite <- elem_of_rows, elem_of_app. by right. Qed.

Lemma pending_W t r : r ∈ write_rows (pending t) -> r ∈ W t.
Proof using Type. unfold pending, W. destruct (x_pc t); try (by intros ?%not_elem_of_nil). apply write_rows_take. Qed.

Lemma pending_installing t r :
  r ∈ write_rows (pending t) -> installing t = true /\ exists tn, committed t = Some tn.
Proof using Type.
  unfold pending, installing, committed. destruct (x_pc t); try (by intros ?%not_elem_of_nil). eauto.
Qed.

Lemma occ_committed_in_log t tn : committed t = Some tn -> in_log t = true.
Proof using Type. unfold committed, in_log. by destruct (x_pc t). Qed.

(** ** Preservation *)

Context (v0 : nat -> D).

Lemma write_ent_rows t : se_rows (write_ent (x_tx t)) = W t.
Proof using Type. done. Qed.

(** A transaction that has not entered validation works on its own. *)
Lemma inv_running db o T clk clk' l i t' :
  inv v0 (mkState db o T clk l) -> x_pc (T i) = Idle \/ x_pc (T i) = Running -> x_pc t' = Running ->
  ot_txn (x_tx t') = i -> accounted (x_tx t') -> clk <= clk' -> begun t' <= clk' ->
  (x_pc (T i) = Running /\ begun t' = begun (T i)) \/ clk < begun t' ->
  (forall j, installing (T j) = true -> x_pc (T i) = Running /\ begun t' = begun (T i)) ->
  (forall a, a ∈ acc t' -> data db (ac_row a) = ac_read a \/
     exists j tn, committed (T j) = Some tn /\ begun t' < tn /\ ac_row a ∈ W (T j)) ->
  inv v0 (mkState db o (fset i t' T) clk' l).
Proof using Type.
  intros H Hpc Hpc' Htxn Hacc Hclk Hbeg Hnew Hq Hrun.
  assert (committed (T i) = None /\ in_log (T i) = false /\ is_active (T i) = false /\ pending (T i) = []) as (Hc & Hl & Ha & Hp)
    by (unfold committed, in_log, is_active, pending; by destruct Hpc as [-> | ->]).
  assert (committed t' = None /\ in_log t' = false /\ is_active t' = false /\ pending t' = []) as (Hc' & Hl' & Ha' & Hp')
    by (unfold committed, in_log, is_active, pending; by rewrite Hpc').
  assert (forall x, x ∈ l -> x <> i) as Hni by (intros x Hx ->; apply (i_log _ _ H) in Hx; cbn in Hx; congruence).
  assert (forall k r, serial (fset i t' T) k v0 r = serial T k v0 r) as Hser.
  { intros k r. apply serial_same. intros x _. destruct (decide (x = i)) as [->|]; [|by rewrite fset_ne].
    rewrite fset_eq, !occ_written_None by (by left). done. }
  assert (forall x tn, committed (fset i t' T x) = Some tn <-> x <> i /\ committed (T x) = Some tn) as Hcom.
  { intros x tn. destruct (decide (x = i)) as [->|]; [rewrite fset_eq|rewrite fset_ne by done]; naive_solver. }
  split; cbn [st_db st_opt st_txn st_clk st_log].
  - by apply (opt_wf_mono clk), Hclk; apply (i_wf _ _ H).
  - intros x. destruct (decide (x = i)) as [->|]; [rewrite fset_eq|rewrite fset_ne by done]; [done|].
    intros Hx. destruct (i_txn _ _ H x Hx) as (? & ? & ?). split_and!; [done|done|]. cbn in *. lia.
  - intros e. rewrite (i_active _ _ H). cbn. split; intros (x & Hx & HW & He); exists x.
    + rewrite fset_ne by congruence. done.
    + destruct (decide (x = i)) as [->|]; [rewrite fset_eq in Hx; congruence|]. by rewrite fset_ne in * by done.
  - intros tn e. rewrite (i_history _ _ H). cbn. split; intros (x & Hx & HW & He); exists x.
    + rewrite fset_ne by congruence. done.
    + destruct (decide (x = i)) as [->|]; [rewrite fset_eq in Hx; congruence|]. by rewrite fset_ne in * by done.
  - intros x. rewrite (i_log _ _ H). cbn. by rewrite (fset_view in_log) by congruence.
  - apply (i_lognd _ _ H).
  - intros x tn [? Hx]%Hcom. pose proof (i_tn _ _ H x tn Hx). cbn in *. lia.
  - intros x j tn [Hxi Hx]%Hcom. destruct (decide (j = i)) as [->|]; [|rewrite fset_ne by done; by apply (i_distinct _ _ H x)].
    intros _. rewrite fset_eq. destruct Hnew as [[Hr ->]|Hnew].
    + apply (i_distinct _ _ H x i tn); [done|]. cbn. congruence.
    + pose proof (i_tn _ _ H x tn Hx). cbn in *. lia.
  - intros x j tn [Hxi Hx]%Hcom. rewrite fset_ne by done. intros Hin.
    destruct (decide (j = i)) as [->|]; [|rewrite fset_ne by done; by apply (i_quiet _ _ H x)].
    intros _. rewrite fset_eq. destruct (Hq x Hin) as [Hr ->]. apply (i_quiet _ _ H x i tn); [done|done|].
    cbn. congruence.
  - intros x sn. destruct (decide (x = i)) as [->|]; [rewrite fset_eq; congruence|]. rewrite fset_ne by done.
    apply (i_snap _ _ H).
  - intros l1 m l2 j E Hj. assert (m <> i) by (apply Hni; rewrite E; set_solver).
    assert (j <> i) by (apply Hni; rewrite E; set_solver).
    unfold earlier, ordered. rewrite !fset_ne by done. by apply (i_order _ _ H l1 m l2 j).
  - intros l1 m l2 a E. assert (m <> i) by (apply Hni; rewrite E; set_solver). rewrite fset_ne by done.
    rewrite Hser. intros Ha1 Hall. apply (i_read _ _ H l1 m l2 a E Ha1). intros j tn Hj Hjc.
    assert (j <> i) by (apply Hni; rewrite E; set_solver). specialize (Hall j tn Hj).
    rewrite fset_ne in Hall by done. by apply Hall.
  - intros m a Hm Hma. setoid_rewrite Hcom.
    assert (data db (ac_row a) = ac_read a \/ exists j tn, committed (T j) = Some tn /\
      begun (fset i t' T m) < tn /\ ac_row a ∈ W (T j)) as [?|(j & tn & Hj & ? & ?)].
    { destruct (decide (m = i)) as [->|].
      - rewrite fset_eq in *. by apply Hrun.
      - rewrite fset_ne in * by done. by apply (i_run _ _ H m a). }
    + by left.
    + right. exists j, tn. assert (j <> i) by congruence. by rewrite (fset_ne _ _ _ j).
  - intros r Hr. rewrite Hser. apply (i_cur _ _ H). intros x. specialize (Hr x).
    by rewrite (fset_view pending) in Hr by congruence.
  - intros x r a. rewrite (fset_view pending) by congruence. rewrite Hser. intros Hr.
    rewrite fset_ne; [by apply (i_pend _ _ H)|]. intros ->. rewrite Hp in Hr. by apply not_elem_of_nil in Hr.
Qed.

Lemma log_uncommitted db o T clk l j :
  inv v0 (mkState db o T clk l) -> j ∈ l -> W (T j) <> [] ->
  (exists tn, committed (T j) = Some tn /\ (tn, write_ent (x_tx (T j))) ∈ history o) \/
  write_ent (x_tx (T j)) ∈ active o.
Proof using Type.
  intros H Hj%(i_log _ _ H) HW. cbn in Hj. destruct (committed (T j)) as [tn|] eqn:Hc.
  - left. exists tn. split; [done|]. apply (i_history _ _ H). eauto.
  - right. apply (i_active _ _ H). exists j. split; [|done]. cbn.
    unfold committed, in_log, is_active in *. by destruct (x_pc (T j)).
Qed.

(** The validator's first critical section. *)
Lemma inv_enter db o T clk l i ts rset wset s o' :
  inv v0 (mkState db o T clk l) -> x_pc (T i) = Running -> clk < ts -> few o ->
  get_rw_set (x_tx (T i)) = Ok (rset, wset) -> validate_enter ts wset o = Ok (s, o') ->
  inv v0 (mkState db o' (fset i (mkT (x_tx (T i)) (Entered s)) T) ts (l ++ [i])).
Proof using Type.
  intros H Hpc Hclk Hfew Hrw Hen.
  destruct (i_txn _ _ H i) as (Htxn & Hacc & Hbeg); [cbn; congruence|]. cbn in Htxn, Hacc, Hbeg.
  rewrite get_rw_set_ok in Hrw by done. injection Hrw as <- <-.
  pose proof (i_wf _ _ H) as Hwf. cbn in Hwf. rewrite (validate_enter_ok clk) in Hen by done. injection Hen as <- <-.
  set (s := mkSnap ts (active o) (history o)). set (t' := mkT (x_tx (T i)) (Entered s)).
  assert (committed (T i) = None /\ in_log (T i) = false /\ is_active (T i) = false /\ pending (T i) = []) as (Hc & Hl & Ha & Hp)
    by (unfold committed, in_log, is_active, pending; by rewrite Hpc).
  assert (i ∉ l) as Hil by (intros Hx; apply (i_log _ _ H) in Hx; cbn in Hx; congruence).
  assert (forall x, x ∈ l -> x <> i) as Hni by (intros x Hx ->; done).
  assert (ot_txn (x_tx (T i)) ∉ se_txn <$> active o) as Hnact.
  { intros (e & He1 & He2)%list_elem_of_fmap. apply (i_active _ _ H) in He2 as (x & Hx & _ & ->). cbn in Hx, He1.
    assert (x = i); [|congruence]. rewrite <- Htxn, He1. symmetry. apply (i_txn _ _ H x). cbn. intros E.
    unfold is_active in Hx. by rewrite E in Hx. }
  assert (forall x, acc (fset i t' T x) = acc (T x)) as Hacc' by (intros; by apply fset_view).
  assert (forall x, W (fset i t' T x) = W (T x)) as HW by (intros; by apply fset_view).
  assert (forall x, begun (fset i t' T x) = begun (T x)) as Hbeg' by (intros; by apply fset_view).
  assert (forall x, x_tx (fset i t' T x) = x_tx (T x)) as Htx by (intros; by apply fset_view).
  assert (forall x, committed (fset i t' T x) = committed (T x)) as Hcom by (intros; by apply (fset_view committed)).
  assert (forall x, pending (fset i t' T x) = pending (T x)) as Hpen by (intros; by apply (fset_view pending)).
  assert (forall k r, serial (fset i t' T) k v0 r = serial T k v0 r) as Hser
    by (intros k r; apply serial_same; intros x _; unfold written; by rewrite Hcom, Hacc').
  assert (forall r, serial (fset i t' T) (l ++ [i]) v0 r = serial T l v0 r) as Hser'.
  { intros r. rewrite Hser, serial_app, serial_cons. cbn. unfold effect. by rewrite occ_written_None by by left. }
  assert (history (register (write_ent (x_tx (T i))) o) = history o) as Hhis by (unfold register; by case_match).
  split; cbn [st_db st_opt st_txn st_clk st_log].
  - apply (opt_wf_mono clk); [by apply register_wf|lia].
  - intros x Hx. rewrite Htx, Hbeg'. destruct (i_txn _ _ H x) as (? & ? & ?).
    + cbn. unfold fset in Hx. case_decide; congruence.
    + split_and!; [done|done|]. cbn in *. lia.
  - intros e. assert (e ∈ active (register (write_ent (x_tx (T i))) o) <->
      (W (T i) <> [] /\ e = write_ent (x_tx (T i))) \/ e ∈ active o) as ->.
    { unfold register. destruct (readonly _) eqn:Hro; cbn.
      - apply readonly_spec in Hro. change (W (T i) = []) in Hro. tauto.
      - assert (W (T i) <> []) by (intros E; apply not_true_iff_false in Hro; by apply Hro, readonly_spec).
        rewrite elem_of_cons. tauto. }
    rewrite (i_active _ _ H). cbn. split.
    + intros [[HWi ->]|(x & Hx & HWx & ->)].
      * exists i. by rewrite HW, Htx, fset_eq.
      * exists x. rewrite HW, Htx, fset_ne by congruence. done.
    + intros (x & Hx & HWx & ->). rewrite HW in HWx. rewrite Htx. destruct (decide (x = i)) as [->|]; [by left|].
      rewrite fset_ne in Hx by done. right. by exists x.
  - intros tn e. rewrite Hhis, (i_history _ _ H). cbn. by setoid_rewrite Hcom; setoid_rewrite HW; setoid_rewrite Htx.
  - intros x. rewrite elem_of_app, list_elem_of_singleton, (i_log _ _ H). cbn. unfold fset.
    case_decide; [subst; tauto|]. naive_solver.
  - apply NoDup_app. split_and!; [apply (i_lognd _ _ H)| |apply NoDup_singleton].
    intros x Hx ->%list_elem_of_singleton. done.
  - intros x tn. rewrite Hcom. intros Hx%(i_tn _ _ H). cbn in Hx. lia.
  - intros x j tn. rewrite Hcom, Hbeg'. intros Hx Hj. apply (i_distinct _ _ H x); [done|].
    cbn. unfold fset in Hj. case_decide; congruence.
  - intros x j tn. rewrite Hcom, Hbeg', (fset_view installing) by (unfold installing; by rewrite Hpc).
    intros Hx Hin Hj. apply (i_quiet _ _ H x); [done|done|]. cbn. unfold fset in Hj. case_decide; congruence.
  - intros x sn. unfold fset. case_decide; [|apply (i_snap _ _ H)]. intros [= <-]. apply (wf_history _ _ Hwf).
  - intros l1 m l2 j E Hj. rewrite HW. intros HWj. unfold earlier. rewrite Hcom, Hbeg'.
    apply snoc_split in E as [(-> & -> & ->)|(l2' & -> & E)].
    + unfold ordered. rewrite fset_eq. cbn. rewrite Htx.
      destruct (log_uncommitted _ _ _ _ _ j H Hj HWj) as [(tn & Hjc & Hhj)|Hja]; [|by right; left].
      destruct (decide (tn < begun (T i))) as [|Hge]; [left; by exists tn|]. right. right. exists tn. split; [done|].
      pose proof (wf_clk _ _ Hwf) as Hle. rewrite Forall_forall in Hle. specialize (Hle _ Hhj). cbn in Hle.
      split; [|lia]. pose proof (i_distinct _ _ H j i tn Hjc ltac:(cbn; congruence)).
      cbn in *. change (begun t') with (begun (T i)). lia.
    + assert (m <> i) by (apply Hni; rewrite E; set_solver). unfold ordered. rewrite Hbeg', HW, Htx, Hacc', fset_ne by done.
      by apply (i_order _ _ H l1 m l2' j).
  - intros l1 m l2 a E. rewrite Hacc', Hser, Hbeg'. setoid_rewrite Hcom. setoid_rewrite HW. intros Hma Hall.
    apply snoc_split in E as [(-> & -> & ->)|(l2' & -> & E)]; [|by apply (i_read _ _ H l1 m l2' a)].
    assert (forall j tn, committed (T j) = Some tn -> ac_row a ∈ W (T j) -> tn < begun (T i)) as Hall'.
    { intros j tn Hj. apply Hall; [|done]. apply (i_log _ _ H). by eapply occ_committed_in_log. }
    destruct (i_run _ _ H i a) as [Hd|(j & tn & Hj & Hlt & Hr)]; [done|done| |specialize (Hall' j tn Hj Hr); cbn in *; lia].
    cbn in Hd. rewrite <- Hd. apply (i_cur _ _ H). intros x Hx. cbn in Hx.
    destruct (pending_installing _ _ Hx) as (Hin & tn & Hxc). specialize (Hall' x tn Hxc (pending_W _ _ Hx)).
    pose proof (i_quiet _ _ H x i tn Hxc Hin ltac:(cbn; congruence)). cbn in *. lia.
  - intros m a Hm. rewrite Hacc', Hbeg'. setoid_rewrite Hcom. setoid_rewrite HW.
    assert (m <> i) by (intros ->; rewrite fset_eq in Hm; done). rewrite fset_ne in Hm by done. by apply (i_run _ _ H).
  - intros r Hr. rewrite Hser'. apply (i_cur _ _ H). intros x. rewrite <- Hpen. apply Hr.
  - intros x r a. rewrite Hpen, Hacc', Hser'. apply (i_pend _ _ H).
Qed.

(** A transaction that has not committed moves on: it passes, in which case it
    stays in the log and meets none of the transactions it was tested against,
    or it gives up and leaves the log. *)
Lemma inv_uncommitted db o o' T clk clk' l l' i t' :
  inv v0 (mkState db o T clk l) -> x_pc (T i) <> Idle -> x_tx t' = x_tx (T i) ->
  committed (T i) = None -> clk <= clk' -> opt_wf clk' o' -> history o' = history o ->
  (forall e, e ∈ active o' <-> e ∈ active o /\ (is_active t' = true \/ se_txn e <> i)) ->
  (is_active t' = true -> is_active (T i) = true) ->
  (x_pc t' = Valid /\ l' = l /\ in_log (T i) = true /\
     (forall l1 l2 j, l = l1 ++ i :: l2 -> j ∈ l1 -> W (T j) <> [] ->
        earlier T j i \/ forall r, r ∈ W (T j) -> r ∉ ac_row <$> acc (T i)) \/
   (x_pc t' = Failing \/ x_pc t' = Aborted) /\ l' = drop_log i l) ->
  inv v0 (mkState db o' (fset i t' T) clk' l').
Proof using Type.
  intros H Hpc Htx' Hc Hclk Hwf Hhis Hact Hact' Hcase.
  assert (committed t' = None /\ pending t' = [] /\ installing t' = false /\ x_pc t' <> Idle /\ x_pc t' <> Running /\
    forall s, x_pc t' <> Entered s) as (Hc' & Hp' & Hin' & Hni' & Hnr' & Hne')
    by (unfold committed, pending, installing; by destruct Hcase as [(-> & _)|([-> | ->] & _)]).
  assert (pending (T i) = [] /\ installing (T i) = false) as (Hp & Hin)
    by (unfold committed, pending, installing in *; by destruct (x_pc (T i))).
  assert (forall x, x_tx (fset i t' T x) = x_tx (T x)) as Htx by (intros; by apply (fset_view x_tx)).
  assert (forall x, acc (fset i t' T x) = acc (T x)) as Hacc by (intros; unfold acc; by rewrite Htx).
  assert (forall x, W (fset i t' T x) = W (T x)) as HW by (intros; unfold W; by rewrite Hacc).
  assert (forall x, begun (fset i t' T x) = begun (T x)) as Hbeg by (intros; unfold begun; by rewrite Htx).
  assert (forall x, committed (fset i t' T x) = committed (T x)) as Hcom by (intros; apply fset_view; congruence).
  assert (forall x, pending (fset i t' T x) = pending (T x)) as Hpen by (intros; apply fset_view; congruence).
  assert (forall x, installing (fset i t' T x) = installing (T x)) as Hins by (intros; apply fset_view; congruence).
  assert (forall x, x_pc (fset i t' T x) <> Idle -> x_pc (T x) <> Idle) as Hidle
    by (intros x; unfold fset; case_decide; [by subst|done]).
  assert (forall x, x ∈ l' <-> x ∈ l /\ (x = i -> in_log t' = true)) as Hl'.
  { intros x. destruct Hcase as [(E & -> & _)|(E & ->)]; [unfold in_log; rewrite E; naive_solver|].
    rewrite elem_of_drop_log. unfold in_log. destruct E as [-> | ->]; naive_solver. }
  assert (forall l1 m l2, l' = l1 ++ m :: l2 -> exists k1 k2, l = k1 ++ m :: k2 /\
    (l1 = k1 \/ l1 = drop_log i k1)) as Hsplit.
  { intros l1 m l2. destruct Hcase as [(_ & -> & _)|(_ & ->)]; [intros ->; eauto|].
    intros (k1 & k2 & -> & -> & _)%filter_split. exists k1, k2. eauto. }
  assert (forall k1 k r, (k1 = k \/ k1 = drop_log i k) -> serial (fset i t' T) k1 v0 r = serial T k v0 r) as Hser.
  { intros k1 k r Hk. transitivity (serial T k1 v0 r).
    - apply serial_same. intros x _. unfold written. by rewrite Hcom, Hacc.
    - destruct Hk as [-> | ->]; [done|apply serial_drop, occ_written_None; by left]. }
  assert (forall r, serial (fset i t' T) l' v0 r = serial T l v0 r) as Hser'.
  { intros r. apply Hser. destruct Hcase as [(_ & -> & _)|(_ & ->)]; auto. }
  split; cbn [st_db st_opt st_txn st_clk st_log].
  - done.
  - intros x Hx%Hidle. rewrite Htx, Hbeg. destruct (i_txn _ _ H x Hx) as (? & ? & ?). split_and!; [done|done|].
    cbn in *. lia.
  - intros e. rewrite Hact, (i_active _ _ H). cbn. split.
    + intros [(x & Hx & HWx & ->) Hor]. exists x. rewrite HW, Htx. split_and!; [|done|done].
      destruct (decide (x = i)) as [->|]; [|by rewrite fset_ne]. rewrite fset_eq. destruct Hor as [|Hor]; [done|].
      exfalso. apply Hor. by apply (i_txn _ _ H i).
    + intros (x & Hx & HWx & ->). rewrite HW in HWx. rewrite Htx. destruct (decide (x = i)) as [->|Hxi].
      * rewrite fset_eq in Hx. split; [|by left]. exists i. auto.
      * rewrite fset_ne in Hx by done. split; [by exists x|]. right. intros E. apply Hxi. rewrite <- E. symmetry.
        apply (i_txn _ _ H x). cbn. intros E'. unfold is_active in Hx. by rewrite E' in Hx.
  - intros tn e. rewrite Hhis, (i_history _ _ H). cbn. by setoid_rewrite Hcom; setoid_rewrite HW; setoid_rewrite Htx.
  - intros x. rewrite Hl', (i_log _ _ H). cbn. destruct (decide (x = i)) as [->|]; [|rewrite fset_ne by done; naive_solver].
    rewrite fset_eq. split; [tauto|]. intros Hlog. split; [|done].
    destruct Hcase as [(_ & _ & ? & _)|([E|E] & _)]; [done|unfold in_log in Hlog; by rewrite E in Hlog..].
  - destruct Hcase as [(_ & -> & _)|(_ & ->)]; [apply (i_lognd _ _ H)|]. apply NoDup_filter, (i_lognd _ _ H).
  - intros x tn. rewrite Hcom. intros Hx%(i_tn _ _ H). cbn in Hx. lia.
  - intros x j tn. rewrite Hcom, Hbeg. intros Hx Hj%Hidle. by apply (i_distinct _ _ H x).
  - intros x j tn. rewrite Hcom, Hbeg, Hins. intros Hx Hxi Hj%Hidle. by apply (i_quiet _ _ H x).
  - intros x sn. unfold fset. case_decide; [by intros ?%Hne'|apply (i_snap _ _ H)].
  - intros l1 m l2 j E Hj. rewrite HW. intros HWj. unfold earlier, ordered. rewrite Hcom, !Hbeg, HW, Htx, Hacc.
    destruct (Hsplit _ _ _ E) as (k1 & k2 & El & Hk).
    assert (j ∈ k1) as Hjk by (destruct Hk as [-> | ->]; [done|by apply elem_of_drop_log in Hj as [_ ?]]).
    destruct (decide (m = i)) as [->|Hm].
    + rewrite fset_eq. assert (i ∈ l') as Hil by (rewrite E; set_solver). apply Hl' in Hil as [_ Hlog]. specialize (Hlog eq_refl).
      destruct Hcase as [(-> & _ & _ & Hord)|([E'|E'] & _)]; [|unfold in_log in Hlog; by rewrite E' in Hlog..].
      by apply (Hord k1 k2).
    + rewrite fset_ne by done. by apply (i_order _ _ H k1 m k2 j).
  - intros l1 m l2 a E. rewrite Hacc, Hbeg. setoid_rewrite Hcom. setoid_rewrite HW. intros Hma Hall.
    destruct (Hsplit _ _ _ E) as (k1 & k2 & El & Hk). rewrite (Hser _ _ _ Hk). apply (i_read _ _ H k1 m k2 a El Hma).
    intros j tn Hj Hjc. apply Hall; [|done]. destruct Hk as [-> | ->]; [done|]. apply elem_of_drop_log. split; [|done].
    intros ->. cbn in Hjc. congruence.
  - intros m a Hm. rewrite Hacc, Hbeg. setoid_rewrite Hcom. setoid_rewrite HW.
    assert (m <> i) by (intros ->; by rewrite fset_eq in Hm). rewrite fset_ne in Hm by done. by apply (i_run _ _ H).
  - intros r Hr. rewrite Hser'. apply (i_cur _ _ H). intros x. rewrite <- Hpen. apply Hr.
  - intros x r a. rewrite Hpen, Hacc, Hser'. apply (i_pend _ _ H).
Qed.

(** The transactions tested against, as [validate_check] sees them. *)
Lemma check_disjoint T m s rset wset j r :
  x_pc (T m) = Entered s -> his_sorted (his s) -> accounted (x_tx (T m)) ->
  get_rw_set (x_tx (T m)) = Ok (rset, wset) ->
  validate_check true (begun (T m)) rset wset s = true -> ordered T j m ->
  r ∈ W (T j) -> r ∉ ac_row <$> acc (T m).
Proof using v0.
  intros Hpc Hs Hacc Hrw Hck Hord Hr. rewrite get_rw_set_ok in Hrw by done. injection Hrw as <- <-.
  apply validate_check_spec in Hck as [Hh Ha]; [|done]. unfold ordered in Hord. rewrite Hpc in Hord.
  unfold acc. rewrite <- elem_of_rows, elem_of_app. destruct Hord as [Hj|(tn & Hj & Hlt)].
  - destruct (Ha _ r Hj Hr). tauto.
  - destruct (Hh tn _ r Hj Hlt Hr) as [? Hw]. specialize (Hw eq_refl). tauto.
Qed.

Lemma active_txn s x : inv v0 s -> is_active (st_txn s x) = true -> ot_txn (x_tx (st_txn s x)) = x.
Proof using Type. intros H Hx. apply (i_txn _ _ H x). intros E. unfold is_active in Hx. by rewrite E in Hx. Qed.

(** What [finish] does to the validator for a transaction that has validated. *)
Lemma finish_view db o T clk l i rc ts o' :
  inv v0 (mkState db o T clk l) -> x_pc (T i) = Valid -> few o -> clk < ts ->
  central_finish rc ts (x_tx (T i)) o = Ok o' ->
  opt_wf ts o' /\ (forall e, e ∈ active o' <-> e ∈ active o /\ se_txn e <> i) /\
  (forall tn e, (tn, e) ∈ history o' <->
     (rc = RCOK /\ W (T i) <> [] /\ tn = ts /\ e = write_ent (x_tx (T i))) \/ (tn, e) ∈ history o).
Proof using v0.
  intros H Hpc Hfew Hclk Hfin. destruct (i_txn _ _ H i) as (Htxn & Hacct & _); [cbn; congruence|]. cbn in Htxn, Hacct.
  destruct (occ_finish_correct clk rc ts (x_tx (T i)) o (i_wf _ _ H) Hfew Hacct Hclk) as (o1 & E1 & Hwf' & Hro & Hrw).
  rewrite Hfin in E1. injection E1 as <-. split; [done|].
  change (write_rows (ot_accesses (x_tx (T i)))) with (W (T i)) in *. rewrite Htxn in *.
  destruct (decide (W (T i) = [])) as [HWi|HWi].
  - rewrite Hro by by left. split; [|intros tn e; tauto]. intros e. split; [|tauto]. intros He. split; [done|].
    intros Hei. apply (i_active _ _ H) in He as (x & Hx & HWx & ->). cbn in *.
    assert (ot_txn (x_tx (T x)) = x) as Hx'.
    { apply (i_txn _ _ H x). cbn. intros E. unfold is_active in Hx. by rewrite E in Hx. }
    congruence.
  - destruct (Hrw HWi) as (Hh & _ & Ha).
    { apply list_elem_of_fmap. exists (write_ent (x_tx (T i))). split; [done|]. apply (i_active _ _ H). exists i.
      cbn. unfold is_active. by rewrite Hpc. }
    split; [done|]. intros tn e. rewrite Hh. case_decide; [rewrite elem_of_cons|]; naive_solver.
Qed.

(** What it does for a transaction that gives up, validated or not. *)
Lemma abort_view db o T clk l i ts o' :
  inv v0 (mkState db o T clk l) -> x_pc (T i) = Running \/ x_pc (T i) = Valid -> few o -> clk < ts ->
  central_finish Abort ts (x_tx (T i)) o = Ok o' ->
  opt_wf ts o' /\ (forall e, e ∈ active o' <-> e ∈ active o /\ se_txn e <> i) /\ history o' = history o.
Proof using v0.
  intros H Hpc Hfew Hclk Hfin. destruct (i_txn _ _ H i) as (Htxn & Hacct & _); [cbn; destruct Hpc; congruence|].
  cbn in Htxn, Hacct.
  destruct (occ_finish_correct clk Abort ts (x_tx (T i)) o (i_wf _ _ H) Hfew Hacct Hclk) as (o1 & E1 & Hwf' & Hro & Hrw).
  rewrite Hfin in E1. injection E1 as <-. split; [done|].
  change (write_rows (ot_accesses (x_tx (T i)))) with (W (T i)) in *. rewrite Htxn in *.
  destruct (decide (W (T i) <> [] /\ i ∈ se_txn <$> active o)) as [[HWi Hi]|Hn].
  { destruct (Hrw HWi Hi) as (Hh & _ & Ha). by rewrite Hh. }
  rewrite Hro by (destruct (decide (W (T i) = [])); [by left|right; tauto]). split; [|done]. intros e.
  split; [|tauto]. intros He. split; [done|]. intros Hei.
  apply Hn. split; [|rewrite <- Hei; by apply list_elem_of_fmap_2].
  apply (i_active _ _ H) in He as (x & Hx & HWx & ->). cbn in *.
  pose proof (active_txn _ x H Hx) as Ex. cbn in Ex. by rewrite <- Hei, Ex.
Qed.

(** [finish] of a validated transaction: its write set goes on the history. *)
Lemma inv_commit db o T clk l i ts o' :
  inv v0 (mkState db o T clk l) -> x_pc (T i) = Valid -> clk < ts -> few o ->
  central_finish RCOK ts (x_tx (T i)) o = Ok o' ->
  inv v0 (mkState db o' (fset i (mkT (x_tx (T i)) (Installing (length (ot_accesses (x_tx (T i)))) ts)) T) ts l).
Proof using v0.
  intros H Hpc Hclk Hfew Hfin. set (t' := mkT (x_tx (T i)) _).
  destruct (i_txn _ _ H i) as (Htxn & Hacct & Hbegi); [cbn; congruence|]. cbn in Htxn, Hacct, Hbegi.
  assert (committed (T i) = None /\ pending (T i) = [] /\ installing (T i) = false /\ in_log (T i) = true) as (Hc & Hp & Hin & Hlog)
    by (unfold committed, pending, installing, in_log; by rewrite Hpc).
  assert (forall x, x_tx (fset i t' T x) = x_tx (T x)) as Htx by (intros; by apply (fset_view x_tx)).
  assert (forall x, acc (fset i t' T x) = acc (T x)) as Hacc by (intros; unfold acc; by rewrite Htx).
  assert (forall x, W (fset i t' T x) = W (T x)) as HW by (intros; unfold W; by rewrite Hacc).
  assert (forall x, begun (fset i t' T x) = begun (T x)) as Hbeg by (intros; unfold begun; by rewrite Htx).
  assert (forall x, x_pc (fset i t' T x) <> Idle -> x_pc (T x) <> Idle) as Hidle
    by (intros x Hx E; destruct (decide (x = i)) as [->|]; [congruence|by rewrite fset_ne in Hx]).
  assert (forall x tn, committed (fset i t' T x) = Some tn <-> (x = i /\ tn = ts) \/ committed (T x) = Some tn) as Hcom.
  { intros x tn. destruct (decide (x = i)) as [->|]; [rewrite fset_eq, Hc; cbn; naive_solver|].
    rewrite fset_ne by done. naive_solver. }
  assert (forall x, x <> i -> pending (fset i t' T x) = pending (T x)) as Hpen by (intros; by rewrite fset_ne).
  assert (pending (fset i t' T i) = acc (T i)) as Hpeni
    by (rewrite fset_eq; unfold pending; cbn; by rewrite firstn_all).
  assert (i ∈ l) as Hil by by apply (i_log _ _ H).
  destruct (finish_view _ _ _ _ _ _ _ _ _ H Hpc Hfew Hclk Hfin) as (Hwf' & Hact & Hhis).
  (* the others in the log: none that has committed meets its writes later *)
  assert (forall l1 l2 m tn r, l = l1 ++ i :: l2 -> m ∈ l2 -> committed (T m) = Some tn -> r ∈ W (T i) -> r ∉ W (T m)) as Hlater.
  { intros l1 l2 m tn r El Hm Hmc Hr Hrm. apply list_elem_of_split in Hm as (m1 & m2 & Em).
    destruct (i_order _ _ H (l1 ++ i :: m1) m m2 i) as [(tn' & Hc' & _)|Hord]; cbn.
    - by rewrite El, Em, <- app_assoc.
    - apply elem_of_app. right. by left.
    - intros E. rewrite E in Hr. by apply not_elem_of_nil in Hr.
    - cbn in Hc'. congruence.
    - unfold ordered in Hord. unfold committed in Hmc. destruct (x_pc (st_txn (mkState db o T clk l) m)) eqn:Em'; cbn in Em';
        rewrite Em' in Hmc; try done; by apply (Hord r Hr), W_rows. }
  (* no other transaction is installing one of its rows *)
  assert (forall x r, r ∈ write_rows (pending (T x)) -> r ∉ W (T i)) as Halone.
  { intros x r Hx Hr. destruct (pending_installing _ _ Hx) as (Hxin & tn & Hxc). apply pending_W in Hx.
    assert (x ∈ l) as Hxl by (apply (i_log _ _ H); by eapply occ_committed_in_log).
    assert (x <> i) by congruence.
    apply list_elem_of_split in Hil as (l1 & l2 & El). rewrite El in Hxl. apply elem_of_app in Hxl as [Hx1|Hx2].
    - destruct (i_order _ _ H l1 i l2 x El Hx1) as [(tn' & Hc' & Hlt)|Hord].
      + intros E. cbn in E. rewrite E in Hx. by apply not_elem_of_nil in Hx.
      + cbn in Hc', Hlt. assert (tn' = tn) as -> by congruence.
        pose proof (i_quiet _ _ H x i tn Hxc Hxin ltac:(cbn; congruence)). cbn in *. lia.
      + unfold ordered in Hord. cbn in Hord. rewrite Hpc in Hord. by apply (Hord r Hx), W_rows.
    - apply elem_of_cons in Hx2 as [|Hx2]; [done|]. by apply (Hlater l1 l2 x tn r). }
  assert (forall x r, x <> i \/ r ∉ W (T i) -> written (fset i t' T x) r = written (T x) r) as Hwr.
  { intros x r Hor. destruct (decide (x = i)) as [->|]; [|by rewrite fset_ne].
    rewrite !occ_written_None; [done|by left|]. right. rewrite HW. tauto. }
  assert (forall k r, i ∉ k \/ r ∉ W (T i) -> serial (fset i t' T) k v0 r = serial T k v0 r) as Hser.
  { intros k r Hor. apply serial_same. intros x Hx. apply Hwr. destruct Hor as [Hor|]; [left; congruence|by right]. }
  assert (forall r a, find_write r (acc (T i)) = Some a -> serial (fset i t' T) l v0 r = ac_data a) as Hnew.
  { intros r a Hf. apply list_elem_of_split in Hil as (l1 & l2 & El). rewrite El. apply serial_writer.
    - rewrite fset_eq. unfold written. cbn. change (acc t') with (acc (T i)). by rewrite Hf.
    - intros y Hy. assert (y <> i) as Hyi.
      { intros ->. pose proof (i_lognd _ _ H) as Hnd. cbn in Hnd. rewrite El in Hnd.
        apply NoDup_app in Hnd as (_ & _ & Hnd). by apply NoDup_cons in Hnd as [? _]. }
      rewrite Hwr by by left. destruct (committed (T y)) as [tn|] eqn:Hyc; [|apply occ_written_None; by left].
      apply occ_written_None. right. apply (Hlater l1 l2 y tn r); [done|done|done|]. by eapply find_write_Some. }
  split; cbn [st_db st_opt st_txn st_clk st_log].
  - done.
  - intros x Hx%Hidle. rewrite Htx, Hbeg. destruct (i_txn _ _ H x Hx) as (? & ? & ?). split_and!; [done|done|].
    cbn in *. lia.
  - intros e. rewrite Hact, (i_active _ _ H). cbn. setoid_rewrite HW. setoid_rewrite Htx. split.
    + intros [(x & Hx & HWx & ->) Hne]. exists x. split_and!; [|done|done].
      rewrite fset_ne; [done|]. intros ->. by apply Hne.
    + intros (x & Hx & HWx & ->). assert (x <> i) as Hxi by (intros ->; by rewrite fset_eq in Hx).
      rewrite fset_ne in Hx by done. split; [by exists x|]. intros E. apply Hxi. rewrite <- E. symmetry.
      apply (i_txn _ _ H x). cbn. intros E'. unfold is_active in Hx. by rewrite E' in Hx.
  - intros tn e. setoid_rewrite HW. setoid_rewrite Htx. setoid_rewrite Hcom. rewrite Hhis, (i_history _ _ H). cbn. split.
    + intros [(_ & HWi & -> & ->)|(x & Hx & HWx & ->)]; [exists i; auto|exists x; auto].
    + intros (x & [[-> ->]|Hx] & HWx & ->); [by left|right; by exists x].
  - intros x. rewrite (i_log _ _ H). cbn. by rewrite (fset_view in_log) by by rewrite Hlog.
  - apply (i_lognd _ _ H).
  - intros x tn [[-> ->]|Hx%(i_tn _ _ H)]%Hcom; [lia|]. cbn in Hx. lia.
  - intros x j tn Hx Hj%Hidle. rewrite Hbeg. destruct (i_txn _ _ H j Hj) as (_ & _ & Hle). cbn in Hle.
    apply Hcom in Hx as [[-> ->]|Hx]; [lia|]. by apply (i_distinct _ _ H x).
  - intros x j tn Hx Hxin Hj%Hidle. rewrite Hbeg. destruct (i_txn _ _ H j Hj) as (_ & _ & Hle). cbn in Hle.
    apply Hcom in Hx as [[-> ->]|Hx]; [lia|]. rewrite fset_ne in Hxin by congruence. by apply (i_quiet _ _ H x).
  - intros x sn. unfold fset. case_decide; [done|apply (i_snap _ _ H)].
  - intros l1 m l2 j E Hj. rewrite HW. intros HWj. destruct (i_order _ _ H l1 m l2 j E Hj HWj) as [(tn & ? & ?)|Hord].
    + left. exists tn. rewrite Hcom, Hbeg. auto.
    + right. unfold ordered in *. rewrite Hbeg, HW, Htx, Hacc. destruct (decide (m = i)) as [->|].
      * cbn in Hord. rewrite Hpc in Hord. by rewrite fset_eq.
      * by rewrite fset_ne.
  - intros l1 m l2 a E. rewrite Hacc, Hbeg. setoid_rewrite HW. intros Hma Hall.
    rewrite Hser.
    + apply (i_read _ _ H l1 m l2 a E Hma). intros j tn Hj Hjc. apply Hall; [done|]. apply Hcom. by right.
    + destruct (decide (i ∈ l1)) as [Hi|]; [|by left]. right. intros Hr.
      specialize (Hall i ts Hi). rewrite Hcom in Hall. specialize (Hall (or_introl (conj eq_refl eq_refl)) Hr).
      assert (x_pc (T m) <> Idle) as Hm.
      { intros Hm. assert (m ∈ l) as Hml by (cbn in E; rewrite E; set_solver). apply (i_log _ _ H) in Hml. cbn in Hml.
        unfold in_log in Hml. by rewrite Hm in Hml. }
      destruct (i_txn _ _ H m Hm) as (_ & _ & Hle). cbn in Hle. lia.
  - intros m a Hm. rewrite Hacc, Hbeg. setoid_rewrite Hcom. setoid_rewrite HW.
    assert (m <> i) by (intros ->; by rewrite fset_eq in Hm). rewrite fset_ne in Hm by done.
    intros Ha. destruct (i_run _ _ H m a Hm Ha) as [|(j & tn & ? & ? & ?)]; [by left|right; exists j, tn; auto].
  - intros r Hr. assert (r ∉ W (T i)) as Hri by (specialize (Hr i); by rewrite Hpeni in Hr).
    rewrite Hser by by right. apply (i_cur _ _ H). intros x Hx. cbn in Hx. apply (Hr x).
    destruct (decide (x = i)) as [->|]; [by rewrite Hp in Hx; apply not_elem_of_nil in Hx|by rewrite Hpen].
  - intros x r a. rewrite Hacc. destruct (decide (x = i)) as [->|Hxi]; [intros _; apply Hnew|].
    rewrite Hpen by done. intros Hr Hf. rewrite Hser by (right; by apply (Halone x)). by apply (i_pend _ _ H x).
Qed.

(** One iteration of the loop of [cleanup]. *)
Lemma occ_inv_install db o T clk l i k tn a db' :
  inv v0 (mkState db o T clk l) -> x_pc (T i) = Installing (S k) tn -> acc (T i) !! k = Some a ->
  cleanup_row false RCOK (ot_end_timestamp (x_tx (T i))) a db = Ok db' ->
  inv v0 (mkState db' o (fset i (mkT (x_tx (T i)) (Installing k tn)) T) clk l).
Proof using v0.
  intros H Hpc Ha Hcl. set (t' := mkT (x_tx (T i)) (Installing k tn)).
  assert (forall x, x_tx (fset i t' T x) = x_tx (T x)) as Htx by (intros; by apply (fset_view x_tx)).
  assert (forall x, acc (fset i t' T x) = acc (T x)) as Hacc by (intros; unfold acc; by rewrite Htx).
  assert (forall x, W (fset i t' T x) = W (T x)) as HW by (intros; unfold W; by rewrite Hacc).
  assert (forall x, begun (fset i t' T x) = begun (T x)) as Hbeg by (intros; unfold begun; by rewrite Htx).
  assert (forall x, committed (fset i t' T x) = committed (T x)) as Hcom
    by (intros; apply fset_view; unfold committed; by rewrite Hpc).
  assert (forall x, is_active (fset i t' T x) = is_active (T x)) as Hact
    by (intros; apply fset_view; unfold is_active; by rewrite Hpc).
  assert (forall x, in_log (fset i t' T x) = in_log (T x)) as Hlog
    by (intros; apply fset_view; unfold in_log; by rewrite Hpc).
  assert (forall x, installing (fset i t' T x) = installing (T x)) as Hins
    by (intros; apply fset_view; unfold installing; by rewrite Hpc).
  assert (forall x, x_pc (fset i t' T x) <> Idle -> x_pc (T x) <> Idle) as Hidle
    by (intros x Hx E; destruct (decide (x = i)) as [->|]; [congruence|by rewrite fset_ne in Hx]).
  assert (forall x, x <> i -> pending (fset i t' T x) = pending (T x)) as Hpen by (intros; by rewrite fset_ne).
  assert (pending (fset i t' T i) = take k (acc (T i))) as Hpeni by by rewrite fset_eq.
  assert (pending (T i) = take k (acc (T i)) ++ [a]) as Hpi
    by (unfold pending; rewrite Hpc; by apply take_S_r).
  assert (forall k r, serial (fset i t' T) k v0 r = serial T k v0 r) as Hser
    by (intros k' r; apply serial_same; intros x _; unfold written; by rewrite Hcom, Hacc).
  assert (committed (T i) = Some tn /\ installing (T i) = true) as (Hc & Hin)
    by (unfold committed, installing; by rewrite Hpc).
  assert (forall r, data db' r = if decide (ac_type a = WR /\ ac_row a = r) then ac_data a else data db r) as Hdata.
  { intros r. unfold cleanup_row, return_row in Hcl. rewrite (decide_False (P := _ /\ RCOK = Abort)) in Hcl by (by intros [_ ?]).
    unfold data. destruct (decide (ac_type a = WR)); cbn in Hcl; injection Hcl as <-; unfold fset;
      case_decide as Hr; cbn; [|rewrite decide_False; naive_solver| |rewrite decide_False; naive_solver].
    - by rewrite decide_True.
    - rewrite decide_False by tauto. by subst. }
  assert (forall r, r ∈ write_rows (pending (T i)) <->
    r ∈ write_rows (take k (acc (T i))) \/ (ac_type a = WR /\ ac_row a = r)) as Hpr.
  { intros r. rewrite Hpi, write_rows_app, elem_of_app, write_rows_cons. change (write_rows []) with (@nil nat).
    destruct (decide (ac_type a = WR)); [rewrite list_elem_of_singleton|rewrite elem_of_nil]; naive_solver. }
  split; cbn [st_db st_opt st_txn st_clk st_log].
  - apply (i_wf _ _ H).
  - intros x Hx%Hidle. rewrite Htx, Hbeg. by apply (i_txn _ _ H x).
  - intros e. rewrite (i_active _ _ H). cbn. by setoid_rewrite Hact; setoid_rewrite HW; setoid_rewrite Htx.
  - intros tn' e. rewrite (i_history _ _ H). cbn. by setoid_rewrite Hcom; setoid_rewrite HW; setoid_rewrite Htx.
  - intros x. rewrite Hlog. apply (i_log _ _ H).
  - apply (i_lognd _ _ H).
  - intros x tn'. rewrite Hcom. apply (i_tn _ _ H).
  - intros x j tn'. rewrite Hcom, Hbeg. intros Hx Hj%Hidle. by apply (i_distinct _ _ H x).
  - intros x j tn'. rewrite Hcom, Hbeg, Hins. intros Hx Hxi Hj%Hidle. by apply (i_quiet _ _ H x).
  - intros x sn. destruct (decide (x = i)) as [->|]; [by rewrite fset_eq|].
    rewrite fset_ne by done. apply (i_snap _ _ H).
  - intros l1 m l2 j E Hj. rewrite HW. intros HWj. unfold earlier. rewrite Hcom, Hbeg.
    destruct (i_order _ _ H l1 m l2 j E Hj HWj) as [|Hord]; [by left|]. right.
    unfold ordered in *. rewrite Hbeg, HW, Htx, Hacc. destruct (decide (m = i)) as [->|]; [|by rewrite fset_ne].
    cbn in Hord. rewrite Hpc in Hord. by rewrite fset_eq.
  - intros l1 m l2 b E. rewrite Hacc, Hbeg, Hser. setoid_rewrite Hcom. setoid_rewrite HW. by apply (i_read _ _ H l1 m l2).
  - intros m b Hm. rewrite Hacc, Hbeg. setoid_rewrite Hcom. setoid_rewrite HW.
    assert (m <> i) by (intros ->; by rewrite fset_eq in Hm). rewrite fset_ne in Hm by done. intros Hb.
    rewrite Hdata. destruct (decide (ac_type a = WR /\ ac_row a = ac_row b)) as [[Hw Hr]|]; [|by apply (i_run _ _ H)]. right. exists i, tn.
    split_and!; [done| |].
    + apply (i_quiet _ _ H i m tn); [done|done|]. cbn. congruence.
    + rewrite <- Hr. apply pending_W, Hpr. by right.
  - intros r Hr. rewrite Hser, Hdata.
    assert (r ∉ write_rows (take k (acc (T i)))) as Hri by (rewrite <- Hpeni; apply Hr).
    destruct (decide (ac_type a = WR /\ ac_row a = r)) as [Hra|Hra].
    + apply (i_pend _ _ H i r); cbn; [apply Hpr; by right|].
      rewrite <- (take_drop k (acc (T i))), find_write_app, (proj2 (find_write_None _ _) Hri).
      rewrite (drop_S _ _ _ Ha). cbn. by rewrite decide_True.
    + apply (i_cur _ _ H). intros x Hx. cbn in Hx. apply (Hr x). destruct (decide (x = i)) as [->|].
      * rewrite Hpeni. apply Hpr in Hx as [|]; [done|tauto].
      * by rewrite Hpen.
  - intros x r b Hr. rewrite Hacc, Hser. apply (i_pend _ _ H x). cbn. destruct (decide (x = i)) as [->|]; [|by rewrite Hpen in Hr].
    rewrite Hpeni in Hr. apply Hpr. by left.
Qed.

Lemma inv_done db o T clk l i tn :
  inv v0 (mkState db o T clk l) -> x_pc (T i) = Installing 0 tn ->
  inv v0 (mkState db o (fset i (mkT (x_tx (T i)) (Done tn)) T) clk l).
Proof using v0.
  intros H Hpc. set (t' := mkT (x_tx (T i)) (Done tn)).
  assert (forall x, x_tx (fset i t' T x) = x_tx (T x)) as Htx by (intros; by apply (fset_view x_tx)).
  assert (forall x, acc (fset i t' T x) = acc (T x)) as Hacc by (intros; unfold acc; by rewrite Htx).
  assert (forall x, W (fset i t' T x) = W (T x)) as HW by (intros; unfold W; by rewrite Hacc).
  assert (forall x, begun (fset i t' T x) = begun (T x)) as Hbeg by (intros; unfold begun; by rewrite Htx).
  assert (forall x, committed (fset i t' T x) = committed (T x)) as Hcom
    by (intros; apply fset_view; unfold committed; by rewrite Hpc).
  assert (forall x, is_active (fset i t' T x) = is_active (T x)) as Hact
    by (intros; apply fset_view; unfold is_active; by rewrite Hpc).
  assert (forall x, in_log (fset i t' T x) = in_log (T x)) as Hlog
    by (intros; apply fset_view; unfold in_log; by rewrite Hpc).
  assert (forall x, pending (fset i t' T x) = pending (T x)) as Hpen
    by (intros; apply fset_view; unfold pending; by rewrite Hpc).
  assert (forall x, installing (fset i t' T x) = true -> installing (T x) = true) as Hins
    by (intros x; destruct (decide (x = i)) as [->|]; [by rewrite fset_eq|by rewrite fset_ne]).
  assert (forall x, x_pc (fset i t' T x) <> Idle -> x_pc (T x) <> Idle) as Hidle
    by (intros x Hx E; destruct (decide (x = i)) as [->|]; [congruence|by rewrite fset_ne in Hx]).
  assert (forall k r, serial (fset i t' T) k v0 r = serial T k v0 r) as Hser
    by (intros k' r; apply serial_same; intros x _; unfold written; by rewrite Hcom, Hacc).
  split; cbn [st_db st_opt st_txn st_clk st_log].
  - apply (i_wf _ _ H).
  - intros x Hx%Hidle. rewrite Htx, Hbeg. by apply (i_txn _ _ H x).
  - intros e. rewrite (i_active _ _ H). cbn. by setoid_rewrite Hact; setoid_rewrite HW; setoid_rewrite Htx.
  - intros tn' e. rewrite (i_history _ _ H). cbn. by setoid_rewrite Hcom; setoid_rewrite HW; setoid_rewrite Htx.
  - intros x. rewrite Hlog. apply (i_log _ _ H).
  - apply (i_lognd _ _ H).
  - intros x tn'. rewrite Hcom. apply (i_tn _ _ H).
  - intros x j tn'. rewrite Hcom, Hbeg. intros Hx Hj%Hidle. by apply (i_distinct _ _ H x).
  - intros x j tn'. rewrite Hcom, Hbeg. intros Hx Hxi%Hins Hj%Hidle. by apply (i_quiet _ _ H x).
  - intros x sn. destruct (decide (x = i)) as [->|]; [by rewrite fset_eq|].
    rewrite fset_ne by done. apply (i_snap _ _ H).
  - intros l1 m l2 j E Hj. rewrite HW. intros HWj. unfold earlier. rewrite Hcom, Hbeg.
    destruct (i_order _ _ H l1 m l2 j E Hj HWj) as [|Hord]; [by left|]. right.
    unfold ordered in *. rewrite Hbeg, HW, Htx, Hacc. destruct (decide (m = i)) as [->|]; [|by rewrite fset_ne].
    cbn in Hord. rewrite Hpc in Hord. by rewrite fset_eq.
  - intros l1 m l2 b E. rewrite Hacc, Hbeg, Hser. setoid_rewrite Hcom. setoid_rewrite HW. by apply (i_read _ _ H l1 m l2).
  - intros m b Hm. rewrite Hacc, Hbeg. setoid_rewrite Hcom. setoid_rewrite HW.
    assert (m <> i) by (intros ->; by rewrite fset_eq in Hm). rewrite fset_ne in Hm by done. by apply (i_run _ _ H).
  - intros r Hr. rewrite Hser. apply (i_cur _ _ H). intros x. rewrite <- Hpen. apply Hr.
  - intros x r b. rewrite Hpen, Hacc, Hser. apply (i_pend _ _ H).
Qed.

Context (Hquiet : quiet = true) (Htpcc : tpcc = true).

Lemma set_accesses_accounted pre a post d (tx : OccTxn D) :
  ot_accesses tx = pre ++ a :: post -> accounted tx -> accounted (set_accesses (pre ++ set_data d a :: post) tx).
Proof using Type.
  unfold accounted. cbn [set_accesses ot_accesses ot_row_cnt ot_write_cnt]. intros ->.
  rewrite !length_app, !write_rows_app, !write_rows_cons. cbn [length set_data ac_type ac_row]. done.
Qed.

Lemma occ_inv_step s s' : inv v0 s -> step s s' -> inv v0 s'.
Proof using Hquiet Htpcc.
  intros H Hs. destruct Hs as
    [db o T clk l i ts Hpc Hclk Hq|db o T clk l i ty r tx Hpc Hlen Hget|db o T clk l i pre a post d Hpc Hacc Hw
    |db o T clk l i ts rset wset s o' Hpc Hclk Hfew Hrw Hen|db o T clk l i s rset wset Hpc Hrw Hck
    |db o T clk l i s rset wset Hpc Hrw Hck|db o T clk l i Hpc Hfew|db o T clk l i ts o' Hpc Hclk Hfew Hfin
    |db o T clk l i ts o' Hpc Hclk Hfew Hfin|db o T clk l i k tn a db' Hpc Ha Hcl|db o T clk l i tn Hpc].
  - apply (inv_running db o T clk); try done; [by left|lia|right; cbn; lia| |].
    + intros j Hj. by rewrite Hq in Hj.
    + intros a Ha. by apply not_elem_of_nil in Ha.
  - destruct (i_txn _ _ H i) as (Htxn & Hacct & Hbeg); [cbn; congruence|]. cbn in Htxn, Hacct, Hbeg.
    unfold get_row, row_access, latch in Hget. destruct (ro_latch (db r)); [done|]. cbn in Hget.
    destruct (_ <? _); [done|]. injection Hget as <-.
    apply (inv_running db o T clk); try done; [by right|by apply add_access_accounted|by left|].
    cbn. intros a [Ha| ->%list_elem_of_singleton]%elem_of_app; [|by left]. by apply (i_run _ _ H i).
  - destruct (i_txn _ _ H i) as (Htxn & Hacct & Hbeg); [cbn; congruence|]. cbn in Htxn, Hacct, Hbeg.
    apply (inv_running db o T clk); try done; [by right|by apply set_accesses_accounted|by left|].
    cbn. intros b Hb. pose proof (i_run _ _ H i) as Hrun. cbn in Hrun. unfold acc in Hrun. rewrite Hacc in Hrun.
    apply elem_of_app in Hb as [Hb|[->|Hb]%elem_of_cons].
    + apply Hrun; [done|set_solver].
    + apply (Hrun a); [done|set_solver].
    + apply Hrun; [done|set_solver].
  - by eapply inv_enter.
  - destruct (i_txn _ _ H i) as (Htxn & Hacct & Hbeg); [cbn; congruence|]. cbn in Htxn, Hacct, Hbeg.
    apply (inv_uncommitted db o o T clk clk l l); try done; [congruence|unfold committed; by rewrite Hpc|apply (i_wf _ _ H)| | |].
    + intros e. cbn. tauto.
    + intros _. unfold is_active. by rewrite Hpc.
    + left. split_and!; [done|done|unfold in_log; by rewrite Hpc|]. intros l1 l2 j El Hj HWj.
      destruct (i_order _ _ H l1 i l2 j El Hj HWj) as [|Hord]; [by left|]. right. intros r. subst tpcc.
      by eapply check_disjoint; [|apply (i_snap _ _ H i)|..].
  - apply (inv_uncommitted db o o T clk clk l); try done; [congruence|unfold committed; by rewrite Hpc|apply (i_wf _ _ H)| | |].
    + intros e. cbn. tauto.
    + intros _. unfold is_active. by rewrite Hpc.
    + right. auto.
  - destruct (validate_fail_ok clk i o (i_wf _ _ H) Hfew) as (Hwf & Hh & _ & Hact).
    apply (inv_uncommitted db o _ T clk clk l); try done; [congruence|unfold committed; by rewrite Hpc| |].
    + intros e. rewrite Hact. cbn. naive_solver.
    + right. split_and!; [auto|]. symmetry. apply drop_log_absent. intros Hx.
      apply (i_log _ _ H) in Hx. cbn in Hx. unfold in_log in Hx. by rewrite Hpc in Hx.
  - by eapply inv_commit.
  - assert (committed (T i) = None /\ x_pc (T i) <> Idle) as [Hc Hni] by (unfold committed; by destruct Hpc as [-> | ->]).
    destruct (abort_view _ _ _ _ _ _ _ _ H Hpc Hfew Hclk Hfin) as (Hwf & Hact & Hh).
    apply (inv_uncommitted db o _ T clk ts l); try done; [lia| |].
    + intros e. rewrite Hact. cbn. naive_solver.
    + right. auto.
  - by eapply occ_inv_install.
  - by eapply inv_done.
Qed.
End Protocol.

Arguments TState : clear implicits.
Arguments State : clear implicits.

(** ** The main theorem *)

Section Serializability.
Context {D : Type}.
Implicit Types (db : Store D) (s : State D).

(** The committed transactions in the order in which they entered validation. *)
Definition commit_order s : list Z := filter (fun i => is_Some (committed (st_txn s i))) (st_log s).

Lemma occ_inv_start db : inv (data db) (start db).
Proof.
  split; cbn [st_db st_opt st_txn st_clk st_log start]; try done.
  - apply opt_wf_init.
  - intros e. cbn. split; [by intros ?%not_elem_of_nil|]. by intros (i & Hi & _).
  - intros tn e. cbn. split; [by intros ?%not_elem_of_nil|]. by intros (i & Hi & _).
  - intros i. cbn. split; [by intros ?%not_elem_of_nil|done].
  - constructor.
  - intros l1 m l2 a E. by destruct l1.
Qed.

Lemma serial_commit_order s l v r :
  serial written (st_txn s) (filter (fun i => is_Some (committed (st_txn s i))) l) v r = serial written (st_txn s) l v r.
Proof.
  apply serial_filter. intros x _ Hx. apply occ_written_None. left. by apply eq_None_not_Some.
Qed.

(** C7. In the TPCC configuration, and as long as no transaction begins while
    another one installs its writes, the committed transactions in the order
    in which they entered validation form a serial execution: every access of
    each of them read what the ones before it left, and once no installation
    is under way the rows hold what the last of them left. *)
Theorem occ_serializable db s :
  rtc (step true true) (start db) s ->
  (forall i, i ∈ commit_order s <-> exists tn, committed (st_txn s i) = Some tn) /\ NoDup (commit_order s) /\
  (forall l1 m l2 a, commit_order s = l1 ++ m :: l2 -> a ∈ ot_accesses (x_tx (st_txn s m)) ->
     serial written (st_txn s) l1 (data db) (ac_row a) = ac_read a) /\
  ((forall i, installing (st_txn s i) = false) ->
     forall r, serial written (st_txn s) (commit_order s) (data db) r = ro_data (st_db s r)).
Proof.
  intros Hrun. assert (inv (data db) s) as H.
  { apply (rtc_invariant _ _ _ _ (occ_inv_start db)) in Hrun; [done|]. intros x y. by apply occ_inv_step. }
  split_and!.
  - intros i. unfold commit_order. rewrite list_elem_of_filter, (i_log _ _ H). split; [by intros [[tn ?] _]; exists tn|].
    intros [tn Hi]. split; [by exists tn|]. by eapply occ_committed_in_log.
  - apply NoDup_filter, (i_lognd _ _ H).
  - intros l1 m l2 a E Ha. assert (m ∈ commit_order s) as Hm by (rewrite E; apply elem_of_app; right; by left).
    apply list_elem_of_filter in Hm as [[tn Hm] _].
    unfold commit_order in E. apply filter_split in E as (k1 & k2 & El & -> & _). rewrite serial_commit_order.
    apply (i_read _ _ H k1 m k2 a El Ha). intros j tn' Hj Hjc Hr.
    destruct (i_order _ _ H k1 m k2 j El Hj) as [(tn'' & Hjc' & Hlt)|Hord].
    + intros E. rewrite E in Hr. by apply not_elem_of_nil in Hr.
    + congruence.
    + exfalso. unfold ordered in Hord. unfold committed in Hm. destruct (x_pc (st_txn s m)); try done;
        apply (Hord _ Hr); by apply list_elem_of_fmap_2.
  - intros Hq r. unfold commit_order. rewrite serial_commit_order. apply (i_cur _ _ H). intros i Hi.
    apply pending_installing in Hi as [Hi _]. congruence.
Qed.
End Serializability.

(** ** Executions

    The steps as a function of a list of events, for the transactions of a
    finite set. *)

Inductive action (D : Type) :=
| ABegin (ts : Z)
| AAccess (ty : access_t) (r : nat)
| AWrite (k : nat) (d : D)
| AEnter (ts : Z)
| ACheck
| ACommit (ts : Z)
| AInstall
| ADone.
Arguments ABegin {D} ts. Arguments AAccess {D} ty r. Arguments AWrite {D} k d. Arguments AEnter {D} ts.
Arguments ACheck {D}. Arguments ACommit {D} ts. Arguments AInstall {D}. Arguments ADone {D}.

Section Exec.
Context {D : Type} (tpcc quiet : bool) (ids : list Z).

Definition exec (i : Z) (e : action D) (s : State D) : option (State D) :=
  let '(mkState db o T clk l) := s in
  let tx := x_tx (T i) in
  if negb (bool_decide (i ∈ ids)) then None else
  match e, x_pc (T i) with
  | ABegin ts, Idle =>
      if (clk <? ts) && (negb quiet || forallb (fun j => negb (installing (T j))) ids)
      then Some (mkState db o (fset i (mkT (new_txn i ts) Running) T) ts l) else None
  | AAccess ty r, Running =>
      if Z.of_nat (length (ot_accesses tx)) + 1 <? 4294967296 then
        match get_row ty r tx db with
        | Some (Ok (RCOK, tx')) => Some (mkState db o (fset i (mkT tx' Running) T) clk l)
        | _ => None
        end
      else None
  | AWrite k d, Running =>
      match ot_accesses tx !! k with
      | Some a =>
          if decide (ac_type a = WR) then
            let l' := take k (ot_accesses tx) ++ set_data d a :: drop (S k) (ot_accesses tx) in
            Some (mkState db o (fset i (mkT (set_accesses l' tx) Running) T) clk l)
          else None
      | None => None
      end
  | AEnter ts, Running =>
      if (clk <? ts) && (Z.of_nat (length (active o)) <? UINT64_MAX) then
        match get_rw_set tx with
        | Ok (rset, wset) =>
            match validate_enter ts wset o with
            | Ok (sn, o') => Some (mkState db o' (fset i (mkT tx (Entered sn)) T) ts (l ++ [i]))
            | AssertFail => None
            end
        | AssertFail => None
        end
      else None
  | ACheck, Entered sn =>
      match get_rw_set tx with
      | Ok (rset, wset) =>
          Some (if validate_check tpcc (ot_start_timestamp tx) rset wset sn
                then mkState db o (fset i (mkT tx Valid) T) clk l
                else mkState db o (fset i (mkT tx Failing) T) clk (drop_log i l))
      | AssertFail => None
      end
  | ACommit ts, Valid =>
      if (clk <? ts) && (Z.of_nat (length (active o)) <? UINT64_MAX) then
        match central_finish RCOK ts tx o with
        | Ok o' => Some (mkState db o' (fset i (mkT tx (Installing (length (ot_accesses tx)) ts)) T) ts l)
        | AssertFail => None
        end
      else None
  | AInstall, Installing (S k) tn =>
      match ot_accesses tx !! k with
      | Some a =>
          match cleanup_row false RCOK (ot_end_timestamp tx) a db with
          | Ok db' => Some (mkState db' o (fset i (mkT tx (Installing k tn)) T) clk l)
          | AssertFail => None
          end
      | None => None
      end
  | ADone, Installing O tn => Some (mkState db o (fset i (mkT tx (Done tn)) T) clk l)
  | _, _ => None
  end.

Fixpoint exec_all (es : list (Z * action D)) (s : State D) : option (State D) :=
  match es with
  | [] => Some s
  | (i, e) :: es' => match exec i e s with Some s' => exec_all es' s' | None => None end
  end.

Definition others_idle (s : State D) : Prop := forall j, j ∉ ids -> x_pc (st_txn s j) = Idle.

Lemma exec_sound i e s s' :
  others_idle s -> exec i e s = Some s' -> step tpcc quiet s s' /\ others_idle s'.
Proof using Type.
  intros Hidle He. destruct s as [db o T clk l]. unfold others_idle in *. cbn [st_txn] in Hidle. unfold exec in He.
  destruct (bool_decide (i ∈ ids)) eqn:Hi; cbn [negb] in He; [|done]. apply bool_decide_eq_true in Hi.
  assert (forall t j, j ∉ ids -> x_pc (fset i t T j) = Idle) as Hid.
  { intros t j Hj. rewrite fset_ne by congruence. by apply Hidle. }
  destruct e, (x_pc (T i)) eqn:Hpc; try done.
  - destruct (_ && _) eqn:E; [|done]. injection He as <-. apply andb_true_iff in E as [Hlt%Z.ltb_lt Hq].
    split; [|by intros; apply Hid]. apply s_begin; [done|done|]. intros ->. cbn in Hq. intros j.
    destruct (decide (j ∈ ids)) as [Hj|Hj]; [|by unfold installing; rewrite Hidle].
    rewrite forallb_forall in Hq. apply negb_true_iff, Hq. by apply list_elem_of_In.
  - destruct (_ <? _) eqn:E; [|done]. apply Z.ltb_lt in E.
    destruct (get_row ty r (x_tx (T i)) db) as [[[[] tx]|]|] eqn:Hg; try done. injection He as <-.
    split; [by eapply s_access|by intros; apply Hid].
  - destruct (ot_accesses (x_tx (T i)) !! k) as [a|] eqn:Ha; [|done]. case_decide as Hw; [|done].
    injection He as <-. split; [|by intros; apply Hid]. eapply s_write; [done| |done]. symmetry.
    by apply take_drop_middle.
  - destruct (_ && _) eqn:E; [|done]. apply andb_true_iff in E as [Hlt%Z.ltb_lt Hf%Z.ltb_lt].
    destruct (get_rw_set _) as [[rset wset]|] eqn:Hrw; [|done]. destruct (validate_enter _ _ _) as [[sn o']|] eqn:Hen; [|done].
    injection He as <-. split; [by eapply s_enter|by intros; apply Hid].
  - destruct (get_rw_set _) as [[rset wset]|] eqn:Hrw; [|done]. injection He as <-.
    destruct (validate_check _ _ _ _ _) eqn:Hck; (split; [|by intros; apply Hid]); [by eapply s_pass|by eapply s_reject].
  - destruct (_ && _) eqn:E; [|done]. apply andb_true_iff in E as [Hlt%Z.ltb_lt Hf%Z.ltb_lt].
    destruct (central_finish _ _ _ _) as [o'|] eqn:Hfin; [|done]. injection He as <-.
    split; [by apply s_commit|by intros; apply Hid].
  - destruct k as [|k]; [done|]. destruct (ot_accesses _ !! k) as [a|] eqn:Ha; [|done].
    destruct (cleanup_row _ _ _ _ _) as [db'|] eqn:Hcl; [|done]. injection He as <-.
    split; [by eapply s_install|by intros; apply Hid].
  - destruct k as [|k]; [|done]. injection He as <-. split; [by apply s_done|by intros; apply Hid].
Qed.

Lemma exec_all_sound es s s' :
  others_idle s -> exec_all es s = Some s' -> rtc (step tpcc quiet) s s' /\ others_idle s'.
Proof using Type.
  revert s. induction es as [|[i e] es IH]; cbn; intros s Hs; [by intros [= <-]|].
  destruct (exec i e s) as [s1|] eqn:E; [|done]. intros H. apply exec_sound in E as [? Hs1]; [|done].
  destruct (IH s1 Hs1 H). split; [by eapply rtc_l|done].
Qed.
End Exec.

(** ** Example executions: rows of integers, row [r] holds [10 * (r + 1)] *)

Definition ex_occ_rows : Store Z := fun r => row_init (10 * (Z.of_nat r + 1)).

(** What the examples look at: the commit order, the rows and the copies of
    the accesses of a transaction with what it writes at row 0, and two rows. *)
Definition view (t : TState Z) : list (nat * Z) * option Z :=
  ((fun a => (ac_row a, ac_read a)) <$> acc t, written t 0%nat).
Definition observe (s : State Z) : list Z * (list (nat * Z) * option Z) * (list (nat * Z) * option Z) * (Z * Z) :=
  (commit_order s, view (st_txn s 1), view (st_txn s 2), (ro_data (st_db s 0%nat), ro_data (st_db s 1%nat))).

(** A transaction of one update, up to the entry into validation. *)
Definition run_update (i ts : Z) (r : nat) (d : Z) : list (Z * action Z) :=
  [(i, ABegin ts); (i, AAccess WR r); (i, AWrite 0 d)].
Definition run_commit (i ts : Z) : list (Z * action Z) :=
  [(i, AEnter ts); (i, ACheck); (i, ACommit (ts + 1))].
Definition run_install (i : Z) : list (Z * action Z) := [(i, AInstall); (i, ADone)].

Lemma ex_run tpcc quiet es obs :
  (fun s => (observe s, forallb (fun j => negb (installing (st_txn s j))) [1; 2])) <$>
    exec_all tpcc quiet [1; 2] es (start ex_occ_rows) = Some (obs, true) ->
  exists s, rtc (step tpcc quiet) (start ex_occ_rows) s /\ observe s = obs /\
    forall i, installing (st_txn s i) = false.
Proof.
  intros H. destruct (exec_all tpcc quiet [1; 2] es (start ex_occ_rows)) as [s|] eqn:E; [|done].
  injection H as Ho Hi. exists s.
  destruct (exec_all_sound _ _ _ _ (start ex_occ_rows) _ ltac:(done) E) as [Hr Hid].
  split; [done|]. split; [done|]. intros i.
  destruct (decide (i ∈ [1; 2])) as [Hin|Hn]; [|unfold installing; by rewrite Hid].
  change (forallb (fun j => negb (installing (st_txn s j))) [1; 2] = true) in Hi.
  rewrite forallb_forall in Hi. apply negb_true_iff, Hi. by apply list_elem_of_In.
Qed.

Lemma occ_serializable_witness :
  exists s, rtc (step true true) (start ex_occ_rows) s /\ commit_order s = [1; 2] /\
    ro_data (st_db s 0%nat) = 11 /\ serial written (st_txn s) [1; 2] (data ex_occ_rows) 0%nat = 11.
Proof.
  destruct (ex_run true true
    (run_update 1 1 0 11 ++ run_update 2 2 1 21 ++ run_commit 1 3 ++ run_commit 2 5 ++ run_install 2 ++ run_install 1)
    ([1; 2], ([(0%nat, 10)], Some 11), ([(1%nat, 20)], None), (11, 21)) ltac:(vm_compute; reflexivity)) as (s & Hr & Ho & Hq).
  injection Ho as Hl _ _ _ _ Hd _. exists s. split; [exact Hr|]. split; [exact Hl|]. split; [exact Hd|].
  destruct (occ_serializable ex_occ_rows s Hr) as (_ & _ & _ & Hs). rewrite <- Hl, <- Hd. exact (Hs Hq 0%nat).
Defined.

(** No order of the transactions [1] and [2] explains what they read. *)
Definition unexplained (s : State Z) : Prop :=
  forall l, l ≡ₚ [1; 2] ->
    ~ (forall l1 m l2 a, l = l1 ++ m :: l2 -> a ∈ ot_accesses (x_tx (st_txn s m)) ->
         serial written (st_txn s) l1 (data ex_occ_rows) (ac_row a) = ac_read a).


(** Each of the two read the first value of row 0 and wrote 11: whichever goes
    first, the other one should have read 11. *)
Lemma two_updates_unexplained (s : State Z) :
  view (st_txn s 1) = ([(0%nat, 10)], Some 11) -> view (st_txn s 2) = ([(0%nat, 10)], Some 11) -> unexplained s.
Proof.
  assert (forall i j, view (st_txn s i) = ([(0%nat, 10)], Some 11) -> view (st_txn s j) = ([(0%nat, 10)], Some 11) ->
    exists a, a ∈ ot_accesses (x_tx (st_txn s j)) /\ serial written (st_txn s) [i] (data ex_occ_rows) (ac_row a) <> ac_read a) as Hpair.
  { intros i j [= _ Hw] [= Ha _]. unfold acc in Ha. destruct (ot_accesses (x_tx (st_txn s j))) as [|a [|]]; try done.
    injection Ha as Hr Hd. exists a. split; [by left|]. rewrite Hr, Hd. cbn. unfold effect. by rewrite Hw. }
  intros H1 H2 l Hl Hall.
  assert (l = [1; 2] \/ l = [2; 1]) as [-> | ->].
  { destruct l as [|x [|y [|]]]; try by apply Permutation_length in Hl.
    assert (x ∈ [1; 2] /\ y ∈ [1; 2]) as [Hx Hy] by (split; rewrite <- Hl; [by left|right; by left]).
    assert (NoDup [x; y]) as Hnd by (rewrite Hl; repeat constructor; set_solver).
    apply NoDup_cons in Hnd as [Hnd _]. set_solver. }
  - destruct (Hpair 1 2 H1 H2) as (a & Ha & Hne). by apply Hne, (Hall [1] 2 []).
  - destruct (Hpair 2 1 H2 H1) as (a & Ha & Hne). by apply Hne, (Hall [2] 1 []).
Qed.

(** Two histories that validation accepts and that no serial order
    explains.  With TPCC, [finish] puts the write set of transaction 1 on the
    history before its write is installed, so transaction 2 begins after the
    timestamp of the write set, reads the old row and is never tested against
    it.  In the other workloads it is enough that the first commits between
    the two timestamps of the second: only rows read, not rows updated, are
    tested against the history. *)
Theorem occ_lost_update :
  (exists s, rtc (step true false) (start ex_occ_rows) s /\ (forall i, installing (st_txn s i) = false) /\
     commit_order s = [1; 2] /\ ro_data (st_db s 0%nat) = 11 /\ unexplained s) /\
  (exists s, rtc (step false true) (start ex_occ_rows) s /\ (forall i, installing (st_txn s i) = false) /\
     commit_order s = [1; 2] /\ ro_data (st_db s 0%nat) = 11 /\ unexplained s).
Proof.
  assert (forall tpcc quiet es,
    (fun s => (observe s, forallb (fun j => negb (installing (st_txn s j))) [1; 2])) <$>
      exec_all tpcc quiet [1; 2] es (start ex_occ_rows) =
      Some ([1; 2], ([(0%nat, 10)], Some 11), ([(0%nat, 10)], Some 11), (11, 20), true) ->
    exists s, rtc (step tpcc quiet) (start ex_occ_rows) s /\ (forall i, installing (st_txn s i) = false) /\
      commit_order s = [1; 2] /\ ro_data (st_db s 0%nat) = 11 /\ unexplained s) as Hrun.
  { intros tpcc quiet es (s & Hr & Ho & Hq)%ex_run. unfold observe in Ho. injection Ho as Hl Hv1 Hw1 Hv2 Hw2 Hd _.
    exists s. split_and!; [done|done|done|done|].
    apply two_updates_unexplained; unfold view; by f_equal. }
  split.
  - apply (Hrun _ _ (run_update 1 1 0 11 ++ run_commit 1 2 ++ run_update 2 4 0 11 ++ run_install 1 ++
      run_commit 2 5 ++ run_install 2)). vm_compute. reflexivity.
  - apply (Hrun _ _ (run_update 1 1 0 11 ++ run_update 2 2 0 11 ++ run_commit 1 3 ++ run_install 1 ++
      run_commit 2 5 ++ run_install 2)). vm_compute. reflexivity.
Qed.
