(* ===== verification/Sequencer.v ===== *)
(** * Sequencer: the sequencer and the scheduler queues of Calvin

    system/sequencer.cpp, the queues of the sequencer and the scheduler in
    system/work_queue.cpp, the epochs of system/sim_manager.cpp and the loop of
    the sequencer thread in system/calvin_thread.cpp, for a workload other than
    PPS (whose branch of [process_txn] names a variable that does not exist).
    [participants] is the workload's function from a query to the nodes it
    touches.  Node numbers and counters that are only compared and counted are
    [nat]; the transaction number is computed at 32 bits as the code does.  The
    doubly linked list of wait lists is the list of its elements from the head;
    the array of a wait list has [None] where the allocator left it.  Time
    stamps that only feed statistics are left out, [client_startts] is kept. *)

From stdpp Require Import base tactics numbers list gmap sorting.
From Stdlib Require Import ZArith Lia.
From S2P Require Import Prelude.
#[local] Open Scope Z_scope.

(** The messages that reach these threads. *)
Inductive msg_type := CL_QRY | CL_QRY_O | RDONE | CALVIN_ACK.
#[export] Instance msg_type_eq_dec : EqDecision msg_type.
Proof. solve_decision. Defined.

Record Msg := mkMsg {
  rtype : msg_type;
  txn_id : Z;
  batch_id : Z;
  return_node_id : nat;
  client_startts : Z;
  query : Z
}.
#[export] Instance Msg_eq_dec : EqDecision Msg.
Proof. solve_decision. Defined.

(** [qlite], [qlite_ll]. *)
Record qlite := mkQlite {
  client_id : nat;
  q_client_startts : Z;
  server_ack_cnt : nat;
  q_msg : Msg
}.
Record qlite_ll := mkLL {
  ll_list : list (option qlite);
  size : nat;
  max_size : nat;
  txns_left : nat;
  epoch : Z
}.

Record Sequencer := mkSeq {
  next_txn_id : Z;
  wl : list qlite_ll;
  fill_queue : nat -> list Msg
}.

Definition init : Sequencer := mkSeq 0 [] (fun _ => []).

(** The capacity of a fill queue. *)
Definition fill_capacity : nat := 65526.

Section Sequencer.
Context (g_node_id g_node_cnt g_client_node_cnt g_inflight_max : nat).
Context (participants : Z -> list nat).

Definition ISSERVERN (id : nat) : bool := (id <? g_node_cnt)%nat.
Definition ISCLIENTN (id : nat) : bool :=
  (g_node_cnt <=? id)%nat && (id <? g_node_cnt + g_client_node_cnt)%nat.

(** The wait list of the batch that is being filled, after the other ones. *)
Definition new_ll (seq_epoch : Z) : qlite_ll := mkLL (replicate 1000 None) 0 1000 0 (seq_epoch + 1).
Definition filling (seq_epoch : Z) (l : list qlite_ll) : list qlite_ll * qlite_ll :=
  match last l with
  | Some en => if decide (epoch en = seq_epoch + 1) then (removelast l, en) else (l, new_ll seq_epoch)
  | None => (l, new_ll seq_epoch)
  end.
(** [realloc] to twice the size. *)
Definition grow (en : qlite_ll) : qlite_ll :=
  if decide (size en = max_size en)
  then mkLL (ll_list en ++ replicate (max_size en) None) (size en) (max_size en * 2) (txns_left en) (epoch en)
  else en.

(** Writing an element of the array; past its end is a failure. *)
Definition put_entry (id : nat) (q : qlite) (en : qlite_ll) : res qlite_ll :=
  assert! (id <? length (ll_list en))%nat;
  Ok (mkLL (<[id := Some q]> (ll_list en)) (S (size en)) (max_size en) (S (txns_left en)) (epoch en)).

(** [push] onto the fill queues of the participants.  The loop around [push]
    does not end when a queue is full, since only this thread empties it: as
    after a failed assertion, nothing else runs. *)
Fixpoint fill (msg : Msg) (parts : list nat) (f : nat -> list Msg) : res (nat -> list Msg) :=
  match parts with
  | [] => Ok f
  | p :: parts' =>
      assert! (length (f p) <? fill_capacity)%nat;
      fill msg parts' (fset p (f p ++ [msg]) f)
  end.

(** The transaction number, and the message as it leaves the sequencer. *)
Definition new_txn_id (s : Sequencer) : Z :=
  wrap32 (Z.of_nat g_node_id + wrap32 (Z.of_nat g_node_cnt * next_txn_id s)).
Definition stamp (batch : Z) (msg : Msg) (s : Sequencer) : Msg :=
  mkMsg (rtype msg) (new_txn_id s) batch g_node_id (client_startts msg) (query msg).

Definition process_txn (seq_epoch : Z) (msg : Msg) (s : Sequencer) : res Sequencer :=
  let (front, en0) := filling seq_epoch (wl s) in
  let en := grow en0 in
  let id := Z.to_nat (new_txn_id s / Z.of_nat g_node_cnt) in
  assert! negb (new_txn_id s =? UINT64_MAX);
  let cnt := length (participants (query msg)) in
  assert! (0 <? cnt)%nat;
  assert! ISCLIENTN (return_node_id msg);
  let msg' := stamp (epoch en) msg s in
  en' ← put_entry id (mkQlite (return_node_id msg) (client_startts msg) cnt msg') en;
  assert! bool_decide (size en' = txns_left en');
  assert! (size en' <=? g_inflight_max * g_node_cnt)%nat;
  f ← fill msg' (participants (query msg)) (fill_queue s);
  Ok (mkSeq (wrap32 (next_txn_id s + 1)) (front ++ [en']) f).

(** The first wait list of an epoch, between those before and after it. *)
Fixpoint find_ll (e : Z) (l : list qlite_ll) : option (list qlite_ll * qlite_ll * list qlite_ll) :=
  match l with
  | [] => None
  | en :: l' =>
      if decide (epoch en = e) then Some ([], en, l')
      else '(front, x, back) ← find_ll e l'; Some (en :: front, x, back)
  end.

(** What goes back to a client. *)
Record ClientRsp := mkRsp { rsp_txn : Z; rsp_startts : Z; rsp_dest : nat }.

Definition process_ack (msg : Msg) (s : Sequencer) : res (Sequencer * list ClientRsp) :=
  match find_ll (batch_id msg) (wl s) with
  | None => AssertFail
  | Some (front, en, back) =>
      assert! (0 <? txns_left en)%nat;
      let id := Z.to_nat (txn_id msg / Z.of_nat g_node_cnt) in
      match mjoin (ll_list en !! id) with
      | None => AssertFail
      | Some q =>
          assert! (0 <? server_ack_cnt q)%nat;
          let q' := mkQlite (client_id q) (q_client_startts q) (server_ack_cnt q - 1) (q_msg q) in
          let last := bool_decide (server_ack_cnt q' = 0%nat) in
          let en' := mkLL (<[id := Some q']> (ll_list en)) (size en) (max_size en)
                       (if last then txns_left en - 1 else txns_left en) (epoch en) in
          let rsp := if last then [mkRsp (txn_id msg) (q_client_startts q) (client_id q)] else [] in
          Ok (mkSeq (next_txn_id s)
                (if decide (txns_left en' = 0%nat) then front ++ back else front ++ en' :: back)
                (fill_queue s), rsp)
      end
  end.

(** The messages a batch consists of, with their destinations, in the order in
    which they are handed to the queues. *)
Definition rdone (seq_epoch : Z) : Msg := mkMsg RDONE UINT64_MAX seq_epoch g_node_id 0 0.
Definition send_next_batch (seq_epoch : Z) (s : Sequencer) : list (nat * Msg) * Sequencer :=
  (seq 0 g_node_cnt ≫= fun j => (fun m => (j, m)) <$> fill_queue s j ++ [rdone seq_epoch],
   mkSeq 0 (wl s) (fun j => if (j <? g_node_cnt)%nat then [] else fill_queue s j)).

(** ** The queues of the scheduler *)

Record Sched := mkSched {
  sched_queue : nat -> list Msg;
  sched_ptr : nat;
  worker_epoch : Z
}.
Definition sched_init : Sched := mkSched (fun _ => []) 0 1.

Definition sched_enqueue (msg : Msg) (d : Sched) : res Sched :=
  let i := return_node_id msg in
  assert! ISSERVERN i;
  Ok (mkSched (fset i (sched_queue d i ++ [msg]) (sched_queue d)) (sched_ptr d) (worker_epoch d)).

Definition sched_dequeue (d : Sched) : res (option Msg * Sched) :=
  match sched_queue d (sched_ptr d) with
  | [] => Ok (None, d)
  | msg :: q =>
      assert! (batch_id msg =? worker_epoch d);
      let qs := fset (sched_ptr d) q (sched_queue d) in
      if decide (rtype msg = RDONE) then
        Ok (None, mkSched qs ((sched_ptr d + 1) mod g_node_cnt)
                    (if decide (sched_ptr d = g_node_cnt - 1)%nat then worker_epoch d + 1
                     else worker_epoch d))
      else Ok (Some msg, mkSched qs (sched_ptr d) (worker_epoch d))
  end.

(** ** The fill queues *)

Lemma filling_epoch seq_epoch l : epoch (grow (filling seq_epoch l).2) = seq_epoch + 1.
Proof using.
  unfold filling, grow. destruct (last l); [case_decide as E|]; cbn; case_decide; cbn; done.
Qed.

Lemma fill_spec msg parts f f' :
  NoDup parts -> fill msg parts f = Ok f' ->
  forall j, f' j = f j ++ if decide (j ∈ parts) then [msg] else [].
Proof using.
  revert f. induction parts as [|p parts IH]; intros f Hnd; cbn [fill].
  { intros [= <-] j. by rewrite decide_False, app_nil_r by set_solver. }
  apply NoDup_cons in Hnd as [Hp Hnd].
  destruct (length (f p) <? fill_capacity)%nat; cbn [assert_ mbind res_bind]; [|done].
  intros H j. rewrite (IH _ Hnd H j). unfold fset. destruct (decide (j = p)) as [->|].
  - rewrite decide_False by done. rewrite decide_True by set_solver. by rewrite app_nil_r.
  - destruct (decide (j ∈ parts)); [rewrite decide_True by set_solver|rewrite decide_False by set_solver]; done.
Qed.

Lemma process_txn_fill seq_epoch msg s s' :
  NoDup (participants (query msg)) -> process_txn seq_epoch msg s = Ok s' ->
  forall j, fill_queue s' j = fill_queue s j ++
    if decide (j ∈ participants (query msg)) then [stamp (seq_epoch + 1) msg s] else [].
Proof using.
  intros Hnd. unfold process_txn. pose proof (filling_epoch seq_epoch (wl s)) as He.
  destruct (filling seq_epoch (wl s)) as [front en0]. cbn [snd] in He. intros H.
  destruct (negb _); cbn [assert_ mbind res_bind] in H; [|done].
  destruct (0 <? _)%nat; cbn [assert_ mbind res_bind] in H; [|done].
  destruct (ISCLIENTN _); cbn [assert_ mbind res_bind] in H; [|done].
  destruct (put_entry _ _ _) as [en'|]; cbn [mbind res_bind] in H; [|done].
  destruct (bool_decide _); cbn [assert_ mbind res_bind] in H; [|done].
  destruct (size en' <=? _)%nat; cbn [assert_ mbind res_bind] in H; [|done].
  destruct (fill _ _ _) as [f|] eqn:E; cbn [mbind res_bind] in H; [|done].
  injection H as <-. cbn [fill_queue]. intros j. rewrite (fill_spec _ _ _ _ Hnd E j). by rewrite He.
Qed.

Lemma process_ack_fill msg s s' rsp : process_ack msg s = Ok (s', rsp) -> fill_queue s' = fill_queue s.
Proof using.
  unfold process_ack. destruct (find_ll _ _) as [[[front en] back]|]; [|done].
  destruct (0 <? _)%nat; cbn [assert_ mbind res_bind]; [|done].
  destruct (mjoin _) as [q|]; [|done].
  destruct (0 <? server_ack_cnt q)%nat; cbn [assert_ mbind res_bind]; [|done]. by intros [= <- _].
Qed.
End Sequencer.
