(* ===== verification/SequencerSpec.v ===== *)
(** * SequencerSpec: the sequencer's bookkeeping of acknowledgements

    What the wait lists of [Sequencer] are for: the specification is a map from
    the epoch and the position of a transaction to the acknowledgements it still
    waits for, its client and its start time.  The sequencer, with its linked
    list of growing arrays, refines it, and fails none of its assertions, as long
    as it is given what its callers give it: queries from clients that touch some
    servers, no more per batch than may be in flight, and acknowledgements of
    transactions that were sent and still wait for some. *)

From stdpp Require Import base tactics numbers list gmap sorting.
From Stdlib Require Import ZArith Lia.
From S2P Require Import Prelude Sequencer.
#[local] Open Scope Z_scope.

Section Spec.
Context (g_node_id g_node_cnt g_client_node_cnt g_inflight_max : nat) (participants : Z -> list nat).
#[local] Abbreviation n := g_node_cnt.
#[local] Abbreviation client := (ISCLIENTN n g_client_node_cnt).

(** The acknowledgements left, the client and the start time. *)
Definition pending : Type := Z * nat -> option (nat * nat * Z).
Record Spec := mkSpec { sp_epoch : Z; sp_next : nat; sp_pending : pending }.
Definition spec_init : Spec := mkSpec 0 0 (fun _ => None).

Inductive event :=
| EvQuery (m : Msg)
| EvBatch
| EvAck (b : Z) (id : nat).

Definition txn_of (id : nat) : Z := Z.of_nat (g_node_id + n * id).

(** What a transaction is answered with when its last acknowledgement came. *)
Definition spec_step (ev : event) (s : Spec) : option (Spec * list ClientRsp) :=
  match ev with
  | EvQuery m =>
      let parts := participants (query m) in
      if client (return_node_id m) && (0 <? length parts)%nat && (sp_next s <? g_inflight_max * n)%nat
      then Some (mkSpec (sp_epoch s) (S (sp_next s))
             (fset (sp_epoch s + 1, sp_next s) (Some (length parts, return_node_id m, client_startts m)) (sp_pending s)), [])
      else None
  | EvBatch => Some (mkSpec (sp_epoch s + 1) 0 (sp_pending s), [])
  | EvAck b id =>
      match sp_pending s (b, id) with
      | Some (S a, c, t) =>
          if b <=? sp_epoch s then
            Some (mkSpec (sp_epoch s) (sp_next s)
                    (fset (b, id) (if decide (a = 0%nat) then None else Some (a, c, t)) (sp_pending s)),
                  if decide (a = 0%nat) then [mkRsp (txn_of id) t c] else [])
          else None
      | _ => None
      end
  end.
Fixpoint spec_run (l : list event) (s : Spec) : option (Spec * list ClientRsp) :=
  match l with
  | [] => Some (s, [])
  | ev :: l' => '(s1, r1) ← spec_step ev s; '(s2, r2) ← spec_run l' s1; Some (s2, r1 ++ r2)
  end.

(** The sequencer thread on the same events: the messages it dequeues, and the
    end of a batch. *)
Definition seq_step (ev : event) (E : Z) (q : Sequencer) : res (Z * Sequencer * list ClientRsp) :=
  match ev with
  | EvQuery m =>
      q' ← process_txn g_node_id n g_client_node_cnt g_inflight_max participants E m q; Ok (E, q', [])
  | EvBatch => Ok (E + 1, (send_next_batch g_node_id n (E + 1) q).2, [])
  | EvAck b id =>
      '(q', r) ← process_ack n (mkMsg CALVIN_ACK (txn_of id) b 0 0 0) q; Ok (E, q', r)
  end.
Fixpoint seq_run (l : list event) (E : Z) (q : Sequencer) : res (Z * Sequencer * list ClientRsp) :=
  match l with
  | [] => Ok (E, q, [])
  | ev :: l' => '(E1, q1, r1) ← seq_step ev E q; '(E2, q2, r2) ← seq_run l' E1 q1; Ok (E2, q2, r1 ++ r2)
  end.

(** ** The representation *)

Definition acks (en : qlite_ll) (id : nat) : nat :=
  match mjoin (ll_list en !! id) with Some q => server_ack_cnt q | None => 0 end.
Definition waiting (en : qlite_ll) (id : nat) : bool := (0 <? acks en id)%nat.
Definition count (f : nat -> bool) (m : nat) : nat := length (filter f (seq 0 m)).

Record en_ok (E : Z) (k : nat) (en : qlite_ll) : Prop := {
  en_len : length (ll_list en) = max_size en;
  en_size : (size en <= max_size en)%nat;
  en_max : (0 < max_size en)%nat;
  en_full id : (id < size en)%nat -> exists q, ll_list en !! id = Some (Some q);
  en_left : txns_left en = count (waiting en) (size en);
  en_some : (0 < txns_left en)%nat;
  en_epoch : epoch en <= E + 1;
  en_filling : epoch en = E + 1 -> size en = k /\ txns_left en = size en;
}.

(** The transaction [id] of the wait list waits for [v]. *)
Definition live (en : qlite_ll) (id : nat) (v : nat * nat * Z) : Prop :=
  (id < size en)%nat /\ exists q, ll_list en !! id = Some (Some q) /\ (0 < server_ack_cnt q)%nat /\
    v = (server_ack_cnt q, client_id q, q_client_startts q).

Record refines (E : Z) (q : Sequencer) (s : Spec) : Prop := {
  rf_epoch : sp_epoch s = E;
  rf_next : next_txn_id q = Z.of_nat (sp_next s);
  rf_bound : (sp_next s <= g_inflight_max * n)%nat;
  rf_wl : Forall (en_ok E (sp_next s)) (wl q);
  rf_sorted : StronglySorted (fun a b => epoch a < epoch b) (wl q);
  rf_new : (forall en, en ∈ wl q -> epoch en <= E) -> sp_next s = 0%nat;
  rf_pending b id v : sp_pending s (b, id) = Some v <-> exists en, en ∈ wl q /\ epoch en = b /\ live en id v;
  rf_fill j : (j < n)%nat -> (length (fill_queue q j) <= sp_next s)%nat;
}.

Lemma count_S f m : count f (S m) = (count f m + if f m then 1 else 0)%nat.
Proof using.
  unfold count. rewrite seq_S, filter_app, length_app. cbn [plus]. f_equal. rewrite filter_cons.
  by destruct (f m).
Qed.

Lemma count_ext f g m : (forall i, (i < m)%nat -> f i = g i) -> count f m = count g m.
Proof using.
  induction m as [|m IH]; intros H; [done|]. rewrite !count_S, IH by (intros; apply H; lia).
  by rewrite H by lia.
Qed.

Lemma count_drop f g m i :
  (i < m)%nat -> f i = true -> g i = false -> (forall j, j <> i -> f j = g j) -> count f m = S (count g m).
Proof using.
  intros Hi Hf Hg H. induction m as [|m IH]; [lia|]. rewrite !count_S. destruct (decide (i = m)) as [->|].
  - rewrite Hf, Hg, (count_ext f g m) by (intros; apply H; lia). lia.
  - rewrite IH by lia. rewrite H by lia. lia.
Qed.

Lemma count_all f m : (forall i, (i < m)%nat -> f i = true) -> count f m = m.
Proof using.
  induction m as [|m IH]; intros H; [done|]. rewrite count_S, IH by (intros; apply H; lia).
  rewrite H by lia. lia.
Qed.

Lemma count_full f m : count f m = m -> forall i, (i < m)%nat -> f i = true.
Proof using.
  assert (forall f m, count f m <= m)%nat as Hle.
  { intros g k. induction k as [|k IH]; [done|]. rewrite count_S. case_match; lia. }
  induction m as [|m IH]; [lia|]. rewrite count_S. specialize (Hle f m).
  intros H i Hi. destruct (decide (i = m)) as [->|]; [by destruct (f m); [|lia]|].
  apply IH; [|lia]. destruct (f m); lia.
Qed.

(** ** The wait list of an epoch *)

Lemma find_ll_spec b l f en k :
  find_ll b l = Some (f, en, k) -> l = f ++ en :: k /\ epoch en = b.
Proof using.
  revert f. induction l as [|x l IH]; intros f; cbn [find_ll]; [done|]. case_decide.
  - by intros [= <- <- <-].
  - destruct (find_ll b l) as [[[f' y] k']|]; cbn; [|done]. intros [= <- <- <-].
    destruct (IH f' eq_refl) as [-> He]. done.
Qed.

Lemma find_ll_Some b l en : en ∈ l -> epoch en = b -> is_Some (find_ll b l).
Proof using.
  induction l as [|x l IH]; [by intros ?%elem_of_nil|]. intros Hin He. cbn [find_ll]. case_decide; [by eexists|].
  apply elem_of_cons in Hin as [->|Hin]; [done|]. destruct (IH Hin He) as [[[f y] k] ->]. by eexists.
Qed.

Lemma sorted_unique l a b :
  StronglySorted (fun a b => epoch a < epoch b) l -> a ∈ l -> b ∈ l -> epoch a = epoch b -> a = b.
Proof using.
  induction l as [|x l IH]; intros Hs; [by intros ?%elem_of_nil|].
  apply StronglySorted_inv in Hs as [Hs Hx]. rewrite Forall_forall in Hx.
  intros [->|Ha]%elem_of_cons [->|Hb]%elem_of_cons He; [done|..|by apply IH].
  - specialize (Hx b Hb). lia.
  - specialize (Hx a Ha). lia.
Qed.

Lemma count_pos f m i : (i < m)%nat -> f i = true -> (0 < count f m)%nat.
Proof using.
  intros Hi Hf. induction m as [|m IH]; [lia|]. rewrite count_S.
  destruct (decide (i = m)) as [->|]; [rewrite Hf; lia|]. specialize (IH ltac:(lia)). lia.
Qed.

Lemma sorted_replace (f k : list qlite_ll) (en en' : qlite_ll) :
  epoch en' = epoch en -> StronglySorted (fun a b => epoch a < epoch b) (f ++ en :: k) ->
  StronglySorted (fun a b => epoch a < epoch b) (f ++ en' :: k) /\
  StronglySorted (fun a b => epoch a < epoch b) (f ++ k) /\
  (forall x, x ∈ f \/ x ∈ k -> epoch x <> epoch en).
Proof using.
  intros He. induction f as [|x f IH]; cbn [app]; intros Hs; apply StronglySorted_inv in Hs as [Hs Hx].
  - split_and!; [|done|].
    + constructor; [done|]. eapply Forall_impl; [exact Hx|]. cbn. lia.
    + rewrite Forall_forall in Hx. intros y [Hy|Hy]; [by apply elem_of_nil in Hy|]. specialize (Hx y Hy). lia.
  - destruct (IH Hs) as (S1 & S2 & S3). rewrite Forall_app, Forall_cons in Hx. destruct Hx as (X1 & X2 & X3).
    split_and!.
    + constructor; [done|]. apply Forall_app. split; [done|]. constructor; [lia|done].
    + constructor; [done|]. by apply Forall_app.
    + intros y [[->|Hy]%elem_of_cons|Hy]; [lia|apply S3; by left|apply S3; by right].
Qed.

Lemma waiting_eq en id q : ll_list en !! id = Some (Some q) -> waiting en id = (0 <? server_ack_cnt q)%nat.
Proof using. intros Hq. unfold waiting, acks. by rewrite Hq. Qed.

Lemma live_waiting en id v : live en id v -> waiting en id = true.
Proof using. intros (_ & q & Hq & Ha & _). rewrite (waiting_eq _ _ _ Hq). by apply Nat.ltb_lt. Qed.

Lemma waiting_live en E k id :
  en_ok E k en -> (id < size en)%nat -> waiting en id = true -> exists v, live en id v.
Proof using.
  intros Hok Hid Hw. destruct (en_full _ _ _ Hok id Hid) as [q Hq]. rewrite (waiting_eq _ _ _ Hq) in Hw.
  apply Nat.ltb_lt in Hw. eexists. split; [done|]. by exists q.
Qed.

(** ** The steps *)

Context (id_small : (g_node_id < n)%nat).
Context (cnt_small : Z.of_nat n * (Z.of_nat (g_inflight_max * n) + 1) <= 4294967296).
Context (room : (g_inflight_max * n <= fill_capacity)%nat).
Context (participants_ok : forall q, NoDup (participants q) /\ forall p, p ∈ participants q -> (p < n)%nat).

Lemma txn_of_div id : Z.to_nat (txn_of id / Z.of_nat n) = id.
Proof using All.
  unfold txn_of. rewrite Nat2Z.inj_add, Nat2Z.inj_mul, (Z.mul_comm (Z.of_nat n)).
  rewrite Z.div_add by lia. rewrite Z.div_small by lia. lia.
Qed.

Lemma new_txn_id_of q k :
  next_txn_id q = Z.of_nat k -> (k < g_inflight_max * n)%nat -> new_txn_id g_node_id n q = txn_of k.
Proof using All.
  intros Hk Hlt. unfold new_txn_id, txn_of. rewrite Hk. unfold wrap32. rewrite (Z.mod_small (_ * _)) by nia.
  rewrite Z.mod_small by nia. lia.
Qed.

Lemma fill_total msg parts f :
  NoDup parts -> (forall p, p ∈ parts -> (length (f p) < fill_capacity)%nat) -> exists f', fill msg parts f = Ok f'.
Proof using All.
  revert f. induction parts as [|p parts IH]; intros f Hnd Hf; cbn [fill]; [eauto|].
  apply NoDup_cons in Hnd as [Hp Hnd].
  assert (length (f p) < fill_capacity)%nat as Hlt by (apply Hf; by apply elem_of_cons; left).
  rewrite (proj2 (Nat.ltb_lt _ _) Hlt). cbn [assert_ mbind res_bind]. apply IH; [done|].
  intros x Hx. rewrite fset_ne by (by intros ->). apply Hf. by apply elem_of_cons; right.
Qed.

(** The wait list that is filled next. *)
Definition fillable (E : Z) (k : nat) (en : qlite_ll) : Prop :=
  epoch en = E + 1 /\ size en = k /\ txns_left en = k /\ length (ll_list en) = max_size en /\
  (k <= max_size en)%nat /\ (0 < max_size en)%nat /\
  (forall id, (id < k)%nat -> waiting en id = true /\ exists q, ll_list en !! id = Some (Some q)).

Lemma filling_spec E q s front en0 :
  refines E q s -> filling E (wl q) = (front, en0) ->
  fillable E (sp_next s) en0 /\ (forall x, x ∈ front -> epoch x <= E) /\
  StronglySorted (fun a b => epoch a < epoch b) front /\
  (forall x, x ∈ wl q <-> x ∈ front \/ (x = en0 /\ (0 < sp_next s)%nat)).
Proof using All.
  intros [R1 R2 R3 R4 R5 R6 R7 R8]. unfold filling. rewrite Forall_forall in R4.
  assert (forall f en, wl q = f ++ [en] -> forall x, x ∈ f -> epoch x < epoch en) as Hlast.
  { intros f en Hf. rewrite Hf in R5. clear -R5. induction f as [|y f IH]; [by intros ? ?%elem_of_nil|].
    cbn in R5. apply StronglySorted_inv in R5 as [R5 Hy]. rewrite Forall_app, Forall_singleton in Hy.
    intros x [->|Hx]%elem_of_cons; [apply Hy|by apply IH]. }
  assert (forall l, l = wl q -> (forall x, x ∈ l -> epoch x <= E) -> sp_next s = 0%nat ->
    (l, new_ll E) = (front, en0) ->
    fillable E (sp_next s) en0 /\ (forall x, x ∈ front -> epoch x <= E) /\
    StronglySorted (fun a b => epoch a < epoch b) front /\
    (forall x, x ∈ wl q <-> x ∈ front \/ (x = en0 /\ (0 < sp_next s)%nat))) as Hnew.
  { intros l -> Hle Hk [= <- <-]. rewrite Hk. split; [|split_and!; [done|done|intros x; split; [by left|]]].
    - unfold fillable, new_ll. cbn [epoch size txns_left ll_list max_size]. rewrite length_replicate.
      split_and!; try done; try lia.
    - intros [Hx|[_ Hx]]; [done|lia]. }
  destruct (last (wl q)) as [en|] eqn:El.
  - apply last_Some in El as [f Ef].
    assert (en ∈ wl q) as Hen by (rewrite Ef; apply elem_of_app; right; by apply list_elem_of_singleton).
    case_decide as He.
    + rewrite Ef, removelast_last. intros [= <- <-]. destruct (R4 en Hen) as [A1 A2 A3 A4 A5 A6 A7 A8].
      destruct (A8 He) as [Hs Hl]. split; [|split_and!].
      * unfold fillable. split_and!; [done|done|lia|done|lia|done|]. intros id Hid. split; [|apply A4; lia].
        apply (count_full (waiting en) (size en)); [congruence|lia].
      * intros x Hx. specialize (Hlast f en Ef x Hx). lia.
      * rewrite Ef in R5. clear -R5. induction f as [|y f IH]; [constructor|]. cbn in R5.
        apply StronglySorted_inv in R5 as [R5 Hy]. rewrite Forall_app in Hy. constructor; [by apply IH|apply Hy].
      * intros x. rewrite elem_of_app, list_elem_of_singleton. split; [|tauto].
        intros [Hx| ->]; [by left|right]. split; [done|lia].
    + assert (forall x, x ∈ wl q -> epoch x <= E) as Hle.
      { assert (epoch en <= E) by (pose proof (en_epoch _ _ _ (R4 en Hen)); lia).
        intros x Hx. rewrite Ef in Hx. apply elem_of_app in Hx as [Hx|Hx%list_elem_of_singleton].
        - specialize (Hlast f en Ef x Hx). lia.
        - by rewrite Hx. }
      apply (Hnew (wl q)); [done|done|by apply R6].
  - apply last_None in El. apply (Hnew (wl q)); [done| |apply R6];
      rewrite El; by intros ? ?%elem_of_nil.
Qed.

Lemma grow_spec E k en :
  fillable E k en -> fillable E k (grow en) /\ (k < max_size (grow en))%nat.
Proof using All.
  intros (H1 & H2 & H3 & H4 & H5 & H6 & H7). unfold grow. case_decide as Hs; [|by split; [split_and!|lia]].
  split; [|cbn; lia]. unfold fillable. cbn [epoch size txns_left max_size ll_list]. rewrite length_app, length_replicate.
  split_and!; [done..|lia|lia|lia|]. intros id Hid. destruct (H7 id Hid) as [Hw [q Hq]].
  assert ((ll_list en ++ replicate (max_size en) None) !! id = Some (Some q)) as Hq'.
  { rewrite lookup_app_l; [done|]. by eapply lookup_lt_Some. }
  split; [|by exists q].
  transitivity (0 <? server_ack_cnt q)%nat; [by apply waiting_eq|by rewrite <-(waiting_eq _ _ _ Hq)].
Qed.

Lemma grow_live E k en id v : fillable E k en -> live (grow en) id v <-> live en id v.
Proof using All.
  intros (_ & H2 & _ & H4 & H5 & _). unfold grow, live. case_decide; [|done]. cbn [size ll_list].
  split; intros (Hid & q & Hq & Hr); (split; [done|]); exists q; (split; [|done]);
    rewrite lookup_app_l in * by lia; done.
Qed.

(** The wait list with a new entry at its end. *)
Definition add_entry (q : qlite) (en : qlite_ll) : qlite_ll :=
  mkLL (<[size en := Some q]> (ll_list en)) (S (size en)) (max_size en) (S (txns_left en)) (epoch en).

Lemma add_entry_lookup E k q en id :
  fillable E k en -> (k < max_size en)%nat ->
  ll_list (add_entry q en) !! id = if decide (id = k) then Some (Some q) else ll_list en !! id.
Proof using All.
  intros (_ & H2 & _ & H4 & _) Hk. cbn [add_entry ll_list]. rewrite H2. case_decide as Hid.
  - subst id. apply list_lookup_insert_eq. lia.
  - by apply list_lookup_insert_ne.
Qed.

Lemma add_entry_ok E k q en :
  fillable E k en -> (k < max_size en)%nat -> (0 < server_ack_cnt q)%nat -> en_ok E (S k) (add_entry q en).
Proof using All.
  intros Hf Hk Hq. pose proof (fun id => add_entry_lookup E k q en id Hf Hk) as Hl.
  destruct Hf as (H1 & H2 & H3 & H4 & H5 & H6 & H7).
  split; try (cbn [add_entry ll_list size max_size txns_left epoch]; rewrite ?length_insert; try done; lia).
  - intros id Hid. rewrite Hl. cbn in Hid. case_decide; [by eexists|]. apply H7. lia.
  - replace (txns_left (add_entry q en)) with (size (add_entry q en)) by (cbn; lia).
    symmetry. apply count_all. intros id Hid. cbn in Hid. specialize (Hl id). case_decide.
    + rewrite (waiting_eq _ _ _ Hl). by apply Nat.ltb_lt.
    + destruct (H7 id ltac:(lia)) as [Hw [x Hx]]. rewrite Hx in Hl. by rewrite (waiting_eq _ _ _ Hl), <-(waiting_eq _ _ _ Hx).
Qed.

Lemma add_entry_live E k q en id v :
  fillable E k en -> (k < max_size en)%nat -> (0 < server_ack_cnt q)%nat ->
  live (add_entry q en) id v <->
  if decide (id = k) then v = (server_ack_cnt q, client_id q, q_client_startts q) else live en id v.
Proof using All.
  intros Hf Hk Hq. unfold live. rewrite (add_entry_lookup E k) by done. cbn [add_entry size].
  destruct Hf as (_ & H2 & _). rewrite H2. case_decide as Hid.
  - subst id. split; [by intros (_ & x & [= <-] & _ & ->)|]. intros ->. split; [lia|]. by exists q.
  - split; intros [Hlt Hx]; (split; [lia|done]).
Qed.

Lemma sorted_snoc (l : list qlite_ll) (en : qlite_ll) (E : Z) :
  (forall x, x ∈ l -> epoch x <= E) -> epoch en = E + 1 ->
  StronglySorted (fun a b => epoch a < epoch b) l -> StronglySorted (fun a b => epoch a < epoch b) (l ++ [en]).
Proof using All.
  intros Hl He. induction l as [|x l IH]; cbn; intros Hs; [constructor; constructor|].
  apply StronglySorted_inv in Hs as [Hs Hx]. constructor.
  - apply IH; [|done]. intros y Hy. apply Hl. by apply elem_of_cons; right.
  - apply Forall_app. split; [done|]. apply Forall_singleton.
    pose proof (Hl x ltac:(by apply elem_of_cons; left)). lia.
Qed.

(** What [process_txn] does to the list of the sequencer. *)
Lemma process_txn_runs E q s m front en0 :
  refines E q s -> client (return_node_id m) = true -> (0 < length (participants (query m)))%nat ->
  (sp_next s < g_inflight_max * n)%nat -> filling E (wl q) = (front, en0) ->
  exists f x, process_txn g_node_id n g_client_node_cnt g_inflight_max participants E m q =
      Ok (mkSeq (next_txn_id q + 1) (front ++ [add_entry x (grow en0)]) f) /\
    (server_ack_cnt x, client_id x, q_client_startts x) =
      (length (participants (query m)), return_node_id m, client_startts m) /\
    (forall j, (j < n)%nat -> (length (f j) <= S (sp_next s))%nat).
Proof using All.
  intros HR Hc Hp Hk Ef. destruct (filling_spec E q s front en0 HR Ef) as (Hfill & _).
  destruct (grow_spec _ _ _ Hfill) as [(G1 & G2 & G3 & G4 & _) Hlt].
  destruct HR as [R1 R2 R3 R4 R5 R6 R7 R8]. unfold process_txn. rewrite Ef.
  rewrite (new_txn_id_of q _ R2 Hk), txn_of_div.
  assert (negb (txn_of (sp_next s) =? UINT64_MAX) = true) as ->.
  { apply negb_true_iff, Z.eqb_neq. unfold txn_of, UINT64_MAX. nia. }
  cbn [assert_ mbind res_bind]. rewrite (proj2 (Nat.ltb_lt 0 _) Hp), Hc. cbn [assert_ mbind res_bind].
  set (m' := stamp _ _ _ _ _). set (x := mkQlite _ _ _ _). unfold put_entry.
  rewrite (proj2 (Nat.ltb_lt (sp_next s) (length (ll_list (grow en0))))) by lia. cbn [assert_ mbind res_bind size txns_left].
  rewrite (bool_decide_eq_true_2 (S (size (grow en0)) = S (txns_left (grow en0)))) by lia. cbn [assert_ mbind res_bind].
  rewrite (proj2 (Nat.leb_le (S (size (grow en0))) (g_inflight_max * n))) by lia. cbn [assert_ mbind res_bind].
  destruct (participants_ok (query m)) as [Hnd Hpn].
  destruct (fill_total m' (participants (query m)) (fill_queue q) Hnd) as [f Ff].
  { intros p Hp'. specialize (R8 p (Hpn p Hp')). lia. }
  rewrite Ff. cbn [mbind res_bind]. exists f, x. split; [|split; [done|]].
  - unfold add_entry. rewrite G2. do 2 f_equal. rewrite R2. unfold wrap32. rewrite Z.mod_small by nia. lia.
  - intros j Hj. rewrite (fill_spec _ _ _ _ Hnd Ff j), length_app. specialize (R8 j Hj). case_decide; cbn; lia.
Qed.

Lemma query_refines E q s m s' r :
  refines E q s -> spec_step (EvQuery m) s = Some (s', r) ->
  exists q', seq_step (EvQuery m) E q = Ok (E, q', r) /\ refines E q' s'.
Proof using All.
  intros HR Hs. cbn [spec_step] in Hs. destruct (_ && _) eqn:Hg in Hs; [|done]. injection Hs as <- <-.
  apply andb_true_iff in Hg as [[Hc Hp%Nat.ltb_lt]%andb_true_iff Hk%Nat.ltb_lt].
  destruct (filling E (wl q)) as [front en0] eqn:Ef.
  destruct (process_txn_runs E q s m front en0 HR Hc Hp Hk Ef) as (f & x & Hrun & Hx & Hlen).
  destruct (filling_spec E q s front en0 HR Ef) as (Hfill & Hfront & Hsorted & Hmem).
  destruct (grow_spec _ _ _ Hfill) as [Hfg Hlt]. injection Hx as Hx1 Hx2 Hx3.
  pose proof (add_entry_ok _ _ x _ Hfg Hlt ltac:(lia)) as Hok.
  assert (epoch (add_entry x (grow en0)) = E + 1) as He by apply Hfg.
  cbn [seq_step]. rewrite Hrun. cbn [mbind res_bind]. eexists. split; [reflexivity|].
  destruct HR as [R1 R2 R3 R4 R5 R6 R7 R8]. rewrite Forall_forall in R4.
  split; cbn [sp_epoch sp_next sp_pending next_txn_id wl fill_queue]; [done|lia|lia|..|exact Hlen].
  - apply Forall_app. split; [|by apply Forall_singleton]. apply Forall_forall. intros y Hy.
    destruct (R4 y) as [A1 A2 A3 A4 A5 A6 A7 A8]; [apply Hmem; by left|].
    split; try done. intros Hye. specialize (Hfront y Hy). lia.
  - by apply (sorted_snoc front _ E).
  - intros Hle. specialize (Hle (add_entry x (grow en0)) ltac:(apply elem_of_app; right; by apply list_elem_of_singleton)). lia.
  - intros b id v. unfold fset. rewrite R1.
    assert (live (add_entry x (grow en0)) id v <->
      if decide (id = sp_next s) then v = (length (participants (query m)), return_node_id m, client_startts m)
      else live en0 id v) as Hlive.
    { rewrite (add_entry_live _ _ _ _ _ _ Hfg Hlt) by lia. rewrite Hx1, Hx2, Hx3. case_decide; [done|]. by eapply grow_live. }
    assert (add_entry x (grow en0) ∈ front ++ [add_entry x (grow en0)]) as Hin
      by (apply elem_of_app; right; by apply list_elem_of_singleton).
    destruct (decide ((b, id) = _)) as [Heq|Heq].
    + injection Heq as -> ->. rewrite decide_True in Hlive by done. split.
      * intros [= <-]. exists (add_entry x (grow en0)). split; [exact Hin|]. split; [exact He|]. by apply Hlive.
      * intros (en & [Hen|Hen%list_elem_of_singleton]%elem_of_app & Hb & Hl); [specialize (Hfront en Hen); lia|].
        subst en. apply Hlive in Hl. by rewrite Hl.
    + destruct Hfill as (F1 & F2 & _). rewrite R7. split.
      * intros (en & [Hen|[-> Hk0]]%Hmem & Hb & Hl); [exists en; split; [apply elem_of_app; by left|done]|].
        exists (add_entry x (grow en0)). split; [exact Hin|]. split; [lia|]. apply Hlive.
        rewrite decide_False; [done|]. intros ->. apply Heq. by rewrite <-Hb, F1.
      * intros (en & [Hen|Hen%list_elem_of_singleton]%elem_of_app & Hb & Hl);
          [exists en; split; [apply Hmem; by left|done]|].
        subst en. apply Hlive in Hl. rewrite decide_False in Hl by (intros ->; apply Heq; by rewrite <-Hb, He).
        exists en0. split; [apply Hmem; right; split; [done|destruct Hl; lia]|]. split; [lia|done].
Qed.

Lemma batch_refines E q s :
  refines E q s ->
  refines (E + 1) (send_next_batch g_node_id n (E + 1) q).2 (mkSpec (sp_epoch s + 1) 0 (sp_pending s)).
Proof using All.
  intros [R1 R2 R3 R4 R5 R6 R7 R8].
  split; cbn [sp_epoch sp_next sp_pending send_next_batch snd next_txn_id wl fill_queue]; try done; try lia.
  - eapply Forall_impl; [exact R4|]. intros en [A1 A2 A3 A4 A5 A6 A7 A8]. split; try done; lia.
  - intros j Hj. by rewrite (proj2 (Nat.ltb_lt j n) Hj).
Qed.

(** An entry of a wait list that loses one acknowledgement. *)
Definition take_ack (id : nat) (q : qlite) (en : qlite_ll) : qlite_ll :=
  let q' := mkQlite (client_id q) (q_client_startts q) (server_ack_cnt q - 1) (q_msg q) in
  mkLL (<[id := Some q']> (ll_list en)) (size en) (max_size en)
    (if bool_decide (server_ack_cnt q' = 0%nat) then txns_left en - 1 else txns_left en)%nat (epoch en).

Lemma take_ack_waiting id q en j :
  ll_list en !! id = Some (Some q) ->
  waiting (take_ack id q en) j = if decide (j = id) then (1 <? server_ack_cnt q)%nat else waiting en j.
Proof using All.
  intros Hq. unfold waiting, acks. cbn [take_ack ll_list]. case_decide as Hj.
  - subst j. rewrite list_lookup_insert_eq by (by eapply lookup_lt_Some).
    cbn [mjoin option_join server_ack_cnt]. destruct (server_ack_cnt q) as [|[|a]]; done.
  - by rewrite list_lookup_insert_ne.
Qed.

Lemma take_ack_left E k id q en :
  en_ok E k en -> (id < size en)%nat -> ll_list en !! id = Some (Some q) -> (0 < server_ack_cnt q)%nat ->
  txns_left (take_ack id q en) = count (waiting (take_ack id q en)) (size en).
Proof using All.
  intros Hok Hid Hq Ha. pose proof (en_left _ _ _ Hok) as Hl. cbn [take_ack txns_left server_ack_cnt].
  case_bool_decide as H0.
  - rewrite Hl. rewrite (count_drop (waiting en) (waiting (take_ack id q en)) (size en) id); [lia|done|..].
    + rewrite (waiting_eq _ _ _ Hq). by apply Nat.ltb_lt.
    + rewrite (take_ack_waiting _ _ _ _ Hq), decide_True by done. apply Nat.ltb_ge. lia.
    + intros j Hj. by rewrite (take_ack_waiting _ _ _ _ Hq), decide_False.
  - rewrite Hl. apply count_ext. intros j Hj. rewrite (take_ack_waiting _ _ _ _ Hq). case_decide; [|done].
    subst j. rewrite (waiting_eq _ _ _ Hq). transitivity true; [by apply Nat.ltb_lt|symmetry; apply Nat.ltb_lt; lia].
Qed.

Lemma take_ack_ok E k id q en :
  en_ok E k en -> epoch en <= E -> (id < size en)%nat -> ll_list en !! id = Some (Some q) ->
  (0 < server_ack_cnt q)%nat -> (0 < txns_left (take_ack id q en))%nat -> en_ok E k (take_ack id q en).
Proof using All.
  intros Hok He Hid Hq Ha Hl. pose proof (take_ack_left _ _ _ _ _ Hok Hid Hq Ha) as Hc.
  destruct Hok as [A1 A2 A3 A4 A5 A6 A7 A8]. split; try done.
  - cbn. by rewrite length_insert.
  - intros j Hj. cbn. destruct (decide (j = id)) as [->|].
    + eexists. apply list_lookup_insert_eq. by eapply lookup_lt_Some.
    + rewrite list_lookup_insert_ne by done. by apply A4.
  - cbn [take_ack epoch]. lia.
Qed.

Lemma take_ack_live id q en j v :
  (id < size en)%nat -> ll_list en !! id = Some (Some q) ->
  live (take_ack id q en) j v <->
  if decide (j = id) then (1 < server_ack_cnt q)%nat /\ v = ((server_ack_cnt q - 1)%nat, client_id q, q_client_startts q)
  else live en j v.
Proof using All.
  intros Hid Hq. unfold live. cbn [take_ack size ll_list]. case_decide as Hj.
  - subst j. rewrite list_lookup_insert_eq by (by eapply lookup_lt_Some). split.
    + intros (_ & x & [= <-] & Hx & ->). cbn [server_ack_cnt client_id q_client_startts] in Hx |- *. split; [lia|done].
    + intros [Ha ->]. split; [done|]. eexists. split; [reflexivity|]. cbn. split; [lia|done].
  - by rewrite list_lookup_insert_ne.
Qed.

Lemma ack_refines E q s b id s' r :
  refines E q s -> spec_step (EvAck b id) s = Some (s', r) ->
  exists q', seq_step (EvAck b id) E q = Ok (E, q', r) /\ refines E q' s'.
Proof using All.
  intros [R1 R2 R3 R4 R5 R6 R7 R8] Hs. cbn [spec_step] in Hs.
  destruct (sp_pending s (b, id)) as [[[[|a] c] t]|] eqn:Hp; [done| |done].
  destruct (b <=? sp_epoch s) eqn:Hb; [|done]. apply Z.leb_le in Hb. rewrite R1 in Hb. injection Hs as <- <-.
  apply R7 in Hp as (en & Hen & He & Hlive). destruct (Hlive) as (Hid & x & Hx & Hx0 & [= Ha Hc Ht]).
  cbn [seq_step]. unfold process_ack. cbn [batch_id txn_id].
  destruct (find_ll_Some b (wl q) en Hen He) as [[[f en1] k] Hfind]. rewrite Hfind.
  destruct (find_ll_spec _ _ _ _ _ Hfind) as [Hwl He1].
  assert (en1 = en) as ->.
  { apply (sorted_unique (wl q)); [done| |done|congruence]. rewrite Hwl. apply elem_of_app. right. by apply elem_of_cons; left. }
  rewrite Forall_forall in R4. pose proof (R4 en Hen) as Hok. pose proof (en_some _ _ _ Hok) as Hleft.
  rewrite (proj2 (Nat.ltb_lt 0 _) Hleft). cbn [assert_ mbind res_bind].
  rewrite txn_of_div, Hx. cbn [mjoin option_join]. rewrite (proj2 (Nat.ltb_lt 0 _) Hx0). cbn [assert_ mbind res_bind].
  fold (take_ack id x en). eexists. split.
  { do 2 f_equal. cbn [server_ack_cnt]. rewrite <-Ha. destruct a as [|a]; [|done].
    cbn. by rewrite Ht, Hc. }
  rewrite Hwl in R5. assert (epoch (take_ack id x en) = epoch en) as Het by done.
  destruct (sorted_replace f k en (take_ack id x en) Het R5) as (S1 & S2 & S3).
  set (wl' := if decide (txns_left (take_ack id x en) = 0%nat) then f ++ k else f ++ take_ack id x en :: k).
  assert (forall y, y ∈ wl' <-> (y ∈ f \/ y ∈ k) \/ (y = take_ack id x en /\ (0 < txns_left (take_ack id x en))%nat)) as Hmem.
  { intros y. unfold wl'. case_decide as H0; rewrite elem_of_app.
    - rewrite H0. split; [by left|]. intros [Hy|[_ Hy]]; [done|lia].
    - rewrite elem_of_cons. assert (0 < txns_left (take_ack id x en))%nat by lia. tauto. }
  assert (forall y, y ∈ wl q <-> (y ∈ f \/ y ∈ k) \/ y = en) as Hold
    by (intros y; rewrite Hwl, elem_of_app, elem_of_cons; tauto).
  split; cbn [sp_epoch sp_next sp_pending next_txn_id wl fill_queue]; [done|done|done|..|exact R8].
  - rewrite Forall_forall. intros y [Hy|[-> Hy]]%Hmem; [apply R4, Hold; by left|].
    apply take_ack_ok; [done|lia|done..].
  - unfold wl'. by case_decide.
  - intros Hle. apply R6. intros y [Hy| ->]%Hold; [apply Hle, Hmem; by left|lia].
  - intros b' id' v. unfold fset. case_decide as Heq.
    + injection Heq as -> ->. split.
      * case_decide as Ha0; [done|]. intros [= <-]. exists (take_ack id x en).
        split; [apply Hmem; right; split; [done|]|split; [done|]].
        -- cbn [take_ack txns_left server_ack_cnt]. rewrite bool_decide_eq_false_2 by lia. done.
        -- apply take_ack_live; [done|done|]. rewrite decide_True by done. split; [lia|].
           replace (server_ack_cnt x - 1)%nat with a by lia. by rewrite Hc, Ht.
      * intros (y & [Hy|[-> Hy]]%Hmem & Hye & Hyl); [exfalso; apply (S3 y Hy); congruence|].
        apply take_ack_live in Hyl; [|done|done]. rewrite decide_True in Hyl by done. destruct Hyl as [H1 ->].
        rewrite decide_False by lia.
        replace (server_ack_cnt x - 1)%nat with a by lia. by rewrite Hc, Ht.
    + rewrite R7. split.
      * intros (y & [Hy| ->]%Hold & Hye & Hyl); [exists y; split; [apply Hmem; by left|done]|].
        assert (id' <> id) as Hne by (intros ->; apply Heq; congruence).
        assert (live (take_ack id x en) id' v) as Hyl' by (apply take_ack_live; [done..|by rewrite decide_False]).
        exists (take_ack id x en). split; [apply Hmem; right; split; [done|]|split; [done|done]].
        rewrite (take_ack_left _ _ _ _ _ Hok Hid Hx Hx0). apply (count_pos _ _ id'); [apply Hyl|].
        by eapply live_waiting.
      * intros (y & [Hy|[-> Hy]]%Hmem & Hye & Hyl); [exists y; split; [apply Hold; by left|done]|].
        assert (id' <> id) as Hne by (intros ->; apply Heq; rewrite <-Hye, Het; congruence).
        apply take_ack_live in Hyl; [|done|done]. rewrite decide_False in Hyl by done.
        exists en. split; [apply Hold; by right|]. split; [by rewrite <-Hye, Het|done].
Qed.

(** C24. On every sequence of client queries, batches and acknowledgements that
    its specification allows, the sequencer runs without failing an assertion
    or finding a fill queue full, and answers what the map of pending
    transactions answers: each transaction once, to its client with its start
    time, when the last of its participants has acknowledged it. *)
Theorem seq_refines l s r :
  spec_run l spec_init = Some (s, r) ->
  exists q, seq_run l 0 init = Ok (sp_epoch s, q, r) /\ refines (sp_epoch s) q s.
Proof using All.
  assert (refines 0 init spec_init) as H0.
  { split; cbn; try done; try lia; [constructor|]. intros b id v. split; [done|].
    by intros (en & Hen%elem_of_nil & _). }
  change 0 with (sp_epoch spec_init) in H0 at 1. change 0 with (sp_epoch spec_init) at 1.
  revert H0. generalize init spec_init. revert s r. induction l as [|ev l IH]; intros s r q s0 HR; cbn [spec_run seq_run].
  - intros [= <- <-]. eauto.
  - destruct (spec_step ev s0) as [[s1 r1]|] eqn:E1; cbn; [|done].
    destruct (spec_run l s1) as [[s2 r2]|] eqn:E2; cbn; [|done]. intros [= <- <-].
    assert (exists q1, seq_step ev (sp_epoch s0) q = Ok (sp_epoch s1, q1, r1) /\ refines (sp_epoch s1) q1 s1)
      as (q1 & Es & HR1).
    { destruct ev as [m| |b id].
      - destruct (query_refines _ _ _ _ _ _ HR E1) as (q1 & Hq & HR'). rewrite (rf_epoch _ _ _ HR'). by exists q1.
      - injection E1 as <- <-. eexists. split; [reflexivity|]. by apply batch_refines.
      - destruct (ack_refines _ _ _ _ _ _ _ HR E1) as (q1 & Hq & HR'). rewrite (rf_epoch _ _ _ HR'). by exists q1. }
    destruct (IH _ _ q1 s1 HR1 E2) as (q2 & Eq & HR2). rewrite Es. cbn [mbind res_bind].
    rewrite Eq. cbn [mbind res_bind]. eauto.
Qed.
End Spec.

(** ** A concrete run *)

(** Node 0 of two servers, one client (node 2). *)
Definition ex_parts (q : Z) : list nat := if q =? 0 then [0; 1]%nat else [1]%nat.
Definition ex_query (q t : Z) : Msg := mkMsg CL_QRY 0 0 2 t q.
Definition ex_events : list event :=
  [EvQuery (ex_query 0 50); EvQuery (ex_query 1 51); EvBatch; EvAck 1 0; EvQuery (ex_query 1 52);
   EvAck 1 1; EvBatch; EvAck 1 0; EvAck 2 0].
Definition ex_spec : option (Spec * list ClientRsp) := spec_run 0 2 1 10 ex_parts ex_events spec_init.

Lemma seq_refines_witness :
  exists s q, ex_spec = Some (s, [mkRsp 2 51 2; mkRsp 0 50 2; mkRsp 0 52 2]) /\
    seq_run 0 2 1 10 ex_parts ex_events 0 init =
      Ok (sp_epoch s, q, [mkRsp 2 51 2; mkRsp 0 50 2; mkRsp 0 52 2]) /\
    refines 2 10 (sp_epoch s) q s.
Proof.
  destruct ex_spec as [[s r]|] eqn:E; [|vm_compute in E; discriminate E].
  assert (r = [mkRsp 2 51 2; mkRsp 0 50 2; mkRsp 0 52 2]) as Hr.
  { assert (snd <$> ex_spec = Some [mkRsp 2 51 2; mkRsp 0 50 2; mkRsp 0 52 2]) as H by (vm_compute; reflexivity).
    rewrite E in H. by injection H. }
  rewrite Hr in E |- *.
  destruct (fun a b c d => seq_refines 0 2 1 10 ex_parts a b c d ex_events s _ E) as (q & Hq & HR).
  - lia.
  - lia.
  - apply Nat.leb_le. vm_compute. reflexivity.
  - intros q. unfold ex_parts. case_match; (split; [repeat (apply NoDup_cons; split; [set_solver|]); by apply NoDup_nil|]);
      intros p Hp; set_unfold; lia.
  - exists s, q. split; [reflexivity|]. split; [exact Hq|exact HR].
Defined.
