(* ===== verification/CalvinOrder.v ===== *)
(** * CalvinOrder: the order of transactions in Calvin

    The nodes of the system, each with the sequencer thread and the scheduler of
    [Sequencer], and the channels between them.  A message that a sequencer sends
    to its own node goes to the scheduler at once; to another node it goes
    through a channel that keeps the order ([msg_queue] gives all messages of
    one sending thread to one queue under Calvin; the io threads hand a received
    query or [RDONE] to the scheduler).  [log] and [n_handed] are history
    variables: what a sequencer has numbered, and what a scheduler has handed to
    its lock thread.  Epochs are [Z]: they do not reach 2^64. *)

From stdpp Require Import base tactics numbers list gmap sorting relations.
From Stdlib Require Import ZArith Lia.
From S2P Require Import Prelude Sequencer.
#[local] Open Scope Z_scope.

Record Node := mkNode {
  n_seq : Sequencer;
  n_epoch : Z;
  n_sched : Sched;
  n_handed : list Msg
}.
Record Sys := mkSys {
  node : nat -> Node;
  chan : nat -> nat -> list Msg;
  log : nat -> list Msg
}.

Definition set_seq (q : Sequencer) (x : Node) : Node := mkNode q (n_epoch x) (n_sched x) (n_handed x).
Definition set_sched (d : Sched) (x : Node) : Node := mkNode (n_seq x) (n_epoch x) d (n_handed x).

Definition init_sys : Sys :=
  mkSys (fun _ => mkNode init 0 sched_init []) (fun _ _ => []) (fun _ => []).

Section Calvin.
Context (g_node_cnt g_client_node_cnt g_inflight_max : nat) (participants : Z -> list nat).
#[local] Abbreviation n := g_node_cnt.

(** What the queues do with the messages of a batch. *)
Fixpoint dispatch (i : nat) (out : list (nat * Msg)) (s : Sys) : res Sys :=
  match out with
  | [] => Ok s
  | (j, m) :: out' =>
      if decide (j = i) then
        d ← sched_enqueue n m (n_sched (node s i));
        dispatch i out' (mkSys (fset i (set_sched d (node s i)) (node s)) (chan s) (log s))
      else dispatch i out' (mkSys (node s) (fset i (fset j (chan s i j ++ [m]) (chan s i)) (chan s)) (log s))
  end.

(** The turn of [CalvinSequencerThread::run] in which the batch is ready. *)
Definition next_batch (i : nat) (s : Sys) : res Sys :=
  let x := node s i in
  let e := n_epoch x + 1 in
  let (out, q) := send_next_batch i n e (n_seq x) in
  dispatch i out (mkSys (fset i (mkNode q e (n_sched x) (n_handed x)) (node s)) (chan s) (log s)).

Inductive calvin_step : Sys -> Sys -> Prop :=
| step_query i m q s :
    (i < n)%nat -> rtype m ≠ RDONE ->
    process_txn i n g_client_node_cnt g_inflight_max participants (n_epoch (node s i)) m (n_seq (node s i)) = Ok q ->
    calvin_step s (mkSys (fset i (set_seq q (node s i)) (node s)) (chan s)
      (fset i (log s i ++ [stamp i n (n_epoch (node s i) + 1) m (n_seq (node s i))]) (log s)))
| step_batch i s s' : (i < n)%nat -> next_batch i s = Ok s' -> calvin_step s s'
| step_recv i j m rest d s :
    (i < n)%nat -> (j < n)%nat -> chan s i j = m :: rest ->
    sched_enqueue n m (n_sched (node s j)) = Ok d ->
    calvin_step s (mkSys (fset j (set_sched d (node s j)) (node s))
      (fset i (fset j rest (chan s i)) (chan s)) (log s))
| step_sched j o d s :
    (j < n)%nat -> sched_dequeue n (n_sched (node s j)) = Ok (o, d) ->
    calvin_step s (mkSys (fset j (mkNode (n_seq (node s j)) (n_epoch (node s j)) d
      (n_handed (node s j) ++ option_list o)) (node s)) (chan s) (log s))
| step_ack i m q rsp s :
    (i < n)%nat -> process_ack n m (n_seq (node s i)) = Ok (q, rsp) ->
    calvin_step s (mkSys (fset i (set_seq q (node s i)) (node s)) (chan s) (log s)).

(** ** The order *)

(** The transactions of a batch of sequencer [i], those of them that touch node
    [j], and what [i] sends to [j] for one batch and for a range of batches. *)
Definition in_batch (L : nat -> list Msg) (i : nat) (e : Z) : list Msg :=
  filter (fun m => batch_id m = e) (L i).
Definition touches (j : nat) (m : Msg) : Prop := j ∈ participants (query m).
#[export] Instance touches_dec j m : Decision (touches j m).
Proof using. unfold touches. apply _. Defined.
Definition msgs (L : nat -> list Msg) (i j : nat) (e : Z) : list Msg := filter (touches j) (in_batch L i e).
Definition block (L : nat -> list Msg) (i j : nat) (e : Z) : list Msg := msgs L i j e ++ [rdone i e].
Definition blocks (L : nat -> list Msg) (i j : nat) (a b : Z) : list Msg :=
  seqZ a (b - a) ≫= block L i j.

(** The global order: by epoch, then by sequencer, then as numbered. *)
Definition row_of (L : nat -> list Msg) (e : Z) (p : nat) : list Msg :=
  seq 0 p ≫= fun i => in_batch L i e.
Definition order (L : nat -> list Msg) (e : Z) (p : nat) : list Msg :=
  (seqZ 1 (e - 1) ≫= fun k => row_of L k n) ++ row_of L e p.

(** Where node [j] stands in the messages of [i]. *)
Definition inbox (s : Sys) (i j : nat) : list Msg := sched_queue (n_sched (node s j)) i ++ chan s i j.
Definition ptr (s : Sys) (j : nat) : nat := sched_ptr (n_sched (node s j)).
Definition wepoch (s : Sys) (j : nat) : Z := worker_epoch (n_sched (node s j)).
Definition sepoch (s : Sys) (i : nat) : Z := n_epoch (node s i).
Definition start (i p : nat) (e : Z) : Z := if decide (i < p)%nat then e + 1 else e.

Record node_inv (s : Sys) (j : nat) (pre : list Msg) : Prop := {
  ni_ptr : (ptr s j < n)%nat;
  ni_pos : 1 <= wepoch s j;
  ni_behind i : (i < n)%nat -> start i (ptr s j) (wepoch s j) <= sepoch s i + 1;
  ni_pre : pre `prefix_of` msgs (log s) (ptr s j) j (wepoch s j);
  ni_handed : n_handed (node s j) = filter (touches j) (order (log s) (wepoch s j) (ptr s j)) ++ pre;
  ni_inbox i : (i < n)%nat ->
    (if decide (i = ptr s j) then pre else []) ++ inbox s i j =
    blocks (log s) i j (start i (ptr s j) (wepoch s j)) (sepoch s i + 1);
}.

Record inv (s : Sys) : Prop := {
  inv_epoch i : (i < n)%nat -> 0 <= sepoch s i;
  inv_log i m : (i < n)%nat -> m ∈ log s i ->
    return_node_id m = i /\ 1 <= batch_id m <= sepoch s i + 1 /\ rtype m ≠ RDONE;
  inv_fill i j : (i < n)%nat -> (j < n)%nat ->
    fill_queue (n_seq (node s i)) j = msgs (log s) i j (sepoch s i + 1);
  inv_self i : (i < n)%nat -> chan s i i = [];
  inv_node j : (j < n)%nat -> exists pre, node_inv s j pre;
}.

(** ** Lists of batches *)

Lemma blocks_nil L i j a b : b <= a -> blocks L i j a b = [].
Proof using. intros H. unfold blocks. by rewrite seqZ_nil by lia. Qed.

Lemma blocks_cons L i j a b : a < b -> blocks L i j a b = block L i j a ++ blocks L i j (a + 1) b.
Proof using.
  intros H. unfold blocks. rewrite seqZ_cons by lia. cbn. do 3 f_equal; lia.
Qed.

Lemma blocks_snoc L i j a b : a <= b -> blocks L i j a (b + 1) = blocks L i j a b ++ block L i j b.
Proof using.
  intros H. unfold blocks. replace (b + 1 - a) with ((b - a) + 1) by lia.
  rewrite seqZ_app by lia. rewrite bind_app. f_equal. rewrite seqZ_cons, seqZ_nil by lia. cbn.
  rewrite app_nil_r. f_equal. lia.
Qed.

Lemma bind_ext_elem {A B} (f g : A -> list B) (l : list A) :
  (forall x, x ∈ l -> f x = g x) -> l ≫= f = l ≫= g.
Proof using.
  induction l as [|x l IH]; cbn; intros H; [done|]. rewrite (H x) by set_solver.
  f_equal. apply IH. set_solver.
Qed.

(** Two logs that agree up to a batch. *)
Definition agree (i : nat) (E : Z) (L L' : nat -> list Msg) : Prop :=
  forall e, e <= E -> in_batch L' i e = in_batch L i e.

Lemma blocks_agree i j E L L' a b : agree i E L L' -> b <= E + 1 -> blocks L' i j a b = blocks L i j a b.
Proof using.
  intros H Hb. unfold blocks. apply bind_ext_elem. intros e He%elem_of_seqZ.
  unfold block, msgs. rewrite H; [done|lia].
Qed.

Lemma order_agree L L' e p :
  (p <= n)%nat ->
  (forall i, (i < n)%nat -> agree i (e - 1) L L') ->
  (forall i, (i < p)%nat -> agree i e L L') ->
  order L' e p = order L e p.
Proof using.
  intros Hp H1 H2. unfold order, row_of. f_equal.
  - apply bind_ext_elem. intros k Hk%elem_of_seqZ. apply bind_ext_elem. intros i Hi%elem_of_seq.
    apply H1; lia.
  - apply bind_ext_elem. intros i Hi%elem_of_seq. apply H2; lia.
Qed.

Lemma filter_bind {A B} (P : B -> Prop) `{!forall x, Decision (P x)} (f : A -> list B) (l : list A) :
  filter P (l ≫= f) = l ≫= fun x => filter P (f x).
Proof using. induction l as [|x l IH]; cbn; [done|]. by rewrite filter_app, IH. Qed.

Lemma order_S L e p : order L e (S p) = order L e p ++ in_batch L p e.
Proof using.
  unfold order, row_of. rewrite seq_S, bind_app. cbn. by rewrite app_nil_r, app_assoc.
Qed.

Lemma order_next L e : 1 <= e -> order L (e + 1) 0 = order L e n.
Proof using.
  intros He. unfold order, row_of at 2. cbn [seq]. replace (e + 1 - 1) with ((e - 1) + 1) by lia.
  rewrite seqZ_app by lia. rewrite bind_app. cbn [mbind list_bind]. rewrite app_nil_r.
  f_equal. rewrite seqZ_cons, seqZ_nil by lia. cbn. rewrite app_nil_r. f_equal. lia.
Qed.

(** ** What a batch puts into the inboxes *)

Definition sent_to (out : list (nat * Msg)) (j : nat) : list Msg := (filter (fun p => p.1 = j) out).*2.

Lemma sent_to_cons j m out k : sent_to ((j, m) :: out) k = (if decide (j = k) then [m] else []) ++ sent_to out k.
Proof using. unfold sent_to. rewrite filter_cons. cbn [fst]. by case_decide. Qed.

Definition same_node (x y : Node) : Prop :=
  n_seq x = n_seq y /\ n_epoch x = n_epoch y /\ n_handed x = n_handed y /\
  sched_ptr (n_sched x) = sched_ptr (n_sched y) /\ worker_epoch (n_sched x) = worker_epoch (n_sched y).

Lemma dispatch_spec i out s :
  (i < n)%nat -> (forall j m, (j, m) ∈ out -> return_node_id m = i) -> chan s i i = [] ->
  exists s', dispatch i out s = Ok s' /\ log s' = log s /\
    (forall j, same_node (node s j) (node s' j)) /\ (forall k, chan s k k = [] -> chan s' k k = []) /\
    (forall k j, inbox s' k j = inbox s k j ++ if decide (k = i) then sent_to out j else []).
Proof using.
  intros Hi. revert s. induction out as [|[j m] out IH]; intros s Hout Hself; cbn [dispatch].
  { exists s. split_and!; [done|done|by intros; repeat split|done|].
    intros k j. case_decide; by rewrite app_nil_r. }
  assert (return_node_id m = i) as Hm by (apply (Hout j m); set_solver).
  destruct (decide (j = i)) as [->|Hne].
  - unfold sched_enqueue, ISSERVERN. rewrite Hm. rewrite (proj2 (Nat.ltb_lt i n) Hi).
    cbn [assert_ mbind res_bind].
    match goal with |- context [dispatch i out ?s1] => destruct (IH s1) as (s' & E & Hl & Hn & Hc & Hin) end;
      [set_solver|exact Hself|].
    exists s'. split_and!; [done|done| |done|].
    + intros j. specialize (Hn j). unfold same_node, fset in *. cbn in Hn. by destruct (decide (j = i)) as [->|].
    + intros k j. rewrite Hin, sent_to_cons. unfold inbox. cbn [node chan]. unfold fset.
      destruct (decide (j = i)) as [->|]; cbn [set_sched n_sched sched_queue].
      * destruct (decide (k = i)) as [->|]; [|done].
        rewrite (decide_True (P := i = i)) by done. rewrite Hself, !app_nil_r. by rewrite <-app_assoc.
      * by rewrite (decide_False (P := i = j)) by done.
  - match goal with |- context [dispatch i out ?s1] => destruct (IH s1) as (s' & E & Hl & Hn & Hc & Hin) end;
      [set_solver|cbn; unfold fset; rewrite decide_True by done; by rewrite decide_False by done|].
    exists s'. split_and!; [done|done|done| |].
    + intros k Hk. apply Hc. cbn. unfold fset. destruct (decide (k = i)) as [->|]; [|done].
      by rewrite decide_False by done.
    + intros k l. rewrite Hin, sent_to_cons. unfold inbox. cbn [node chan]. unfold fset.
      destruct (decide (k = i)) as [->|]; [|done].
      destruct (decide (l = j)) as [->|].
      * rewrite decide_True by done. cbn. by rewrite <-!app_assoc.
      * by rewrite (decide_False (P := j = l)) by done.
Qed.

Lemma sent_to_batch (f : nat -> list Msg) (j m : nat) :
  (j < m)%nat -> sent_to (seq 0 m ≫= fun k => (fun x => (k, x)) <$> f k) j = f j.
Proof using.
  intros Hj. unfold sent_to. rewrite filter_bind.
  assert (forall k, filter (fun p => p.1 = j) ((fun x => (k, x)) <$> f k) =
                    if decide (k = j) then (fun x => (k, x)) <$> f k else []) as Hk.
  { intros k. induction (f k) as [|x l IH]; [by case_decide|]. rewrite fmap_cons, filter_cons. cbn [fst].
    rewrite IH. case_decide; done. }
  rewrite (bind_ext_elem _ _ _ (fun k _ => Hk k)).
  replace m with (j + S (m - S j))%nat by lia. rewrite seq_app, bind_app. cbn [seq mbind list_bind].
  rewrite decide_True by done.
  assert (forall a b, (forall k, k ∈ seq a b -> k <> j) ->
    (seq a b ≫= fun k => if decide (k = j) then (fun x => (k, x)) <$> f k else []) = []) as Hnil.
  { intros a b Hab. rewrite (bind_ext_elem _ (fun _ => []) _); [clear Hab; induction (seq a b) as [|x l IH]; [done|exact IH]|].
    intros k Hin. by rewrite decide_False by (by apply Hab). }
  rewrite Hnil by (intros k Hk'%elem_of_seq; lia). cbn [app].
  rewrite Hnil by (intros k Hk'%elem_of_seq; lia). rewrite app_nil_r, <-list_fmap_compose.
  by rewrite list_fmap_id.
Qed.

(** ** Every step keeps the invariant *)

Lemma calvin_init_inv : (0 < n)%nat -> inv init_sys.
Proof using.
  intros Hn. split; cbn; try done; [by intros i m _ ?%elem_of_nil|]. intros j Hj. exists [].
  split; cbn; try done. intros i Hi. rewrite blocks_nil; [by case_decide|].
  unfold start. case_decide; lia.
Qed.

(** A step that changes one node and no message. *)
Lemma node_inv_same s s' j pre :
  log s' = log s -> (forall i, sepoch s' i = sepoch s i) ->
  (forall i, inbox s' i j = inbox s i j) -> ptr s' j = ptr s j -> wepoch s' j = wepoch s j ->
  n_handed (node s' j) = n_handed (node s j) -> node_inv s j pre -> node_inv s' j pre.
Proof using.
  intros Hl He Hin Hp Hw Hh [H1 H2 H3 H4 H5 H6]. split; rewrite ?Hl, ?Hp, ?Hw, ?Hh; try done.
  - intros i Hi. rewrite He. by apply H3.
  - intros i Hi. rewrite Hin, He. by apply H6.
Qed.

Lemma in_batch_snoc L i m e :
  in_batch (fset i (L i ++ [m]) L) i e = in_batch L i e ++ if decide (batch_id m = e) then [m] else [].
Proof using. unfold in_batch. rewrite fset_eq, filter_app, filter_cons. by case_decide. Qed.

Lemma agree_snoc L i m k E : (k = i -> E < batch_id m) -> agree k E L (fset i (L i ++ [m]) L).
Proof using.
  intros H e He. destruct (decide (k = i)) as [->|].
  - rewrite in_batch_snoc. specialize (H eq_refl). by rewrite decide_False, app_nil_r by lia.
  - unfold in_batch. by rewrite fset_ne.
Qed.

Lemma msgs_snoc L i m j e :
  msgs (fset i (L i ++ [m]) L) i j e =
  msgs L i j e ++ if decide (batch_id m = e /\ touches j m) then [m] else [].
Proof using All.
  unfold msgs. rewrite in_batch_snoc, filter_app. f_equal. destruct (decide (batch_id m = e)).
  - rewrite filter_cons. destruct (decide (touches j m)); [by rewrite decide_True|by rewrite decide_False by tauto].
  - by rewrite decide_False by tauto.
Qed.

Context (participants_set : forall q, NoDup (participants q)).

Lemma query_inv i m q s :
  (i < n)%nat -> rtype m ≠ RDONE ->
  process_txn i n g_client_node_cnt g_inflight_max participants (sepoch s i) m (n_seq (node s i)) = Ok q ->
  inv s ->
  inv (mkSys (fset i (set_seq q (node s i)) (node s)) (chan s)
    (fset i (log s i ++ [stamp i n (sepoch s i + 1) m (n_seq (node s i))]) (log s))).
Proof using All.
  intros Hi Hm E [H1 H2 H3 H4 H5]. set (m' := stamp _ _ _ _ _). set (L' := fset i _ (log s)).
  set (s' := mkSys _ _ _).
  assert (forall k, sepoch s' k = sepoch s k) as Hse.
  { intros k. unfold sepoch, s', fset. cbn. by case_decide; subst. }
  assert (forall k, n_sched (node s' k) = n_sched (node s k)) as Hsc.
  { intros k. unfold s', fset. cbn. by case_decide; subst. }
  assert (batch_id m' = sepoch s i + 1) as Hb by done.
  split.
  - intros k Hk. rewrite Hse. by apply H1.
  - intros k x Hk. rewrite Hse. unfold s', L'. cbn. unfold fset. destruct (decide (k = i)) as [->|]; [|by apply H2].
    rewrite elem_of_app, list_elem_of_singleton. intros [Hx| ->]; [by apply H2|].
    split; [done|]. specialize (H1 i Hi). cbn. split; [lia|done].
  - intros k j Hk Hj. rewrite Hse. unfold s'. cbn [node log]. unfold L'. destruct (decide (k = i)) as [->|Hne].
    + rewrite fset_eq. cbn [set_seq n_seq]. rewrite msgs_snoc.
      rewrite (process_txn_fill _ _ _ _ _ _ _ _ _ (participants_set _) E j).
      rewrite H3 by done. f_equal. unfold touches. cbn.
      destruct (decide (j ∈ participants (query m))); [by rewrite decide_True|by rewrite decide_False by tauto].
    + rewrite fset_ne by done. rewrite H3 by done. unfold msgs, in_batch. by rewrite fset_ne.
  - done.
  - intros j Hj. destruct (H5 j Hj) as (pre & [N1 N2 N3 N4 N5 N6]). exists pre.
    assert (forall k, (k < n)%nat -> agree k (sepoch s k) (log s) L') as Hag
      by (intros k Hk; apply agree_snoc; intros ->; lia).
    split; unfold ptr, wepoch; rewrite ?Hsc; try done.
    + intros k Hk. rewrite Hse. by apply N3.
    + etrans; [exact N4|]. unfold s'. cbn [log]. unfold L'. destruct (decide (ptr s j = i)) as [<-|].
      * rewrite msgs_snoc. by apply prefix_app_r.
      * unfold msgs, in_batch. by rewrite fset_ne.
    + unfold s' at 1 2. cbn. fold L'. unfold fset. replace (n_handed (if decide (j = i) then set_seq q (node s i) else node s j))
        with (n_handed (node s j)) by (case_decide; by subst).
      rewrite N5. f_equal. f_equal. symmetry. unfold ptr, wepoch in *. apply order_agree; [lia| |].
      * intros k Hk. intros e He. apply Hag; [done|]. specialize (N3 k Hk). unfold start in N3. case_decide; lia.
      * intros k Hk e He. apply Hag; [lia|]. specialize (N3 k ltac:(lia)). unfold start in N3.
        rewrite decide_True in N3 by done. lia.
    + intros k Hk. rewrite Hse. unfold inbox. rewrite Hsc. cbn.
      rewrite (blocks_agree k j (sepoch s k) (log s)); [by apply N6|by apply Hag|lia].
Qed.

Lemma filter_none {A} (P : A -> Prop) `{!forall x, Decision (P x)} (l : list A) :
  (forall x, x ∈ l -> ~ P x) -> filter P l = [].
Proof using All.
  induction l as [|x l IH]; [done|]. intros Hno. rewrite filter_cons, decide_False by (apply Hno; set_solver).
  apply IH. set_solver.
Qed.

Lemma batch_inv i s s' : (i < n)%nat -> next_batch i s = Ok s' -> inv s -> inv s'.
Proof using All.
  intros Hi E [H1 H2 H3 H4 H5]. unfold next_batch, send_next_batch in E.
  set (e := n_epoch (node s i) + 1) in *. set (out := seq 0 n ≫= _) in E. set (s0 := mkSys _ _ _) in E.
  assert (forall j m, (j, m) ∈ out -> (j < n)%nat /\ (m ∈ fill_queue (n_seq (node s i)) j \/ m = rdone i e)) as Hout.
  { intros j m (k & Hk & Hin)%list_elem_of_bind. apply list_elem_of_fmap in Hk as (x & [= -> ->] & Hx).
    apply elem_of_seq in Hin. rewrite elem_of_app, list_elem_of_singleton in Hx. split; [lia|done]. }
  destruct (dispatch_spec i out s0 Hi) as (s1 & E1 & Hl & Hn & Hc & Hin).
  { intros j m [Hj [Hm| ->]]%Hout; [|done]. rewrite H3 in Hm by done.
    unfold msgs in Hm. apply list_elem_of_filter in Hm as [_ Hm]. apply list_elem_of_filter in Hm as [_ Hm].
    by apply (H2 i). }
  { by apply H4. }
  assert (s1 = s') as -> by congruence. clear E E1.
  assert (forall j, (j < n)%nat -> sent_to out j = fill_queue (n_seq (node s i)) j ++ [rdone i e]) as Hsent
    by (intros j Hj; unfold out; by rewrite (sent_to_batch (fun j => fill_queue (n_seq (node s i)) j ++ [rdone i e]))).
  assert (forall k j, inbox s0 k j = inbox s k j) as Hin0
    by (intros k j; unfold inbox, s0; cbn [node chan]; unfold fset; by case_decide; subst).
  assert (forall j, n_handed (node s0 j) = n_handed (node s j) /\
                    n_sched (node s0 j) = n_sched (node s j)) as Hnd0
    by (intros j; unfold s0; cbn [node]; unfold fset; by case_decide; subst).
  assert (forall j, sepoch s' j = if decide (j = i) then sepoch s i + 1 else sepoch s j) as Hse.
  { intros j. unfold sepoch. destruct (Hn j) as (_ & <- & _). unfold s0. cbn [node]. unfold fset.
    by case_decide; subst. }
  assert (forall k, sepoch s k <= sepoch s' k) as Hmono
    by (intros k; rewrite Hse; case_decide; [subst k|]; lia).
  split.
  - intros k Hk. specialize (H1 k Hk). specialize (Hmono k). lia.
  - intros k m Hk Hm. rewrite Hl in Hm. destruct (H2 k m Hk Hm) as (Hm1 & Hm2 & Hm3).
    specialize (Hmono k). split; [done|]. split; [lia|done].
  - intros k j Hk Hj. rewrite Hl, Hse. destruct (Hn k) as (<- & _). cbn [log s0]. unfold s0. cbn [node]. unfold fset.
    destruct (decide (k = i)) as [->|]; [|by apply H3]. cbn [n_seq fill_queue].
    rewrite (proj2 (Nat.ltb_lt j n) Hj). symmetry. apply list_filter_nil_2 || idtac.
    unfold msgs. replace (in_batch (log s) i (sepoch s i + 1 + 1)) with (@nil Msg); [done|].
    symmetry. unfold in_batch. apply filter_none. intros m Hm Hb. destruct (H2 i m Hi Hm). lia.
  - intros k Hk. apply Hc. by apply H4.
  - intros j Hj. destruct (H5 j Hj) as (pre & [N1 N2 N3 N4 N5 N6]). exists pre.
    assert (ptr s' j = ptr s j /\ wepoch s' j = wepoch s j) as [Hp Hw].
    { unfold ptr, wepoch. destruct (Hn j) as (_ & _ & _ & <- & <-). by destruct (Hnd0 j) as [_ ->]. }
    split; rewrite ?Hp, ?Hw, ?Hl; try done.
    + intros k Hk. specialize (N3 k Hk). specialize (Hmono k). lia.
    + destruct (Hn j) as (_ & _ & <- & _). destruct (Hnd0 j) as [-> _]. exact N5.
    + intros k Hk. rewrite Hin, Hin0, app_assoc, N6, Hse by done. cbn [log s0].
      destruct (decide (k = i)) as [->|]; [|by rewrite app_nil_r].
      rewrite (blocks_snoc _ i j _ (sepoch s i + 1)) by (by apply N3). f_equal. rewrite Hsent, H3 by done. done.
Qed.

(** Reading the head of a list of blocks. *)
Lemma split_block (pre M r r0 : list Msg) (x d : Msg) :
  pre `prefix_of` M -> pre ++ x :: r = M ++ d :: r0 ->
  (pre = M /\ x = d /\ r = r0) \/ (exists M', M = pre ++ x :: M' /\ r = M' ++ d :: r0).
Proof using All.
  intros [M' ->]. rewrite <-app_assoc. intros H%app_inv_head. destruct M' as [|y M']; cbn in H.
  - left. rewrite app_nil_r. by injection H as -> ->.
  - right. injection H as -> ->. by exists M'.
Qed.

Lemma head_of_pre j s pre x r :
  (j < n)%nat -> inv s -> node_inv s j pre -> sched_queue (n_sched (node s j)) (ptr s j) = x :: r ->
  let p := ptr s j in let e := wepoch s j in
  e <= sepoch s p /\ batch_id x = e /\
  ((rtype x = RDONE /\ pre = msgs (log s) p j e /\
      r ++ chan s p j = blocks (log s) p j (e + 1) (sepoch s p + 1)) \/
   (rtype x <> RDONE /\ (pre ++ [x]) `prefix_of` msgs (log s) p j e /\
      pre ++ x :: r ++ chan s p j = blocks (log s) p j e (sepoch s p + 1))).
Proof using All.
  intros Hj Hinv [N1 N2 N3 N4 N5 N6] Hq p e. specialize (N6 p N1).
  rewrite decide_True in N6 by done. unfold inbox in N6. fold p in Hq. rewrite Hq in N6.
  unfold start in N6. rewrite decide_False in N6 by (fold p; lia). fold e in N6.
  destruct (decide (e <= sepoch s p)) as [He|He].
  2: { rewrite blocks_nil in N6 by lia. cbn in N6. by apply app_nil in N6 as [_ ?]. }
  split; [done|]. pose proof N6 as N6'. rewrite blocks_cons in N6 by lia. unfold block in N6.
  rewrite <-app_assoc in N6. cbn [app] in N6.
  destruct (split_block _ _ _ _ _ _ N4 N6) as [(HM & -> & Hr)|(M' & HM & Hr)].
  - split; [done|]. left. split_and!; done.
  - change (msgs (log s) p j e = pre ++ x :: M') in HM.
    assert (x ∈ msgs (log s) p j e) as Hx by (rewrite HM; set_solver).
    unfold msgs in Hx. apply list_elem_of_filter in Hx as [_ Hx]. apply list_elem_of_filter in Hx as [Hb Hx].
    split; [done|]. right. destruct (inv_log _ Hinv p x N1 Hx) as (_ & _ & Ht). split; [done|]. split; [|done].
    rewrite HM. exists M'. by rewrite <-app_assoc.
Qed.

Lemma sched_total s j : (j < n)%nat -> inv s -> exists o d, sched_dequeue n (n_sched (node s j)) = Ok (o, d).
Proof using All.
  intros Hj Hinv. destruct (inv_node _ Hinv j Hj) as (pre & Hni).
  unfold sched_dequeue. destruct (sched_queue _ _) as [|x r] eqn:Eq; [eauto|].
  destruct (head_of_pre j s pre x r Hj Hinv Hni Eq) as (_ & Hb & _). unfold wepoch in Hb.
  rewrite Hb, Z.eqb_refl. cbn [assert_ mbind res_bind]. case_decide; eauto.
Qed.

(** A step of another node's scheduler, or one that only changes a sequencer's
    wait lists. *)
Lemma inv_other s s' :
  log s' = log s -> (forall i, sepoch s' i = sepoch s i) ->
  (forall i, n_seq (node s' i) = n_seq (node s i) \/ fill_queue (n_seq (node s' i)) = fill_queue (n_seq (node s i))) ->
  (forall i, chan s i i = [] -> chan s' i i = []) ->
  (forall j, (j < n)%nat -> exists pre, node_inv s' j pre) ->
  inv s -> inv s'.
Proof using All.
  intros Hl He Hq Hc Hn [H1 H2 H3 H4 H5]. split; rewrite ?Hl; auto.
  - intros i Hi. rewrite He. auto.
  - intros i m Hi Hm. rewrite He. auto.
  - intros i j Hi Hj. rewrite He. destruct (Hq i) as [->|E]; [auto|]. rewrite E. auto.
Qed.

Lemma next_pos L p e :
  (p < n)%nat -> 1 <= e ->
  let p' := ((p + 1) mod n)%nat in let e' := if decide (p = n - 1)%nat then e + 1 else e in
  order L e' p' = order L e p ++ in_batch L p e /\
  (forall i, (i < n)%nat -> start i p' e' = if decide (i = p) then e + 1 else start i p e).
Proof using All.
  intros Hp He p' e'. rewrite <-order_S. unfold p', e', start. destruct (decide (p = n - 1)%nat) as [->|Hne].
  - replace (n - 1 + 1)%nat with n by lia. rewrite Nat.Div0.mod_same.
    rewrite order_next by done. replace (S (n - 1)) with n by lia. split; [done|].
    intros i Hi. rewrite decide_False by lia. case_decide; [done|]. by rewrite decide_True by lia.
  - rewrite Nat.mod_small by lia. rewrite Nat.add_1_r. split; [done|].
    intros i Hi. destruct (decide (i = p)) as [->|]; [by rewrite decide_True by lia|].
    destruct (decide (i < p)%nat); [by rewrite decide_True by lia|by rewrite decide_False by lia].
Qed.

Lemma sched_inv j o d s :
  (j < n)%nat -> sched_dequeue n (n_sched (node s j)) = Ok (o, d) -> inv s ->
  inv (mkSys (fset j (mkNode (n_seq (node s j)) (n_epoch (node s j)) d
      (n_handed (node s j) ++ option_list o)) (node s)) (chan s) (log s)).
Proof using All.
  intros Hj E Hinv. destruct (inv_node _ Hinv j Hj) as (pre & Hni). set (s' := mkSys _ _ _).
  apply (inv_other s); try done.
  { intros i. unfold sepoch, s', fset. cbn. by case_decide; subst. }
  { intros i. left. unfold s', fset. cbn. by case_decide; subst. }
  intros k Hk. destruct (decide (k = j)) as [->|Hne].
  2: { destruct (inv_node _ Hinv k Hk) as (pre' & Hni'). exists pre'.
       apply (node_inv_same s); [done|..|exact Hni']; unfold inbox, ptr, wepoch, s'; cbn [node chan];
         intros; rewrite ?fset_ne by done; try done.
       unfold sepoch, fset. cbn [node]. by case_decide; subst. }
  assert (forall i, sepoch s' i = sepoch s i) as Hse
    by (intros i; unfold sepoch, s', fset; cbn; by case_decide; subst).
  assert (node s' j = mkNode (n_seq (node s j)) (n_epoch (node s j)) d (n_handed (node s j) ++ option_list o))
    as Hnode by (unfold s'; cbn [node]; by rewrite fset_eq).
  unfold sched_dequeue in E. destruct (sched_queue (n_sched (node s j)) _) as [|x r] eqn:Eq.
  { injection E as <- <-. exists pre.
    apply (node_inv_same s); [done|done|..|exact Hni]; intros; unfold inbox, ptr, wepoch;
      rewrite Hnode; cbn [n_sched n_handed option_list]; [done..|by rewrite app_nil_r]. }
  destruct (head_of_pre j s pre x r Hj Hinv Hni Eq) as (He & Hb & Hcase).
  unfold wepoch in Hb. rewrite Hb, Z.eqb_refl in E. cbn [assert_ mbind res_bind] in E.
  destruct Hni as [N1 N2 N3 N4 N5 N6].
  destruct Hcase as [(Ht & -> & Hr)|(Ht & Hpre & Hr)].
  - (* the end of the batch of one sequencer *)
    rewrite decide_True in E by done. injection E as <- <-. exists [].
    destruct (next_pos (log s) (ptr s j) (wepoch s j) N1 N2) as [Ho Hst].
    unfold ptr, wepoch in *.
    split; unfold ptr, wepoch; rewrite ?Hnode; cbn [n_sched sched_ptr worker_epoch n_handed option_list].
    + apply Nat.mod_upper_bound. lia.
    + case_decide; lia.
    + intros i Hi. rewrite Hse, Hst by done. destruct (decide (i = _)) as [->|]; [lia|by apply N3].
    + apply prefix_nil.
    + rewrite !app_nil_r, N5. cbn [log s']. by rewrite Ho, filter_app.
    + intros i Hi. unfold inbox. rewrite Hnode, Hse, Hst by done. cbn [n_sched sched_queue]. unfold fset.
      match goal with |- (if ?b then [] else []) ++ _ = _ =>
        replace (if b then @nil Msg else []) with (@nil Msg) by (by destruct b) end. cbn [app].
      destruct (decide (i = _)) as [->|Hne]; [exact Hr|].
      rewrite <-N6 by done. by rewrite decide_False by done.
  - (* a transaction *)
    rewrite decide_False in E by done. injection E as <- <-. exists (pre ++ [x]).
    split; unfold ptr, wepoch; rewrite ?Hnode; cbn [n_sched sched_ptr worker_epoch n_handed option_list]; try done.
    + intros i Hi. rewrite Hse. by apply N3.
    + rewrite N5. by rewrite app_assoc.
    + intros i Hi. unfold inbox. rewrite Hnode, Hse. cbn [n_sched sched_queue]. rewrite <-N6 by done.
      unfold inbox, ptr, fset. destruct (decide (i = _)) as [->|]; [|done].
      rewrite Eq. by rewrite <-!app_assoc.
Qed.

Lemma inbox_origin s i j m :
  (i < n)%nat -> (j < n)%nat -> inv s -> m ∈ inbox s i j -> return_node_id m = i.
Proof using All.
  intros Hi Hj Hinv Hm. destruct (inv_node _ Hinv j Hj) as (pre & [N1 N2 N3 N4 N5 N6]).
  assert (m ∈ (if decide (i = ptr s j) then pre else []) ++ inbox s i j) as Hm'
    by (apply elem_of_app; by right).
  rewrite N6 in Hm' by done. unfold blocks in Hm'. apply list_elem_of_bind in Hm' as (e & Hm' & _).
  unfold block in Hm'. apply elem_of_app in Hm' as [Hm'|Hm'%list_elem_of_singleton]; [|by rewrite Hm'].
  unfold msgs in Hm'. apply list_elem_of_filter in Hm' as [_ Hm']. apply list_elem_of_filter in Hm' as [_ Hm'].
  by apply (inv_log _ Hinv i m Hi).
Qed.

Lemma recv_inv i j m rest d s :
  (i < n)%nat -> (j < n)%nat -> chan s i j = m :: rest ->
  sched_enqueue n m (n_sched (node s j)) = Ok d -> inv s ->
  inv (mkSys (fset j (set_sched d (node s j)) (node s)) (fset i (fset j rest (chan s i)) (chan s)) (log s)).
Proof using All.
  intros Hi Hj Ec E Hinv. set (s' := mkSys _ _ _).
  assert (j <> i) as Hne by (intros ->; rewrite (inv_self _ Hinv i Hi) in Ec; done).
  assert (return_node_id m = i) as Hm
    by (eapply inbox_origin; [exact Hi|exact Hj|exact Hinv|]; unfold inbox; rewrite Ec; set_solver).
  unfold sched_enqueue in E. rewrite Hm in E. destruct (ISSERVERN n i); cbn [assert_ mbind res_bind] in E; [|done].
  injection E as <-.
  apply (inv_other s); [done|..|exact Hinv].
  - intros k. unfold sepoch, s', fset. cbn. by case_decide; subst.
  - intros k. left. unfold s', fset. cbn. by case_decide; subst.
  - intros k Hk. unfold s', fset. cbn. destruct (decide (k = i)) as [->|]; [|done]. by rewrite decide_False by done.
  - intros k Hk. destruct (inv_node _ Hinv k Hk) as (pre & Hni). exists pre.
    apply (node_inv_same s); [done|..|exact Hni].
    + intros l. unfold sepoch, s', fset. cbn. by case_decide; subst.
    + intros l. unfold inbox, s'. cbn [node chan]. unfold fset.
      destruct (decide (k = j)) as [->|Hk']; cbn [set_sched n_sched sched_queue].
      * destruct (decide (l = i)) as [->|]; [|done].
        rewrite (decide_True (P := j = j)) by done. rewrite Ec. by rewrite <-app_assoc.
      * destruct (decide (l = i)) as [->|]; [|done]. by rewrite (decide_False (P := k = j)) by done.
    + unfold ptr, s', fset. cbn. by case_decide; subst.
    + unfold wepoch, s', fset. cbn. by case_decide; subst.
    + unfold s', fset. cbn. by case_decide; subst.
Qed.

Lemma ack_inv i m q rsp s :
  (i < n)%nat -> process_ack n m (n_seq (node s i)) = Ok (q, rsp) -> inv s ->
  inv (mkSys (fset i (set_seq q (node s i)) (node s)) (chan s) (log s)).
Proof using All.
  intros Hi E Hinv. apply process_ack_fill in E. set (s' := mkSys _ _ _).
  apply (inv_other s); [done|..|exact Hinv].
  - intros k. unfold sepoch, s', fset. cbn. by case_decide; subst.
  - intros k. right. unfold s', fset. cbn. by case_decide; subst.
  - done.
  - intros k Hk. destruct (inv_node _ Hinv k Hk) as (pre & Hni). exists pre.
    apply (node_inv_same s); [done|..|exact Hni]; intros; unfold sepoch, inbox, ptr, wepoch, s', fset;
      cbn [node chan]; by case_decide; subst.
Qed.

Lemma reachable_inv s : (0 < n)%nat -> rtc calvin_step init_sys s -> inv s.
Proof using All.
  intros Hn. apply (rtc_ind_r (fun s => inv s)); [by apply calvin_init_inv|].
  intros s1 s2 _ St Hinv.
  destruct St; [by apply query_inv|by eapply batch_inv|by eapply recv_inv|by eapply sched_inv|by eapply ack_inv].
Qed.

Lemma order_mono L e p e' p' :
  (p <= n)%nat -> 1 <= e -> e < e' \/ (e = e' /\ (p <= p')%nat) -> order L e p `prefix_of` order L e' p'.
Proof using All.
  intros Hp He [Hlt|[<- Hle]].
  - unfold order. replace (e' - 1) with ((e - 1) + (e' - e)) by lia. rewrite seqZ_app by lia.
    rewrite bind_app, <-app_assoc. apply prefix_app. rewrite seqZ_cons by lia. cbn. rewrite <-app_assoc.
    apply prefix_app_r. replace (1 + (e - 1)) with e by lia. unfold row_of.
    replace n with (p + (n - p))%nat by lia. rewrite seq_app, bind_app. by apply prefix_app_r.
  - unfold order, row_of. apply prefix_app. replace p' with (p + (p' - p))%nat by lia.
    rewrite seq_app, bind_app. by apply prefix_app_r.
Qed.

(** A prefix of what a filter keeps is what it keeps of a prefix. *)
Lemma prefix_of_filter (P : Msg -> Prop) `{!forall x, Decision (P x)} (l pre : list Msg) :
  pre `prefix_of` filter P l -> exists l', l' `prefix_of` l /\ pre = filter P l'.
Proof using All.
  revert pre. induction l as [|x l IH]; intros pre Hp.
  { exists []. split; [done|]. by apply prefix_nil_inv in Hp. }
  rewrite filter_cons in Hp. destruct (decide (P x)) as [HP|HP].
  - destruct pre as [|y pre]; [exists []; split; [apply prefix_nil|done]|].
    pose proof (prefix_cons_inv_1 _ _ _ _ Hp) as ->. apply prefix_cons_inv_2 in Hp.
    destruct (IH pre Hp) as (l' & Hl' & ->). exists (x :: l'). split; [by apply prefix_cons|].
    by rewrite filter_cons, decide_True.
  - destruct (IH pre Hp) as (l' & Hl' & ->). exists (x :: l'). split; [by apply prefix_cons|].
    by rewrite filter_cons, decide_False.
Qed.

Lemma prefix_filter (P : Msg -> Prop) `{!forall x, Decision (P x)} (l l' : list Msg) :
  l `prefix_of` l' -> filter P l `prefix_of` filter P l'.
Proof using All. intros [k ->]. rewrite filter_app. by apply prefix_app_r. Qed.

Lemma filter_comm (P Q : Msg -> Prop) `{!forall x, Decision (P x)} `{!forall x, Decision (Q x)} (l : list Msg) :
  filter P (filter Q l) = filter Q (filter P l).
Proof using.
  induction l as [|x l IH]; [done|]. rewrite !filter_cons.
  destruct (decide (P x)) as [HP|HP], (decide (Q x)) as [HQ|HQ]; rewrite ?filter_cons;
    rewrite ?(decide_True _ _ HP), ?(decide_True _ _ HQ), ?(decide_False _ _ HP), ?(decide_False _ _ HQ);
    by rewrite IH.
Qed.

Lemma handed_prefix s j :
  (j < n)%nat -> inv s ->
  1 <= wepoch s j /\
  exists P, order (log s) (wepoch s j) (ptr s j) `prefix_of` P /\
    P `prefix_of` order (log s) (wepoch s j + 1) 0 /\
    n_handed (node s j) = filter (touches j) P.
Proof using All.
  intros Hj Hr. destruct (inv_node _ Hr j Hj) as (pre & [N1 N2 N3 N4 N5 N6]). split; [done|].
  apply prefix_of_filter in N4 as (b & Hb & ->).
  exists (order (log s) (wepoch s j) (ptr s j) ++ b). split; [by apply prefix_app_r|]. split.
  - etrans; [apply prefix_app, Hb|]. rewrite <-order_S, order_next by done. apply order_mono; [lia|done|]. right. lia.
  - by rewrite N5, filter_app.
Qed.

(** C11. In every run, a scheduler never meets a message of the wrong epoch, and
    what it has handed to its lock thread is exactly what is left of a prefix
    of the one global order (by epoch, then sequencer, then number) when the
    transactions that do not touch its node are taken out: nothing of the
    epochs before its own is missing. *)
Theorem calvin_scheduler_order s j :
  (j < n)%nat -> rtc calvin_step init_sys s ->
  (exists o d, sched_dequeue n (n_sched (node s j)) = Ok (o, d)) /\
  exists P, order (log s) (wepoch s j) (ptr s j) `prefix_of` P /\
    P `prefix_of` order (log s) (wepoch s j + 1) 0 /\
    n_handed (node s j) = filter (touches j) P.
Proof using All.
  intros Hj Hr%reachable_inv; [|lia]. split; [by apply sched_total|by apply handed_prefix].
Qed.

(** C10. Any two schedulers hand out the transactions that touch both their
    nodes in the same order: what one has handed out of them is a prefix of
    what the other has. *)
Theorem calvin_same_order s j1 j2 :
  (j1 < n)%nat -> (j2 < n)%nat -> rtc calvin_step init_sys s ->
  filter (touches j2) (n_handed (node s j1)) `prefix_of` filter (touches j1) (n_handed (node s j2)) \/
  filter (touches j1) (n_handed (node s j2)) `prefix_of` filter (touches j2) (n_handed (node s j1)).
Proof using All.
  intros Hj1 Hj2 Hr%reachable_inv; [|lia].
  destruct (handed_prefix s j1 Hj1 Hr) as (He1 & P1 & _ & HP1 & ->).
  destruct (handed_prefix s j2 Hj2 Hr) as (He2 & P2 & _ & HP2 & ->).
  set (e := Z.max (wepoch s j1) (wepoch s j2) + 1).
  assert (forall e', 1 <= e' -> e' <= e -> order (log s) e' 0 `prefix_of` order (log s) e 0) as Hm
    by (intros e' He Hle; apply order_mono; lia).
  rewrite (filter_comm (touches j2) (touches j1) P1).
  destruct (prefix_weak_total P1 P2 (order (log s) e 0)) as [Hp|Hp];
    [etrans; [eassumption|apply Hm; lia]..|left|right]; by do 2 apply prefix_filter.
Qed.
End Calvin.

(** ** A concrete run *)

Inductive cmd := CQuery (i : nat) (q : Z) | CBatch (i : nat) | CRecv (i j : nat) | CSched (j : nat).

(** Two servers and a client, node 2; query 0 touches both servers, query 1
    the first, any other the second. *)
Definition ex_parts (q : Z) : list nat := if q =? 0 then [0; 1]%nat else if q =? 1 then [0]%nat else [1]%nat.
Definition ex_query (q : Z) : Msg := mkMsg CL_QRY 0 0 2 0 q.

Definition exec (c : cmd) (s : Sys) : res Sys :=
  match c with
  | CQuery i q =>
      if decide (i < 2)%nat then
        sq ← process_txn i 2 1 10 ex_parts (n_epoch (node s i)) (ex_query q) (n_seq (node s i));
        Ok (mkSys (fset i (set_seq sq (node s i)) (node s)) (chan s)
              (fset i (log s i ++ [stamp i 2 (n_epoch (node s i) + 1) (ex_query q) (n_seq (node s i))]) (log s)))
      else AssertFail
  | CBatch i => if decide (i < 2)%nat then next_batch 2 i s else AssertFail
  | CRecv i j =>
      if decide (i < 2 /\ j < 2)%nat then
        match chan s i j with
        | [] => AssertFail
        | m :: rest =>
            d ← sched_enqueue 2 m (n_sched (node s j));
            Ok (mkSys (fset j (set_sched d (node s j)) (node s)) (fset i (fset j rest (chan s i)) (chan s)) (log s))
        end
      else AssertFail
  | CSched j =>
      if decide (j < 2)%nat then
        '(o, d) ← sched_dequeue 2 (n_sched (node s j));
        Ok (mkSys (fset j (mkNode (n_seq (node s j)) (n_epoch (node s j)) d
             (n_handed (node s j) ++ option_list o)) (node s)) (chan s) (log s))
      else AssertFail
  end.
Fixpoint run (l : list cmd) (s : Sys) : res Sys :=
  match l with
  | [] => Ok s
  | c :: l' => s' ← exec c s; run l' s'
  end.
Definition final (l : list cmd) : Sys := match run l init_sys with Ok s => s | AssertFail => init_sys end.

Lemma calvin_exec_step c s s' : exec c s = Ok s' -> calvin_step 2 1 10 ex_parts s s'.
Proof.
  destruct c as [i q|i|i j|j]; cbn [exec].
  - case_decide; [|done]. destruct (process_txn _ _ _ _ _ _ _ _) as [sq|] eqn:E; cbn [mbind res_bind]; [|done].
    intros [= <-]. by apply (step_query 2 1 10 ex_parts i (ex_query q) sq).
  - case_decide; [|done]. by apply step_batch.
  - case_decide as Hij; [|done]. destruct (chan s i j) as [|m rest] eqn:Ec; [done|].
    destruct (sched_enqueue _ _ _) as [d|] eqn:E; cbn [mbind res_bind]; [|done].
    intros [= <-]. destruct Hij. by apply (step_recv 2 1 10 ex_parts i j m rest d).
  - case_decide; [|done]. destruct (sched_dequeue _ _) as [[o d]|] eqn:E; cbn [mbind res_bind]; [|done].
    intros [= <-]. by apply (step_sched 2 1 10 ex_parts j o d).
Qed.

Lemma calvin_final_reachable l : rtc (calvin_step 2 1 10 ex_parts) init_sys (final l).
Proof.
  unfold final. destruct (run l init_sys) as [s|] eqn:E; [|apply rtc_refl].
  revert E. generalize init_sys. induction l as [|c l IH]; intros s0; cbn [run]; [intros [= <-]; apply rtc_refl|].
  destruct (exec c s0) as [s1|] eqn:E; cbn [mbind res_bind]; [|done].
  intros H%IH. eapply rtc_l; [by eapply calvin_exec_step|done].
Qed.

(** Both sequencers number transactions that touch both servers; server 1 is
    still in the first epoch while server 0 has finished it. *)
Definition ex_run : list cmd :=
  [CQuery 0 0; CQuery 1 0; CQuery 0 1; CBatch 0; CQuery 0 0; CBatch 1; CRecv 1 0; CRecv 1 0;
   CSched 0; CSched 0; CSched 0; CSched 0; CSched 0; CRecv 0 1; CSched 1].

Example ex_handed :
  ((fun m => (batch_id m, return_node_id m, txn_id m, query m)) <$> n_handed (node (final ex_run) 0)) =
    [(1, 0%nat, 0, 0); (1, 0%nat, 2, 1); (1, 1%nat, 1, 0)] /\
  ((fun m => (batch_id m, return_node_id m, txn_id m, query m)) <$> n_handed (node (final ex_run) 1)) =
    [(1, 0%nat, 0, 0)] /\
  wepoch (final ex_run) 0 = 2 /\ wepoch (final ex_run) 1 = 1.
Proof. vm_compute. done. Qed.

Lemma ex_parts_set q : NoDup (ex_parts q).
Proof.
  unfold ex_parts. repeat case_match; repeat (apply NoDup_cons; split; [set_solver|]); by apply NoDup_nil.
Qed.

Lemma calvin_scheduler_order_witness :
  length (n_handed (node (final ex_run) 0)) = 3%nat /\
  (exists o d, sched_dequeue 2 (n_sched (node (final ex_run) 0)) = Ok (o, d)) /\
  exists P, order 2 (log (final ex_run)) (wepoch (final ex_run) 0) (ptr (final ex_run) 0) `prefix_of` P /\
    P `prefix_of` order 2 (log (final ex_run)) (wepoch (final ex_run) 0 + 1) 0 /\
    n_handed (node (final ex_run) 0) = filter (touches ex_parts 0) P.
Proof.
  split; [vm_compute; reflexivity|].
  exact (calvin_scheduler_order 2 1 10 ex_parts ex_parts_set (final ex_run) 0 ltac:(lia) (calvin_final_reachable ex_run)).
Defined.

Lemma calvin_same_order_witness :
  filter (touches ex_parts 1) (n_handed (node (final ex_run) 0)) `prefix_of`
    filter (touches ex_parts 0) (n_handed (node (final ex_run) 1)) \/
  filter (touches ex_parts 0) (n_handed (node (final ex_run) 1)) `prefix_of`
    filter (touches ex_parts 1) (n_handed (node (final ex_run) 0)).
Proof.
  exact (calvin_same_order 2 1 10 ex_parts ex_parts_set (final ex_run) 0 1 ltac:(lia) ltac:(lia) (calvin_final_reachable ex_run)).
Defined.
