(* ===== verification/TwoPC.v ===== *)
(** * TwoPC: execution, two-phase commit and restart of one transaction

    Model of the transaction manager's commit path (system/txn.cpp: [commit],
    [abort], [start_commit], [start_abort], [send_prepare_messages],
    [send_finish_messages], [received_response], [reset]) and of the worker
    thread's message handlers that drive it (system/worker_thread.cpp:
    [process_rtxn], [process_rtxn_cont], [process_rqry], [process_rqry_cont],
    [process_rqry_rsp], [process_rprepare], [process_rack_prep],
    [process_rfin], [process_rack_rfin], [check_if_done], [commit], [abort]),
    for one transaction on all the nodes of a cluster.

    A node's state for the transaction is [TM].  A handler is a computation
    that changes the state of its node, sends messages and leaves events (a
    vote, the release of the node's accesses with a result, the answer to the
    client); assertions of the code are failures of the monad.  What a handler
    does not decide itself is an argument [Choice]: how far the stored
    procedure gets before it needs a remote row, must wait, aborts or is done,
    and what the validation of the concurrency control algorithm returns.

    The configuration is the checked-in one as far as it matters here: no
    migration, no logging, NO_2PC undefined.  In [start_commit] and
    [process_rqry] the source has unresolved merge conflicts; without
    migration both sides of the first call [commit], and the second concerns
    an RQRY that reaches the transaction's home node, where the model has the
    first side.  Timestamps and bounds that ride on the messages are left to
    the files of the algorithms. *)

From stdpp Require Import base tactics numbers list relations.
From Stdlib Require Import ZArith Lia.
From S2P Require Import Prelude.
#[local] Open Scope Z_scope.

(** The concurrency control algorithms of config.h. *)
Inductive CC_ALG :=
| NO_WAIT | WAIT_DIE | TIMESTAMP | MVCC | OCC | BOCC | FOCC | MAAT | WOOKONG | TICTOC | SSI | WSI
| SILO | DTA | DLI_BASE | DLI_OCC | DLI_MVCC_OCC | DLI_MVCC | DLI_DTA | DLI_DTA2 | DLI_DTA3 | CNULL.
#[global] Instance CC_ALG_eq_dec : EqDecision CC_ALG.
Proof. solve_decision. Defined.

(** The algorithms that prepare a read-only transaction as well
    ([start_commit]), and those whose participants acknowledge its end
    ([process_rfin]). *)
Definition prepares_readonly (a : CC_ALG) : bool :=
  match a with OCC | MAAT | DLI_BASE | DLI_OCC | SILO | BOCC | SSI => true | _ => false end.
Definition acks_readonly (a : CC_ALG) : bool :=
  match a with MAAT | OCC | TICTOC | BOCC | SSI | DLI_BASE | DLI_OCC | SILO => true | _ => false end.

Inductive RemReqType :=
| CL_QRY | RTXN | RTXN_CONT | RQRY | RQRY_CONT | RQRY_RSP | RPREPARE | RACK_PREP | RFIN | RACK_FIN.
#[global] Instance RemReqType_eq_dec : EqDecision RemReqType.
Proof. solve_decision. Defined.

Record Msg := mkMsg {
  rtype : RemReqType;
  dest : Z;
  return_node_id : Z;
  msg_rc : RC;
  readonly : bool;
}.
#[global] Instance Msg_eq_dec : EqDecision Msg.
Proof. solve_decision. Defined.

(** The transaction manager: [rc] is [txn->rc], [partitions_touched] is the
    query's. *)
Record TM := mkTM {
  rc : RC;
  rsp_cnt : Z;
  aborted : bool;
  return_id : Z;
  abort_cnt : Z;
  partitions_touched : list Z;
}.
Definition fresh_TM : TM := mkTM RCOK 0 false UINT64_MAX 0 [].
Definition set_rc (r : RC) (t : TM) : TM :=
  mkTM r (rsp_cnt t) (aborted t) (return_id t) (abort_cnt t) (partitions_touched t).
Definition set_rsp_cnt (c : Z) (t : TM) : TM :=
  mkTM (rc t) c (aborted t) (return_id t) (abort_cnt t) (partitions_touched t).
Definition set_aborted (t : TM) : TM :=
  mkTM (rc t) (rsp_cnt t) true (return_id t) (abort_cnt t) (partitions_touched t).
Definition set_return_id (g : Z) (t : TM) : TM :=
  mkTM (rc t) (rsp_cnt t) (aborted t) g (abort_cnt t) (partitions_touched t).
Definition set_touched (l : list Z) (t : TM) : TM :=
  mkTM (rc t) (rsp_cnt t) (aborted t) (return_id t) (abort_cnt t) l.
Definition incr_abort_cnt (t : TM) : TM :=
  mkTM (rc t) (rsp_cnt t) (aborted t) (return_id t) (abort_cnt t + 1) (partitions_touched t).

(** [TxnManager::reset] with [Transaction::reset]. *)
Definition reset (t : TM) : TM := mkTM RCOK 0 false UINT64_MAX (abort_cnt t) (partitions_touched t).
(** [reset_query]: [BaseQuery::clear]. *)
Definition reset_query : TM -> TM := set_touched [].

(** [Array::add_unique]. *)
Definition add_unique (x : Z) (l : list Z) : list Z := if decide (x ∈ l) then l else l ++ [x].

(** What the transaction does at a node that shows outside of it. *)
Inductive event :=
| EvFail                       (* an access of the stored procedure aborted *)
| EvVote (r : RC)              (* the result of the validation of RPREPARE *)
| EvRelease (r : RC)           (* [release_locks(r)]: Abort undoes, RCOK installs *)
| EvAnswer (parts : list Z)    (* the response to the client *)
| EvRestart.                   (* the transaction goes to the abort queue *)

(** ** The monad of the handlers *)

Definition M (A : Type) : Type := TM -> res (A * TM * list Msg * list event).
#[global] Instance M_ret : MRet M := fun A x t => Ok (x, t, [], []).
#[global] Instance M_bind : MBind M := fun A B k m t =>
  match m t with
  | Ok (x, t1, o1, e1) =>
      match k x t1 with
      | Ok (y, t2, o2, e2) => Ok (y, t2, o1 ++ o2, e1 ++ e2)
      | AssertFail => AssertFail
      end
  | AssertFail => AssertFail
  end.
Definition get : M TM := fun t => Ok (t, t, [], []).
Definition modify (f : TM -> TM) : M unit := fun t => Ok (tt, f t, [], []).
Definition send (l : list Msg) : M unit := fun t => Ok (tt, t, l, []).
Definition emit (e : event) : M unit := fun t => Ok (tt, t, [], [e]).
Definition assert (b : bool) : M unit := fun t => if b then Ok (tt, t, [], []) else AssertFail.
#[local] Notation "m ;; k" := (mbind (fun _ : unit => k) m) (at level 100, right associativity).

(** ** The stored procedure's part of a call to [run_txn]

    The loop [while(rc == RCOK && !is_done()) rc = run_txn_state()] ends with
    the request for a remote row sent, with a wait for a local row, with an
    aborted access, or with the transaction done. *)
Inductive Exec := XRemote (d : Z) | XWait | XAbort | XDone.
Record Choice := mkChoice { exec : Exec; validate : RC }.

Section Cluster.
(** [txn_id] and [g_node_cnt]; whether the query has no writes; whether the
    workload's [run_txn] aborts the transaction at a remote node (the one of
    YCSB does, those of TPC-C and PPS have no such branch). *)
Context (alg : CC_ALG) (txn_id g_node_cnt : Z) (query_readonly remote_aborts : bool).

Definition GET_TXN_NODE_ID : Z := txn_id mod g_node_cnt.
Definition IS_LOCAL (g : Z) : bool := GET_TXN_NODE_ID =? g.
(** The partition map as [part_map_init] fills it. *)
Definition get_part_node_id (p : Z) : Z := p mod g_node_cnt.
(** [GET_PART_ID(0, n)]. *)
Definition GET_PART_ID (n : Z) : Z := n.

(** [Message::create_message(txn, rtype)]: the fields the handlers read. *)
Definition create_message (g : Z) (ty : RemReqType) (d : Z) (t : TM) : Msg :=
  mkMsg ty d g (rc t) query_readonly.
Definition enqueue (g : Z) (ty : RemReqType) (d : Z) : M unit :=
  t ← get; send [create_message g ty d t].

(** ** TxnManager *)

(** [abort()], up to statistics: nothing when it was done before. *)
Definition abort : M RC :=
  t ← get;
  if aborted t then mret Abort
  else (modify (fun t => set_aborted (set_rc Abort t));; emit (EvRelease Abort);; mret Abort).

Definition commit : M RC := emit (EvRelease RCOK);; mret Commit.

Definition remote_parts (g : Z) (l : list Z) : list Z := filter (fun p => get_part_node_id p <> g) l.

(** [send_prepare_messages] and [send_finish_messages]. *)
Definition send_to_parts (g : Z) (ty : RemReqType) : M unit :=
  t ← get;
  modify (set_rsp_cnt (Z.of_nat (length (partitions_touched t)) - 1));;
  send (map (fun p => create_message g ty (get_part_node_id p) t) (remote_parts g (partitions_touched t))).
Definition send_prepare_messages (g : Z) : M unit := send_to_parts g RPREPARE.
Definition send_finish_messages (g : Z) : M unit := assert (IS_LOCAL g);; send_to_parts g RFIN.

Definition received_response (r : RC) : M Z :=
  t ← get;
  assert (bool_decide (rc t = RCOK \/ rc t = Abort));;
  modify (fun t => if decide (rc t = RCOK) then set_rc r t else t);;
  modify (fun t => if 0 <? rsp_cnt t then set_rsp_cnt (rsp_cnt t - 1) t else t);;
  t ← get; mret (rsp_cnt t).

Definition is_multi_part (t : TM) : bool := (1 <? length (partitions_touched t))%nat.

Definition start_abort (g : Z) : M RC :=
  modify (set_rc Abort);;
  t ← get;
  if is_multi_part t then (send_finish_messages g;; _ ← abort; mret Abort) else abort.

(** [start_commit]; [v] is the result of [validate()]. *)
Definition start_commit (g : Z) (v : RC) : M RC :=
  t ← get;
  if is_multi_part t then
    if decide (alg = TICTOC) then
      if decide (v = Abort) then mret v else (send_prepare_messages g;; mret WAIT_REM)
    else if negb query_readonly || prepares_readonly alg then
      (send_prepare_messages g;; mret WAIT_REM)
    else
      (send_finish_messages g;; modify (set_rsp_cnt 0);; mret WAIT_REM)
  else if decide (v = RCOK) then commit
  else (modify (set_rc Abort);; t ← get;
        (if is_multi_part t then (send_finish_messages g;; _ ← abort; mret tt) else mret tt);;
        abort).

(** ** The workload's [run_txn] around the stored procedure; [first] when the
    stored procedure is at its first state. *)
Definition run_txn (g : Z) (first : bool) (ch : Choice) : M RC :=
  (if IS_LOCAL g && first
   then modify (fun t => set_touched (add_unique (GET_PART_ID g) (partitions_touched t)) t)
   else mret tt);;
  match exec ch with
  | XRemote d =>
      modify (fun t => set_touched (add_unique (GET_PART_ID d) (partitions_touched t)) t);;
      enqueue g RQRY d;; mret WAIT_REM
  | XWait => enqueue g (if IS_LOCAL g then RTXN_CONT else RQRY_CONT) g;; mret WAIT
  | XAbort =>
      emit EvFail;;
      if IS_LOCAL g then start_abort g else if remote_aborts then abort else mret Abort
  | XDone => if IS_LOCAL g then start_commit g (validate ch) else mret RCOK
  end.

(** ** WorkerThread *)

(** [commit()]: the response to the client, and the transaction manager goes
    back to the pool; [abort()]: the transaction will start again from the
    abort queue. *)
Definition wt_commit (g : Z) : M unit :=
  assert (IS_LOCAL g);; t ← get; emit (EvAnswer (partitions_touched t));; modify (fun _ => fresh_TM).
Definition wt_abort (g : Z) : M unit :=
  emit EvRestart;; modify (fun t => reset (incr_abort_cnt t));; enqueue g RTXN g.

Definition check_if_done (g : Z) (r : RC) : M unit :=
  t ← get;
  if 0 <? rsp_cnt t then mret tt
  else
    (if decide (r = Commit) then wt_commit g else mret tt);;
    (if decide (r = Abort) then wt_abort g else mret tt).

Definition process_rtxn (g : Z) (ch : Choice) : M RC :=
  r ← run_txn g true ch; check_if_done g r;; mret r.

Definition process_rtxn_cont (g : Z) (ch : Choice) : M RC :=
  assert (IS_LOCAL g);; r ← run_txn g false ch; check_if_done g r;; mret RCOK.

Definition respond (g : Z) (r : RC) : M unit :=
  if decide (r = WAIT) then mret tt else (t ← get; enqueue g RQRY_RSP (return_id t)).

Definition process_rqry (g : Z) (m : Msg) (ch : Choice) : M RC :=
  if IS_LOCAL g then (_ ← start_abort g; mret Abort)
  else
    modify (set_return_id (return_node_id m));;
    r ← run_txn g true ch; respond g r;; mret r.

Definition process_rqry_cont (g : Z) (ch : Choice) : M RC :=
  assert (negb (IS_LOCAL g));; r ← run_txn g false ch; respond g r;; mret r.

Definition process_rqry_rsp (g : Z) (m : Msg) (ch : Choice) : M RC :=
  assert (IS_LOCAL g);;
  if decide (msg_rc m = Abort) then (_ ← start_abort g; mret Abort)
  else r ← run_txn g false ch; check_if_done g r;; mret r.

Definition process_rprepare (g : Z) (m : Msg) (ch : Choice) : M RC :=
  emit (EvVote (validate ch));;
  modify (set_rc (validate ch));;
  enqueue g RACK_PREP (return_node_id m);;
  (if decide (validate ch = Abort) then (_ ← abort; mret tt) else mret tt);;
  mret (validate ch).

Definition process_rack_prep (g : Z) (m : Msg) (ch : Choice) : M RC :=
  left ← received_response (msg_rc m);
  assert (0 <=? left);;
  if 0 <? left then mret WAIT
  else
    t ← get;
    let r := if decide (rc t = RCOK) then (if decide (alg = TICTOC) then RCOK else validate ch) else RCOK in
    let r := if decide (r = Abort \/ rc t = Abort) then Abort else r in
    (if decide (r = Abort) then modify (set_rc Abort) else mret tt);;
    send_finish_messages g;;
    _ ← (if decide (r = Abort) then abort else commit);
    mret r.

Definition process_rfin (g : Z) (m : Msg) : M RC :=
  if decide (msg_rc m = Abort) then
    _ ← abort;
    modify reset;; modify reset_query;;
    enqueue g RACK_FIN GET_TXN_NODE_ID;; mret Abort
  else
    _ ← commit;
    (if negb (readonly m) || acks_readonly alg then enqueue g RACK_FIN GET_TXN_NODE_ID else mret tt);;
    modify (fun _ => fresh_TM);; mret RCOK.

Definition process_rack_rfin (g : Z) (m : Msg) : M RC :=
  left ← received_response (msg_rc m);
  if 0 <? left then mret WAIT
  else t ← get; (if decide (rc t = RCOK) then wt_commit g else wt_abort g);; mret RCOK.

(** [WorkerThread::process]. *)
Definition process (g : Z) (m : Msg) (ch : Choice) : M RC :=
  match rtype m with
  | CL_QRY | RTXN => process_rtxn g ch
  | RTXN_CONT => process_rtxn_cont g ch
  | RQRY => process_rqry g m ch
  | RQRY_CONT => process_rqry_cont g ch
  | RQRY_RSP => process_rqry_rsp g m ch
  | RPREPARE => process_rprepare g m ch
  | RACK_PREP => process_rack_prep g m ch
  | RFIN => process_rfin g m
  | RACK_FIN => process_rack_rfin g m
  end.

(** ** The cluster

    Messages are delivered in any order, each once.  The log records, for an
    event, the node and the attempt of the transaction it belongs to, which is
    the abort count at the home node. *)
Record Net := mkNet { tm : Z -> TM; net : list Msg; log : list (Z * Z * event) }.

Abbreviation home := GET_TXN_NODE_ID.
Definition init_net : Net :=
  mkNet (fun _ => fresh_TM) [mkMsg CL_QRY home home RCOK query_readonly] [].

Definition attempt (s : Net) : Z := abort_cnt (tm s home).

(** What may happen outside of the handlers: validation returns RCOK or Abort,
    and only the home node has rows to ask for at other nodes ([copy_remote_requests]
    sends a node only what it owns). *)
Definition admissible (g : Z) (ch : Choice) : Prop :=
  (validate ch = RCOK \/ validate ch = Abort) /\
  match exec ch with XRemote d => g = home /\ d <> home /\ 0 <= d < g_node_cnt | _ => True end.

Inductive step : Net -> Net -> Prop :=
| deliver s m rest ch r t out ev :
    net s ≡ₚ m :: rest ->
    admissible (dest m) ch ->
    process (dest m) m ch (tm s (dest m)) = Ok (r, t, out, ev) ->
    step s (mkNet (fset (dest m) t (tm s)) (rest ++ out)
              (log s ++ map (fun e => (dest m, attempt s, e)) ev)).

(** ** What the protocol promises *)

(** In attempt [k] no node has installed anything, and the client has no answer. *)
Definition nothing_installed (k : Z) (l : list (Z * Z * event)) : Prop :=
  forall d e, (d, k, e) ∈ l -> match e with EvRelease RCOK | EvAnswer _ => False | _ => True end.
(** In attempt [k] no access has failed, no node has voted against, and none has
    undone its part. *)
Definition nothing_undone (k : Z) (l : list (Z * Z * event)) : Prop :=
  forall d e, (d, k, e) ∈ l ->
    match e with EvFail | EvRestart => False | EvVote r | EvRelease r => r = RCOK | EvAnswer _ => True end.

Definition answered (l : list (Z * Z * event)) : Prop :=
  exists k parts, (home, k, EvAnswer parts) ∈ l.

End Cluster.
