(* ===== verification/TwoPCSafety.v ===== *)
(** * TwoPCSafety: agreement and progress of the two-phase commit

    For every execution of the cluster of [TwoPC]: the invariant that relates
    the messages in flight to the state of the home node and of the nodes it has
    touched, phase by phase, and what follows from it.  The configurations it
    holds for are named in the section's hypotheses; [TwoPCFaults] shows what
    happens outside of them. *)

From stdpp Require Import base tactics numbers list relations.
From Stdlib Require Import ZArith Lia.
From S2P Require Import Prelude TwoPC.
#[local] Open Scope Z_scope.

(** ** Lists of pending messages *)

(** What the home node knows of a node it has sent a request to. *)
Inductive pstat := Asked | Answered (r : RC) | Counted (r : RC).

Lemma omap_pending {A B} `{EqDecision A} (f : A -> option B) l m rest :
  NoDup l -> omap f l ≡ₚ m :: rest ->
  exists d, d ∈ l /\ f d = Some m /\
    forall (g : A -> option B), (forall x, x <> d -> g x = f x) ->
      omap g l ≡ₚ option_list (g d) ++ rest.
Proof.
  intros Hnd Hp.
  assert (Hm : m ∈ omap f l) by (rewrite Hp; left).
  apply list_elem_of_omap in Hm as (d & Hd & Hf).
  exists d. split_and!; [done..|]. intros g Hg.
  apply list_elem_of_split in Hd as (l1 & l2 & ->).
  apply NoDup_app in Hnd as (_ & Hn1 & [Hn2 _]%NoDup_cons).
  assert (Heq : forall k, (forall x, x ∈ k -> x <> d) -> omap (M:=list) g k = omap (M:=list) f k).
  { intros k Hk. induction k as [|x k IH]; [done|]. cbn.
    rewrite Hg by (apply Hk; left). rewrite IH by (intros; apply Hk; by right). done. }
  rewrite omap_app in Hp |- *. cbn in Hp |- *. rewrite Hf in Hp.
  rewrite (Heq l1), (Heq l2); [| |].
  - rewrite <- Permutation_middle in Hp. apply Permutation_cons_inv in Hp.
    rewrite <- Hp. destruct (g d); cbn; [by rewrite <- Permutation_middle|done].
  - intros x Hx ->. by apply Hn2.
  - intros x Hx ->. eapply Hn1; [done|left].
Qed.

Lemma omap_all {A B} (f : A -> option B) (g : A -> B) l :
  (forall x, x ∈ l -> f x = Some (g x)) -> omap f l = map g l.
Proof.
  induction l as [|x l IH]; intros H; [done|]. cbn. rewrite H by left.
  rewrite IH by (intros; apply H; by right). done.
Qed.

Lemma omap_nil_inv {A B} (f : A -> option B) l x : omap f l = [] -> x ∈ l -> f x = None.
Proof.
  induction l as [|y l IH]; cbn; intros H Hx; [set_solver|].
  destruct (f y) eqn:E; [done|]. apply elem_of_cons in Hx as [->|Hx]; auto.
Qed.

Section Safety.
Context (alg : CC_ALG) (txn_id n : Z) (ro : bool).
Context (Hn : 0 < n) (Halg : alg <> TICTOC) (Hro : negb ro || prepares_readonly alg = true).

#[local] Abbreviation home := (GET_TXN_NODE_ID txn_id n).
#[local] Abbreviation local := (IS_LOCAL txn_id n).
#[local] Abbreviation node_step := (step alg txn_id n ro true).
#[local] Abbreviation proc := (process alg txn_id n ro true).
#[local] Abbreviation remotes := (remote_parts n home).
#[local] Abbreviation att := (attempt txn_id n).

(** ** Arithmetic of the partition map *)

Lemma home_range : 0 <= home < n.
Proof. unfold GET_TXN_NODE_ID. apply Z.mod_pos_bound. lia. Qed.

Lemma local_home : local home = true.
Proof. unfold IS_LOCAL. apply Z.eqb_refl. Qed.

Lemma local_ne d : d <> home -> local d = false.
Proof. intros H. apply Z.eqb_neq. lia. Qed.

Definition in_range (l : list Z) : Prop := forall p, p ∈ l -> 0 <= p < n.

Lemma node_id p : 0 <= p < n -> get_part_node_id n p = p.
Proof. unfold get_part_node_id. intros. by rewrite Z.mod_small. Qed.

Lemma elem_of_remotes l p : in_range l -> p ∈ remotes l <-> p ∈ l /\ p <> home.
Proof.
  intros Hl. unfold remote_parts. rewrite list_elem_of_filter. split.
  - intros [H1 H2]. rewrite node_id in H1 by auto. done.
  - intros [H1 H2]. rewrite node_id by auto. done.
Qed.

Lemma remotes_NoDup l : NoDup l -> NoDup (remotes l).
Proof. apply NoDup_filter. Qed.

Lemma remotes_map {B} (f : Z -> B) l : in_range l ->
  map (fun p => f (get_part_node_id n p)) (remotes l) = map f (remotes l).
Proof.
  intros Hl. apply map_ext_in. intros p Hp. rewrite <- list_elem_of_In in Hp.
  rewrite elem_of_remotes in Hp by done. by rewrite node_id by (apply Hl; tauto).
Qed.

Lemma remotes_length l : in_range l -> NoDup l -> home ∈ l ->
  Z.of_nat (length l) - 1 = Z.of_nat (length (remotes l)).
Proof.
  intros Hl Hnd Hh. pose proof home_range as Hr.
  assert (Hp : l ≡ₚ home :: remotes l).
  { apply NoDup_Permutation; [done| |].
    - constructor; [rewrite elem_of_remotes by done; tauto|by apply remotes_NoDup].
    - intros x. rewrite elem_of_cons, elem_of_remotes by done.
      destruct (decide (x = home)) as [->|]; tauto. }
  apply Permutation_length in Hp. cbn in Hp. lia.
Qed.

Lemma in_range_add d l : 0 <= d < n -> in_range l -> in_range (add_unique d l).
Proof. unfold add_unique, in_range. intros ? ? p. case_decide; set_solver. Qed.

Lemma NoDup_add d l : NoDup l -> NoDup (add_unique d l).
Proof.
  unfold add_unique. intros. case_decide; [done|]. apply NoDup_app. split_and!; [done| |apply NoDup_singleton].
  set_solver.
Qed.

Lemma elem_of_add x d l : x ∈ add_unique d l <-> x = d \/ x ∈ l.
Proof. unfold add_unique. case_decide; set_solver. Qed.

(** ** The invariant *)

Definition clean (t : TM) : Prop := rc t = RCOK /\ aborted t = false.

Definition query_msg (s : Net) (m : Msg) : Prop :=
  match rtype m with
  | CL_QRY | RTXN => dest m = home
  | RTXN_CONT => dest m = home /\ home ∈ partitions_touched (tm s home)
  | RQRY_RSP => dest m = home /\ msg_rc m = RCOK /\ home ∈ partitions_touched (tm s home)
  | RQRY => dest m <> home /\ dest m ∈ partitions_touched (tm s home) /\ return_node_id m = home /\
            home ∈ partitions_touched (tm s home)
  | RQRY_CONT => dest m <> home /\ dest m ∈ partitions_touched (tm s home) /\
            return_id (tm s (dest m)) = home /\ home ∈ partitions_touched (tm s home)
  | _ => False
  end.

Definition prep_msg (sigma : Z -> pstat) (d : Z) : option Msg :=
  match sigma d with
  | Asked => Some (mkMsg RPREPARE d home RCOK ro)
  | Answered r => Some (mkMsg RACK_PREP home d r ro)
  | Counted _ => None
  end.
Definition fin_msg (r : RC) (sigma : Z -> pstat) (d : Z) : option Msg :=
  match sigma d with
  | Asked => Some (mkMsg RFIN d home r ro)
  | Answered _ => Some (mkMsg RACK_FIN home d RCOK ro)
  | Counted _ => None
  end.

(** A vote against that has been given. *)
Definition refused (p : pstat) : Prop := p = Answered Abort \/ p = Counted Abort.

(** The remote nodes the transaction has touched. *)
#[local] Abbreviation touched_remotes s := (remotes (partitions_touched (tm s home))).

(** One message is in flight, and belongs to the execution. *)
Record executing (s : Net) (m : Msg) : Prop := {
  ex_net : net s = [m];
  ex_home : clean (tm s home);
  ex_rsp : rsp_cnt (tm s home) = 0;
  ex_log d e : (d, att s, e) ∉ log s;
  ex_clean d : d <> home -> clean (tm s d);
  ex_query : query_msg s m;
}.
(** The remote node [d] reports that its part failed. *)
Record failing (s : Net) (m : Msg) (d : Z) : Prop := {
  fl_net : net s = [m];
  fl_type : rtype m = RQRY_RSP /\ dest m = home /\ msg_rc m = Abort;
  fl_home : clean (tm s home);
  fl_rsp : rsp_cnt (tm s home) = 0;
  fl_touched : home ∈ partitions_touched (tm s home);
  fl_remote : d ∈ partitions_touched (tm s home) /\ d <> home;
  fl_clean x : x <> home -> x <> d -> clean (tm s x);
  fl_log : nothing_installed (att s) (log s);
}.
(** Votes are outstanding. *)
Record preparing (s : Net) (sigma : Z -> pstat) : Prop := {
  pr_net : net s ≡ₚ omap (prep_msg sigma) (touched_remotes s);
  pr_ne : net s <> [];
  pr_rsp : rsp_cnt (tm s home) = Z.of_nat (length (net s));
  pr_aborted : aborted (tm s home) = false;
  pr_touched : home ∈ partitions_touched (tm s home);
  pr_vote d : match sigma d with Asked => True | Answered r | Counted r => r = RCOK \/ r = Abort end;
  pr_rc : rc (tm s home) = RCOK /\ (forall d, d ∈ touched_remotes s -> sigma d <> Counted Abort) \/
          rc (tm s home) = Abort /\ exists d, d ∈ touched_remotes s /\ sigma d = Counted Abort;
  pr_clean d : d <> home -> clean (tm s d) \/ d ∈ touched_remotes s /\ refused (sigma d);
  pr_inst : nothing_installed (att s) (log s);
  pr_undone : (forall d, d ∈ touched_remotes s -> ~ refused (sigma d)) -> nothing_undone (att s) (log s);
}.
(** The decision is to commit, or to abort, and acknowledgements are outstanding. *)
Record committing (s : Net) (sigma : Z -> pstat) : Prop := {
  co_net : net s ≡ₚ omap (fin_msg RCOK sigma) (touched_remotes s);
  co_ne : net s <> [];
  co_rsp : rsp_cnt (tm s home) = Z.of_nat (length (net s));
  co_rc : rc (tm s home) = RCOK;
  co_touched : home ∈ partitions_touched (tm s home);
  co_undone : nothing_undone (att s) (log s);
  co_home : (home, att s, EvRelease RCOK) ∈ log s;
  co_remote d : d ∈ touched_remotes s -> sigma d <> Asked -> (d, att s, EvRelease RCOK) ∈ log s;
  co_clean d : d <> home -> clean (tm s d);
}.
Record aborting (s : Net) (sigma : Z -> pstat) : Prop := {
  ab_net : net s ≡ₚ omap (fin_msg Abort sigma) (touched_remotes s);
  ab_ne : net s <> [];
  ab_rsp : rsp_cnt (tm s home) = Z.of_nat (length (net s));
  ab_rc : rc (tm s home) = Abort;
  ab_touched : home ∈ partitions_touched (tm s home);
  ab_inst : nothing_installed (att s) (log s);
  ab_clean d : d <> home -> clean (tm s d) \/ d ∈ touched_remotes s /\ sigma d = Asked;
}.

Inductive phase (s : Net) : Prop :=
| Ph_exec m : executing s m -> phase s
| Ph_refused m d : failing s m d -> phase s
| Ph_prepare sigma : preparing s sigma -> phase s
| Ph_commit sigma : committing s sigma -> phase s
| Ph_abort sigma : aborting s sigma -> phase s.

(** An answer to the client says that every partition touched is installed. *)
Definition answers_true (l : list (Z * Z * event)) : Prop :=
  forall d j parts, (d, j, EvAnswer parts) ∈ l -> forall p, p ∈ parts -> (p, j, EvRelease RCOK) ∈ l.
Definition agreed (j : Z) (l : list (Z * Z * event)) : Prop := nothing_installed j l \/ nothing_undone j l.

Record base (s : Net) : Prop := {
  b_range : in_range (partitions_touched (tm s home));
  b_nodup : NoDup (partitions_touched (tm s home));
  b_past : forall d j e, (d, j, e) ∈ log s -> j <= att s;
  b_agreed : forall j, j <> att s -> agreed j (log s);
  b_answers : answers_true (log s);
}.

Definition finished (s : Net) : Prop :=
  net s = [] /\ answered txn_id n (log s) /\ (forall j, agreed j (log s)) /\ answers_true (log s).

Definition inv (s : Net) : Prop := base s /\ phase s \/ finished s.

(** ** The log *)

Lemma elem_of_tagged (d k : Z) (ev : list event) (d' j : Z) (e : event) :
  (d', j, e) ∈ map (fun e => (d, k, e)) ev <-> d' = d /\ j = k /\ e ∈ ev.
Proof.
  rewrite list_elem_of_In, in_map_iff. setoid_rewrite <- list_elem_of_In. split.
  - intros (x & [= <- <- <-] & Hx). done.
  - intros (-> & -> & Hx). by exists e.
Qed.

Lemma nothing_installed_app k l d ev :
  nothing_installed k l ->
  (forall e, e ∈ ev -> match e with EvRelease RCOK | EvAnswer _ => False | _ => True end) ->
  nothing_installed k (l ++ map (fun e => (d, k, e)) ev).
Proof.
  intros Hl He d' e. rewrite elem_of_app, elem_of_tagged. intros [H|(-> & _ & H)]; [by eapply Hl|by apply He].
Qed.

Lemma nothing_undone_app k l d ev :
  nothing_undone k l ->
  (forall e, e ∈ ev -> match e with EvFail | EvRestart => False | EvVote r | EvRelease r => r = RCOK | EvAnswer _ => True end) ->
  nothing_undone k (l ++ map (fun e => (d, k, e)) ev).
Proof.
  intros Hl He d' e. rewrite elem_of_app, elem_of_tagged. intros [H|(-> & _ & H)]; [by eapply Hl|by apply He].
Qed.

Lemma no_events_installed k l : (forall d e, (d, k, e) ∉ l) -> nothing_installed k l.
Proof. intros H d e He. by apply H in He. Qed.
Lemma no_events_undone k l : (forall d e, (d, k, e) ∉ l) -> nothing_undone k l.
Proof. intros H d e He. by apply H in He. Qed.

Lemma agreed_app j l d k ev : j <> k -> agreed j l -> agreed j (l ++ map (fun e => (d, k, e)) ev).
Proof.
  intros Hj [H|H]; [left|right]; intros d' e; rewrite elem_of_app, elem_of_tagged;
    (intros [He|(_ & -> & _)]; [by eapply H|done]).
Qed.

Lemma answers_app l d k ev :
  answers_true l -> (forall parts, EvAnswer parts ∉ ev) -> answers_true (l ++ map (fun e => (d, k, e)) ev).
Proof.
  intros H Hev d' j parts. rewrite elem_of_app, elem_of_tagged. intros [He|(_ & _ & He)]; [|by apply Hev in He].
  intros p Hp. apply elem_of_app. left. by eapply H.
Qed.

(** ** What the handlers do in the states the invariant allows *)

#[local] Abbreviation finish_msgs r pt :=
  (map (fun p => mkMsg RFIN (get_part_node_id n p) home r ro) (remotes pt)).
#[local] Abbreviation prepare_msgs pt :=
  (map (fun p => mkMsg RPREPARE (get_part_node_id n p) home RCOK ro) (remotes pt)).
#[local] Abbreviation others pt := (Z.of_nat (length pt) - 1).

(** A part of the transaction that is undone leaves only these events. *)
Definition undoing (ev : list event) : Prop :=
  forall e, e ∈ ev -> e = EvFail \/ e = EvRelease Abort \/ e = EvRestart.

Inductive home_outcome (ri k : Z) (pt : list Z) : TM -> list Msg -> list event -> Prop :=
| HO_remote d : d <> home -> 0 <= d < n ->
    home_outcome ri k pt (mkTM RCOK 0 false ri k (add_unique d pt)) [mkMsg RQRY d home RCOK ro] []
| HO_wait :
    home_outcome ri k pt (mkTM RCOK 0 false ri k pt) [mkMsg RTXN_CONT home home RCOK ro] []
| HO_abort ev : (1 < length pt)%nat -> undoing ev ->
    home_outcome ri k pt (mkTM Abort (others pt) true ri k pt) (finish_msgs Abort pt) ev
| HO_prepare : (1 < length pt)%nat ->
    home_outcome ri k pt (mkTM RCOK (others pt) false ri k pt) (prepare_msgs pt) []
| HO_answer : (length pt <= 1)%nat ->
    home_outcome ri k pt fresh_TM [] [EvRelease RCOK; EvAnswer pt]
| HO_restart ev : (length pt <= 1)%nat -> undoing ev ->
    home_outcome ri k pt (mkTM RCOK 0 false UINT64_MAX (k + 1) pt) [mkMsg RTXN home home RCOK ro] ev.

Ltac unfold_handlers :=
  unfold process, process_rtxn, process_rtxn_cont, process_rqry, process_rqry_cont, process_rqry_rsp,
    process_rprepare, process_rack_prep, process_rfin, process_rack_rfin, run_txn, check_if_done,
    start_commit, start_abort, abort, commit, respond, wt_commit, wt_abort, received_response,
    send_prepare_messages, send_finish_messages, send_to_parts, enqueue, get, modify, send, emit, assert,
    mbind, M_bind, mret, M_ret, is_multi_part, create_message, GET_PART_ID in *.

(** Evaluate a handler: the branches are decided by the facts about the node. *)
Ltac crunch H :=
  repeat first
    [ progress (cbn -[Nat.ltb Z.of_nat Z.sub Z.ltb Z.leb] in H)
    | rewrite local_home in H
    | rewrite local_ne in H by done
    | rewrite app_nil_r in H
    | rewrite Hro in H
    | rewrite decide_True in H by (first [done | tauto | congruence])
    | rewrite decide_False in H by (first [done | tauto | congruence | (intros ?; naive_solver congruence)])
    | rewrite bool_decide_eq_true_2 in H by (first [done | tauto | lia])
    | rewrite bool_decide_eq_false_2 in H by (first [done | tauto | lia])
    | rewrite (proj2 (Nat.ltb_lt _ _)) in H by lia
    | rewrite (proj2 (Nat.ltb_ge _ _)) in H by lia
    | match type of H with context [?u <? ?v] =>
        first [rewrite (proj2 (Z.ltb_lt u v)) in H by (cbn; lia) | rewrite (proj2 (Z.ltb_ge u v)) in H by (cbn; lia)]
      end
    | rewrite (proj2 (Z.leb_le _ _)) in H by (cbn in *; lia) ].

Lemma home_run {A} first ch (f : RC -> A) ri k pt0 x t out ev :
  admissible txn_id n home ch ->
  (r ← run_txn alg txn_id n ro true home first ch; mbind (fun _ => mret (f r)) (check_if_done txn_id n ro home r))
    (mkTM RCOK 0 false ri k pt0) = Ok (x, t, out, ev) ->
  home_outcome ri k (if first then add_unique home pt0 else pt0) t out ev.
Proof.
  intros [Hv He] Hr.
  assert (Hu : undoing [EvFail; EvRelease Abort]) by (intros e; set_solver).
  assert (Hu1 : undoing [EvFail; EvRelease Abort; EvRestart]) by (intros e; set_solver).
  assert (Hu2 : undoing [EvRelease Abort; EvRestart]) by (intros e; set_solver).
  set (pt := if first then _ else _).
  assert (Hl : (1 < length pt)%nat \/ (length pt <= 1)%nat) by lia.
  unfold_handlers. rewrite local_home in Hr.
  destruct first; subst pt; (destruct (exec ch) as [d| | |]; [| |destruct Hl as [Hl|Hl]|destruct Hl as [Hl|Hl]; [|destruct Hv as [Hv|Hv]; rewrite Hv in Hr]]);
    crunch Hr; injection Hr as <- <- <- <-; constructor; first [done|lia|tauto].
Qed.

Inductive remote_outcome (g : Z) : TM -> list Msg -> list event -> Prop :=
| RO_wait t : clean t -> return_id t = home ->
    remote_outcome g t [mkMsg RQRY_CONT g g RCOK ro] []
| RO_done t : clean t -> remote_outcome g t [mkMsg RQRY_RSP home g RCOK ro] []
| RO_abort t : remote_outcome g t [mkMsg RQRY_RSP home g Abort ro] [EvFail; EvRelease Abort].

Lemma remote_run g m ch t x t' out ev :
  g <> home -> admissible txn_id n g ch -> clean t ->
  (rtype m = RQRY /\ return_node_id m = home \/ rtype m = RQRY_CONT /\ return_id t = home) ->
  proc g m ch t = Ok (x, t', out, ev) -> remote_outcome g t' out ev.
Proof.
  intros Hg [_ He] [Hrc Hab] Hm Hr. destruct t as [r c a ri k pt]. cbn in Hrc, Hab. subst r a.
  destruct (exec ch) eqn:Hex; [naive_solver|..];
    (destruct Hm as [[Hm Hret]|[Hm Hret]]; cbn in Hret; unfold_handlers; rewrite Hm, ?Hex in Hr;
     crunch Hr; rewrite ?Hret in Hr; injection Hr as <- <- <- <-; constructor; done).
Qed.

Lemma rprepare_run g m ch t x t' out ev :
  g <> home -> admissible txn_id n g ch -> clean t -> rtype m = RPREPARE -> return_node_id m = home ->
  proc g m ch t = Ok (x, t', out, ev) ->
  exists r, (r = RCOK \/ r = Abort) /\ out = [mkMsg RACK_PREP home g r ro] /\ (clean t' \/ r = Abort) /\
    ev = EvVote r :: (if decide (r = Abort) then [EvRelease Abort] else []).
Proof.
  intros Hg [Hv _] [Hrc Hab] Hm Hret Hr. destruct t as [r c a ri k pt]. cbn in Hrc, Hab. subst r a.
  exists (validate ch). split; [done|]. unfold_handlers. rewrite Hm in Hr.
  destruct Hv as [Hv|Hv]; rewrite Hv in Hr |- *; crunch Hr; rewrite Hret in Hr; injection Hr as <- <- <- <-.
  - split_and!; [done|by left|done].
  - split_and!; [done|by right|done].
Qed.

Lemma rfin_commit_run g m ch t x t' out ev :
  clean t -> rtype m = RFIN -> msg_rc m = RCOK -> readonly m = ro ->
  proc g m ch t = Ok (x, t', out, ev) ->
  clean t' /\ out = [mkMsg RACK_FIN home g RCOK ro] /\ ev = [EvRelease RCOK].
Proof.
  intros [Hrc Hab] Hm Hc Hro' Hr. destruct t as [r c a ri k pt]. cbn in Hrc, Hab. subst r a.
  assert (Hack : negb ro || acks_readonly alg = true).
  { destruct ro; cbn in *; [by destruct alg|done]. }
  unfold_handlers. rewrite Hm, Hc, Hro', Hack in Hr. crunch Hr. by injection Hr as <- <- <- <-.
Qed.

Lemma rfin_abort_run g m ch t x t' out ev :
  rtype m = RFIN -> msg_rc m = Abort ->
  proc g m ch t = Ok (x, t', out, ev) ->
  clean t' /\ out = [mkMsg RACK_FIN home g RCOK ro] /\ undoing ev.
Proof.
  intros Hm Hc Hr. destruct t as [r c a ri k pt].
  unfold_handlers. rewrite Hm, Hc in Hr. destruct a; crunch Hr; injection Hr as <- <- <- <-;
    (split_and!; [done|done|]; intros e; set_solver).
Qed.

(** A vote comes in at the home node: more are missing, or this is the last one
    and the home node decides. *)
Lemma rack_prep_run m ch r c a ri k pt x t' out ev :
  admissible txn_id n home ch -> (r = RCOK \/ r = Abort) -> (msg_rc m = RCOK \/ msg_rc m = Abort) ->
  a = false -> 0 < c -> (1 < length pt)%nat -> rtype m = RACK_PREP ->
  proc home m ch (mkTM r c a ri k pt) = Ok (x, t', out, ev) ->
  let r' := if decide (r = RCOK) then msg_rc m else r in
  (1 < c /\ t' = mkTM r' (c - 1) false ri k pt /\ out = [] /\ ev = []) \/
  (c = 1 /\ out = finish_msgs RCOK pt /\ r' = RCOK /\ ev = [EvRelease RCOK] /\
     t' = mkTM RCOK (others pt) false ri k pt) \/
  (c = 1 /\ out = finish_msgs Abort pt /\ undoing ev /\ t' = mkTM Abort (others pt) true ri k pt).
Proof.
  intros [Hv _] Hrr Hmr -> Hc Hl Hm Hr r'.
  assert (Hu : undoing [EvRelease Abort]) by (intros e; set_solver).
  assert (Hcc : c = 1 \/ 1 < c) by lia.
  unfold_handlers. rewrite Hm in Hr. subst r'.
  destruct Hrr as [-> | ->], Hmr as [Hmr|Hmr]; rewrite Hmr in Hr |- *;
  (destruct Hcc as [-> |Hc2]; [|left; crunch Hr; by injection Hr as <- <- <- <-]); right.
  - destruct Hv as [Hv|Hv]; rewrite Hv in Hr; crunch Hr; injection Hr as <- <- <- <-; [left|right]; done.
  - right. crunch Hr. by injection Hr as <- <- <- <-.
  - right. crunch Hr. by injection Hr as <- <- <- <-.
  - right. crunch Hr. by injection Hr as <- <- <- <-.
Qed.

Lemma rack_fin_run m ch r c a ri k pt x t' out ev :
  (r = RCOK \/ r = Abort) -> msg_rc m = RCOK -> 0 < c -> rtype m = RACK_FIN ->
  proc home m ch (mkTM r c a ri k pt) = Ok (x, t', out, ev) ->
  (1 < c /\ t' = mkTM r (c - 1) a ri k pt /\ out = [] /\ ev = []) \/
  (c = 1 /\ r = RCOK /\ t' = fresh_TM /\ out = [] /\ ev = [EvAnswer pt]) \/
  (c = 1 /\ r = Abort /\ t' = mkTM RCOK 0 false UINT64_MAX (k + 1) pt /\
     out = [mkMsg RTXN home home RCOK ro] /\ ev = [EvRestart]).
Proof.
  intros Hrr Hmr Hc Hm Hr. assert (Hcc : c = 1 \/ 1 < c) by lia.
  unfold_handlers. rewrite Hm, Hmr in Hr.
  destruct Hcc as [-> |Hc2], Hrr as [-> | ->]; crunch Hr; injection Hr as <- <- <- <-; auto 10.
Qed.

(** ** Preservation *)

Definition next (s : Net) (g : Z) (t : TM) (l : list Msg) (ev : list event) : Net :=
  mkNet (fset g t (tm s)) l (log s ++ map (fun e => (g, att s, e)) ev).

Lemma tm_next s g t l ev : tm (next s g t l ev) g = t.
Proof. apply fset_eq. Qed.
Lemma tm_next_ne s g t l ev d : d <> g -> tm (next s g t l ev) d = tm s d.
Proof. apply fset_ne. Qed.
Lemma att_next_ne s g t l ev : g <> home -> att (next s g t l ev) = att s.
Proof. intros. unfold attempt. rewrite tm_next_ne; auto. Qed.
Lemma att_next s t l ev : att (next s home t l ev) = abort_cnt t.
Proof. unfold attempt. by rewrite tm_next. Qed.

Lemma log_next_past s g t l ev j d e :
  (forall d j e, (d, j, e) ∈ log s -> j <= att s) -> (d, j, e) ∈ log (next s g t l ev) -> j <= att s.
Proof. intros H. cbn. rewrite elem_of_app, elem_of_tagged. intros [He|(_ & -> & _)]; [by eapply H|lia]. Qed.

Lemma base_next s g t l ev :
  base s -> in_range (partitions_touched (tm (next s g t l ev) home)) ->
  NoDup (partitions_touched (tm (next s g t l ev) home)) ->
  (att (next s g t l ev) = att s \/
   att (next s g t l ev) = att s + 1 /\ nothing_installed (att s) (log (next s g t l ev))) ->
  (forall parts, EvAnswer parts ∉ ev) -> base (next s g t l ev).
Proof.
  intros [_ _ Hp Ha Hans] Hr Hnd Hatt Hev. split; [done|done| | |by apply answers_app].
  - intros d j e He. apply log_next_past in He; [lia|done].
  - intros j Hj. destruct (decide (j = att s)) as [->|Hne].
    + destruct Hatt as [Hatt|[_ Hni]]; [by rewrite Hatt in Hj|by left].
    + apply agreed_app; auto.
Qed.

(** The node [g] is not the home node. *)
Lemma base_remote s g t l ev :
  base s -> g <> home -> (forall parts, EvAnswer parts ∉ ev) -> base (next s g t l ev).
Proof.
  intros Hb Hg Hev. apply base_next; [done|..|done]; rewrite ?tm_next_ne, ?att_next_ne by auto;
    [apply Hb|apply Hb|by left].
Qed.

Lemma base_home s t l ev :
  base s -> in_range (partitions_touched t) -> NoDup (partitions_touched t) ->
  abort_cnt t = att s -> (forall parts, EvAnswer parts ∉ ev) -> base (next s home t l ev).
Proof. intros. apply base_next; rewrite ?tm_next, ?att_next; auto. Qed.

Lemma undoing_no_answer ev parts : undoing ev -> EvAnswer parts ∉ ev.
Proof. intros H He. by apply H in He as [?|[?|?]]. Qed.

Lemma undoing_installed k l d ev :
  nothing_installed k l -> undoing ev -> nothing_installed k (l ++ map (fun e => (d, k, e)) ev).
Proof. intros Hl Hu. apply nothing_installed_app; [done|]. intros e He. by apply Hu in He as [->|[->| ->]]. Qed.

(** The transaction starts again. *)
Lemma restart_inv s ri pt ev :
  base s -> in_range pt -> NoDup pt -> nothing_installed (att s) (log s) -> undoing ev ->
  (forall d, d <> home -> clean (tm s d)) ->
  inv (next s home (mkTM RCOK 0 false ri (att s + 1) pt) [mkMsg RTXN home home RCOK ro] ev).
Proof.
  intros Hb Hr Hnd Hni Hu Hcl. left. split.
  - apply base_next; rewrite ?tm_next, ?att_next; [done..| |].
    + right. split; [done|]. by apply undoing_installed.
    + intros parts. by apply undoing_no_answer.
  - eapply Ph_exec; split; [done|by rewrite tm_next|by rewrite tm_next| | |done].
    + rewrite att_next. cbn. intros d e He. apply (log_next_past s home fresh_TM [] ev) in He; [lia|apply Hb].
    + intros d Hd. rewrite tm_next_ne by done. auto.
Qed.

(** The client has its answer. *)
Lemma answer_inv s t ev pt :
  base s -> nothing_undone (att s) (log s) -> (ev = [EvAnswer pt] \/ ev = [EvRelease RCOK; EvAnswer pt]) ->
  (forall p, p ∈ pt -> (p, att s, EvRelease RCOK) ∈ log s ++ map (fun e => (home, att s, e)) ev) ->
  inv (next s home t [] ev).
Proof.
  intros Hb Hnu Hev Hpt. right. split_and!; [done| | |].
  - exists (att s), pt. cbn. apply elem_of_app. right. apply elem_of_tagged. split_and!; [done..|].
    destruct Hev as [-> | ->]; set_solver.
  - intros j. destruct (decide (j = att s)) as [->|Hj]; [|by apply agreed_app; [|apply Hb]].
    right. apply nothing_undone_app; [done|]. intros e. destruct Hev as [-> | ->]; set_solver.
  - intros d j parts. cbn. rewrite elem_of_app, elem_of_tagged. intros [He|(-> & -> & He)] p Hp.
    + apply elem_of_app. left. eapply (b_answers s); eauto.
    + assert (parts = pt) as -> by (destruct Hev as [-> | ->]; set_solver). auto.
Qed.

(** The home node sends the decision. *)
Lemma remotes_nonempty pt : in_range pt -> NoDup pt -> home ∈ pt -> (1 < length pt)%nat -> remotes pt <> [].
Proof. intros H1 H2 H3 Hl Hnil. pose proof (remotes_length pt H1 H2 H3) as He. rewrite Hnil in He. cbn in He. lia. Qed.

Lemma finish_msgs_eq r pt : in_range pt -> finish_msgs r pt = omap (fin_msg r (fun _ => Asked)) (remotes pt).
Proof.
  intros H. rewrite (remotes_map (fun p => mkMsg RFIN p home r ro)) by done.
  symmetry. by apply omap_all.
Qed.
Lemma prepare_msgs_eq pt : in_range pt -> prepare_msgs pt = omap (prep_msg (fun _ => Asked)) (remotes pt).
Proof.
  intros H. rewrite (remotes_map (fun p => mkMsg RPREPARE p home RCOK ro)) by done.
  symmetry. by apply omap_all.
Qed.

Lemma map_nonempty {A B} (f : A -> B) l : l <> [] -> map f l <> [].
Proof. by destruct l. Qed.

Lemma abort_inv s ri pt ev :
  base s -> in_range pt -> NoDup pt -> home ∈ pt -> (1 < length pt)%nat ->
  nothing_installed (att s) (log s) -> undoing ev ->
  (forall d, d <> home -> clean (tm s d) \/ d ∈ pt) ->
  inv (next s home (mkTM Abort (others pt) true ri (att s) pt) (finish_msgs Abort pt) ev).
Proof.
  intros Hb Hr Hnd Hh Hl Hni Hu Hcl. left. split.
  { apply base_home; [done..|]. intros. by apply undoing_no_answer. }
  apply (Ph_abort _ (fun _ => Asked)); split; rewrite ?tm_next, ?att_next; cbn [net next partitions_touched rsp_cnt abort_cnt log]; try done.
  - by rewrite finish_msgs_eq.
  - by apply map_nonempty, remotes_nonempty.
  - rewrite length_map. by apply remotes_length.
  - by apply undoing_installed.
  - intros d Hd. rewrite tm_next_ne by done. rewrite elem_of_remotes by done.
    destruct (Hcl d Hd); [by left|by right].
Qed.

Lemma commit_inv s ri pt :
  base s -> in_range pt -> NoDup pt -> home ∈ pt -> (1 < length pt)%nat ->
  nothing_undone (att s) (log s) -> (forall d, d <> home -> clean (tm s d)) ->
  inv (next s home (mkTM RCOK (others pt) false ri (att s) pt) (finish_msgs RCOK pt) [EvRelease RCOK]).
Proof.
  intros Hb Hr Hnd Hh Hl Hnu Hcl. left. split.
  { apply base_home; [done..|]. intros parts. set_solver. }
  apply (Ph_commit _ (fun _ => Asked)); split; rewrite ?tm_next, ?att_next; cbn [net next partitions_touched rsp_cnt abort_cnt log]; try done.
  - by rewrite finish_msgs_eq.
  - by apply map_nonempty, remotes_nonempty.
  - rewrite length_map. by apply remotes_length.
  - apply nothing_undone_app; [done|]. intros e ->%list_elem_of_singleton. done.
  - apply elem_of_app. right. apply elem_of_tagged. split_and!; [done..|set_solver].
  - intros d Hd. rewrite tm_next_ne by done. auto.
Qed.

Lemma prepare_inv s ri pt :
  base s -> in_range pt -> NoDup pt -> home ∈ pt -> (1 < length pt)%nat ->
  (forall d e, (d, att s, e) ∉ log s) -> (forall d, d <> home -> clean (tm s d)) ->
  inv (next s home (mkTM RCOK (others pt) false ri (att s) pt) (prepare_msgs pt) []).
Proof.
  intros Hb Hr Hnd Hh Hl Hlog Hcl. left. split.
  { apply base_home; [done..|]. intros parts. set_solver. }
  apply (Ph_prepare _ (fun _ => Asked)); split; rewrite ?tm_next, ?att_next;
    cbn [net next partitions_touched rsp_cnt abort_cnt log map]; rewrite ?app_nil_r; try done.
  - by rewrite prepare_msgs_eq.
  - by apply map_nonempty, remotes_nonempty.
  - rewrite length_map. by apply remotes_length.
  - by left.
  - intros d Hd. rewrite tm_next_ne by done. auto.
  - by apply no_events_installed.
  - intros _. by apply no_events_undone.
Qed.

(** The home node runs the stored procedure. *)
Lemma exec_home_inv s ri pt t out ev :
  base s -> in_range pt -> NoDup pt -> home ∈ pt ->
  (forall d e, (d, att s, e) ∉ log s) -> (forall d, d <> home -> clean (tm s d)) ->
  home_outcome ri (att s) pt t out ev -> inv (next s home t out ev).
Proof.
  intros Hb Hr Hnd Hh Hlog Hcl Ho.
  assert (Hni : nothing_installed (att s) (log s)) by by apply no_events_installed.
  assert (Hne : forall parts : list Z, EvAnswer parts ∉ @nil event) by (intros; set_solver).
  inversion Ho as [d Hd Hdr| |ev' Hl Hu|Hl|Hl|ev' Hl Hu]; subst.
  - left. split; [apply base_home; [done|by apply in_range_add|by apply NoDup_add|done|done]|].
    eapply Ph_exec; split; [done|by rewrite tm_next|by rewrite tm_next| | |].
    + rewrite att_next. cbn. rewrite app_nil_r. done.
    + intros x Hx. rewrite tm_next_ne by done. auto.
    + unfold query_msg; cbn [rtype dest return_node_id msg_rc]; rewrite tm_next. cbn. rewrite !elem_of_add. auto.
  - left. split; [by apply base_home|].
    eapply Ph_exec; split; [done|by rewrite tm_next|by rewrite tm_next| | |].
    + rewrite att_next. cbn. rewrite app_nil_r. done.
    + intros x Hx. rewrite tm_next_ne by done. auto.
    + unfold query_msg; cbn [rtype dest return_node_id msg_rc]; rewrite tm_next. done.
  - apply abort_inv; auto.
  - by apply prepare_inv.
  - eapply answer_inv; [done|by apply no_events_undone|by right|].
    intros p Hp. apply elem_of_app. right. apply elem_of_tagged. split_and!; [|done|set_solver].
    destruct pt as [|a [|b pt]]; cbn in Hl; [set_solver| |lia].
    apply list_elem_of_singleton in Hh, Hp. congruence.
  - by apply restart_inv.
Qed.

(** A remote node runs its part. *)
Lemma exec_remote_inv s g t out ev :
  base s -> clean (tm s home) -> rsp_cnt (tm s home) = 0 -> g <> home ->
  g ∈ partitions_touched (tm s home) -> home ∈ partitions_touched (tm s home) ->
  (forall d e, (d, att s, e) ∉ log s) -> (forall d, d <> home -> clean (tm s d)) ->
  remote_outcome g t out ev -> inv (next s g t out ev).
Proof.
  intros Hb Hch Hrsp Hg Hgt Hh Hlog Hcl Ho. left.
  assert (Hothers : forall t' l ev', clean t' -> forall d, d <> home -> clean (tm (next s g t' l ev') d)).
  { intros t' l ev' Ht d Hd. destruct (decide (d = g)) as [->|Hne]; [by rewrite tm_next|rewrite tm_next_ne; auto]. }
  inversion Ho as [t' Hc Hri|t' Hc|t']; subst;
    (split; [apply base_remote; [done|done|intros parts; set_solver]|]).
  - eapply Ph_exec; split; [done|by rewrite tm_next_ne by auto|by rewrite tm_next_ne by auto| |auto|].
    + rewrite att_next_ne by done. cbn. by rewrite app_nil_r.
    + unfold query_msg; cbn [rtype dest return_node_id msg_rc]; rewrite tm_next, tm_next_ne by auto. done.
  - eapply Ph_exec; split; [done|by rewrite tm_next_ne by auto|by rewrite tm_next_ne by auto| |auto|].
    + rewrite att_next_ne by done. cbn. by rewrite app_nil_r.
    + unfold query_msg; cbn [rtype dest return_node_id msg_rc]; rewrite tm_next_ne by auto. done.
  - eapply (Ph_refused _ _ g); split; [done|done|by rewrite tm_next_ne by auto|by rewrite tm_next_ne by auto|by rewrite tm_next_ne by auto|by rewrite tm_next_ne by auto| |].
    + intros x Hx Hxg. rewrite tm_next_ne by done. auto.
    + rewrite att_next_ne by done. apply nothing_installed_app; [by apply no_events_installed|].
      intros e. set_solver.
Qed.

(** One of the outstanding messages is delivered: whose it was, and what is
    outstanding afterwards. *)
Lemma pending_step (f : (Z -> pstat) -> Z -> option Msg) sigma l nt m rest :
  (forall sigma' d x, x <> d -> sigma' x = sigma x -> f sigma' x = f sigma x) ->
  NoDup l -> nt ≡ₚ omap (f sigma) l -> nt ≡ₚ m :: rest ->
  exists d, d ∈ l /\ f sigma d = Some m /\
    forall v, omap (f (fset d v sigma)) l ≡ₚ option_list (f (fset d v sigma) d) ++ rest.
Proof.
  intros Hf Hnd Hnet Hm. rewrite Hnet in Hm.
  destruct (omap_pending _ _ _ _ Hnd Hm) as (d & Hd & Hfd & H). exists d. split_and!; [done..|].
  intros v. apply H. intros x Hx. eapply Hf; [done|by rewrite fset_ne].
Qed.

Lemma prep_msg_ext sigma' sigma x : sigma' x = sigma x -> prep_msg sigma' x = prep_msg sigma x.
Proof. unfold prep_msg. by intros ->. Qed.
Lemma fin_msg_ext r sigma' sigma x : sigma' x = sigma x -> fin_msg r sigma' x = fin_msg r sigma x.
Proof. unfold fin_msg. by intros ->. Qed.

Lemma snoc_length {A} (nt rest : list A) (m x : A) :
  nt ≡ₚ m :: rest -> length (rest ++ [x]) = length nt.
Proof. intros ->. rewrite length_app. cbn. lia. Qed.

Lemma rest_length (nt : list Msg) m rest : nt ≡ₚ m :: rest -> Z.of_nat (length nt) - 1 = Z.of_nat (length rest).
Proof. intros H%Permutation_length. cbn in H. lia. Qed.

Lemma remote_not_home s d : base s -> d ∈ touched_remotes s -> d ∈ partitions_touched (tm s home) /\ d <> home.
Proof. intros Hb. apply elem_of_remotes, Hb. Qed.

Lemma refused_run m ch c ri k pt x t out ev :
  rtype m = RQRY_RSP -> msg_rc m = Abort -> (1 < length pt)%nat ->
  proc home m ch (mkTM RCOK c false ri k pt) = Ok (x, t, out, ev) ->
  t = mkTM Abort (others pt) true ri k pt /\ out = finish_msgs Abort pt /\ undoing ev.
Proof.
  intros Hm Hrc Hl Hr. unfold_handlers. rewrite Hm, Hrc in Hr. crunch Hr.
  injection Hr as <- <- <- <-. split_and!; [done..|]. intros e. set_solver.
Qed.

Lemma two_touched s d :
  home ∈ partitions_touched (tm s home) -> d ∈ partitions_touched (tm s home) -> d <> home ->
  (1 < length (partitions_touched (tm s home)))%nat.
Proof.
  generalize (partitions_touched (tm s home)) as l. intros [|a [|b l]]; cbn; [set_solver|set_solver|lia].
Qed.

Lemma TM_eta t : t = mkTM (rc t) (rsp_cnt t) (aborted t) (return_id t) (abort_cnt t) (partitions_touched t).
Proof. by destruct t. Qed.

Lemma clean_eta t : clean t -> rsp_cnt t = 0 -> t = mkTM RCOK 0 false (return_id t) (abort_cnt t) (partitions_touched t).
Proof. intros [Hr Ha] Hc. rewrite (TM_eta t) at 1. congruence. Qed.

(** *** Preparing *)

(** A participant votes. *)
Lemma vote_inv s sigma d r t rest :
  base s -> preparing s sigma -> d ∈ touched_remotes s -> sigma d = Asked ->
  net s ≡ₚ mkMsg RPREPARE d home RCOK ro :: rest ->
  omap (prep_msg (fset d (Answered r) sigma)) (touched_remotes s) ≡ₚ mkMsg RACK_PREP home d r ro :: rest ->
  (r = RCOK \/ r = Abort) -> (clean t \/ r = Abort) ->
  inv (next s d t (rest ++ [mkMsg RACK_PREP home d r ro])
         (EvVote r :: (if decide (r = Abort) then [EvRelease Abort] else []))).
Proof.
  intros Hb [_ _ Hrsp Hab Hh Hsig Hrc Hcl Hni Hnu] HdR Hd Hnet Hp Hr Ht.
  destruct (remote_not_home _ _ Hb HdR) as [_ Hdh].
  assert (Hne : forall x, x <> d -> fset d (Answered r) sigma x = sigma x) by (intros; by apply fset_ne).
  assert (Heq : fset d (Answered r) sigma d = Answered r) by apply fset_eq.
  left. split.
  { apply base_remote; [done..|]. intros parts. case_decide; set_solver. }
  apply (Ph_prepare _ (fset d (Answered r) sigma)); split; rewrite ?tm_next_ne, ?att_next_ne by auto;
    cbn [net next log]; try done.
  - rewrite Hp. symmetry. apply Permutation_cons_append.
  - by destruct rest.
  - by rewrite (snoc_length _ _ _ _ Hnet).
  - intros x. destruct (decide (x = d)) as [->|Hx]; [by rewrite Heq|rewrite Hne by done; apply Hsig].
  - destruct Hrc as [[Hrc Hc]|[Hrc (x & Hx & Hxc)]]; [left|right]; (split; [done|]).
    + intros x Hx. destruct (decide (x = d)) as [->|Hxd]; [by rewrite Heq|rewrite Hne by done; auto].
    + exists x. split; [done|]. rewrite Hne; [done|]. congruence.
  - intros x Hx. destruct (decide (x = d)) as [->|Hxd].
    + rewrite tm_next, Heq. destruct Ht as [Ht| ->]; [by left|right; split; [done|by left]].
    + rewrite tm_next_ne, Hne by done. auto.
  - apply nothing_installed_app; [done|]. intros e. case_decide; set_solver.
  - intros Href. destruct Hr as [-> | ->]; [|exfalso; apply (Href d HdR); rewrite Heq; by left].
    apply nothing_undone_app.
    + apply Hnu. intros x Hx Hrf. destruct (decide (x = d)) as [->|Hxd]; [destruct Hrf; congruence|].
      apply (Href x Hx). unfold refused. by rewrite Hne.
    + rewrite decide_False by done. intros e ->%list_elem_of_singleton. done.
Qed.

(** A vote is counted, and more are missing. *)
Lemma count_vote_inv s sigma d r rest m :
  base s -> preparing s sigma -> d ∈ touched_remotes s -> sigma d = Answered r ->
  net s ≡ₚ m :: rest -> rest <> [] ->
  omap (prep_msg (fset d (Counted r) sigma)) (touched_remotes s) ≡ₚ rest ->
  inv (next s home (mkTM (if decide (rc (tm s home) = RCOK) then r else rc (tm s home)) (rsp_cnt (tm s home) - 1)
         false (return_id (tm s home)) (att s) (partitions_touched (tm s home))) rest []).
Proof.
  intros Hb [_ _ Hrsp Hab Hh Hsig Hrc Hcl Hni Hnu] HdR Hd Hnet Hrest Hp.
  assert (Hne : forall x, x <> d -> fset d (Counted r) sigma x = sigma x) by (intros; by apply fset_ne).
  assert (Heq : fset d (Counted r) sigma d = Counted r) by apply fset_eq.
  assert (Hr : r = RCOK \/ r = Abort) by (specialize (Hsig d); by rewrite Hd in Hsig).
  assert (Hold : forall x, refused (sigma x) -> refused (fset d (Counted r) sigma x)).
  { intros x Hx. destruct (decide (x = d)) as [->|Hxd]; [|by rewrite Hne].
    rewrite Heq. rewrite Hd in Hx. destruct Hx as [[= Hx]|?]; [right; congruence|done]. }
  left. split.
  { apply base_home; [done|apply Hb|apply Hb|done|intros; set_solver]. }
  apply (Ph_prepare _ (fset d (Counted r) sigma)); split; rewrite ?tm_next, ?att_next;
    cbn [net next log rc rsp_cnt aborted abort_cnt partitions_touched map]; rewrite ?app_nil_r; try done.
  - by rewrite Hrsp, (rest_length _ _ _ Hnet).
  - intros x. destruct (decide (x = d)) as [->|Hx]; [by rewrite Heq|rewrite Hne by done; apply Hsig].
  - destruct Hrc as [[-> Hc]|[-> (x & Hx & Hxc)]].
    + rewrite decide_True by done. destruct Hr as [-> | ->]; [left|right]; (split; [done|]).
      * intros x Hx. destruct (decide (x = d)) as [->|Hxd]; [by rewrite Heq|rewrite Hne by done; auto].
      * exists d. by rewrite Heq.
    + rewrite decide_False by done. right. split; [done|]. exists x. split; [done|]. rewrite Hne; [done|]. congruence.
  - intros x Hx. rewrite tm_next_ne by done. destruct (Hcl x Hx) as [?|[? ?]]; [by left|right; auto].
  - intros Href. apply Hnu. intros x Hx Hrf. by apply (Href x Hx), Hold.
Qed.

(** Nothing is outstanding any more. *)
Lemma all_counted_prep sigma R d r x :
  omap (prep_msg (fset d (Counted r) sigma)) R ≡ₚ [] -> x ∈ R -> x <> d -> exists r', sigma x = Counted r'.
Proof.
  intros Hp%Permutation_nil_r Hx Hxd. pose proof (omap_nil_inv _ _ x Hp Hx) as Hnone. unfold prep_msg in Hnone.
  rewrite fset_ne in Hnone by done. destruct (sigma x); naive_solver.
Qed.
Lemma all_counted_fin r sigma R d v x :
  omap (fin_msg r (fset d (Counted v) sigma)) R ≡ₚ [] -> x ∈ R -> x <> d -> exists r', sigma x = Counted r'.
Proof.
  intros Hp%Permutation_nil_r Hx Hxd. pose proof (omap_nil_inv _ _ x Hp Hx) as Hnone. unfold fin_msg in Hnone.
  rewrite fset_ne in Hnone by done. destruct (sigma x); naive_solver.
Qed.

(** The last vote is counted. *)
Lemma decide_commit_inv s sigma d r :
  base s -> preparing s sigma -> d ∈ touched_remotes s -> sigma d = Answered r ->
  omap (prep_msg (fset d (Counted r) sigma)) (touched_remotes s) ≡ₚ [] ->
  (if decide (rc (tm s home) = RCOK) then r else rc (tm s home)) = RCOK ->
  inv (next s home (mkTM RCOK (others (partitions_touched (tm s home))) false (return_id (tm s home)) (att s)
         (partitions_touched (tm s home))) (finish_msgs RCOK (partitions_touched (tm s home))) [EvRelease RCOK]).
Proof.
  intros Hb [_ _ Hrsp Hab Hh Hsig Hrc Hcl Hni Hnu] HdR Hd Hp Hr'.
  destruct (remote_not_home _ _ Hb HdR) as [Hdt Hdh].
  destruct Hrc as [[Hrc Hc]|[Hrc _]]; rewrite Hrc in Hr';
    [rewrite decide_True in Hr' by done; subst r|by rewrite decide_False in Hr' by done].
  assert (Hnone : forall x, x ∈ touched_remotes s -> ~ refused (sigma x)).
  { intros x Hx. destruct (decide (x = d)) as [->|Hxd]; [rewrite Hd; intros [?|?]; congruence|].
    destruct (all_counted_prep _ _ _ _ x Hp Hx Hxd) as [r' Hr].
    intros [?|?]; [congruence|by apply (Hc x Hx)]. }
  apply commit_inv; [done|apply Hb|apply Hb|done|by eapply two_touched|by apply Hnu|].
  intros x Hx. destruct (Hcl x Hx) as [?|[HxR Hxr]]; [done|by apply Hnone in Hxr].
Qed.

Lemma decide_abort_inv s sigma d ev :
  base s -> preparing s sigma -> d ∈ touched_remotes s -> undoing ev ->
  inv (next s home (mkTM Abort (others (partitions_touched (tm s home))) true (return_id (tm s home)) (att s)
         (partitions_touched (tm s home))) (finish_msgs Abort (partitions_touched (tm s home))) ev).
Proof.
  intros Hb [_ _ Hrsp Hab Hh Hsig Hrc Hcl Hni Hnu] HdR Hu.
  destruct (remote_not_home _ _ Hb HdR) as [Hdt Hdh].
  apply abort_inv; [done|apply Hb|apply Hb|done|by eapply two_touched|done|done|].
  intros x Hx. destruct (Hcl x Hx) as [?|[HxR _]]; [by left|right]. by apply (remote_not_home s x Hb).
Qed.

(** *** Finishing *)

Lemma ack_commit_inv s sigma d t rest :
  base s -> committing s sigma -> d ∈ touched_remotes s ->
  net s ≡ₚ mkMsg RFIN d home RCOK ro :: rest ->
  omap (fin_msg RCOK (fset d (Answered RCOK) sigma)) (touched_remotes s) ≡ₚ mkMsg RACK_FIN home d RCOK ro :: rest ->
  clean t ->
  inv (next s d t (rest ++ [mkMsg RACK_FIN home d RCOK ro]) [EvRelease RCOK]).
Proof.
  intros Hb [_ _ Hrsp Hrc Hh Hnu Hlog Hin Hcl] HdR Hnet Hp Ht.
  destruct (remote_not_home _ _ Hb HdR) as [_ Hdh].
  left. split.
  { apply base_remote; [done..|]. intros parts. set_solver. }
  apply (Ph_commit _ (fset d (Answered RCOK) sigma)); split; rewrite ?tm_next_ne, ?att_next_ne by auto;
    cbn [net next log]; try done.
  - rewrite Hp. symmetry. apply Permutation_cons_append.
  - by destruct rest.
  - by rewrite (snoc_length _ _ _ _ Hnet).
  - apply nothing_undone_app; [done|]. by intros e ->%list_elem_of_singleton.
  - apply elem_of_app. by left.
  - intros x Hx Hs. apply elem_of_app. destruct (decide (x = d)) as [->|Hxd].
    + right. apply elem_of_tagged. split_and!; [done..|set_solver].
    + left. apply Hin; [done|]. by rewrite fset_ne in Hs.
  - intros x Hx. destruct (decide (x = d)) as [->|Hxd]; [by rewrite tm_next|rewrite tm_next_ne; auto].
Qed.

Lemma ack_abort_inv s sigma d t rest ev :
  base s -> aborting s sigma -> d ∈ touched_remotes s ->
  net s ≡ₚ mkMsg RFIN d home Abort ro :: rest ->
  omap (fin_msg Abort (fset d (Answered RCOK) sigma)) (touched_remotes s) ≡ₚ mkMsg RACK_FIN home d RCOK ro :: rest ->
  clean t -> undoing ev ->
  inv (next s d t (rest ++ [mkMsg RACK_FIN home d RCOK ro]) ev).
Proof.
  intros Hb [_ _ Hrsp Hrc Hh Hni Hcl] HdR Hnet Hp Ht Hu.
  destruct (remote_not_home _ _ Hb HdR) as [_ Hdh].
  left. split.
  { apply base_remote; [done..|]. intros parts. by apply undoing_no_answer. }
  apply (Ph_abort _ (fset d (Answered RCOK) sigma)); split; rewrite ?tm_next_ne, ?att_next_ne by auto;
    cbn [net next log]; try done.
  - rewrite Hp. symmetry. apply Permutation_cons_append.
  - by destruct rest.
  - by rewrite (snoc_length _ _ _ _ Hnet).
  - by apply undoing_installed.
  - intros x Hx. destruct (decide (x = d)) as [->|Hxd]; [left; by rewrite tm_next|].
    rewrite tm_next_ne, fset_ne by done. auto.
Qed.

(** An acknowledgement is counted, and more are missing. *)
Lemma count_ack_commit_inv s sigma d v rest m :
  base s -> committing s sigma -> sigma d = Answered v -> net s ≡ₚ m :: rest -> rest <> [] ->
  omap (fin_msg RCOK (fset d (Counted RCOK) sigma)) (touched_remotes s) ≡ₚ rest ->
  inv (next s home (mkTM RCOK (rsp_cnt (tm s home) - 1) (aborted (tm s home)) (return_id (tm s home)) (att s)
         (partitions_touched (tm s home))) rest []).
Proof.
  intros Hb [_ _ Hrsp Hrc Hh Hnu Hlog Hin Hcl] Hd Hnet Hrest Hp.
  left. split.
  { apply base_home; [done|apply Hb|apply Hb|done|intros; set_solver]. }
  apply (Ph_commit _ (fset d (Counted RCOK) sigma)); split; rewrite ?tm_next, ?att_next;
    cbn [net next log rc rsp_cnt aborted abort_cnt partitions_touched map]; rewrite ?app_nil_r; try done.
  - by rewrite Hrsp, (rest_length _ _ _ Hnet).
  - intros x Hx Hs. apply Hin; [done|]. destruct (decide (x = d)) as [->|Hxd]; [by rewrite Hd|by rewrite fset_ne in Hs].
  - intros x Hx. rewrite tm_next_ne by done. auto.
Qed.

Lemma count_ack_abort_inv s sigma d v rest m :
  base s -> aborting s sigma -> sigma d = Answered v -> net s ≡ₚ m :: rest -> rest <> [] ->
  omap (fin_msg Abort (fset d (Counted RCOK) sigma)) (touched_remotes s) ≡ₚ rest ->
  inv (next s home (mkTM Abort (rsp_cnt (tm s home) - 1) (aborted (tm s home)) (return_id (tm s home)) (att s)
         (partitions_touched (tm s home))) rest []).
Proof.
  intros Hb [_ _ Hrsp Hrc Hh Hni Hcl] Hd Hnet Hrest Hp.
  left. split.
  { apply base_home; [done|apply Hb|apply Hb|done|intros; set_solver]. }
  apply (Ph_abort _ (fset d (Counted RCOK) sigma)); split; rewrite ?tm_next, ?att_next;
    cbn [net next log rc rsp_cnt aborted abort_cnt partitions_touched map]; rewrite ?app_nil_r; try done.
  - by rewrite Hrsp, (rest_length _ _ _ Hnet).
  - intros x Hx. rewrite tm_next_ne by done. destruct (Hcl x Hx) as [?|[? Hs]]; [by left|right].
    split; [done|]. rewrite fset_ne; [done|]. congruence.
Qed.

(** *** Every message *)

Lemma assert_true {A} (k : M A) t : mbind (fun _ => k) (assert true) t = k t.
Proof. unfold mbind, M_bind, assert. by destruct (k t) as [[[[? ?] ?] ?]|]. Qed.

Lemma exec_step s m ch x t out ev :
  base s -> executing s m ->
  admissible txn_id n (dest m) ch -> proc (dest m) m ch (tm s (dest m)) = Ok (x, t, out, ev) ->
  inv (next s (dest m) t out ev).
Proof.
  intros Hb [Hnet Hch Hrsp Hlog Hcl Hq] Hadm Hp.
  pose proof (clean_eta _ Hch Hrsp) as Heta. pose proof (b_range _ Hb) as Hr. pose proof (b_nodup _ Hb) as Hnd.
  unfold query_msg in Hq.
  assert (Hfirst : dest m = home -> rtype m = CL_QRY \/ rtype m = RTXN -> inv (next s (dest m) t out ev)).
  { intros Hd Hm. rewrite Hd in Hp, Hadm |- *. rewrite Heta in Hp.
    assert (Hp' : process_rtxn alg txn_id n ro true home ch
      (mkTM RCOK 0 false (return_id (tm s home)) (abort_cnt (tm s home)) (partitions_touched (tm s home)))
        = Ok (x, t, out, ev)) by (unfold process in Hp; by destruct Hm as [Hm|Hm]; rewrite Hm in Hp).
    eapply exec_home_inv; [done|..|by eapply (home_run true ch id)]; try done;
      [apply in_range_add; [apply home_range|done]|by apply NoDup_add|apply elem_of_add; by left]. }
  destruct (rtype m) eqn:Hm; try done; [by auto|by auto|..].
  - destruct Hq as [Hq Hh]. rewrite Hq in Hp, Hadm |- *. rewrite Heta in Hp.
    unfold process, process_rtxn_cont in Hp. rewrite Hm, local_home, assert_true in Hp.
    eapply exec_home_inv; [done..|]. by eapply (home_run false ch (fun _ => RCOK)).
  - destruct Hq as (Hg & Hgt & Hret & Hh).
    eapply exec_remote_inv; [done..|]. eapply remote_run; [done|done|by apply Hcl| |done]. auto.
  - destruct Hq as (Hg & Hgt & Hret & Hh).
    eapply exec_remote_inv; [done..|]. eapply remote_run; [done|done|by apply Hcl| |done]. auto.
  - destruct Hq as (Hq & Hmr & Hh). rewrite Hq in Hp, Hadm |- *. rewrite Heta in Hp.
    unfold process, process_rqry_rsp in Hp. rewrite Hm, local_home, assert_true, Hmr, decide_False in Hp by done.
    eapply exec_home_inv; [done..|]. by eapply (home_run false ch id).
Qed.

Lemma deliver_one {A} (l : list A) m m' rest : l = [m] -> l ≡ₚ m' :: rest -> m' = m /\ rest = [].
Proof. intros ->. intros H%Permutation_singleton_l. by injection H as -> ->. Qed.

Lemma single_rest {A} (l : list A) m rest (c : Z) :
  l ≡ₚ m :: rest -> c = Z.of_nat (length l) -> (c = 1 -> rest = []) /\ (1 < c -> rest <> []).
Proof.
  intros Hp%Permutation_length ->. destruct rest; cbn in Hp |- *; split; try done; lia.
Qed.

Lemma refuse_step s m d ch x t out ev :
  base s -> failing s m d -> proc (dest m) m ch (tm s (dest m)) = Ok (x, t, out, ev) ->
  inv (next s (dest m) t out ev).
Proof.
  intros Hb [Hnet (Hty & Hd & Hrc) Hch Hrsp Hh [Hdt Hdh] Hcl Hni] Hp. rewrite Hd in Hp |- *.
  pose proof (two_touched _ _ Hh Hdt Hdh) as Hl. rewrite (clean_eta _ Hch Hrsp) in Hp.
  destruct (refused_run _ _ _ _ _ _ _ _ _ _ Hty Hrc Hl Hp) as (-> & -> & Hu).
  apply abort_inv; [done|apply Hb|apply Hb|done|done|done|done|].
  intros y Hy. destruct (decide (y = d)) as [->|Hyd]; auto.
Qed.

Lemma positive_rsp s : net s <> [] -> rsp_cnt (tm s home) = Z.of_nat (length (net s)) -> 0 < rsp_cnt (tm s home).
Proof. intros Hne ->. destruct (net s); [done|cbn; lia]. Qed.

Lemma prepare_step s sigma m rest ch x t out ev :
  base s -> preparing s sigma -> net s ≡ₚ m :: rest ->
  admissible txn_id n (dest m) ch -> proc (dest m) m ch (tm s (dest m)) = Ok (x, t, out, ev) ->
  inv (next s (dest m) t (rest ++ out) ev).
Proof.
  intros Hb Hpr Hm Hadm Hp.
  destruct (pending_step prep_msg sigma (touched_remotes s) (net s) m rest) as (d & HdR & Hdm & Hpend);
    [intros; by apply prep_msg_ext|by apply remotes_NoDup, Hb|apply Hpr|done|].
  destruct (remote_not_home _ _ Hb HdR) as [Hdt Hdh]. unfold prep_msg in Hdm.
  destruct (sigma d) as [|r|r] eqn:Hs; [| |done]; injection Hdm as <-; cbn [dest] in Hp, Hadm |- *.
  - assert (Hc : clean (tm s d)).
    { destruct (pr_clean _ _ Hpr d Hdh) as [?|[_ [?|?]]]; [done|congruence..]. }
    destruct (rprepare_run d (mkMsg RPREPARE d home RCOK ro) ch _ _ _ _ _ Hdh Hadm Hc eq_refl eq_refl Hp) as (r & Hr & -> & Ht & ->).
    specialize (Hpend (Answered r)). unfold prep_msg in Hpend at 2. rewrite fset_eq in Hpend. by eapply vote_inv.
  - pose proof (pr_vote _ _ Hpr d) as Hr. rewrite Hs in Hr.
    specialize (Hpend (Counted r)). unfold prep_msg in Hpend at 2. rewrite fset_eq in Hpend. cbn [option_list app] in Hpend.
    pose proof (two_touched _ _ (pr_touched _ _ Hpr) Hdt Hdh) as Hl.
    destruct (single_rest _ _ _ _ Hm (pr_rsp _ _ Hpr)) as [Hone Hmany].
    assert (Hrc : rc (tm s home) = RCOK \/ rc (tm s home) = Abort).
    { destruct (pr_rc _ _ Hpr) as [[? _]|[? _]]; auto. }
    rewrite (TM_eta (tm s home)) in Hp.
    destruct (rack_prep_run (mkMsg RACK_PREP home d r ro) ch _ _ _ _ _ _ _ _ _ _ Hadm Hrc Hr (pr_aborted _ _ Hpr)
      (positive_rsp _ (pr_ne _ _ Hpr) (pr_rsp _ _ Hpr)) Hl eq_refl Hp)
      as [(Hc & -> & -> & ->)|[(Hc & -> & Hr' & -> & ->)|(Hc & -> & Hu & ->)]].
    + rewrite app_nil_r. eapply count_vote_inv; eauto.
    + rewrite Hone in Hpend |- * by done. by eapply decide_commit_inv.
    + rewrite Hone in Hpend |- * by done. by eapply decide_abort_inv.
Qed.

Lemma commit_step s sigma m rest ch x t out ev :
  base s -> committing s sigma -> net s ≡ₚ m :: rest ->
  admissible txn_id n (dest m) ch -> proc (dest m) m ch (tm s (dest m)) = Ok (x, t, out, ev) ->
  inv (next s (dest m) t (rest ++ out) ev).
Proof.
  intros Hb Hco Hm Hadm Hp.
  destruct (pending_step (fin_msg RCOK) sigma (touched_remotes s) (net s) m rest) as (d & HdR & Hdm & Hpend);
    [intros; by apply fin_msg_ext|by apply remotes_NoDup, Hb|apply Hco|done|].
  destruct (remote_not_home _ _ Hb HdR) as [Hdt Hdh]. unfold fin_msg in Hdm.
  destruct (sigma d) as [|r|r] eqn:Hs; [| |done]; injection Hdm as <-; cbn [dest] in Hp, Hadm |- *.
  - destruct (rfin_commit_run d (mkMsg RFIN d home RCOK ro) ch _ _ _ _ _ (co_clean _ _ Hco d Hdh) eq_refl eq_refl eq_refl Hp) as (Ht & -> & ->).
    specialize (Hpend (Answered RCOK)). unfold fin_msg in Hpend at 2. rewrite fset_eq in Hpend. by eapply ack_commit_inv.
  - specialize (Hpend (Counted RCOK)). unfold fin_msg in Hpend at 2. rewrite fset_eq in Hpend. cbn [option_list app] in Hpend.
    destruct (single_rest _ _ _ _ Hm (co_rsp _ _ Hco)) as [Hone Hmany].
    rewrite (TM_eta (tm s home)) in Hp.
    destruct (rack_fin_run (mkMsg RACK_FIN home d RCOK ro) ch _ _ _ _ _ _ _ _ _ _ (or_introl (co_rc _ _ Hco)) eq_refl
      (positive_rsp _ (co_ne _ _ Hco) (co_rsp _ _ Hco)) eq_refl Hp)
      as [(Hc & -> & -> & ->)|[(Hc & _ & -> & -> & ->)|(_ & Habs & _)]].
    + rewrite app_nil_r, (co_rc _ _ Hco). eapply count_ack_commit_inv; eauto.
    + rewrite Hone in Hpend |- * by done. cbn [app].
      eapply answer_inv; [done|apply Hco|by left|].
      intros y Hy. apply elem_of_app. left. destruct (decide (y = home)) as [->|Hyh]; [apply Hco|].
      assert (HyR : y ∈ touched_remotes s) by (apply elem_of_remotes; [apply Hb|done]).
      apply (co_remote _ _ Hco); [done|]. destruct (decide (y = d)) as [->|Hyd]; [by rewrite Hs|].
      destruct (all_counted_fin _ _ _ _ _ y Hpend HyR Hyd) as [r' Hr']. by rewrite Hr'.
    + by rewrite (co_rc _ _ Hco) in Habs.
Qed.

Lemma abort_step s sigma m rest ch x t out ev :
  base s -> aborting s sigma -> net s ≡ₚ m :: rest ->
  proc (dest m) m ch (tm s (dest m)) = Ok (x, t, out, ev) ->
  inv (next s (dest m) t (rest ++ out) ev).
Proof.
  intros Hb Hab Hm Hp.
  destruct (pending_step (fin_msg Abort) sigma (touched_remotes s) (net s) m rest) as (d & HdR & Hdm & Hpend);
    [intros; by apply fin_msg_ext|by apply remotes_NoDup, Hb|apply Hab|done|].
  destruct (remote_not_home _ _ Hb HdR) as [Hdt Hdh]. unfold fin_msg in Hdm.
  destruct (sigma d) as [|r|r] eqn:Hs; [| |done]; injection Hdm as <-; cbn [dest] in Hp |- *.
  - destruct (rfin_abort_run d (mkMsg RFIN d home Abort ro) ch _ _ _ _ _ eq_refl eq_refl Hp) as (Ht & -> & Hu).
    specialize (Hpend (Answered RCOK)). unfold fin_msg in Hpend at 2. rewrite fset_eq in Hpend. by eapply ack_abort_inv.
  - specialize (Hpend (Counted RCOK)). unfold fin_msg in Hpend at 2. rewrite fset_eq in Hpend. cbn [option_list app] in Hpend.
    destruct (single_rest _ _ _ _ Hm (ab_rsp _ _ Hab)) as [Hone Hmany].
    rewrite (TM_eta (tm s home)) in Hp.
    destruct (rack_fin_run (mkMsg RACK_FIN home d RCOK ro) ch _ _ _ _ _ _ _ _ _ _ (or_intror (ab_rc _ _ Hab)) eq_refl
      (positive_rsp _ (ab_ne _ _ Hab) (ab_rsp _ _ Hab)) eq_refl Hp)
      as [(Hc & -> & -> & ->)|[(_ & Habs & _)|(Hc & _ & -> & -> & ->)]].
    + rewrite app_nil_r, (ab_rc _ _ Hab). eapply count_ack_abort_inv; eauto.
    + by rewrite (ab_rc _ _ Hab) in Habs.
    + rewrite Hone in Hpend |- * by done. cbn [app].
      apply restart_inv; [done|apply Hb|apply Hb|apply Hab|intros e; set_solver|].
      intros y Hy. destruct (ab_clean _ _ Hab y Hy) as [?|[HyR Hys]]; [done|exfalso].
      destruct (decide (y = d)) as [->|Hyd]; [congruence|].
      destruct (all_counted_fin _ _ _ _ _ y Hpend HyR Hyd) as [r' Hr']. congruence.
Qed.

Lemma phase_step s m rest ch x t out ev :
  base s -> phase s -> net s ≡ₚ m :: rest ->
  admissible txn_id n (dest m) ch -> proc (dest m) m ch (tm s (dest m)) = Ok (x, t, out, ev) ->
  inv (next s (dest m) t (rest ++ out) ev).
Proof.
  intros Hb Hph Hm Hadm Hp. destruct Hph as [m0 Hex|m0 d Hfl|sigma Hpr|sigma Hco|sigma Hab].
  - destruct (deliver_one _ _ _ _ (ex_net _ _ Hex) Hm) as [-> ->]. by eapply exec_step.
  - destruct (deliver_one _ _ _ _ (fl_net _ _ _ Hfl) Hm) as [-> ->]. by eapply refuse_step.
  - by eapply prepare_step.
  - by eapply commit_step.
  - by eapply abort_step.
Qed.

Lemma step_inv s s' : inv s -> node_step s s' -> inv s'.
Proof.
  intros [[Hb Hph]|(Hnil & _)] Hs; inversion Hs as [s0 m rest ch r t out ev Hm Hadm Hp]; subst.
  - by apply (phase_step s m rest ch r t out ev).
  - rewrite Hnil in Hm. by apply Permutation_nil_cons in Hm.
Qed.

Lemma cluster_init_inv : inv (init_net txn_id n ro).
Proof.
  left. split.
  - split; cbn.
    + intros p. set_solver.
    + constructor.
    + set_solver.
    + intros j _. left. intros d e. set_solver.
    + intros d j parts H. set_solver.
  - eapply Ph_exec; split; try done. cbn. set_solver.
Qed.

Lemma cluster_reachable_inv s : rtc node_step (init_net txn_id n ro) s -> inv s.
Proof. intros H. eapply rtc_invariant; [|apply step_inv|exact H]. apply cluster_init_inv. Qed.

(** ** What follows *)

Lemma inv_agreed s j : inv s -> agreed j (log s).
Proof.
  intros [[Hb Hph]|(_ & _ & Ha & _)]; [|done].
  destruct (decide (j = att s)) as [->|Hj]; [|by apply Hb].
  destruct Hph as [m0 Hex|m0 d Hfl|sigma Hpr|sigma Hco|sigma Hab].
  - left. apply no_events_installed, Hex.
  - left. apply Hfl.
  - left. apply Hpr.
  - right. apply Hco.
  - left. apply Hab.
Qed.

(** A message is where its handler expects it. *)
Definition addressed (s : Net) (m : Msg) : Prop :=
  match rtype m with
  | CL_QRY | RTXN | RTXN_CONT | RQRY_RSP => dest m = home
  | RQRY_CONT => dest m <> home
  | RACK_PREP | RACK_FIN =>
      dest m = home /\ (rc (tm s home) = RCOK \/ rc (tm s home) = Abort) /\ 0 < rsp_cnt (tm s home) /\
      (msg_rc m = RCOK \/ msg_rc m = Abort)
  | RQRY | RPREPARE | RFIN => True
  end.

Lemma phase_addressed s m : phase s -> m ∈ net s -> addressed s m.
Proof.
  intros Hph Hm. destruct Hph as [m0 Hex|m0 d Hfl|sigma Hpr|sigma Hco|sigma Hab].
  - rewrite (ex_net _ _ Hex) in Hm. apply list_elem_of_singleton in Hm as ->.
    pose proof (ex_query _ _ Hex) as Hq. unfold query_msg in Hq. unfold addressed. destruct (rtype m0); tauto.
  - rewrite (fl_net _ _ _ Hfl) in Hm. apply list_elem_of_singleton in Hm as ->.
    destruct (fl_type _ _ _ Hfl) as (Hty & Hd & _). unfold addressed. by rewrite Hty.
  - pose proof (positive_rsp _ (pr_ne _ _ Hpr) (pr_rsp _ _ Hpr)) as Hc. rewrite (pr_net _ _ Hpr) in Hm.
    apply list_elem_of_omap in Hm as (d & _ & Hf). unfold prep_msg in Hf. pose proof (pr_vote _ _ Hpr d) as Hv.
    destruct (sigma d); simplify_eq; cbn; [done|].
    split_and!; [done| |done|done]. destruct (pr_rc _ _ Hpr) as [[? _]|[? _]]; auto.
  - pose proof (positive_rsp _ (co_ne _ _ Hco) (co_rsp _ _ Hco)) as Hc. rewrite (co_net _ _ Hco) in Hm.
    apply list_elem_of_omap in Hm as (d & _ & Hf). unfold fin_msg in Hf.
    destruct (sigma d); simplify_eq; cbn; [done|]. rewrite (co_rc _ _ Hco). auto.
  - pose proof (positive_rsp _ (ab_ne _ _ Hab) (ab_rsp _ _ Hab)) as Hc. rewrite (ab_net _ _ Hab) in Hm.
    apply list_elem_of_omap in Hm as (d & _ & Hf). unfold fin_msg in Hf.
    destruct (sigma d); simplify_eq; cbn; [done|]. rewrite (ab_rc _ _ Hab). auto.
Qed.

(** The handlers' assertions hold. *)
Definition ok_at {A} (c : M A) (t : TM) : Prop := exists r, c t = Ok r.

Lemma ok_bind {A B} (c : M A) (k : A -> M B) t :
  ok_at c t -> (forall x t', ok_at (k x) t') -> ok_at (mbind k c) t.
Proof.
  intros [[[[x t1] o1] e1] Hc] Hk. destruct (Hk x t1) as [[[[y t2] o2] e2] Hy].
  eexists. unfold mbind, M_bind. by rewrite Hc, Hy.
Qed.
Lemma ok_done {A} (r : A * TM * list Msg * list event) (c : M A) t : c t = Ok r -> ok_at c t.
Proof. by exists r. Qed.
Lemma ok_assert b t : b = true -> ok_at (assert b) t.
Proof. intros ->. by eexists. Qed.

Ltac total :=
  repeat first
    [ apply ok_bind; [|intros]
    | apply ok_assert; assumption
    | case_decide
    | match goal with |- ok_at (if ?b then _ else _) _ => destruct b eqn:? end
    | match goal with |- ok_at (match ?e with XRemote _ => _ | _ => _ end) _ => destruct e end
    | progress unfold enqueue, abort, commit, check_if_done, wt_commit, wt_abort, respond, start_abort, start_commit,
        send_finish_messages, send_prepare_messages, send_to_parts
    | (eapply ok_done; reflexivity)
    | eassumption ].

Lemma ok_run_txn g first ch t : ok_at (run_txn alg txn_id n ro true g first ch) t.
Proof. unfold run_txn. total. Qed.

(** [received_response] leaves a count that is not negative. *)
Lemma ok_received {A} r (k : Z -> M A) t :
  (rc t = RCOK \/ rc t = Abort) -> 0 < rsp_cnt t ->
  (forall left t', (0 <=? left) = true -> ok_at (k left) t') -> ok_at (mbind k (received_response r)) t.
Proof.
  intros Hrc Hc Hk. destruct t as [r0 c a ri j pt]. cbn in Hrc, Hc.
  assert (Hl : (0 <=? c - 1) = true) by (apply Z.leb_le; lia).
  destruct (Hk (c - 1) (if decide (r0 = RCOK) then mkTM r (c - 1) a ri j pt else mkTM r0 (c - 1) a ri j pt) Hl)
    as [[[[y t2] o2] e2] Hy].
  eexists. unfold_handlers. rewrite bool_decide_eq_true_2 by done. cbn -[Z.ltb].
  destruct (decide (r0 = RCOK)); cbn -[Z.ltb]; rewrite (proj2 (Z.ltb_lt 0 c)) by done; cbn -[Z.ltb];
    unfold set_rsp_cnt; cbn -[Z.ltb]; by rewrite Hy.
Qed.

Lemma process_total s m ch :
  addressed s m -> exists r, proc (dest m) m ch (tm s (dest m)) = Ok r.
Proof.
  intros Ha. unfold addressed in Ha. pose proof local_home as Hl.
  change (ok_at (proc (dest m) m ch) (tm s (dest m))). unfold process.
  destruct (rtype m) eqn:Hm.
  - rewrite Ha. unfold process_rtxn. apply ok_bind; [apply ok_run_txn|intros; total].
  - rewrite Ha. unfold process_rtxn. apply ok_bind; [apply ok_run_txn|intros; total].
  - rewrite Ha. unfold process_rtxn_cont. apply ok_bind; [by apply ok_assert|intros].
    apply ok_bind; [apply ok_run_txn|intros; total].
  - unfold process_rqry. destruct (local (dest m)) eqn:Hd; [total|].
    apply ok_bind; [total|intros]. apply ok_bind; [apply ok_run_txn|intros; total].
  - unfold process_rqry_cont. apply ok_bind; [apply ok_assert; by rewrite local_ne|intros].
    apply ok_bind; [apply ok_run_txn|intros; total].
  - rewrite Ha. unfold process_rqry_rsp. total.
  - unfold process_rprepare. total.
  - destruct Ha as (Hd & Hrc & Hc & Hmr). rewrite Hd. unfold process_rack_prep.
    eapply ok_received; [done|done|]. intros left t2 Hl0. total.
  - unfold process_rfin. total.
  - destruct Ha as (Hd & Hrc & Hc & Hmr). rewrite Hd. unfold process_rack_rfin.
    eapply ok_received; [done|done|]. intros left t2 Hl0. total.
Qed.




End Safety.
