(* ===== verification/TwoPCRuns.v ===== *)
(** * TwoPCRuns: executions of the two-phase commit on concrete clusters

    An interpreter of schedules for [TwoPC], the witnesses of the theorems of
    [TwoPCSafety], and executions of the configurations the theorems leave out:
    workloads whose [run_txn] does not abort at a remote node (TPC-C, PPS),
    read-only queries of algorithms that do not prepare them, and TicToc. *)

From stdpp Require Import base tactics numbers list relations.
From Stdlib Require Import ZArith Lia.
From S2P Require Import Prelude TwoPC TwoPCSafety.
#[local] Open Scope Z_scope.

Section Runs.
Context (alg : CC_ALG) (txn_id n : Z) (ro remote_aborts : bool).

Definition admissibleb (g : Z) (ch : Choice) : bool :=
  bool_decide (validate ch = RCOK \/ validate ch = Abort) &&
  match exec ch with
  | XRemote d => (g =? GET_TXN_NODE_ID txn_id n) && negb (d =? GET_TXN_NODE_ID txn_id n) && (0 <=? d) && (d <? n)
  | _ => true
  end.

(** Deliver the message at position [i]. *)
Definition deliver_nth (c : nat * Choice) (s : Net) : option Net :=
  let '(i, ch) := c in
  match net s !! i with
  | Some m =>
      if admissibleb (dest m) ch then
        match process alg txn_id n ro remote_aborts (dest m) m ch (tm s (dest m)) with
        | Ok (_, t, out, ev) =>
            Some (mkNet (fset (dest m) t (tm s)) (delete i (net s) ++ out)
                    (log s ++ map (fun e => (dest m, attempt txn_id n s, e)) ev))
        | AssertFail => None
        end
      else None
  | None => None
  end.
Fixpoint run (l : list (nat * Choice)) (s : Net) : option Net :=
  match l with
  | [] => Some s
  | c :: l' => s' ← deliver_nth c s; run l' s'
  end.
Definition final (l : list (nat * Choice)) : Net :=
  default (init_net txn_id n ro) (run l (init_net txn_id n ro)).

Lemma admissibleb_spec g ch : admissibleb g ch = true -> admissible txn_id n g ch.
Proof.
  unfold admissibleb, admissible. intros [Hv%bool_decide_eq_true He]%andb_true_iff. split; [done|].
  destruct (exec ch); try done. bool_to_Z. lia.
Qed.

Lemma deliver_nth_step c s s' : deliver_nth c s = Some s' -> step alg txn_id n ro remote_aborts s s'.
Proof.
  destruct c as [i ch]. unfold deliver_nth. destruct (net s !! i) as [m|] eqn:Hm; [|done].
  destruct (admissibleb (dest m) ch) eqn:Ha; [|done].
  destruct (process _ _ _ _ _ _ _ _ _) as [[[[r t] out] ev]|] eqn:Hp; [|done].
  intros [= <-]. eapply deliver; [|by apply admissibleb_spec|done]. by apply delete_Permutation.
Qed.

Lemma final_reachable l : rtc (step alg txn_id n ro remote_aborts) (init_net txn_id n ro) (final l).
Proof.
  unfold final. destruct (run l _) as [s|] eqn:E; [|apply rtc_refl].
  revert E. generalize (init_net txn_id n ro). induction l as [|c l IH]; intros s0; cbn [run].
  - intros [= <-]. apply rtc_refl.
  - destruct (deliver_nth c s0) as [s1|] eqn:H1; [|done]. intros H%IH.
    eapply rtc_l; [by eapply deliver_nth_step|done].
Qed.
End Runs.

#[local] Abbreviation c e := (mkChoice e RCOK).
#[local] Abbreviation go i := (i, c XDone).

(** Three nodes; node 0 is the home of transaction 6, and asks nodes 1 and 2. *)
Definition two_rows : list (nat * Choice) :=
  [(0%nat, c (XRemote 1)); go 0%nat; (0%nat, c (XRemote 2)); go 0%nat; go 0%nat].
(** Node 2 votes before node 1; both agree, or node 1 does not. *)
Definition agreeing : list (nat * Choice) :=
  two_rows ++ [go 1%nat; go 0%nat; go 0%nat; go 0%nat; go 0%nat; go 1%nat; go 0%nat; go 0%nat].
Definition refusing : list (nat * Choice) :=
  two_rows ++ [go 1%nat; (0%nat, mkChoice XDone Abort); go 0%nat; go 0%nat; go 1%nat; go 0%nat; go 0%nat; go 0%nat].

(** ** Witnesses *)




(** ** Outside of the theorems' hypotheses *)

(** TPC-C and PPS: the access of the remote node aborts, and the response says
    RCOK all the same, because [run_txn] of these workloads does not call
    [abort] at a remote node and the message carries [txn->rc].  The transaction
    commits everywhere and the client is answered. *)
Definition lost_abort : list (nat * Choice) :=
  [(0%nat, c (XRemote 1)); (0%nat, c XAbort); go 0%nat; go 0%nat; go 0%nat; go 0%nat; go 0%nat].

Lemma twopc_lost_abort :
  exists s, rtc (step NO_WAIT 4 2 false false) (init_net 4 2 false) s /\
    (1, 0, EvFail) ∈ log s /\ (1, 0, EvRelease RCOK) ∈ log s /\ (0, 0, EvAnswer [0; 1]) ∈ log s.
Proof.
  exists (final NO_WAIT 4 2 false false lost_abort). split; [apply final_reachable|]. vm_compute.
  split_and!; repeat first [left | right].
Qed.

(** A read-only transaction of an algorithm that does not prepare it: the home
    node sends RFIN, which is not acknowledged, and returns [WAIT_REM]; nothing
    is on its way, the home node has not released its accesses, and the client
    gets no answer. *)
Definition read_only : list (nat * Choice) := [(0%nat, c (XRemote 1)); go 0%nat; go 0%nat; go 0%nat].

Lemma twopc_readonly_hangs alg :
  prepares_readonly alg = false -> alg <> TICTOC ->
  exists s, rtc (step alg 4 2 true true) (init_net 4 2 true) s /\
    net s = [] /\ (forall k parts, (0, k, EvAnswer parts) ∉ log s) /\
    (1, 0, EvRelease RCOK) ∈ log s /\ forall r, (0, 0, EvRelease r) ∉ log s.
Proof.
  intros H1 H2. exists (final alg 4 2 true true read_only). split; [apply final_reachable|].
  destruct alg; try done; vm_compute; (split_and!; [done|intros k parts Hin|left|intros r Hin]);
    repeat (apply elem_of_cons in Hin as [[=]|Hin]); by apply elem_of_nil in Hin.
Qed.

(** TicToc: the home node of a transaction with remote parts fails its own
    validation, which it does before it sends RPREPARE; the transaction goes to
    the abort queue with no part released, at the home node or at the other. *)
Definition tictoc_home_fails : list (nat * Choice) :=
  [(0%nat, c (XRemote 1)); go 0%nat; (0%nat, mkChoice XDone Abort)].

Lemma twopc_tictoc_leaks :
  exists s, rtc (step TICTOC 4 2 false true) (init_net 4 2 false) s /\
    (0, 0, EvRestart) ∈ log s /\ (forall d r, (d, 0, EvRelease r) ∉ log s) /\
    Forall (fun m => rtype m = RTXN) (net s).
Proof.
  exists (final TICTOC 4 2 false true tictoc_home_fails). split; [apply final_reachable|]. vm_compute.
  split_and!; [left| |by repeat constructor].
  intros d r Hin. repeat (apply elem_of_cons in Hin as [[=]|Hin]). by apply elem_of_nil in Hin.
Qed.
