(* ===== verification/RowTictoc.v ===== *)
(** * RowTictoc: the rows of TicToc

    concurrency_control/row_tictoc.cpp for both values of [OCC_WAW_LOCK] and of
    [OCC_LOCK_TYPE].  A transaction is its pointer; [prio] is [get_priority],
    its timestamp.  The waiting set is a [std::set] ordered by [CompareWait]:
    the list of its elements in increasing priority, where an element with the
    priority of another one counts as equal to it.  Every operation runs under
    the row's latch.  What [release] tells other transactions through
    [set_txn_ready] is a list of messages.  [_row->copy(data)] sets [tt_data].
    [TICTOC_MV], [ATOMIC_WORD] and [LOCK_ALL_BEFORE_COMMIT] are off in config.h,
    and with them [renew]. *)

From stdpp Require Import base tactics numbers list gmap sorting relations.
From Stdlib Require Import ZArith Lia.
From S2P Require Import Prelude.
#[local] Open Scope Z_scope.

(** [OCC_LOCK_TYPE]. *)
Inductive lock_policy := TT_NO_WAIT | TT_WAIT_DIE.

Record Row_tictoc := mkTT {
  _wts : Z;
  _rts : Z;
  _ts_lock : bool;
  _lock_owner : option Z;
  _waiting_set : list Z;
  _deleted : bool;
  _delete_timestamp : Z;
  tt_data : Z;
}.

Definition set_lock (b : bool) (o : option Z) (r : Row_tictoc) : Row_tictoc :=
  mkTT (_wts r) (_rts r) b o (_waiting_set r) (_deleted r) (_delete_timestamp r) (tt_data r).
Definition set_waiting (s : list Z) (r : Row_tictoc) : Row_tictoc :=
  mkTT (_wts r) (_rts r) (_ts_lock r) (_lock_owner r) s (_deleted r) (_delete_timestamp r) (tt_data r).
Definition set_ts (wts rts : Z) (r : Row_tictoc) : Row_tictoc :=
  mkTT wts rts (_ts_lock r) (_lock_owner r) (_waiting_set r) (_deleted r) (_delete_timestamp r) (tt_data r).
Definition set_data (d : Z) (r : Row_tictoc) : Row_tictoc :=
  mkTT (_wts r) (_rts r) (_ts_lock r) (_lock_owner r) (_waiting_set r) (_deleted r) (_delete_timestamp r) d.

(** The constructor and [init]. *)
Definition tt_init (data : Z) : Row_tictoc := mkTT 0 0 false None [] false 0 data.

Section Row.
Context (WAW : bool) (policy : lock_policy) (_max_num_waits : nat) (prio : Z -> Z).

(** [_waiting_set.insert(txn)] and [_waiting_set.erase(txn)]. *)
Fixpoint wait_insert (t : Z) (s : list Z) : list Z :=
  match s with
  | [] => [t]
  | u :: s' => if prio t <? prio u then t :: u :: s'
               else if prio u <? prio t then u :: wait_insert t s'
               else u :: s'
  end.
Fixpoint wait_erase (t : Z) (s : list Z) : list Z :=
  match s with
  | [] => []
  | u :: s' => if (prio t <? prio u) || (prio u <? prio t) then u :: wait_erase t s' else s'
  end.

Definition read (r : Row_tictoc) : Z * Z := (_wts r, _rts r).

(** The result, the timestamps when it is [RCOK], and the row. *)
Definition write (txn : Z) (r : Row_tictoc) : res (RC * option (Z * Z) * Row_tictoc) :=
  assert! WAW;
  match policy with
  | TT_NO_WAIT =>
      if _ts_lock r then Ok (Abort, None, r)
      else Ok (RCOK, Some (_wts r, _rts r), set_lock true (Some txn) r)
  | TT_WAIT_DIE =>
      if negb (_ts_lock r) then Ok (RCOK, Some (_wts r, _rts r), set_lock true (Some txn) r)
      else if decide (_lock_owner r = Some txn) then Ok (RCOK, Some (_wts r, _rts r), r)
      else match _lock_owner r with
           | None => AssertFail
           | Some o =>
               if (length (_waiting_set r) <? _max_num_waits)%nat && (prio txn <? prio o)
               then Ok (WAIT, None, set_waiting (wait_insert txn (_waiting_set r)) r)
               else Ok (Abort, None, r)
           end
  end.

(** The result of [read] and [write] is dropped: [access] returns [RCOK], and
    leaves the timestamps alone when [write] did not set them. *)
Definition access (type : access_t) (txn : Z) (r : Row_tictoc)
    : res (RC * option (Z * Z) * Row_tictoc) :=
  if bool_decide (type = RD) || negb WAW then Ok (RCOK, Some (read r), r)
  else if decide (type = WR) then
    '(_, ts, r) ← write txn r;
    Ok (RCOK, ts, r)
  else Ok (RCOK, None, r).

Definition commit (cts data : Z) (r : Row_tictoc) : res Row_tictoc :=
  assert! (negb (_deleted r) || (cts <? _delete_timestamp r));
  Ok (set_data data (set_ts cts cts r)).

Definition try_lock (txn : Z) (r : Row_tictoc) : res (RC * Row_tictoc) :=
  assert! (negb WAW);
  match policy with
  | TT_NO_WAIT =>
      if _ts_lock r then Ok (Abort, r) else Ok (RCOK, set_lock true (_lock_owner r) r)
  | TT_WAIT_DIE =>
      if negb (_ts_lock r) then
        assert! (bool_decide (_lock_owner r = None));
        Ok (RCOK, set_lock true (Some txn) r)
      else match _lock_owner r with
           | None => AssertFail
           | Some o =>
               if (_max_num_waits <=? length (_waiting_set r))%nat then Ok (Abort, r)
               else if prio txn <? prio o
               then Ok (WAIT, set_waiting (wait_insert txn (_waiting_set r)) r)
               else Ok (Abort, r)
           end
  end.

(** The answer, the new [orig_rts] when it is written, and the row; [cts] is
    the parameter [rts]. *)
Definition try_renew (wts cts : Z) (r : Row_tictoc) : bool * option Z * Row_tictoc :=
  if negb (wts =? _wts r) then (false, None, r)
  else if _deleted r then (cts <? _delete_timestamp r, None, r)
  else if _ts_lock r then (false, None, r)
  else if _rts r <? cts then (true, Some cts, set_ts (_wts r) cts r)
  else (true, Some (_rts r), r).

(** The last element of the waiting set takes the lock. *)
Definition hand_over (r : Row_tictoc) : option (Z * Row_tictoc) :=
  match last (_waiting_set r) with
  | Some next =>
      Some (next, set_lock (_ts_lock r) (Some next) (set_waiting (removelast (_waiting_set r)) r))
  | None => None
  end.

(** The row and the calls of [set_txn_ready]. *)
Definition release (txn : Z) (rc : RC) (r : Row_tictoc) : res (Row_tictoc * list (RC * Z)) :=
  if negb WAW then
    match policy with
    | TT_NO_WAIT => Ok (set_lock false (_lock_owner r) r, [])
    | TT_WAIT_DIE =>
        assert! (negb (bool_decide (rc = RCOK)) ||
                 (_ts_lock r && bool_decide (_lock_owner r = Some txn)));
        if decide (_lock_owner r = Some txn) then
          match hand_over r with
          | Some (next, r') =>
              if decide (rc = Abort) then Ok (r', [(RCOK, next)])
              else Ok (set_lock false None (set_waiting [] r),
                       (fun u => (Abort, u)) <$> _waiting_set r)
          | None => Ok (set_lock false None r, [])
          end
        else
          assert! (bool_decide (rc = Abort));
          Ok (set_waiting (wait_erase txn (_waiting_set r)) r, [])
    end
  else if decide (_lock_owner r = Some txn) then
    assert! (_ts_lock r);
    match policy with
    | TT_NO_WAIT => Ok (set_lock false (_lock_owner r) r, [])
    | TT_WAIT_DIE =>
        match hand_over r with
        | Some (next, r') => Ok (r', [(RCOK, next)])
        | None => Ok (set_lock false None r, [])
        end
    end
  else Ok (set_waiting (wait_erase txn (_waiting_set r)) r, []).

(** ** The waiting set *)

Definition wait_ok (s : list Z) : Prop := StronglySorted (fun u v => prio u < prio v) s.

Lemma elem_of_wait_insert t u s : u ∈ wait_insert t s -> u = t \/ u ∈ s.
Proof using.
  induction s as [|v s IH]; cbn; [set_solver|]. repeat case_match; set_solver.
Qed.

Lemma wait_insert_here t s : (forall u, u ∈ s -> prio u <> prio t) -> t ∈ wait_insert t s.
Proof using.
  induction s as [|v s IH]; cbn; intros H; [set_solver|]. repeat case_match; bool_to_Z; [set_solver..|].
  exfalso. apply (H v); [set_solver|lia].
Qed.

Lemma wait_insert_keep t u s : u ∈ s -> u ∈ wait_insert t s.
Proof using. induction s as [|v s IH]; cbn; [set_solver|]. repeat case_match; set_solver. Qed.

Lemma wait_insert_ok t s : wait_ok s -> wait_ok (wait_insert t s).
Proof using.
  induction s as [|v s IH]; cbn; intros Hs; [by repeat constructor|].
  pose proof Hs as [Hs' Hv]%StronglySorted_inv. repeat case_match; bool_to_Z; [..|done].
  - constructor; [done|]. constructor; [done|]. eapply Forall_impl; [exact Hv|]. cbn. lia.
  - constructor; [by apply IH|]. apply Forall_forall. intros u [->|Hu]%elem_of_wait_insert; [done|].
    by eapply Forall_forall in Hv.
Qed.

Lemma length_wait_insert t s : (length (wait_insert t s) <= S (length s))%nat.
Proof using. induction s as [|v s IH]; cbn; [lia|]. repeat case_match; cbn; lia. Qed.

Lemma elem_of_wait_erase t u s : u ∈ wait_erase t s -> u ∈ s.
Proof using. induction s as [|v s IH]; cbn; [done|]. case_match; set_solver. Qed.

Lemma wait_erase_keep t u s : u ∈ s -> prio u <> prio t -> u ∈ wait_erase t s.
Proof using.
  induction s as [|v s IH]; cbn; intros Hu Hne; [done|]. case_match eqn:E; [set_solver|].
  bool_to_Z. apply elem_of_cons in Hu as [->|Hu]; [lia|done].
Qed.

Lemma wait_erase_gone t s : wait_ok s -> t ∉ wait_erase t s.
Proof using.
  induction s as [|v s IH]; cbn; intros Hs; [set_solver|].
  pose proof Hs as [Hs' Hv]%StronglySorted_inv. case_match eqn:E.
  - apply orb_true_iff in E. intros [->|Hu]%elem_of_cons; [destruct E; bool_to_Z; lia|by apply IH].
  - bool_to_Z. intros Hu. eapply Forall_forall in Hv; [|exact Hu]. cbn in Hv. lia.
Qed.

Lemma wait_erase_ok t s : wait_ok s -> wait_ok (wait_erase t s).
Proof using.
  induction s as [|v s IH]; cbn; intros Hs; [done|].
  pose proof Hs as [Hs' Hv]%StronglySorted_inv. case_match; [|done].
  constructor; [by apply IH|]. apply Forall_forall. intros u Hu%elem_of_wait_erase.
  by eapply Forall_forall in Hv.
Qed.

Lemma length_wait_erase t s : (length (wait_erase t s) <= length s)%nat.
Proof using. induction s as [|v s IH]; cbn; [lia|]. case_match; cbn; lia. Qed.

Lemma wait_ok_snoc s u : wait_ok (s ++ [u]) -> wait_ok s /\ forall v, v ∈ s -> prio v < prio u.
Proof using.
  induction s as [|w s IH]; cbn; intros Hs; [by split; [constructor|intros ? ?%elem_of_nil]|].
  pose proof Hs as [Hs' Hw]%StronglySorted_inv. destruct (IH Hs') as [H1 H2]. split.
  - constructor; [done|]. apply Forall_forall. intros x Hx. eapply Forall_forall in Hw; [exact Hw|]. set_solver.
  - intros v [->|Hv]%elem_of_cons; [|by apply H2]. eapply Forall_forall in Hw; [exact Hw|]. set_solver.
Qed.

(** ** The invariant of a row *)

(** A lock has an owner, nobody waits for a free row, and every transaction
    that waits is older than the owner.  The waiting set stays within its
    bound, and the lease never ends before the version begins. *)
Record row_ok (r : Row_tictoc) : Prop := {
  ok_owner : _ts_lock r = bool_decide (is_Some (_lock_owner r));
  ok_free : _lock_owner r = None -> _waiting_set r = [];
  ok_sorted : wait_ok (_waiting_set r);
  ok_older u o : u ∈ _waiting_set r -> _lock_owner r = Some o -> prio u < prio o;
  ok_bound : (length (_waiting_set r) <= _max_num_waits)%nat;
  ok_lease : _wts r <= _rts r;
}.

Lemma tt_init_ok d : row_ok (tt_init d).
Proof using. split; cbn; try done; try constructor; try lia. Qed.

Lemma hand_over_spec r :
  row_ok r -> is_Some (_lock_owner r) ->
  match hand_over r with
  | Some (next, r') =>
      _waiting_set r = _waiting_set r' ++ [next] /\ _lock_owner r' = Some next /\ row_ok r' /\
      r' = set_lock true (Some next) (set_waiting (_waiting_set r') r)
  | None => _waiting_set r = []
  end.
Proof using.
  intros [H1 H2 H3 H4 H5 H6] Ho. unfold hand_over. destruct (last (_waiting_set r)) as [u|] eqn:El.
  - apply last_Some in El as [s Es]. rewrite Es in *. rewrite removelast_last.
    apply wait_ok_snoc in H3 as [Hs Hlt]. rewrite length_app in H5. cbn in H5.
    assert (_ts_lock r = true) as Hl by (rewrite H1; by apply bool_decide_eq_true_2).
    cbn. rewrite Hl. split_and!; [done..| |done]. split; cbn; try done; [|lia].
    intros v o Hv [= <-]. by apply Hlt.
  - by apply last_None in El.
Qed.

Lemma row_free_ok r :
  row_ok r -> _waiting_set r = [] -> row_ok (set_lock false None r).
Proof using.
  intros [H1 H2 H3 H4 H5 H6] Hw. split; cbn; try done.
Qed.

Lemma row_erase_ok t r : row_ok r -> row_ok (set_waiting (wait_erase t (_waiting_set r)) r).
Proof using.
  intros [H1 H2 H3 H4 H5 H6]. split; cbn; try done.
  - intros Ho. by rewrite (H2 Ho).
  - by apply wait_erase_ok.
  - intros u o Hu%elem_of_wait_erase. by apply H4.
  - pose proof (length_wait_erase t (_waiting_set r)). lia.
Qed.

Lemma row_wait_ok t o r :
  row_ok r -> _lock_owner r = Some o -> prio t < prio o ->
  (length (_waiting_set r) < _max_num_waits)%nat ->
  row_ok (set_waiting (wait_insert t (_waiting_set r)) r).
Proof using.
  intros [H1 H2 H3 H4 H5 H6] Ho Hlt Hlen. split; cbn; try done.
  - congruence.
  - by apply wait_insert_ok.
  - intros u o' [->|Hu]%elem_of_wait_insert Ho'; [congruence|by eapply H4].
  - pose proof (length_wait_insert t (_waiting_set r)). lia.
Qed.

Lemma row_lock_ok t r : row_ok r -> _ts_lock r = false -> row_ok (set_lock true (Some t) r).
Proof using.
  intros [H1 H2 H3 H4 H5 H6] Hl. rewrite Hl in H1. symmetry in H1. apply bool_decide_eq_false in H1.
  assert (_lock_owner r = None) as Ho by (by destruct (_lock_owner r); [destruct H1|]).
  split; cbn; try done. intros u o Hu. by rewrite (H2 Ho) in Hu; apply elem_of_nil in Hu.
Qed.

Lemma row_ts_ok wts rts d r : row_ok r -> wts <= rts -> row_ok (set_data d (set_ts wts rts r)).
Proof using. by intros [H1 H2 H3 H4 H5 H6] Hle; split. Qed.

(** ** Every operation preserves the invariant *)

Lemma write_ok txn r rc ts r' :
  policy = TT_WAIT_DIE -> row_ok r -> write txn r = Ok (rc, ts, r') -> row_ok r'.
Proof using.
  intros Hp Hok. unfold write. rewrite Hp. destruct WAW; cbn; [|done].
  destruct (_ts_lock r) eqn:El; cbn; [|intros [= <- <- <-]; by apply row_lock_ok].
  case_decide; [by intros [= <- <- <-]|]. destruct (_lock_owner r) as [o|] eqn:Eo; [|done].
  case_match eqn:E; [|by intros [= <- <- <-]].
  apply andb_true_iff in E as [E1%Nat.ltb_lt E2%Z.ltb_lt].
  intros [= <- <- <-]. by eapply row_wait_ok.
Qed.

(** Under the invariant [write] does not fail an assertion: a locked row has an owner. *)
Lemma write_total txn r :
  WAW = true -> row_ok r -> exists rc ts r', write txn r = Ok (rc, ts, r').
Proof using.
  intros Hw Hok. unfold write. rewrite Hw. cbn. destruct policy.
  - case_match; eauto.
  - destruct (_ts_lock r) eqn:El; cbn; [|eauto]. case_decide; [eauto|].
    destruct (_lock_owner r) as [o|] eqn:Eo; [case_match; eauto|].
    pose proof (ok_owner r Hok) as Hl. rewrite El, Eo in Hl. symmetry in Hl. apply bool_decide_eq_true in Hl. by destruct Hl.
Qed.

Lemma tt_access_ok ty txn r rc ts r' :
  policy = TT_WAIT_DIE -> row_ok r -> access ty txn r = Ok (rc, ts, r') -> row_ok r'.
Proof using.
  intros Hp Hok. unfold access. destruct (_ || _)%bool; [by intros [= <- <- <-]|].
  case_decide; [|by intros [= <- <- <-]].
  destruct (write txn r) as [[[rc0 ts0] r0]|] eqn:E; cbn; [|done].
  intros [= <- <- <-]. by eapply write_ok.
Qed.

Lemma try_lock_ok txn r rc r' :
  policy = TT_WAIT_DIE -> row_ok r -> try_lock txn r = Ok (rc, r') -> row_ok r'.
Proof using.
  intros Hp Hok. unfold try_lock. rewrite Hp. destruct WAW; cbn; [done|].
  destruct (_ts_lock r) eqn:El; cbn.
  - destruct (_lock_owner r) as [o|] eqn:Eo; [|done].
    case_match eqn:E1; [by intros [= <- <-]|]. case_match eqn:E2; [|by intros [= <- <-]].
    apply Nat.leb_gt in E1. apply Z.ltb_lt in E2.
    intros [= <- <-]. by eapply row_wait_ok.
  - destruct (bool_decide _); cbn; [|done]. intros [= <- <-]. by apply row_lock_ok.
Qed.

Lemma commit_ok cts d r r' : row_ok r -> commit cts d r = Ok r' -> row_ok r'.
Proof using. intros Hok. unfold commit. intros H. res_inv. subst. by apply row_ts_ok. Qed.

Lemma try_renew_ok wts cts r : row_ok r -> row_ok (try_renew wts cts r).2.
Proof using.
  intros Hok. unfold try_renew. repeat case_match; cbn; try done. bool_to_Z.
  replace (set_ts (_wts r) cts r) with (set_data (tt_data r) (set_ts (_wts r) cts r)) by done.
  apply row_ts_ok; [done|]. pose proof (ok_lease r Hok). lia.
Qed.

Lemma hand_over_ok r next r' :
  row_ok r -> is_Some (_lock_owner r) -> hand_over r = Some (next, r') -> row_ok r'.
Proof using. intros Hok Ho E. pose proof (hand_over_spec r Hok Ho) as H. rewrite E in H. apply H. Qed.

Lemma hand_over_None r : row_ok r -> is_Some (_lock_owner r) -> hand_over r = None -> _waiting_set r = [].
Proof using. intros Hok Ho E. pose proof (hand_over_spec r Hok Ho) as H. by rewrite E in H. Qed.

Lemma release_ok txn rc r r' ms :
  policy = TT_WAIT_DIE -> row_ok r -> release txn rc r = Ok (r', ms) -> row_ok r'.
Proof using.
  intros Hp Hok. unfold release. rewrite Hp. destruct WAW; cbn.
  - case_decide as Ho; [|intros [= <- <-]; by apply row_erase_ok].
    destruct (_ts_lock r); cbn; [|done].
    destruct (hand_over r) as [[next r1]|] eqn:E; intros [= <- <-].
    + by eapply hand_over_ok; [|eexists|].
    + apply row_free_ok, hand_over_None; [done..|by eexists|done].
  - destruct (_ || _)%bool; cbn; [|done]. case_decide as Ho.
    + destruct (hand_over r) as [[next r1]|] eqn:E.
      * case_decide; intros [= <- <-]; [by eapply hand_over_ok; [|eexists|]|].
        apply (row_free_ok (set_waiting [] r)); [|done]. destruct Hok as [H1 H2 H3 H4 H5 H6].
        split; cbn; try done; try constructor; [|lia]. by intros u o ?%elem_of_nil.
      * intros [= <- <-]. apply row_free_ok, hand_over_None; [done..|by eexists|done].
    + destruct (bool_decide _); cbn; [|done]. intros [= <- <-]. by apply row_erase_ok.
Qed.

(** With the write lock taken at access time: who holds the row after
    [release], who is told, and that the transaction itself is gone. *)
Lemma release_waw txn rc r :
  WAW = true -> policy = TT_WAIT_DIE -> row_ok r ->
  exists r' ms, release txn rc r = Ok (r', ms) /\ row_ok r' /\
    _lock_owner r' <> Some txn /\ (txn ∉ _waiting_set r') /\
    ((_wts r', _rts r', tt_data r') = (_wts r, _rts r, tt_data r)) /\
    (_lock_owner r = Some txn -> forall u, u ∈ _waiting_set r ->
       (u ∈ _waiting_set r' /\ exists n, _lock_owner r' = Some n /\ ms = [(RCOK, n)] /\ prio u < prio n) \/
       (_lock_owner r' = Some u /\ ms = [(RCOK, u)])) /\
    (_lock_owner r <> Some txn -> _lock_owner r' = _lock_owner r /\ ms = []).
Proof using.
  intros Hwaw Hp Hok. destruct (release txn rc r) as [[r' ms]|] eqn:E;
    unfold release in E; rewrite Hwaw, Hp in E; cbn in E.
  - exists r', ms. case_decide as Ho.
    + destruct (_ts_lock r) eqn:El; cbn in E; [|done].
      assert (forall u, u ∈ _waiting_set r -> prio u < prio txn) as Hold
        by (intros u Hu; by eapply (ok_older r Hok)).
      pose proof (hand_over_spec r Hok (ex_intro _ txn Ho)) as Hh.
      destruct (hand_over r) as [[next r1]|] eqn:Eh.
      * injection E as <- <-. destruct Hh as (Hw & Ho' & Hok' & Hr').
        assert (prio next < prio txn) by (apply Hold; rewrite Hw; set_solver).
        split; [done|]. split; [done|]. split_and!; [| | |intros _|done].
        -- rewrite Ho'. intros [= ->]. lia.
        -- intros Hin. pose proof (Hold txn ltac:(rewrite Hw; set_solver)). lia.
        -- rewrite Hr'. done.
        -- intros u. rewrite Hw, elem_of_app, list_elem_of_singleton. intros [Hu| ->]; [left|by right].
           split; [done|]. exists next. split_and!; [done..|]. by eapply (ok_older r1).
      * injection E as <- <-. rewrite Hh. cbn.
        split; [done|]. split; [by apply row_free_ok|].
        split_and!; [done|cbn; rewrite Hh; apply not_elem_of_nil|done| |done].
        intros _ u. rewrite Hh. by intros Hu%elem_of_nil.
    + injection E as <- <-. split_and!; cbn; try done; [by apply row_erase_ok|].
      apply wait_erase_gone, Hok.
  - exfalso. case_decide as Ho; [|done]. pose proof (ok_owner r Hok) as Hl. rewrite Ho in Hl.
    rewrite bool_decide_eq_true_2 in Hl by (by eexists). rewrite Hl in E. cbn in E.
    destruct (hand_over r) as [[]|]; done.
Qed.
End Row.
