(* ===== verification/Tictoc.v ===== *)
(** * Tictoc: validation and completion of TicToc

    concurrency_control/tictoc.cpp, and what TicToc adds to [get_row], [commit]
    and [cleanup] of system/txn.cpp and to [row_t] of storage/row.cpp, over the
    rows of [RowTictoc].  The state is the rows and the transactions, both by
    name; an access points to its row by name and is pointed to by its position
    in [accesses], and so are the sets that [get_rw_set] builds.  A call of one
    of the functions is one step. *)

From stdpp Require Import base tactics numbers list gmap sorting relations.
From Stdlib Require Import ZArith Lia.
From S2P Require Import Prelude RowTictoc.
#[local] Open Scope Z_scope.
#[local] Open Scope u64_scope.

Record Access := mkAccess {
  acc_type : access_t;
  orig_row : Z;
  orig_wts : Z;
  orig_rts : Z;
  locked : bool;
  acc_data : Z
}.
Definition set_orig (w r : Z) (a : Access) : Access :=
  mkAccess (acc_type a) (orig_row a) w r (locked a) (acc_data a).
Definition set_locked (b : bool) (a : Access) : Access :=
  mkAccess (acc_type a) (orig_row a) (orig_wts a) (orig_rts a) b (acc_data a).
Definition set_type (ty : access_t) (row : Z) (a : Access) : Access :=
  mkAccess ty row (orig_wts a) (orig_rts a) (locked a) (acc_data a).

Record Txn := mkTxn {
  accesses : list Access;
  row_cnt : nat;
  write_cnt : nat;
  _min_commit_ts : Z;
  _num_lock_waits : Z;
  _signal_abort : bool
}.
Definition set_accesses (l : list Access) (t : Txn) : Txn :=
  mkTxn l (row_cnt t) (write_cnt t) (_min_commit_ts t) (_num_lock_waits t) (_signal_abort t).
Definition set_cts (c : Z) (t : Txn) : Txn :=
  mkTxn (accesses t) (row_cnt t) (write_cnt t) c (_num_lock_waits t) (_signal_abort t).
Definition set_waits (n : Z) (t : Txn) : Txn :=
  mkTxn (accesses t) (row_cnt t) (write_cnt t) (_min_commit_ts t) n (_signal_abort t).
Definition set_signal (t : Txn) : Txn :=
  mkTxn (accesses t) (row_cnt t) (write_cnt t) (_min_commit_ts t) (_num_lock_waits t) true.

(** [init] of the transaction manager; [max_cts] is [glob_manager.get_max_cts()]. *)
Definition txn_init (max_cts : Z) : Txn := mkTxn [] 0 0 max_cts 0 false.

Record State := mkState { rows : gmap Z Row_tictoc; txns : gmap Z Txn }.

(** A null row or an index past the array is a failure. *)
Definition some {A} (o : option A) : res A :=
  match o with Some a => Ok a | None => AssertFail end.

Definition set_row (k : Z) (r : Row_tictoc) (s : State) : State := mkState (<[k := r]> (rows s)) (txns s).
Definition set_txn (t : Z) (x : Txn) (s : State) : State := mkState (rows s) (<[t := x]> (txns s)).

Definition is_txn_ready (t : Txn) : bool := _num_lock_waits t =? 0.

Definition set_txn_ready (rc : RC) (t : Txn) : Txn :=
  if decide (rc = RCOK) then set_waits (wrap32 (_num_lock_waits t - 1)) t else set_signal t.

(** The calls of [set_txn_ready] that [release] makes. *)
Definition deliver (ms : list (RC * Z)) (ts : gmap Z Txn) : gmap Z Txn :=
  foldl (fun ts m => alter (set_txn_ready m.1) m.2 ts) ts ms.

(** The write set and the read set, as positions in [accesses]. *)
Definition get_rw_set (t : Txn) : res (list nat * list nat) :=
  assert! bool_decide (row_cnt t <= length (accesses t))%nat;
  let is_wr i := bool_decide (acc_type <$> accesses t !! i = Some WR) in
  let wset := filter is_wr (seq 0 (row_cnt t)) in
  let rset := filter (fun i => negb (is_wr i)) (seq 0 (row_cnt t)) in
  assert! bool_decide (length wset = write_cnt t);
  assert! bool_decide (length rset = row_cnt t - write_cnt t)%nat;
  Ok (wset, rset).

Definition commit_ts_step (cts : Z) (a : Access) : Z :=
  if decide (acc_type a = WR)
  then if cts <? orig_rts a ⊕ 1 then orig_rts a ⊕ 1 else cts
  else if cts <? orig_wts a then orig_wts a else cts.

Definition compute_commit_ts (t : Txn) : res Txn :=
  assert! bool_decide (row_cnt t <= length (accesses t))%nat;
  Ok (set_cts (foldl commit_ts_step (_min_commit_ts t) (take (row_cnt t) (accesses t))) t).

(** The loop of [validate_read_set] from a position of the read set on. *)
Fixpoint validate_read_set (rset : list nat) (cts : Z) (l : list Access) (rs : gmap Z Row_tictoc)
    : res (RC * list Access * gmap Z Row_tictoc) :=
  match rset with
  | [] => Ok (RCOK, l, rs)
  | i :: rset' =>
      a ← some (l !! i);
      if cts <=? orig_rts a then validate_read_set rset' cts l rs
      else
        r ← some (rs !! orig_row a);
        let '(ok, new_rts, r') := try_renew (orig_wts a) cts r in
        let l' := <[i := set_orig (orig_wts a) (default (orig_rts a) new_rts) a]> l in
        let rs' := <[orig_row a := r']> rs in
        if ok then validate_read_set rset' cts l' rs' else Ok (Abort, l', rs')
  end.

Definition validate_write_set (wset : list nat) (t : Txn) : res RC :=
  l ← mapM (fun i => some (accesses t !! i)) wset;
  Ok (if existsb (fun a => _min_commit_ts t <=? orig_rts a) l then Abort else RCOK).

Section Tictoc.
Context (WAW : bool) (policy : lock_policy) (_max_num_waits : nat) (prio : Z -> Z).

(** [release] on the row of one access of the write set. *)
Definition unlock_access (rc : RC) (t : Z) (i : nat) (s : State) : res State :=
  x ← some (txns s !! t);
  a ← some (accesses x !! i);
  if locked a then
    r ← some (rows s !! orig_row a);
    '(r', ms) ← release WAW policy prio t rc r;
    let ts := deliver ms (txns s) in
    Ok (mkState (<[orig_row a := r']> (rows s))
          (alter (fun x => set_accesses (alter (set_locked false) i (accesses x)) x) t ts))
  else Ok s.

Fixpoint unlock_write_set (rc : RC) (wset : list nat) (t : Z) (s : State) : res State :=
  match wset with
  | [] => Ok s
  | i :: wset' => s' ← unlock_access rc t i s; unlock_write_set rc wset' t s'
  end.

(** One turn of the loop of [lock_write_set], on the access and its row; the
    flag says that the transaction waits. *)
Definition lock_access (t : Z) (a : Access) (r : Row_tictoc) : res (RC * bool * Access * Row_tictoc) :=
  '(rc, r') ← try_lock WAW policy _max_num_waits prio t r;
  let a1 := if bool_decide (rc = WAIT) || bool_decide (rc = RCOK) then set_locked true a else a in
  let a2 := set_orig (orig_wts a1) (_rts r') a1 in
  Ok (if orig_wts a2 =? _wts r' then rc else Abort, bool_decide (rc = WAIT), a2, r').

Fixpoint lock_loop (rc : RC) (wset : list nat) (t : Z) (s : State) : res (RC * State) :=
  match wset with
  | [] => Ok (rc, s)
  | i :: wset' =>
      x ← some (txns s !! t);
      a ← some (accesses x !! i);
      r ← some (rows s !! orig_row a);
      '(rc', w, a', r') ← lock_access t a r;
      let x' := set_accesses (<[i := a']> (accesses x)) x in
      let x' := if (w : bool) then set_waits (wrap32 (_num_lock_waits x' + 1)) x' else x' in
      let s' := mkState (<[orig_row a := r']> (rows s)) (<[t := x']> (txns s)) in
      if decide (rc' = Abort) then Ok (Abort, s') else lock_loop rc' wset' t s'
  end.

Definition lock_write_set (wset : list nat) (t : Z) (s : State) : res (RC * State) :=
  assert! negb WAW;
  x ← some (txns s !! t);
  '(rc, s') ← lock_loop RCOK wset t (set_txn t (set_waits 0 x) s);
  x' ← some (txns s' !! t);
  Ok (if decide (rc = Abort) then Abort else if 0 <? _num_lock_waits x' then WAIT else rc, s').

(** [compute_commit_ts] and [validate_read_set] for the transaction [t]. *)
Definition compute (t : Z) (s : State) : res State :=
  x ← some (txns s !! t);
  x' ← compute_commit_ts x;
  Ok (set_txn t x' s).
Definition check_reads (rset : list nat) (t : Z) (s : State) : res (RC * State) :=
  x ← some (txns s !! t);
  '(rc, l, rs) ← validate_read_set rset (_min_commit_ts x) (accesses x) (rows s);
  Ok (rc, mkState rs (<[t := set_accesses l x]> (txns s))).

Definition validate_coor (t : Z) (s : State) : res (RC * State) :=
  x ← some (txns s !! t);
  '(wset, rset) ← get_rw_set x;
  s1 ← compute t s;
  '(rc, s2) ←
    (if WAW then check_reads rset t s1
     else
       '(rc, s2) ← lock_write_set wset t s1;
       if decide (rc = Abort) then Ok (rc, s2)
       else
         s3 ← compute t s2;
         '(rc2, s4) ← check_reads rset t s3;
         Ok (if decide (rc2 = Abort) then rc2 else rc, s4));
  if decide (rc = Abort)
  then s3 ← unlock_write_set rc wset t s2; Ok (rc, s3)
  else Ok (rc, s2).

Definition validate_part (t : Z) (s : State) : res (RC * State) :=
  x ← some (txns s !! t);
  '(wset, rset) ← get_rw_set x;
  '(rc, s2) ←
    (if WAW then check_reads rset t s
     else
       '(rc, s2) ← lock_write_set wset t s;
       if decide (rc = Abort) then Ok (rc, s2)
       else
         x2 ← some (txns s2 !! t);
         rc1 ← validate_write_set wset x2;
         if decide (rc1 = Abort) then Ok (Abort, s2)
         else
           '(rc2, s4) ← check_reads rset t s2;
           Ok (if decide (rc2 = Abort) then Abort else rc, s4));
  if decide (rc = Abort)
  then s3 ← unlock_write_set rc wset t s2; Ok (rc, s3)
  else Ok (rc, s2).

Definition validate (_is_sub_txn : bool) (t : Z) (s : State) : res (RC * State) :=
  if _is_sub_txn then validate_part t s else validate_coor t s.

Definition cleanup (rc : RC) (t : Z) (s : State) : res State :=
  x ← some (txns s !! t);
  '(wset, _) ← get_rw_set x;
  unlock_write_set rc wset t s.

(** [row_t::get_row] for TicToc: the result is always [RCOK], so that the
    branches of [TxnManager::get_row] for [Abort] and [WAIT] are dead. *)
Definition row_get_row (ty : access_t) (t : Z) (r : Row_tictoc)
    : res (Z * option (Z * Z) * Row_tictoc) :=
  '(rc, ts, r') ← access WAW policy _max_num_waits prio ty t r;
  assert! bool_decide (rc = RCOK);
  Ok (tt_data r', ts, r').

(** The end of [TxnManager::get_row] on the access it found or made. *)
Definition take_access (ty : access_t) (key : Z) (x : Txn) (a : Access) : Access * Z :=
  let rd := negb WAW || bool_decide (ty = RD) in
  (set_type ty key (set_locked (negb rd) a),
   if rd then _min_commit_ts x
   else if orig_rts a ⊕ 1 <? _min_commit_ts x then _min_commit_ts x else orig_rts a ⊕ 1).

(** [TxnManager::get_row] for TicToc; [fresh] is what the access of the pool
    holds in [orig_wts] and [orig_rts].  The data of the access is returned. *)
Definition get_row (key : Z) (ty : access_t) (fresh : Z * Z) (t : Z) (s : State) : res (Z * State) :=
  x ← some (txns s !! t);
  r ← some (rows s !! key);
  match list_find (fun a => orig_row a = key) (take (row_cnt x) (accesses x)) with
  | Some (i, a) =>
      let '(a', cts) := take_access ty key x (set_orig (_wts r) (_rts r) a) in
      Ok (acc_data a', set_txn t (set_cts cts (set_accesses (<[i := a']> (accesses x)) x)) s)
  | None =>
      '(d, ts, r') ← row_get_row ty t r;
      let '(w, rt) := default fresh ts in
      let x1 := if negb WAW || bool_decide (ty = RD)
                then set_cts (if w <? _min_commit_ts x then _min_commit_ts x else w) x else x in
      let '(a', cts) := take_access ty key x1 (mkAccess ty key w rt false d) in
      Ok (d, mkState (<[key := r']> (rows s))
               (<[t := mkTxn (accesses x1 ++ [a']) (S (row_cnt x1))
                         (if decide (ty = WR) then S (write_cnt x1) else write_cnt x1)
                         cts (_num_lock_waits x1) (_signal_abort x1)]> (txns s)))
  end.

(** [row_t::return_row] and the loop of [TxnManager::cleanup]. *)
Definition return_row (rc : RC) (cts : Z) (a : Access) (rs : gmap Z Row_tictoc)
    : res (gmap Z Row_tictoc) :=
  if decide (rc = Abort) then Ok rs
  else
    r ← some (rs !! orig_row a);
    r' ← RowTictoc.commit cts (acc_data a) r;
    Ok (<[orig_row a := r']> rs).
Fixpoint return_rows (rc : RC) (cts : Z) (l : list Access) (rs : gmap Z Row_tictoc)
    : res (gmap Z Row_tictoc) :=
  match l with
  | [] => Ok rs
  | a :: l' => rs' ← return_row rc cts a rs; return_rows rc cts l' rs'
  end.
Definition release_locks (rc : RC) (t : Z) (s : State) : res State :=
  x ← some (txns s !! t);
  assert! bool_decide (length (accesses x) = row_cnt x);
  rs ← return_rows rc (_min_commit_ts x) (reverse (accesses x)) (rows s);
  Ok (mkState rs (txns s)).

(** What [TxnManager::commit] and [TxnManager::abort] do for TicToc. *)
Definition commit (t : Z) (s : State) : res State :=
  s' ← release_locks RCOK t s; cleanup RCOK t s'.
Definition abort (t : Z) (s : State) : res State := release_locks Abort t s.
End Tictoc.

(** The transaction's own code writes into the row it was given. *)
Definition put (i : nat) (d : Z) (x : Txn) : Txn :=
  set_accesses (alter (fun a => mkAccess (acc_type a) (orig_row a) (orig_wts a) (orig_rts a) (locked a) d)
                  i (accesses x)) x.

(** ** Renewal *)

(** What validation may do to a row: extend its lease. *)
Definition row_renewed (r r' : Row_tictoc) : Prop :=
  exists rt, r' = set_ts (_wts r) rt r /\ _rts r <= rt.
Definition rows_renewed (rs rs' : gmap Z Row_tictoc) : Prop :=
  forall k, option_Forall2 row_renewed (rs !! k) (rs' !! k).

#[export] Instance row_renewed_preorder : PreOrder row_renewed.
Proof.
  split.
  - intros []. eexists. by split; [reflexivity|].
  - intros ? ? ? [rt [-> H1]] [rt' [-> H2]]. cbn in H2. exists rt'. split; [done|lia].
Qed.

#[export] Instance rows_renewed_preorder : PreOrder rows_renewed.
Proof.
  split.
  - intros rs k. destruct (rs !! k); constructor. reflexivity.
  - intros a b c H1 H2 k. specialize (H1 k). specialize (H2 k).
    destruct H1; inversion H2; constructor. by etrans.
Qed.

Lemma rows_renewed_insert rs k r r' :
  rs !! k = Some r -> row_renewed r r' -> rows_renewed rs (<[k := r']> rs).
Proof.
  intros Hk H j. destruct (decide (k = j)) as [->|].
  - rewrite Hk, lookup_insert_eq. by constructor.
  - rewrite lookup_insert_ne by done. destruct (rs !! j); constructor. reflexivity.
Qed.

Lemma try_renew_renewed wts cts r : row_renewed r (try_renew wts cts r).2.
Proof.
  unfold try_renew. repeat case_match; cbn; try reflexivity. bool_to_Z. exists cts. split; [done|lia].
Qed.

(** [try_renew] answers yes when the version is the one that was read and the
    lease reaches the commit timestamp. *)
Lemma try_renew_true wts cts r new r' :
  try_renew wts cts r = (true, new, r') ->
  _wts r' = wts /\
  ((_deleted r' = true /\ cts < _delete_timestamp r') \/
   exists n, new = Some n /\ cts <= n /\ n <= _rts r').
Proof.
  unfold try_renew. destruct (wts =? _wts r) eqn:Ew; cbn; [|done]. apply Z.eqb_eq in Ew as ->.
  destruct (_deleted r) eqn:Edel; [|destruct (_ts_lock r); [done|destruct (_rts r <? cts) eqn:Er]].
  - intros [= Hc <- <-]. bool_to_Z. split; [done|by left].
  - intros [= <- <-]. split; [done|]. right. eexists. cbn. split; [done|lia].
  - intros [= <- <-]. bool_to_Z. split; [done|]. right. eexists. split; [done|lia].
Qed.

(** The lease of a read covers the commit timestamp: it did so when the row was
    read, or the row granted it just now. *)
Definition covered (cts : Z) (a a' : Access) (rs : gmap Z Row_tictoc) : Prop :=
  cts <= orig_rts a \/
  exists r, rs !! orig_row a = Some r /\ _wts r = orig_wts a /\
    ((_deleted r = true /\ cts < _delete_timestamp r) \/
     (cts <= orig_rts a' /\ orig_rts a' <= _rts r)).

Lemma covered_renewed cts a a' rs rs' :
  rows_renewed rs rs' -> covered cts a a' rs -> covered cts a a' rs'.
Proof.
  intros H [Hc|(r & Hr & Hw & Hc)]; [by left|right].
  specialize (H (orig_row a)). rewrite Hr in H. inversion H as [? r' [rt [-> Hle]] Hr1 Hr2|]; subst.
  eexists. split; [by symmetry|]. split; [done|]. destruct Hc as [Hc|Hc]; [by left|right]. cbn. lia.
Qed.

(** An access before and after validation. *)
Definition same_access (a a' : Access) : Prop := exists rt, a' = set_orig (orig_wts a) rt a.

#[export] Instance same_access_preorder : PreOrder same_access.
Proof.
  split; [intros []; by eexists|]. intros a b c [? ->] [? ->]. by eexists.
Qed.

Lemma validate_read_set_spec rset cts l rs :
  NoDup rset ->
  (forall i, i ∈ rset -> exists a, l !! i = Some a /\ is_Some (rs !! orig_row a)) ->
  exists rc l' rs',
    validate_read_set rset cts l rs = Ok (rc, l', rs') /\ (rc = RCOK \/ rc = Abort) /\
    rows_renewed rs rs' /\ Forall2 same_access l l' /\
    (forall i, i ∉ rset -> l' !! i = l !! i) /\
    (rc = RCOK -> forall i a, i ∈ rset -> l !! i = Some a ->
       exists a', l' !! i = Some a' /\ covered cts a a' rs').
Proof.
  revert l rs. induction rset as [|i rset IH]; intros l rs Hnd Hall; cbn [validate_read_set].
  { exists RCOK, l, rs. split_and!; [done|by left|reflexivity|done..|]. by intros _ j a ?%elem_of_nil. }
  apply NoDup_cons in Hnd as [Hni Hnd].
  destruct (Hall i) as (a & Ha & [r Hr]); [set_solver|].
  rewrite Ha. cbn [some mbind res_bind]. destruct (cts <=? orig_rts a) eqn:Ec; bool_to_Z.
  - destruct (IH l rs Hnd) as (rc & l' & rs' & E & Hrc & Hrs & Hl & Hsame & Hcov);
      [intros; apply Hall; set_solver|].
    exists rc, l', rs'. split_and!; [done..| |].
    + intros j Hj. apply Hsame. set_solver.
    + intros Hok j b [->|Hj]%elem_of_cons Hb; [|by apply Hcov].
      exists b. rewrite Hsame by done. split; [done|]. left. congruence.
  - rewrite Hr. cbn [some mbind res_bind].
    destruct (try_renew (orig_wts a) cts r) as [[ok new] r'] eqn:Et.
    pose proof (try_renew_renewed (orig_wts a) cts r) as Hrr. rewrite Et in Hrr. cbn [snd] in Hrr.
    set (a1 := set_orig (orig_wts a) (default (orig_rts a) new) a).
    pose proof (rows_renewed_insert rs _ r r' Hr Hrr) as Hrs1.
    assert (Hl1 : Forall2 same_access l (<[i := a1]> l)).
    { apply Forall2_same_length_lookup_2; [by rewrite length_insert|]. intros j b b' Hb Hb'.
      destruct (decide (i = j)) as [<-|].
      - rewrite list_lookup_insert_eq in Hb' by (by eapply lookup_lt_Some).
        assert (b = a) as -> by congruence. assert (b' = a1) as -> by congruence. by eexists.
      - rewrite list_lookup_insert_ne in Hb' by done. assert (b' = b) as -> by congruence.
        destruct b. by eexists. }
    destruct ok; cbn [negb].
    + destruct (IH (<[i := a1]> l) (<[orig_row a := r']> rs) Hnd)
        as (rc & l' & rs' & E & Hrc & Hrs & Hl & Hsame & Hcov).
      { intros j Hj. destruct (Hall j) as (b & Hb & Hrow); [set_solver|]. exists b.
        rewrite list_lookup_insert_ne by set_solver. split; [done|].
        destruct (decide (orig_row a = orig_row b)) as [->|];
          [rewrite lookup_insert_eq|rewrite lookup_insert_ne by done]; [by eexists|done]. }
      exists rc, l', rs'. split_and!; [done|done|by etrans| | |].
      * by etrans.
      * intros j Hj. rewrite Hsame by set_solver. apply list_lookup_insert_ne. set_solver.
      * intros Hok j b [->|Hj]%elem_of_cons Hb.
        -- exists a1. rewrite Hsame by done. split; [apply list_lookup_insert_eq; by eapply lookup_lt_Some|].
           assert (b = a) as -> by congruence. eapply covered_renewed; [exact Hrs|].
           apply try_renew_true in Et as [Hw Hc]. right. exists r'. rewrite lookup_insert_eq.
           split; [done|]. split; [done|]. destruct Hc as [Hc|(n & -> & Hc)]; [by left|by right].
        -- apply Hcov; [done..|]. by rewrite list_lookup_insert_ne by set_solver.
    + eexists Abort, _, _. split_and!; [done|by right|done|done| |done].
      intros j Hj. apply list_lookup_insert_ne. set_solver.
Qed.

(** ** Counting the sets *)

Definition is_write (a : Access) : bool := bool_decide (acc_type a = WR).

(** A transaction whose counters agree with its accesses, each on a row of the
    table. *)
Record txn_wf (s : State) (x : Txn) : Prop := {
  wf_rows : row_cnt x = length (accesses x);
  wf_writes : write_cnt x = length (filter is_write (accesses x));
  wf_exist a : a ∈ accesses x -> is_Some (rows s !! orig_row a);
}.

Lemma length_filter_positions {A} (p : A -> bool) (l : list A) (q : nat -> bool) n :
  (forall i a, l !! i = Some a -> q (n + i)%nat = p a) ->
  length (filter q (seq n (length l))) = length (filter p l).
Proof.
  revert n. induction l as [|a l IH]; intros n H; cbn [length seq]; [done|].
  rewrite !filter_cons. assert (q n = p a) as E by (rewrite <-(H 0%nat a) by done; f_equal; lia).
  rewrite E. assert (length (filter q (seq (S n) (length l))) = length (filter p l)) as IH'.
  { apply IH. intros i b Hb. rewrite <-(H (S i) b) by done. f_equal. lia. }
  case_decide; cbn; lia.
Qed.

Lemma length_filter_negb {A} (p : A -> bool) (l : list A) :
  (length (filter p l) + length (filter (fun a => negb (p a)) l) = length l)%nat.
Proof.
  induction l as [|a l IH]; [done|]. rewrite !filter_cons. destruct (p a); cbn; repeat case_decide; try done; cbn; lia.
Qed.

(** [get_rw_set] splits the positions of the accesses by their type. *)
Lemma tt_rw_set_spec s x :
  txn_wf s x ->
  exists wset rset, get_rw_set x = Ok (wset, rset) /\ NoDup wset /\ NoDup rset /\
    (forall i, i ∈ wset <-> exists a, accesses x !! i = Some a /\ acc_type a = WR) /\
    (forall i, i ∈ rset <-> exists a, accesses x !! i = Some a /\ acc_type a <> WR).
Proof.
  intros [H1 H2 H3]. unfold get_rw_set.
  rewrite (bool_decide_eq_true_2 (row_cnt x <= length (accesses x))%nat) by lia.
  cbn [assert_ mbind res_bind].
  set (q := fun i => bool_decide (acc_type <$> accesses x !! i = Some WR)).
  assert (length (filter q (seq 0 (row_cnt x))) = write_cnt x) as E1.
  { rewrite H1, H2. apply length_filter_positions. intros i a Ha. unfold q, is_write. cbn.
    rewrite Ha. cbn. apply bool_decide_ext. split; [by intros [= ->]|by intros ->]. }
  pose proof (length_filter_negb q (seq 0 (row_cnt x))) as E2. rewrite length_seq in E2.
  assert (length (filter (fun i => negb (q i)) (seq 0 (row_cnt x))) = row_cnt x - write_cnt x)%nat as E3 by lia.
  rewrite (bool_decide_eq_true_2 (length (filter q (seq 0 (row_cnt x))) = write_cnt x)) by done.
  cbn [assert_ mbind res_bind]. rewrite (bool_decide_eq_true_2 (_ = row_cnt x - write_cnt x)%nat) by exact E3. cbn [assert_ mbind res_bind].
  eexists _, _. split; [done|]. split_and!; [apply NoDup_filter, NoDup_seq..| |];
    intros i; rewrite list_elem_of_filter, elem_of_seq; unfold q; split.
  - intros [E%bool_decide_unpack Hi]. destruct (accesses x !! i) as [a|]; naive_solver.
  - intros (a & Ha & Ht). split; [apply bool_decide_pack; by rewrite Ha; cbn; rewrite Ht|].
    apply lookup_lt_Some in Ha. lia.
  - intros [E Hi]. destruct (lookup_lt_is_Some_2 (accesses x) i) as [a Ha]; [lia|].
    exists a. split; [done|]. intros Ht. rewrite Ha in E. cbn in E. by rewrite Ht in E.
  - intros (a & Ha & Ht). split; [|apply lookup_lt_Some in Ha; lia].
    rewrite Ha. cbn. rewrite bool_decide_eq_false_2 by congruence. done.
Qed.

(** ** The commit timestamp *)

Lemma commit_ts_step_ge cts a : cts <= commit_ts_step cts a.
Proof. unfold commit_ts_step. repeat case_match; bool_to_Z; lia. Qed.

Lemma commit_ts_step_spec cts a :
  (acc_type a <> WR -> orig_wts a <= commit_ts_step cts a) /\
  (acc_type a = WR -> 0 <= orig_rts a < UINT64_MAX -> orig_rts a < commit_ts_step cts a).
Proof.
  unfold commit_ts_step, UINT64_MAX, wrap64. split; intros Ht.
  - rewrite decide_False by done. case_match; bool_to_Z; lia.
  - rewrite decide_True by done. intros Hu. rewrite Z.mod_small by lia. case_match; bool_to_Z; lia.
Qed.

Lemma commit_ts_ge l cts : cts <= foldl commit_ts_step cts l.
Proof.
  revert cts. induction l as [|a l IH]; intros cts; cbn; [lia|].
  etrans; [apply (commit_ts_step_ge cts a)|apply IH].
Qed.

(** The commit timestamp is not before a version that was read, and after the
    lease of every version that will be replaced. *)
Lemma commit_ts_spec l cts a :
  a ∈ l ->
  (acc_type a <> WR -> orig_wts a <= foldl commit_ts_step cts l) /\
  (acc_type a = WR -> 0 <= orig_rts a < UINT64_MAX -> orig_rts a < foldl commit_ts_step cts l).
Proof.
  revert cts. induction l as [|b l IH]; intros cts; [by intros ?%elem_of_nil|].
  intros [->|Hin]%elem_of_cons; [|by apply IH]. cbn [foldl].
  pose proof (commit_ts_ge l (commit_ts_step cts b)) as Hge.
  destruct (commit_ts_step_spec cts b) as [H1 H2]. split.
  - intros Ht. specialize (H1 Ht). lia.
  - intros Ht Hu. specialize (H2 Ht Hu). lia.
Qed.

(** ** Unlocking *)

Section Spec.
Context (mw : nat) (prio : Z -> Z).
#[local] Abbreviation ok := (row_ok mw prio).
#[local] Abbreviation unlock1 := (unlock_access true TT_WAIT_DIE prio).
#[local] Abbreviation unlock := (unlock_write_set true TT_WAIT_DIE prio).

Definition db_ok (s : State) : Prop := map_Forall (fun _ r => ok r) (rows s).

(** [t] neither holds the row [k] nor waits for it. *)
Definition free_of (t k : Z) (s : State) : Prop :=
  forall r, rows s !! k = Some r -> _lock_owner r <> Some t /\ (t ∉ _waiting_set r).

(** The versions of the rows, their leases and their data. *)
Definition content (r : Row_tictoc) : Z * Z * Z * bool * Z :=
  (_wts r, _rts r, tt_data r, _deleted r, _delete_timestamp r).
Definition same_content (rs rs' : gmap Z Row_tictoc) : Prop := content <$> rs = content <$> rs'.

Lemma same_content_insert rs k r r' :
  rs !! k = Some r -> content r' = content r -> same_content rs (<[k := r']> rs).
Proof using.
  intros Hk E. unfold same_content. rewrite fmap_insert, E. symmetry. apply insert_id.
  rewrite lookup_fmap, Hk. done.
Qed.

Lemma same_content_lookup rs rs' k r :
  same_content rs rs' -> rs !! k = Some r ->
  exists r', rs' !! k = Some r' /\ content r' = content r.
Proof using.
  intros E Hk. assert ((content <$> rs') !! k = Some (content r)) as H
    by (rewrite <-E, lookup_fmap, Hk; done).
  rewrite lookup_fmap in H. destruct (rs' !! k) as [r'|]; [|done]. exists r'. split; [done|].
  by apply (inj Some) in H.
Qed.

Lemma set_txn_ready_accesses rc x : accesses (set_txn_ready rc x) = accesses x.
Proof using. unfold set_txn_ready. by case_decide. Qed.

Lemma deliver_accesses ms ts t : accesses <$> (deliver ms ts !! t) = accesses <$> (ts !! t).
Proof using.
  unfold deliver. revert ts. induction ms as [|[rc u] ms IH]; intros ts; cbn [foldl]; [done|].
  rewrite IH. cbn. destruct (decide (u = t)) as [->|].
  - rewrite lookup_alter_eq. destruct (ts !! t); cbn; [|done]. by rewrite set_txn_ready_accesses.
  - by rewrite lookup_alter_ne.
Qed.

Lemma release_content txn rc r r' ms :
  release true TT_WAIT_DIE prio txn rc r = Ok (r', ms) -> content r' = content r.
Proof using.
  unfold release, hand_over. cbn. case_decide; [|by intros [= <- <-]].
  destruct (_ts_lock r); cbn; [|done]. destruct (last (_waiting_set r)); cbn; by intros [= <- <-].
Qed.

(** The transaction whose accesses are [l] at [t], all on rows of the table. *)
Definition holds (t : Z) (l : list Access) (s : State) : Prop :=
  (exists x, txns s !! t = Some x /\ accesses x = l) /\
  forall a, a ∈ l -> is_Some (rows s !! orig_row a).

Lemma alter_fixed {A} (f : A -> A) (i : nat) (l : list A) a : l !! i = Some a -> f a = a -> alter f i l = l.
Proof using.
  intros Ha Hf. apply list_eq. intros j. destruct (decide (i = j)) as [<-|].
  - by rewrite list_lookup_alter_eq, Ha; cbn; rewrite Hf.
  - by rewrite list_lookup_alter_ne.
Qed.

Lemma unlock_access_spec rc t i l s :
  holds t l s -> db_ok s -> (i < length l)%nat ->
  exists s', unlock1 rc t i s = Ok s' /\ db_ok s' /\ holds t (alter (set_locked false) i l) s' /\
    same_content (rows s) (rows s') /\ (forall k, free_of t k s -> free_of t k s') /\
    (forall a, l !! i = Some a -> locked a = true -> free_of t (orig_row a) s').
Proof using.
  intros [(x & Hx & <-) Hrows] Hdb Hi.
  apply lookup_lt_is_Some_2 in Hi as [a Ha]. unfold unlock_access. rewrite Hx. cbn [some mbind res_bind].
  rewrite Ha. cbn [some mbind res_bind].
  assert (forall b, b ∈ alter (set_locked false) i (accesses x) -> exists c, c ∈ accesses x /\ orig_row c = orig_row b)
    as Halter.
  { intros b [j Hj]%list_elem_of_lookup. destruct (decide (i = j)) as [<-|].
    - rewrite list_lookup_alter_eq, Ha in Hj. injection Hj as <-. exists a.
      split; [by eapply list_elem_of_lookup_2|done].
    - rewrite list_lookup_alter_ne in Hj by done. exists b. split; [by eapply list_elem_of_lookup_2|done]. }
  destruct (locked a) eqn:El.
  - destruct (Hrows a) as [r Hr]; [by eapply list_elem_of_lookup_2|]. rewrite Hr. cbn [some mbind res_bind].
    destruct (release_waw true TT_WAIT_DIE mw prio t rc r eq_refl eq_refl (Hdb _ _ Hr))
      as (r' & ms & E & Hok & Hown & Hwait & Hsame & _).
    pose proof (release_content _ _ _ _ _ E) as Hc. rewrite E. cbn [mbind res_bind].
    eexists. split; [reflexivity|]. split_and!.
    + apply map_Forall_insert_2; done.
    + split; cbn.
      * pose proof (deliver_accesses ms (txns s) t) as Hd. rewrite Hx in Hd. cbn in Hd.
        destruct (deliver ms (txns s) !! t) as [y|] eqn:Ey; [|done]. injection Hd as Hd.
        eexists. rewrite lookup_alter_eq, Ey. split; [reflexivity|]. cbn. by rewrite Hd.
      * intros b (c & Hc' & <-)%Halter. destruct (decide (orig_row a = orig_row c)) as [->|];
          [rewrite lookup_insert_eq; by eexists|rewrite lookup_insert_ne by done; by apply Hrows].
    + by eapply same_content_insert.
    + intros k Hk r1. cbn. destruct (decide (orig_row a = k)) as [<-|];
        [rewrite lookup_insert_eq; by intros [= <-]|rewrite lookup_insert_ne by done; apply Hk].
    + intros b Hb Hl r1. cbn. assert (b = a) as -> by congruence. rewrite lookup_insert_eq. by intros [= <-].
  - exists s. split; [done|]. split_and!; [done| |done|done|].
    + rewrite (alter_fixed _ _ _ a Ha) by (destruct a; cbn in *; by subst). by split; [exists x|].
    + intros b Hb Hl. congruence.
Qed.

Lemma unlock_spec rc wset t l s :
  holds t l s -> db_ok s -> (forall i, i ∈ wset -> (i < length l)%nat) ->
  exists s', unlock rc wset t s = Ok s' /\ db_ok s' /\
    same_content (rows s) (rows s') /\ (forall k, free_of t k s -> free_of t k s') /\
    (forall i a, i ∈ wset -> l !! i = Some a -> locked a = true -> free_of t (orig_row a) s').
Proof using.
  revert l s. induction wset as [|i wset IH]; intros l s Hh Hdb Hw; cbn [unlock_write_set].
  { exists s. split_and!; try done. by intros i a ?%elem_of_nil. }
  destruct (unlock_access_spec rc t i l s) as (s1 & E1 & Hdb1 & Hh1 & Hc1 & Hk1 & Hf1);
    [done..|apply Hw; set_solver|].
  rewrite E1. cbn [mbind res_bind].
  destruct (IH _ s1 Hh1 Hdb1) as (s' & E & Hdb' & Hc & Hk & Hf).
  { intros j Hj. rewrite length_alter. apply Hw. set_solver. }
  exists s'. split; [done|]. split_and!; [done| |auto|].
  - unfold same_content in *. congruence.
  - intros j a [->|Hj]%elem_of_cons Ha Hl; [by apply Hk, (Hf1 a)|].
    destruct (decide (i = j)) as [->|]; [by apply Hk, (Hf1 a)|].
    apply (Hf j); [done| |done]. by rewrite list_lookup_alter_ne.
Qed.

(** ** Validation *)

Lemma rows_renewed_ok rs rs' :
  rows_renewed rs rs' -> map_Forall (fun _ r => ok r) rs -> map_Forall (fun _ r => ok r) rs'.
Proof using.
  intros H Hok k r' Hr'. specialize (H k). rewrite Hr' in H. inversion H as [r ? [rt [-> Hle]] Hr|]; subst.
  specialize (Hok k r (eq_sym Hr)). pose proof (ok_lease _ _ _ Hok) as Hl.
  replace (set_ts (_wts r) rt r) with (set_data (tt_data r) (set_ts (_wts r) rt r)) by done.
  apply row_ts_ok; [done|lia].
Qed.

Lemma rows_renewed_exist rs rs' k : rows_renewed rs rs' -> is_Some (rs !! k) -> is_Some (rs' !! k).
Proof using. intros H [r Hr]. specialize (H k). rewrite Hr in H. inversion H; subst. by eexists. Qed.

(** What the last part of [validate_coor] and [validate_part] does. *)
Definition check_and_unlock (wset rset : list nat) (t : Z) (s : State) : res (RC * State) :=
  '(rc, s2) ← check_reads rset t s;
  if decide (rc = Abort)
  then s3 ← unlock rc wset t s2; Ok (rc, s3)
  else Ok (rc, s2).

(** Validation at a commit timestamp either answers yes, has extended leases and
    nothing else, and covers every read; or it answers no and the transaction
    has let go of every row it had locked. *)
Definition validated (t : Z) (x : Txn) (cts : Z) (rc : RC) (s s' : State) : Prop :=
  (rc = RCOK /\ rows_renewed (rows s) (rows s') /\
   exists x', txns s' = <[t := x']> (txns s) /\ _min_commit_ts x' = cts /\
     Forall2 same_access (accesses x) (accesses x') /\
     forall i a a', accesses x !! i = Some a -> accesses x' !! i = Some a' ->
       (acc_type a = WR -> a' = a) /\ (acc_type a <> WR -> covered cts a a' (rows s'))) \/
  (rc = Abort /\ (exists rs, rows_renewed (rows s) rs /\ same_content rs (rows s')) /\
   forall a, a ∈ accesses x -> acc_type a = WR -> locked a = true -> free_of t (orig_row a) s').

Lemma check_and_unlock_spec wset rset t x s :
  txns s !! t = Some x -> txn_wf s x -> db_ok s -> get_rw_set x = Ok (wset, rset) ->
  exists rc s', check_and_unlock wset rset t s = Ok (rc, s') /\ db_ok s' /\
    validated t x (_min_commit_ts x) rc s s'.
Proof using.
  intros Hx Hwf Hdb Eg. destruct (tt_rw_set_spec s x Hwf) as (w & r & Eg' & Hndw & Hndr & Hw & Hr).
  assert (w = wset /\ r = rset) as [-> ->] by (rewrite Eg in Eg'; by injection Eg').
  unfold check_and_unlock, check_reads. rewrite Hx. cbn [some mbind res_bind].
  destruct (validate_read_set_spec rset (_min_commit_ts x) (accesses x) (rows s) Hndr)
    as (rc & l & rs & E & Hrc & Hrs & Hl & Hkeep & Hcov).
  { intros i (a & Ha & _)%Hr. exists a. split; [done|].
    apply (wf_exist _ _ Hwf). by eapply list_elem_of_lookup_2. }
  rewrite E. cbn [mbind res_bind]. pose proof (rows_renewed_ok _ _ Hrs Hdb) as Hok.
  destruct Hrc as [-> | ->]; cbn [decide].
  - rewrite decide_False by done. eexists RCOK, _. split; [reflexivity|]. split; [exact Hok|]. left.
    split; [done|]. split; [done|]. eexists. split; [reflexivity|]. split; [done|]. split; [done|].
    cbn. intros i a a' Ha Ha'. split; intros Ht.
    + rewrite Hkeep in Ha'; [congruence|]. intros (b & Hb & Hb')%Hr. congruence.
    + destruct (Hcov eq_refl i a) as (b & Hb & Hc); [apply Hr; by exists a|done|].
      by assert (b = a') as -> by congruence.
  - rewrite decide_True by done.
    destruct (unlock_spec Abort wset t l (mkState rs (<[t := set_accesses l x]> (txns s))))
      as (s' & E' & Hdb' & Hc & _ & Hf).
    + split; [eexists; cbn; rewrite lookup_insert_eq; by split|]. cbn.
      intros a' [i Ha']%list_elem_of_lookup.
      destruct (Forall2_lookup_r _ _ _ _ _ Hl Ha') as (a & Ha & rt & ->). cbn.
      eapply rows_renewed_exist; [exact Hrs|]. apply (wf_exist _ _ Hwf). by eapply list_elem_of_lookup_2.
    + exact Hok.
    + intros i (a & Ha & _)%Hw. rewrite <-(Forall2_length _ _ _ Hl). by eapply lookup_lt_Some.
    + rewrite E'. cbn [mbind res_bind]. exists Abort, s'. split; [done|]. split; [done|]. right.
      split; [done|]. split; [by exists rs|]. intros a [i Ha]%list_elem_of_lookup Ht Hlk.
      apply (Hf i a); [apply Hw; by exists a| |done].
      rewrite Hkeep; [done|]. intros (b & Hb & Hb')%Hr. congruence.
Qed.


(** ** Completion *)

Lemma return_rows_spec cts l rs :
  NoDup (orig_row <$> l) ->
  (forall a, a ∈ l -> exists r, rs !! orig_row a = Some r /\ _deleted r = false) ->
  map_Forall (fun _ r => ok r) rs ->
  exists rs', return_rows RCOK cts l rs = Ok rs' /\ map_Forall (fun _ r => ok r) rs' /\
    (forall k, k ∉ orig_row <$> l -> rs' !! k = rs !! k) /\
    (forall a, a ∈ l -> exists r, rs !! orig_row a = Some r /\
       rs' !! orig_row a = Some (set_data (acc_data a) (set_ts cts cts r))).
Proof using.
  revert rs. induction l as [|a l IH]; intros rs Hnd Hex Hok; cbn [return_rows].
  { exists rs. split_and!; try done. by intros a ?%elem_of_nil. }
  rewrite fmap_cons in Hnd. apply NoDup_cons in Hnd as [Hna Hnd].
  destruct (Hex a) as (r & Hr & Hdel); [set_solver|].
  unfold return_row. rewrite decide_False by done. rewrite Hr. cbn [some mbind res_bind].
  unfold RowTictoc.commit. rewrite Hdel. cbn [negb orb assert_ mbind res_bind].
  destruct (IH (<[orig_row a := set_data (acc_data a) (set_ts cts cts r)]> rs) Hnd)
    as (rs' & E & Hok' & Hrest & Hall).
  { intros b Hb. rewrite lookup_insert_ne; [apply Hex; set_solver|].
    intros Heq. apply Hna. rewrite Heq. by apply list_elem_of_fmap_2. }
  { apply map_Forall_insert_2; [|done]. apply row_ts_ok; [by apply (Hok (orig_row a))|lia]. }
  exists rs'. split_and!; [done|done| |].
  - intros k. rewrite fmap_cons, not_elem_of_cons. intros [Hk1 Hk2].
    rewrite Hrest by done. by rewrite lookup_insert_ne.
  - intros b [->|Hb]%elem_of_cons.
    + exists r. split; [done|]. rewrite Hrest by done. by rewrite lookup_insert_eq.
    + destruct (Hall b Hb) as (r' & Hr' & E'). rewrite lookup_insert_ne in Hr'; [by exists r'|].
      intros Heq. apply Hna. rewrite Heq. by apply list_elem_of_fmap_2.
Qed.

(** [commit] of a transaction on distinct rows always completes: each row
    it accessed, the ones it only read included, then holds the transaction's
    copy as a version whose lease is the commit timestamp alone; no other row
    has changed; and the transaction holds none of the rows it had locked and
    waits for none. *)
Theorem tictoc_commit_installs t x s :
  txns s !! t = Some x -> txn_wf s x -> db_ok s ->
  NoDup (orig_row <$> accesses x) -> map_Forall (fun _ r => _deleted r = false) (rows s) ->
  exists s', commit true TT_WAIT_DIE prio t s = Ok s' /\ db_ok s' /\
    (forall a, a ∈ accesses x -> exists r', rows s' !! orig_row a = Some r' /\
       (_wts r' = _min_commit_ts x) /\ (_rts r' = _min_commit_ts x) /\ (tt_data r' = acc_data a)) /\
    (forall k, k ∉ orig_row <$> accesses x ->
       content <$> rows s' !! k = content <$> rows s !! k) /\
    (forall a, a ∈ accesses x -> acc_type a = WR -> locked a = true -> free_of t (orig_row a) s').
Proof using.
  intros Hx Hwf Hdb Hnd Hlive.
  destruct (tt_rw_set_spec s x Hwf) as (wset & rset & Eg & _ & _ & Hw & _).
  destruct (return_rows_spec (_min_commit_ts x) (reverse (accesses x)) (rows s)) as (rs & E & Hok & Hrest & Hall).
  { rewrite fmap_reverse. by rewrite reverse_Permutation. }
  { intros a Ha. rewrite elem_of_reverse in Ha. destruct (wf_exist _ _ Hwf a Ha) as [r Hr]. exists r.
    split; [done|]. by eapply Hlive. }
  { exact Hdb. }
  destruct (unlock_spec RCOK wset t (accesses x) (mkState rs (txns s))) as (s' & E' & Hdb' & Hc & _ & Hf).
  { split; [by exists x|]. intros a Ha. destruct (Hall a) as (r & _ & Hr); [by rewrite elem_of_reverse|].
    cbn. by rewrite Hr. }
  { exact Hok. }
  { intros i (a & Ha & _)%Hw. by eapply lookup_lt_Some. }
  exists s'. split.
  { unfold commit, release_locks, cleanup. rewrite Hx. cbn [some mbind res_bind].
    rewrite bool_decide_eq_true_2 by (by rewrite (wf_rows _ _ Hwf)). cbn [assert_ mbind res_bind].
    rewrite E. cbn [mbind res_bind txns]. rewrite Hx. cbn [some mbind res_bind]. rewrite Eg. exact E'. }
  split; [done|]. split_and!.
  - intros a Ha. destruct (Hall a) as (r & _ & Hr); [by rewrite elem_of_reverse|].
    destruct (same_content_lookup rs _ _ _ Hc Hr) as (r' & Hr' & Heq). injection Heq as ?????.
    by exists r'.
  - intros k Hk. rewrite <-(Hrest k) by (by rewrite fmap_reverse, elem_of_reverse).
    unfold same_content in Hc. cbn in Hc. by rewrite <-!lookup_fmap, Hc.
  - intros a [i Ha]%list_elem_of_lookup Ht Hl. apply (Hf i a); [apply Hw; by exists a|done..].
Qed.

(** ** Runs *)

(** The steps of the transactions of a node.  A row appears when it is inserted
    into its table, and a transaction begins with a new manager. *)
Inductive tt_step : State -> State -> Prop :=
| step_row k d s : rows s !! k = None -> tt_step s (set_row k (tt_init d) s)
| step_begin t c s : tt_step s (set_txn t (txn_init c) s)
| step_get_row k ty fresh t s d s' :
    get_row true TT_WAIT_DIE mw prio k ty fresh t s = Ok (d, s') -> tt_step s s'
| step_put t x i d s : txns s !! t = Some x -> tt_step s (set_txn t (put i d x) s)
| step_bound t x c s : txns s !! t = Some x -> tt_step s (set_txn t (set_cts c x) s)
| step_validate sub t s rc s' : validate true TT_WAIT_DIE mw prio sub t s = Ok (rc, s') -> tt_step s s'
| step_commit t s s' : commit true TT_WAIT_DIE prio t s = Ok s' -> tt_step s s'
| step_abort t s s' : abort t s = Ok s' -> tt_step s s'.

Lemma unlock_db_ok rc wset t s s' : db_ok s -> unlock rc wset t s = Ok s' -> db_ok s'.
Proof using.
  revert s. induction wset as [|i wset IH]; intros s Hdb; cbn [unlock_write_set]; [by intros [= <-]|].
  destruct (unlock1 rc t i s) as [s1|] eqn:E; cbn [mbind res_bind]; [|done]. apply IH.
  unfold unlock_access in E. destruct (txns s !! t) as [x|]; cbn [some mbind res_bind] in E; [|done].
  destruct (accesses x !! i) as [a|]; cbn [some mbind res_bind] in E; [|done].
  destruct (locked a); [|by injection E as <-].
  destruct (rows s !! orig_row a) as [r|] eqn:Er; cbn [some mbind res_bind] in E; [|done].
  destruct (release true TT_WAIT_DIE prio t rc r) as [[r' ms]|] eqn:Erel; cbn [some mbind res_bind] in E; [|done].
  injection E as <-. apply map_Forall_insert_2; [|exact Hdb].
  eapply release_ok; [done|by eapply Hdb|exact Erel].
Qed.

Lemma validate_read_set_renewed rset cts l rs rc l' rs' :
  validate_read_set rset cts l rs = Ok (rc, l', rs') -> rows_renewed rs rs'.
Proof using.
  revert l rs. induction rset as [|i rset IH]; intros l rs; cbn [validate_read_set];
    [by intros [= <- <- <-]|].
  destruct (l !! i) as [a|]; cbn; [|done]. destruct (cts <=? orig_rts a); [by apply IH|].
  destruct (rs !! orig_row a) as [r|] eqn:Er; cbn; [|done].
  destruct (try_renew (orig_wts a) cts r) as [[okb new] r'] eqn:Et.
  pose proof (try_renew_renewed (orig_wts a) cts r) as Hrr. rewrite Et in Hrr. cbn in Hrr.
  pose proof (rows_renewed_insert _ _ _ _ Er Hrr) as H1.
  destruct okb; [intros ?%IH; by etrans|by intros [= <- <- <-]].
Qed.

Lemma check_and_unlock_db_ok wset rset t s rc s' :
  db_ok s -> check_and_unlock wset rset t s = Ok (rc, s') -> db_ok s'.
Proof using.
  intros Hdb. unfold check_and_unlock, check_reads.
  destruct (txns s !! t) as [x|]; cbn [some mbind res_bind]; [|done].
  destruct (validate_read_set _ _ _ _) as [[[rc1 l] rs]|] eqn:E; cbn [mbind res_bind]; [|done].
  assert (db_ok (mkState rs (<[t:=set_accesses l x]> (txns s)))) as Hdb1
    by (eapply rows_renewed_ok; [by eapply validate_read_set_renewed|exact Hdb]).
  case_decide; [|by intros [= <- <-]].
  destruct (unlock rc1 wset t _) as [s2|] eqn:E2; cbn [mbind res_bind]; [|done].
  intros [= <- <-]. by eapply unlock_db_ok.
Qed.

Lemma get_row_db_ok k ty fresh t s d s' :
  db_ok s -> get_row true TT_WAIT_DIE mw prio k ty fresh t s = Ok (d, s') -> db_ok s'.
Proof using.
  intros Hdb. unfold get_row. destruct (txns s !! t) as [x|]; cbn [some mbind res_bind]; [|done].
  destruct (rows s !! k) as [r|] eqn:Er; cbn [some mbind res_bind]; [|done].
  destruct (list_find _ _) as [[i a]|].
  - destruct (take_access _ _ _ _ _) as [a' c]. by intros [= <- <-].
  - unfold row_get_row. destruct (access _ _ _ _ _ _ _) as [[[rc ts] r']|] eqn:Ea; cbn [mbind res_bind]; [|done].
    destruct (bool_decide (rc = RCOK)); cbn [assert_ mbind res_bind]; [|done].
    destruct (default fresh ts) as [w rt]. destruct (take_access _ _ _ _ _) as [a' c].
    intros [= <- <-]. apply map_Forall_insert_2; [|exact Hdb].
    eapply tt_access_ok; [done|by eapply Hdb|exact Ea].
Qed.

Lemma return_rows_ok rc cts l rs rs' :
  map_Forall (fun _ r => ok r) rs -> return_rows rc cts l rs = Ok rs' -> map_Forall (fun _ r => ok r) rs'.
Proof using.
  revert rs. induction l as [|a l IH]; intros rs Hok; cbn [return_rows]; [by intros [= <-]|].
  unfold return_row. case_decide; cbn [mbind res_bind]; [by apply IH|].
  destruct (rs !! orig_row a) as [r|] eqn:Er; cbn [some mbind res_bind]; [|done].
  destruct (RowTictoc.commit cts (acc_data a) r) as [r'|] eqn:Ec; cbn [mbind res_bind]; [|done].
  apply IH. apply map_Forall_insert_2; [|exact Hok]. eapply commit_ok; [by eapply Hok|exact Ec].
Qed.

Lemma release_locks_db_ok rc t s s' : db_ok s -> release_locks rc t s = Ok s' -> db_ok s'.
Proof using.
  intros Hdb. unfold release_locks. destruct (txns s !! t) as [x|]; cbn [some mbind res_bind]; [|done].
  destruct (bool_decide _); cbn [assert_ mbind res_bind]; [|done].
  destruct (return_rows _ _ _ _) as [rs|] eqn:E; cbn [mbind res_bind]; [|done].
  intros [= <-]. by eapply return_rows_ok.
Qed.

Lemma tt_step_ok s s' : db_ok s -> tt_step s s' -> db_ok s'.
Proof using.
  intros Hdb St. destruct St as [k d s Hk|t c s|k ty fresh t s d s' E|t x i d s Hx|t x c s Hx|sub t s rc s' E
    |t s s' E|t s s' E]; [|exact Hdb|by eapply get_row_db_ok|exact Hdb|exact Hdb| | |by eapply release_locks_db_ok].
  - apply map_Forall_insert_2; [apply tt_init_ok|exact Hdb].
  - unfold validate, validate_part, validate_coor in E.
    destruct (txns s !! t) as [x|]; cbn [some mbind res_bind] in E; [|by destruct sub].
    destruct (get_rw_set x) as [[wset rset]|]; cbn [mbind res_bind] in E; [|by destruct sub].
    destruct sub; [by eapply (check_and_unlock_db_ok wset rset)|].
    destruct (compute t s) as [s1|] eqn:Ec; cbn [mbind res_bind] in E; [|done].
    eapply (check_and_unlock_db_ok wset rset); [|exact E].
    unfold compute in Ec. destruct (txns s !! t); cbn [some mbind res_bind] in Ec; [|done].
    destruct (compute_commit_ts _) as [x1|]; cbn [mbind res_bind] in Ec; [|done]. by injection Ec as <-.
  - unfold commit in E. destruct (release_locks RCOK t s) as [s1|] eqn:E1; cbn [mbind res_bind] in E; [|done].
    pose proof (release_locks_db_ok _ _ _ _ Hdb E1) as Hdb1. unfold cleanup in E.
    destruct (txns s1 !! t); cbn [some mbind res_bind] in E; [|done].
    destruct (get_rw_set _) as [[wset rset]|]; cbn [mbind res_bind] in E; [|done].
    by eapply unlock_db_ok.
Qed.

Definition init_state : State := mkState ∅ ∅.

Lemma tt_reachable_ok s : rtc tt_step init_state s -> db_ok s.
Proof using.
  apply (rtc_ind_r (fun s => db_ok s)); [apply map_Forall_empty|].
  intros ?? _ St Hdb. by eapply tt_step_ok.
Qed.

(** [u] waits for [v]: it is in the waiting set of a row that [v] has locked. *)
Definition waits_for (s : State) (u v : Z) : Prop :=
  exists k r, rows s !! k = Some r /\ u ∈ _waiting_set r /\ _lock_owner r = Some v.

(** C26. In every run of TicToc with wait-die, on any number of rows, nobody
    waits for a row that is free, a waiting transaction is older than the one
    that holds the row (so that the waits-for relation has no cycle), and no
    more than the allowed number of transactions wait for one row. *)
Theorem tictoc_no_deadlock s t :
  rtc tt_step init_state s ->
  ~ tc (waits_for s) t t /\
  (forall k r, rows s !! k = Some r ->
     (length (_waiting_set r) <= mw)%nat /\ _wts r <= _rts r /\
     (_ts_lock r = false -> _waiting_set r = [])).
Proof using.
  intros Hdb%tt_reachable_ok. split.
  - assert (forall u v, tc (waits_for s) u v -> prio u < prio v) as H; [|intros Hc%H; lia].
    induction 1 as [u v (k & r & Hr & Hu & Hv)|u v w (k & r & Hr & Hu & Hv) _ IH].
    + by eapply (ok_older _ _ r (Hdb k r Hr)).
    + pose proof (ok_older _ _ r (Hdb k r Hr) u v Hu Hv). lia.
  - intros k r Hr. destruct (Hdb k r Hr) as [H1 H2 H3 H4 H5 H6]. split_and!; [done..|].
    intros Hl. apply H2. rewrite Hl in H1. symmetry in H1. apply bool_decide_eq_false in H1.
    destruct (_lock_owner r); [destruct H1; by eexists|done].
Qed.

(** ** Runs as programs *)

Inductive cmd :=
| CRow (k d : Z)
| CBegin (t c : Z)
| CGet (k : Z) (ty : access_t) (t : Z)
| CPut (t : Z) (i : nat) (d : Z)
| CValidate (sub : bool) (t : Z) (want : RC)
| CCommit (t : Z)
| CAbort (t : Z).

(** One command; what the pool holds in a fresh access is 77. *)
Definition exec (c : cmd) (s : State) : res State :=
  match c with
  | CRow k d => if rows s !! k is Some _ then AssertFail else Ok (set_row k (tt_init d) s)
  | CBegin t c => Ok (set_txn t (txn_init c) s)
  | CGet k ty t => '(_, s') ← get_row true TT_WAIT_DIE mw prio k ty (77, 77) t s; Ok s'
  | CPut t i d => x ← some (txns s !! t); Ok (set_txn t (put i d x) s)
  | CValidate sub t want =>
      '(rc, s') ← validate true TT_WAIT_DIE mw prio sub t s;
      if decide (rc = want) then Ok s' else AssertFail
  | CCommit t => commit true TT_WAIT_DIE prio t s
  | CAbort t => abort t s
  end.
Fixpoint run (l : list cmd) (s : State) : res State :=
  match l with
  | [] => Ok s
  | c :: l' => s' ← exec c s; run l' s'
  end.
Definition final (l : list cmd) : State :=
  match run l init_state with Ok s => s | AssertFail => init_state end.

Lemma tt_exec_step c s s' : exec c s = Ok s' -> tt_step s s'.
Proof using.
  destruct c as [k d|t c|k ty t|t i d|sub t want|t|t]; cbn [exec].
  - destruct (rows s !! k) eqn:Ek; [done|]. intros [= <-]. by constructor.
  - intros [= <-]. constructor.
  - destruct (get_row _ _ _ _ _ _ _ _ _) as [[d s1]|] eqn:E; cbn [mbind res_bind]; [|done].
    intros [= <-]. by econstructor.
  - destruct (txns s !! t) as [x|] eqn:Ex; cbn [some mbind res_bind]; [|done].
    intros [= <-]. by constructor.
  - destruct (validate _ _ _ _ _ _ _) as [[rc s1]|] eqn:E; cbn [mbind res_bind]; [|done].
    case_decide; [|done]. intros [= <-]. by econstructor.
  - by apply step_commit.
  - by apply step_abort.
Qed.

Lemma run_reachable l s s' : run l s = Ok s' -> rtc tt_step s s'.
Proof using.
  revert s. induction l as [|c l IH]; intros s; cbn [run]; [intros [= <-]; apply rtc_refl|].
  destruct (exec c s) as [s1|] eqn:E; cbn [mbind res_bind]; [|done].
  intros H%IH. eapply rtc_l; [by eapply tt_exec_step|done].
Qed.

Lemma tt_final_reachable l : rtc tt_step init_state (final l).
Proof using.
  unfold final. destruct (run l init_state) as [s|] eqn:E; [by eapply run_reachable|apply rtc_refl].
Qed.
End Spec.

(** ** Concrete runs *)

Definition ex_final : list cmd -> State := final 4 id.
Definition ex_row (k : Z) (l : list cmd) : option (Z * Z * Z * option Z * list Z) :=
  (fun r => (_wts r, _rts r, tt_data r, _lock_owner r, _waiting_set r)) <$> rows (ex_final l) !! k.

(** Two rows and two transactions, the older one first. *)
Definition ex_start : list cmd := [CRow 10 100; CRow 20 200; CBegin 1 1; CBegin 2 1].
(** Transaction 1 reads row 10 and writes row 20. *)
Definition ex_ready : list cmd := ex_start ++ [CGet 10 RD 1; CGet 20 WR 1; CPut 1 1 201].

(** [txn_wf] as a function. *)
Definition txn_wfb (s : State) (x : Txn) : bool :=
  forallb (fun a => if rows s !! orig_row a is Some _ then true else false) (accesses x) &&
  bool_decide (row_cnt x = length (accesses x)) &&
  bool_decide (write_cnt x = length (filter is_write (accesses x))).

Lemma txn_wfb_spec s x : txn_wfb s x = true -> txn_wf s x.
Proof.
  intros H. apply andb_true_iff in H as [[H1 H2%bool_decide_eq_true]%andb_true_iff H3%bool_decide_eq_true].
  split; [done|done|]. intros a Ha. rewrite forallb_forall in H1. specialize (H1 a).
  rewrite <-list_elem_of_In in H1. specialize (H1 Ha). destruct (rows s !! orig_row a); [by eexists|done].
Qed.

Lemma ex_txn_wf l t :
  (txn_wfb (ex_final l) <$> txns (ex_final l) !! t) = Some true ->
  exists x, txns (ex_final l) !! t = Some x /\ txn_wf (ex_final l) x.
Proof.
  destruct (txns (ex_final l) !! t) as [x|]; cbn; [|done]. intros [= H%txn_wfb_spec]. by exists x.
Qed.

(** The validation answers yes, and the leases are as the code leaves them. *)
Example ex_validated :
  ex_row 10 (ex_ready ++ [CValidate false 1 RCOK]) = Some (0, 1, 100, None, []) /\
  ex_row 20 (ex_ready ++ [CValidate false 1 RCOK; CCommit 1]) = Some (1, 1, 201, None, []).
Proof. vm_compute. done. Qed.

Lemma tictoc_commit_installs_witness :
  exists x, txns (ex_final ex_ready) !! 1 = Some x /\
    exists s', commit true TT_WAIT_DIE id 1 (ex_final ex_ready) = Ok s' /\ db_ok 4 id s' /\
      (forall a, a ∈ accesses x -> exists r', rows s' !! orig_row a = Some r' /\
         (_wts r' = _min_commit_ts x) /\ (_rts r' = _min_commit_ts x) /\ (tt_data r' = acc_data a)) /\
      (forall k, k ∉ orig_row <$> accesses x ->
         content <$> rows s' !! k = content <$> rows (ex_final ex_ready) !! k) /\
      (forall a, a ∈ accesses x -> acc_type a = WR -> locked a = true -> free_of 1 (orig_row a) s').
Proof.
  destruct (ex_txn_wf ex_ready 1) as (x & Hx & Hwf); [vm_compute; reflexivity|].
  exists x. split; [exact Hx|].
  assert (orig_row <$> accesses x = [10; 20]) as Hr.
  { assert ((fun x => orig_row <$> accesses x) <$> txns (ex_final ex_ready) !! 1 = Some [10; 20]) as E
      by (vm_compute; reflexivity).
    rewrite Hx in E. cbn [fmap option_fmap option_map] in E. by apply (inj Some) in E. }
  apply (tictoc_commit_installs 4 id 1 x (ex_final ex_ready) Hx Hwf).
  - exact (tt_reachable_ok 4 id _ (tt_final_reachable 4 id ex_ready)).
  - rewrite Hr. repeat (apply NoDup_cons; split; [set_solver|]). by apply NoDup_nil.
  - apply map_Forall_to_list.
    assert (map_to_list (rows (ex_final ex_ready)) =
            [(10, tt_init 100); (20, set_lock true (Some 1) (tt_init 200))]) as -> by (vm_compute; reflexivity).
    repeat constructor.
Defined.

(** The older transaction waits for the younger one. *)
Definition ex_waiting : list cmd := ex_start ++ [CGet 20 WR 2; CGet 20 WR 1].

Lemma tictoc_no_deadlock_witness :
  waits_for (ex_final ex_waiting) 1 2 /\ ~ tc (waits_for (ex_final ex_waiting)) 1 1 /\
  (forall k r, rows (ex_final ex_waiting) !! k = Some r ->
     (length (_waiting_set r) <= 4)%nat /\ _wts r <= _rts r /\
     (_ts_lock r = false -> _waiting_set r = [])).
Proof.
  split.
  - assert (ex_row 20 ex_waiting = Some (0, 0, 200, Some 2, [1])) as E by (vm_compute; reflexivity).
    unfold ex_row in E. destruct (rows (ex_final ex_waiting) !! 20) as [r|] eqn:Er;
      cbn [fmap option_fmap option_map] in E; [|discriminate].
    injection E as _ _ _ Ho Hw. exists 20, r. rewrite Hw. split_and!; [done|set_solver|done].
  - exact (tictoc_no_deadlock 4 id (ex_final ex_waiting) 1 (tt_final_reachable 4 id ex_waiting)).
Defined.

(** ** What goes wrong

    [access] drops the answer of [write]: a transaction that has to wait goes on
    as if it held the row, with timestamps nobody wrote ... *)
Lemma tictoc_wait_lost :
  ex_row 20 ex_waiting = Some (0, 0, 200, Some 2, [1]) /\
  (fun x => (accesses x, is_txn_ready x)) <$> txns (ex_final ex_waiting) !! 1 =
    Some ([mkAccess WR 20 77 77 true 200], true).
Proof. vm_compute. done. Qed.

(** ... and when the row is handed to it, its count of lock waits, which was
    never raised, wraps around: it is not ready again. *)
Lemma tictoc_wait_count_wraps :
  (fun x => (_num_lock_waits x, is_txn_ready x)) <$>
    txns (ex_final (ex_waiting ++ [CValidate false 2 RCOK; CCommit 2])) !! 1 = Some (4294967295, false).
Proof. vm_compute. done. Qed.

(** [return_row] calls [commit] for reads too: a reader that has validated
    writes its old copy over the version of a writer that committed since. *)
Lemma tictoc_reader_overwrites :
  let l := ex_start ++ [CGet 10 RD 1; CValidate false 1 RCOK;
                        CGet 10 WR 2; CPut 2 0 555; CValidate false 2 RCOK; CCommit 2] in
  ex_row 10 l = Some (2, 2, 555, None, []) /\
  ex_row 10 (l ++ [CCommit 1]) = Some (1, 1, 100, None, []).
Proof. vm_compute. done. Qed.

(** A transaction that aborts after it has validated, which a coordinator does
    when a participant answers no, keeps its locks. *)
Lemma tictoc_abort_keeps_locks :
  ex_row 20 (ex_ready ++ [CValidate false 1 RCOK; CAbort 1]) = Some (0, 0, 200, Some 1, []).
Proof. vm_compute. done. Qed.

(** A row that is read and then written is not locked, and the counters no
    longer agree with the accesses: [get_rw_set] fails its assertion. *)
Lemma tictoc_upgrade_fails :
  let l := ex_start ++ [CGet 10 RD 1; CGet 10 WR 1] in
  ex_row 10 l = Some (0, 0, 100, None, []) /\
  validate true TT_WAIT_DIE 4 id false 1 (ex_final l) = AssertFail.
Proof. vm_compute. done. Qed.
