(* ===== verification/Bocc.v ===== *)
(** * Bocc: serial backward validation

    Model of concurrency_control/bocc.cpp.  Validation runs in one critical
    section and tests the read set against the history; nothing registers a
    transaction that has validated until [central_finish] puts its write set
    on the history.  The sets and the history are those of [Occ]
    ([b_set_ent] has the fields of [set_ent]). *)

From stdpp Require Import gmap list sorting strings.
From S2P Require Import Prelude Occ.
#[local] Open Scope Z_scope.

Section Bocc.
Context {D : Type} (tpcc : bool).
Implicit Types (tx : OccTxn D).

Record Bocc := mkBocc { b_history : list (Z * set_ent); b_his_len : Z }.

Definition Bocc_init : Bocc := mkBocc [] 0.

Definition bocc_get_rw_set tx : res (set_ent * set_ent) := get_rw_set tx.
Definition bocc_test_valid (set1 set2 : set_ent) : bool := test_valid set1 set2.

(** The loop over the history between the two timestamps. *)
Fixpoint bocc_history (start_tn : Z) (rset wset : set_ent) (l : list (Z * set_ent)) : bool :=
  match l with
  | (tn, e) :: l' =>
      if start_tn <? tn then
        if bocc_test_valid e rset && (if tpcc then bocc_test_valid e wset else true)
        then bocc_history start_tn rset wset l'
        else false
      else true
  | [] => true
  end.

Definition bocc_validate (ts : Z) tx (o : Bocc) : res RC :=
  '(rset, wset) ← bocc_get_rw_set tx;
  let valid := if ot_start_timestamp tx <? ts
               then bocc_history (ot_start_timestamp tx) rset wset (skip_newer ts (b_history o)) else true in
  Ok (if valid then RCOK else Abort).

Definition bocc_finish (rc : RC) (ts : Z) tx (o : Bocc) : res Bocc :=
  '(_, wset) ← bocc_get_rw_set tx;
  Ok (if readonly wset then o
      else if decide (rc = RCOK) then mkBocc ((ts, wset) :: b_history o) (wrap64 (b_his_len o + 1))
      else o).

(** ** Properties *)

Definition bocc_wf (clk : Z) (o : Bocc) : Prop :=
  his_sorted (b_history o) /\ Forall (fun x => x.1 <= clk) (b_history o) /\
  b_his_len o = wrap64 (Z.of_nat (length (b_history o))).

Lemma bocc_history_occ start rset wset l : bocc_history start rset wset l = validate_history tpcc start rset wset l.
Proof using Type. induction l as [|[tn e] l IH]; cbn; [done|]. by rewrite IH. Qed.

(** [Bocc::central_validate] accepts a transaction exactly when no update
    that finished between its timestamps meets the rows it read (in TPCC, also
    those it writes), whatever other transactions have validated meanwhile;
    [central_finish] then puts its write set on the history, which stays sorted. *)
Theorem bocc_validate_correct clk ts ts' tx o :
  bocc_wf clk o -> accounted tx -> clk < ts < ts' ->
  exists rc o', bocc_validate ts tx o = Ok rc /\ bocc_finish rc ts' tx o = Ok o' /\
    (rc = RCOK \/ rc = Abort) /\
    (rc = RCOK <-> history_clear tpcc (ot_start_timestamp tx) ts (read_ent tx) (write_ent tx) (b_history o)) /\
    bocc_wf ts' o' /\
    b_history o' = (if decide (rc = RCOK /\ write_rows (ot_accesses tx) <> [])
                    then (ts', write_ent tx) :: b_history o else b_history o).
Proof using Type.
  intros (Hs & Hc & Hl) Hacc Hts. unfold bocc_validate, bocc_finish, bocc_get_rw_set.
  rewrite get_rw_set_ok by done. cbn [mbind res_bind]. rewrite bocc_history_occ.
  set (valid := if _ : bool then _ else true).
  assert (valid = true <-> history_clear tpcc (ot_start_timestamp tx) ts (read_ent tx) (write_ent tx) (b_history o)) as Hv.
  { pose proof (validate_check_spec tpcc (ot_start_timestamp tx) (read_ent tx) (write_ent tx)
      (mkSnap ts [] (b_history o)) Hs) as Hck. unfold validate_check in Hck. cbn in Hck.
    rewrite andb_true_r in Hck. subst valid. rewrite Hck. split; [by intros [? _]|]. intros ?. split; [done|].
    by intros e r ?%not_elem_of_nil. }
  assert (bocc_wf ts' o) as Hwf.
  { split_and!; [done| |done]. eapply Forall_impl; [exact Hc|]. cbn. lia. }
  exists (if valid then RCOK else Abort). destruct (readonly (write_ent tx)) eqn:Hro.
  - apply readonly_spec in Hro. cbn in Hro. eexists. split_and!; [done|done|destruct valid; tauto| |done|].
    + rewrite <- Hv. by destruct valid.
    + rewrite decide_False by tauto. done.
  - assert (write_rows (ot_accesses tx) <> []) as Hne.
    { intros E. apply not_true_iff_false in Hro. apply Hro. by apply readonly_spec. }
    eexists. split_and!; [done|done|destruct valid; tauto|rewrite <- Hv; by destruct valid| |].
    + destruct valid; [rewrite decide_True by done|by rewrite decide_False]. split_and!; cbn [b_history b_his_len length].
      * constructor; [done|]. eapply Forall_impl; [exact Hc|]. cbn. lia.
      * constructor; [cbn; lia|]. eapply Forall_impl; [exact Hc|]. cbn. lia.
      * rewrite Hl. unfold wrap64. rewrite Zplus_mod_idemp_l. f_equal. lia.
    + destruct valid; [rewrite !decide_True by done; done|]. rewrite !decide_False; [done|by intros [? _]|done].
Qed.
End Bocc.

(** ** Two validated transactions do not see each other *)

Definition ex_bocc_txn (i : Z) : OccTxn Z :=
  add_access (mkAcc WR 1%nat 0 i) (add_access (mkAcc RD 0%nat 0 0) (add_access (mkAcc WR 0%nat 0 i) (mkOccTxn i i 0 [] 0 0))).

Lemma bocc_validate_correct_witness :
  exists rc, bocc_validate true 5 (ex_bocc_txn 1) Bocc_init = Ok rc /\ rc = RCOK.
Proof.
  destruct (bocc_validate_correct true 4 5 6 (ex_bocc_txn 1) Bocc_init) as (rc & o' & Hv & _ & _ & Hrc & _).
  - split; [constructor|]. split; [constructor|reflexivity].
  - split; [reflexivity|]. split; [reflexivity|]. vm_compute. reflexivity.
  - split; reflexivity.
  - exists rc. split; [exact Hv|]. apply Hrc. intros tn e r Hin. by apply not_elem_of_nil in Hin.
Defined.

(** Two transactions that read and write the same row both validate, also in
    TPCC, when the second one validates before the first one finishes: each
    finishes with its write set on the history. *)
Lemma bocc_conflict_commits :
  bocc_validate true 3 (ex_bocc_txn 1) Bocc_init = Ok RCOK /\
  bocc_validate true 4 (ex_bocc_txn 2) Bocc_init = Ok RCOK /\
  exists o1 o2, bocc_finish RCOK 5 (ex_bocc_txn 1) Bocc_init = Ok o1 /\ bocc_finish RCOK 6 (ex_bocc_txn 2) o1 = Ok o2 /\
    fst <$> b_history o2 = [6; 5] /\
    test_valid (write_ent (ex_bocc_txn 1)) (read_ent (ex_bocc_txn 2)) = false /\
    test_valid (write_ent (ex_bocc_txn 2)) (read_ent (ex_bocc_txn 1)) = false.
Proof.
  split; [reflexivity|]. split; [reflexivity|]. eexists _, _. split; [vm_compute; reflexivity|].
  split; [vm_compute; reflexivity|]. vm_compute. auto.
Qed.
