(* ===== verification/Focc.v ===== *)
(** * Focc: forward validation

    Model of concurrency_control/focc.cpp.  The read sets of running
    transactions are registered in [active] ([active_storage], which
    [TxnManager::get_row] calls after each access and before it adds the access
    to the transaction) and a validating transaction tests its write set
    against those of the others.  [f_set_ent] has the fields of [set_ent].
    [active_storage] and [central_finish] load the head of the list before they
    wait for the semaphore; the operations here run alone. *)

From stdpp Require Import gmap list sorting strings.
From S2P Require Import Prelude Occ.
#[local] Open Scope Z_scope.

Section Focc.
Context {D : Type}.
Implicit Types (tx : OccTxn D) (e : set_ent) (l : list set_ent).

Record Focc := mkFocc { f_active : list set_ent; f_active_len : Z }.

Definition Focc_init : Focc := mkFocc [] 0.

Definition focc_get_rw_set tx : res (set_ent * set_ent) := get_rw_set tx.

(** Two sets of one transaction do not conflict. *)
Definition focc_test_valid (set1 set2 : set_ent) : bool :=
  if se_txn set1 =? se_txn set2 then true else test_valid set1 set2.

Fixpoint find_entry (txn : Z) l : option set_ent :=
  match l with
  | [] => None
  | e :: l' => if se_txn e =? txn then Some e else find_entry txn l'
  end.

(** When there is an entry, [act = rset] changes a local pointer and the entry
    stays as it is. *)
Definition active_storage tx (o : Focc) : res Focc :=
  '(rset, _) ← focc_get_rw_set tx;
  if bool_decide (se_rows rset = []) then Ok o
  else match find_entry (ot_txn tx) (f_active o) with
       | None => Ok (mkFocc (rset :: f_active o) (wrap64 (f_active_len o + 1)))
       | Some _ => Ok o
       end.

Fixpoint focc_scan (wset : set_ent) l : bool :=
  match l with
  | [] => true
  | e :: l' => if focc_test_valid e wset then focc_scan wset l' else false
  end.

Definition focc_unlink (txn : Z) (o : Focc) : Focc :=
  match unlink txn (f_active o) with
  | Some l => mkFocc l (wrap64 (f_active_len o - 1))
  | None => o
  end.

Definition focc_validate tx (o : Focc) : res (RC * Focc) :=
  '(_, wset) ← focc_get_rw_set tx;
  let valid := if readonly wset then true else focc_scan wset (f_active o) in
  Ok (if valid then (RCOK, o) else (Abort, focc_unlink (ot_txn tx) o)).

Definition focc_finish (rc : RC) tx (o : Focc) : res Focc :=
  '(_, _) ← focc_get_rw_set tx;
  Ok (focc_unlink (ot_txn tx) o).

(** [TxnManager::get_row]: the access is granted, [active_storage], and the
    bookkeeping. *)
Definition focc_get_row (type : access_t) (r : nat) tx (db : Store D) (o : Focc) : option (res (RC * OccTxn D * Focc)) :=
  match get_row type r tx db with
  | None => None
  | Some AssertFail => Some AssertFail
  | Some (Ok (rc, tx')) => Some (o' ← active_storage tx o; Ok (rc, tx', o'))
  end.

(** ** Validation *)

Record focc_wf (o : Focc) : Prop := {
  fwf_len : f_active_len o = Z.of_nat (length (f_active o));
  fwf_nodup : NoDup (se_txn <$> f_active o);
  fwf_few : Z.of_nat (length (f_active o)) < UINT64_MAX;
}.

Lemma focc_test_valid_spec e e' :
  focc_test_valid e e' = true <-> se_txn e = se_txn e' \/ forall r, r ∈ se_rows e -> r ∉ se_rows e'.
Proof using Type.
  unfold focc_test_valid. destruct (Z.eqb_spec (se_txn e) (se_txn e')); [tauto|]. rewrite test_valid_spec. tauto.
Qed.

Lemma focc_scan_spec wset l :
  focc_scan wset l = true <->
  forall e r, e ∈ l -> se_txn e <> se_txn wset -> r ∈ se_rows e -> r ∉ se_rows wset.
Proof using Type.
  induction l as [|e l IH]; cbn; [set_solver|]. destruct (focc_test_valid e wset) eqn:E.
  - rewrite focc_test_valid_spec in E. rewrite IH. setoid_rewrite elem_of_cons. split; [|naive_solver].
    intros H e' r [->|He'] Hne; [|by apply H]. destruct E as [|E]; [done|]. apply E.
  - split; [done|]. intros H. apply not_true_iff_false in E. contradict E. apply focc_test_valid_spec.
    destruct (decide (se_txn e = se_txn wset)) as [|Hne]; [by left|]. right. intros r.
    apply (H e r); [by left|done].
Qed.

Lemma focc_unlink_wf txn (o : Focc) :
  focc_wf o -> focc_wf (focc_unlink txn o) /\ forall e, e ∈ f_active (focc_unlink txn o) <-> e ∈ f_active o /\ se_txn e <> txn.
Proof using Type.
  intros [Hl Hnd Hf]. unfold focc_unlink. destruct (unlink txn (f_active o)) as [k|] eqn:E.
  - destruct (unlink_nodup _ _ _ E Hnd) as (Hk & Hndk & _ & Hin). split; [|done].
    constructor; cbn; [rewrite wrap64_small; lia|done|lia].
  - apply unlink_None in E. split; [by constructor|]. intros e. split; [|tauto]. intros He. split; [done|].
    intros <-. apply E. by apply list_elem_of_fmap_2.
Qed.

(** [Focc::central_validate] accepts a transaction exactly when it writes
    nothing or no registered read set of another transaction holds a row it
    writes; a transaction it rejects, and one that finishes, is taken off the
    list of active transactions, which keeps one entry per transaction and
    its length. *)
Theorem focc_validate_correct tx o :
  focc_wf o -> accounted tx ->
  exists rc o', focc_validate tx o = Ok (rc, o') /\ focc_wf o' /\ (rc = RCOK \/ rc = Abort) /\
    (rc = RCOK <-> forall e r, e ∈ f_active o -> se_txn e <> ot_txn tx -> r ∈ se_rows e ->
       r ∉ write_rows (ot_accesses tx)) /\
    (rc = RCOK -> o' = o) /\
    (rc = Abort -> forall e, e ∈ f_active o' <-> e ∈ f_active o /\ se_txn e <> ot_txn tx) /\
    exists o'', focc_finish rc tx o' = Ok o'' /\ focc_wf o'' /\
      (forall e, e ∈ f_active o'' <-> e ∈ f_active o /\ se_txn e <> ot_txn tx).
Proof using Type.
  intros Hwf Hacc. unfold focc_validate, focc_finish, focc_get_rw_set. rewrite get_rw_set_ok by done.
  cbn [mbind res_bind]. set (valid := if readonly _ then true else _).
  assert (valid = true <-> forall e r, e ∈ f_active o -> se_txn e <> ot_txn tx -> r ∈ se_rows e ->
    r ∉ write_rows (ot_accesses tx)) as Hv.
  { subst valid. destruct (readonly (write_ent tx)) eqn:Hro; [|apply (focc_scan_spec (write_ent tx))].
    apply readonly_spec in Hro. cbn in Hro. rewrite Hro. split; [|done]. intros _ e r _ _ _. apply not_elem_of_nil. }
  destruct (focc_unlink_wf (ot_txn tx) o Hwf) as [Hwf1 Hin1].
  destruct (focc_unlink_wf (ot_txn tx) (focc_unlink (ot_txn tx) o) Hwf1) as [Hwf2 Hin2].
  destruct valid; eexists _, _; (split; [reflexivity|]).
  - split_and!; [done|by left|tauto|done|done|]. eauto.
  - split_and!; [done|by right| |done|done|].
    + split; [done|]. intros H. by apply Hv in H.
    + eexists. split_and!; [done|done|]. intros e. rewrite Hin2, Hin1. tauto.
Qed.

(** ** What is registered *)

(** The accesses of a transaction, one after the other, all granted. *)
Fixpoint focc_run (accs : list (access_t * nat)) tx (db : Store D) (o : Focc) : option (OccTxn D * Focc) :=
  match accs with
  | [] => Some (tx, o)
  | (type, r) :: accs' =>
      match focc_get_row type r tx db o with
      | Some (Ok (RCOK, tx', o')) => focc_run accs' tx' db o'
      | _ => None
      end
  end.

Lemma find_entry_None txn l : find_entry txn l = None <-> forall e, e ∈ l -> se_txn e <> txn.
Proof using Type.
  induction l as [|e l IH]; cbn; [set_solver|]. destruct (Z.eqb_spec (se_txn e) txn); [split; [done|]|].
  - intros H. exfalso. by apply (H e); [left|].
  - rewrite IH. setoid_rewrite elem_of_cons. naive_solver.
Qed.

(** No entry and at most one read so far, or entries of one row each. *)
Definition one_read tx (o : Focc) : Prop :=
  ((forall e, e ∈ f_active o -> se_txn e <> ot_txn tx) /\ (length (read_rows (ot_accesses tx)) <= 1)%nat) \/
  ((exists e, e ∈ f_active o /\ se_txn e = ot_txn tx) /\
   forall e, e ∈ f_active o -> se_txn e = ot_txn tx -> exists r, se_rows e = [r]).

Lemma active_storage_one_read tx o o' :
  accounted tx -> one_read tx o -> active_storage tx o = Ok o' ->
  one_read tx o' /\ (read_rows (ot_accesses tx) <> [] -> exists e, e ∈ f_active o' /\ se_txn e = ot_txn tx).
Proof using Type.
  intros Hacc H1. unfold active_storage, focc_get_rw_set. rewrite get_rw_set_ok by done. cbn.
  case_bool_decide as Hr; [by intros [= <-]|].
  destruct (find_entry (ot_txn tx) (f_active o)) eqn:E; intros [= <-].
  - split; [done|]. intros _. destruct H1 as [[Hn _]|[? _]]; [|done].
    apply find_entry_None in Hn. congruence.
  - pose proof (proj1 (find_entry_None _ _) E) as Hn. destruct H1 as [[_ Hle]|[(e & He & Het) _]]; [|by destruct (Hn e He)].
    split; [|intros _; exists (read_ent tx); split; [by left|done]]. right. split; [exists (read_ent tx); split; [by left|done]|].
    cbn. intros e [->|He]%elem_of_cons Het; [|by destruct (Hn e He)]. cbn.
    destruct (read_rows (ot_accesses tx)) as [|r [|]]; [done|by exists r|cbn in Hle; lia].
Qed.

(** Whatever a transaction reads, the list of active transactions holds at
    most one of its rows: the entry made for its first read is never
    replaced.  The other rows it reads are not protected by forward
    validation. *)
Theorem focc_registers_one_read accs tx db o tx' o' :
  accounted tx -> ot_accesses tx = [] -> (forall e, e ∈ f_active o -> se_txn e <> ot_txn tx) ->
  Z.of_nat (length accs) < 4294967296 ->
  focc_run accs tx db o = Some (tx', o') ->
  ac_row <$> ot_accesses tx' = snd <$> accs /\
  forall e, e ∈ f_active o' -> se_txn e = ot_txn tx' -> exists r, se_rows e = [r].
Proof using Type.
  intros Hacc Hnil Hno Hlen.
  assert (one_read tx o) as H1 by (left; rewrite Hnil; split; [done|cbn; lia]).
  assert (Z.of_nat (length (ot_accesses tx) + length accs) < 4294967296) as Hlen' by (rewrite Hnil; cbn; lia).
  replace (snd <$> accs) with ((ac_row <$> ot_accesses tx) ++ (snd <$> accs)) by by rewrite Hnil.
  clear Hnil Hno Hlen. revert tx o Hacc H1 Hlen'. induction accs as [|[ty r] accs IH]; intros tx o Hacc H1 Hlen'.
  - cbn. intros [= <- <-]. rewrite app_nil_r. split; [done|]. intros e He Het. destruct H1 as [[Hn _]|[_ H]]; [|by apply H].
    by destruct (Hn e He).
  - cbn [focc_run]. unfold focc_get_row, get_row, row_access, latch. destruct (ro_latch (db r)); [done|]. cbn.
    destruct (_ <? _); [by destruct (active_storage tx o)|]. cbn [length] in Hlen'.
    set (a := mkAcc ty r (ro_data (db r)) (ro_data (db r))). destruct (active_storage tx o) as [o1|] eqn:E; [|done]. cbn.
    apply active_storage_one_read in E as [H2 Hreg]; [|done|done].
    assert (accounted (add_access a tx)) as Hacc' by (apply add_access_accounted; [done|lia]).
    intros Hrun. apply IH in Hrun as [Hrows He]; [|done| |].
    + split; [|done]. rewrite Hrows. unfold add_access. cbn. by rewrite fmap_app, <- app_assoc.
    + destruct (decide (read_rows (ot_accesses tx) = [])) as [Hr0|Hr0].
      * destruct H2 as [[Hn _]|H2]; [|by right]. left. split; [done|].
        unfold add_access. cbn [ot_accesses].
        rewrite read_rows_app, Hr0, read_rows_cons. change (read_rows []) with (@nil nat). cbn.
        destruct (decide (ty = WR)); cbn; lia.
      * right. destruct H2 as [[Hn _]|H2]; [|done]. destruct (Hreg Hr0) as (e & He1 & He2). by destruct (Hn e He1).
    + unfold add_access. cbn. rewrite length_app. cbn. lia.
Qed.
End Focc.

(** ** Examples *)

Definition ex_focc_db : Store Z := fun r => row_init (Z.of_nat r).
Definition ex_focc_txn (i : Z) : OccTxn Z := mkOccTxn i 1 0 [] 0 0.
Definition ex_focc_reader : option (OccTxn Z * Focc) :=
  focc_run [(RD, 0%nat); (RD, 1%nat); (RD, 2%nat)] (ex_focc_txn 1) ex_focc_db Focc_init.

Lemma focc_registers_one_read_witness :
  exists tx o, ex_focc_reader = Some (tx, o) /\ ac_row <$> ot_accesses tx = [0; 1; 2]%nat /\
    exists r, se_rows (mkSet 1 [0%nat]) = [r].
Proof.
  eexists _, _. split; [vm_compute; reflexivity|]. split; [reflexivity|].
  eapply (focc_registers_one_read [(RD, 0%nat); (RD, 1%nat); (RD, 2%nat)] (ex_focc_txn 1) ex_focc_db Focc_init).
  - split; [reflexivity|]. split; [reflexivity|]. vm_compute. reflexivity.
  - reflexivity.
  - intros e He. by apply not_elem_of_nil in He.
  - reflexivity.
  - vm_compute. reflexivity.
  - cbn. by left.
  - reflexivity.
Defined.

Lemma focc_validate_correct_witness :
  exists rc o', focc_validate (add_access (mkAcc WR 1%nat 0 5) (ex_focc_txn 2)) (mkFocc [mkSet 1 [0%nat]] 1) = Ok (rc, o') /\
    rc = RCOK.
Proof.
  destruct (focc_validate_correct (add_access (mkAcc WR 1%nat 0 5) (ex_focc_txn 2)) (mkFocc [mkSet 1 [0%nat]] 1))
    as (rc & o' & Hv & _ & _ & Hrc & _).
  - constructor; [reflexivity|repeat constructor; set_solver|reflexivity].
  - split; [reflexivity|]. split; [reflexivity|]. vm_compute. reflexivity.
  - exists rc, o'. split; [exact Hv|]. apply Hrc. intros e r ->%list_elem_of_singleton _. cbn. set_solver.
Defined.

(** The reader of three rows is active; a transaction that overwrites the
    second one is accepted. *)
Lemma focc_unprotected_read :
  exists tx o, ex_focc_reader = Some (tx, o) /\
    focc_validate (add_access (mkAcc WR 1%nat 0 5) (ex_focc_txn 2)) o = Ok (RCOK, o) /\
    (1%nat ∈ read_rows (ot_accesses tx)).
Proof.
  eexists _, _. split; [vm_compute; reflexivity|]. split; [vm_compute; reflexivity|].
  vm_compute. right. left.
Qed.
