(* ===== verification/Wire.v ===== *)
(** * Wire: raw memory copies

    system/helper.h, [COPY_BUF] and [COPY_VAL], the macros with which
    transport/message.cpp flattens a message into a [char] buffer and reads it
    back, and the object representations of the types it copies.

    A buffer is a list of bytes and a position [ptr] is a [nat]; an access
    outside the buffer, and a byte pattern that is no value of the type read
    into, is [AssertFail].  An object representation is a [Wire]: the number of
    bytes, the conversions and their laws.  Integers are little endian; a
    [double] travels as its 64-bit pattern, and its arithmetic is that of
    [SpecFloat].  The second half is a calculus of [writes] and [reads], which
    says of a sequence of copies which bytes it puts at, or takes from, which
    position; [wire_step] proves such facts by following the code. *)

From Stdlib Require Import ZArith Lia SpecFloat.
From stdpp Require Import base tactics list numbers.
From S2P Require Import Prelude.
#[local] Open Scope Z_scope.

(** ** Bytes *)

Definition byte_ok (b : Z) : Prop := 0 <= b < 256.

(** The [n] low bytes of [z], least significant first. *)
Fixpoint le_bytes (n : nat) (z : Z) : list Z :=
  match n with
  | O => []
  | S n' => z mod 256 :: le_bytes n' (z / 256)
  end.

Fixpoint le_value (bs : list Z) : Z :=
  match bs with
  | [] => 0
  | b :: bs' => b + 256 * le_value bs'
  end.

Lemma le_bytes_length n z : length (le_bytes n z) = n.
Proof. revert z. induction n as [|n IH]; intros z; cbn; [done|]. by rewrite IH. Qed.

Lemma le_bytes_ok n z : Forall byte_ok (le_bytes n z).
Proof.
  revert z. induction n as [|n IH]; intros z; cbn; constructor; [|apply IH].
  unfold byte_ok. apply Z.mod_pos_bound. lia.
Qed.

Lemma le_value_bytes n z : 0 <= z < 256 ^ Z.of_nat n -> le_value (le_bytes n z) = z.
Proof.
  revert z. induction n as [|n IH]; intros z Hz; cbn [le_bytes le_value]; [cbn in Hz; lia|].
  rewrite Nat2Z.inj_succ, Z.pow_succ_r in Hz by lia.
  pose proof (Z.div_mod z 256 ltac:(lia)).
  rewrite IH; [lia|]. split; [apply Z.div_pos; lia|]. apply Z.div_lt_upper_bound; lia.
Qed.

Lemma le_value_range bs : Forall byte_ok bs -> 0 <= le_value bs < 256 ^ Z.of_nat (length bs).
Proof.
  induction 1 as [|b bs Hb _ IH]; cbn [le_value length]; [cbn; lia|].
  rewrite Nat2Z.inj_succ, Z.pow_succ_r by lia. unfold byte_ok in Hb. lia.
Qed.

(** Only the low bytes count. *)
Lemma le_bytes_mod n z : le_bytes n (z mod 256 ^ Z.of_nat n) = le_bytes n z.
Proof.
  revert z. induction n as [|n IH]; intros z; cbn [le_bytes]; [done|].
  rewrite Nat2Z.inj_succ, Z.pow_succ_r by lia.
  assert (0 < 256 ^ Z.of_nat n) by (apply Z.pow_pos_nonneg; lia).
  rewrite Z.rem_mul_r by lia.
  pose proof (Z.mod_pos_bound z 256 ltac:(lia)).
  rewrite (Z.mul_comm 256), Z.mod_add, Z.div_add, Z.mod_mod, (Z.div_small (z mod 256)) by lia.
  by rewrite Z.add_0_l, IH.
Qed.

(** ** Object representations *)

Record Wire (A : Type) := mkWire {
  size_of : nat;
  encode : A -> list Z;
  decode : list Z -> option A;
  (** the values of the C++ type among those of [A] *)
  wire_ok : A -> Prop;
  encode_length x : length (encode x) = size_of;
  encode_bytes x : Forall byte_ok (encode x);
  decode_encode x : wire_ok x -> decode (encode x) = Some x;
  decode_ok bs x : length bs = size_of -> Forall byte_ok bs -> decode bs = Some x -> wire_ok x
}.
Arguments mkWire {A} _ _ _ _ _ _ _ _.
Arguments size_of {A} _.
Arguments encode {A} _ _.
Arguments decode {A} _ _.
Arguments wire_ok {A} _ _.
Arguments encode_length {A} _ _.
Arguments encode_bytes {A} _ _.
Arguments decode_encode {A} _ _ _.
Arguments decode_ok {A} _ _ _ _ _ _.

(** An unsigned integer of [n] bytes. *)
Program Definition uint (n : nat) : Wire Z :=
  mkWire n (le_bytes n) (fun bs => Some (le_value bs)) (fun z => 0 <= z < 256 ^ Z.of_nat n)
    _ _ _ _.
Next Obligation. intros; apply le_bytes_length. Qed.
Next Obligation. intros; apply le_bytes_ok. Qed.
Next Obligation. intros n x Hx. cbn beta. by rewrite le_value_bytes. Qed.
Next Obligation.
  cbn. intros n bs x Hl Hb [= <-]. rewrite <- Hl. by apply le_value_range.
Qed.

Definition u8 : Wire Z := uint 1.
Definition u32 : Wire Z := uint 4.
Definition u64 : Wire Z := uint 8.
(** [size_t] has 64 bits; a [double] is copied as its bit pattern. *)
Definition size_t : Wire Z := u64.
Definition f64 : Wire Z := u64.

Lemma wire_ok_u64 z : wire_ok u64 z <-> is_u64 z.
Proof.
  unfold is_u64, UINT64_MAX. cbn [wire_ok u64 uint].
  change (256 ^ Z.of_nat 8) with 18446744073709551616. lia.
Qed.

(** An enumeration in an [int], by its table of values.  Reading a number
    without an enumerator is no value of the type. *)
Program Definition enum {A : Type} (code : A -> Z) (of_code : Z -> option A)
    (Hcode : forall x, 0 <= code x < 256 ^ 4 /\ of_code (code x) = Some x) : Wire A :=
  mkWire 4 (fun x => le_bytes 4 (code x)) (fun bs => of_code (le_value bs)) (fun _ => True)
    _ _ _ _.
Next Obligation. intros; apply le_bytes_length. Qed.
Next Obligation. intros; apply le_bytes_ok. Qed.
Next Obligation.
  cbn [le_bytes]. intros A code of_code Hcode x _. destruct (Hcode x) as [Hr Hx].
  pose proof (le_value_bytes 4 (code x) Hr) as E. cbn [le_bytes] in E. by rewrite E.
Qed.
Next Obligation. done. Qed.

(** [bool] is one byte, 0 or 1. *)
Definition bool_of_bytes (bs : list Z) : option bool :=
  match bs with [0] => Some false | [1] => Some true | _ => None end.

Program Definition bool8 : Wire bool :=
  mkWire 1 (fun b => [Z.b2z b]) bool_of_bytes (fun _ => True) _ _ _ _.
Next Obligation. done. Qed.
Next Obligation. intros []; constructor; [unfold byte_ok; cbn; lia|constructor|unfold byte_ok; cbn; lia|constructor]. Qed.
Next Obligation. by intros []. Qed.
Next Obligation. done. Qed.

(** A [char] array of [n] elements. *)
Definition pad_to (n : nat) (bs : list Z) : list Z :=
  take n (map (fun b => b mod 256) bs ++ replicate n 0).

Lemma pad_to_id n bs : length bs = n -> Forall byte_ok bs -> pad_to n bs = bs.
Proof.
  intros Hl Hb. unfold pad_to.
  replace (map (fun b => b mod 256) bs) with bs; [by rewrite take_app_length'|].
  symmetry. clear Hl. induction Hb as [|b bs Hb _ IH]; cbn; [done|].
  rewrite IH. f_equal. by apply Z.mod_small.
Qed.

Program Definition chars (n : nat) : Wire (list Z) :=
  mkWire n (pad_to n) Some (fun bs => length bs = n /\ Forall byte_ok bs) _ _ _ _.
Next Obligation.
  intros n x. unfold pad_to. rewrite length_take, length_app, length_replicate. lia.
Qed.
Next Obligation.
  intros n x. apply Forall_take, Forall_app. split.
  - induction x as [|b x IH]; cbn; constructor; [apply Z.mod_pos_bound; lia|done].
  - apply Forall_replicate. unfold byte_ok. lia.
Qed.
Next Obligation. intros n x [Hl Hb]. cbn. by rewrite pad_to_id. Qed.
Next Obligation. by intros n bs x Hl Hb [= <-]. Qed.

(** A struct of two consecutive members, and a view of a struct through the
    record that models it. *)
Program Definition pair_wire {A B : Type} (wa : Wire A) (wb : Wire B) : Wire (A * B) :=
  mkWire (size_of wa + size_of wb)
    (fun x => encode wa x.1 ++ encode wb x.2)
    (fun bs => a ← decode wa (take (size_of wa) bs);
               b ← decode wb (drop (size_of wa) bs); mret (a, b))
    (fun x => wire_ok wa x.1 /\ wire_ok wb x.2) _ _ _ _.
Next Obligation. intros. cbn. by rewrite length_app, !encode_length. Qed.
Next Obligation. intros. apply Forall_app. split; apply encode_bytes. Qed.
Next Obligation.
  cbn. intros A B wa wb [a b] [Ha Hb]; cbn in *.
  rewrite take_app_length', drop_app_length' by by rewrite encode_length.
  rewrite decode_encode by done. cbn. by rewrite decode_encode.
Qed.
Next Obligation.
  cbn. intros A B wa wb bs [a b] Hl Hb H.
  destruct (decode wa _) as [a'|] eqn:Ea; [|done]. cbn in H.
  destruct (decode wb _) as [b'|] eqn:Eb; [|done]. injection H as <- <-.
  cbn. split.
  - eapply decode_ok; [| |exact Ea]; [rewrite length_take; lia|by apply Forall_take].
  - eapply decode_ok; [| |exact Eb]; [rewrite length_drop; lia|by apply Forall_drop].
Qed.

Program Definition view {A B : Type} (w : Wire A) (f : B -> A) (g : A -> B)
    (Hgf : forall b, g (f b) = b) (Hfg : forall a, f (g a) = a) : Wire B :=
  mkWire (size_of w) (fun b => encode w (f b)) (fun bs => g <$> decode w bs)
    (fun b => wire_ok w (f b)) _ _ _ _.
Next Obligation. intros. cbn. by rewrite encode_length. Qed.
Next Obligation. intros. apply encode_bytes. Qed.
Next Obligation. cbn. intros A B w f g Hgf Hfg x Hx. rewrite decode_encode by done. cbn. by rewrite Hgf. Qed.
Next Obligation.
  cbn. intros A B w f g Hgf Hfg bs x Hl Hb H.
  destruct (decode w bs) as [a|] eqn:Ea; [|done]. cbn in H. injection H as <-.
  rewrite Hfg. by eapply decode_ok.
Qed.

(** ** [double] arithmetic on bit patterns *)

(** IEEE 754 binary64: the float of a pattern, and the pattern of a float.  All
    patterns of a NaN denote the one NaN of [SpecFloat]; an operation that
    yields it yields the quiet NaN. *)
Definition f64_of_bits (w : Z) : spec_float :=
  let s := Z.testbit w 63 in
  let e := Z.land (Z.shiftr w 52) 2047 in
  let m := Z.land w (2 ^ 52 - 1) in
  if e =? 2047 then if m =? 0 then S754_infinity s else S754_nan
  else if e =? 0 then
    match m with Zpos p => S754_finite s p (-1074) | _ => S754_zero s end
  else
    match 2 ^ 52 + m with Zpos p => S754_finite s p (e - 1075) | _ => S754_nan end.

Definition bits_of_f64 (f : spec_float) : Z :=
  let sign (s : bool) := if s then 2 ^ 63 else 0 in
  wrap64 match f with
  | S754_zero s => sign s
  | S754_infinity s => sign s + Z.shiftl 2047 52
  | S754_nan => Z.shiftl 4095 51
  | S754_finite s m e =>
      sign s + (if Zpos m <? 2 ^ 52 then Zpos m else Z.shiftl (e + 1074) 52 + Zpos m)
  end.

(** The conversion of a [uint64_t], and subtraction. *)
Definition f64_of_uint (n : Z) : Z :=
  bits_of_f64 (binary_normalize 53 1024 n 0 false).
Definition f64_sub (a b : Z) : Z :=
  bits_of_f64 (SFsub 53 1024 (f64_of_bits a) (f64_of_bits b)).
(** The conversion to [uint64_t] truncates; outside its range, on an infinity
    and on a NaN it is undefined. *)
Definition f64_to_uint (a : Z) : option Z :=
  let trunc m e := if 0 <=? e then Z.shiftl m e else Z.shiftr m (- e) in
  match f64_of_bits a with
  | S754_zero _ => Some 0
  | S754_finite s m e =>
      let t := trunc (Zpos m) e in
      if t =? 0 then Some 0
      else if s || (UINT64_MAX <? t) then None else Some t
  | _ => None
  end.

Lemma bits_of_f64_u64 f : wire_ok f64 (bits_of_f64 f).
Proof. unfold bits_of_f64, wrap64. cbn [wire_ok f64 u64 uint]. apply Z.mod_pos_bound. lia. Qed.

(** ** Memory and the copying monad *)

Record mem := Mem { buf : list Z; ptr : nat }.

Definition Copy (A : Type) : Type := mem -> res (A * mem).

#[global] Instance Copy_ret : MRet Copy := fun A a m => Ok (a, m).
#[global] Instance Copy_bind : MBind Copy := fun A B f c m =>
  match c m with
  | Ok (a, m') => f a m'
  | AssertFail => AssertFail
  end.

(** [ptr = n], [assert(ptr == n)], [assert(b)]. *)
Definition set_ptr (n : nat) : Copy unit := fun m => Ok (tt, Mem (buf m) n).
Definition assert_ptr (n : nat) : Copy unit := fun m =>
  if (ptr m =? n)%nat then Ok (tt, m) else AssertFail.
Definition cassert (b : bool) : Copy unit := fun m =>
  if b then Ok (tt, m) else AssertFail.

Definition splice (l : list Z) (p : nat) (bs : list Z) : list Z :=
  take p l ++ bs ++ drop (p + length bs) l.
Definition slice (l : list Z) (p n : nat) : list Z := take n (drop p l).

(** [COPY_BUF(d,v,p)]: [memcpy(&d[p], &v, sizeof(v)); p += sizeof(v)]. *)
Definition COPY_BUF {A} (w : Wire A) (v : A) : Copy unit := fun m =>
  if (ptr m + size_of w <=? length (buf m))%nat
  then Ok (tt, Mem (splice (buf m) (ptr m) (encode w v)) (ptr m + size_of w))
  else AssertFail.

(** [COPY_VAL(v,d,p)]: [memcpy(&v, &d[p], sizeof(v)); p += sizeof(v)]. *)
Definition COPY_VAL {A} (w : Wire A) : Copy A := fun m =>
  if (ptr m + size_of w <=? length (buf m))%nat
  then match decode w (slice (buf m) (ptr m) (size_of w)) with
       | Some v => Ok (v, Mem (buf m) (ptr m + size_of w))
       | None => AssertFail
       end
  else AssertFail.

(** The loops over the elements of an array. *)
Fixpoint copy_buf_each {A} (w : Wire A) (xs : list A) : Copy unit :=
  match xs with
  | [] => mret tt
  | x :: xs' => COPY_BUF w x;; copy_buf_each w xs'
  end.

Fixpoint encode_each {A} (w : Wire A) (xs : list A) : list Z :=
  match xs with
  | [] => []
  | x :: xs' => encode w x ++ encode_each w xs'
  end.

Lemma encode_each_length {A} (w : Wire A) xs :
  length (encode_each w xs) = (size_of w * length xs)%nat.
Proof.
  induction xs as [|x xs IH]; cbn; [lia|].
  rewrite length_app, encode_length, IH. lia.
Qed.

(** ** The calculus of copies *)

(** Run at position [p] of a buffer with room for [bs], [c] returns [a], puts
    [bs] there, and ends behind it. *)
Definition writes {A} (p : nat) (c : Copy A) (a : A) (bs : list Z) : Prop :=
  forall l, (p + length bs <= length l)%nat ->
  c (Mem l p) = Ok (a, Mem (splice l p bs) (p + length bs)).

(** Run at position [p] of a buffer that holds [bs] there, [c] returns [a],
    changes nothing, and ends behind it. *)
Definition reads {A} (p : nat) (c : Copy A) (bs : list Z) (a : A) : Prop :=
  forall l, (p + length bs <= length l)%nat -> slice l p (length bs) = bs ->
  c (Mem l p) = Ok (a, Mem l (p + length bs)).

Lemma splice_nil l p : splice l p [] = l.
Proof. unfold splice. cbn. rewrite Nat.add_0_r. apply take_drop. Qed.

Lemma splice_length l p bs :
  (p + length bs <= length l)%nat -> length (splice l p bs) = length l.
Proof.
  intros H. unfold splice. rewrite !length_app, length_take, length_drop. lia.
Qed.

Lemma splice_splice l p b1 b2 :
  (p + length (b1 ++ b2) <= length l)%nat ->
  splice (splice l p b1) (p + length b1) b2 = splice l p (b1 ++ b2).
Proof.
  rewrite length_app. intros H. unfold splice.
  assert (length (take p l) = p) as Hp by (rewrite length_take; lia).
  rewrite (app_assoc (take p l)), take_app_length'
    by (rewrite length_app, Hp; lia).
  rewrite drop_app_ge by (rewrite length_app, Hp; lia).
  rewrite length_app, Hp, drop_drop, length_app, <- !app_assoc.
  do 4 f_equal. lia.
Qed.

Lemma slice_splice l p bs :
  (p + length bs <= length l)%nat -> slice (splice l p bs) p (length bs) = bs.
Proof.
  intros H. unfold slice, splice.
  rewrite drop_app_length' by (rewrite length_take; lia). apply take_app_length.
Qed.

Lemma slice_app l p b1 b2 :
  slice l p (length (b1 ++ b2)) = b1 ++ b2 ->
  slice l p (length b1) = b1 /\ slice l (p + length b1) (length b2) = b2.
Proof.
  unfold slice. intros H.
  assert (drop p l = b1 ++ b2 ++ drop (length (b1 ++ b2)) (drop p l)) as E
    by (rewrite app_assoc, <- H at 1; symmetry; apply take_drop).
  rewrite <- drop_drop, E, take_app_length, drop_app_length. split; [done|].
  apply take_app_length.
Qed.

(** An operation on other objects in the middle of a copy. *)
Definition lift {A} (r : res A) : Copy A := fun m => a ← r; Ok (a, m).

Section Calculus.
Context {A B : Type}.
Implicit Types (c : Copy A) (k : A -> Copy B) (w : Wire A) (bs : list Z).

Lemma writes_eq p c a bs bs' : writes p c a bs' -> bs' = bs -> writes p c a bs.
Proof. by intros ? <-. Qed.

Lemma reads_eq p c a bs bs' : reads p c bs' a -> bs' = bs -> reads p c bs a.
Proof. by intros ? <-. Qed.

Lemma writes_bind p c k a b b1 b2 :
  writes p c a b1 -> writes (p + length b1) (k a) b b2 ->
  writes p (c ≫= k) b (b1 ++ b2).
Proof.
  intros H1 H2 l Hl. rewrite length_app in Hl.
  unfold mbind, Copy_bind. rewrite H1 by lia.
  rewrite H2 by (rewrite splice_length; lia).
  rewrite splice_splice by (rewrite length_app; lia). rewrite length_app.
  by rewrite Nat.add_assoc.
Qed.

Lemma reads_bind p c k a b b1 b2 :
  reads p c b1 a -> reads (p + length b1) (k a) b2 b ->
  reads p (c ≫= k) (b1 ++ b2) b.
Proof.
  intros H1 H2 l Hl [Hs1 Hs2]%slice_app. rewrite length_app in Hl |- *.
  unfold mbind, Copy_bind. rewrite H1 by (done || lia). rewrite H2 by (done || lia).
  by rewrite Nat.add_assoc.
Qed.

Lemma writes_ret p (a : A) : writes p (mret a) a [].
Proof. intros l _. cbn. unfold mret, Copy_ret. by rewrite splice_nil, Nat.add_0_r. Qed.

Lemma reads_ret p (a : A) : reads p (mret a) [] a.
Proof. intros l _ _. cbn. unfold mret, Copy_ret. by rewrite Nat.add_0_r. Qed.

Lemma writes_lift p (r : res A) a : r = Ok a -> writes p (lift r) a [].
Proof. intros -> l _. cbn. by rewrite splice_nil, Nat.add_0_r. Qed.

Lemma reads_lift p (r : res A) a : r = Ok a -> reads p (lift r) [] a.
Proof. intros -> l _ _. cbn. by rewrite Nat.add_0_r. Qed.

Lemma writes_COPY_BUF p w x : writes p (COPY_BUF w x) tt (encode w x).
Proof.
  intros l Hl. unfold COPY_BUF. cbn [ptr buf]. rewrite encode_length in Hl |- *.
  by rewrite (proj2 (Nat.leb_le _ _) Hl).
Qed.

Lemma reads_COPY_VAL p w x : wire_ok w x -> reads p (COPY_VAL w) (encode w x) x.
Proof.
  intros Hx l Hl Hs. unfold COPY_VAL. cbn [ptr buf]. rewrite encode_length in Hl, Hs |- *.
  rewrite (proj2 (Nat.leb_le _ _) Hl), Hs. by rewrite decode_encode.
Qed.
End Calculus.

Lemma writes_set_ptr p n : n = p -> writes p (set_ptr n) tt [].
Proof. intros -> l _. unfold set_ptr. cbn. by rewrite splice_nil, Nat.add_0_r. Qed.
Lemma reads_set_ptr p n : n = p -> reads p (set_ptr n) [] tt.
Proof. intros -> l _ _. unfold set_ptr. cbn. by rewrite Nat.add_0_r. Qed.

Lemma writes_assert_ptr p n : n = p -> writes p (assert_ptr n) tt [].
Proof.
  intros -> l _. unfold assert_ptr. cbn. by rewrite Nat.eqb_refl, splice_nil, Nat.add_0_r.
Qed.
Lemma reads_assert_ptr p n : n = p -> reads p (assert_ptr n) [] tt.
Proof. intros -> l _ _. unfold assert_ptr. cbn. by rewrite Nat.eqb_refl, Nat.add_0_r. Qed.

Lemma writes_cassert p b : b = true -> writes p (cassert b) tt [].
Proof. intros -> l _. unfold cassert. by rewrite splice_nil, Nat.add_0_r. Qed.
Lemma reads_cassert p b : b = true -> reads p (cassert b) [] tt.
Proof. intros -> l _ _. unfold cassert. cbn. by rewrite Nat.add_0_r. Qed.

Lemma writes_each {A} (w : Wire A) p xs : writes p (copy_buf_each w xs) tt (encode_each w xs).
Proof.
  revert p. induction xs as [|x xs IH]; intros p; [apply writes_ret|].
  eapply writes_bind; [apply writes_COPY_BUF|apply IH].
Qed.

(** What one object puts into a buffer, another takes out of it. *)
Lemma writes_then_reads {A B} (c : Copy A) (d : Copy B) p bs a b l :
  (p + length bs <= length l)%nat -> writes p c a bs -> reads p d bs b ->
  exists l', c (Mem l p) = Ok (a, Mem l' (p + length bs)) /\ length l' = length l /\
    take p l' = take p l /\ drop (p + length bs) l' = drop (p + length bs) l /\
    d (Mem l' p) = Ok (b, Mem l' (p + length bs)).
Proof.
  intros Hl Hw Hr. exists (splice l p bs). split; [by apply Hw|].
  split; [by apply splice_length|]. split.
  { unfold splice. rewrite take_app_length' by (rewrite length_take; lia). done. }
  split.
  { unfold splice. rewrite app_assoc, drop_app_length'; [done|].
    rewrite length_app, length_take. lia. }
  apply Hr; [by rewrite splice_length|by apply slice_splice].
Qed.

Create HintDb wire.
Create Rewrite HintDb wire.
#[export] Hint Resolve writes_COPY_BUF writes_each writes_ret reads_ret : wire.
Lemma size_u64 : size_of u64 = 8%nat. Proof. done. Qed.
Lemma size_u32 : size_of u32 = 4%nat. Proof. done. Qed.
Lemma size_f64 : size_of f64 = 8%nat. Proof. done. Qed.
Lemma size_size_t : size_of size_t = 8%nat. Proof. done. Qed.
Lemma size_bool8 : size_of bool8 = 1%nat. Proof. done. Qed.
Lemma size_chars n : size_of (chars n) = n. Proof. done. Qed.
#[export] Hint Rewrite size_u64 size_u32 size_f64 size_size_t size_bool8 size_chars : wire.
#[export] Hint Rewrite @encode_length @encode_each_length @length_app @length_nil
  Nat.add_0_r : wire.

(** Follows the sequence of copies; what is left are the positions and the
    asserted conditions that the code relies on. *)
Ltac wire_size := autorewrite with wire; cbn -[size_of Nat.add Nat.mul Nat.sub]; repeat (case_match; cbn -[size_of Nat.add Nat.mul Nat.sub]); solve [lia].
Ltac wire_step :=
  first
    [ lazymatch goal with
      | |- writes _ _ _ _ => solve [eauto 2 with wire]
      | |- reads _ _ _ _ => solve [eauto 2 with wire]
      end
    | eapply writes_bind | eapply reads_bind
    | apply writes_ret | apply reads_ret
    | apply writes_set_ptr; wire_size | apply reads_set_ptr; wire_size
    | apply writes_assert_ptr; wire_size | apply reads_assert_ptr; wire_size
    | apply writes_cassert | apply reads_cassert
    | apply writes_COPY_BUF | apply reads_COPY_VAL ].
Ltac wire_app := cbn [app]; rewrite ?app_nil_r, <- ?app_assoc; cbn [app]; try reflexivity.
Ltac wire := first [eapply writes_eq | eapply reads_eq]; [repeat wire_step|wire_app].
