(* ===== verification/CArray.v ===== *)
(** * CArray: [Array<T>]

    system/array.h, the arrays with a fixed capacity that queries and messages
    use.  [items], [capacity] and [count] of the class are here the list of the
    first [count] items and the capacity.  [operator[]] and [get] are the same
    code.  Freeing and allocating storage have no state of their own. *)

From stdpp Require Import base tactics list numbers.
From Stdlib Require Import ZArith Lia.
From S2P Require Import Prelude Wire.
#[local] Open Scope Z_scope.

Section Array.
Context {T : Type} `{EqDecision T}.

Record Array := mkArray { items : list T; capacity : Z }.

Definition count (a : Array) : Z := Z.of_nat (length (items a)).

(** The constructor. *)
Definition new : Array := mkArray [] 0.
Definition init (size : Z) (a : Array) : Array := mkArray [] size.
Definition clear (a : Array) : Array := mkArray [] (capacity a).
Definition release (a : Array) : Array := mkArray [] 0.
Definition add (a : Array) (item : T) : res Array :=
  assert! (count a <? capacity a);
  Ok (mkArray (items a ++ [item]) (capacity a)).
(** [for(i = 0; i < a.size(); i++) add(a[i])]. *)
Fixpoint add_all (a : Array) (xs : list T) : res Array :=
  match xs with
  | [] => Ok a
  | x :: xs' => a' ← add a x; add_all a' xs'
  end.
Definition copy (this a : Array) : res Array :=
  this' ← add_all (init (count a) this) (items a);
  assert! (count this' =? count a);
  Ok this'.
Definition append (this a : Array) : res Array :=
  assert! (count this + count a <=? capacity this);
  add_all this (items a).
Definition contains (a : Array) (item : T) : bool := existsb (fun x => bool_decide (x = item)) (items a).
Definition add_unique (a : Array) (item : T) : res Array :=
  if contains a item then Ok a else add a item.
Definition get (a : Array) (idx : Z) : res T :=
  assert! (idx <? count a);
  match items a !! Z.to_nat idx with Some x => Ok x | None => AssertFail end.
Definition set (a : Array) (idx : Z) (item : T) : res Array :=
  assert! (idx <? count a);
  Ok (mkArray (<[Z.to_nat idx := item]> (items a)) (capacity a)).
Fixpoint position (xs : list T) (item : T) : Z :=
  match xs with
  | [] => 0
  | x :: xs' => if decide (x = item) then 0 else 1 + position xs' item
  end.
Definition getPosition (a : Array) (item : T) : Z := position (items a) item.
(** Without a check: outside of the storage it is undefined. *)
Definition swap (a : Array) (i j : Z) : res Array :=
  match items a !! Z.to_nat i, items a !! Z.to_nat j with
  | Some x, Some y =>
      Ok (mkArray (<[Z.to_nat j := x]> (<[Z.to_nat i := y]> (items a))) (capacity a))
  | _, _ => AssertFail
  end.

(** The number of items stays within the capacity. *)
Definition array_ok (a : Array) : Prop := count a <= capacity a.

Lemma add_ok a x : count a < capacity a -> add a x = Ok (mkArray (items a ++ [x]) (capacity a)).
Proof. intros H. unfold add. by rewrite (proj2 (Z.ltb_lt _ _) H). Qed.

Lemma add_all_ok a xs :
  count a + Z.of_nat (length xs) <= capacity a ->
  add_all a xs = Ok (mkArray (items a ++ xs) (capacity a)).
Proof using EqDecision0.
  revert a. induction xs as [|x xs IH]; intros a Ha; cbn [add_all].
  { rewrite app_nil_r. by destruct a. }
  cbn [length] in Ha. rewrite add_ok by lia. unfold mbind, res_bind. rewrite IH.
  - cbn. by rewrite <- app_assoc.
  - unfold count in *. cbn. rewrite length_app. cbn. lia.
Qed.

Lemma append_ok this a :
  count this + count a <= capacity this ->
  append this a = Ok (mkArray (items this ++ items a) (capacity this)).
Proof.
  intros H. unfold append. rewrite (proj2 (Z.leb_le _ _) H). cbn. by rewrite add_all_ok.
Qed.

Lemma copy_ok this a : copy this a = Ok (mkArray (items a) (count a)).
Proof.
  unfold copy. rewrite add_all_ok by (unfold count; cbn; lia). cbn.
  unfold count at 1. cbn. by rewrite Z.eqb_refl.
Qed.
End Array.
Arguments Array T : clear implicits.

(** The loop of [copy_from_buf]: [n] times read an item, let [f] check or
    change it, and [add] it. *)
Fixpoint copy_val_each {T} (w : Wire T) (f : T -> res T) (n : nat) (a : Array T) : Copy (Array T) :=
  match n with
  | O => mret a
  | S n' =>
      x ← COPY_VAL w;
      x' ← lift (f x);
      a' ← lift (add a x');
      copy_val_each w f n' a'
  end.

(** The loop of [copy_to_buf], which asserts [f] of every item. *)
Fixpoint copy_buf_each_if {T} (w : Wire T) (f : T -> bool) (xs : list T) : Copy unit :=
  match xs with
  | [] => mret tt
  | x :: xs' => cassert (f x);; COPY_BUF w x;; copy_buf_each_if w f xs'
  end.

(** [size_t size; COPY_VAL(size); a.init(size); for(i < size) ...]. *)
Definition copy_val_array_with {T} (w : Wire T) (f : T -> res T) (a : Array T) : Copy (Array T) :=
  size ← COPY_VAL size_t;
  copy_val_each w f (Z.to_nat size) (init size a).
Definition copy_val_array {T} (w : Wire T) (a : Array T) : Copy (Array T) :=
  copy_val_array_with w Ok a.

(** [size_t size = a.size(); COPY_BUF(size); for(i < size) ...]. *)
Definition copy_buf_array {T} (w : Wire T) (a : Array T) : Copy unit :=
  COPY_BUF size_t (count a);;
  copy_buf_each w (items a).
Definition copy_buf_array_with {T} (w : Wire T) (f : T -> bool) (a : Array T) : Copy unit :=
  COPY_BUF size_t (count a);;
  copy_buf_each_if w f (items a).

Definition encode_array {T} (w : Wire T) (xs : list T) : list Z :=
  encode size_t (Z.of_nat (length xs)) ++ encode_each w xs.

Lemma encode_array_length {T} (w : Wire T) xs :
  length (encode_array w xs) = (8 + size_of w * length xs)%nat.
Proof. unfold encode_array. by rewrite length_app, encode_length, encode_each_length. Qed.

(** The values of an array that can travel. *)
Definition items_ok {T} (w : Wire T) (xs : list T) : Prop :=
  Z.of_nat (length xs) <= UINT64_MAX /\ Forall (wire_ok w) xs.

Lemma writes_copy_buf_array {T} (w : Wire T) p a :
  writes p (copy_buf_array w a) tt (encode_array w (items a)).
Proof. eapply writes_bind; [apply writes_COPY_BUF|apply writes_each]. Qed.

Lemma writes_copy_buf_each_if {T} (w : Wire T) f p xs :
  Forall (fun x => f x = true) xs -> writes p (copy_buf_each_if w f xs) tt (encode_each w xs).
Proof.
  intros Hxs. revert p. induction Hxs as [|x xs Hx _ IH]; intros p; [apply writes_ret|].
  eapply (writes_bind _ _ _ _ _ []); [by apply writes_cassert|].
  eapply writes_bind; [apply writes_COPY_BUF|apply IH].
Qed.

Lemma writes_copy_buf_array_with {T} (w : Wire T) f p a :
  Forall (fun x => f x = true) (items a) ->
  writes p (copy_buf_array_with w f a) tt (encode_array w (items a)).
Proof.
  intros Hxs. eapply writes_bind; [apply writes_COPY_BUF|by apply writes_copy_buf_each_if].
Qed.

Lemma reads_copy_val_each {T} `{EqDecision T} (w : Wire T) f p a xs :
  Forall (wire_ok w) xs -> Forall (fun x => f x = Ok x) xs ->
  count a + Z.of_nat (length xs) <= capacity a ->
  reads p (copy_val_each w f (length xs) a) (encode_each w xs)
    (mkArray (items a ++ xs) (capacity a)).
Proof.
  intros Hxs Hf. revert p a. induction xs as [|x xs IH]; intros p a Ha.
  { cbn. rewrite app_nil_r. destruct a. apply reads_ret. }
  inversion Hxs as [|?? Hx Hxs']. inversion Hf as [|?? Hfx Hf']. subst.
  cbn [length] in Ha. eapply reads_bind; [by apply reads_COPY_VAL|].
  eapply (reads_bind _ _ _ _ _ []); [by apply reads_lift|].
  eapply (reads_bind _ _ _ _ _ []); [by apply reads_lift, add_ok; lia|].
  replace (mkArray (items a ++ x :: xs) (capacity a)) with
    (mkArray ((items a ++ [x]) ++ xs) (capacity a)) by (by rewrite <- app_assoc).
  apply (IH Hxs' Hf' _ (mkArray (items a ++ [x]) (capacity a))).
  unfold count in *. cbn. rewrite length_app. cbn. lia.
Qed.

(** An array that was sent arrives with its items, at exactly the capacity it
    needs. *)
Lemma reads_copy_val_array_with {T} `{EqDecision T} (w : Wire T) f p a0 xs :
  items_ok w xs -> Forall (fun x => f x = Ok x) xs ->
  reads p (copy_val_array_with w f a0) (encode_array w xs) (mkArray xs (Z.of_nat (length xs))).
Proof.
  intros [Hl Hxs] Hf. eapply reads_bind.
  { apply reads_COPY_VAL, wire_ok_u64. unfold is_u64. lia. }
  cbn beta. rewrite Nat2Z.id.
  apply (reads_copy_val_each w f _ (init _ a0) xs); [done|done|unfold count; cbn; lia].
Qed.

Lemma reads_copy_val_array {T} `{EqDecision T} (w : Wire T) p a0 xs :
  items_ok w xs ->
  reads p (copy_val_array w a0) (encode_array w xs) (mkArray xs (Z.of_nat (length xs))).
Proof. intros H. apply reads_copy_val_array_with; [done|by apply Forall_true]. Qed.

#[export] Hint Resolve writes_copy_buf_array : wire.
#[export] Hint Rewrite @encode_array_length : wire.

(** The same under a compile-time condition. *)
Definition copy_buf_array_if {T} (b : bool) (w : Wire T) (a : Array T) : Copy unit :=
  if b then copy_buf_array w a else mret tt.
Definition copy_val_array_if {T} (b : bool) (w : Wire T) (a : Array T) : Copy (Array T) :=
  if b then copy_val_array w a else mret a.
Definition encode_array_if {T} (b : bool) (w : Wire T) (xs : list T) : list Z :=
  if b then encode_array w xs else [].

Lemma writes_copy_buf_array_if {T} b (w : Wire T) p a :
  writes p (copy_buf_array_if b w a) tt (encode_array_if b w (items a)).
Proof. destruct b; [apply writes_copy_buf_array|apply writes_ret]. Qed.

Lemma reads_copy_val_array_if {T} `{EqDecision T} b (w : Wire T) p a0 xs :
  (b = true -> items_ok w xs) ->
  reads p (copy_val_array_if b w a0) (encode_array_if b w xs)
    (if b then mkArray xs (Z.of_nat (length xs)) else a0).
Proof. destruct b; intros H; [apply reads_copy_val_array; auto|apply reads_ret]. Qed.

Lemma encode_array_if_length {T} b (w : Wire T) xs :
  length (encode_array_if b w xs) = if b then (8 + size_of w * length xs)%nat else 0%nat.
Proof. destruct b; [apply encode_array_length|done]. Qed.

(** An array that has been through the buffer: the items, at exactly the
    capacity they need. *)
Definition tight {T} (a : Array T) : Array T := mkArray (items a) (count a).

#[export] Hint Resolve writes_copy_buf_array_if : wire.
#[export] Hint Rewrite @encode_array_if_length : wire.
