(* ===== verification/Message.v ===== *)
(** * Message: the messages of transport/message.cpp without a query

    [Message] with [mcopy_to_buf] and [mcopy_from_buf], and the classes of the
    commit protocol and its replies.  What is compiled in for a concurrency
    control algorithm ([#if CC_ALG == ...]) is a test on the configuration, and
    a member that only some configurations have is a field that only they read.

    A class is an instance of [MessageClass], its virtual methods; the instances
    of [MessageLaws] prove what the batching of MessageBatch relies on: a
    message that is well formed is written to exactly [get_size] bytes without a
    failing assertion, and an object that reads these bytes has the members of
    the message that travel.  [layout] is the wire format, [sent] the object
    after writing (the latency statistics change), [received] the reader's.
    [get_sys_clock()] is the argument [now]. *)

From stdpp Require Import base tactics list numbers.
From Stdlib Require Import ZArith Lia.
From S2P Require Import Prelude Wire CArray.
#[local] Open Scope Z_scope.

(** ** The configuration *)

(** The values of [CC_ALG] and [WORKLOAD] (config.h). *)
Inductive CcAlg :=
| CC_NO_WAIT | CC_WAIT_DIE | CC_DL_DETECT | CC_TIMESTAMP | CC_MVCC | CC_HSTORE
| CC_HSTORE_SPEC | CC_OCC | CC_VLL | CC_CALVIN | CC_MAAT | CC_WDL | CC_WOOKONG
| CC_TICTOC | CC_FOCC | CC_BOCC | CC_SSI | CC_WSI | CC_DLI_BASE | CC_DLI_OCC
| CC_DLI_MVCC_OCC | CC_DTA | CC_DLI_DTA | CC_DLI_MVCC | CC_DLI_DTA2 | CC_DLI_DTA3
| CC_SILO.
Inductive WorkloadKind := WL_YCSB | WL_TPCC | WL_PPS | WL_TEST | WL_DA.

#[global] Instance CcAlg_eq_dec : EqDecision CcAlg.
Proof. solve_decision. Defined.
#[global] Instance WorkloadKind_eq_dec : EqDecision WorkloadKind.
Proof. solve_decision. Defined.

(** The compile-time and start-up parameters that messages depend on. *)
Class Config := {
  CC_ALG : CcAlg;
  WORKLOAD : WorkloadKind;
  g_node_id : Z;
  g_node_cnt : Z;
  g_client_node_cnt : Z;
  g_repl_cnt : Z;
  g_synth_table_size : Z;
  g_req_per_query : Z;
  g_msg_size : nat;
  g_msg_time_limit : Z;
  (** what an unseeded random generator draws for a request with this key *)
  myrand_next : Z -> Z
}.

(** [CC_ALG == alg] for one of several algorithms. *)
Definition cc_in `{!Config} (algs : list CcAlg) : bool := bool_decide (CC_ALG ∈ algs).
Definition cc_is `{!Config} (alg : CcAlg) : bool := bool_decide (CC_ALG = alg).
Definition wl_is `{!Config} (wl : WorkloadKind) : bool := bool_decide (WORKLOAD = wl).

(** ** Enumerations *)

(** [enum RemReqType] of system/global.h up to [FINISH_MIGRATION]; the numbers
    of the later ones depend on how the merge conflict there is resolved. *)
Inductive RemReqType :=
| INIT_DONE | RLK | RULK | CL_QRY | CL_QRY_O | RQRY | RQRY_CONT | RFIN | RLK_RSP
| RULK_RSP | RQRY_RSP | RACK | RACK_PREP | RACK_FIN | RTXN | RTXN_CONT | RINIT
| RPREPARE | RPASS | RFWD | RDONE | CL_RSP | LOG_MSG | LOG_MSG_RSP | LOG_FLUSHED
| CALVIN_ACK | SYNC | ACK_SYNC | SEND_MIGRATION | RECV_MIGRATION | FINISH_MIGRATION.

#[global] Instance RemReqType_eq_dec : EqDecision RemReqType.
Proof. solve_decision. Defined.

Definition rtypes : list RemReqType :=
  [INIT_DONE; RLK; RULK; CL_QRY; CL_QRY_O; RQRY; RQRY_CONT; RFIN; RLK_RSP;
   RULK_RSP; RQRY_RSP; RACK; RACK_PREP; RACK_FIN; RTXN; RTXN_CONT; RINIT;
   RPREPARE; RPASS; RFWD; RDONE; CL_RSP; LOG_MSG; LOG_MSG_RSP; LOG_FLUSHED;
   CALVIN_ACK; SYNC; ACK_SYNC; SEND_MIGRATION; RECV_MIGRATION; FINISH_MIGRATION].
Definition rcs : list RC := [RCOK; Commit; Abort; WAIT; WAIT_REM; ERROR; FINISH; RC_NONE].

(** The number of an enumerator is its place. *)
Fixpoint place {A} `{EqDecision A} (x : A) (l : list A) : Z :=
  match l with
  | [] => 0
  | y :: l' => if decide (x = y) then 0 else 1 + place x l'
  end.
Definition nth_of {A} (l : list A) (z : Z) : option A := l !! Z.to_nat z.

Lemma rtype_code_ok x : 0 <= place x rtypes < 256 ^ 4 /\ nth_of rtypes (place x rtypes) = Some x.
Proof. destruct x; vm_compute; intuition discriminate. Qed.
Lemma rc_code_ok x : 0 <= place x rcs < 256 ^ 4 /\ nth_of rcs (place x rcs) = Some x.
Proof. destruct x; vm_compute; intuition discriminate. Qed.

Definition rtype_wire : Wire RemReqType := enum (fun x => place x rtypes) (nth_of rtypes) rtype_code_ok.
Definition rc_wire : Wire RC := enum (fun x => place x rcs) (nth_of rcs) rc_code_ok.

(** ** [Message] *)

Record Message := mkMessage {
  rtype : RemReqType;
  txn_id : Z;
  batch_id : Z;
  return_node_id : Z;
  wq_time : Z;
  mq_time : Z;
  ntwk_time : Z;
  (** doubles, as bit patterns *)
  lat_work_queue_time : Z;
  lat_msg_queue_time : Z;
  lat_cc_block_time : Z;
  lat_cc_time : Z;
  lat_process_time : Z;
  lat_network_time : Z;
  lat_other_time : Z
}.

Section Base.
Context {cfg : Config}.

Definition IS_LOCAL (tid : Z) : bool := (tid mod g_node_cnt =? g_node_id) || cc_is CC_CALVIN.
Definition ISSERVERN (id : Z) : bool := id <? g_node_cnt.
Definition ISCLIENTN (id : Z) : bool :=
  (g_node_cnt <=? id) && (id <? g_node_cnt + g_client_node_cnt).
Definition ISREPLICAN (id : Z) : bool :=
  (g_node_cnt + g_client_node_cnt <=? id)
  && (id <? g_node_cnt + g_client_node_cnt + g_repl_cnt * g_node_cnt).

Definition mget_size : nat :=
  (size_of rtype_wire + size_of u64 + (if cc_is CC_CALVIN then size_of u64 else 0)
   + size_of u64 + size_of u64 * 7)%nat.

(** The member [batch_id] travels only under CALVIN. *)
Definition copy_buf_if {A} (b : bool) (w : Wire A) (x : A) : Copy unit :=
  if b then COPY_BUF w x else mret tt.
Definition copy_val_if {A} (b : bool) (w : Wire A) (x : A) : Copy A :=
  if b then COPY_VAL w else mret x.
Definition encode_if {A} (b : bool) (w : Wire A) (x : A) : list Z :=
  if b then encode w x else [].

(** Does the message start, or end, its journey at this node? *)
Definition stamps_departure (m : Message) : bool :=
  (cc_is CC_CALVIN && bool_decide (rtype m ∈ [CL_QRY; CL_QRY_O])
     && (txn_id m mod g_node_cnt =? g_node_id))
  || (negb (cc_is CC_CALVIN) && IS_LOCAL (txn_id m)).
Definition stamps_arrival (m : Message) : bool :=
  (cc_is CC_CALVIN && bool_decide (rtype m = CALVIN_ACK)
     && (txn_id m mod g_node_cnt =? g_node_id))
  || (negb (cc_is CC_CALVIN) && IS_LOCAL (txn_id m)).

Definition set_lat (m : Message) (net other : Z) : Message :=
  mkMessage (rtype m) (txn_id m) (batch_id m) (return_node_id m) (wq_time m) (mq_time m)
    (ntwk_time m) (lat_work_queue_time m) (lat_msg_queue_time m) (lat_cc_block_time m)
    (lat_cc_time m) (lat_process_time m) net other.

Definition stamp_departure (now : Z) (m : Message) : Message :=
  if stamps_departure m then set_lat m (f64_of_uint now) (lat_other_time m)
  else set_lat m (lat_network_time m) (f64_sub (f64_of_uint now) (lat_other_time m)).
Definition stamp_arrival (now : Z) (m : Message) : Message :=
  if stamps_arrival m
  then set_lat m (f64_sub (f64_sub (f64_of_uint now) (lat_network_time m)) (lat_other_time m))
         (lat_other_time m)
  else set_lat m (lat_network_time m) (f64_of_uint now).

Definition mcopy_to_buf (now : Z) (m : Message) : Copy Message :=
  set_ptr 0;;
  COPY_BUF rtype_wire (rtype m);;
  COPY_BUF u64 (txn_id m);;
  copy_buf_if (cc_is CC_CALVIN) u64 (batch_id m);;
  COPY_BUF u64 (mq_time m);;
  COPY_BUF f64 (lat_work_queue_time m);;
  COPY_BUF f64 (lat_msg_queue_time m);;
  COPY_BUF f64 (lat_cc_block_time m);;
  COPY_BUF f64 (lat_cc_time m);;
  COPY_BUF f64 (lat_process_time m);;
  let m' := stamp_departure now m in
  COPY_BUF f64 (lat_network_time m');;
  COPY_BUF f64 (lat_other_time m');;
  mret m'.

Definition mcopy_from_buf (now : Z) (this : Message) : Copy Message :=
  set_ptr 0;;
  rtype ← COPY_VAL rtype_wire;
  txn_id ← COPY_VAL u64;
  batch_id ← copy_val_if (cc_is CC_CALVIN) u64 (batch_id this);
  mq_time ← COPY_VAL u64;
  lat_work_queue_time ← COPY_VAL f64;
  lat_msg_queue_time ← COPY_VAL f64;
  lat_cc_block_time ← COPY_VAL f64;
  lat_cc_time ← COPY_VAL f64;
  lat_process_time ← COPY_VAL f64;
  lat_network_time ← COPY_VAL f64;
  lat_other_time ← COPY_VAL f64;
  mret (stamp_arrival now
    (mkMessage rtype txn_id batch_id (return_node_id this) (wq_time this) mq_time
       (ntwk_time this) lat_work_queue_time lat_msg_queue_time lat_cc_block_time
       lat_cc_time lat_process_time lat_network_time lat_other_time)).

(** *** The wire format of the common part *)

Definition mlayout (m : Message) : list Z :=
  encode rtype_wire (rtype m) ++ encode u64 (txn_id m)
  ++ encode_if (cc_is CC_CALVIN) u64 (batch_id m) ++ encode u64 (mq_time m)
  ++ encode f64 (lat_work_queue_time m) ++ encode f64 (lat_msg_queue_time m)
  ++ encode f64 (lat_cc_block_time m) ++ encode f64 (lat_cc_time m)
  ++ encode f64 (lat_process_time m)
  ++ encode f64 (lat_network_time m) ++ encode f64 (lat_other_time m).

(** Members that fit their C++ types. *)
Definition message_ok (m : Message) : Prop :=
  Forall is_u64
    [txn_id m; batch_id m; mq_time m; lat_work_queue_time m; lat_msg_queue_time m;
     lat_cc_block_time m; lat_cc_time m; lat_process_time m; lat_network_time m;
     lat_other_time m].

(** What [this] becomes when it reads the message [m]. *)
Definition mreceived (now : Z) (this m : Message) : Message :=
  stamp_arrival now
    (mkMessage (rtype m) (txn_id m)
       (if cc_is CC_CALVIN then batch_id m else batch_id this)
       (return_node_id this) (wq_time this) (mq_time m) (ntwk_time this)
       (lat_work_queue_time m) (lat_msg_queue_time m) (lat_cc_block_time m)
       (lat_cc_time m) (lat_process_time m) (lat_network_time m) (lat_other_time m)).

Lemma encode_if_length {A} b (w : Wire A) x :
  length (encode_if b w x) = if b then size_of w else 0%nat.
Proof using Type. destruct b; [apply encode_length|done]. Qed.

Lemma writes_copy_buf_if {A} b (w : Wire A) x p :
  writes p (copy_buf_if b w x) tt (encode_if b w x).
Proof using Type. destruct b; [apply writes_COPY_BUF|apply writes_ret]. Qed.

Lemma reads_copy_val_if {A} b (w : Wire A) x y p :
  (b = true -> wire_ok w x) ->
  reads p (copy_val_if b w y) (encode_if b w x) (if b then x else y).
Proof using Type.
  destruct b; intros H; [apply reads_COPY_VAL; by apply H|apply reads_ret].
Qed.

Lemma mlayout_length m : length (mlayout m) = mget_size.
Proof.
  unfold mlayout, mget_size. rewrite !length_app, !encode_length, encode_if_length.
  cbn. lia.
Qed.

Lemma stamp_departure_ok now m : message_ok m -> message_ok (stamp_departure now m).
Proof.
  unfold message_ok, stamp_departure. rewrite !Forall_cons_iff. intros H.
  pose proof (fun f => proj1 (wire_ok_u64 _) (bits_of_f64_u64 f)) as Hf.
  destruct (stamps_departure m); cbn; rewrite ?Forall_cons_iff; naive_solver.
Qed.

Lemma stamp_departure_rtype now m : rtype (stamp_departure now m) = rtype m.
Proof. unfold stamp_departure. by case_match. Qed.

Lemma writes_mcopy_to_buf now m :
  writes 0 (mcopy_to_buf now m) (stamp_departure now m) (mlayout (stamp_departure now m)).
Proof.
  unfold mcopy_to_buf. eapply writes_eq.
  - repeat first [wire_step | apply writes_copy_buf_if].
  - wire_app. unfold mlayout, stamp_departure. by case_match.
Qed.

Lemma reads_mcopy_from_buf now this m :
  message_ok m -> reads 0 (mcopy_from_buf now this) (mlayout m) (mreceived now this m).
Proof.
  unfold message_ok. rewrite !Forall_cons_iff, <- !wire_ok_u64. intros Hm.
  unfold mcopy_from_buf. eapply reads_eq.
  - repeat first [apply reads_copy_val_if | wire_step]; try tauto; done.
  - wire_app.
Qed.
End Base.

(** ** Virtual methods *)

Class MessageClass {cfg : Config} (M : Type) := {
  base : M -> Message;
  set_base : Message -> M -> M;
  get_size : M -> nat;
  copy_to_buf : Z -> M -> Copy M;
  copy_from_buf : Z -> M -> Copy M
}.

(** What a class promises to those who send and receive its messages. *)
Class MessageLaws {cfg : Config} (M : Type) `{!MessageClass M} := {
  msg_ok : M -> Prop;
  layout : M -> list Z;
  sent : Z -> M -> M;
  received : Z -> M -> M -> M;
  layout_length m : length (layout m) = get_size m;
  layout_head m : exists rest, layout m = mlayout (base m) ++ rest;
  base_set_base b m : base (set_base b m) = b;
  sent_base now m : base (sent now m) = stamp_departure now (base m);
  sent_ok now m : msg_ok m -> msg_ok (sent now m);
  sent_size now m : get_size (sent now m) = get_size m;
  received_size now this m : get_size (received now this m) = get_size m;
  writes_msg now m : msg_ok m ->
    writes 0 (copy_to_buf now m) (sent now m) (layout (sent now m));
  reads_msg now this m : msg_ok m ->
    reads 0 (copy_from_buf now this) (layout m) (received now this m)
}.

#[export] Hint Resolve writes_mcopy_to_buf reads_mcopy_from_buf writes_copy_buf_if
  reads_copy_val_if : wire.
#[export] Hint Rewrite @mlayout_length @encode_if_length : wire.
#[export] Hint Resolve stamp_departure_ok : wire.

(** The proof obligations of an instance: the database [msg] unfolds the class
    and its methods. *)
Create HintDb msg.
Ltac msg_split := repeat (match goal with H : _ /\ _ |- _ => destruct H end).
Ltac msg_open :=
  intros; autounfold with msg in *;
  cbn [base set_base get_size copy_to_buf copy_from_buf fst snd] in *;
  repeat (match goal with H : _ /\ _ |- _ => destruct H end).
Ltac wire_size ::=
  autorewrite with wire; cbn -[size_of mget_size Nat.add Nat.mul Nat.sub];
  repeat (case_match; cbn -[size_of mget_size Nat.add Nat.mul Nat.sub]); solve [lia].
Ltac msg_size :=
  intros; first [reflexivity
  | msg_open; autorewrite with wire; cbn [size_of rtype_wire rc_wire enum];
    repeat case_match; solve [done | lia]
  | msg_open; wire_size ].
Ltac msg_ok_tac :=
  msg_open; repeat (match goal with |- _ /\ _ => split end);
  first [assumption | cbn; auto with wire].
Ltac msg_side := intros; try first [exact I | by apply wire_ok_u64 | done].
Ltac msg_wire :=
  msg_open; first [eapply writes_eq | eapply reads_eq];
  [repeat first [apply reads_copy_val_if | apply reads_copy_val_array_if
                | apply reads_copy_val_array | wire_step]; msg_side|wire_app].

(** ** The message classes *)

Section Classes.
Context {cfg : Config}.

(** The algorithms that send a commit timestamp, and those that send the
    bounds of an interval. *)
Definition has_commit_ts : bool :=
  cc_in [CC_MAAT; CC_WOOKONG; CC_SSI; CC_WSI; CC_DTA; CC_DLI_DTA; CC_DLI_DTA2;
         CC_DLI_DTA3; CC_DLI_MVCC_OCC; CC_DLI_MVCC; CC_SILO].
Definition has_bounds : bool :=
  cc_in [CC_MAAT; CC_WOOKONG; CC_DTA; CC_DLI_DTA; CC_DLI_DTA2; CC_DLI_DTA3].

Record InitDoneMessage := mkInitDone {
  init_msg : Message
}.
Definition InitDoneMessage_get_size (m : InitDoneMessage) : nat :=
  (mget_size)%nat.
Definition InitDoneMessage_copy_to_buf (now : Z) (m : InitDoneMessage) : Copy InitDoneMessage :=
  b ← mcopy_to_buf now (init_msg m);
  set_ptr mget_size;;
  mret (mkInitDone b).
Definition InitDoneMessage_copy_from_buf (now : Z) (this : InitDoneMessage) : Copy InitDoneMessage :=
  b ← mcopy_from_buf now (init_msg this);
  set_ptr mget_size;;
  mret (mkInitDone b).
#[export] Instance InitDoneMessage_class : MessageClass InitDoneMessage := {
  base := init_msg;
  set_base b m := mkInitDone b;
  get_size := InitDoneMessage_get_size;
  copy_to_buf := InitDoneMessage_copy_to_buf; copy_from_buf := InitDoneMessage_copy_from_buf }.
#[local] Hint Unfold InitDoneMessage_class InitDoneMessage_get_size
  InitDoneMessage_copy_to_buf InitDoneMessage_copy_from_buf : msg.
#[export] Program Instance InitDoneMessage_laws : MessageLaws InitDoneMessage := {
  msg_ok m := message_ok (init_msg m);
  layout m := mlayout (init_msg m);
  sent now m := mkInitDone (stamp_departure now (init_msg m));
  received now this m := mkInitDone (mreceived now (init_msg this) (init_msg m)) }.
Next Obligation. msg_size. Qed.
Next Obligation. intros m. exists []; by rewrite app_nil_r. Qed.
Next Obligation. done. Qed.
Next Obligation. done. Qed.
Next Obligation. msg_ok_tac. Qed.
Next Obligation. msg_size. Qed.
Next Obligation. msg_size. Qed.
Next Obligation. msg_wire. Qed.
Next Obligation. msg_wire. Qed.

Record LogRspMessage := mkLogRsp {
  logrsp_msg : Message
}.
Definition LogRspMessage_get_size (m : LogRspMessage) : nat :=
  (mget_size)%nat.
Definition LogRspMessage_copy_to_buf (now : Z) (m : LogRspMessage) : Copy LogRspMessage :=
  b ← mcopy_to_buf now (logrsp_msg m);
  set_ptr mget_size;;
  mret (mkLogRsp b).
Definition LogRspMessage_copy_from_buf (now : Z) (this : LogRspMessage) : Copy LogRspMessage :=
  b ← mcopy_from_buf now (logrsp_msg this);
  set_ptr mget_size;;
  mret (mkLogRsp b).
#[export] Instance LogRspMessage_class : MessageClass LogRspMessage := {
  base := logrsp_msg;
  set_base b m := mkLogRsp b;
  get_size := LogRspMessage_get_size;
  copy_to_buf := LogRspMessage_copy_to_buf; copy_from_buf := LogRspMessage_copy_from_buf }.
#[local] Hint Unfold LogRspMessage_class LogRspMessage_get_size
  LogRspMessage_copy_to_buf LogRspMessage_copy_from_buf : msg.
#[export] Program Instance LogRspMessage_laws : MessageLaws LogRspMessage := {
  msg_ok m := message_ok (logrsp_msg m);
  layout m := mlayout (logrsp_msg m);
  sent now m := mkLogRsp (stamp_departure now (logrsp_msg m));
  received now this m := mkLogRsp (mreceived now (logrsp_msg this) (logrsp_msg m)) }.
Next Obligation. msg_size. Qed.
Next Obligation. intros m. exists []; by rewrite app_nil_r. Qed.
Next Obligation. done. Qed.
Next Obligation. done. Qed.
Next Obligation. msg_ok_tac. Qed.
Next Obligation. msg_size. Qed.
Next Obligation. msg_size. Qed.
Next Obligation. msg_wire. Qed.
Next Obligation. msg_wire. Qed.

(** [DoneMessage] declares a second [batch_id], which does not travel. *)
Record DoneMessage := mkDone {
  done_msg : Message;
  done_batch_id : Z
}.
Definition DoneMessage_get_size (m : DoneMessage) : nat :=
  (mget_size)%nat.
Definition DoneMessage_copy_to_buf (now : Z) (m : DoneMessage) : Copy DoneMessage :=
  b ← mcopy_to_buf now (done_msg m);
  set_ptr mget_size;;
  assert_ptr (DoneMessage_get_size m);;
  mret (mkDone b (done_batch_id m)).
Definition DoneMessage_copy_from_buf (now : Z) (this : DoneMessage) : Copy DoneMessage :=
  b ← mcopy_from_buf now (done_msg this);
  set_ptr mget_size;;
  assert_ptr (DoneMessage_get_size this);;
  mret (mkDone b (done_batch_id this)).
#[export] Instance DoneMessage_class : MessageClass DoneMessage := {
  base := done_msg;
  set_base b m := mkDone b (done_batch_id m);
  get_size := DoneMessage_get_size;
  copy_to_buf := DoneMessage_copy_to_buf; copy_from_buf := DoneMessage_copy_from_buf }.
#[local] Hint Unfold DoneMessage_class DoneMessage_get_size
  DoneMessage_copy_to_buf DoneMessage_copy_from_buf : msg.
#[export] Program Instance DoneMessage_laws : MessageLaws DoneMessage := {
  msg_ok m := message_ok (done_msg m);
  layout m := mlayout (done_msg m);
  sent now m := mkDone (stamp_departure now (done_msg m)) (done_batch_id m);
  received now this m := mkDone (mreceived now (done_msg this) (done_msg m)) (done_batch_id this) }.
Next Obligation. msg_size. Qed.
Next Obligation. intros m. exists []; by rewrite app_nil_r. Qed.
Next Obligation. done. Qed.
Next Obligation. done. Qed.
Next Obligation. msg_ok_tac. Qed.
Next Obligation. msg_size. Qed.
Next Obligation. msg_size. Qed.
Next Obligation. msg_wire. Qed.
Next Obligation. msg_wire. Qed.

Record FinishMessage := mkFinish {
  fin_msg : Message;
  fin_pid : Z;
  fin_rc : RC;
  fin_readonly : bool;
  fin_commit_timestamp : Z
}.
Definition FinishMessage_get_size (m : FinishMessage) : nat :=
  (mget_size + size_of u64 + size_of rc_wire + size_of bool8
   + (if has_commit_ts then size_of u64 else 0))%nat.
Definition FinishMessage_copy_to_buf (now : Z) (m : FinishMessage) : Copy FinishMessage :=
  b ← mcopy_to_buf now (fin_msg m);
  set_ptr mget_size;;
  COPY_BUF u64 (fin_pid m);;
  COPY_BUF rc_wire (fin_rc m);;
  COPY_BUF bool8 (fin_readonly m);;
  copy_buf_if (has_commit_ts) u64 (fin_commit_timestamp m);;
  assert_ptr (FinishMessage_get_size m);;
  mret (mkFinish b (fin_pid m) (fin_rc m) (fin_readonly m) (fin_commit_timestamp m)).
Definition FinishMessage_copy_from_buf (now : Z) (this : FinishMessage) : Copy FinishMessage :=
  b ← mcopy_from_buf now (fin_msg this);
  set_ptr mget_size;;
  pid ← COPY_VAL u64;
  rc ← COPY_VAL rc_wire;
  readonly ← COPY_VAL bool8;
  commit_timestamp ← copy_val_if (has_commit_ts) u64 (fin_commit_timestamp this);
  assert_ptr (FinishMessage_get_size this);;
  mret (mkFinish b pid rc readonly commit_timestamp).
#[export] Instance FinishMessage_class : MessageClass FinishMessage := {
  base := fin_msg;
  set_base b m := mkFinish b (fin_pid m) (fin_rc m) (fin_readonly m) (fin_commit_timestamp m);
  get_size := FinishMessage_get_size;
  copy_to_buf := FinishMessage_copy_to_buf; copy_from_buf := FinishMessage_copy_from_buf }.
#[local] Hint Unfold FinishMessage_class FinishMessage_get_size
  FinishMessage_copy_to_buf FinishMessage_copy_from_buf : msg.
#[export] Program Instance FinishMessage_laws : MessageLaws FinishMessage := {
  msg_ok m := message_ok (fin_msg m) /\ is_u64 (fin_pid m) /\ is_u64 (fin_commit_timestamp m);
  layout m := mlayout (fin_msg m)
    ++ encode u64 (fin_pid m)
    ++ encode rc_wire (fin_rc m)
    ++ encode bool8 (fin_readonly m)
    ++ encode_if (has_commit_ts) u64 (fin_commit_timestamp m);
  sent now m := mkFinish (stamp_departure now (fin_msg m)) (fin_pid m) (fin_rc m) (fin_readonly m) (fin_commit_timestamp m);
  received now this m := mkFinish (mreceived now (fin_msg this) (fin_msg m)) (fin_pid m) (fin_rc m) (fin_readonly m)
    (if has_commit_ts then fin_commit_timestamp m else fin_commit_timestamp this) }.
Next Obligation. msg_size. Qed.
Next Obligation. intros m. eexists; reflexivity. Qed.
Next Obligation. done. Qed.
Next Obligation. done. Qed.
Next Obligation. msg_ok_tac. Qed.
Next Obligation. msg_size. Qed.
Next Obligation. msg_size. Qed.
Next Obligation. msg_wire. Qed.
Next Obligation. msg_wire. Qed.

Record QueryResponseMessage := mkQueryResponse {
  qrsp_msg : Message;
  qrsp_rc : RC;
  qrsp_min_commit_ts : Z;
  qrsp_pid : Z
}.
Definition QueryResponseMessage_get_size (m : QueryResponseMessage) : nat :=
  (mget_size + size_of rc_wire
   + (if cc_is CC_TICTOC then size_of u64 else 0))%nat.
Definition QueryResponseMessage_copy_to_buf (now : Z) (m : QueryResponseMessage) : Copy QueryResponseMessage :=
  b ← mcopy_to_buf now (qrsp_msg m);
  set_ptr mget_size;;
  COPY_BUF rc_wire (qrsp_rc m);;
  copy_buf_if (cc_is CC_TICTOC) u64 (qrsp_min_commit_ts m);;
  assert_ptr (QueryResponseMessage_get_size m);;
  mret (mkQueryResponse b (qrsp_rc m) (qrsp_min_commit_ts m) (qrsp_pid m)).
Definition QueryResponseMessage_copy_from_buf (now : Z) (this : QueryResponseMessage) : Copy QueryResponseMessage :=
  b ← mcopy_from_buf now (qrsp_msg this);
  set_ptr mget_size;;
  rc ← COPY_VAL rc_wire;
  min_commit_ts ← copy_val_if (cc_is CC_TICTOC) u64 (qrsp_min_commit_ts this);
  assert_ptr (QueryResponseMessage_get_size this);;
  mret (mkQueryResponse b rc min_commit_ts (qrsp_pid this)).
#[export] Instance QueryResponseMessage_class : MessageClass QueryResponseMessage := {
  base := qrsp_msg;
  set_base b m := mkQueryResponse b (qrsp_rc m) (qrsp_min_commit_ts m) (qrsp_pid m);
  get_size := QueryResponseMessage_get_size;
  copy_to_buf := QueryResponseMessage_copy_to_buf; copy_from_buf := QueryResponseMessage_copy_from_buf }.
#[local] Hint Unfold QueryResponseMessage_class QueryResponseMessage_get_size
  QueryResponseMessage_copy_to_buf QueryResponseMessage_copy_from_buf : msg.
#[export] Program Instance QueryResponseMessage_laws : MessageLaws QueryResponseMessage := {
  msg_ok m := message_ok (qrsp_msg m) /\ is_u64 (qrsp_min_commit_ts m);
  layout m := mlayout (qrsp_msg m)
    ++ encode rc_wire (qrsp_rc m)
    ++ encode_if (cc_is CC_TICTOC) u64 (qrsp_min_commit_ts m);
  sent now m := mkQueryResponse (stamp_departure now (qrsp_msg m)) (qrsp_rc m) (qrsp_min_commit_ts m) (qrsp_pid m);
  received now this m := mkQueryResponse (mreceived now (qrsp_msg this) (qrsp_msg m)) (qrsp_rc m)
    (if cc_is CC_TICTOC then qrsp_min_commit_ts m else qrsp_min_commit_ts this) (qrsp_pid this) }.
Next Obligation. msg_size. Qed.
Next Obligation. intros m. eexists; reflexivity. Qed.
Next Obligation. done. Qed.
Next Obligation. done. Qed.
Next Obligation. msg_ok_tac. Qed.
Next Obligation. msg_size. Qed.
Next Obligation. msg_size. Qed.
Next Obligation. msg_wire. Qed.
Next Obligation. msg_wire. Qed.

(** [pid], [rc] and the second [txn_id] that the class declares do not travel. *)
Record PrepareMessage := mkPrepare {
  prep_msg : Message;
  prep_min_commit_ts : Z;
  prep_pid : Z;
  prep_rc : RC;
  prep_txn_id : Z
}.
Definition PrepareMessage_get_size (m : PrepareMessage) : nat :=
  (mget_size
   + (if cc_is CC_TICTOC then size_of u64 else 0))%nat.
Definition PrepareMessage_copy_to_buf (now : Z) (m : PrepareMessage) : Copy PrepareMessage :=
  b ← mcopy_to_buf now (prep_msg m);
  set_ptr mget_size;;
  copy_buf_if (cc_is CC_TICTOC) u64 (prep_min_commit_ts m);;
  assert_ptr (PrepareMessage_get_size m);;
  mret (mkPrepare b (prep_min_commit_ts m) (prep_pid m) (prep_rc m) (prep_txn_id m)).
Definition PrepareMessage_copy_from_buf (now : Z) (this : PrepareMessage) : Copy PrepareMessage :=
  b ← mcopy_from_buf now (prep_msg this);
  set_ptr mget_size;;
  min_commit_ts ← copy_val_if (cc_is CC_TICTOC) u64 (prep_min_commit_ts this);
  assert_ptr (PrepareMessage_get_size this);;
  mret (mkPrepare b min_commit_ts (prep_pid this) (prep_rc this) (prep_txn_id this)).
#[export] Instance PrepareMessage_class : MessageClass PrepareMessage := {
  base := prep_msg;
  set_base b m := mkPrepare b (prep_min_commit_ts m) (prep_pid m) (prep_rc m) (prep_txn_id m);
  get_size := PrepareMessage_get_size;
  copy_to_buf := PrepareMessage_copy_to_buf; copy_from_buf := PrepareMessage_copy_from_buf }.
#[local] Hint Unfold PrepareMessage_class PrepareMessage_get_size
  PrepareMessage_copy_to_buf PrepareMessage_copy_from_buf : msg.
#[export] Program Instance PrepareMessage_laws : MessageLaws PrepareMessage := {
  msg_ok m := message_ok (prep_msg m) /\ is_u64 (prep_min_commit_ts m);
  layout m := mlayout (prep_msg m)
    ++ encode_if (cc_is CC_TICTOC) u64 (prep_min_commit_ts m);
  sent now m := mkPrepare (stamp_departure now (prep_msg m)) (prep_min_commit_ts m) (prep_pid m) (prep_rc m) (prep_txn_id m);
  received now this m := mkPrepare (mreceived now (prep_msg this) (prep_msg m))
    (if cc_is CC_TICTOC then prep_min_commit_ts m else prep_min_commit_ts this) (prep_pid this) (prep_rc this) (prep_txn_id this) }.
Next Obligation. msg_size. Qed.
Next Obligation. intros m. eexists; reflexivity. Qed.
Next Obligation. done. Qed.
Next Obligation. done. Qed.
Next Obligation. msg_ok_tac. Qed.
Next Obligation. msg_size. Qed.
Next Obligation. msg_size. Qed.
Next Obligation. msg_wire. Qed.
Next Obligation. msg_wire. Qed.

Record ForwardMessage := mkForward {
  fwd_msg : Message;
  fwd_rc : RC;
  fwd_o_id : Z
}.
Definition ForwardMessage_get_size (m : ForwardMessage) : nat :=
  (mget_size + size_of rc_wire
   + (if wl_is WL_TPCC then size_of u64 else 0))%nat.
Definition ForwardMessage_copy_to_buf (now : Z) (m : ForwardMessage) : Copy ForwardMessage :=
  b ← mcopy_to_buf now (fwd_msg m);
  set_ptr mget_size;;
  COPY_BUF rc_wire (fwd_rc m);;
  copy_buf_if (wl_is WL_TPCC) u64 (fwd_o_id m);;
  assert_ptr (ForwardMessage_get_size m);;
  mret (mkForward b (fwd_rc m) (fwd_o_id m)).
Definition ForwardMessage_copy_from_buf (now : Z) (this : ForwardMessage) : Copy ForwardMessage :=
  b ← mcopy_from_buf now (fwd_msg this);
  set_ptr mget_size;;
  rc ← COPY_VAL rc_wire;
  o_id ← copy_val_if (wl_is WL_TPCC) u64 (fwd_o_id this);
  assert_ptr (ForwardMessage_get_size this);;
  mret (mkForward b rc o_id).
#[export] Instance ForwardMessage_class : MessageClass ForwardMessage := {
  base := fwd_msg;
  set_base b m := mkForward b (fwd_rc m) (fwd_o_id m);
  get_size := ForwardMessage_get_size;
  copy_to_buf := ForwardMessage_copy_to_buf; copy_from_buf := ForwardMessage_copy_from_buf }.
#[local] Hint Unfold ForwardMessage_class ForwardMessage_get_size
  ForwardMessage_copy_to_buf ForwardMessage_copy_from_buf : msg.
#[export] Program Instance ForwardMessage_laws : MessageLaws ForwardMessage := {
  msg_ok m := message_ok (fwd_msg m) /\ is_u64 (fwd_o_id m);
  layout m := mlayout (fwd_msg m)
    ++ encode rc_wire (fwd_rc m)
    ++ encode_if (wl_is WL_TPCC) u64 (fwd_o_id m);
  sent now m := mkForward (stamp_departure now (fwd_msg m)) (fwd_rc m) (fwd_o_id m);
  received now this m := mkForward (mreceived now (fwd_msg this) (fwd_msg m)) (fwd_rc m)
    (if wl_is WL_TPCC then fwd_o_id m else fwd_o_id this) }.
Next Obligation. msg_size. Qed.
Next Obligation. intros m. eexists; reflexivity. Qed.
Next Obligation. done. Qed.
Next Obligation. done. Qed.
Next Obligation. msg_ok_tac. Qed.
Next Obligation. msg_size. Qed.
Next Obligation. msg_size. Qed.
Next Obligation. msg_wire. Qed.
Next Obligation. msg_wire. Qed.

(** [rc] does not travel. *)
Record ClientResponseMessage := mkClientResponse {
  crsp_msg : Message;
  crsp_client_startts : Z;
  crsp_rc : RC
}.
Definition ClientResponseMessage_get_size (m : ClientResponseMessage) : nat :=
  (mget_size + size_of u64)%nat.
Definition ClientResponseMessage_copy_to_buf (now : Z) (m : ClientResponseMessage) : Copy ClientResponseMessage :=
  b ← mcopy_to_buf now (crsp_msg m);
  set_ptr mget_size;;
  COPY_BUF u64 (crsp_client_startts m);;
  assert_ptr (ClientResponseMessage_get_size m);;
  mret (mkClientResponse b (crsp_client_startts m) (crsp_rc m)).
Definition ClientResponseMessage_copy_from_buf (now : Z) (this : ClientResponseMessage) : Copy ClientResponseMessage :=
  b ← mcopy_from_buf now (crsp_msg this);
  set_ptr mget_size;;
  client_startts ← COPY_VAL u64;
  assert_ptr (ClientResponseMessage_get_size this);;
  mret (mkClientResponse b client_startts (crsp_rc this)).
#[export] Instance ClientResponseMessage_class : MessageClass ClientResponseMessage := {
  base := crsp_msg;
  set_base b m := mkClientResponse b (crsp_client_startts m) (crsp_rc m);
  get_size := ClientResponseMessage_get_size;
  copy_to_buf := ClientResponseMessage_copy_to_buf; copy_from_buf := ClientResponseMessage_copy_from_buf }.
#[local] Hint Unfold ClientResponseMessage_class ClientResponseMessage_get_size
  ClientResponseMessage_copy_to_buf ClientResponseMessage_copy_from_buf : msg.
#[export] Program Instance ClientResponseMessage_laws : MessageLaws ClientResponseMessage := {
  msg_ok m := message_ok (crsp_msg m) /\ is_u64 (crsp_client_startts m);
  layout m := mlayout (crsp_msg m)
    ++ encode u64 (crsp_client_startts m);
  sent now m := mkClientResponse (stamp_departure now (crsp_msg m)) (crsp_client_startts m) (crsp_rc m);
  received now this m := mkClientResponse (mreceived now (crsp_msg this) (crsp_msg m)) (crsp_client_startts m) (crsp_rc this) }.
Next Obligation. msg_size. Qed.
Next Obligation. intros m. eexists; reflexivity. Qed.
Next Obligation. done. Qed.
Next Obligation. done. Qed.
Next Obligation. msg_ok_tac. Qed.
Next Obligation. msg_size. Qed.
Next Obligation. msg_size. Qed.
Next Obligation. msg_wire. Qed.
Next Obligation. msg_wire. Qed.

Record SyncMessage := mkSync {
  sync_msg : Message;
  sync_part_id : Z;
  sync_key : Z
}.
Definition SyncMessage_get_size (m : SyncMessage) : nat :=
  (mget_size + size_of u64 + size_of u64)%nat.
Definition SyncMessage_copy_to_buf (now : Z) (m : SyncMessage) : Copy SyncMessage :=
  b ← mcopy_to_buf now (sync_msg m);
  set_ptr mget_size;;
  COPY_BUF u64 (sync_part_id m);;
  COPY_BUF u64 (sync_key m);;
  mret (mkSync b (sync_part_id m) (sync_key m)).
Definition SyncMessage_copy_from_buf (now : Z) (this : SyncMessage) : Copy SyncMessage :=
  b ← mcopy_from_buf now (sync_msg this);
  set_ptr mget_size;;
  part_id ← COPY_VAL u64;
  key ← COPY_VAL u64;
  mret (mkSync b part_id key).
#[export] Instance SyncMessage_class : MessageClass SyncMessage := {
  base := sync_msg;
  set_base b m := mkSync b (sync_part_id m) (sync_key m);
  get_size := SyncMessage_get_size;
  copy_to_buf := SyncMessage_copy_to_buf; copy_from_buf := SyncMessage_copy_from_buf }.
#[local] Hint Unfold SyncMessage_class SyncMessage_get_size
  SyncMessage_copy_to_buf SyncMessage_copy_from_buf : msg.
#[export] Program Instance SyncMessage_laws : MessageLaws SyncMessage := {
  msg_ok m := message_ok (sync_msg m) /\ is_u64 (sync_part_id m) /\ is_u64 (sync_key m);
  layout m := mlayout (sync_msg m)
    ++ encode u64 (sync_part_id m)
    ++ encode u64 (sync_key m);
  sent now m := mkSync (stamp_departure now (sync_msg m)) (sync_part_id m) (sync_key m);
  received now this m := mkSync (mreceived now (sync_msg this) (sync_msg m)) (sync_part_id m) (sync_key m) }.
Next Obligation. msg_size. Qed.
Next Obligation. intros m. eexists; reflexivity. Qed.
Next Obligation. done. Qed.
Next Obligation. done. Qed.
Next Obligation. msg_ok_tac. Qed.
Next Obligation. msg_size. Qed.
Next Obligation. msg_size. Qed.
Next Obligation. msg_wire. Qed.
Next Obligation. msg_wire. Qed.

Record AckSyncMessage := mkAckSync {
  acks_msg : Message;
  acks_part_id : Z;
  acks_key : Z
}.
Definition AckSyncMessage_get_size (m : AckSyncMessage) : nat :=
  (mget_size + size_of u64 + size_of u64)%nat.
Definition AckSyncMessage_copy_to_buf (now : Z) (m : AckSyncMessage) : Copy AckSyncMessage :=
  b ← mcopy_to_buf now (acks_msg m);
  set_ptr mget_size;;
  COPY_BUF u64 (acks_part_id m);;
  COPY_BUF u64 (acks_key m);;
  mret (mkAckSync b (acks_part_id m) (acks_key m)).
Definition AckSyncMessage_copy_from_buf (now : Z) (this : AckSyncMessage) : Copy AckSyncMessage :=
  b ← mcopy_from_buf now (acks_msg this);
  set_ptr mget_size;;
  part_id ← COPY_VAL u64;
  key ← COPY_VAL u64;
  mret (mkAckSync b part_id key).
#[export] Instance AckSyncMessage_class : MessageClass AckSyncMessage := {
  base := acks_msg;
  set_base b m := mkAckSync b (acks_part_id m) (acks_key m);
  get_size := AckSyncMessage_get_size;
  copy_to_buf := AckSyncMessage_copy_to_buf; copy_from_buf := AckSyncMessage_copy_from_buf }.
#[local] Hint Unfold AckSyncMessage_class AckSyncMessage_get_size
  AckSyncMessage_copy_to_buf AckSyncMessage_copy_from_buf : msg.
#[export] Program Instance AckSyncMessage_laws : MessageLaws AckSyncMessage := {
  msg_ok m := message_ok (acks_msg m) /\ is_u64 (acks_part_id m) /\ is_u64 (acks_key m);
  layout m := mlayout (acks_msg m)
    ++ encode u64 (acks_part_id m)
    ++ encode u64 (acks_key m);
  sent now m := mkAckSync (stamp_departure now (acks_msg m)) (acks_part_id m) (acks_key m);
  received now this m := mkAckSync (mreceived now (acks_msg this) (acks_msg m)) (acks_part_id m) (acks_key m) }.
Next Obligation. msg_size. Qed.
Next Obligation. intros m. eexists; reflexivity. Qed.
Next Obligation. done. Qed.
Next Obligation. done. Qed.
Next Obligation. msg_ok_tac. Qed.
Next Obligation. msg_size. Qed.
Next Obligation. msg_size. Qed.
Next Obligation. msg_wire. Qed.
Next Obligation. msg_wire. Qed.

(** [AckMessage]; with PPS under CALVIN it carries the keys that a secondary
    lookup found. *)
Definition sends_part_keys : bool := wl_is WL_PPS && cc_is CC_CALVIN.

Record AckMessage := mkAck {
  ack_msg : Message;
  ack_rc : RC;
  ack_lower : Z;
  ack_upper : Z;
  ack_max_tid : Z;
  ack_part_keys : Array Z
}.
Definition AckMessage_get_size (m : AckMessage) : nat :=
  (mget_size + size_of rc_wire
   + (if has_bounds then size_of u64 * 2 else 0)
   + (if cc_is CC_SILO then size_of u64 else 0)
   + (if sends_part_keys
      then size_of size_t + size_of u64 * length (items (ack_part_keys m)) else 0))%nat.
Definition AckMessage_copy_to_buf (now : Z) (m : AckMessage) : Copy AckMessage :=
  b ← mcopy_to_buf now (ack_msg m);
  set_ptr mget_size;;
  COPY_BUF rc_wire (ack_rc m);;
  copy_buf_if has_bounds u64 (ack_lower m);;
  copy_buf_if has_bounds u64 (ack_upper m);;
  copy_buf_if (cc_is CC_SILO) u64 (ack_max_tid m);;
  copy_buf_array_if sends_part_keys u64 (ack_part_keys m);;
  assert_ptr (AckMessage_get_size m);;
  mret (mkAck b (ack_rc m) (ack_lower m) (ack_upper m) (ack_max_tid m) (ack_part_keys m)).
Definition AckMessage_copy_from_buf (now : Z) (this : AckMessage) : Copy AckMessage :=
  b ← mcopy_from_buf now (ack_msg this);
  set_ptr mget_size;;
  rc ← COPY_VAL rc_wire;
  lower ← copy_val_if has_bounds u64 (ack_lower this);
  upper ← copy_val_if has_bounds u64 (ack_upper this);
  max_tid ← copy_val_if (cc_is CC_SILO) u64 (ack_max_tid this);
  part_keys ← copy_val_array_if sends_part_keys u64 (ack_part_keys this);
  let this' := mkAck b rc lower upper max_tid part_keys in
  assert_ptr (AckMessage_get_size this');;
  mret this'.
#[export] Instance AckMessage_class : MessageClass AckMessage := {
  base := ack_msg;
  set_base b m := mkAck b (ack_rc m) (ack_lower m) (ack_upper m) (ack_max_tid m) (ack_part_keys m);
  get_size := AckMessage_get_size;
  copy_to_buf := AckMessage_copy_to_buf; copy_from_buf := AckMessage_copy_from_buf }.
#[local] Hint Unfold AckMessage_class AckMessage_get_size
  AckMessage_copy_to_buf AckMessage_copy_from_buf : msg.
#[export] Program Instance AckMessage_laws : MessageLaws AckMessage := {
  msg_ok m := message_ok (ack_msg m) /\ is_u64 (ack_lower m) /\ is_u64 (ack_upper m)
    /\ is_u64 (ack_max_tid m) /\ items_ok u64 (items (ack_part_keys m));
  layout m := mlayout (ack_msg m)
    ++ encode rc_wire (ack_rc m)
    ++ encode_if has_bounds u64 (ack_lower m)
    ++ encode_if has_bounds u64 (ack_upper m)
    ++ encode_if (cc_is CC_SILO) u64 (ack_max_tid m)
    ++ encode_array_if sends_part_keys u64 (items (ack_part_keys m));
  sent now m := mkAck (stamp_departure now (ack_msg m)) (ack_rc m) (ack_lower m)
    (ack_upper m) (ack_max_tid m) (ack_part_keys m);
  received now this m := mkAck (mreceived now (ack_msg this) (ack_msg m)) (ack_rc m)
    (if has_bounds then ack_lower m else ack_lower this)
    (if has_bounds then ack_upper m else ack_upper this)
    (if cc_is CC_SILO then ack_max_tid m else ack_max_tid this)
    (if sends_part_keys then tight (ack_part_keys m) else ack_part_keys this) }.
Next Obligation. msg_size. Qed.
Next Obligation. intros m. eexists; reflexivity. Qed.
Next Obligation. done. Qed.
Next Obligation. done. Qed.
Next Obligation. msg_ok_tac. Qed.
Next Obligation. msg_size. Qed.
Next Obligation. msg_size. Qed.
Next Obligation. msg_wire. Qed.
Next Obligation. msg_wire. Qed.

(** *** LogMessage *)

(** [LogRecord] (system/logger.h, [LOG_COMMAND] is false): an
    [AriesLogRecord] and [isValid], with the padding of the object. *)
Record LogRecord := mkLogRecord {
  lr_checksum : Z; lr_pad1 : Z; lr_lsn : Z; lr_type : Z; lr_iud : Z;
  lr_txn_id : Z; lr_table_id : Z; lr_pad2 : Z; lr_key : Z;
  lr_isValid : Z; lr_pad3 : list Z
}.
Definition log_record_wire : Wire LogRecord :=
  view (pair_wire u32 (pair_wire u32 (pair_wire u64 (pair_wire u32 (pair_wire u32
         (pair_wire u64 (pair_wire u32 (pair_wire u32 (pair_wire u64
            (pair_wire u8 (chars 7)))))))))))
    (fun r => (lr_checksum r, (lr_pad1 r, (lr_lsn r, (lr_type r, (lr_iud r,
       (lr_txn_id r, (lr_table_id r, (lr_pad2 r, (lr_key r, (lr_isValid r, lr_pad3 r)))))))))))
    (fun '(a, (b, (c, (d, (e, (f, (g, (h, (i, (j, k)))))))))) =>
       mkLogRecord a b c d e f g h i j k)
    ltac:(by intros []) ltac:(by intros (?&?&?&?&?&?&?&?&?&?&?)).

(** [LogRecord::copyRecord] after [rcd.init()], which sets [checksum]. *)
Definition copyRecord (this record : LogRecord) : LogRecord :=
  mkLogRecord 0 (lr_pad1 this) (lr_lsn record) (lr_type record) (lr_iud record)
    (lr_txn_id record) (lr_table_id record) (lr_pad2 this) (lr_key record)
    (lr_isValid this) (lr_pad3 this).

Record LogMessage := mkLog { log_msg : Message; log_record : LogRecord }.
Definition LogMessage_get_size (m : LogMessage) : nat := mget_size.
Definition LogMessage_copy_from_record (this : LogMessage) (r : LogRecord) : LogMessage :=
  mkLog (log_msg this) (copyRecord (log_record this) r).
Definition LogMessage_copy_to_buf (now : Z) (m : LogMessage) : Copy LogMessage :=
  b ← mcopy_to_buf now (log_msg m);
  set_ptr mget_size;;
  COPY_BUF log_record_wire (log_record m);;
  assert_ptr (LogMessage_get_size m);;
  mret (mkLog b (log_record m)).
Definition LogMessage_copy_from_buf (now : Z) (this : LogMessage) : Copy LogMessage :=
  b ← mcopy_from_buf now (log_msg this);
  set_ptr mget_size;;
  record ← COPY_VAL log_record_wire;
  assert_ptr (LogMessage_get_size this);;
  mret (mkLog b record).

(** [LogFlushedMessage] copies nothing; its size is that of the object, with
    the pointer to the virtual methods, the members of [Message] (with
    [send_time]) and padding. *)
Record LogFlushedMessage := mkLogFlushed { log_flushed_msg : Message }.
Definition LogFlushedMessage_get_size (m : LogFlushedMessage) : nat := 128.
Definition LogFlushedMessage_copy_to_buf (now : Z) (m : LogFlushedMessage) : Copy LogFlushedMessage :=
  mret m.
Definition LogFlushedMessage_copy_from_buf (now : Z) (this : LogFlushedMessage)
  : Copy LogFlushedMessage := mret this.
End Classes.

#[export] Instance LogMessage_class {cfg : Config} : MessageClass LogMessage := {
    base := log_msg;
    set_base b m := mkLog b (log_record m);
    get_size := LogMessage_get_size;
  copy_to_buf := LogMessage_copy_to_buf; copy_from_buf := LogMessage_copy_from_buf }.
#[export] Instance LogFlushedMessage_class {cfg : Config} : MessageClass LogFlushedMessage := {
    base := log_flushed_msg;
    set_base b m := mkLogFlushed b;
    get_size := LogFlushedMessage_get_size;
  copy_to_buf := LogFlushedMessage_copy_to_buf; copy_from_buf := LogFlushedMessage_copy_from_buf }.
