(* ===== verification/QueryMessage.v ===== *)
(** * QueryMessage: the messages that carry a query

    transport/message.cpp: [ClientQueryMessage] and [QueryMessage] and, for each
    workload, the class derived from them: what a client sends to a server, and
    what a server sends to the node that has the data.  An array of pointers to
    requests or items is the array of the objects they point to, which the copy
    loops follow.  The structure is that of Message: definitions after the code,
    an instance of [MessageClass] and one of [MessageLaws]. *)

From stdpp Require Import base tactics list numbers.
From Stdlib Require Import ZArith Lia.
From S2P Require Import Prelude Wire CArray Message.
#[local] Open Scope Z_scope.

(** ** Requests and items *)

(** [enum access_t] and [enum DATxnType] as they travel. *)
Definition access_types : list access_t := [RD; WR; XP; SCAN].
Lemma access_code_ok x :
  0 <= place x access_types < 256 ^ 4 /\ nth_of access_types (place x access_types) = Some x.
Proof. destruct x; vm_compute; intuition discriminate. Qed.
Definition access_wire : Wire access_t :=
  enum (fun x => place x access_types) (nth_of access_types) access_code_ok.

Inductive DATxnType := DA_READ | DA_WRITE | DA_COMMIT | DA_ABORT | DA_SCAN.
#[global] Instance DATxnType_eq_dec : EqDecision DATxnType.
Proof. solve_decision. Defined.
Definition da_txn_types : list DATxnType := [DA_READ; DA_WRITE; DA_COMMIT; DA_ABORT; DA_SCAN].
Lemma da_code_ok x :
  0 <= place x da_txn_types < 256 ^ 4 /\ nth_of da_txn_types (place x da_txn_types) = Some x.
Proof. destruct x; vm_compute; intuition discriminate. Qed.
Definition da_txn_type_wire : Wire DATxnType :=
  enum (fun x => place x da_txn_types) (nth_of da_txn_types) da_code_ok.

(** [ycsb_request] and [Item_no] as objects: the copies are of [sizeof] bytes,
    padding included. *)
Record ycsb_request := mkRequest {
  acctype : access_t; req_pad1 : Z; req_key : Z; req_value : Z; req_pad2 : list Z
}.
Record Item_no := mkItem { ol_i_id : Z; ol_supply_w_id : Z; ol_quantity : Z }.

#[global] Instance ycsb_request_eq_dec : EqDecision ycsb_request.
Proof. solve_decision. Defined.
#[global] Instance Item_no_eq_dec : EqDecision Item_no.
Proof. solve_decision. Defined.

Definition request_wire : Wire ycsb_request :=
  view (pair_wire access_wire (pair_wire u32 (pair_wire u64 (pair_wire u8 (chars 7)))))
    (fun r => (acctype r, (req_pad1 r, (req_key r, (req_value r, req_pad2 r)))))
    (fun '(a, (b, (c, (d, e)))) => mkRequest a b c d e)
    ltac:(by intros []) ltac:(by intros (?&?&?&?&?)).
Definition item_wire : Wire Item_no :=
  view (pair_wire u64 (pair_wire u64 u64))
    (fun i => (ol_i_id i, (ol_supply_w_id i, ol_quantity i)))
    (fun '(a, (b, c)) => mkItem a b c)
    ltac:(by intros []) ltac:(by intros (?&?&?)).

(** [char c_last[LASTNAME_LEN]]. *)
Definition LASTNAME_LEN : nat := 16.
Definition lastname : Wire (list Z) := chars LASTNAME_LEN.

Lemma size_request : size_of request_wire = 24%nat. Proof. done. Qed.
Lemma size_item : size_of item_wire = 24%nat. Proof. done. Qed.
Lemma size_lastname : size_of lastname = LASTNAME_LEN. Proof. done. Qed.
Lemma size_da_txn_type : size_of da_txn_type_wire = 4%nat. Proof. done. Qed.
#[export] Hint Rewrite size_request size_item size_lastname size_da_txn_type : wire.

(** The kinds of TPCC and PPS transactions (config.h), which travel in a
    [uint64_t]. *)
Definition TPCC_PAYMENT : Z := 1.
Definition TPCC_NEW_ORDER : Z := 2.
Definition PPS_GETPART : Z := 1.
Definition PPS_GETSUPPLIER : Z := 2.
Definition PPS_GETPRODUCT : Z := 3.
Definition PPS_GETPARTBYSUPPLIER : Z := 4.
Definition PPS_GETPARTBYPRODUCT : Z := 5.
Definition PPS_ORDERPRODUCT : Z := 6.
Definition PPS_UPDATEPRODUCTPART : Z := 7.
Definition PPS_UPDATEPART : Z := 8.

Create HintDb cqmsg.

Section Queries.
Context {cfg : Config}.

(** ** ClientQueryMessage *)

(** The members [pid], [ts], [first_startts] and, under CALVIN, a second
    [batch_id] and [txn_id] do not travel. *)
Record ClientQueryMessage := mkClientQuery {
  cq_msg : Message;
  cq_pid : Z;
  cq_ts : Z;
  cq_batch_id : Z;
  cq_txn_id : Z;
  client_startts : Z;
  first_startts : Z;
  partitions : Array Z
}.
Definition ClientQueryMessage_base (m : ClientQueryMessage) : Message := cq_msg m.
Definition ClientQueryMessage_set_base (b : Message) (m : ClientQueryMessage)
  : ClientQueryMessage :=
  mkClientQuery b (cq_pid m) (cq_ts m) (cq_batch_id m) (cq_txn_id m) (client_startts m)
    (first_startts m) (partitions m).
Definition ClientQueryMessage_init (m : ClientQueryMessage) : ClientQueryMessage :=
  mkClientQuery (cq_msg m) (cq_pid m) (cq_ts m) (cq_batch_id m) (cq_txn_id m)
    (client_startts m) 0 (partitions m).
Definition ClientQueryMessage_release (m : ClientQueryMessage) : ClientQueryMessage :=
  mkClientQuery (cq_msg m) (cq_pid m) (cq_ts m) (cq_batch_id m) (cq_txn_id m)
    (client_startts m) 0 (release (partitions m)).
Definition ClientQueryMessage_get_size (m : ClientQueryMessage) : nat :=
  (mget_size + size_of u64 + size_of size_t
   + size_of u64 * length (items (partitions m)))%nat.
Definition ClientQueryMessage_copy_to_buf (now : Z) (m : ClientQueryMessage)
  : Copy ClientQueryMessage :=
  b ← mcopy_to_buf now (cq_msg m);
  set_ptr mget_size;;
  COPY_BUF u64 (client_startts m);;
  copy_buf_array u64 (partitions m);;
  mret (mkClientQuery b (cq_pid m) (cq_ts m) (cq_batch_id m) (cq_txn_id m)
          (client_startts m) (first_startts m) (partitions m)).
Definition ClientQueryMessage_copy_from_buf (now : Z) (this : ClientQueryMessage)
  : Copy ClientQueryMessage :=
  b ← mcopy_from_buf now (cq_msg this);
  set_ptr mget_size;;
  startts ← COPY_VAL u64;
  parts ← copy_val_array u64 (partitions this);
  mret (mkClientQuery b (cq_pid this) (cq_ts this) (cq_batch_id this) (cq_txn_id this)
          startts (first_startts this) parts).

Definition ClientQueryMessage_ok (m : ClientQueryMessage) : Prop :=
  message_ok (cq_msg m) /\ is_u64 (client_startts m) /\ items_ok u64 (items (partitions m)).
Definition ClientQueryMessage_layout (m : ClientQueryMessage) : list Z :=
  mlayout (cq_msg m) ++ encode u64 (client_startts m) ++ encode_array u64 (items (partitions m)).
Definition ClientQueryMessage_sent (now : Z) (m : ClientQueryMessage) : ClientQueryMessage :=
  mkClientQuery (stamp_departure now (cq_msg m)) (cq_pid m) (cq_ts m) (cq_batch_id m)
    (cq_txn_id m) (client_startts m) (first_startts m) (partitions m).
Definition ClientQueryMessage_received (now : Z) (this m : ClientQueryMessage)
  : ClientQueryMessage :=
  mkClientQuery (mreceived now (cq_msg this) (cq_msg m)) (cq_pid this) (cq_ts this)
    (cq_batch_id this) (cq_txn_id this) (client_startts m) (first_startts this)
    (tight (partitions m)).

#[local] Hint Unfold ClientQueryMessage_get_size ClientQueryMessage_copy_to_buf
  ClientQueryMessage_copy_from_buf ClientQueryMessage_ok ClientQueryMessage_layout
  ClientQueryMessage_sent ClientQueryMessage_received : cqmsg.
Ltac cq_open := intros; autounfold with cqmsg in *.

Lemma ClientQueryMessage_layout_length m :
  length (ClientQueryMessage_layout m) = ClientQueryMessage_get_size m.
Proof. cq_open. msg_size. Qed.
Lemma ClientQueryMessage_layout_head m rest :
  exists r, ClientQueryMessage_layout m ++ rest = mlayout (ClientQueryMessage_base m) ++ r.
Proof. cq_open. rewrite <- app_assoc. by eexists. Qed.
Lemma ClientQueryMessage_sent_ok now m :
  ClientQueryMessage_ok m -> ClientQueryMessage_ok (ClientQueryMessage_sent now m).
Proof. cq_open. msg_ok_tac. Qed.
Lemma ClientQueryMessage_sent_size now m :
  ClientQueryMessage_get_size (ClientQueryMessage_sent now m) = ClientQueryMessage_get_size m.
Proof. done. Qed.
Lemma ClientQueryMessage_received_size now this m :
  ClientQueryMessage_get_size (ClientQueryMessage_received now this m)
  = ClientQueryMessage_get_size m.
Proof. done. Qed.
Lemma writes_ClientQueryMessage now m :
  ClientQueryMessage_ok m ->
  writes 0 (ClientQueryMessage_copy_to_buf now m) (ClientQueryMessage_sent now m)
    (ClientQueryMessage_layout (ClientQueryMessage_sent now m)).
Proof. cq_open. msg_wire. Qed.
Lemma reads_ClientQueryMessage now this m :
  ClientQueryMessage_ok m ->
  reads 0 (ClientQueryMessage_copy_from_buf now this) (ClientQueryMessage_layout m)
    (ClientQueryMessage_received now this m).
Proof. cq_open. msg_wire. Qed.

(** ** QueryMessage *)

(** The algorithms whose requests carry the timestamp, and those whose
    requests carry the start timestamp. *)
Definition has_ts : bool := cc_in [CC_WAIT_DIE; CC_TIMESTAMP; CC_MVCC; CC_WOOKONG; CC_DTA].
Definition has_start_ts : bool :=
  cc_in [CC_OCC; CC_FOCC; CC_BOCC; CC_SSI; CC_WSI; CC_DLI_BASE; CC_DLI_OCC;
         CC_DLI_MVCC_OCC; CC_DLI_DTA; CC_DLI_DTA2; CC_DLI_DTA3; CC_DLI_MVCC].

Record QueryMessage := mkQuery {
  q_msg : Message;
  q_pid : Z;
  q_ts : Z;
  q_thd_id : Z;
  q_start_ts : Z
}.
Definition QueryMessage_base (m : QueryMessage) : Message := q_msg m.
Definition QueryMessage_set_base (b : Message) (m : QueryMessage) : QueryMessage :=
  mkQuery b (q_pid m) (q_ts m) (q_thd_id m) (q_start_ts m).
Definition QueryMessage_get_size (m : QueryMessage) : nat :=
  (mget_size + (if has_ts then size_of u64 else 0)
   + (if has_start_ts then size_of u64 else 0))%nat.
Definition QueryMessage_copy_to_buf (now : Z) (m : QueryMessage) : Copy QueryMessage :=
  b ← mcopy_to_buf now (q_msg m);
  set_ptr mget_size;;
  copy_buf_if has_ts u64 (q_ts m);;
  cassert (negb has_ts || negb (q_ts m =? 0));;
  copy_buf_if has_start_ts u64 (q_start_ts m);;
  mret (mkQuery b (q_pid m) (q_ts m) (q_thd_id m) (q_start_ts m)).
Definition QueryMessage_copy_from_buf (now : Z) (this : QueryMessage) : Copy QueryMessage :=
  b ← mcopy_from_buf now (q_msg this);
  set_ptr mget_size;;
  ts ← copy_val_if has_ts u64 (q_ts this);
  cassert (negb has_ts || negb (ts =? 0));;
  start_ts ← copy_val_if has_start_ts u64 (q_start_ts this);
  mret (mkQuery b (q_pid this) ts (q_thd_id this) start_ts).

Definition QueryMessage_ok (m : QueryMessage) : Prop :=
  message_ok (q_msg m) /\ is_u64 (q_ts m) /\ is_u64 (q_start_ts m)
  /\ (negb has_ts || negb (q_ts m =? 0)) = true.
Definition QueryMessage_layout (m : QueryMessage) : list Z :=
  mlayout (q_msg m) ++ encode_if has_ts u64 (q_ts m) ++ encode_if has_start_ts u64 (q_start_ts m).
Definition QueryMessage_sent (now : Z) (m : QueryMessage) : QueryMessage :=
  mkQuery (stamp_departure now (q_msg m)) (q_pid m) (q_ts m) (q_thd_id m) (q_start_ts m).
Definition QueryMessage_received (now : Z) (this m : QueryMessage) : QueryMessage :=
  mkQuery (mreceived now (q_msg this) (q_msg m)) (q_pid this)
    (if has_ts then q_ts m else q_ts this) (q_thd_id this)
    (if has_start_ts then q_start_ts m else q_start_ts this).

#[local] Hint Unfold QueryMessage_get_size QueryMessage_copy_to_buf
  QueryMessage_copy_from_buf QueryMessage_ok QueryMessage_layout
  QueryMessage_sent QueryMessage_received : cqmsg.

Lemma QueryMessage_layout_length m : length (QueryMessage_layout m) = QueryMessage_get_size m.
Proof. cq_open. msg_size. Qed.
Lemma QueryMessage_layout_head m rest :
  exists r, QueryMessage_layout m ++ rest = mlayout (QueryMessage_base m) ++ r.
Proof. cq_open. rewrite <- app_assoc. by eexists. Qed.
Lemma QueryMessage_sent_ok now m : QueryMessage_ok m -> QueryMessage_ok (QueryMessage_sent now m).
Proof. cq_open. msg_ok_tac. Qed.
Lemma QueryMessage_sent_size now m :
  QueryMessage_get_size (QueryMessage_sent now m) = QueryMessage_get_size m.
Proof. done. Qed.
Lemma QueryMessage_received_size now this m :
  QueryMessage_get_size (QueryMessage_received now this m) = QueryMessage_get_size m.
Proof. done. Qed.
Lemma writes_QueryMessage now m :
  QueryMessage_ok m ->
  writes 0 (QueryMessage_copy_to_buf now m) (QueryMessage_sent now m)
    (QueryMessage_layout (QueryMessage_sent now m)).
Proof. cq_open. msg_wire. Qed.
Lemma reads_QueryMessage now this m :
  QueryMessage_ok m ->
  reads 0 (QueryMessage_copy_from_buf now this) (QueryMessage_layout m)
    (QueryMessage_received now this m).
Proof.
  cq_open. msg_wire. destruct has_ts; done.
Qed.

#[local] Hint Resolve ClientQueryMessage_sent_ok QueryMessage_sent_ok
  writes_ClientQueryMessage reads_ClientQueryMessage
  writes_QueryMessage reads_QueryMessage : wire.
#[local] Hint Rewrite ClientQueryMessage_layout_length ClientQueryMessage_sent_size
  ClientQueryMessage_received_size QueryMessage_layout_length QueryMessage_sent_size
  QueryMessage_received_size : wire.

(** ** YCSB *)

Definition request_in_table (r : ycsb_request) : bool := req_key r <? g_synth_table_size.
(** [assert(req->key < g_synth_table_size)] after reading a request. *)
Definition check_request (r : ycsb_request) : res ycsb_request :=
  if request_in_table r then Ok r else AssertFail.
(** [YCSBQueryMessage::copy_from_buf] replaces a key beyond the table by a
    random one, before the assertion. *)
Definition adopt_request (r : ycsb_request) : res ycsb_request :=
  let r' :=
    if g_synth_table_size <? req_key r
    then if g_synth_table_size <=? req_key r
         then mkRequest (acctype r) (req_pad1 r) (myrand_next (req_key r) mod g_synth_table_size)
                (req_value r) (req_pad2 r)
         else r
    else r in
  if request_in_table r' then Ok r' else AssertFail.

Lemma check_request_ok xs :
  Forall (fun x => request_in_table x = true) xs ->
  Forall (fun x => check_request x = Ok x) xs.
Proof. apply Forall_impl. intros x Hx. unfold check_request. by rewrite Hx. Qed.
Lemma adopt_request_ok xs :
  Forall (fun x => request_in_table x = true) xs ->
  Forall (fun x => adopt_request x = Ok x) xs.
Proof.
  apply Forall_impl. intros x Hx. unfold adopt_request.
  assert ((g_synth_table_size <? req_key x) = false) as ->; [|by rewrite Hx].
  unfold request_in_table in Hx. lia.
Qed.

(** The loop of [YCSBQueryMessage::copy_from_buf], with the limit on the
    number of requests. *)
Definition copy_val_requests (a : Array ycsb_request) : Copy (Array ycsb_request) :=
  size ← COPY_VAL size_t;
  cassert (size <=? g_req_per_query);;
  copy_val_each request_wire adopt_request (Z.to_nat size) (init size a).

Lemma reads_copy_val_requests p a0 xs :
  items_ok request_wire xs -> Z.of_nat (length xs) <= g_req_per_query ->
  Forall (fun x => request_in_table x = true) xs ->
  reads p (copy_val_requests a0) (encode_array request_wire xs)
    (mkArray xs (Z.of_nat (length xs))).
Proof.
  intros [Hl Hxs] Hg Hf. eapply reads_bind.
  { apply reads_COPY_VAL, wire_ok_u64. unfold is_u64. lia. }
  eapply (reads_bind _ _ _ _ _ []); [apply reads_cassert; by apply Z.leb_le|].
  cbn beta. rewrite Nat2Z.id.
  apply (reads_copy_val_each request_wire _ _ (init _ a0) xs);
    [done|by apply adopt_request_ok|unfold count; cbn; lia].
Qed.

Ltac wire_cbn :=
  cbn -[size_of mget_size Nat.add Nat.mul Nat.sub
        ClientQueryMessage_get_size ClientQueryMessage_sent ClientQueryMessage_received
        QueryMessage_get_size QueryMessage_sent QueryMessage_received].
Ltac wire_size ::=
  autorewrite with wire; wire_cbn; autorewrite with wire;
  repeat (case_match; wire_cbn); solve [lia].
#[local] Hint Resolve check_request_ok adopt_request_ok writes_copy_buf_array_with : wire.
Ltac msg_wire ::=
  msg_open; first [eapply writes_eq | eapply reads_eq];
  [repeat first [apply reads_copy_val_if | apply reads_copy_val_array_if
                | apply reads_copy_val_array | apply reads_copy_val_array_with
                | apply reads_copy_val_requests | apply writes_copy_buf_array_with | wire_step];
   msg_side; auto with wire|wire_app].

Record YCSBClientQueryMessage := mkYCSBClientQuery {
  ycq_query : ClientQueryMessage;
  ycq_requests : Array ycsb_request
}.
Definition YCSBClientQueryMessage_get_size (m : YCSBClientQueryMessage) : nat :=
  (ClientQueryMessage_get_size (ycq_query m)
   + size_of size_t + size_of request_wire * length (items (ycq_requests m)))%nat.
Definition YCSBClientQueryMessage_copy_to_buf (now : Z) (m : YCSBClientQueryMessage) : Copy YCSBClientQueryMessage :=
  b ← ClientQueryMessage_copy_to_buf now (ycq_query m);
  set_ptr (ClientQueryMessage_get_size b);;
  copy_buf_array_with request_wire request_in_table (ycq_requests m);;
  let m' := (mkYCSBClientQuery b (ycq_requests m)) in
  assert_ptr (YCSBClientQueryMessage_get_size m');;
  mret m'.
Definition YCSBClientQueryMessage_copy_from_buf (now : Z) (this : YCSBClientQueryMessage) : Copy YCSBClientQueryMessage :=
  b ← ClientQueryMessage_copy_from_buf now (ycq_query this);
  set_ptr (ClientQueryMessage_get_size b);;
  requests ← copy_val_array_with request_wire check_request (ycq_requests this);
  let this' := mkYCSBClientQuery b requests in
  assert_ptr (YCSBClientQueryMessage_get_size this');;
  mret this'.
#[export] Instance YCSBClientQueryMessage_class : MessageClass YCSBClientQueryMessage := {
  base m := ClientQueryMessage_base (ycq_query m);
  set_base x m := mkYCSBClientQuery (ClientQueryMessage_set_base x (ycq_query m)) (ycq_requests m);
  get_size := YCSBClientQueryMessage_get_size;
  copy_to_buf := YCSBClientQueryMessage_copy_to_buf; copy_from_buf := YCSBClientQueryMessage_copy_from_buf }.
#[local] Hint Unfold YCSBClientQueryMessage_class YCSBClientQueryMessage_get_size
  YCSBClientQueryMessage_copy_to_buf YCSBClientQueryMessage_copy_from_buf : msg.
#[export] Program Instance YCSBClientQueryMessage_laws : MessageLaws YCSBClientQueryMessage := {
  msg_ok m := ClientQueryMessage_ok (ycq_query m) /\ items_ok request_wire (items (ycq_requests m))
    /\ Forall (fun x => request_in_table x = true) (items (ycq_requests m));
  layout m := ClientQueryMessage_layout (ycq_query m)
    ++ encode_array request_wire (items (ycq_requests m));
  sent now m := mkYCSBClientQuery (ClientQueryMessage_sent now (ycq_query m)) (ycq_requests m);
  received now this m := mkYCSBClientQuery (ClientQueryMessage_received now (ycq_query this) (ycq_query m)) (tight (ycq_requests m)) }.
Next Obligation. msg_size. Qed.
Next Obligation. intros m. apply ClientQueryMessage_layout_head. Qed.
Next Obligation. done. Qed.
Next Obligation. done. Qed.
Next Obligation. msg_ok_tac. Qed.
Next Obligation. msg_size. Qed.
Next Obligation. msg_size. Qed.
Next Obligation. msg_wire. Qed.
Next Obligation. msg_wire. Qed.
Record YCSBQueryMessage := mkYCSBQuery {
  yq_query : QueryMessage;
  yq_requests : Array ycsb_request
}.
Definition YCSBQueryMessage_get_size (m : YCSBQueryMessage) : nat :=
  (QueryMessage_get_size (yq_query m)
   + size_of size_t + size_of request_wire * length (items (yq_requests m)))%nat.
Definition YCSBQueryMessage_copy_to_buf (now : Z) (m : YCSBQueryMessage) : Copy YCSBQueryMessage :=
  b ← QueryMessage_copy_to_buf now (yq_query m);
  set_ptr (QueryMessage_get_size b);;
  copy_buf_array request_wire (yq_requests m);;
  let m' := (mkYCSBQuery b (yq_requests m)) in
  assert_ptr (YCSBQueryMessage_get_size m');;
  mret m'.
Definition YCSBQueryMessage_copy_from_buf (now : Z) (this : YCSBQueryMessage) : Copy YCSBQueryMessage :=
  b ← QueryMessage_copy_from_buf now (yq_query this);
  set_ptr (QueryMessage_get_size b);;
  requests ← copy_val_requests (yq_requests this);
  let this' := mkYCSBQuery b requests in
  assert_ptr (YCSBQueryMessage_get_size this');;
  mret this'.
#[export] Instance YCSBQueryMessage_class : MessageClass YCSBQueryMessage := {
  base m := QueryMessage_base (yq_query m);
  set_base x m := mkYCSBQuery (QueryMessage_set_base x (yq_query m)) (yq_requests m);
  get_size := YCSBQueryMessage_get_size;
  copy_to_buf := YCSBQueryMessage_copy_to_buf; copy_from_buf := YCSBQueryMessage_copy_from_buf }.
#[local] Hint Unfold YCSBQueryMessage_class YCSBQueryMessage_get_size
  YCSBQueryMessage_copy_to_buf YCSBQueryMessage_copy_from_buf : msg.
#[export] Program Instance YCSBQueryMessage_laws : MessageLaws YCSBQueryMessage := {
  msg_ok m := QueryMessage_ok (yq_query m) /\ items_ok request_wire (items (yq_requests m))
    /\ Forall (fun x => request_in_table x = true) (items (yq_requests m))
    /\ Z.of_nat (length (items (yq_requests m))) <= g_req_per_query;
  layout m := QueryMessage_layout (yq_query m)
    ++ encode_array request_wire (items (yq_requests m));
  sent now m := mkYCSBQuery (QueryMessage_sent now (yq_query m)) (yq_requests m);
  received now this m := mkYCSBQuery (QueryMessage_received now (yq_query this) (yq_query m)) (tight (yq_requests m)) }.
Next Obligation. msg_size. Qed.
Next Obligation. intros m. apply QueryMessage_layout_head. Qed.
Next Obligation. done. Qed.
Next Obligation. done. Qed.
Next Obligation. msg_ok_tac. Qed.
Next Obligation. msg_size. Qed.
Next Obligation. msg_size. Qed.
Next Obligation. msg_wire. Qed.
Next Obligation. msg_wire. Qed.
(** ** TPCC *)

Record TPCCClientQueryMessage := mkTPCCClientQuery {
  tcq_query : ClientQueryMessage;
  tcq_txn_type : Z;
  tcq_w_id : Z;
  tcq_d_id : Z;
  tcq_c_id : Z;
  tcq_d_w_id : Z;
  tcq_c_w_id : Z;
  tcq_c_d_id : Z;
  tcq_c_last : list Z;
  tcq_h_amount : Z;
  tcq_by_last_name : bool;
  tcq_items : Array Item_no;
  tcq_rbk : bool;
  tcq_remote : bool;
  tcq_ol_cnt : Z;
  tcq_o_entry_d : Z
}.
Definition TPCCClientQueryMessage_get_size (m : TPCCClientQueryMessage) : nat :=
  (ClientQueryMessage_get_size (tcq_query m)
   + size_of u64 * 10 + LASTNAME_LEN + size_of bool8 * 3 + size_of size_t
   + size_of item_wire * length (items (tcq_items m)))%nat.
Definition TPCCClientQueryMessage_copy_to_buf (now : Z) (m : TPCCClientQueryMessage) : Copy TPCCClientQueryMessage :=
  b ← ClientQueryMessage_copy_to_buf now (tcq_query m);
  set_ptr (ClientQueryMessage_get_size b);;
  COPY_BUF u64 (tcq_txn_type m);;
  COPY_BUF u64 (tcq_w_id m);;
  COPY_BUF u64 (tcq_d_id m);;
  COPY_BUF u64 (tcq_c_id m);;
  COPY_BUF u64 (tcq_d_w_id m);;
  COPY_BUF u64 (tcq_c_w_id m);;
  COPY_BUF u64 (tcq_c_d_id m);;
  COPY_BUF lastname (tcq_c_last m);;
  COPY_BUF u64 (tcq_h_amount m);;
  COPY_BUF bool8 (tcq_by_last_name m);;
  copy_buf_array item_wire (tcq_items m);;
  COPY_BUF bool8 (tcq_rbk m);;
  COPY_BUF bool8 (tcq_remote m);;
  COPY_BUF u64 (tcq_ol_cnt m);;
  COPY_BUF u64 (tcq_o_entry_d m);;
  let m' := (mkTPCCClientQuery b (tcq_txn_type m) (tcq_w_id m) (tcq_d_id m) (tcq_c_id m) (tcq_d_w_id m) (tcq_c_w_id m) (tcq_c_d_id m) (tcq_c_last m) (tcq_h_amount m) (tcq_by_last_name m) (tcq_items m) (tcq_rbk m) (tcq_remote m) (tcq_ol_cnt m) (tcq_o_entry_d m)) in
  assert_ptr (TPCCClientQueryMessage_get_size m');;
  mret m'.
Definition TPCCClientQueryMessage_copy_from_buf (now : Z) (this : TPCCClientQueryMessage) : Copy TPCCClientQueryMessage :=
  b ← ClientQueryMessage_copy_from_buf now (tcq_query this);
  set_ptr (ClientQueryMessage_get_size b);;
  txn_type ← COPY_VAL u64;
  w_id ← COPY_VAL u64;
  d_id ← COPY_VAL u64;
  c_id ← COPY_VAL u64;
  d_w_id ← COPY_VAL u64;
  c_w_id ← COPY_VAL u64;
  c_d_id ← COPY_VAL u64;
  c_last ← COPY_VAL lastname;
  h_amount ← COPY_VAL u64;
  by_last_name ← COPY_VAL bool8;
  items ← copy_val_array item_wire (tcq_items this);
  rbk ← COPY_VAL bool8;
  remote ← COPY_VAL bool8;
  ol_cnt ← COPY_VAL u64;
  o_entry_d ← COPY_VAL u64;
  let this' := mkTPCCClientQuery b txn_type w_id d_id c_id d_w_id c_w_id c_d_id c_last h_amount by_last_name items rbk remote ol_cnt o_entry_d in
  assert_ptr (TPCCClientQueryMessage_get_size this');;
  mret this'.
#[export] Instance TPCCClientQueryMessage_class : MessageClass TPCCClientQueryMessage := {
  base m := ClientQueryMessage_base (tcq_query m);
  set_base x m := mkTPCCClientQuery (ClientQueryMessage_set_base x (tcq_query m)) (tcq_txn_type m) (tcq_w_id m) (tcq_d_id m) (tcq_c_id m) (tcq_d_w_id m) (tcq_c_w_id m) (tcq_c_d_id m) (tcq_c_last m) (tcq_h_amount m) (tcq_by_last_name m) (tcq_items m) (tcq_rbk m) (tcq_remote m) (tcq_ol_cnt m) (tcq_o_entry_d m);
  get_size := TPCCClientQueryMessage_get_size;
  copy_to_buf := TPCCClientQueryMessage_copy_to_buf; copy_from_buf := TPCCClientQueryMessage_copy_from_buf }.
#[local] Hint Unfold TPCCClientQueryMessage_class TPCCClientQueryMessage_get_size
  TPCCClientQueryMessage_copy_to_buf TPCCClientQueryMessage_copy_from_buf : msg.
#[export] Program Instance TPCCClientQueryMessage_laws : MessageLaws TPCCClientQueryMessage := {
  msg_ok m := ClientQueryMessage_ok (tcq_query m) /\ is_u64 (tcq_txn_type m) /\ is_u64 (tcq_w_id m) /\ is_u64 (tcq_d_id m) /\ is_u64 (tcq_c_id m) /\ is_u64 (tcq_d_w_id m) /\ is_u64 (tcq_c_w_id m) /\ is_u64 (tcq_c_d_id m) /\ wire_ok lastname (tcq_c_last m) /\ is_u64 (tcq_h_amount m) /\ items_ok item_wire (items (tcq_items m)) /\ is_u64 (tcq_ol_cnt m) /\ is_u64 (tcq_o_entry_d m);
  layout m := ClientQueryMessage_layout (tcq_query m)
    ++ encode u64 (tcq_txn_type m)
    ++ encode u64 (tcq_w_id m)
    ++ encode u64 (tcq_d_id m)
    ++ encode u64 (tcq_c_id m)
    ++ encode u64 (tcq_d_w_id m)
    ++ encode u64 (tcq_c_w_id m)
    ++ encode u64 (tcq_c_d_id m)
    ++ encode lastname (tcq_c_last m)
    ++ encode u64 (tcq_h_amount m)
    ++ encode bool8 (tcq_by_last_name m)
    ++ encode_array item_wire (items (tcq_items m))
    ++ encode bool8 (tcq_rbk m)
    ++ encode bool8 (tcq_remote m)
    ++ encode u64 (tcq_ol_cnt m)
    ++ encode u64 (tcq_o_entry_d m);
  sent now m := mkTPCCClientQuery (ClientQueryMessage_sent now (tcq_query m)) (tcq_txn_type m) (tcq_w_id m) (tcq_d_id m) (tcq_c_id m) (tcq_d_w_id m) (tcq_c_w_id m) (tcq_c_d_id m) (tcq_c_last m) (tcq_h_amount m) (tcq_by_last_name m) (tcq_items m) (tcq_rbk m) (tcq_remote m) (tcq_ol_cnt m) (tcq_o_entry_d m);
  received now this m := mkTPCCClientQuery (ClientQueryMessage_received now (tcq_query this) (tcq_query m)) (tcq_txn_type m) (tcq_w_id m) (tcq_d_id m) (tcq_c_id m) (tcq_d_w_id m) (tcq_c_w_id m) (tcq_c_d_id m) (tcq_c_last m) (tcq_h_amount m) (tcq_by_last_name m) (tight (tcq_items m)) (tcq_rbk m) (tcq_remote m) (tcq_ol_cnt m) (tcq_o_entry_d m) }.
Next Obligation. msg_size. Qed.
Next Obligation. intros m. apply ClientQueryMessage_layout_head. Qed.
Next Obligation. done. Qed.
Next Obligation. done. Qed.
Next Obligation. msg_ok_tac. Qed.
Next Obligation. msg_size. Qed.
Next Obligation. msg_size. Qed.
Next Obligation. msg_wire. Qed.
Next Obligation. msg_wire. Qed.
(** The server-to-server message: the parameters of the kind of transaction
    at hand. *)
Record TPCCQueryMessage := mkTPCCQuery {
  tq_query : QueryMessage;
  tq_txn_type : Z;
  tq_state : Z;
  tq_w_id : Z;
  tq_d_id : Z;
  tq_c_id : Z;
  tq_d_w_id : Z;
  tq_c_w_id : Z;
  tq_c_d_id : Z;
  tq_c_last : list Z;
  tq_h_amount : Z;
  tq_by_last_name : bool;
  tq_items : Array Item_no;
  tq_rbk : bool;
  tq_remote : bool;
  tq_ol_cnt : Z;
  tq_o_entry_d : Z
}.
Definition payment (t : Z) : bool := t =? TPCC_PAYMENT.
Definition new_order (t : Z) : bool := t =? TPCC_NEW_ORDER.
Definition TPCCQueryMessage_get_size (m : TPCCQueryMessage) : nat :=
  (QueryMessage_get_size (tq_query m)
   + size_of u64 + size_of u64 + size_of u64 * 3
   + (if payment (tq_txn_type m)
      then size_of u64 * 4 + LASTNAME_LEN + size_of bool8 else 0)
   + (if new_order (tq_txn_type m)
      then size_of u64 * 2 + size_of bool8 * 2
           + size_of item_wire * length (items (tq_items m)) + size_of u64 else 0))%nat.
Definition TPCCQueryMessage_copy_to_buf (now : Z) (m : TPCCQueryMessage) : Copy TPCCQueryMessage :=
  b ← QueryMessage_copy_to_buf now (tq_query m);
  set_ptr (QueryMessage_get_size b);;
  COPY_BUF u64 (tq_txn_type m);;
  COPY_BUF u64 (tq_state m);;
  COPY_BUF u64 (tq_w_id m);;
  COPY_BUF u64 (tq_d_id m);;
  COPY_BUF u64 (tq_c_id m);;
  let pay := payment (tq_txn_type m) in
  copy_buf_if pay u64 (tq_d_w_id m);;
  copy_buf_if pay u64 (tq_c_w_id m);;
  copy_buf_if pay u64 (tq_c_d_id m);;
  copy_buf_if pay lastname (tq_c_last m);;
  copy_buf_if pay u64 (tq_h_amount m);;
  copy_buf_if pay bool8 (tq_by_last_name m);;
  let ord := new_order (tq_txn_type m) in
  copy_buf_array_if ord item_wire (tq_items m);;
  copy_buf_if ord bool8 (tq_rbk m);;
  copy_buf_if ord bool8 (tq_remote m);;
  copy_buf_if ord u64 (tq_ol_cnt m);;
  copy_buf_if ord u64 (tq_o_entry_d m);;
  let m' := mkTPCCQuery b (tq_txn_type m) (tq_state m) (tq_w_id m) (tq_d_id m) (tq_c_id m)
    (tq_d_w_id m) (tq_c_w_id m) (tq_c_d_id m) (tq_c_last m) (tq_h_amount m)
    (tq_by_last_name m) (tq_items m) (tq_rbk m) (tq_remote m) (tq_ol_cnt m) (tq_o_entry_d m) in
  assert_ptr (TPCCQueryMessage_get_size m');;
  mret m'.
Definition TPCCQueryMessage_copy_from_buf (now : Z) (this : TPCCQueryMessage)
  : Copy TPCCQueryMessage :=
  b ← QueryMessage_copy_from_buf now (tq_query this);
  set_ptr (QueryMessage_get_size b);;
  txn_type ← COPY_VAL u64;
  cassert (payment txn_type || new_order txn_type);;
  state ← COPY_VAL u64;
  w_id ← COPY_VAL u64;
  d_id ← COPY_VAL u64;
  c_id ← COPY_VAL u64;
  let pay := payment txn_type in
  d_w_id ← copy_val_if pay u64 (tq_d_w_id this);
  c_w_id ← copy_val_if pay u64 (tq_c_w_id this);
  c_d_id ← copy_val_if pay u64 (tq_c_d_id this);
  c_last ← copy_val_if pay lastname (tq_c_last this);
  h_amount ← copy_val_if pay u64 (tq_h_amount this);
  by_last_name ← copy_val_if pay bool8 (tq_by_last_name this);
  let ord := new_order txn_type in
  its ← copy_val_array_if ord item_wire (tq_items this);
  rbk ← copy_val_if ord bool8 (tq_rbk this);
  remote ← copy_val_if ord bool8 (tq_remote this);
  ol_cnt ← copy_val_if ord u64 (tq_ol_cnt this);
  o_entry_d ← copy_val_if ord u64 (tq_o_entry_d this);
  let this' := mkTPCCQuery b txn_type state w_id d_id c_id d_w_id c_w_id c_d_id c_last
    h_amount by_last_name its rbk remote ol_cnt o_entry_d in
  assert_ptr (TPCCQueryMessage_get_size this');;
  mret this'.
#[export] Instance TPCCQueryMessage_class : MessageClass TPCCQueryMessage := {
  base m := QueryMessage_base (tq_query m);
  set_base x m := mkTPCCQuery (QueryMessage_set_base x (tq_query m)) (tq_txn_type m) (tq_state m)
    (tq_w_id m) (tq_d_id m) (tq_c_id m) (tq_d_w_id m) (tq_c_w_id m) (tq_c_d_id m)
    (tq_c_last m) (tq_h_amount m) (tq_by_last_name m) (tq_items m) (tq_rbk m) (tq_remote m)
    (tq_ol_cnt m) (tq_o_entry_d m);
  get_size := TPCCQueryMessage_get_size;
  copy_to_buf := TPCCQueryMessage_copy_to_buf;
  copy_from_buf := TPCCQueryMessage_copy_from_buf }.
#[local] Hint Unfold TPCCQueryMessage_class TPCCQueryMessage_get_size
  TPCCQueryMessage_copy_to_buf TPCCQueryMessage_copy_from_buf : msg.
#[export] Program Instance TPCCQueryMessage_laws : MessageLaws TPCCQueryMessage := {
  msg_ok m := QueryMessage_ok (tq_query m)
    /\ (payment (tq_txn_type m) || new_order (tq_txn_type m)) = true
    /\ is_u64 (tq_txn_type m) /\ is_u64 (tq_state m)
    /\ is_u64 (tq_w_id m) /\ is_u64 (tq_d_id m) /\ is_u64 (tq_c_id m)
    /\ is_u64 (tq_d_w_id m) /\ is_u64 (tq_c_w_id m) /\ is_u64 (tq_c_d_id m)
    /\ wire_ok lastname (tq_c_last m) /\ is_u64 (tq_h_amount m)
    /\ items_ok item_wire (items (tq_items m))
    /\ is_u64 (tq_ol_cnt m) /\ is_u64 (tq_o_entry_d m);
  layout m :=
    let pay := payment (tq_txn_type m) in
    let ord := new_order (tq_txn_type m) in
    QueryMessage_layout (tq_query m)
    ++ encode u64 (tq_txn_type m) ++ encode u64 (tq_state m)
    ++ encode u64 (tq_w_id m) ++ encode u64 (tq_d_id m) ++ encode u64 (tq_c_id m)
    ++ encode_if pay u64 (tq_d_w_id m) ++ encode_if pay u64 (tq_c_w_id m)
    ++ encode_if pay u64 (tq_c_d_id m) ++ encode_if pay lastname (tq_c_last m)
    ++ encode_if pay u64 (tq_h_amount m) ++ encode_if pay bool8 (tq_by_last_name m)
    ++ encode_array_if ord item_wire (items (tq_items m))
    ++ encode_if ord bool8 (tq_rbk m) ++ encode_if ord bool8 (tq_remote m)
    ++ encode_if ord u64 (tq_ol_cnt m) ++ encode_if ord u64 (tq_o_entry_d m);
  sent now m := mkTPCCQuery (QueryMessage_sent now (tq_query m)) (tq_txn_type m) (tq_state m)
    (tq_w_id m) (tq_d_id m) (tq_c_id m) (tq_d_w_id m) (tq_c_w_id m) (tq_c_d_id m)
    (tq_c_last m) (tq_h_amount m) (tq_by_last_name m) (tq_items m) (tq_rbk m) (tq_remote m)
    (tq_ol_cnt m) (tq_o_entry_d m);
  received now this m :=
    let pay := payment (tq_txn_type m) in
    let ord := new_order (tq_txn_type m) in
    mkTPCCQuery (QueryMessage_received now (tq_query this) (tq_query m)) (tq_txn_type m)
      (tq_state m) (tq_w_id m) (tq_d_id m) (tq_c_id m)
      (if pay then tq_d_w_id m else tq_d_w_id this)
      (if pay then tq_c_w_id m else tq_c_w_id this)
      (if pay then tq_c_d_id m else tq_c_d_id this)
      (if pay then tq_c_last m else tq_c_last this)
      (if pay then tq_h_amount m else tq_h_amount this)
      (if pay then tq_by_last_name m else tq_by_last_name this)
      (if ord then tight (tq_items m) else tq_items this)
      (if ord then tq_rbk m else tq_rbk this)
      (if ord then tq_remote m else tq_remote this)
      (if ord then tq_ol_cnt m else tq_ol_cnt this)
      (if ord then tq_o_entry_d m else tq_o_entry_d this) }.
Next Obligation. msg_size. Qed.
Next Obligation. intros m. apply QueryMessage_layout_head. Qed.
Next Obligation. done. Qed.
Next Obligation. done. Qed.
Next Obligation. msg_ok_tac. Qed.
Next Obligation. msg_size. Qed.
Next Obligation. msg_size. Qed.
Next Obligation. msg_wire. Qed.
Next Obligation. msg_wire. Qed.

(** ** PPS *)

Record PPSClientQueryMessage := mkPPSClientQuery {
  pcq_query : ClientQueryMessage;
  pcq_txn_type : Z;
  pcq_part_key : Z;
  pcq_product_key : Z;
  pcq_supplier_key : Z;
  pcq_part_keys : Array Z;
  pcq_recon : bool
}.
Definition PPSClientQueryMessage_get_size (m : PPSClientQueryMessage) : nat :=
  (ClientQueryMessage_get_size (pcq_query m)
   + size_of u64 + size_of u64 * 3 + size_of size_t
   + size_of u64 * length (items (pcq_part_keys m))
   + (if cc_is CC_CALVIN then size_of bool8 else 0))%nat.
Definition PPSClientQueryMessage_copy_to_buf (now : Z) (m : PPSClientQueryMessage) : Copy PPSClientQueryMessage :=
  b ← ClientQueryMessage_copy_to_buf now (pcq_query m);
  set_ptr (ClientQueryMessage_get_size b);;
  COPY_BUF u64 (pcq_txn_type m);;
  COPY_BUF u64 (pcq_part_key m);;
  COPY_BUF u64 (pcq_product_key m);;
  COPY_BUF u64 (pcq_supplier_key m);;
  copy_buf_array u64 (pcq_part_keys m);;
  copy_buf_if (cc_is CC_CALVIN) bool8 (pcq_recon m);;
  let m' := (mkPPSClientQuery b (pcq_txn_type m) (pcq_part_key m) (pcq_product_key m) (pcq_supplier_key m) (pcq_part_keys m) (pcq_recon m)) in
  assert_ptr (PPSClientQueryMessage_get_size m');;
  mret m'.
Definition PPSClientQueryMessage_copy_from_buf (now : Z) (this : PPSClientQueryMessage) : Copy PPSClientQueryMessage :=
  b ← ClientQueryMessage_copy_from_buf now (pcq_query this);
  set_ptr (ClientQueryMessage_get_size b);;
  txn_type ← COPY_VAL u64;
  part_key ← COPY_VAL u64;
  product_key ← COPY_VAL u64;
  supplier_key ← COPY_VAL u64;
  part_keys ← copy_val_array u64 (pcq_part_keys this);
  recon ← copy_val_if (cc_is CC_CALVIN) bool8 (pcq_recon this);
  let this' := mkPPSClientQuery b txn_type part_key product_key supplier_key part_keys recon in
  assert_ptr (PPSClientQueryMessage_get_size this');;
  mret this'.
#[export] Instance PPSClientQueryMessage_class : MessageClass PPSClientQueryMessage := {
  base m := ClientQueryMessage_base (pcq_query m);
  set_base x m := mkPPSClientQuery (ClientQueryMessage_set_base x (pcq_query m)) (pcq_txn_type m) (pcq_part_key m) (pcq_product_key m) (pcq_supplier_key m) (pcq_part_keys m) (pcq_recon m);
  get_size := PPSClientQueryMessage_get_size;
  copy_to_buf := PPSClientQueryMessage_copy_to_buf; copy_from_buf := PPSClientQueryMessage_copy_from_buf }.
#[local] Hint Unfold PPSClientQueryMessage_class PPSClientQueryMessage_get_size
  PPSClientQueryMessage_copy_to_buf PPSClientQueryMessage_copy_from_buf : msg.
#[export] Program Instance PPSClientQueryMessage_laws : MessageLaws PPSClientQueryMessage := {
  msg_ok m := ClientQueryMessage_ok (pcq_query m) /\ is_u64 (pcq_txn_type m) /\ is_u64 (pcq_part_key m) /\ is_u64 (pcq_product_key m) /\ is_u64 (pcq_supplier_key m) /\ items_ok u64 (items (pcq_part_keys m));
  layout m := ClientQueryMessage_layout (pcq_query m)
    ++ encode u64 (pcq_txn_type m)
    ++ encode u64 (pcq_part_key m)
    ++ encode u64 (pcq_product_key m)
    ++ encode u64 (pcq_supplier_key m)
    ++ encode_array u64 (items (pcq_part_keys m))
    ++ encode_if (cc_is CC_CALVIN) bool8 (pcq_recon m);
  sent now m := mkPPSClientQuery (ClientQueryMessage_sent now (pcq_query m)) (pcq_txn_type m) (pcq_part_key m) (pcq_product_key m) (pcq_supplier_key m) (pcq_part_keys m) (pcq_recon m);
  received now this m := mkPPSClientQuery (ClientQueryMessage_received now (pcq_query this) (pcq_query m)) (pcq_txn_type m) (pcq_part_key m) (pcq_product_key m) (pcq_supplier_key m) (tight (pcq_part_keys m))
    (if cc_is CC_CALVIN then pcq_recon m else pcq_recon this) }.
Next Obligation. msg_size. Qed.
Next Obligation. intros m. apply ClientQueryMessage_layout_head. Qed.
Next Obligation. done. Qed.
Next Obligation. done. Qed.
Next Obligation. msg_ok_tac. Qed.
Next Obligation. msg_size. Qed.
Next Obligation. msg_size. Qed.
Next Obligation. msg_wire. Qed.
Next Obligation. msg_wire. Qed.
(** The key that the kind of transaction [t] needs: the eight tests of the
    code, in its order. *)
Definition copy_buf_pps_key (t part product supplier : Z) : Copy unit :=
  copy_buf_if (t =? PPS_GETPART) u64 part;;
  copy_buf_if (t =? PPS_GETPRODUCT) u64 product;;
  copy_buf_if (t =? PPS_GETSUPPLIER) u64 supplier;;
  copy_buf_if (t =? PPS_GETPARTBYPRODUCT) u64 part;;
  copy_buf_if (t =? PPS_GETPARTBYSUPPLIER) u64 part;;
  copy_buf_if (t =? PPS_ORDERPRODUCT) u64 part;;
  copy_buf_if (t =? PPS_UPDATEPRODUCTPART) u64 product;;
  copy_buf_if (t =? PPS_UPDATEPART) u64 part;;
  mret tt.
Definition copy_val_pps_key (t part product supplier : Z) : Copy (Z * Z * Z) :=
  part ← copy_val_if (t =? PPS_GETPART) u64 part;
  product ← copy_val_if (t =? PPS_GETPRODUCT) u64 product;
  supplier ← copy_val_if (t =? PPS_GETSUPPLIER) u64 supplier;
  part ← copy_val_if (t =? PPS_GETPARTBYPRODUCT) u64 part;
  part ← copy_val_if (t =? PPS_GETPARTBYSUPPLIER) u64 part;
  part ← copy_val_if (t =? PPS_ORDERPRODUCT) u64 part;
  product ← copy_val_if (t =? PPS_UPDATEPRODUCTPART) u64 product;
  part ← copy_val_if (t =? PPS_UPDATEPART) u64 part;
  mret (part, product, supplier).

Definition pps_kind (t : Z) : Prop := 1 <= t <= 8.
Definition needs_part (t : Z) : bool :=
  bool_decide (t ∈ [PPS_GETPART; PPS_GETPARTBYPRODUCT; PPS_GETPARTBYSUPPLIER;
                    PPS_ORDERPRODUCT; PPS_UPDATEPART]).
Definition needs_product (t : Z) : bool :=
  bool_decide (t ∈ [PPS_GETPRODUCT; PPS_UPDATEPRODUCTPART]).
Definition needs_supplier (t : Z) : bool := bool_decide (t = PPS_GETSUPPLIER).
Definition pps_key (t part product supplier : Z) : Z :=
  if needs_part t then part else if needs_product t then product else supplier.

Lemma pps_kinds t : pps_kind t -> t ∈ [1; 2; 3; 4; 5; 6; 7; 8].
Proof. unfold pps_kind. rewrite !elem_of_cons. lia. Qed.

(** By the kind of transaction: then every condition is a constant. *)
Ltac pps_cases :=
  intros Ht; apply pps_kinds in Ht;
  repeat (apply elem_of_cons in Ht as [-> | Ht]; [eapply writes_eq || eapply reads_eq;
    [cbn; repeat wire_step; assumption|by wire_app]|]);
  by apply elem_of_nil in Ht.

Lemma writes_pps_key p t part product supplier :
  pps_kind t ->
  writes p (copy_buf_pps_key t part product supplier) tt
    (encode u64 (pps_key t part product supplier)).
Proof. pps_cases. Qed.
Lemma reads_pps_key p t part product supplier part' product' supplier' :
  wire_ok u64 part -> wire_ok u64 product -> wire_ok u64 supplier -> pps_kind t ->
  reads p (copy_val_pps_key t part' product' supplier')
    (encode u64 (pps_key t part product supplier))
    (if needs_part t then part else part',
     if needs_product t then product else product',
     if needs_supplier t then supplier else supplier').
Proof. intros H1 H2 H3. pps_cases. Qed.
#[local] Hint Resolve writes_pps_key : wire.

(** The key that this kind of transaction needs travels, and only it. *)
Record PPSQueryMessage := mkPPSQuery {
  pq_query : QueryMessage;
  pq_txn_type : Z;
  pq_state : Z;
  pq_part_key : Z;
  pq_product_key : Z;
  pq_supplier_key : Z;
  pq_part_keys : Array Z
}.
Definition PPSQueryMessage_get_size (m : PPSQueryMessage) : nat :=
  (QueryMessage_get_size (pq_query m)
   + size_of u64 + size_of u64 + size_of u64 + size_of size_t
   + size_of u64 * length (items (pq_part_keys m)))%nat.
Definition PPSQueryMessage_copy_to_buf (now : Z) (m : PPSQueryMessage) : Copy PPSQueryMessage :=
  b ← QueryMessage_copy_to_buf now (pq_query m);
  set_ptr (QueryMessage_get_size b);;
  COPY_BUF u64 (pq_txn_type m);;
  COPY_BUF u64 (pq_state m);;
  copy_buf_pps_key (pq_txn_type m) (pq_part_key m) (pq_product_key m) (pq_supplier_key m);;
  copy_buf_array u64 (pq_part_keys m);;
  let m' := mkPPSQuery b (pq_txn_type m) (pq_state m) (pq_part_key m) (pq_product_key m)
    (pq_supplier_key m) (pq_part_keys m) in
  assert_ptr (PPSQueryMessage_get_size m');;
  mret m'.
Definition PPSQueryMessage_copy_from_buf (now : Z) (this : PPSQueryMessage)
  : Copy PPSQueryMessage :=
  b ← QueryMessage_copy_from_buf now (pq_query this);
  set_ptr (QueryMessage_get_size b);;
  txn_type ← COPY_VAL u64;
  state ← COPY_VAL u64;
  '(part_key, product_key, supplier_key) ←
    copy_val_pps_key txn_type (pq_part_key this) (pq_product_key this) (pq_supplier_key this);
  part_keys ← copy_val_array u64 (pq_part_keys this);
  let this' := mkPPSQuery b txn_type state part_key product_key supplier_key part_keys in
  assert_ptr (PPSQueryMessage_get_size this');;
  mret this'.

#[export] Instance PPSQueryMessage_class : MessageClass PPSQueryMessage := {
  base m := QueryMessage_base (pq_query m);
  set_base x m := mkPPSQuery (QueryMessage_set_base x (pq_query m)) (pq_txn_type m) (pq_state m)
    (pq_part_key m) (pq_product_key m) (pq_supplier_key m) (pq_part_keys m);
  get_size := PPSQueryMessage_get_size;
  copy_to_buf := PPSQueryMessage_copy_to_buf;
  copy_from_buf := PPSQueryMessage_copy_from_buf }.
#[local] Hint Unfold PPSQueryMessage_class PPSQueryMessage_get_size
  PPSQueryMessage_copy_to_buf PPSQueryMessage_copy_from_buf : msg.

#[export] Program Instance PPSQueryMessage_laws : MessageLaws PPSQueryMessage := {
  msg_ok m := QueryMessage_ok (pq_query m)
    /\ pps_kind (pq_txn_type m) /\ is_u64 (pq_txn_type m) /\ is_u64 (pq_state m)
    /\ is_u64 (pq_part_key m) /\ is_u64 (pq_product_key m) /\ is_u64 (pq_supplier_key m)
    /\ items_ok u64 (items (pq_part_keys m));
  layout m := QueryMessage_layout (pq_query m)
    ++ encode u64 (pq_txn_type m) ++ encode u64 (pq_state m)
    ++ encode u64 (pps_key (pq_txn_type m) (pq_part_key m) (pq_product_key m) (pq_supplier_key m)) ++ encode_array u64 (items (pq_part_keys m));
  sent now m := mkPPSQuery (QueryMessage_sent now (pq_query m)) (pq_txn_type m) (pq_state m)
    (pq_part_key m) (pq_product_key m) (pq_supplier_key m) (pq_part_keys m);
  received now this m :=
    mkPPSQuery (QueryMessage_received now (pq_query this) (pq_query m)) (pq_txn_type m)
      (pq_state m)
      (if needs_part (pq_txn_type m) then pq_part_key m else pq_part_key this)
      (if needs_product (pq_txn_type m) then pq_product_key m else pq_product_key this)
      (if needs_supplier (pq_txn_type m) then pq_supplier_key m else pq_supplier_key this)
      (tight (pq_part_keys m)) }.
Next Obligation. msg_size. Qed.
Next Obligation. intros m. apply QueryMessage_layout_head. Qed.
Next Obligation. done. Qed.
Next Obligation. done. Qed.
Next Obligation. msg_ok_tac. Qed.
Next Obligation. msg_size. Qed.
Next Obligation. msg_size. Qed.
Next Obligation. msg_wire. Qed.
Next Obligation.
  msg_open. eapply reads_eq.
  - repeat first [eapply reads_pps_key | apply reads_copy_val_array | wire_step];
      msg_side; auto with wire.
  - wire_app.
Qed.

(** ** DA *)

Record DAClientQueryMessage := mkDAClientQuery {
  dcq_query : ClientQueryMessage;
  dcq_txn_type : DATxnType;
  dcq_trans_id : Z;
  dcq_item_id : Z;
  dcq_seq_id : Z;
  dcq_write_version : Z;
  dcq_state : Z;
  dcq_next_state : Z;
  dcq_last_state : Z
}.
Definition DAClientQueryMessage_get_size (m : DAClientQueryMessage) : nat :=
  (ClientQueryMessage_get_size (dcq_query m)
   + size_of da_txn_type_wire + size_of u64 * 7)%nat.
Definition DAClientQueryMessage_copy_to_buf (now : Z) (m : DAClientQueryMessage) : Copy DAClientQueryMessage :=
  b ← ClientQueryMessage_copy_to_buf now (dcq_query m);
  set_ptr (ClientQueryMessage_get_size b);;
  COPY_BUF da_txn_type_wire (dcq_txn_type m);;
  COPY_BUF u64 (dcq_trans_id m);;
  COPY_BUF u64 (dcq_item_id m);;
  COPY_BUF u64 (dcq_seq_id m);;
  COPY_BUF u64 (dcq_write_version m);;
  COPY_BUF u64 (dcq_state m);;
  COPY_BUF u64 (dcq_next_state m);;
  COPY_BUF u64 (dcq_last_state m);;
  let m' := (mkDAClientQuery b (dcq_txn_type m) (dcq_trans_id m) (dcq_item_id m) (dcq_seq_id m) (dcq_write_version m) (dcq_state m) (dcq_next_state m) (dcq_last_state m)) in
  assert_ptr (DAClientQueryMessage_get_size m');;
  mret m'.
Definition DAClientQueryMessage_copy_from_buf (now : Z) (this : DAClientQueryMessage) : Copy DAClientQueryMessage :=
  b ← ClientQueryMessage_copy_from_buf now (dcq_query this);
  set_ptr (ClientQueryMessage_get_size b);;
  txn_type ← COPY_VAL da_txn_type_wire;
  trans_id ← COPY_VAL u64;
  item_id ← COPY_VAL u64;
  seq_id ← COPY_VAL u64;
  write_version ← COPY_VAL u64;
  state ← COPY_VAL u64;
  next_state ← COPY_VAL u64;
  last_state ← COPY_VAL u64;
  let this' := mkDAClientQuery b txn_type trans_id item_id seq_id write_version state next_state last_state in
  assert_ptr (DAClientQueryMessage_get_size this');;
  mret this'.
#[export] Instance DAClientQueryMessage_class : MessageClass DAClientQueryMessage := {
  base m := ClientQueryMessage_base (dcq_query m);
  set_base x m := mkDAClientQuery (ClientQueryMessage_set_base x (dcq_query m)) (dcq_txn_type m) (dcq_trans_id m) (dcq_item_id m) (dcq_seq_id m) (dcq_write_version m) (dcq_state m) (dcq_next_state m) (dcq_last_state m);
  get_size := DAClientQueryMessage_get_size;
  copy_to_buf := DAClientQueryMessage_copy_to_buf; copy_from_buf := DAClientQueryMessage_copy_from_buf }.
#[local] Hint Unfold DAClientQueryMessage_class DAClientQueryMessage_get_size
  DAClientQueryMessage_copy_to_buf DAClientQueryMessage_copy_from_buf : msg.
#[export] Program Instance DAClientQueryMessage_laws : MessageLaws DAClientQueryMessage := {
  msg_ok m := ClientQueryMessage_ok (dcq_query m) /\ is_u64 (dcq_trans_id m) /\ is_u64 (dcq_item_id m) /\ is_u64 (dcq_seq_id m) /\ is_u64 (dcq_write_version m) /\ is_u64 (dcq_state m) /\ is_u64 (dcq_next_state m) /\ is_u64 (dcq_last_state m);
  layout m := ClientQueryMessage_layout (dcq_query m)
    ++ encode da_txn_type_wire (dcq_txn_type m)
    ++ encode u64 (dcq_trans_id m)
    ++ encode u64 (dcq_item_id m)
    ++ encode u64 (dcq_seq_id m)
    ++ encode u64 (dcq_write_version m)
    ++ encode u64 (dcq_state m)
    ++ encode u64 (dcq_next_state m)
    ++ encode u64 (dcq_last_state m);
  sent now m := mkDAClientQuery (ClientQueryMessage_sent now (dcq_query m)) (dcq_txn_type m) (dcq_trans_id m) (dcq_item_id m) (dcq_seq_id m) (dcq_write_version m) (dcq_state m) (dcq_next_state m) (dcq_last_state m);
  received now this m := mkDAClientQuery (ClientQueryMessage_received now (dcq_query this) (dcq_query m)) (dcq_txn_type m) (dcq_trans_id m) (dcq_item_id m) (dcq_seq_id m) (dcq_write_version m) (dcq_state m) (dcq_next_state m) (dcq_last_state m) }.
Next Obligation. msg_size. Qed.
Next Obligation. intros m. apply ClientQueryMessage_layout_head. Qed.
Next Obligation. done. Qed.
Next Obligation. done. Qed.
Next Obligation. msg_ok_tac. Qed.
Next Obligation. msg_size. Qed.
Next Obligation. msg_size. Qed.
Next Obligation. msg_wire. Qed.
Next Obligation. msg_wire. Qed.
Record DAQueryMessage := mkDAQuery {
  dq_query : QueryMessage;
  dq_txn_type : DATxnType;
  dq_trans_id : Z;
  dq_item_id : Z;
  dq_seq_id : Z;
  dq_write_version : Z;
  dq_state : Z;
  dq_next_state : Z;
  dq_last_state : Z
}.
Definition DAQueryMessage_get_size (m : DAQueryMessage) : nat :=
  (QueryMessage_get_size (dq_query m)
   + size_of da_txn_type_wire + size_of u64 * 7)%nat.
Definition DAQueryMessage_copy_to_buf (now : Z) (m : DAQueryMessage) : Copy DAQueryMessage :=
  b ← QueryMessage_copy_to_buf now (dq_query m);
  set_ptr (QueryMessage_get_size b);;
  COPY_BUF da_txn_type_wire (dq_txn_type m);;
  COPY_BUF u64 (dq_trans_id m);;
  COPY_BUF u64 (dq_item_id m);;
  COPY_BUF u64 (dq_seq_id m);;
  COPY_BUF u64 (dq_write_version m);;
  COPY_BUF u64 (dq_state m);;
  COPY_BUF u64 (dq_next_state m);;
  COPY_BUF u64 (dq_last_state m);;
  let m' := (mkDAQuery b (dq_txn_type m) (dq_trans_id m) (dq_item_id m) (dq_seq_id m) (dq_write_version m) (dq_state m) (dq_next_state m) (dq_last_state m)) in
  mret m'.
Definition DAQueryMessage_copy_from_buf (now : Z) (this : DAQueryMessage) : Copy DAQueryMessage :=
  b ← QueryMessage_copy_from_buf now (dq_query this);
  set_ptr (QueryMessage_get_size b);;
  txn_type ← COPY_VAL da_txn_type_wire;
  trans_id ← COPY_VAL u64;
  item_id ← COPY_VAL u64;
  seq_id ← COPY_VAL u64;
  write_version ← COPY_VAL u64;
  state ← COPY_VAL u64;
  next_state ← COPY_VAL u64;
  last_state ← COPY_VAL u64;
  let this' := mkDAQuery b txn_type trans_id item_id seq_id write_version state next_state last_state in
  assert_ptr (DAQueryMessage_get_size this');;
  mret this'.
#[export] Instance DAQueryMessage_class : MessageClass DAQueryMessage := {
  base m := QueryMessage_base (dq_query m);
  set_base x m := mkDAQuery (QueryMessage_set_base x (dq_query m)) (dq_txn_type m) (dq_trans_id m) (dq_item_id m) (dq_seq_id m) (dq_write_version m) (dq_state m) (dq_next_state m) (dq_last_state m);
  get_size := DAQueryMessage_get_size;
  copy_to_buf := DAQueryMessage_copy_to_buf; copy_from_buf := DAQueryMessage_copy_from_buf }.
#[local] Hint Unfold DAQueryMessage_class DAQueryMessage_get_size
  DAQueryMessage_copy_to_buf DAQueryMessage_copy_from_buf : msg.
#[export] Program Instance DAQueryMessage_laws : MessageLaws DAQueryMessage := {
  msg_ok m := QueryMessage_ok (dq_query m) /\ is_u64 (dq_trans_id m) /\ is_u64 (dq_item_id m) /\ is_u64 (dq_seq_id m) /\ is_u64 (dq_write_version m) /\ is_u64 (dq_state m) /\ is_u64 (dq_next_state m) /\ is_u64 (dq_last_state m);
  layout m := QueryMessage_layout (dq_query m)
    ++ encode da_txn_type_wire (dq_txn_type m)
    ++ encode u64 (dq_trans_id m)
    ++ encode u64 (dq_item_id m)
    ++ encode u64 (dq_seq_id m)
    ++ encode u64 (dq_write_version m)
    ++ encode u64 (dq_state m)
    ++ encode u64 (dq_next_state m)
    ++ encode u64 (dq_last_state m);
  sent now m := mkDAQuery (QueryMessage_sent now (dq_query m)) (dq_txn_type m) (dq_trans_id m) (dq_item_id m) (dq_seq_id m) (dq_write_version m) (dq_state m) (dq_next_state m) (dq_last_state m);
  received now this m := mkDAQuery (QueryMessage_received now (dq_query this) (dq_query m)) (dq_txn_type m) (dq_trans_id m) (dq_item_id m) (dq_seq_id m) (dq_write_version m) (dq_state m) (dq_next_state m) (dq_last_state m) }.
Next Obligation. msg_size. Qed.
Next Obligation. intros m. apply QueryMessage_layout_head. Qed.
Next Obligation. done. Qed.
Next Obligation. done. Qed.
Next Obligation. msg_ok_tac. Qed.
Next Obligation. msg_size. Qed.
Next Obligation. msg_size. Qed.
Next Obligation. msg_wire. Qed.
Next Obligation. msg_wire. Qed.
End Queries.
