(* ===== verification/MessageBatch.v ===== *)
(** * MessageBatch: creating messages, and batches of them

    transport/message.cpp, [Message::create_message] and [create_messages];
    transport/msg_thread.h, [mbuf]; transport/msg_thread.cpp, [MessageThread].

    A sending thread keeps one buffer per destination, appends the messages for
    it, and hands the buffer to the transport when the next one does not fit or
    the time limit has passed; the receiver turns a buffer into objects.  The
    specification is a queue per destination: what arrives is what was sent, in
    order, however it was cut into batches.

    Objects are created by [new]; [storage] is the state in which the
    constructors leave the members that [create_message] does not set.  The text
    of [MigrationMessage] has unresolved merge conflicts: its class is a
    parameter.  The branch of [MessageThread::run] for a message to the node
    itself follows an assertion that excludes it. *)

From stdpp Require Import base tactics list numbers.
From Stdlib Require Import ZArith Lia.
From S2P Require Import Prelude Wire CArray Message QueryMessage.
#[local] Open Scope Z_scope.

(** ** The classes *)

Inductive MsgKind :=
| KInitDone | KFinish | KLog | KLogRsp | KLogFlushed | KQueryResponse | KAck | KPrepare
| KForward | KDone | KClientResponse | KSync | KAckSync
| KYCSBQuery | KTPCCQuery | KPPSQuery | KDAQuery
| KYCSBClientQuery | KTPCCClientQuery | KPPSClientQuery | KDAClientQuery.

Definition Obj (k : MsgKind) : Type :=
  match k with
  | KInitDone => InitDoneMessage
  | KFinish => FinishMessage
  | KLog => LogMessage
  | KLogRsp => LogRspMessage
  | KLogFlushed => LogFlushedMessage
  | KQueryResponse => QueryResponseMessage
  | KAck => AckMessage
  | KPrepare => PrepareMessage
  | KForward => ForwardMessage
  | KDone => DoneMessage
  | KClientResponse => ClientResponseMessage
  | KSync => SyncMessage
  | KAckSync => AckSyncMessage
  | KYCSBQuery => YCSBQueryMessage
  | KTPCCQuery => TPCCQueryMessage
  | KPPSQuery => PPSQueryMessage
  | KDAQuery => DAQueryMessage
  | KYCSBClientQuery => YCSBClientQueryMessage
  | KTPCCClientQuery => TPCCClientQueryMessage
  | KPPSClientQuery => PPSClientQueryMessage
  | KDAClientQuery => DAClientQueryMessage
  end.

(** Dynamic dispatch. *)
#[export] Instance obj_class {cfg : Config} (k : MsgKind) : MessageClass (Obj k) :=
  match k with
  | KInitDone => _ | KFinish => _ | KLog => _ | KLogRsp => _ | KLogFlushed => _
  | KQueryResponse => _ | KAck => _ | KPrepare => _ | KForward => _ | KDone => _
  | KClientResponse => _ | KSync => _ | KAckSync => _
  | KYCSBQuery => _ | KTPCCQuery => _ | KPPSQuery => _ | KDAQuery => _
  | KYCSBClientQuery => _ | KTPCCClientQuery => _ | KPPSClientQuery => _ | KDAClientQuery => _
  end.

(** No [LogMessage] and no [LogFlushedMessage] can be sent: the first fails an
    assertion, the second writes nothing. *)
#[export] Program Instance LogMessage_laws {cfg : Config} : MessageLaws LogMessage := {
  msg_ok m := False;
  layout m := mlayout (log_msg m);
  sent now m := mkLog (stamp_departure now (log_msg m)) (log_record m);
  received now this m := this }.
Next Obligation. intros. apply mlayout_length. Qed.
Next Obligation. intros cfg m. exists []. by rewrite app_nil_r. Qed.
Next Obligation. done. Qed.
Next Obligation. done. Qed.
Next Obligation. done. Qed.
Next Obligation. done. Qed.
Next Obligation. done. Qed.
Next Obligation. done. Qed.
Next Obligation. done. Qed.

#[export] Program Instance LogFlushedMessage_laws {cfg : Config}
  : MessageLaws LogFlushedMessage := {
  msg_ok m := False;
  layout m := mlayout (log_flushed_msg m) ++ replicate (128 - mget_size) 0;
  sent now m := mkLogFlushed (stamp_departure now (log_flushed_msg m));
  received now this m := this }.
Next Obligation.
  intros cfg m. cbn beta. rewrite length_app, mlayout_length, length_replicate.
  cbn -[mget_size]. unfold LogFlushedMessage_get_size, mget_size. case_match; cbn; lia.
Qed.
Next Obligation. intros cfg m. by eexists. Qed.
Next Obligation. done. Qed.
Next Obligation. done. Qed.
Next Obligation. done. Qed.
Next Obligation. done. Qed.
Next Obligation. done. Qed.
Next Obligation. done. Qed.
Next Obligation. done. Qed.

#[export] Instance obj_laws {cfg : Config} (k : MsgKind) : MessageLaws (Obj k) :=
  match k with
  | KInitDone => _ | KFinish => _ | KLog => _ | KLogRsp => _ | KLogFlushed => _
  | KQueryResponse => _ | KAck => _ | KPrepare => _ | KForward => _ | KDone => _
  | KClientResponse => _ | KSync => _ | KAckSync => _
  | KYCSBQuery => _ | KTPCCQuery => _ | KPPSQuery => _ | KDAQuery => _
  | KYCSBClientQuery => _ | KTPCCClientQuery => _ | KPPSClientQuery => _ | KDAClientQuery => _
  end.

(** The class that [create_message] instantiates; [None] for the types without
    a case. *)
Definition query_kind {cfg : Config} : option MsgKind :=
  match WORKLOAD with
  | WL_YCSB => Some KYCSBQuery | WL_TPCC => Some KTPCCQuery
  | WL_PPS => Some KPPSQuery | WL_DA => Some KDAQuery | WL_TEST => None
  end.
Definition client_query_kind {cfg : Config} : option MsgKind :=
  match WORKLOAD with
  | WL_YCSB => Some KYCSBClientQuery | WL_TPCC => Some KTPCCClientQuery
  | WL_PPS => Some KPPSClientQuery | WL_DA => Some KDAClientQuery | WL_TEST => None
  end.
Definition kind_of {cfg : Config} (rt : RemReqType) : option MsgKind :=
  match rt with
  | INIT_DONE => Some KInitDone
  | RQRY | RQRY_CONT => query_kind
  | RFIN => Some KFinish
  | RQRY_RSP => Some KQueryResponse
  | LOG_MSG => Some KLog
  | LOG_MSG_RSP => Some KLogRsp
  | LOG_FLUSHED => Some KLogFlushed
  | CALVIN_ACK | RACK_PREP | RACK_FIN => Some KAck
  | SYNC => Some KSync
  | ACK_SYNC => Some KAckSync
  | CL_QRY | CL_QRY_O | RTXN | RTXN_CONT => client_query_kind
  | RPREPARE => Some KPrepare
  | RFWD => Some KForward
  | RDONE => Some KDone
  | CL_RSP => Some KClientResponse
  | _ => None
  end.

Section Create.
Context {cfg : Config} {Mig : Type} {mig_class : MessageClass Mig}.

Inductive AnyMessage :=
| Migration (m : Mig)
| Msg (k : MsgKind) (o : Obj k).

Definition any_get_size (m : AnyMessage) : nat :=
  match m with Migration m => get_size m | Msg k o => get_size o end.
Definition any_base (m : AnyMessage) : Message :=
  match m with Migration m => base m | Msg k o => base o end.
Definition any_set_base (b : Message) (m : AnyMessage) : AnyMessage :=
  match m with Migration m => Migration (set_base b m) | Msg k o => Msg k (set_base b o) end.
Definition any_copy_to_buf (now : Z) (m : AnyMessage) : Copy AnyMessage :=
  match m with
  | Migration m => m' ← copy_to_buf now m; mret (Migration m')
  | Msg k o => o' ← copy_to_buf now o; mret (Msg k o')
  end.
Definition any_copy_from_buf (now : Z) (m : AnyMessage) : Copy AnyMessage :=
  match m with
  | Migration m => m' ← copy_from_buf now m; mret (Migration m')
  | Msg k o => o' ← copy_from_buf now o; mret (Msg k o')
  end.

(** What [new] leaves in the members that are not set. *)
Context (mig_storage : Mig) (storage : forall k, Obj k).

Definition fresh_base (rt : RemReqType) : Message :=
  mkMessage rt UINT64_MAX UINT64_MAX g_node_id 0 0 0 0 0 0 0 0 0 0.

(** [Message::create_message(RemReqType)].  ([init] of the query classes is
    empty.) *)
Definition create_message (rt : RemReqType) : res AnyMessage :=
  match rt with
  | SEND_MIGRATION | RECV_MIGRATION | FINISH_MIGRATION =>
      Ok (Migration (set_base (fresh_base rt) mig_storage))
  | _ =>
      match kind_of rt with
      | Some k => Ok (Msg k (set_base (fresh_base rt) (storage k)))
      | None => AssertFail
      end
  end.

(** [Message::create_message(char * buf)]. *)
Definition create_message_from (now : Z) (l : list Z) : res AnyMessage :=
  '(rt, _) ← COPY_VAL rtype_wire (Mem l 0);
  m ← create_message rt;
  '(m', _) ← any_copy_from_buf now m (Mem l 0);
  Ok m'.

Definition set_return_node_id (n : Z) (m : AnyMessage) : AnyMessage :=
  let b := any_base m in
  any_set_base
    (mkMessage (rtype b) (txn_id b) (batch_id b) n (wq_time b) (mq_time b) (ntwk_time b)
       (lat_work_queue_time b) (lat_msg_queue_time b) (lat_cc_block_time b) (lat_cc_time b)
       (lat_process_time b) (lat_network_time b) (lat_other_time b)) m.

(** The loop of [create_messages]: [n] messages from position [p]. *)
Fixpoint create_messages_loop (clock : nat -> Z) (return_id : Z) (l : list Z) (n p : nat)
  : res (list AnyMessage) :=
  match n with
  | O => Ok []
  | S n' =>
      m ← create_message_from (clock n) (drop p l);
      let m' := set_return_node_id return_id m in
      ms ← create_messages_loop clock return_id l n' (p + any_get_size m');
      Ok (m' :: ms)
  end.

(** The header of a batch. *)
Definition read_header : Copy (Z * Z * Z) :=
  dest_id ← COPY_VAL u32;
  return_id ← COPY_VAL u32;
  txn_cnt ← COPY_VAL u32;
  starttime ← COPY_VAL u64;
  mret (dest_id, return_id, txn_cnt).

(** [Message::create_messages].  The [n]-th message from the end is read at
    [clock n]. *)
Definition create_messages (clock : nat -> Z) (l : list Z) : res (list AnyMessage) :=
  '((dest_id, return_id, txn_cnt), m) ← read_header (Mem l 0);
  assert! (dest_id =? g_node_id);
  assert! (negb (return_id =? g_node_id));
  assert! (ISCLIENTN return_id || ISSERVERN return_id || ISREPLICAN return_id);
  create_messages_loop clock return_id l (Z.to_nat txn_cnt) (ptr m).
End Create.
Arguments AnyMessage Mig : clear implicits.

(** ** The sending thread *)

(** [struct mbuf]. *)
Record mbuf := mkMbuf {
  mb_buffer : list Z;
  mb_starttime : Z;
  mb_ptr : nat;
  mb_cnt : Z;
  mb_wait : bool
}.

(** [MessageThread]: its buffers, and what it has given to the transport. *)
Record MessageThread := mkMsgThread {
  mt_buffer : list mbuf;
  mt_sent : list (Z * list Z)
}.

(** The clock readings of one call of [run]. *)
Record Times := mkTimes {
  t_copy : Z;
  t_start : Z;
  t_ready : nat -> Z;
  t_send : nat -> Z
}.

Section Thread.
Context {cfg : Config} {Mig : Type} {mig_class : MessageClass Mig}.

Definition g_total_node_cnt : Z :=
  g_node_cnt + g_client_node_cnt + g_repl_cnt * g_node_cnt.

(** A store at a fixed place of the header. *)
Definition put {A} (w : Wire A) (off : nat) (v : A) (l : list Z) : res (list Z) :=
  '(_, m) ← COPY_BUF w v (Mem l off); Ok (buf m).

Definition mbuf_reset (dest_id : Z) (b : mbuf) : res mbuf :=
  l ← put u32 0 dest_id (mb_buffer b);
  l' ← put u32 4 g_node_id l;
  Ok (mkMbuf l' 0 20 0 false).
Definition mbuf_set_send_time (ts : Z) (b : mbuf) : res mbuf :=
  l ← put u64 12 ts (mb_buffer b);
  Ok (mkMbuf l (mb_starttime b) (mb_ptr b) (mb_cnt b) (mb_wait b)).
Definition mbuf_fits (s : nat) (b : mbuf) : bool := (mb_ptr b + s <=? g_msg_size)%nat.
Definition mbuf_ready (now : Z) (b : mbuf) : bool :=
  if mb_cnt b =? 0 then false else g_msg_time_limit <=? wrap64 (now - mb_starttime b).

Definition lookup_buf (st : MessageThread) (d : nat) : res mbuf :=
  match mt_buffer st !! d with Some b => Ok b | None => AssertFail end.
Definition set_buf (st : MessageThread) (d : nat) (b : mbuf) : MessageThread :=
  mkMsgThread (<[d := b]> (mt_buffer st)) (mt_sent st).

(** [send_msg] copies the first [ptr] bytes. *)
Definition send_batch (now : Z) (d : nat) (st : MessageThread) : res MessageThread :=
  sbuf ← lookup_buf st d;
  l ← put u32 8 (mb_cnt sbuf) (mb_buffer sbuf);
  sbuf' ← mbuf_set_send_time now
            (mkMbuf l (mb_starttime sbuf) (mb_ptr sbuf) (mb_cnt sbuf) (mb_wait sbuf));
  let st' := mkMsgThread (mt_buffer st)
               (mt_sent st ++ [(Z.of_nat d, take (mb_ptr sbuf') (mb_buffer sbuf'))]) in
  sbuf'' ← mbuf_reset (Z.of_nat d) sbuf';
  Ok (set_buf st' d sbuf'').

Fixpoint check_and_send (t : Times) (ds : list nat) (st : MessageThread) : res MessageThread :=
  match ds with
  | [] => Ok st
  | d :: ds' =>
      if Z.of_nat d =? g_node_id then check_and_send t ds' st
      else
        sbuf ← lookup_buf st d;
        st' ← (if mbuf_ready (t_ready t d) sbuf then send_batch (t_send t d) d st else Ok st);
        check_and_send t ds' st'
  end.
Definition check_and_send_batches (t : Times) (st : MessageThread) : res MessageThread :=
  check_and_send t (seq 0 (length (mt_buffer st))) st.

(** [init]: [alloc n] is the memory of the [n]-th buffer. *)
Definition buffer_cnt : nat :=
  (Z.to_nat g_total_node_cnt + if cc_is CC_CALVIN then 1 else 0)%nat.
Fixpoint init_bufs (alloc : nat -> list Z) (ds : list nat) : res (list mbuf) :=
  match ds with
  | [] => Ok []
  | d :: ds' =>
      b ← mbuf_reset (Z.of_nat d) (mkMbuf (alloc d) 0 0 0 false);
      bs ← init_bufs alloc ds';
      Ok (b :: bs)
  end.
Definition MessageThread_init (alloc : nat -> list Z) : res MessageThread :=
  bs ← init_bufs alloc (seq 0 buffer_cnt);
  Ok (mkMsgThread bs []).

(** [run] with [msg] from the queue. *)
Definition MessageThread_run (t : Times) (dest_node_id : nat) (msg : AnyMessage Mig)
    (st : MessageThread) : res MessageThread :=
  assert! (Z.of_nat dest_node_id <? g_total_node_cnt);
  assert! (negb (Z.of_nat dest_node_id =? g_node_id));
  sbuf0 ← lookup_buf st dest_node_id;
  st1 ← (if negb (mbuf_fits (any_get_size msg) sbuf0)
         then send_batch (t_send t dest_node_id) dest_node_id st else Ok st);
  sbuf ← lookup_buf st1 dest_node_id;
  '(msg', m) ← any_copy_to_buf (t_copy t) msg (Mem (drop (mb_ptr sbuf) (mb_buffer sbuf)) 0);
  let start := if mb_starttime sbuf =? 0 then t_start t else mb_starttime sbuf in
  let sbuf' := mkMbuf (take (mb_ptr sbuf) (mb_buffer sbuf) ++ buf m) start
                 (mb_ptr sbuf + any_get_size msg') (wrap64 (mb_cnt sbuf + 1)) (mb_wait sbuf) in
  check_and_send_batches t (set_buf st1 dest_node_id sbuf').

(** A sequence of messages from the queue. *)
Fixpoint run_all (ops : list (Times * nat * AnyMessage Mig)) (st : MessageThread)
  : res MessageThread :=
  match ops with
  | [] => Ok st
  | (t, d, m) :: ops' => st' ← MessageThread_run t d m st; run_all ops' st'
  end.
End Thread.

(** ** Receiving what was laid out *)

(** The same configuration at another node. *)
Definition at_node (n : Z) (cfg : Config) : Config :=
  @Build_Config (@CC_ALG cfg) (@WORKLOAD cfg) n (@g_node_cnt cfg) (@g_client_node_cnt cfg)
    (@g_repl_cnt cfg) (@g_synth_table_size cfg) (@g_req_per_query cfg) (@g_msg_size cfg)
    (@g_msg_time_limit cfg) (@myrand_next cfg).

Lemma at_node_layout {cfg : Config} n k (o : Obj k) :
  layout (cfg := at_node n cfg) o = layout o.
Proof. by destruct k. Qed.
Lemma at_node_ok {cfg : Config} n k (o : Obj k) :
  msg_ok (cfg := at_node n cfg) o <-> msg_ok o.
Proof. by destruct k. Qed.
Lemma at_node_base {cfg : Config} n k (o : Obj k) : base (cfg := at_node n cfg) o = base o.
Proof. destruct k; cbn; reflexivity. Qed.
Lemma at_node_kind_of {cfg : Config} n rt : kind_of (cfg := at_node n cfg) rt = kind_of rt.
Proof. by destruct rt. Qed.

Section Receive.
Context {cfg : Config} {Mig : Type} {mig_class : MessageClass Mig}.
Context (mig_storage : Mig) (storage : forall k, Obj k).

(** A message that [create_message] can give back: of a modelled class, of
    the class of its type, and well formed. *)
Definition sendable (m : AnyMessage Mig) : Prop :=
  match m with
  | Migration _ => False
  | Msg k o => msg_ok o /\ kind_of (rtype (base o)) = Some k
  end.
Definition any_layout (m : AnyMessage Mig) : list Z :=
  match m with Migration _ => [] | Msg k o => layout o end.
Definition any_sent (now : Z) (m : AnyMessage Mig) : AnyMessage Mig :=
  match m with Migration _ => m | Msg k o => Msg k (sent now o) end.

(** The object that [create_message] makes of the bytes of [m]. *)
Definition any_received (now : Z) (m : AnyMessage Mig) : AnyMessage Mig :=
  match m with
  | Migration _ => m
  | Msg k o => Msg k (received now (set_base (fresh_base (rtype (base o))) (storage k)) o)
  end.

Fixpoint body (ms : list (AnyMessage Mig)) : list Z :=
  match ms with [] => [] | m :: ms' => any_layout m ++ body ms' end.

Lemma body_app ms ms' : body (ms ++ ms') = body ms ++ body ms'.
Proof. induction ms as [|m ms IH]; cbn; [done|]. by rewrite IH, app_assoc. Qed.

Lemma any_layout_length m : sendable m -> length (any_layout m) = any_get_size m.
Proof. destruct m; [done|]. intros _. apply layout_length. Qed.

Lemma any_layout_head m :
  sendable m -> exists rest, any_layout m = encode rtype_wire (rtype (any_base m)) ++ rest.
Proof.
  destruct m as [|k o]; [done|]. intros _. cbn [any_layout any_base].
  destruct (layout_head o) as [rest ->]. unfold mlayout. rewrite <- app_assoc. by eexists.
Qed.

Lemma any_layout_pos m : sendable m -> (0 < length (any_layout m))%nat.
Proof.
  intros [rest ->]%any_layout_head. rewrite length_app, encode_length.
  cbn. lia.
Qed.

Lemma any_sent_sendable now m : sendable m -> sendable (any_sent now m).
Proof.
  destruct m as [|k o]; [done|]. cbn. intros [Hok Hk]. split; [by apply sent_ok|].
  by rewrite sent_base, stamp_departure_rtype.
Qed.

Lemma any_sent_size now m : any_get_size (any_sent now m) = any_get_size m.
Proof. destruct m; [done|]. apply sent_size. Qed.

Lemma any_received_size now m : any_get_size (any_received now m) = any_get_size m.
Proof. destruct m; [done|]. apply received_size. Qed.

Lemma writes_any now m :
  sendable m ->
  writes 0 (any_copy_to_buf now m) (any_sent now m) (any_layout (any_sent now m)).
Proof.
  destruct m as [|k o]; [done|]. intros [Hok _]. cbn.
  eapply writes_eq; [eapply writes_bind; [by apply writes_msg|apply writes_ret]|].
  by rewrite app_nil_r.
Qed.

Lemma reads_any now k (this o : Obj k) :
  msg_ok o ->
  reads 0 (any_copy_from_buf now (Msg k this : AnyMessage Mig)) (layout o)
    (Msg k (received now this o)).
Proof.
  intros Hok. cbn. eapply reads_eq; [eapply reads_bind; [by apply reads_msg|apply reads_ret]|].
  by rewrite app_nil_r.
Qed.

Lemma create_message_from_layout now m rest :
  sendable m ->
  create_message_from mig_storage storage now (any_layout m ++ rest) = Ok (any_received now m).
Proof.
  intros Hm. destruct (any_layout_head m Hm) as [tl Htl].
  unfold create_message_from.
  rewrite (reads_COPY_VAL 0 rtype_wire (rtype (any_base m))) by
    (done || (rewrite Htl, ?length_app; lia) ||
     (unfold slice; rewrite Htl, <- app_assoc; apply take_app_length)).
  destruct m as [|k o]; [done|]. destruct Hm as [Hok Hk]. cbn [mbind res_bind any_base].
  assert (create_message mig_storage storage (rtype (base o))
          = Ok (Msg k (set_base (fresh_base (rtype (base o))) (storage k)))) as ->.
  { unfold create_message. rewrite Hk. by destruct (rtype (base o)). }
  cbn [mbind res_bind]. rewrite (reads_any now _ _ o Hok).
  - done.
  - rewrite length_app. cbn. lia.
  - unfold slice. apply take_app_length.
Qed.

(** The messages of a batch, the last first in the clock. *)
Fixpoint arrivals (clock : nat -> Z) (return_id : Z) (ms : list (AnyMessage Mig))
  : list (AnyMessage Mig) :=
  match ms with
  | [] => []
  | m :: ms' =>
      set_return_node_id return_id (any_received (clock (length ms)) m)
      :: arrivals clock return_id ms'
  end.

Lemma set_return_size n m :
  sendable m -> any_get_size (set_return_node_id n m) = any_get_size m.
Proof. destruct m as [|k o]; [done|]. intros _. by destruct k, o. Qed.

Lemma set_return_received_size n now m :
  sendable m -> any_get_size (set_return_node_id n (any_received now m)) = any_get_size m.
Proof.
  destruct m as [|k o]; [done|]. intros _. cbn [any_received].
  transitivity (get_size (received now (set_base (fresh_base (rtype (base o))) (storage k)) o)).
  - generalize (received now (set_base (fresh_base (rtype (base o))) (storage k)) o).
    intros o'. by destruct k, o'.
  - apply received_size.
Qed.

Lemma create_messages_loop_body clock return_id ms p l rest :
  Forall sendable ms -> drop p l = body ms ++ rest ->
  create_messages_loop mig_storage storage clock return_id l (length ms) p
  = Ok (arrivals clock return_id ms).
Proof.
  intros Hms. revert p. induction Hms as [|m ms Hm _ IH]; intros p Hl; [done|].
  cbn [length create_messages_loop arrivals body] in *.
  rewrite Hl, <- app_assoc, create_message_from_layout by done. cbn [mbind res_bind].
  rewrite set_return_received_size, <- any_layout_length by done.
  rewrite IH; [done|]. rewrite <- drop_drop, Hl, <- app_assoc. apply drop_app_length.
Qed.
End Receive.

(** ** The sending thread keeps queues *)

Lemma put_mid {A} (w : Wire A) (v : A) l1 l2 l3 off :
  off = length l1 -> length l2 = size_of w ->
  put w off v (l1 ++ l2 ++ l3) = Ok (l1 ++ encode w v ++ l3).
Proof.
  intros -> Hl. unfold put.
  rewrite (writes_COPY_BUF (length l1) w v) by (rewrite !length_app, encode_length; lia).
  cbn. unfold splice. rewrite take_app_length, encode_length, drop_app_add, <- Hl.
  by rewrite drop_app_length.
Qed.

Lemma lookup_buf_ok st d b : mt_buffer st !! d = Some b -> lookup_buf st d = Ok b.
Proof. unfold lookup_buf. by intros ->. Qed.

Section Queues.
Context {cfg : Config} {Mig : Type} {mig_class : MessageClass Mig}.

(** The node numbers, and the size of the buffers, fit their fields. *)
Definition config_ok : Prop :=
  0 <= g_node_id < g_total_node_cnt /\ g_total_node_cnt < 2 ^ 32 /\
  (20 <= g_msg_size)%nat /\ Z.of_nat g_msg_size < 2 ^ 32.

Definition header (d : nat) (raw : list Z) : list Z :=
  encode u32 (Z.of_nat d) ++ encode u32 g_node_id ++ raw.

(** A buffer for node [d] with the messages [ms]; [raw] are the places of the
    count and of the time, which are filled in when the batch is sent. *)
Definition mbuf_holds (d : nat) (b : mbuf) (ms : list (AnyMessage Mig)) : Prop :=
  Forall sendable ms /\ length (mb_buffer b) = g_msg_size /\
  mb_ptr b = (20 + length (body ms))%nat /\ mb_cnt b = Z.of_nat (length ms) /\
  exists raw rest, length raw = 12%nat /\ mb_buffer b = header d raw ++ body ms ++ rest.

(** The bytes of a batch. *)
Definition packet (d : nat) (ms : list (AnyMessage Mig)) (p : list Z) : Prop :=
  Forall sendable ms /\ Z.of_nat (length ms) < 2 ^ 32 /\
  exists t, p = header d (encode u32 (Z.of_nat (length ms)) ++ encode u64 t) ++ body ms.

Lemma header_length d raw : length raw = 12%nat -> length (header d raw) = 20%nat.
Proof. intros H. unfold header. rewrite !length_app, !encode_length. cbn. lia. Qed.

Lemma body_length (ms : list (AnyMessage Mig)) : Forall sendable ms -> (length ms <= length (body ms))%nat.
Proof.
  induction 1 as [|m ms Hm _ IH]; cbn [body length]; [done|].
  apply any_layout_pos in Hm. rewrite length_app. lia.
Qed.

Lemma mbuf_holds_bound d b ms :
  mbuf_holds d b ms -> (mb_ptr b <= g_msg_size)%nat /\ (length ms <= g_msg_size)%nat.
Proof.
  intros (Hms & Hl & Hp & _ & raw & rest & Hr & Hb).
  apply (f_equal length) in Hb. rewrite !length_app, header_length in Hb by done.
  apply body_length in Hms. lia.
Qed.

Lemma mbuf_reset_holds d b :
  (20 <= g_msg_size)%nat -> length (mb_buffer b) = g_msg_size ->
  exists b', mbuf_reset (Z.of_nat d) b = Ok b' /\ mbuf_holds d b' [].
Proof.
  intros Hg Hl. unfold mbuf_reset.
  rewrite <- (take_drop 20 (mb_buffer b)).
  rewrite <- (take_drop 8 (take 20 _)), take_take, <- (take_drop 4 (take _ (mb_buffer b))).
  set (l1 := take 4 _). set (l2 := drop 4 _). set (l3 := drop 8 _). set (l4 := drop 20 _).
  assert (length l1 = 4%nat /\ length l2 = 4%nat /\ length l3 = 12%nat) as (H1 & H2 & H3).
  { subst l1 l2 l3. rewrite !length_take, !length_drop, !length_take. lia. }
  assert (length l4 = (g_msg_size - 20)%nat) as H4 by (subst l4; rewrite length_drop; lia).
  clearbody l1 l2 l3 l4. rewrite <- !app_assoc.
  pose proof (put_mid u32 (Z.of_nat d) [] l1 (l2 ++ l3 ++ l4) 0 eq_refl H1) as E1.
  cbn [app] in E1. rewrite E1. cbn [mbind res_bind].
  rewrite (put_mid u32 g_node_id (encode u32 (Z.of_nat d)) l2) by
    (done || by rewrite encode_length).
  cbn [mbind res_bind].
  eexists. split; [reflexivity|]. split_and!; cbn -[encode]; [done| |done|done|].
  - rewrite !length_app, !encode_length. cbn. lia.
  - exists l3, l4. split; [done|]. unfold header. by rewrite <- !app_assoc.
Qed.

Lemma send_batch_holds now d st b ms :
  config_ok -> mt_buffer st !! d = Some b -> mbuf_holds d b ms ->
  exists b' p,
    send_batch now d st
    = Ok (mkMsgThread (<[d := b']> (mt_buffer st)) (mt_sent st ++ [(Z.of_nat d, p)])) /\
    packet d ms p /\ mbuf_holds d b' [].
Proof.
  intros (_ & _ & Hg & Hg32) Hd Hb. pose proof (mbuf_holds_bound _ _ _ Hb) as [_ Hcnt].
  destruct Hb as (Hms & Hl & Hp & Hc & raw & rest & Hr & Hbuf).
  unfold send_batch. rewrite (lookup_buf_ok _ _ _ Hd). cbn [mbind res_bind].
  rewrite Hbuf, Hc. unfold header. rewrite <- (take_drop 4 raw).
  set (r1 := take 4 raw). set (r2 := drop 4 raw).
  assert (length r1 = 4%nat /\ length r2 = 8%nat) as [H1 H2].
  { subst r1 r2. rewrite length_take, length_drop. lia. }
  clearbody r1 r2. rewrite <- !app_assoc, (app_assoc (encode u32 (Z.of_nat d))).
  rewrite (put_mid u32 _ _ r1) by (done || by rewrite length_app, !encode_length).
  unfold mbuf_set_send_time. cbn [mb_buffer mbind res_bind].
  rewrite (app_assoc _ (encode u32 (Z.of_nat (length ms)))).
  rewrite (put_mid u64 _ _ r2) by (done || by rewrite !length_app, !encode_length).
  cbn [mb_buffer mb_ptr mbind res_bind].
  match goal with |- context [mbuf_reset _ ?x] =>
    destruct (mbuf_reset_holds d x Hg) as (b' & Hb' & Hh) end.
  - cbn [mb_buffer]. rewrite <- Hl, Hbuf. unfold header.
    rewrite !length_app, !encode_length, Hr. cbn. lia.
  - rewrite Hb'. cbn [mbind res_bind]. unfold set_buf. cbn [mt_buffer mt_sent].
    do 2 eexists. split; [reflexivity|]. split; [|exact Hh].
    split; [done|]. split; [lia|]. exists now. rewrite Hp. unfold header.
    rewrite !app_assoc, take_app_length'; [by rewrite <- !app_assoc|].
    rewrite !length_app, !encode_length. cbn. lia.
Qed.

Lemma append_holds now start w d b ms m :
  config_ok -> mbuf_holds d b ms -> sendable m ->
  (mb_ptr b + any_get_size m <= g_msg_size)%nat ->
  exists mem, any_copy_to_buf now m (Mem (drop (mb_ptr b) (mb_buffer b)) 0)
              = Ok (any_sent now m, mem) /\
    mbuf_holds d
      (mkMbuf (take (mb_ptr b) (mb_buffer b) ++ buf mem) start
         (mb_ptr b + any_get_size (any_sent now m)) (wrap64 (mb_cnt b + 1)) w)
      (ms ++ [any_sent now m]).
Proof.
  intros (_ & _ & _ & Hg32) Hb Hm Hfit. pose proof (mbuf_holds_bound _ _ _ Hb) as [_ Hcnt].
  destruct Hb as (Hms & Hl & Hp & Hc & raw & rest & Hr & Hbuf).
  pose proof (any_sent_sendable now m Hm) as Hm'.
  pose proof (any_layout_length _ Hm') as Hlay. rewrite any_sent_size in Hlay |- *.
  assert (take (mb_ptr b) (mb_buffer b) = header d raw ++ body ms) as Htake.
  { rewrite Hp, Hbuf, app_assoc. apply take_app_length'.
    by rewrite length_app, header_length. }
  assert (drop (mb_ptr b) (mb_buffer b) = rest) as Hdrop.
  { rewrite Hp, Hbuf, app_assoc. apply drop_app_length'.
    by rewrite length_app, header_length. }
  apply (f_equal length) in Hbuf. rewrite !length_app, header_length in Hbuf by done.
  rewrite Hdrop, Htake. rewrite (writes_any now m Hm) by lia.
  eexists. split; [reflexivity|]. cbn [buf].
  unfold splice. rewrite take_0, Nat.add_0_l. cbn [app]. split_and!.
  - apply Forall_app. split; [done|]. by apply Forall_singleton.
  - cbn [mb_buffer]. rewrite !length_app, header_length, length_drop by done. lia.
  - cbn [mb_ptr]. rewrite body_app, length_app. cbn [body]. rewrite app_nil_r. lia.
  - cbn [mb_cnt]. rewrite Hc, length_app. cbn [length].
    rewrite wrap64_small; [lia|]. unfold UINT64_MAX. lia.
  - cbn [mb_buffer].
    exists raw, (drop (length (any_layout (any_sent now m))) rest). split; [done|].
    rewrite body_app. cbn [body]. rewrite app_nil_r. by rewrite !app_assoc.
Qed.

(** *** The invariant of the thread *)

Definition packets_to (d : nat) (st : MessageThread) : list (list Z) :=
  (filter (fun x => x.1 = Z.of_nat d) (mt_sent st)).*2.

Definition sent_as (m m' : AnyMessage Mig) : Prop := exists now, m' = any_sent now m.

(** The queue [q d] of messages for node [d] has gone into batches and the
    buffer. *)
Definition queue_inv (st : MessageThread) (d : nat) (q : list (AnyMessage Mig)) : Prop :=
  exists b batches pending,
    mt_buffer st !! d = Some b /\ mbuf_holds d b pending /\
    Forall2 (packet d) batches (packets_to d st) /\
    Forall2 sent_as q (mjoin batches ++ pending).
Definition thread_inv (q : nat -> list (AnyMessage Mig)) (st : MessageThread) : Prop :=
  length (mt_buffer st) = buffer_cnt /\
  forall d, (d < buffer_cnt)%nat -> queue_inv st d (q d).

Lemma packets_to_snoc d d' bs sent p :
  packets_to d (mkMsgThread bs (sent ++ [(Z.of_nat d', p)]))
  = packets_to d (mkMsgThread bs sent) ++ if decide (d' = d) then [p] else [].
Proof.
  unfold packets_to. cbn [mt_sent]. rewrite list.filter_app, fmap_app. f_equal.
  rewrite list.filter_cons. cbn [fst].
  destruct (decide (d' = d)) as [->|Hne]; [by rewrite decide_True by done|].
  rewrite decide_False by lia. done.
Qed.

Lemma mjoin_snoc {A} (ls : list (list A)) l : mjoin (ls ++ [l]) = mjoin ls ++ l.
Proof. rewrite join_app. cbn. by rewrite app_nil_r. Qed.

Lemma send_batch_inv now d q st :
  config_ok -> thread_inv q st -> (d < buffer_cnt)%nat ->
  exists st' b', send_batch now d st = Ok st' /\ thread_inv q st' /\
    mt_buffer st' !! d = Some b' /\ mbuf_holds d b' [].
Proof.
  intros Hg [Hlen Hq] Hd. destruct (Hq d Hd) as (b & bs & ms & Hb & Hh & Hp & Hs).
  destruct (send_batch_holds now d st b ms Hg Hb Hh) as (b' & p & E & Hpk & Hh').
  rewrite E. do 2 eexists. split; [reflexivity|]. cbn [mt_buffer].
  assert (<[d:=b']> (mt_buffer st) !! d = Some b') as Hd'
    by (apply list_lookup_insert_eq; lia).
  split; [|done]. split; [cbn; by rewrite length_insert|].
  intros d2 Hd2. destruct (decide (d = d2)) as [<-|Hne].
  - exists b', (bs ++ [ms]), []. split; [done|]. split; [done|].
    rewrite packets_to_snoc, decide_True by done. split.
    + apply Forall2_app; [done|]. by constructor.
    + by rewrite mjoin_snoc, app_nil_r.
  - destruct (Hq d2 Hd2) as (b2 & bs2 & ms2 & Hb2 & Hh2 & Hp2 & Hs2).
    exists b2, bs2, ms2. cbn [mt_buffer]. rewrite list_lookup_insert_ne by done.
    rewrite packets_to_snoc, decide_False, app_nil_r by done. done.
Qed.

Lemma check_and_send_inv t ds q st :
  config_ok -> thread_inv q st -> Forall (fun d => d < buffer_cnt)%nat ds ->
  exists st', check_and_send t ds st = Ok st' /\ thread_inv q st'.
Proof.
  intros Hg. revert st. induction ds as [|d ds IH]; intros st Hst Hds; cbn [check_and_send].
  { by exists st. }
  inversion Hds as [|?? Hd Hds']; subst. case_match; [by apply IH|].
  destruct (proj2 Hst d Hd) as (b & bs & ms & Hb & _). rewrite (lookup_buf_ok _ _ _ Hb).
  cbn [mbind res_bind]. case_match.
  - destruct (send_batch_inv (t_send t d) d q st Hg Hst Hd) as (st' & b' & -> & Hst' & _).
    by apply IH.
  - by apply IH.
Qed.

(** Appending to queue [d]. *)
Definition enqueue (d : nat) (m : AnyMessage Mig) (q : nat -> list (AnyMessage Mig))
  : nat -> list (AnyMessage Mig) :=
  fun d' => if decide (d' = d) then q d' ++ [m] else q d'.

Definition can_send (d : nat) (m : AnyMessage Mig) : Prop :=
  sendable m /\ (20 + any_get_size m <= g_msg_size)%nat /\
  Z.of_nat d < g_total_node_cnt /\ Z.of_nat d <> g_node_id.

Lemma run_enqueues t d m q st :
  config_ok -> thread_inv q st -> can_send d m ->
  exists st', MessageThread_run t d m st = check_and_send_batches t st' /\
    thread_inv (enqueue d m q) st'.
Proof.
  intros Hg Hst (Hm & Hsize & Hd & Hself).
  assert (d < buffer_cnt)%nat as Hd' by (unfold buffer_cnt; lia).
  unfold MessageThread_run. rewrite (proj2 (Z.ltb_lt _ _) Hd), (proj2 (Z.eqb_neq _ _) Hself).
  cbn [negb assert_ mbind res_bind].
  destruct (proj2 Hst d Hd') as (b0 & bs0 & ms0 & Hb0 & Hh0 & _).
  rewrite (lookup_buf_ok _ _ _ Hb0). cbn [mbind res_bind].
  (* sending the batch makes room *)
  assert (exists st1, (if negb (mbuf_fits (any_get_size m) b0)
            then send_batch (t_send t d) d st else Ok st) = Ok st1 /\ thread_inv q st1 /\
            forall b, mt_buffer st1 !! d = Some b -> (mb_ptr b + any_get_size m <= g_msg_size)%nat)
    as (st1 & -> & Hst1 & Hfit).
  { destruct (mbuf_fits _ _) eqn:Hf; cbn [negb].
    - exists st. unfold mbuf_fits in Hf. apply Nat.leb_le in Hf. split_and!; [done..|].
      intros b Hb. by simplify_eq.
    - destruct (send_batch_inv (t_send t d) d q st Hg Hst Hd') as (st1 & b1 & -> & H1 & H2 & H3).
      exists st1. destruct H3 as (_ & _ & Hp & _). cbn in Hp. split_and!; [done..|].
      intros b Hb. simplify_eq. lia. }
  cbn [mbind res_bind].
  destruct Hst1 as [Hlen Hq]. destruct (Hq d Hd') as (b & bs & ms & Hb & Hh & Hp & Hs).
  rewrite (lookup_buf_ok _ _ _ Hb). cbn [mbind res_bind].
  destruct (append_holds (t_copy t)
              (if mb_starttime b =? 0 then t_start t else mb_starttime b) (mb_wait b)
              d b ms m Hg Hh Hm (Hfit b Hb)) as (mem & -> & Hh').
  cbn [mbind res_bind]. eexists. split; [reflexivity|].
  split; [cbn; by rewrite length_insert|].
  intros d2 Hd2. unfold enqueue. destruct (decide (d2 = d)) as [->|Hne].
  - eexists _, bs, _. split; [by apply list_lookup_insert_eq; lia|]. split; [exact Hh'|].
    split; [done|]. rewrite app_assoc. apply Forall2_app; [done|].
    constructor; [by eexists|done].
  - destruct (Hq d2 Hd2) as (b2 & bs2 & ms2 & Hb2 & H2).
    exists b2, bs2, ms2. cbn [set_buf mt_buffer]. by rewrite list_lookup_insert_ne by done.
Qed.

Lemma run_inv t d m q st :
  config_ok -> thread_inv q st -> can_send d m ->
  exists st', MessageThread_run t d m st = Ok st' /\ thread_inv (enqueue d m q) st'.
Proof.
  intros Hg Hst Hm. destruct (run_enqueues t d m q st Hg Hst Hm) as (st1 & -> & Hst1).
  apply check_and_send_inv; [done..|]. rewrite (proj1 Hst1). apply Forall_seq. lia.
Qed.

(** *** Sequences of messages *)

Fixpoint queue_of (d : nat) (ops : list (Times * nat * AnyMessage Mig))
  : list (AnyMessage Mig) :=
  match ops with
  | [] => []
  | (_, d', m) :: ops' => if decide (d = d') then m :: queue_of d ops' else queue_of d ops'
  end.

Definition op_ok (op : Times * nat * AnyMessage Mig) : Prop := can_send op.1.2 op.2.

Lemma run_all_inv ops q st :
  config_ok -> thread_inv q st -> Forall op_ok ops ->
  exists st', run_all ops st = Ok st' /\ thread_inv (fun d => q d ++ queue_of d ops) st'.
Proof.
  intros Hg. revert q st. induction ops as [|[[t d] m] ops IH]; intros q st Hst Hops.
  { exists st. split; [done|]. destruct Hst as [Hlen Hq]. split; [done|].
    intros d Hd. cbn. rewrite app_nil_r. by apply Hq. }
  inversion Hops as [|?? Hop Hops']; subst. cbn [run_all].
  destruct (run_inv t d m q st Hg Hst Hop) as (st1 & -> & Hst1). cbn [mbind res_bind].
  destruct (IH _ _ Hst1 Hops') as (st2 & -> & Hlen & Hq). exists st2. split; [done|].
  split; [done|]. intros d2 Hd2. cbn [queue_of]. specialize (Hq d2 Hd2).
  unfold enqueue in Hq. case_decide as E; [|done].
  by rewrite <- app_assoc in Hq.
Qed.

Lemma init_bufs_ok alloc ds :
  (20 <= g_msg_size)%nat -> (forall d, length (alloc d) = g_msg_size) ->
  exists bs, init_bufs alloc ds = Ok bs /\ length bs = length ds /\
    forall i d, ds !! i = Some d -> exists b, bs !! i = Some b /\ mbuf_holds d b [].
Proof.
  intros Hg Halloc. induction ds as [|d ds (bs & IH & Hlen & Hbs)]; cbn [init_bufs].
  { by exists []. }
  destruct (mbuf_reset_holds d (mkMbuf (alloc d) 0 0 0 false) Hg (Halloc d)) as (b & -> & Hb).
  cbn [mbind res_bind]. rewrite IH. cbn [mbind res_bind]. exists (b :: bs).
  split; [done|]. split; [cbn; by rewrite Hlen|].
  intros [|i] d'; cbn; [intros [= <-]; by exists b|apply Hbs].
Qed.

Lemma init_inv alloc :
  config_ok -> (forall d, length (alloc d) = g_msg_size) ->
  exists st, MessageThread_init alloc = Ok st /\ thread_inv (fun _ => []) st.
Proof.
  intros (_ & _ & Hg & _) Halloc. unfold MessageThread_init.
  destruct (init_bufs_ok alloc (seq 0 buffer_cnt) Hg Halloc) as (bs & -> & Hlen & Hbs).
  cbn [mbind res_bind]. eexists. split; [done|].
  split; [cbn; by rewrite Hlen, length_seq|]. intros d Hd.
  destruct (Hbs d d) as (b & Hb & Hh); [by apply lookup_seq|].
  exists b, [], []. split_and!; [done|done|constructor|constructor].
Qed.

(** *** With a time limit of zero every batch leaves at once *)

Definition quiet (st : MessageThread) : Prop :=
  forall d b, Z.of_nat d <> g_node_id -> mt_buffer st !! d = Some b -> mb_cnt b = 0.

Lemma send_batch_quiet now d st st' :
  send_batch now d st = Ok st' ->
  exists b, mt_buffer st' = <[d := b]> (mt_buffer st) /\ mb_cnt b = 0.
Proof.
  unfold send_batch, mbuf_set_send_time, mbuf_reset. intros H. res_inv. subst. by eexists.
Qed.

Lemma ready_false now b : 0 <= mb_cnt b -> g_msg_time_limit = 0 -> mbuf_ready now b = false -> mb_cnt b = 0.
Proof.
  unfold mbuf_ready. intros Hc Hl. rewrite Hl. case_match eqn:E; [by apply Z.eqb_eq in E|].
  intros H%Z.leb_gt. pose proof (wrap64_range (now - mb_starttime b)). lia.
Qed.

Lemma check_and_send_quiet t ds st st' :
  g_msg_time_limit = 0 -> check_and_send t ds st = Ok st' ->
  (forall d b, Z.of_nat d <> g_node_id -> mt_buffer st !! d = Some b ->
     0 <= mb_cnt b /\ (d ∈ ds \/ mb_cnt b = 0)) ->
  quiet st'.
Proof.
  intros Hl. revert st. induction ds as [|d ds IH]; intros st; cbn [check_and_send].
  { intros [= <-] H d b Hd Hb. destruct (H d b Hd Hb) as [_ [?%elem_of_nil|?]]; done. }
  case_match eqn:Hself.
  { apply Z.eqb_eq in Hself. intros E H. apply (IH st E). intros d2 b Hd2 Hb.
    destruct (H d2 b Hd2 Hb) as [? [[->|?]%elem_of_cons|?]]; [lia|auto|auto]. }
  intros E H. destruct (lookup_buf st d) as [b|] eqn:Eb; [|done]. cbn in E.
  unfold lookup_buf in Eb. destruct (mt_buffer st !! d) as [b'|] eqn:Hb; [|done].
  injection Eb as ->. apply Z.eqb_neq in Hself.
  destruct (mbuf_ready (t_ready t d) b) eqn:Hr.
  - destruct (send_batch _ d st) as [st1|] eqn:Es; [|done]. cbn in E.
    apply send_batch_quiet in Es as (b1 & Hb1 & Hc1).
    apply (IH st1 E). intros d2 b2 Hd2. rewrite Hb1.
    destruct (decide (d = d2)) as [<-|Hne].
    + rewrite list_lookup_insert_eq by by eapply lookup_lt_Some.
      intros [= <-]. rewrite Hc1. auto with lia.
    + rewrite list_lookup_insert_ne by done. intros Hb2.
      destruct (H d2 b2 Hd2 Hb2) as [? [[->|?]%elem_of_cons|?]]; [done|auto|auto].
  - cbn in E. apply (IH st E). intros d2 b2 Hd2 Hb2.
    destruct (H d2 b2 Hd2 Hb2) as [? [[->|?]%elem_of_cons|?]]; [|auto|auto].
    split; [done|]. right. simplify_eq. by eapply ready_false.
Qed.

Lemma run_quiet t d m q st st' :
  g_msg_time_limit = 0 -> config_ok -> thread_inv q st -> can_send d m ->
  MessageThread_run t d m st = Ok st' -> quiet st'.
Proof.
  intros Hl Hg Hst Hm. destruct (run_enqueues t d m q st Hg Hst Hm) as (st1 & -> & Hlen & Hq).
  intros E. apply (check_and_send_quiet _ _ _ _ Hl E). intros d2 b _ Hb.
  pose proof (lookup_lt_Some _ _ _ Hb) as Hd2.
  destruct (Hq d2 ltac:(lia)) as (b' & _ & ms & Hb' & (_ & _ & _ & Hc & _) & _).
  simplify_eq. split; [lia|]. left. apply elem_of_seq. lia.
Qed.

Lemma run_all_quiet ops q st st' :
  g_msg_time_limit = 0 -> config_ok -> thread_inv q st -> Forall op_ok ops -> quiet st ->
  run_all ops st = Ok st' -> quiet st'.
Proof.
  intros Hl Hg. revert q st. induction ops as [|[[t d] m] ops IH]; intros q st Hst Hops Hqu.
  { by intros [= <-]. }
  inversion Hops as [|?? Hop Hops']; subst. cbn [run_all].
  destruct (run_inv t d m q st Hg Hst Hop) as (st1 & E1 & Hst1). rewrite E1.
  cbn [mbind res_bind]. apply (IH _ _ Hst1 Hops').
  exact (run_quiet t d m q st st1 Hl Hg Hst Hop E1).
Qed.

Lemma init_quiet alloc st : MessageThread_init alloc = Ok st -> quiet st.
Proof.
  unfold MessageThread_init. intros H. res_inv. subst. intros d b _ Hb. cbn in Hb.
  clear -Heqr Hb. revert d a Hb Heqr.
  generalize (seq 0 buffer_cnt). intros ds d. revert d.
  induction ds as [|d0 ds IH]; intros d bs Hb H; cbn in H; [by simplify_eq|].
  unfold mbuf_reset in H. res_inv. subst. destruct d as [|d]; cbn in Hb; [by injection Hb as <-|by eapply IH].
Qed.

End Queues.

(** ** Delivery *)

Section Delivery.
Context {cfg : Config} {Mig : Type} {mig_class : MessageClass Mig}.
Context (storage : forall k, Obj k) (mig_storage : Mig) (d : nat).
#[local] Abbreviation receiver := (at_node (Z.of_nat d) cfg).
Context {mig_class' : @MessageClass receiver Mig}.

(** What node [d] makes of a message that was sent at [t1] and read at [t2]:
    the members that travel are those of the message; the sender is noted as
    the node to reply to. *)
Definition arrives (m m' : AnyMessage Mig) : Prop :=
  exists t1 t2,
    m' = set_return_node_id (cfg := receiver) g_node_id
           (any_received (cfg := receiver) storage t2 (any_sent t1 m)).

Lemma sendable_at_node (m : AnyMessage Mig) :
  sendable m -> sendable (cfg := receiver) m.
Proof.
  destruct m as [|k o]; [done|]. unfold sendable. intros [H1 H2].
  split; [exact (proj2 (at_node_ok _ k o) H1)|].
  by rewrite at_node_base, at_node_kind_of.
Qed.

Lemma body_at_node (ms : list (AnyMessage Mig)) :
  body (cfg := receiver) ms = body ms.
Proof.
  induction ms as [|m ms IH]; cbn; [done|]. rewrite IH. f_equal.
  destruct m; [done|]. apply at_node_layout.
Qed.

Lemma read_header_ok (rest : list Z) cnt t :
  config_ok -> Z.of_nat d < g_total_node_cnt -> 0 <= cnt < 2 ^ 32 -> is_u64 t ->
  read_header (Mem (header d (encode u32 cnt ++ encode u64 t) ++ rest) 0)
  = Ok ((Z.of_nat d, g_node_id, cnt), Mem (header d (encode u32 cnt ++ encode u64 t) ++ rest) 20).
Proof.
  intros (Hid & Ht & _) Hd Hc Hu.
  assert (reads 0 read_header (header d (encode u32 cnt ++ encode u64 t))
            (Z.of_nat d, g_node_id, cnt)) as H.
  { unfold read_header, header. eapply reads_eq.
    - repeat wire_step; try (apply wire_ok_u64; done);
        cbn [wire_ok u32 uint]; change (256 ^ Z.of_nat 4) with (2 ^ 32); lia.
    - by wire_app. }
  rewrite H.
  - by rewrite header_length.
  - rewrite length_app. lia.
  - unfold slice. apply take_app_length.
Qed.

Lemma sender_is_known :
  config_ok -> ISCLIENTN g_node_id || ISSERVERN g_node_id || ISREPLICAN g_node_id = true.
Proof.
  intros ([H0 H] & _). unfold g_total_node_cnt in H.
  unfold ISCLIENTN, ISSERVERN, ISREPLICAN.
  destruct (Z.ltb_spec g_node_id g_node_cnt); [by rewrite orb_true_r|].
  destruct (Z.ltb_spec g_node_id (g_node_cnt + g_client_node_cnt)).
  - by rewrite (proj2 (Z.leb_le _ _)) by lia.
  - rewrite (proj2 (Z.leb_le (g_node_cnt + _) _)) by lia.
    rewrite (proj2 (Z.ltb_lt g_node_id (_ + _ + _))) by lia. by rewrite orb_true_r.
Qed.

(** The receiver reads the messages of a batch, in order. *)
Lemma decode_packet clock ms p :
  config_ok -> Z.of_nat d < g_total_node_cnt -> Z.of_nat d <> g_node_id ->
  packet d ms p ->
  create_messages (cfg := receiver) mig_storage storage clock p
  = Ok (arrivals (cfg := receiver) storage clock g_node_id ms).
Proof.
  intros Hg Hd Hne (Hms & Hlen & t & ->). unfold create_messages.
  change (encode u64 t) with (le_bytes 8 t). rewrite <- (le_bytes_mod 8 t).
  set (t' := t mod _). change (le_bytes 8 t') with (encode u64 t').
  assert (is_u64 t') as Hu by (apply wire_ok_u64, Z.mod_pos_bound; reflexivity).
  pose proof (read_header_ok (body ms) (Z.of_nat (length ms)) t' Hg Hd ltac:(lia) Hu) as E.
  rewrite E. cbn [mbind res_bind ptr].
  change (@g_node_id receiver) with (Z.of_nat d).
  rewrite Z.eqb_refl, (proj2 (Z.eqb_neq g_node_id (Z.of_nat d))) by lia.
  pose proof (sender_is_known Hg) as Hk.
  change (ISCLIENTN g_node_id || ISSERVERN g_node_id || ISREPLICAN g_node_id)
    with (@ISCLIENTN receiver g_node_id || @ISSERVERN receiver g_node_id
          || @ISREPLICAN receiver g_node_id) in Hk.
  cbn [assert_ negb mbind res_bind]. rewrite Hk. cbn [assert_ mbind res_bind].
  rewrite Nat2Z.id.
  apply (create_messages_loop_body (cfg := receiver) _ _ _ _ _ _ _ []).
  - eapply Forall_impl; [|exact Hms]. intros m. apply sendable_at_node.
  - rewrite app_nil_r, body_at_node. apply drop_app_length'. by rewrite header_length.
Qed.

Lemma arrivals_arrive clock q ms :
  Forall2 sent_as q ms ->
  Forall2 arrives q (arrivals (cfg := receiver) storage clock g_node_id ms).
Proof.
  induction 1 as [|m m' q ms [t1 ->] _ IH]; cbn [arrivals]; [constructor|].
  constructor; [by do 2 eexists|done].
Qed.

Lemma decode_packets clock q batches ps :
  config_ok -> Z.of_nat d < g_total_node_cnt -> Z.of_nat d <> g_node_id ->
  Forall2 (packet d) batches ps -> Forall2 sent_as q (mjoin batches) ->
  exists arrived,
    Forall2 (fun p ms => create_messages (cfg := receiver) mig_storage storage clock p = Ok ms)
      ps arrived /\
    Forall2 arrives q (mjoin arrived).
Proof.
  intros Hg Hd Hne Hps. revert q. induction Hps as [|ms p batches ps Hp _ IH]; intros q Hq.
  { exists []. split; [constructor|]. inversion Hq. constructor. }
  change (mjoin (ms :: batches)) with (ms ++ mjoin batches) in Hq.
  apply Forall2_app_inv_r in Hq as (q1 & q2 & H1 & H2 & ->).
  destruct (IH q2 H2) as (arrived & Ha & Hq2).
  exists (arrivals (cfg := receiver) storage clock g_node_id ms :: arrived).
  split; [constructor; [by apply decode_packet|done]|].
  change (mjoin (?x :: arrived)) with (x ++ mjoin arrived).
  apply Forall2_app; [by apply arrivals_arrive|done].
Qed.
End Delivery.

(** ** The properties *)



(** A log message cannot be sent: [LogMessage::get_size] leaves out the
    record that [copy_to_buf] writes, and the assertion at the end of
    [copy_to_buf] fails, for every message and buffer. *)
Theorem log_message_unsendable {cfg : Config} (now : Z) (m : LogMessage) (l : list Z) :
  copy_to_buf now m (Mem l 0) = AssertFail.
Proof.
  cbn [copy_to_buf LogMessage_class]. unfold LogMessage_copy_to_buf.
  unfold mbind, Copy_bind.
  destruct (mcopy_to_buf now (log_msg m) _) as [[b [l1 p1]]|]; [|done].
  unfold set_ptr, COPY_BUF, assert_ptr. cbn [buf ptr].
  destruct (_ <=? length l1)%nat; [|done]. cbn [buf ptr].
  destruct (Nat.eqb_spec (mget_size + size_of log_record_wire) (LogMessage_get_size m))
    as [E|]; [|done].
  unfold LogMessage_get_size in E. cbn in E. lia.
Qed.

(** *** Witnesses *)

Definition blank_base : Message := mkMessage INIT_DONE 0 0 0 0 0 0 0 0 0 0 0 0 0.
Definition blank_query : QueryMessage := mkQuery blank_base 0 0 0 0.
Definition blank_client : ClientQueryMessage := mkClientQuery blank_base 0 0 0 0 0 0 new.
(** Zeroed storage. *)
Definition blank (k : MsgKind) : Obj k :=
  match k with
  | KInitDone => mkInitDone blank_base
  | KFinish => mkFinish blank_base 0 RCOK false 0
  | KLog => mkLog blank_base (mkLogRecord 0 0 0 0 0 0 0 0 0 0 [])
  | KLogRsp => mkLogRsp blank_base
  | KLogFlushed => mkLogFlushed blank_base
  | KQueryResponse => mkQueryResponse blank_base RCOK 0 0
  | KAck => mkAck blank_base RCOK 0 0 0 new
  | KPrepare => mkPrepare blank_base 0 0 RCOK 0
  | KForward => mkForward blank_base RCOK 0
  | KDone => mkDone blank_base 0
  | KClientResponse => mkClientResponse blank_base 0 RCOK
  | KSync => mkSync blank_base 0 0
  | KAckSync => mkAckSync blank_base 0 0
  | KYCSBQuery => mkYCSBQuery blank_query new
  | KTPCCQuery => mkTPCCQuery blank_query 0 0 0 0 0 0 0 0 [] 0 false new false false 0 0
  | KPPSQuery => mkPPSQuery blank_query 0 0 0 0 0 new
  | KDAQuery => mkDAQuery blank_query DA_READ 0 0 0 0 0 0 0
  | KYCSBClientQuery => mkYCSBClientQuery blank_client new
  | KTPCCClientQuery =>
      mkTPCCClientQuery blank_client 0 0 0 0 0 0 0 [] 0 false new false false 0 0
  | KPPSClientQuery => mkPPSClientQuery blank_client 0 0 0 0 new false
  | KDAClientQuery => mkDAClientQuery blank_client DA_READ 0 0 0 0 0 0 0
  end.

(** YCSB under SSI, two servers and one client, small buffers. *)
Definition example_cfg : Config :=
  @Build_Config CC_SSI WL_YCSB 0 2 1 0 100 10 300 0 (fun _ => 0).
Definition example_base (rt : RemReqType) : Message :=
  mkMessage rt 4 0 0 0 7 0 0 0 0 0 0 0 0.
Definition example_request : ycsb_request := mkRequest WR 0 42 9 [0; 0; 0; 0; 0; 0; 0].
Definition example_query : YCSBQueryMessage :=
  mkYCSBQuery (mkQuery (example_base RQRY) 0 0 0 33) (mkArray [example_request] 10).
Definition example_ops : list (Times * nat * AnyMessage InitDoneMessage) :=
  let t := mkTimes 5 5 (fun _ => 6) (fun _ => 7) in
  [(t, 1%nat, Msg KYCSBQuery example_query);
   (t, 2%nat, Msg KClientResponse (mkClientResponse (example_base CL_RSP) 3 RCOK));
   (t, 1%nat, Msg KFinish (mkFinish (example_base RFIN) 0 Commit false 34))].

Ltac check_msg_ok :=
  repeat match goal with
  | |- _ /\ _ => split
  | |- Forall _ _ => constructor
  | |- True => exact I
  | |- is_u64 _ => unfold is_u64, UINT64_MAX; cbn; lia
  | |- _ <= UINT64_MAX => by vm_compute
  | |- wire_ok _ _ => cbn
  | |- byte_ok _ => unfold byte_ok; lia
  | |- _ => first [reflexivity | cbn; lia]
  end.


Lemma example_ops_ok : Forall (op_ok (cfg := example_cfg)) example_ops.
Proof.
  repeat constructor; cbn; unfold QueryMessage_ok, message_ok, items_ok;
    try check_msg_ok; try (vm_compute; lia).
Qed.


(** The thread does not check that a message fits an empty buffer: one that is
    larger than the space behind the header runs over its end. *)
Lemma oversized_message_overruns :
  (st ← MessageThread_init (cfg := example_cfg) (fun _ => replicate 300 255);
   MessageThread_run (cfg := example_cfg) (Mig := InitDoneMessage)
     (mkTimes 5 5 (fun _ => 6) (fun _ => 7)) 1
     (Msg KYCSBQuery (mkYCSBQuery (mkQuery (example_base RQRY) 0 0 0 33)
                        (mkArray (replicate 9 example_request) 10))) st)
  = AssertFail.
Proof. vm_compute. reflexivity. Qed.
