(* ===== verification/RowData.v ===== *)
(** * RowData: catalogs, tables and the data of rows

    Model of storage/catalog.cpp, of [table_t::get_new_row] (storage/table.cpp)
    and of the data of [row_t] (storage/row.cpp, row.h): the columns of a
    table and their places in a tuple, typed reads and writes of a column, and
    copies of tuples, with SIM_FULL_ROW on as in config.h.  A tuple is a list
    of bytes.  Reading or writing outside of an object is a failure; what
    [memcpy] finds behind a variable that is smaller than the column is an
    argument, as is the content of fresh memory.  Schema pointers are compared
    by the number that [Workload::init_schema] gives to each table. *)

From stdpp Require Import base tactics numbers list strings.
From Stdlib Require Import ZArith Lia.
From S2P Require Import Prelude Wire.
#[local] Open Scope Z_scope.

(** ** Catalog *)

Record Column := mkColumn {
  col_id : Z;
  col_size : Z;
  col_index : Z;
  col_type : string;
  col_name : string;
}.

(** [columns] are the first [field_cnt] elements of [_columns], an array of
    [capacity] elements. *)
Record Catalog := mkCatalog {
  table_name : string;
  table_id : Z;
  capacity : nat;
  columns : list Column;
  tuple_size : Z;
}.

Definition Catalog_init (name : string) (id : Z) (cnt : nat) : Catalog := mkCatalog name id cnt [] 0.

(** Names and types go to buffers of 80 characters; sizes are [UInt32]. *)
Definition fits80 (s : string) : bool := (String.length s <? 80)%nat.

Definition add_col (name : string) (size : Z) (type : string) (c : Catalog) : res Catalog :=
  assert! ((length (columns c) <? capacity c)%nat && fits80 name && fits80 type);
  Ok (mkCatalog (table_name c) (table_id c) (capacity c)
        (columns c ++ [mkColumn (Z.of_nat (length (columns c))) (wrap32 size) (tuple_size c) type name])
        (wrap32 (tuple_size c + wrap64 size))).

Fixpoint add_cols (cols : list (string * Z * string)) (c : Catalog) : res Catalog :=
  match cols with
  | [] => Ok c
  | (name, size, type) :: cols' => c' ← add_col name size type c; add_cols cols' c'
  end.

Definition field (c : Catalog) (id : nat) : res Column :=
  match columns c !! id with Some x => Ok x | None => AssertFail end.
Definition get_field_size (c : Catalog) (id : nat) : res Z := x ← field c id; mret (col_size x).
Definition get_field_index (c : Catalog) (id : nat) : res Z := x ← field c id; mret (col_index x).

(** The loop of [get_field_id], which stops at the first column of the name. *)
Fixpoint find_name (name : string) (cols : list Column) : nat :=
  match cols with
  | [] => 0
  | x :: cols' => if String.eqb name (col_name x) then 0%nat else S (find_name name cols')
  end.
Definition get_field_id (c : Catalog) (name : string) : res nat :=
  let i := find_name name (columns c) in
  assert! ((i <? length (columns c))%nat); Ok i.

(** ** Rows *)

Record row_t := mkRow {
  table : Catalog;
  part_id : Z;
  primary_key : Z;
  row_id : Z;
  data : list Z;
}.
Definition set_data_bytes (d : list Z) (r : row_t) : row_t :=
  mkRow (table r) (part_id r) (primary_key r) (row_id r) d.

(** What fresh memory holds. *)
Section Rows.
Context (junk : nat -> Z).

(** [row_t::init]; [get_new_row] of a table allocates a row and initialises it. *)
Definition row_init (c : Catalog) (part row : Z) : row_t :=
  mkRow c part 0 row (junk <$> seq 0 (Z.to_nat (tuple_size c))).
Definition get_new_row (c : Catalog) (part row : Z) : row_t := row_init c part row.
End Rows.

Definition switch_schema (c : Catalog) (r : row_t) : row_t :=
  mkRow c (part_id r) (primary_key r) (row_id r) (data r).
Definition set_primary_key (key : Z) (r : row_t) : row_t :=
  mkRow (table r) (part_id r) key (row_id r) (data r).

(** [memcpy(&data[pos], src, n)]. *)
Definition memcpy (d : list Z) (pos n : Z) (src : list Z) : res (list Z) :=
  assert! ((Z.to_nat n <=? length src)%nat && (Z.to_nat pos + Z.to_nat n <=? length d)%nat);
  Ok (splice d (Z.to_nat pos) (take (Z.to_nat n) src)).

(** [set_value(int id, void * ptr)], with the bytes from [ptr] on. *)
Definition set_value (id : nat) (src : list Z) (r : row_t) : res row_t :=
  size ← get_field_size (table r) id;
  pos ← get_field_index (table r) id;
  d ← memcpy (data r) pos size src;
  mret (set_data_bytes d r).

Definition set_value_size (id : nat) (src : list Z) (size : Z) (r : row_t) : res row_t :=
  pos ← get_field_index (table r) id;
  d ← memcpy (data r) pos size src;
  mret (set_data_bytes d r).

Definition set_value_named (name : string) (src : list Z) (r : row_t) : res row_t :=
  id ← get_field_id (table r) name; set_value id src r.

(** The overloads for values: [SET_VALUE] takes the address of its parameter,
    which has 8 bytes for [uint64_t], [int64_t] and [double] and 4 for
    [UInt32] and [SInt32]; [behind] is what follows it in memory. *)
Definition set_value_u64 (id : nat) (v : Z) (r : row_t) : res row_t := set_value id (le_bytes 8 v) r.
Definition set_value_u32 (id : nat) (v : Z) (behind : list Z) (r : row_t) : res row_t :=
  set_value id (le_bytes 4 v ++ behind) r.

(** [GET_VALUE(type)] reads the size of the type at the place of the column. *)
Definition read_at (n : nat) (id : nat) (r : row_t) : res Z :=
  pos ← get_field_index (table r) id;
  assert! ((Z.to_nat pos + n <=? length (data r))%nat);
  Ok (le_value (slice (data r) (Z.to_nat pos) n)).
Definition get_value_u64 : nat -> row_t -> res Z := read_at 8.
Definition get_value_u32 : nat -> row_t -> res Z := read_at 4.

(** [set_data], and [copy] from another row. *)
Definition set_data (src : list Z) (r : row_t) : res row_t :=
  d ← memcpy (data r) 0 (tuple_size (table r)) src; mret (set_data_bytes d r).
Definition copy_row (src r : row_t) : res row_t :=
  assert! (table_id (table src) =? table_id (table r));
  set_data (data src) r.

(** [free_row] gives the data back with a size: it tests [SIM_FULL], which
    nothing defines, so the size is that of one word. *)
Definition free_row (r : row_t) : Z := 8.

(** ** Layout *)

(** Every column lies behind those before it and within the tuple. *)
Record catalog_wf (c : Catalog) : Prop := {
  wf_order i j x y : (i < j)%nat -> columns c !! i = Some x -> columns c !! j = Some y ->
    col_index x + col_size x <= col_index y;
  wf_inside i x : columns c !! i = Some x ->
    0 <= col_index x /\ 0 <= col_size x /\ col_index x + col_size x <= tuple_size c;
  wf_size : 0 <= tuple_size c;
}.

Lemma catalog_wf_init name id cnt : catalog_wf (Catalog_init name id cnt).
Proof. by split. Qed.

Lemma catalog_wf_add_col name size type c c' :
  catalog_wf c -> 0 <= size -> tuple_size c + size < 2 ^ 32 ->
  add_col name size type c = Ok c' ->
  catalog_wf c' /\ tuple_size c' = tuple_size c + size.
Proof.
  intros [Ho Hi Hs] Hsize Hfit H. unfold add_col in H. res_inv. subst c'.
  assert (wrap32 size = size) as -> by (apply wrap32_small; lia).
  assert (wrap64 size = size) as -> by (apply wrap64_small; unfold UINT64_MAX; lia).
  rewrite wrap32_small by lia.
  split; [|done]. split; cbn.
  - intros i j x y Hij Hx Hy. apply lookup_app_Some in Hy as [Hy|[Hl Hy]].
    + rewrite lookup_app_l in Hx by (apply lookup_lt_Some in Hy; lia). eauto.
    + apply list_lookup_singleton_Some in Hy as [Hj <-].
      rewrite lookup_app_l in Hx by lia. cbn. apply Hi in Hx; lia.
  - intros i x Hx. apply lookup_app_Some in Hx as [Hx|[_ Hx]].
    + apply Hi in Hx. lia.
    + apply list_lookup_singleton_Some in Hx as [_ <-]. cbn. lia.
  - lia.
Qed.

(** ** Fields of a row *)

(** A row as [init] makes it, and as all writes leave it. *)
Record row_wf (r : row_t) : Prop := {
  row_catalog : catalog_wf (table r);
  row_length : Z.of_nat (length (data r)) = tuple_size (table r);
}.

Lemma row_init_wf junk c part row : catalog_wf c -> row_wf (row_init junk c part row).
Proof.
  intros [Ho Hi Hs]. split; [done|]. cbn. rewrite length_fmap, length_seq. lia.
Qed.

Lemma slice_splice_other l p bs q n :
  (p + length bs <= length l)%nat -> (q + n <= p \/ p + length bs <= q)%nat ->
  slice (splice l p bs) q n = slice l q n.
Proof.
  intros Hp Hq. unfold slice, splice. destruct Hq as [Hq|Hq].
  - rewrite drop_app_le by (rewrite length_take; lia).
    rewrite take_app_le by (rewrite length_drop, length_take; lia).
    rewrite <- (take_drop p l) at 2. rewrite drop_app_le by (rewrite length_take; lia).
    by rewrite take_app_le by (rewrite length_drop, length_take; lia).
  - f_equal. rewrite drop_app_ge, length_take by (rewrite length_take; lia).
    rewrite drop_app_ge, drop_drop by lia. f_equal. lia.
Qed.

Lemma memcpy_ok d pos n src :
  (Z.to_nat n <= length src)%nat -> (Z.to_nat pos + Z.to_nat n <= length d)%nat ->
  memcpy d pos n src = Ok (splice d (Z.to_nat pos) (take (Z.to_nat n) src)).
Proof.
  intros H1 H2. unfold memcpy.
  by rewrite (proj2 (Nat.leb_le _ _) H1), (proj2 (Nat.leb_le _ _) H2).
Qed.

(** Whatever is written, a row keeps its table and its length. *)
Lemma set_value_shape id src r r' :
  set_value id src r = Ok r' -> exists d, r' = set_data_bytes d r /\ length d = length (data r).
Proof.
  unfold set_value, memcpy. intros Hw. res_inv. subst. eexists. split; [done|].
  repeat match goal with H : (_ && _)%bool = true |- _ => apply andb_true_iff in H as [? ?] end.
  repeat match goal with H : (_ <=? _)%nat = true |- _ => apply Nat.leb_le in H end.
  apply splice_length. rewrite length_take. lia.
Qed.

Section Field.
Context (r : row_t) (Hr : row_wf r).

Lemma field_inside id x :
  columns (table r) !! id = Some x ->
  0 <= col_index x /\ 0 <= col_size x /\
  (Z.to_nat (col_index x) + Z.to_nat (col_size x) <= length (data r))%nat.
Proof.
  intros Hx. destruct Hr as [[Ho Hi Hs] Hl]. apply Hi in Hx. lia.
Qed.

Lemma field_disjoint id id' x y :
  columns (table r) !! id = Some x -> columns (table r) !! id' = Some y -> id <> id' ->
  col_index x + col_size x <= col_index y \/ col_index y + col_size y <= col_index x.
Proof.
  intros Hx Hy Hne. destruct Hr as [[Ho _ _] _].
  destruct (decide (id < id')%nat); [left|right; assert (id' < id)%nat by lia]; eauto.
Qed.

Lemma read_at_ok n id x :
  columns (table r) !! id = Some x -> Z.of_nat n <= col_size x ->
  read_at n id r = Ok (le_value (slice (data r) (Z.to_nat (col_index x)) n)).
Proof.
  intros Hx Hn. apply field_inside in Hx as Hi. unfold read_at, get_field_index, field. rewrite Hx. cbn.
  replace (_ <=? _)%nat with true by (symmetry; apply Nat.leb_le; lia). done.
Qed.

(** A write of a column's full size. *)
Lemma set_value_ok id x src :
  columns (table r) !! id = Some x -> (Z.to_nat (col_size x) <= length src)%nat ->
  exists r', set_value id src r = Ok r' /\ row_wf r' /\
    r' = set_data_bytes (splice (data r) (Z.to_nat (col_index x)) (take (Z.to_nat (col_size x)) src)) r /\
    (forall id' y n, columns (table r) !! id' = Some y -> id' <> id -> Z.of_nat n <= col_size y ->
       read_at n id' r' = read_at n id' r).
Proof.
  intros Hx Hsrc. destruct (field_inside id x Hx) as (? & ? & ?).
  set (r' := set_data_bytes (splice (data r) (Z.to_nat (col_index x)) (take (Z.to_nat (col_size x)) src)) r).
  assert (length (take (Z.to_nat (col_size x)) src) = Z.to_nat (col_size x)) as El by (rewrite length_take; lia).
  assert (row_wf r') as Hr'.
  { destruct Hr as [Hc Hl]. split; [done|]. cbn. by rewrite splice_length by lia. }
  exists r'. split_and!; [|done..|].
  - unfold set_value, get_field_size, get_field_index, field. rewrite Hx. cbn.
    by rewrite memcpy_ok by lia.
  - intros id' y n Hy Hne Hn. destruct (field_inside id' y Hy) as (? & ? & ?).
    destruct (field_disjoint id id' x y) as [Hd|Hd]; [done..| |];
      unfold read_at, get_field_index, field; cbn; rewrite Hy; cbn;
      rewrite splice_length by lia; rewrite slice_splice_other by lia; done.
Qed.
End Field.

(** Columns are independent variables: on a row of a well-formed catalog,
    writing an 8-byte value into an 8-byte column succeeds, leaves a row of the
    same table and length, reading the column gives the value back, and
    reading any other column, at any width up to its size, gives what it gave
    before. *)
Theorem row_set_get (r : row_t) (id : nat) (x : Column) (v : Z)
    (Hr : row_wf r) (Hx : columns (table r) !! id = Some x) (Hsize : col_size x = 8) (Hv : is_u64 v) :
  exists r', set_value_u64 id v r = Ok r' /\ row_wf r' /\ table r' = table r /\
    get_value_u64 id r' = Ok v /\
    (forall id' y n, columns (table r) !! id' = Some y -> id' <> id -> Z.of_nat n <= col_size y ->
       read_at n id' r' = read_at n id' r).
Proof.
  destruct (set_value_ok r Hr id x (le_bytes 8 v) Hx) as (r' & E & Hr' & Er' & Ho).
  { rewrite Hsize, le_bytes_length. cbn. lia. }
  exists r'. split_and!; [done..|by rewrite Er'| |done].
  assert (columns (table r') !! id = Some x) as Hx' by by rewrite Er'.
  unfold get_value_u64. rewrite (read_at_ok r' Hr' 8 id x Hx') by lia.
  subst r'. cbn [data set_data_bytes]. rewrite Hsize.
  replace (take (Z.to_nat 8) (le_bytes 8 v)) with (le_bytes 8 v)
    by (symmetry; apply take_ge; by rewrite le_bytes_length).
  destruct (field_inside r Hr id x Hx) as (? & ? & Hin).
  replace 8%nat with (length (le_bytes 8 v)) by by rewrite le_bytes_length.
  rewrite slice_splice by (rewrite le_bytes_length; lia).
  f_equal. apply le_value_bytes. by apply wire_ok_u64 in Hv.
Qed.

(** Copying a row of the same table makes the tuples equal. *)
Lemma copy_row_ok src r :
  row_wf src -> row_wf r -> table src = table r ->
  copy_row src r = Ok (set_data_bytes (data src) r).
Proof.
  intros [_ Hs] [_ Hl] Et. rewrite Et in Hs.
  assert (length (data src) = Z.to_nat (tuple_size (table r))) as H1 by lia.
  assert (length (data r) = Z.to_nat (tuple_size (table r))) as H2 by lia.
  unfold copy_row, set_data. rewrite Et, Z.eqb_refl. cbn.
  rewrite memcpy_ok by (rewrite ?H1, ?H2; cbn; lia). cbn [mbind res_bind mret res_ret].
  do 2 f_equal. unfold splice. rewrite Z2Nat.inj_0, <- H1, firstn_all, H1, <- H2. cbn.
  by rewrite drop_all, app_nil_r.
Qed.
