(* ===== verification/TxnAccess.v ===== *)
(** * TxnAccess: the access list of a transaction

    Model of [TxnManager::get_row], [get_row_post_wait], [insert_row],
    [get_lock], [cleanup_row] and [cleanup] (system/txn.cpp), of the dispatch
    per algorithm in [row_t::get_row], [get_row_post_wait] and [return_row]
    (storage/row.cpp), on rows in memory: which object a stored procedure gets
    for a row, what a transaction remembers of it, and what happens to it at
    the end.

    Rows are objects in a heap, named by addresses.  The row managers are
    modelled in their own files; here their answers are an argument of a run
    ([answers]: a result and, for the multi-version ones, the version they
    hand out), and what is given back to them is a list of events.  ROLL_BACK
    is on and ISOLATION_LEVEL is SERIALIZABLE, as in config.h.  The two sides
    of the merge conflict in [cleanup_row] differ in statistics only. *)

From stdpp Require Import base tactics numbers list gmap.
From Stdlib Require Import ZArith Lia.
From S2P Require Import Prelude Wire RowData Message.
#[local] Open Scope Z_scope.

(** ** A state monad with failures and its logic *)

Definition ST (S A : Type) : Type := S -> res (A * S).
#[global] Instance ST_ret {S} : MRet (ST S) := fun A a s => Ok (a, s).
#[global] Instance ST_bind {S} : MBind (ST S) := fun A B k m s =>
  match m s with Ok (a, s') => k a s' | AssertFail => AssertFail end.

Section STOps.
Context {S : Type}.
Definition sget : ST S S := fun s => Ok (s, s).
Definition smod (f : S -> S) : ST S unit := fun s => Ok (tt, f s).
Definition sassert (b : bool) : ST S unit := fun s => if b then Ok (tt, s) else AssertFail.
Definition slift {A} (r : res A) : ST S A := fun s => a ← r; Ok (a, s).
(** A pointer that is followed. *)
Definition deref {A} (o : option A) : ST S A := fun s =>
  match o with Some a => Ok (a, s) | None => AssertFail end.

(** [m] returns from [s], with a value and a state that satisfy [Q]. *)
Definition wp {A} (m : ST S A) (Q : A -> S -> Prop) (s : S) : Prop :=
  match m s with Ok (a, s') => Q a s' | AssertFail => False end.
(** If [m] returns from [s], its value and state satisfy [Q]. *)
Definition wlp {A} (m : ST S A) (Q : A -> S -> Prop) (s : S) : Prop :=
  match m s with Ok (a, s') => Q a s' | AssertFail => True end.

Lemma wp_ret {A} (a : A) Q s : Q a s -> wp (mret a) Q s.
Proof. done. Qed.
Lemma wp_bind {A B} (m : ST S A) (k : A -> ST S B) Q s :
  wp m (fun a => wp (k a) Q) s -> wp (mbind k m) Q s.
Proof. unfold wp, mbind, ST_bind. by destruct (m s) as [[]|]. Qed.
Lemma wp_mono {A} (m : ST S A) (P Q : A -> S -> Prop) s :
  wp m P s -> (forall a s', P a s' -> Q a s') -> wp m Q s.
Proof. unfold wp. destruct (m s) as [[]|]; eauto. Qed.
Lemma wlp_ret {A} (a : A) (Q : A -> S -> Prop) s : Q a s -> wlp (mret a) Q s.
Proof. done. Qed.
Lemma wlp_bind {A B} (m : ST S A) (k : A -> ST S B) Q s :
  wlp m (fun a => wlp (k a) Q) s -> wlp (mbind k m) Q s.
Proof. unfold wlp, mbind, ST_bind. by destruct (m s) as [[]|]. Qed.
Lemma wlp_mono {A} (m : ST S A) (P Q : A -> S -> Prop) s :
  wlp m P s -> (forall a s', P a s' -> Q a s') -> wlp m Q s.
Proof. unfold wlp. destruct (m s) as [[]|]; eauto. Qed.
Lemma wlp_True {A} (m : ST S A) s : wlp m (fun _ _ => True) s.
Proof. unfold wlp. by destruct (m s) as [[]|]. Qed.
Lemma wp_wlp {A} (m : ST S A) (Q : A -> S -> Prop) s : wp m Q s -> wlp m Q s.
Proof. unfold wp, wlp. by destruct (m s) as [[]|]. Qed.
Lemma wp_sassert b Q s : b = true -> Q tt s -> wp (sassert b) Q s.
Proof. intros -> ?. done. Qed.
Lemma wlp_sassert b (Q : unit -> S -> Prop) s : (b = true -> Q tt s) -> wlp (sassert b) Q s.
Proof. unfold wlp, sassert. destruct b; auto. Qed.
Lemma wlp_deref {A} (o : option A) (Q : A -> S -> Prop) s :
  (forall a, o = Some a -> Q a s) -> wlp (deref o) Q s.
Proof. unfold wlp, deref. destruct o; auto. Qed.
Lemma wlp_slift {A} (r : res A) (Q : A -> S -> Prop) s :
  (forall a, r = Ok a -> Q a s) -> wlp (slift r) Q s.
Proof. unfold wlp, slift. destruct r; cbn; auto. Qed.
Lemma wlp_sget (Q : S -> S -> Prop) s : Q s s -> wlp sget Q s.
Proof. done. Qed.
Lemma wlp_smod f (Q : unit -> S -> Prop) s : Q tt (f s) -> wlp (smod f) Q s.
Proof. done. Qed.
Lemma wp_sget (Q : S -> S -> Prop) s : Q s s -> wp sget Q s.
Proof. done. Qed.
Lemma wp_smod f (Q : unit -> S -> Prop) s : Q tt (f s) -> wp (smod f) Q s.
Proof. done. Qed.
Lemma wp_deref {A} (a : A) (Q : A -> S -> Prop) s : Q a s -> wp (deref (Some a)) Q s.
Proof. done. Qed.
(** A computation that is known to return. *)
Lemma wlp_eq {A} (m : ST S A) a s s' (Q : A -> S -> Prop) : m s = Ok (a, s') -> Q a s' -> wlp m Q s.
Proof. unfold wlp. by intros ->. Qed.
Lemma wp_eq {A} (m : ST S A) a s s' (Q : A -> S -> Prop) : m s = Ok (a, s') -> Q a s' -> wp m Q s.
Proof. unfold wp. by intros ->. Qed.
Lemma wp_inv {A} (m : ST S A) (Q : A -> S -> Prop) s :
  wp m Q s -> exists a s', m s = Ok (a, s') /\ Q a s'.
Proof. unfold wp. destruct (m s) as [[a s']|]; [eauto|done]. Qed.
Lemma wp_slift {A} (r : res A) a (Q : A -> S -> Prop) s : r = Ok a -> Q a s -> wp (slift r) Q s.
Proof. by intros ->. Qed.
End STOps.
Notation "m ';;;' k" := (mbind (fun _ : unit => k) m) (at level 100, right associativity).

(** One step of a computation under [wlp]. *)
Ltac wlp_step :=
  match goal with
  | |- wlp (mbind _ _) _ _ => apply wlp_bind
  | |- wlp (mret _) _ _ => apply wlp_ret
  | |- wlp (sassert _) _ _ => apply wlp_sassert; intros
  | |- wlp (deref _) _ _ => apply wlp_deref; intros ? ?
  | |- wlp (slift _) _ _ => apply wlp_slift; intros ? ?
  | |- wlp sget _ _ => apply wlp_sget
  | |- wlp (smod _) _ _ => apply wlp_smod
  end.

(** The same under [wp]; assertions remain. *)
Ltac wp_step :=
  match goal with
  | |- wp (mbind _ _) _ _ => apply wp_bind
  | |- wp (mret _) _ _ => apply wp_ret
  | |- wp (deref (Some _)) _ _ => apply wp_deref
  | |- wp sget _ _ => apply wp_sget
  | |- wp (smod _) _ _ => apply wp_smod
  | |- wp (sassert _) _ _ => apply wp_sassert
  end.

(** ** State *)

(** [Access] of txn.h, up to the timestamps of the algorithms. *)
Record Access := mkAccess {
  acc_type : access_t;
  orig_row : Z;
  acc_data : option Z;
  orig_data : option Z;
}.

(** What a row manager answers: a result, and the version it puts into
    [txn->cur_row] where it does so. *)
Record Answer := mkAnswer { ans_rc : RC; ans_row : option Z }.

(** What is given back to the manager of row [r]. *)
Inductive row_event :=
| EvLockRelease (r : Z)                                (* [lock_release] *)
| EvReturn (rc : RC) (type : access_t) (r d : Z)       (* commit or abort of the copy [d] *)
| EvFree (r : Z).                                      (* a row object is freed *)

Record TxnSt := mkTxnSt {
  heap : gmap Z row_t;
  next_addr : Z;
  accesses : list Access;
  row_cnt : Z;
  write_cnt : Z;
  insert_rows : list Z;
  calvin_locked_rows : list Z;
  last_row : option Z;
  last_type : access_t;
  answers : list Answer;
  events : list row_event;
}.

Definition set_heap (h : gmap Z row_t) (s : TxnSt) : TxnSt :=
  mkTxnSt h (next_addr s) (accesses s) (row_cnt s) (write_cnt s) (insert_rows s)
    (calvin_locked_rows s) (last_row s) (last_type s) (answers s) (events s).
Definition set_last (r : Z) (t : access_t) (s : TxnSt) : TxnSt :=
  mkTxnSt (heap s) (next_addr s) (accesses s) (row_cnt s) (write_cnt s) (insert_rows s)
    (calvin_locked_rows s) (Some r) t (answers s) (events s).
Definition set_accesses (l : list Access) (rows writes : Z) (s : TxnSt) : TxnSt :=
  mkTxnSt (heap s) (next_addr s) l rows writes (insert_rows s)
    (calvin_locked_rows s) (last_row s) (last_type s) (answers s) (events s).
Definition set_inserts (l : list Z) (s : TxnSt) : TxnSt :=
  mkTxnSt (heap s) (next_addr s) (accesses s) (row_cnt s) (write_cnt s) l
    (calvin_locked_rows s) (last_row s) (last_type s) (answers s) (events s).
Definition set_locked (l : list Z) (s : TxnSt) : TxnSt :=
  mkTxnSt (heap s) (next_addr s) (accesses s) (row_cnt s) (write_cnt s) (insert_rows s)
    l (last_row s) (last_type s) (answers s) (events s).
Definition set_answers (l : list Answer) (s : TxnSt) : TxnSt :=
  mkTxnSt (heap s) (next_addr s) (accesses s) (row_cnt s) (write_cnt s) (insert_rows s)
    (calvin_locked_rows s) (last_row s) (last_type s) l (events s).
Definition add_event (e : row_event) (s : TxnSt) : TxnSt :=
  mkTxnSt (heap s) (next_addr s) (accesses s) (row_cnt s) (write_cnt s) (insert_rows s)
    (calvin_locked_rows s) (last_row s) (last_type s) (answers s) (events s ++ [e]).
(** A new object: the address counter moves on. *)
Definition add_object (r : row_t) (s : TxnSt) : TxnSt :=
  mkTxnSt (<[next_addr s := r]> (heap s)) (next_addr s + 1) (accesses s) (row_cnt s) (write_cnt s)
    (insert_rows s) (calvin_locked_rows s) (last_row s) (last_type s) (answers s) (events s).

Abbreviation T := (ST TxnSt).

(** ** Rows in memory *)

Section Access.
Context `{!Config}.
(** The content of fresh memory, and the capacities of the arrays: of accesses
    and of locked rows, and of inserted rows. *)
Context (junk : nat -> Z) (max_accesses max_inserts : nat).

Definition load (a : Z) : T row_t := s ← sget; deref (heap s !! a).
Definition store (a : Z) (r : row_t) : T unit := smod (fun s => set_heap (<[a := r]> (heap s)) s).
Definition alloc_row (c : Catalog) (part row : Z) : T Z :=
  s ← sget; smod (add_object (get_new_row junk c part row));;; mret (next_addr s).

(** [copy] of the object at [src] to that at [dst]. *)
Definition copy_to (src dst : Z) : T unit :=
  x ← load src; y ← load dst; y' ← slift (copy_row x y); store dst y'.

(** A fresh row of the same table: [alloc], [init(get_table(), get_part_id())]. *)
Definition fresh_like (a : Z) : T Z := x ← load a; alloc_row (table x) (part_id x) 0.
Definition fresh_copy (a : Z) : T Z := n ← fresh_like a; copy_to a n;;; mret n.

Definition free (a : Z) : T unit :=
  smod (fun s => set_heap (delete a (heap s)) s);;; smod (add_event (EvFree a)).

(** One call of a manager. *)
Definition ask : T Answer :=
  s ← sget;
  match answers s with
  | [] => mret (mkAnswer RCOK None)
  | x :: l => smod (set_answers l);;; mret x
  end.

(** ** row_t *)

(** The version that the manager left in [txn->cur_row]. *)
Definition cur_row (x : Answer) : T Z := deref (ans_row x).

(** [row_t::get_row(type, txn, access)]: the result, and what is assigned to
    [access->data] if anything is. *)
Definition row_get_row (a : Z) (type : access_t) : T (RC * option Z) :=
  if cc_is CC_MAAT then
    n ← fresh_like a; x ← ask; copy_to a n;;; sassert (bool_decide (ans_rc x = RCOK));;;
    mret (ans_rc x, Some n)
  else if cc_is CC_TICTOC then mret (RCOK, None)
  else if cc_is CC_WOOKONG then
    x ← ask;
    if decide (ans_rc x = WAIT) then mret (WAIT, None)
    else if decide (ans_rc x = Abort) then mret (Abort, None)
    else v ← cur_row x;
         if decide (type = WR) then n ← fresh_copy v; mret (ans_rc x, Some n)
         else mret (ans_rc x, Some v)
  else if cc_in [CC_WAIT_DIE; CC_NO_WAIT] then
    x ← ask;
    (if decide (ans_rc x = WAIT) then sassert (cc_is CC_WAIT_DIE) else mret tt);;;
    mret (ans_rc x, if decide (ans_rc x = RCOK) then Some a else None)
  else if cc_in [CC_TIMESTAMP; CC_MVCC; CC_SSI; CC_WSI; CC_DTA] then
    n ← (if cc_is CC_TIMESTAMP then n ← fresh_like a; mret (Some n) else mret None);
    p ← (if decide (type = WR) then ask else mret (mkAnswer RCOK None));
    if decide (ans_rc p <> RCOK) then mret (ans_rc p, None)
    else
      x ← ask;
      if decide (ans_rc x = RCOK) then
        v ← (match n with Some n => copy_to a n;;; mret n | None => cur_row x end);
        if decide (type = WR /\ ~ cc_is CC_TIMESTAMP) then n' ← fresh_copy v; mret (RCOK, Some n')
        else mret (RCOK, Some v)
      else mret (ans_rc x, None)
  else if cc_in [CC_OCC; CC_FOCC; CC_BOCC; CC_SILO; CC_DLI_BASE; CC_DLI_OCC] then
    n ← fresh_like a;
    x ← ask;
    (if decide (ans_rc x = RCOK) then copy_to a n else mret tt);;;
    y ← (if cc_is CC_DLI_BASE && bool_decide (ans_rc x = RCOK) then ask else mret x);
    mret (ans_rc y, Some n)
  else if cc_in [CC_DLI_MVCC_OCC; CC_DLI_DTA; CC_DLI_DTA2; CC_DLI_DTA3; CC_DLI_MVCC] then
    x ← ask;
    v ← cur_row x;
    d ← (if decide (type = WR) then fresh_copy v else mret v);
    y ← (if cc_is CC_DLI_MVCC then ask else mret x);
    mret (ans_rc y, Some d)
  else if cc_in [CC_HSTORE; CC_CALVIN] then mret (RCOK, Some a)
  else sassert false;;; mret (RCOK, None).

(** The overload for TicToc: always a local copy of the row. *)
Definition row_get_row_tictoc (a : Z) : T (RC * option Z) :=
  n ← fresh_like a; x ← ask; copy_to a n;;; sassert (bool_decide (ans_rc x = RCOK));;;
  mret (ans_rc x, Some n).

(** [row_t::get_row_post_wait]; the version is what the manager that ended
    the wait has put into [txn->cur_row]. *)
Definition row_get_row_post_wait (a : Z) (type : access_t) : T Z :=
  sassert (cc_in [CC_WAIT_DIE; CC_MVCC; CC_WOOKONG; CC_TIMESTAMP; CC_TICTOC; CC_SSI; CC_WSI; CC_DTA;
                  CC_DLI_DTA; CC_DLI_DTA2; CC_DLI_DTA3]);;;
  if cc_is CC_WAIT_DIE then mret a
  else
    x ← ask; v ← cur_row x;
    if cc_in [CC_MVCC; CC_WOOKONG; CC_TICTOC; CC_SSI; CC_WSI] && bool_decide (type = WR)
    then fresh_copy v else mret v.

(** [row_t::return_row]; [d] is the row given back, possibly null. *)
Definition return_row (rc : RC) (type : access_t) (a : Z) (d : option Z) : T unit :=
  if cc_in [CC_WAIT_DIE; CC_NO_WAIT; CC_CALVIN] then
    sassert (bool_decide (d = None \/ d = Some a \/ type = XP));;;
    (if negb (cc_is CC_CALVIN) && bool_decide (type = XP)
     then o ← deref d; copy_to o a else mret tt);;;
    smod (add_event (EvLockRelease a))
  else if cc_in [CC_TIMESTAMP; CC_MVCC; CC_SSI; CC_WSI] then
    (if cc_is CC_TIMESTAMP && bool_decide (type = RD \/ type = SCAN)
     then o ← deref d; free o else mret tt);;;
    (if decide (type = XP) then o ← deref d; free o;;; smod (add_event (EvReturn rc XP a o))
     else if decide (type = WR) then o ← deref d; smod (add_event (EvReturn rc WR a o))
     else mret tt)
  else if cc_in [CC_OCC; CC_FOCC; CC_BOCC; CC_DLI_BASE; CC_DLI_OCC; CC_MAAT; CC_TICTOC] then
    o ← deref d; smod (add_event (EvReturn rc type a o));;; free o
  else if cc_in [CC_WOOKONG; CC_DTA; CC_DLI_MVCC_OCC; CC_DLI_DTA; CC_DLI_DTA2; CC_DLI_DTA3; CC_DLI_MVCC] then
    o ← deref d; smod (add_event (EvReturn rc type a o));;;
    (if decide (type = XP) then free o else mret tt)
  else if cc_in [CC_HSTORE; CC_HSTORE_SPEC] then
    o ← deref d; (if decide (type = XP) then copy_to o a else mret tt)
  else if cc_is CC_SILO then o ← deref d; free o
  else sassert false.

(** ** TxnManager *)

Definition undo_algs : list CcAlg := [CC_DL_DETECT; CC_NO_WAIT; CC_WAIT_DIE; CC_HSTORE; CC_HSTORE_SPEC].

Definition push_access (x : Access) : T unit :=
  s ← sget;
  sassert ((length (accesses s) <? max_accesses)%nat);;;
  smod (set_accesses (accesses s ++ [x]) (row_cnt s + 1)
          (if decide (acc_type x = WR) then write_cnt s + 1 else write_cnt s)).

(** The copy that undoes a write, for the algorithms that update in place. *)
Definition make_undo (algs : list CcAlg) (a : Z) (type : access_t) : T (option Z) :=
  if cc_in algs && bool_decide (type = WR) then n ← fresh_copy a; mret (Some n) else mret None.

(** TicToc reuses an access to the same row, with its new type; its copy is
    the one of the first access. *)
Fixpoint find_access (a : Z) (i : nat) (l : list Access) : option (nat * Access) :=
  match l with
  | [] => None
  | x :: l' => if orig_row x =? a then Some (i, x) else find_access a (S i) l'
  end.

Definition get_row_tictoc (a : Z) (type : access_t) : T (RC * option Z) :=
  s ← sget;
  match find_access a 0 (accesses s) with
  | Some (i, x) =>
      smod (set_accesses (<[i := mkAccess type a (acc_data x) (orig_data x)]> (accesses s)) (row_cnt s) (write_cnt s));;;
      mret (RCOK, acc_data x)
  | None =>
      r ← row_get_row_tictoc a;
      push_access (mkAccess type a r.2 None);;; mret r
  end.

Definition get_row (a : Z) (type : access_t) : T (RC * option Z) :=
  smod (set_last a type);;;
  if cc_is CC_TICTOC then get_row_tictoc a type
  else
    r ← row_get_row a type;
    if decide (r.1 = Abort \/ r.1 = WAIT) then mret (r.1, None)
    else
      u ← make_undo undo_algs a type;
      push_access (mkAccess type a r.2 u);;;
      sassert (bool_decide (r.1 = RCOK));;;
      mret (r.1, r.2).

Definition get_row_post_wait : T (option Z) :=
  sassert (negb (cc_in [CC_HSTORE; CC_HSTORE_SPEC]));;;
  s ← sget;
  a ← deref (last_row s);
  d ← row_get_row_post_wait a (last_type s);
  u ← make_undo [CC_DL_DETECT; CC_NO_WAIT; CC_WAIT_DIE] a (last_type s);
  push_access (mkAccess (last_type s) a (Some d) u);;;
  mret (Some d).

Definition insert_row (a : Z) : T unit :=
  if cc_in [CC_HSTORE; CC_HSTORE_SPEC] then mret tt
  else
    s ← sget;
    sassert ((length (insert_rows s) <? max_inserts)%nat);;;
    smod (set_inserts (insert_rows s ++ [a])).

Definition get_lock (a : Z) (type : access_t) : T RC :=
  s ← sget;
  if bool_decide (a ∈ calvin_locked_rows s) then mret RCOK
  else
    sassert ((length (calvin_locked_rows s) <? max_accesses)%nat);;;
    smod (set_locked (calvin_locked_rows s ++ [a]));;;
    if cc_is CC_CALVIN then x ← ask; mret (ans_rc x) else mret RCOK.

Definition set_access (i : nat) (x : Access) : T unit :=
  s ← sget; smod (set_accesses (<[i := x]> (accesses s)) (row_cnt s) (write_cnt s)).

Definition cleanup_row (rc : RC) (rid : nat) : T unit :=
  s ← sget;
  x ← deref (accesses s !! rid);
  let type := if bool_decide (acc_type x = WR /\ rc = Abort) && negb (cc_is CC_MAAT) then XP else acc_type x in
  let rest :=
    (if cc_in [CC_NO_WAIT; CC_WAIT_DIE; CC_HSTORE; CC_HSTORE_SPEC] && bool_decide (type = WR)
     then o ← deref (orig_data x); free o else mret tt);;;
    (if cc_is CC_SILO then mret tt
     else set_access rid (mkAccess (acc_type x) (orig_row x) None (orig_data x))) in
  if cc_is CC_CALVIN then set_access rid (mkAccess (acc_type x) (orig_row x) None (orig_data x))
  else if bool_decide (type = XP) && cc_in undo_algs then
    return_row rc type (orig_row x) (orig_data x);;; rest
  else if decide (acc_data x = None) then mret tt
  else return_row rc type (orig_row x) (acc_data x);;; rest.

(** The loop of [cleanup], from the last access to the first. *)
Fixpoint cleanup_rows (rc : RC) (n : nat) : T unit :=
  match n with
  | O => mret tt
  | S rid => cleanup_row rc rid;;; cleanup_rows rc rid
  end.

Fixpoint each {A} (f : A -> T unit) (l : list A) : T unit :=
  match l with [] => mret tt | x :: l' => f x;;; each f l' end.

Definition release_inserts : T unit := s ← sget; each free (insert_rows s).

(** [cleanup], without the calls that tell the validators of the algorithms
    that the transaction is over. *)
Definition cleanup (rc : RC) : T unit :=
  s ← sget;
  sassert (Z.of_nat (length (accesses s)) =? row_cnt s);;;
  cleanup_rows rc (length (accesses s));;;
  (if cc_is CC_CALVIN then s ← sget; each (fun a => return_row rc RD a (Some a)) (calvin_locked_rows s)
   else mret tt);;;
  (if decide (rc = Abort) then release_inserts;;; smod (set_inserts []) else mret tt).

(** [release_last_row_lock] gives a row back before the end. *)
Definition release_last_row_lock : T unit :=
  s ← sget;
  sassert (0 <? row_cnt s);;;
  x ← deref (accesses s !! Z.to_nat (row_cnt s - 1));
  return_row RCOK (acc_type x) (orig_row x) None.

(** A stored procedure writes a column of the object it was given. *)
Definition put (a : Z) (id : nat) (v : Z) : T unit :=
  r ← load a; r' ← slift (set_value_u64 id v r); store a r'.
Definition fetch (a : Z) (id : nat) : T Z := r ← load a; slift (get_value_u64 id r).

End Access.
