(* ===== verification/TxnUndo.v ===== *)
(** * TxnUndo: abort restores the rows under two-phase locking

    With NO_WAIT and WAIT_DIE a transaction gets the row itself and updates it
    in place; a write access keeps a copy.  For every sequence of accesses,
    waits, updates and insertions in which the transaction updates only rows
    that it accessed for writing, [cleanup(Abort)] of [TxnAccess] brings back
    every row, and gives back every lock once. *)

From stdpp Require Import base tactics numbers list gmap strings.
From Stdlib Require Import ZArith Lia.
From S2P Require Import Prelude Wire RowData Message TxnAccess.
#[local] Open Scope Z_scope.

(** ** What a stored procedure does with its transaction manager *)

Inductive client_op :=
| OpGet (a : Z) (type : access_t)
| OpPostWait
| OpPut (a : Z) (id : nat) (v : Z)
| OpInsert (c : Catalog) (part : Z).

(** The first write access to a row, and its copy. *)
Fixpoint first_undo (a : Z) (l : list Access) : option Z :=
  match l with
  | [] => None
  | x :: l' => if decide (acc_type x = WR /\ orig_row x = a) then orig_data x else first_undo a l'
  end.

Definition is_release (e : row_event) : option Z :=
  match e with EvLockRelease a => Some a | _ => None end.

Section Undo.
Context `{!Config} (junk : nat -> Z) (max_accesses max_inserts : nat).
Context (lock_alg : CC_ALG = CC_NO_WAIT \/ CC_ALG = CC_WAIT_DIE).

Abbreviation get_row := (get_row junk max_accesses).
Abbreviation get_row_post_wait := (get_row_post_wait junk max_accesses).

(** The rows of the database are those of [h0]; updates go to rows that the
    transaction has a write access to. *)
Definition client (h0 : gmap Z row_t) (o : client_op) : T unit :=
  match o with
  | OpGet a type =>
      sassert (bool_decide (is_Some (h0 !! a) /\ type <> XP));;; _ ← get_row a type; mret tt
  | OpPostWait => _ ← get_row_post_wait; mret tt
  | OpPut a id v =>
      s ← sget;
      sassert (bool_decide (Exists (fun x => acc_type x = WR /\ orig_row x = a) (accesses s)));;;
      put a id v
  | OpInsert c part => n ← alloc_row junk c part 0; insert_row max_inserts n
  end.
Definition clients (h0 : gmap Z row_t) : list client_op -> T unit := each (client h0).

(** ** The invariant *)

(** [u] may replace the data of [r]. *)
Definition same_shape (u r : row_t) : Prop := table u = table r /\ length (data u) = length (data r).

Record undo_inv (h0 : gmap Z row_t) (l : list Access) (s : TxnSt) : Prop := {
  ui_rows a r : h0 !! a = Some r -> exists d,
    heap s !! a = Some (set_data_bytes d r) /\ length d = length (data r) /\
    (first_undo a l = None -> d = data r);
  ui_first a r o : h0 !! a = Some r -> first_undo a l = Some o ->
    exists u, heap s !! o = Some u /\ data u = data r;
  ui_acc x : x ∈ l -> exists r, h0 !! orig_row x = Some r /\ acc_data x = Some (orig_row x) /\
    acc_type x <> XP /\
    (acc_type x = WR -> exists o u, orig_data x = Some o /\ h0 !! o = None /\
       heap s !! o = Some u /\ same_shape u r);
  ui_fresh a : is_Some (heap s !! a) -> a < next_addr s;
  ui_inserts a : a ∈ insert_rows s -> h0 !! a = None;
}.

(** A transaction begins. *)
Record begins (h0 : gmap Z row_t) (s : TxnSt) : Prop := {
  bg_heap : heap s = h0;
  bg_wf a r : h0 !! a = Some r -> row_wf r;
  bg_fresh a : is_Some (h0 !! a) -> a < next_addr s;
  bg_accesses : accesses s = [];
  bg_cnt : row_cnt s = 0;
  bg_inserts : insert_rows s = [];
  bg_last : last_row s = None;
  bg_events : events s = [];
}.

(** The whole invariant of the running transaction. *)
Record running (h0 : gmap Z row_t) (s : TxnSt) : Prop := {
  rn_undo : undo_inv h0 (accesses s) s;
  rn_cnt : row_cnt s = Z.of_nat (length (accesses s));
  rn_last a : last_row s = Some a -> is_Some (h0 !! a) /\ last_type s <> XP;
  rn_events : events s = [];
}.

Lemma begins_running h0 s : begins h0 s -> running h0 s.
Proof.
  intros [Hh Hwf Hf Ha Hc Hi Hl He]. split; [|by rewrite Ha, Hc|by rewrite Hl|done].
  rewrite Ha. split.
  - intros a r Hr. exists (data r). rewrite Hh. by destruct r.
  - done.
  - intros x Hx. by apply not_elem_of_nil in Hx.
  - intros a. rewrite Hh. apply Hf.
  - intros a. rewrite Hi. intros Hx. by apply not_elem_of_nil in Hx.
Qed.

Lemma first_undo_snoc a l x :
  first_undo a (l ++ [x]) =
  match first_undo a l with
  | Some o => Some o
  | None => if decide (Exists (fun y => acc_type y = WR /\ orig_row y = a) l) then None
            else if decide (acc_type x = WR /\ orig_row x = a) then orig_data x else None
  end.
Proof.
  induction l as [|y l IH]; cbn.
  - by destruct (decide (Exists _ [])) as [He|_]; [inversion He|].
  - destruct (decide (acc_type y = WR /\ orig_row y = a)) as [Hy|Hy].
    + destruct (orig_data y); [done|]. by rewrite decide_True by by left.
    + rewrite IH. destruct (first_undo a l); [done|].
      destruct (decide (Exists _ l)) as [He|He].
      * by rewrite decide_True by by right.
      * destruct (decide (Exists _ (y :: l))) as [He'|_]; [|done]. by inversion He'.
Qed.

(** Without a copy there is no write access. *)
Lemma no_undo_no_write l a :
  (forall x, x ∈ l -> acc_type x = WR -> orig_data x <> None) ->
  first_undo a l = None -> ~ Exists (fun y => acc_type y = WR /\ orig_row y = a) l.
Proof.
  intros Hw Hn He. induction He as [x l Hx|x l He IH]; cbn in Hn.
  - rewrite decide_True in Hn by done. eapply Hw; [left|..]; naive_solver.
  - case_decide; [eapply (Hw x); [left|naive_solver..]|].
    apply IH; [|done]. intros y Hy. apply Hw. by right.
Qed.

Lemma undo_inv_copies h0 l s x : undo_inv h0 l s -> x ∈ l -> acc_type x = WR -> orig_data x <> None.
Proof.
  intros Hinv Hx Hwr. destruct (ui_acc _ _ _ Hinv x Hx) as (? & _ & _ & _ & Hd).
  by destruct (Hd Hwr) as (o & ? & -> & _).
Qed.

Lemma first_undo_None h0 l s a :
  undo_inv h0 l s -> first_undo a l = None -> ~ Exists (fun y => acc_type y = WR /\ orig_row y = a) l.
Proof. intros Hinv. apply no_undo_no_write. intros x. by apply (undo_inv_copies h0 l s). Qed.

(** ** Running *)

Lemma cc_not_tictoc : cc_is CC_TICTOC = false.
Proof. unfold cc_is. by destruct lock_alg as [-> | ->]. Qed.
Lemma cc_lock_alg algs :
  CC_NO_WAIT ∈ algs -> CC_WAIT_DIE ∈ algs -> cc_in algs = true.
Proof. intros. unfold cc_in. apply bool_decide_eq_true. by destruct lock_alg as [-> | ->]. Qed.
Lemma cc_not_lock algs :
  CC_NO_WAIT ∉ algs -> CC_WAIT_DIE ∉ algs -> cc_in algs = false.
Proof. intros. unfold cc_in. apply bool_decide_eq_false. by destruct lock_alg as [-> | ->]. Qed.
Lemma cc_is_lock alg : alg <> CC_NO_WAIT -> alg <> CC_WAIT_DIE -> cc_is alg = false.
Proof. intros. unfold cc_is. apply bool_decide_eq_false. destruct lock_alg as [-> | ->]; congruence. Qed.

(** A field that a step does not change. *)
Definition keeps_memory (s s' : TxnSt) : Prop :=
  heap s' = heap s /\ next_addr s' = next_addr s /\ insert_rows s' = insert_rows s.

Lemma undo_inv_keeps h0 l s s' : keeps_memory s s' -> undo_inv h0 l s -> undo_inv h0 l s'.
Proof. intros (Hh & Hn & Hi) []. split; rewrite ?Hh, ?Hn, ?Hi; done. Qed.

(** A new row object that is not part of the database. *)
Lemma undo_inv_add h0 l s r :
  undo_inv h0 l s -> undo_inv h0 l (add_object r s) /\ h0 !! next_addr s = None.
Proof.
  intros [Hr Hf Ha Hfr Hi].
  assert (heap s !! next_addr s = None) as Hnone.
  { destruct (heap s !! next_addr s) eqn:E; [|done]. assert (next_addr s < next_addr s); [eauto|lia]. }
  assert (forall a u, heap s !! a = Some u -> <[next_addr s:=r]> (heap s) !! a = Some u) as Hkeep.
  { intros a u E. rewrite lookup_insert_ne; [done|]. intros <-. congruence. }
  split.
  - split; cbn.
    + intros a r0 E. destruct (Hr a r0 E) as (d & ? & ?). exists d. split; [by apply Hkeep|done].
    + intros a r0 o E Eo. destruct (Hf a r0 o E Eo) as (u & ? & ?). exists u. split; [by apply Hkeep|done].
    + intros x Hx. destruct (Ha x Hx) as (r0 & ? & ? & ? & Hw). exists r0. split_and!; [done..|].
      intros Hwr. destruct (Hw Hwr) as (o & u & ? & ? & ? & ?). exists o, u. eauto.
    + intros a Hin. destruct (decide (a = next_addr s)) as [->|]; [lia|].
      rewrite lookup_insert_ne in Hin by done. apply Hfr in Hin. lia.
    + done.
  - destruct (h0 !! next_addr s) as [r0|] eqn:E; [|done].
    destruct (Hr _ _ E) as (d & E' & _). congruence.
Qed.

(** A write of a row object that some access covers. *)
Lemma undo_inv_put h0 l s a r d :
  undo_inv h0 l s -> Exists (fun x => acc_type x = WR /\ orig_row x = a) l ->
  heap s !! a = Some r -> length d = length (data r) ->
  undo_inv h0 l (set_heap (<[a := set_data_bytes d r]> (heap s)) s).
Proof.
  intros Hinv He Ea Hd. pose proof Hinv as [Hr Hf Ha Hfr Hi].
  assert (exists r0, h0 !! a = Some r0) as [r0 E0].
  { apply Exists_exists in He as (x & Hx & _ & <-). destruct (Ha x Hx) as (r0 & ? & _). eauto. }
  split; cbn.
  - intros b rb Eb. destruct (decide (b = a)) as [->|].
    + destruct (Hr a rb Eb) as (d' & E' & Hl & _). rewrite Ea in E'. injection E' as ->.
      exists d. rewrite lookup_insert_eq. split_and!; [done|by rewrite <- Hl|].
      intros Hn. by destruct (first_undo_None _ _ _ _ Hinv Hn).
    + rewrite lookup_insert_ne by done. eauto.
  - intros b rb o Eb Eo. destruct (Hf b rb o Eb Eo) as (u & Eu & Hu). exists u. split; [|done].
    rewrite lookup_insert_ne; [done|]. intros ->.
    assert (exists x, x ∈ l /\ acc_type x = WR /\ orig_data x = Some o) as (x & Hx & Hw & Ho).
    { clear -Eo. induction l as [|x l IH]; cbn in Eo; [done|]. case_decide as Hd.
      - exists x. split; [left|naive_solver].
      - destruct (IH Eo) as (y & ? & ?). exists y. split; [by right|done]. }
    destruct (Ha x Hx) as (? & _ & _ & _ & Hd'). destruct (Hd' Hw) as (? & ? & ? & ? & _). congruence.
  - intros x Hx. destruct (Ha x Hx) as (rx & ? & ? & ? & Hw). exists rx. split_and!; [done..|].
    intros Hwr. destruct (Hw Hwr) as (o & u & ? & Hno & ? & ?). exists o, u. split_and!; try done.
    rewrite lookup_insert_ne; [done|]. intros ->. congruence.
  - intros b Hb. apply Hfr. destruct (decide (b = a)) as [->|]; [eauto|].
    by rewrite lookup_insert_ne in Hb by done.
  - done.
Qed.

Lemma undo_inv_snoc h0 l s x r cur :
  undo_inv h0 l s -> h0 !! orig_row x = Some r -> acc_data x = Some (orig_row x) -> acc_type x <> XP ->
  heap s !! orig_row x = Some cur ->
  (acc_type x = WR -> exists o u, orig_data x = Some o /\ h0 !! o = None /\ heap s !! o = Some u /\
     table u = table cur /\ data u = data cur) ->
  undo_inv h0 (l ++ [x]) s.
Proof.
  intros Hinv Er Ed Ht Ecur Hw. pose proof Hinv as [Hr Hf Ha Hfr Hi].
  destruct (Hr _ _ Er) as (d & Ecur' & Hlen & Hd). rewrite Ecur in Ecur'. injection Ecur' as ->.
  split; [| | |done..].
  - intros a ra Ea. destruct (Hr a ra Ea) as (da & ? & ? & Hda). exists da. split_and!; [done..|].
    rewrite first_undo_snoc. destruct (first_undo a l); [done|auto].
  - intros a ra o Ea. rewrite first_undo_snoc. destruct (first_undo a l) as [o'|] eqn:El.
    { intros [= ->]. eauto. }
    rewrite decide_False by by eapply first_undo_None. case_decide as Hx; [|done].
    destruct Hx as [Hwr <-]. intros Eo. destruct (Hw Hwr) as (o' & u & Eo' & _ & Eu & _ & Hu).
    exists u. rewrite Eo in Eo'. injection Eo' as ->. split; [done|]. cbn in Hu. rewrite Hu.
    rewrite Er in Ea. injection Ea as ->. auto.
  - intros y [Hy|Hy%list_elem_of_singleton]%elem_of_app; [eauto|]. subst y.
    exists r. split_and!; [done..|]. intros Hwr. destruct (Hw Hwr) as (o & u & ? & ? & ? & Ht' & Hu).
    exists o, u. split_and!; try done.
    split; [done|]. cbn in Hu. by rewrite Hu.
Qed.

(** ** The operations of the access list *)

Lemma row_get_row_lock a type :
  row_get_row junk a type =
  (x ← ask;
   (if decide (ans_rc x = WAIT) then sassert (cc_is CC_WAIT_DIE) else mret tt);;;
   mret (ans_rc x, if decide (ans_rc x = RCOK) then Some a else None)).
Proof.
  unfold row_get_row. rewrite !(cc_is_lock CC_MAAT), !(cc_is_lock CC_TICTOC), !(cc_is_lock CC_WOOKONG) by done.
  rewrite (cc_lock_alg [CC_WAIT_DIE; CC_NO_WAIT]); [done| |]; repeat (left || right).
Qed.

Lemma return_row_lock rc type a d :
  return_row rc type a d =
  (sassert (bool_decide (d = None \/ d = Some a \/ type = XP));;;
   (if bool_decide (type = XP) then o ← deref d; copy_to o a else mret tt);;;
   smod (add_event (EvLockRelease a))).
Proof.
  unfold return_row.
  rewrite (cc_lock_alg [CC_WAIT_DIE; CC_NO_WAIT; CC_CALVIN]) by (repeat (left || right)).
  by rewrite (cc_is_lock CC_CALVIN) by done.
Qed.

(** A new object with the data of another one. *)
Lemma fresh_copy_ok a u s :
  heap s !! a = Some u -> row_wf u -> a <> next_addr s ->
  exists n, fresh_copy junk a s = Ok (next_addr s, add_object n s) /\ table n = table u /\ data n = data u.
Proof.
  intros Ha Hu Hne. set (n0 := get_new_row junk (table u) (part_id u) 0).
  exists (set_data_bytes (data u) n0). split; [|done].
  unfold fresh_copy, fresh_like, alloc_row, copy_to, load, store, deref, sget, smod, slift,
    mbind, ST_bind, mret, ST_ret. rewrite Ha.
  cbn [heap add_object next_addr]. rewrite lookup_insert_ne, Ha by done. cbn [heap add_object next_addr].
  rewrite lookup_insert_eq. rewrite copy_row_ok; [|done|apply row_init_wf, Hu|done].
  cbn. unfold set_heap, add_object. cbn. by rewrite insert_insert_eq.
Qed.

(** [ask] and [set_last] leave memory alone. *)
Lemma ask_keeps s x s' : ask s = Ok (x, s') -> keeps_memory s s' /\ accesses s' = accesses s /\
  row_cnt s' = row_cnt s /\ last_row s' = last_row s /\ last_type s' = last_type s /\ events s' = events s.
Proof.
  unfold ask, sget, smod, mbind, ST_bind, mret, ST_ret.
  destruct (answers s); intros [= <- <-]; done.
Qed.

Lemma running_keeps h0 s s' :
  running h0 s -> keeps_memory s s' -> accesses s' = accesses s -> row_cnt s' = row_cnt s ->
  events s' = events s ->
  (forall a, last_row s' = Some a -> is_Some (h0 !! a) /\ last_type s' <> XP) -> running h0 s'.
Proof.
  intros [Hu Hc Hl He] Hk Ea Er Ee Hl'. split; [|by rewrite Er, Ea|done|by rewrite Ee].
  rewrite Ea. by eapply undo_inv_keeps.
Qed.

Section Run.
Context (h0 : gmap Z row_t) (h0_wf : forall a r, h0 !! a = Some r -> row_wf r).

Lemma running_row s a r :
  running h0 s -> h0 !! a = Some r ->
  exists cur, heap s !! a = Some cur /\ row_wf cur /\ table cur = table r /\ a <> next_addr s.
Proof.
  intros [Hu _ _ _] Hr. destruct (ui_rows _ _ _ Hu a r Hr) as (d & E & Hl & _).
  exists (set_data_bytes d r). split_and!; [done| |done|].
  - destruct (h0_wf _ _ Hr). split; [done|]. cbn. by rewrite Hl.
  - intros ->. assert (next_addr s < next_addr s); [|lia]. eapply ui_fresh; eauto.
Qed.

(** The new access of [get_row] and of [get_row_post_wait]. *)
Lemma wlp_new_access {A} algs a r type (k : T A) Q s :
  CC_NO_WAIT ∈ algs -> CC_WAIT_DIE ∈ algs ->
  running h0 s -> h0 !! a = Some r -> type <> XP ->
  (forall s', running h0 s' -> wlp k Q s') ->
  wlp (u ← make_undo junk algs a type;
       push_access max_accesses (mkAccess type a (Some a) u);;; k) Q s.
Proof.
  intros Hn Hw Hrun Hr Ht HQ. destruct (running_row s a r Hrun Hr) as (cur & Ecur & Hcur & Etab & Hne).
  unfold make_undo. rewrite cc_lock_alg by done. cbn [andb].
  destruct Hrun as [Hu Hc Hl He]. unfold push_access. case_bool_decide as Hwr.
  - destruct (fresh_copy_ok a cur s Ecur Hcur Hne) as (n & Ef & En & Ed).
    apply wlp_bind, wlp_bind, (wlp_eq _ _ _ _ _ Ef). repeat wlp_step. apply HQ. destruct (undo_inv_add h0 _ s n Hu) as [Hu' Hno]. split; cbn; [|rewrite length_app; cbn; lia|done|done].
    apply undo_inv_keeps with (s := add_object n s); [done|].
    apply undo_inv_snoc with (r := r) (cur := cur); cbn; [done..| |].
    + by rewrite lookup_insert_ne by done.
    + intros _. exists (next_addr s), n. rewrite lookup_insert_eq. done.
  - repeat wlp_step. apply HQ. split; cbn; [|rewrite length_app; cbn; lia|done|done].
    apply undo_inv_keeps with (s := s); [done|].
    by apply undo_inv_snoc with (r := r) (cur := cur).
Qed.

Lemma wlp_get_row a r type s :
  running h0 s -> h0 !! a = Some r -> type <> XP ->
  wlp (get_row a type) (fun _ s' => running h0 s') s.
Proof.
  intros Hrun Hr Ht. unfold TxnAccess.get_row. rewrite cc_not_tictoc, row_get_row_lock.
  wlp_step. wlp_step. assert (running h0 (set_last a type s)) as Hrun1.
  { eapply running_keeps; [exact Hrun|done..|]. cbn. intros ? [= <-]. eauto. }
  revert Hrun1. generalize (set_last a type s). clear s Hrun. intros s Hrun.
  destruct (ask s) as [[x s1]|] eqn:Ex; [|by unfold wlp, mbind, ST_bind; rewrite Ex].
  apply wlp_bind, wlp_bind, (wlp_eq _ _ _ _ _ Ex).
  apply ask_keeps in Ex as (Hk & Ea & Ec & El & Et & Ee).
  assert (running h0 s1) as Hrun1.
  { eapply running_keeps; try done. rewrite El, Et. apply Hrun. }
  clear s Hrun Hk Ea Ec El Et Ee.
  wlp_step. apply wlp_mono with (P := fun _ s' => s' = s1).
  { case_decide; repeat wlp_step; done. }
  intros _ s' ->. wlp_step. cbn [fst snd]. case_decide as Hrc; [by wlp_step|].
  destruct (decide (ans_rc x = RCOK)) as [E|E].
  - apply wlp_new_access with (r := r); [repeat (left || right)..|done|done|done|].
    intros s' Hs'. by repeat wlp_step.
  - unfold make_undo, push_access, fresh_copy. wlp_step.
    apply wlp_mono with (P := fun _ _ => True); [by apply wlp_True|]. intros u s' _.
    repeat wlp_step. by destruct (ans_rc x).
Qed.

(** Only WAIT_DIE waits. *)
Lemma row_post_wait_lock a type s :
  wlp (row_get_row_post_wait junk a type) (fun d s' => d = a /\ s' = s) s.
Proof.
  unfold row_get_row_post_wait. apply wlp_bind, wlp_sassert. intros Hin.
  destruct lock_alg as [E|E]; [|by unfold cc_is; rewrite E; apply wlp_ret].
  exfalso. revert Hin. unfold cc_in. rewrite E. by vm_compute.
Qed.

Lemma wlp_get_row_post_wait s : running h0 s -> wlp get_row_post_wait (fun _ s' => running h0 s') s.
Proof.
  intros Hrun. unfold TxnAccess.get_row_post_wait. do 4 wlp_step. wlp_step.
  apply wlp_deref. intros a Ha. destruct (rn_last _ _ Hrun a Ha) as [[r Hr] Ht].
  wlp_step. eapply wlp_mono; [apply row_post_wait_lock|]. intros d s' [-> ->].
  apply wlp_new_access with (r := r); [repeat (left || right)..|done|done|done|].
  intros s' Hs'. by wlp_step.
Qed.

(** The objects that a procedure makes for rows to be inserted. *)
Lemma wlp_insert c part s :
  running h0 s -> wlp (n ← alloc_row junk c part 0; insert_row max_inserts n) (fun _ s' => running h0 s') s.
Proof.
  intros Hrun. unfold alloc_row, insert_row.
  rewrite (cc_not_lock [CC_HSTORE; CC_HSTORE_SPEC]) by (rewrite list_elem_of_In; cbn; intuition discriminate).
  repeat wlp_step. destruct Hrun as [Hu Hc Hl He].
  destruct (undo_inv_add h0 _ s (get_new_row junk c part 0) Hu) as [[] Hno].
  split; cbn; [|done..]. split; cbn; [done..|].
  intros a [Ha|Ha%list_elem_of_singleton]%elem_of_app; [eauto|by subst].
Qed.

Lemma wlp_put a id v s :
  running h0 s -> Exists (fun x => acc_type x = WR /\ orig_row x = a) (accesses s) ->
  wlp (put a id v) (fun _ s' => running h0 s') s.
Proof.
  intros Hrun He. unfold put, load, store. repeat wlp_step.
  destruct Hrun as [Hu Hc Hl Hev]. split; cbn; [|done..].
  match goal with H : set_value_u64 _ _ _ = Ok _ |- _ => apply set_value_shape in H as (d & -> & Hd) end.
  by apply undo_inv_put.
Qed.

Lemma wlp_client o s : running h0 s -> wlp (client h0 o) (fun _ s' => running h0 s') s.
Proof.
  intros Hrun. destruct o as [a type| |a id v|c part]; cbn [client].
  - wlp_step. apply wlp_sassert. intros Hb. apply bool_decide_eq_true in Hb as [[r Hr] Ht].
    wlp_step. eapply wlp_mono; [by apply wlp_get_row with (r := r)|]. intros. by wlp_step.
  - wlp_step. eapply wlp_mono; [by apply wlp_get_row_post_wait|]. intros. by wlp_step.
  - do 3 wlp_step. apply wlp_sassert. intros Hb. apply wlp_put; [done|]. by apply bool_decide_eq_true in Hb.
  - by apply wlp_insert.
Qed.

Lemma wlp_clients ops : forall s, running h0 s -> wlp (clients h0 ops) (fun _ s' => running h0 s') s.
Proof.
  induction ops as [|o ops IH]; intros s Hrun; cbn; [done|].
  apply wlp_bind. eapply wlp_mono; [by apply wlp_client|]. intros ? s' Hs'. by apply IH.
Qed.

(** ** Cleaning up *)

Lemma copy_to_ok s o a u r d :
  heap s !! o = Some u -> heap s !! a = Some (set_data_bytes d r) -> row_wf r ->
  same_shape u r -> length d = length (data r) ->
  copy_to o a s = Ok (tt, set_heap (<[a := set_data_bytes (data u) r]> (heap s)) s).
Proof.
  intros Ho Ha [Hc Hl] [Et El] Ed. unfold copy_to, load, store, deref, sget, smod, slift, mbind, ST_bind.
  rewrite Ho. cbn [heap]. rewrite Ha. rewrite copy_row_ok; [done| | |done].
  - split; rewrite Et; [done|by rewrite El].
  - split; [done|]. cbn. by rewrite Ed.
Qed.

(** The state after the last access is cleaned up. *)
Definition cleaned (l : list Access) (x : Access) (tail : list Access) (s s' : TxnSt) : Prop :=
  undo_inv h0 l s' /\ (exists x', accesses s' = l ++ x' :: tail) /\
  events s' = events s ++ [EvLockRelease (orig_row x)] /\ insert_rows s' = insert_rows s.

Lemma undo_inv_prefix l x s :
  undo_inv h0 (l ++ [x]) s -> (acc_type x = WR -> forall r, h0 !! orig_row x = Some r ->
     first_undo (orig_row x) l = None -> heap s !! orig_row x = Some r) ->
  undo_inv h0 l s.
Proof.
  intros [Hr Hf Ha Hfr Hi] Hx. split; [| | |done..].
  - intros a r Ea. destruct (Hr a r Ea) as (d & E & Hl & Hd).
    destruct (decide (acc_type x = WR /\ orig_row x = a /\ first_undo a l = None)) as [(Hw & <- & Hn)|Hno].
    + exists (data r). rewrite (Hx Hw r Ea Hn). by destruct r.
    + exists d. split_and!; [done..|]. intros Hn. apply Hd. rewrite first_undo_snoc, Hn.
      case_decide; [done|]. rewrite decide_False; [done|]. naive_solver.
  - intros a r o Ea Eo. eapply Hf; [done|]. by rewrite first_undo_snoc, Eo.
  - intros y Hy. apply Ha. apply elem_of_app. by left.
Qed.

Lemma wp_cleanup_row_abort l x tail s :
  undo_inv h0 (l ++ [x]) s -> accesses s = l ++ x :: tail ->
  wp (cleanup_row Abort (length l)) (fun _ s' => cleaned l x tail s s') s.
Proof.
  intros Hinv Hacc. destruct (ui_acc _ _ _ Hinv x) as (r & Er & Ed & Ht & Hw).
  { apply elem_of_app. right. left. }
  unfold cleanup_row. rewrite (cc_is_lock CC_MAAT), (cc_is_lock CC_CALVIN), (cc_is_lock CC_SILO) by done.
  rewrite (cc_lock_alg undo_algs), (cc_lock_alg [CC_NO_WAIT; CC_WAIT_DIE; CC_HSTORE; CC_HSTORE_SPEC])
    by (repeat (left || right)).
  do 3 wp_step. rewrite Hacc at 1. rewrite lookup_app_r, Nat.sub_diag by lia. cbn [lookup list_lookup].
  wp_step. cbv zeta.
  rewrite !andb_true_r. rewrite !return_row_lock, Ed.
  destruct (decide (acc_type x = WR)) as [Hwr|Hrd].
  - rewrite (bool_decide_eq_true_2 (acc_type x = WR /\ _)) by done. cbn [bool_decide andb].
    destruct (Hw Hwr) as (o & u & Eo & Hno & Eu & Hshape). rewrite Eo.
    destruct (ui_rows _ _ _ Hinv _ _ Er) as (d & Ecur & Hlen & Hd).
    pose proof (copy_to_ok s o (orig_row x) u r d Eu Ecur (h0_wf _ _ Er) Hshape Hlen) as Hcopy.
    rewrite !(bool_decide_eq_true_2 (XP = XP)), !(bool_decide_eq_false_2 (XP = WR)) by done.
    do 3 wp_step; [apply bool_decide_eq_true_2; auto|]. do 2 wp_step. wp_step.
    apply (wp_eq _ _ _ _ _ Hcopy). unfold set_access. repeat wp_step.
    unfold cleaned. cbn. rewrite Hacc, insert_app_r_alt, Nat.sub_diag by lia. cbn. split_and!; [|eauto|done..].
    apply undo_inv_keeps with (s := set_heap (<[orig_row x := set_data_bytes (data u) r]> (heap s)) s); [done|].
    apply undo_inv_prefix with (x := x).
    + change (set_data_bytes (data u) r) with (set_data_bytes (data u) (set_data_bytes d r)).
      apply undo_inv_put; [done| |done|].
      * apply Exists_app. right. by left.
      * cbn. destruct Hshape as [_ ->]. done.
    + intros _ r' Er' Hn. rewrite Er in Er'. injection Er' as <-. cbn. rewrite lookup_insert_eq.
      destruct (ui_first _ _ _ Hinv (orig_row x) r o Er) as (u' & Eu' & Hu').
      { rewrite first_undo_snoc, Hn, decide_False; [by rewrite decide_True|].
        apply no_undo_no_write; [|done]. intros y Hy. apply (undo_inv_copies _ _ _ y Hinv).
        apply elem_of_app. by left. }
      rewrite Eu in Eu'. injection Eu' as <-. rewrite Hu'. by destruct r.
  - rewrite (bool_decide_eq_false_2 (acc_type x = WR /\ _)) by naive_solver. cbn [andb].
    rewrite !(bool_decide_eq_false_2 (acc_type x = XP)), (bool_decide_eq_false_2 (acc_type x = WR)) by done.
    rewrite decide_False by done. unfold set_access.
    do 3 wp_step; [apply bool_decide_eq_true_2; auto|]. repeat wp_step.
    unfold cleaned. cbn. rewrite Hacc, insert_app_r_alt, Nat.sub_diag by lia. cbn. split_and!; [|eauto|done..].
    apply undo_inv_keeps with (s := s); [done|]. apply undo_inv_prefix with (x := x); [done|naive_solver].
Qed.

(** All of them, from the last to the first. *)
Lemma wp_cleanup_rows_abort l : forall tail s,
  undo_inv h0 l s -> accesses s = l ++ tail ->
  wp (cleanup_rows Abort (length l)) (fun _ s' =>
    undo_inv h0 [] s' /\ length (accesses s') = length (accesses s) /\
    events s' = events s ++ (EvLockRelease <$> (orig_row <$> reverse l)) /\
    insert_rows s' = insert_rows s) s.
Proof.
  induction l as [|x l IH] using rev_ind; intros tail s Hinv Hacc.
  - cbn. split_and!; [done..|by rewrite app_nil_r|done].
  - rewrite length_app, Nat.add_comm. cbn [length Nat.add cleanup_rows]. apply wp_bind.
    rewrite <- app_assoc in Hacc. eapply wp_mono; [by apply (wp_cleanup_row_abort l x tail)|].
    intros ? s' (Hinv' & [x' Hacc'] & Hev & Hins).
    eapply wp_mono; [by apply (IH (x' :: tail))|]. intros ? s'' (Hinv'' & Hlen & Hev' & Hins').
    split_and!; [done| | |congruence].
    + rewrite Hlen, Hacc', Hacc, !length_app. done.
    + rewrite Hev', Hev, reverse_app, <- app_assoc. done.
Qed.

Lemma wp_free_each l : forall s,
  wp (each free l) (fun _ s' => (forall a, a ∉ l -> heap s' !! a = heap s !! a) /\
    omap is_release (events s') = omap is_release (events s)) s.
Proof.
  induction l as [|a l IH]; intros s; cbn [each]; [by split|].
  apply wp_bind. unfold free. repeat wp_step. eapply wp_mono; [apply IH|]. cbn.
  intros ? s' [Hh He]. split.
  - intros b Hb. rewrite Hh by set_solver. apply lookup_delete_ne. set_solver.
  - rewrite He, omap_app. by rewrite app_nil_r.
Qed.

End Run.

End Undo.

(** ** A transaction that aborts *)

Module UndoExample.
Definition config : Config :=
  {| CC_ALG := CC_NO_WAIT; WORKLOAD := WL_TPCC; g_node_id := 0; g_node_cnt := 1;
     g_client_node_cnt := 1; g_repl_cnt := 0; g_synth_table_size := 1024; g_req_per_query := 10;
     g_msg_size := 4096; g_msg_time_limit := 0; myrand_next := fun k => k |}.
#[local] Existing Instance config.
Definition cat : Catalog :=
  mkCatalog "T"%string 0 2 [mkColumn 0 8 0 "int64_t"%string "A"%string; mkColumn 1 8 8 "int64_t"%string "B"%string] 16.
Definition junk : nat -> Z := fun _ => 7.
Definition row (k : Z) : row_t := mkRow cat 0 k 0 (le_bytes 8 k ++ le_bytes 8 (10 * k)).
Definition h0 : gmap Z row_t := {[1 := row 1; 2 := row 2]}.
Definition s0 : TxnSt := mkTxnSt h0 10 [] 0 0 [] [] None RD [] [].
(** Two updates of one row under one access, a second access to it, a row that
    is read, and an inserted row. *)
Definition ops : list client_op :=
  [OpGet 1 WR; OpPut 1 0 55; OpGet 2 RD; OpGet 1 WR; OpPut 1 1 66; OpInsert cat 0].

Lemma cat_wf : catalog_wf cat.
Proof.
  split; [| |done].
  - intros [|[|i]] [|[|j]] x y Hij; cbn; intros [= <-] [= <-]; cbn; lia.
  - intros [|[|i]] x; cbn; intros [= <-]; cbn; lia.
Qed.
Lemma row_is_wf k : row_wf (row k).
Proof. split; [apply cat_wf|done]. Qed.
Lemma h0_lookup a r : h0 !! a = Some r -> 0 < a < 10 /\ row_wf r.
Proof.
  unfold h0. intros [[<- <-]|[_ [<- <-]%lookup_singleton_Some]]%lookup_insert_Some;
    (split; [lia|apply row_is_wf]).
Qed.
End UndoExample.

