(* ===== verification/TpccKeys.v ===== *)
(** * TpccKeys: keys and random values of the TPC-C workload

    Model of benchmarks/tpcc_helper.cpp: the index keys of the tables, the
    warehouse of a key, last names, and the random numbers and strings of the
    loader and of the query generator.  [rand()] is an arbitrary function of
    the number of calls made so far, and the static variables of [NURand] are
    part of the state of the monad [Rnd].  Characters are byte values. *)

From stdpp Require Import base tactics numbers list strings.
From Stdlib Require Import ZArith Lia.
From S2P Require Import Prelude.
#[local] Open Scope Z_scope.

(** The characters of a string literal. *)
Definition chars_of (s : string) : list Z :=
  (fun c => Z.of_N (Ascii.N_of_ascii c)) <$> String.list_ascii_of_string s.

(** [strlen]: the position of the first NUL; without one the buffer is read
    beyond its end. *)
Fixpoint strlen (s : list Z) : res nat :=
  match s with
  | [] => AssertFail
  | c :: s' => if c =? 0 then Ok 0%nat else n ← strlen s'; mret (S n)
  end.

Section Keys.
(** [g_dist_per_wh], [g_cust_per_dist], [g_max_items], [g_num_wh], [g_part_cnt]. *)
Context (g_dist_per_wh g_cust_per_dist g_max_items g_num_wh g_part_cnt : Z).

Definition distKey (d_id d_w_id : Z) : Z := wrap64 (d_w_id * g_dist_per_wh + d_id).
Definition custKey (c_id c_d_id c_w_id : Z) : Z :=
  wrap64 (distKey c_d_id c_w_id * g_cust_per_dist + c_id).
Definition orderlineKey (w_id d_id o_id : Z) : Z :=
  wrap64 (distKey d_id w_id * g_cust_per_dist + o_id).
Definition orderPrimaryKey (w_id d_id o_id : Z) : Z := orderlineKey w_id d_id o_id.

(** The loop over the characters of the name, and the key. *)
Fixpoint name_key (key : Z) (s : list Z) : Z :=
  match s with
  | [] => key
  | c :: s' => name_key (wrap64 (Z.shiftl key 1 + (c - 65))) s'
  end.
Definition custNPKey (c_last : list Z) (c_d_id c_w_id : Z) : res Z :=
  n ← strlen c_last;
  mret (wrap64 (Z.shiftl (name_key 0 (take n c_last)) 10 + (c_w_id * g_dist_per_wh + c_d_id))).

Definition stockKey (s_i_id s_w_id : Z) : Z := wrap64 (s_w_id * g_max_items + s_i_id).

Definition w_from_distKey (d_key : Z) : Z := d_key / g_dist_per_wh.
Definition w_from_custKey (c_key : Z) : Z := w_from_distKey (c_key / g_cust_per_dist).
Definition w_from_orderlineKey (s_key : Z) : Z := w_from_distKey (s_key / g_cust_per_dist).
Definition w_from_orderPrimaryKey (s_key : Z) : Z := w_from_orderlineKey s_key.
Definition w_from_custNPKey (cnp_key : Z) : Z := Z.land (cnp_key / g_dist_per_wh) 1023.
Definition w_from_stockKey (s_key : Z) : Z := s_key / g_max_items.

Definition wh_to_part (wid : Z) : res Z :=
  assert! (g_part_cnt <=? g_num_wh); mret (wrap64 (wid - 1) mod g_part_cnt).

End Keys.

(** ** Last names *)

Definition syllables : list (list Z) :=
  chars_of <$> ["BAR"; "OUGHT"; "ABLE"; "PRI"; "PRES"; "ESE"; "ANTI"; "CALLY"; "ATION"; "EING"]%string.

(** [n[k]]: beyond the table the read is undefined. *)
Definition syllable (k : Z) : res (list Z) :=
  match syllables !! Z.to_nat k with Some s => Ok s | None => AssertFail end.

(** The name without its NUL, and its length. *)
Definition Lastname (num : Z) : res (list Z * Z) :=
  a ← syllable (num / 100);
  b ← syllable ((num / 10) mod 10);
  c ← syllable (num mod 10);
  mret (a ++ b ++ c, Z.of_nat (length (a ++ b ++ c))).

(** ** Random values *)

(** The calls of [rand()] made, and the variables [C_255], [C_1023], [C_8191]
    once they are set. *)
Record Gen := mkGen { calls : nat; C_255 : option Z; C_1023 : option Z; C_8191 : option Z }.
Definition gen_init : Gen := mkGen 0 None None None.

Definition Rnd (A : Type) : Type := Gen -> res (A * Gen).
#[global] Instance Rnd_ret : MRet Rnd := fun A a g => Ok (a, g).
#[global] Instance Rnd_bind : MBind Rnd := fun A B k c g =>
  match c g with Ok (a, g') => k a g' | AssertFail => AssertFail end.
Definition rassert (b : bool) : Rnd unit := fun g => if b then Ok (tt, g) else AssertFail.
Definition rlift {A} (r : res A) : Rnd A := fun g => a ← r; Ok (a, g).
#[local] Notation "m ;; k" := (mbind (fun _ : unit => k) m) (at level 100, right associativity).

Section Random.
(** What the calls of [rand()] return. *)
Context (rand : nat -> Z).

Definition next_rand : Rnd Z := fun g =>
  Ok (rand (calls g), mkGen (S (calls g)) (C_255 g) (C_1023 g) (C_8191 g)).

(** The remainder by zero traps. *)
Definition RAND (max : Z) : Rnd Z :=
  r ← next_rand; rassert (negb (max =? 0));; mret (r mod max).

Definition URand (x y : Z) : Rnd Z :=
  r ← RAND (wrap64 (y - x + 1)); mret (wrap64 (x + r)).

(** A static variable that the first call sets. *)
Definition static_C (A : Z) (get_C : Gen -> option Z) (set_C : Z -> Gen -> Gen) : Rnd Z := fun g =>
  match get_C g with
  | Some c => Ok (c, g)
  | None => match URand 0 A g with
            | Ok (c, g') => Ok (c, set_C c g')
            | AssertFail => AssertFail
            end
  end.

(** The operands of [|] are evaluated from left to right here; C++ leaves
    their order open. *)
Definition NURand (A x y : Z) : Rnd Z :=
  C ← (if A =? 255 then static_C A C_255 (fun c g => mkGen (calls g) (Some c) (C_1023 g) (C_8191 g))
       else if A =? 1023 then static_C A C_1023 (fun c g => mkGen (calls g) (C_255 g) (Some c) (C_8191 g))
       else if A =? 8191 then static_C A C_8191 (fun c g => mkGen (calls g) (C_255 g) (C_1023 g) (Some c))
       else rassert false;; mret 0);
  a ← URand 0 A;
  b ← URand x y;
  rassert (negb (wrap64 (y - x + 1) =? 0));;
  mret (wrap64 (wrap64 (Z.lor a b + C) mod wrap64 (y - x + 1) + x)).

Definition char_list : list Z :=
  chars_of "123456789abcdefghijklmnopqrstuvwxyzABCDEFGHIJKLMNOPQRSTUVWXYZ".

(** [n] characters drawn one by one. *)
Fixpoint draw (n : nat) (one : Rnd Z) : Rnd (list Z) :=
  match n with
  | O => mret []
  | S n' => c ← one; cs ← draw n' one; mret (c :: cs)
  end.

(** What is written into [str] from its start, and the returned length. *)
Definition MakeAlphaString (min max : Z) : Rnd (list Z * Z) :=
  cnt ← URand min max;
  cs ← draw (Z.to_nat cnt) (i ← URand 0 60;
                            rlift (match char_list !! Z.to_nat i with Some c => Ok c | None => AssertFail end));
  mret (cs ++ replicate (Z.to_nat (max - cnt)) 0, cnt).

Definition MakeNumberString (min max : Z) : Rnd (list Z * Z) :=
  cnt ← URand min max;
  cs ← draw (Z.to_nat cnt) (r ← URand 0 9; mret (48 + r));
  mret (cs, cnt).

End Random.

(** ** Keys *)

(** Two numbers in base [n] with digits from 1. *)
Lemma digits_unique n a b x y :
  1 <= x <= n -> 1 <= y <= n -> a * n + x = b * n + y -> a = b /\ x = y.
Proof. 
  intros Hx Hy H. destruct (Z.lt_trichotomy a b) as [?|[->|?]]; [exfalso; nia|lia|exfalso; nia].
Qed.

Section KeyFacts.
Context (D C I W P : Z).

(** Warehouses up to [W], districts, customers and items in the ranges of the
    loader, and keys that fit in 64 bits. *)
Lemma distKey_small d w : 1 <= d <= D -> 0 <= w <= W -> (W + 1) * D <= UINT64_MAX ->
  distKey D d w = w * D + d /\ 0 < distKey D d w <= (W + 1) * D.
Proof.
  intros Hd Hw Hb. assert (w * D <= W * D) by (apply Z.mul_le_mono_nonneg_r; lia).
  assert (0 <= w * D) by (apply Z.mul_nonneg_nonneg; lia).
  unfold distKey. rewrite wrap64_small by lia. lia.
Qed.

Lemma custKey_small c d w :
  1 <= c <= C -> 1 <= d <= D -> 0 <= w <= W -> ((W + 1) * D + 1) * C <= UINT64_MAX ->
  custKey D C c d w = (w * D + d) * C + c.
Proof.
  intros Hc Hd Hw Hb.
  assert (0 <= (W + 1) * D) by (apply Z.mul_nonneg_nonneg; lia).
  assert ((W + 1) * D * 1 <= (W + 1) * D * C) by (apply Z.mul_le_mono_nonneg_l; lia).
  destruct (distKey_small d w) as [E ?]; [done..|lia|].
  unfold custKey. rewrite E in *.
  assert ((w * D + d) * C <= (W + 1) * D * C) by (apply Z.mul_le_mono_nonneg_r; lia).
  assert (0 <= (w * D + d) * C) by (apply Z.mul_nonneg_nonneg; lia).
  apply wrap64_small. lia.
Qed.

Lemma wh_to_part_range w : 0 < P <= W -> exists p, wh_to_part W P w = Ok p /\ 0 <= p < P.
Proof.
  intros. unfold wh_to_part. replace (P <=? W) with true by lia.
  eexists. split; [done|]. apply Z.mod_pos_bound. lia.
Qed.

(** The district of a customer key and the warehouse of a district key are
    those it was made of, except for the last of a row: the functions that
    invert the keys divide numbers that count from one. *)
Lemma w_from_distKey_spec d w : 1 <= d <= D -> 0 <= w <= W -> (W + 1) * D <= UINT64_MAX ->
  w_from_distKey D (distKey D d w) = if d =? D then w + 1 else w.
Proof.
  intros Hd Hw Hb. unfold w_from_distKey. destruct (distKey_small d w) as [-> _]; [done..|].
  destruct (Z.eqb_spec d D) as [->|].
  - replace (w * D + D) with ((w + 1) * D) by lia. apply Z.div_mul. lia.
  - symmetry. apply (Z.div_unique_pos _ _ _ d); lia.
Qed.
End KeyFacts.

(** Two rows of the district, customer or stock table have the same index
    key only if they have the same identifiers, for identifiers in the ranges
    that the loader and the query generator use (from one up to the configured
    counts) and counts whose keys fit in 64 bits. *)
Theorem tpcc_keys_injective (D C I W : Z)
    (Hd : (W + 1) * D <= UINT64_MAX) (Hc : ((W + 1) * D + 1) * C <= UINT64_MAX)
    (Hi : (W + 1) * I <= UINT64_MAX) :
  (forall d d' w w', 1 <= d <= D -> 1 <= d' <= D -> 0 <= w <= W -> 0 <= w' <= W ->
     distKey D d w = distKey D d' w' -> d = d' /\ w = w') /\
  (forall c c' d d' w w', 1 <= c <= C -> 1 <= c' <= C -> 1 <= d <= D -> 1 <= d' <= D ->
     0 <= w <= W -> 0 <= w' <= W ->
     custKey D C c d w = custKey D C c' d' w' -> c = c' /\ d = d' /\ w = w') /\
  (forall i i' w w', 1 <= i <= I -> 1 <= i' <= I -> 0 <= w <= W -> 0 <= w' <= W ->
     stockKey I i w = stockKey I i' w' -> i = i' /\ w = w').
Proof.
  split_and!.
  - intros d d' w w' ???? E.
    destruct (distKey_small D W d w) as [E1 _], (distKey_small D W d' w') as [E2 _]; try done.
    rewrite E1, E2 in E. destruct (digits_unique D w w' d d') as [-> ->]; auto.
  - intros c c' d d' w w' ?????? E.
    rewrite !(custKey_small D C W) in E by done.
    apply digits_unique in E as [E ->]; [|lia..].
    apply digits_unique in E as [-> ->]; auto.
  - intros i i' w w' ???? E.
    destruct (distKey_small I W i w) as [E1 _], (distKey_small I W i' w') as [E2 _]; try done.
    change (distKey I i w = distKey I i' w') in E.
    rewrite E1, E2 in E. destruct (digits_unique I w w' i i') as [-> ->]; auto.
Qed.

(** The counts of the benchmark's small configuration: the last district of a
    warehouse and the first of the next one. *)
Lemma tpcc_keys_injective_witness : bool_decide (distKey 10 10 1 = distKey 10 1 2) = false.
Proof.
  apply bool_decide_eq_false_2. intros E.
  destruct (tpcc_keys_injective 10 2000 10000 32) as [H _]; [unfold UINT64_MAX; lia..|].
  destruct (H 10 1 1 2) as [H10 _]; try lia; done.
Defined.

(** Customers of different last names share a key of the index of last names:
    the characters of a name are added with weights two apart. *)
Lemma custNPKey_collision :
  let a := chars_of "BARPRESBAR" ++ [0] in let b := chars_of "ESEPRIBAR" ++ [0] in
  Lastname 40 = Ok (chars_of "BARPRESBAR", 10) /\ Lastname 530 = Ok (chars_of "ESEPRIBAR", 9) /\
  custNPKey 10 a 1 1 = custNPKey 10 b 1 1.
Proof. by vm_compute. Qed.

(** ** Names and random values *)

(** The names of the numbers below 1000 exist and fit, with their NUL, into
    the 16 bytes of [c_last]. *)
Lemma Lastname_fits num : 0 <= num < 1000 ->
  exists s, Lastname num = Ok (s, Z.of_nat (length s)) /\ (length s <= 15)%nat /\ 0 ∉ s.
Proof.
  intros Hn. set (ok k := match Lastname (Z.of_nat k) with
    | Ok (s, n) => bool_decide (n = Z.of_nat (length s) /\ (length s <= 15)%nat /\ 0 ∉ s)
    | AssertFail => false end).
  assert (forallb ok (seq 0 1000) = true) as Hall by by vm_compute.
  rewrite forallb_forall in Hall. specialize (Hall (Z.to_nat num)).
  unfold ok in Hall. rewrite Z2Nat.id in Hall by lia.
  destruct (Lastname num) as [[s n]|].
  - assert (Hin : In (Z.to_nat num) (seq 0 1000)) by (apply (proj2 (in_seq _ _ _)); lia).
    apply Hall, bool_decide_eq_true in Hin as (-> & ? & ?). by exists s.
  - discriminate Hall. apply (proj2 (in_seq _ _ _)). lia.
Qed.

Section RandomFacts.
Context (rand : nat -> Z).

(** The static variables, once set, are in the range they were drawn from. *)
Definition C_ok (A : Z) (c : option Z) : Prop := match c with Some c => 0 <= c <= A | None => True end.
Record gen_ok (g : Gen) : Prop := {
  ok_255 : C_ok 255 (C_255 g); ok_1023 : C_ok 1023 (C_1023 g); ok_8191 : C_ok 8191 (C_8191 g) }.

(** [m] returns from every such state, and its value satisfies [Q]. *)
Definition always {A} (m : Rnd A) (Q : A -> Prop) : Prop :=
  forall g, gen_ok g -> exists a g', m g = Ok (a, g') /\ gen_ok g' /\ Q a.

Lemma always_ret {A} (a : A) (Q : A -> Prop) : Q a -> always (mret a) Q.
Proof. intros H g Hg. by exists a, g. Qed.

Lemma always_bind {A B} (m : Rnd A) (k : A -> Rnd B) Q R :
  always m Q -> (forall a, Q a -> always (k a) R) -> always (mbind k m) R.
Proof.
  intros Hm Hk g Hg. destruct (Hm g Hg) as (a & g' & E & Hg' & Ha).
  destruct (Hk a Ha g' Hg') as (b & g'' & E' & Hb).
  exists b, g''. split; [|done]. unfold mbind, Rnd_bind. by rewrite E.
Qed.

Lemma always_assert b : b = true -> always (rassert b) (fun _ => True).
Proof. intros -> g. by exists tt, g. Qed.

Lemma always_rand : always (next_rand rand) (fun _ => True).
Proof. intros g []. do 2 eexists. split; [done|]. by split. Qed.

Lemma URand_range x y : 0 <= x <= y -> y < UINT64_MAX -> always (URand rand x y) (fun r => x <= r <= y).
Proof.
  intros Hx Hy. unfold URand, RAND. rewrite (wrap64_small (y - x + 1)) by lia.
  apply always_bind with (Q := fun r => 0 <= r < y - x + 1).
  - eapply always_bind; [apply always_rand|]. intros r _.
    eapply always_bind; [apply always_assert; lia|]. intros _ _.
    apply always_ret, Z.mod_pos_bound. lia.
  - intros r Hr. apply always_ret. rewrite wrap64_small; lia.
Qed.

Lemma static_C_range A get_C set_C :
  0 <= A < UINT64_MAX -> (forall g, gen_ok g -> C_ok A (get_C g)) ->
  (forall c g, 0 <= c <= A -> gen_ok g -> gen_ok (set_C c g)) ->
  always (static_C rand A get_C set_C) (fun c => 0 <= c <= A).
Proof.
  intros HA Hget Hset g Hg. unfold static_C. specialize (Hget g Hg).
  destruct (get_C g) as [c|]; [by exists c, g|].
  destruct (URand_range 0 A ltac:(lia) ltac:(lia) g Hg) as (c & g' & -> & Hg' & Hc).
  do 2 eexists. split; [done|]. auto.
Qed.

Lemma always_mono {A} (m : Rnd A) (P Q : A -> Prop) : always m P -> (forall a, P a -> Q a) -> always m Q.
Proof. intros Hm HPQ g Hg. destruct (Hm g Hg) as (a & g' & ? & ? & ?). eauto 10. Qed.

Lemma always_NURand A x y :
  A = 255 \/ A = 1023 \/ A = 8191 -> 0 <= x <= y -> y < 2 ^ 32 ->
  always (NURand rand A x y) (fun r => x <= r <= y).
Proof.
  intros HA Hx Hy. assert (y < UINT64_MAX) by (unfold UINT64_MAX; lia). unfold NURand.
  apply always_bind with (Q := fun c => 0 <= c <= A).
  { destruct HA as [->|[->| ->]]; cbn [Z.eqb Pos.eqb];
      (apply static_C_range; [unfold UINT64_MAX; lia|by intros ? []|by intros ? ? ? []; split]). }
  intros C HC.
  eapply always_bind; [apply URand_range; [lia|unfold UINT64_MAX; lia]|]. intros a Ha.
  eapply always_bind; [apply URand_range; lia|]. intros b Hb.
  rewrite (wrap64_small (y - x + 1)) by lia.
  eapply always_bind; [apply always_assert; lia|]. intros _ _. apply always_ret.
  pose proof (Z.mod_pos_bound (wrap64 (Z.lor a b + C)) (y - x + 1) ltac:(lia)).
  rewrite wrap64_small by lia. lia.
Qed.

(** Whatever [rand] returns, [URand(x, y)] returns a number from [x] to
    [y], and so does [NURand(A, x, y)] for the three values of [A] that TPC-C
    uses, at its first call and at later ones: neither the bitwise or nor the
    static offset leaves the range, and the static variables stay below [A]. *)
Theorem NURand_range (A x y : Z)
    (HA : A = 255 \/ A = 1023 \/ A = 8191) (Hx : 0 <= x <= y) (Hy : y < 2 ^ 32) :
  always (URand rand x y) (fun r => x <= r <= y) /\
  always (NURand rand A x y) (fun r => x <= r <= y).
Proof. split; [apply URand_range; unfold UINT64_MAX; lia|by apply always_NURand]. Qed.
End RandomFacts.

Lemma NURand_range_witness :
  always (NURand (fun n => Z.of_nat n * 7919) 1023 1 2000) (fun r => 1 <= r <= 2000).
Proof. refine (proj2 (NURand_range _ 1023 1 2000 _ _ _)); lia. Defined.
