(* ===== verification/TpccQuery.v ===== *)
(** * TpccQuery: the queries of the TPC-C workload

    Model of benchmarks/tpcc_query.cpp: the parameters of a payment and of a
    new order, the nodes that take part in a query (three computations of
    them, for the client message, for the sequencer's flags, and for Calvin's
    arrays), and the generators of queries, with the configuration of config.h
    (FIRST_PART_LOCAL off, SINGLE_PART on without its variants, NO_REMOTE
    undefined).  The loops that draw again until a value fits have fuel; when
    it runs out the result says so.  [get_part_node_id] (GET_NODE_ID) is the
    partition map, which migration may change, and therefore a parameter. *)

From stdpp Require Import base tactics numbers list.
From Stdlib Require Import ZArith Lia.
From Stdlib Require Import Floats.SpecFloat.
From S2P Require Import Prelude StdSet Wire CArray Message QueryMessage TpccKeys.
#[local] Open Scope Z_scope.

(** ** [double] *)

Definition f64_add (a b : Z) : Z := bits_of_f64 (SFadd 53 1024 (f64_of_bits a) (f64_of_bits b)).
Definition f64_div (a b : Z) : Z := bits_of_f64 (SFdiv 53 1024 (f64_of_bits a) (f64_of_bits b)).
Definition f64_leb (a b : Z) : bool := SFleb (f64_of_bits a) (f64_of_bits b).
Definition f64_ltb (a b : Z) : bool := SFltb (f64_of_bits a) (f64_of_bits b).

Lemma f64_add_u64 a b : is_u64 (f64_add a b).
Proof. apply wire_ok_u64, bits_of_f64_u64. Qed.
Lemma f64_sub_u64 a b : is_u64 (f64_sub a b).
Proof. apply wire_ok_u64, bits_of_f64_u64. Qed.

(** ** The query *)

Record TPCCQuery := mkTPCCQ {
  q_txn_type : Z;
  q_w_id : Z;
  q_d_id : Z;
  q_c_id : Z;
  q_d_w_id : Z;
  q_c_w_id : Z;
  q_c_d_id : Z;
  q_c_last : list Z;
  q_h_amount : Z;
  q_by_last_name : bool;
  q_items : Array Item_no;
  q_rbk : bool;
  q_remote : bool;
  q_ol_cnt : Z;
  q_o_entry_d : Z;
  q_ol_amount : Z;
  q_o_id : Z;
  q_partitions : list Z;
  q_partitions_touched : list Z;
}.

Section Participants.
Context (g_num_wh g_part_cnt : Z) (g_node_cnt : nat) (GET_NODE_ID : Z -> Z).

Abbreviation wh_to_part := (wh_to_part g_num_wh g_part_cnt).
Definition wh_node (w : Z) : res Z := p ← wh_to_part w; mret (GET_NODE_ID p).

(** The warehouses of the first [cnt] items from index [i] on. *)
Fixpoint supply_nodes (items : Array Item_no) (i : Z) (cnt : nat) : res (list Z) :=
  match cnt with
  | O => mret []
  | S cnt' =>
      x ← CArray.get items i; n ← wh_node (ol_supply_w_id x);
      ns ← supply_nodes items (i + 1) cnt'; mret (n :: ns)
  end.

(** The nodes that the query visits, in the order of the code's loops. *)
Definition visits (txn_type w_id c_w_id ol_cnt : Z) (items : Array Item_no) : res (list Z) :=
  h ← wh_node w_id;
  if txn_type =? TPCC_PAYMENT then c ← wh_node c_w_id; mret [h; c]
  else if txn_type =? TPCC_NEW_ORDER then
    ns ← supply_nodes items 0 (Z.to_nat ol_cnt); mret (h :: ns)
  else AssertFail.

(** [participants] of a client's message: a set. *)
Definition participants_msg (m : TPCCClientQueryMessage) : res (list Z) :=
  ns ← visits (tcq_txn_type m) (tcq_w_id m) (tcq_c_w_id m) (tcq_ol_cnt m) (tcq_items m);
  mret (set_insert_all ns []).

(** [participants] with an array of flags: the flags and their number. *)
Definition mark (id : Z) (st : list bool * Z) : res (list bool * Z) :=
  match st.1 !! Z.to_nat id with
  | None => AssertFail
  | Some true => Ok st
  | Some false => Ok (<[Z.to_nat id := true]> st.1, st.2 + 1)
  end.
Fixpoint mark_all (ids : list Z) (st : list bool * Z) : res (list bool * Z) :=
  match ids with
  | [] => Ok st
  | id :: ids' => st' ← mark id st; mark_all ids' st'
  end.
Definition participants (q : TPCCQuery) : res (list bool * Z) :=
  ns ← visits (q_txn_type q) (q_w_id q) (q_c_w_id q) (q_ol_cnt q) (q_items q);
  mark_all ns (replicate g_node_cnt false, 0).

Definition readonly (q : TPCCQuery) : bool := false.

(** [get_participants]: the arrays [participant_nodes] and [active_nodes] get
    the same entries.  Every warehouse counts for a query of another type. *)
Fixpoint add_zeros (n : nat) (a : Array Z) : res (Array Z) :=
  match n with O => Ok a | S n' => a' ← CArray.add a 0; add_zeros n' a' end.
Definition mark_array (id : Z) (st : Array Z * Array Z * Z) : res (Array Z * Array Z * Z) :=
  let '(p, a, cnt) := st in
  x ← CArray.get p id;
  if x =? 0 then p' ← CArray.set p id 1; a' ← CArray.set a id 1; mret (p', a', cnt + 1)
  else mret st.
Fixpoint mark_arrays (ids : list Z) (st : Array Z * Array Z * Z) : res (Array Z * Array Z * Z) :=
  match ids with
  | [] => Ok st
  | id :: ids' => st' ← mark_array id st; mark_arrays ids' st'
  end.
Definition get_participants (q : TPCCQuery) (participant_nodes active_nodes : Array Z)
  : res (Array Z * Array Z * Z) :=
  assert! (CArray.count participant_nodes =? 0);
  assert! (CArray.count active_nodes =? 0);
  p ← add_zeros g_node_cnt participant_nodes;
  a ← add_zeros g_node_cnt active_nodes;
  assert! (CArray.count p =? Z.of_nat g_node_cnt);
  assert! (CArray.count a =? Z.of_nat g_node_cnt);
  h ← wh_node (q_w_id q);
  p ← CArray.set p h 1;
  a ← CArray.set a h 1;
  if q_txn_type q =? TPCC_PAYMENT then
    c ← wh_node (q_c_w_id q); mark_array c (p, a, 1)
  else if q_txn_type q =? TPCC_NEW_ORDER then
    ns ← supply_nodes (q_items q) 0 (Z.to_nat (q_ol_cnt q)); mark_arrays ns (p, a, 1)
  else mret (p, a, 1).

End Participants.

(** ** Generators *)

Section Generator.
Context (rand : nat -> Z).
Context (g_num_wh g_part_cnt g_dist_per_wh g_cust_per_dist g_max_items g_max_items_per_txn : Z).
Context (g_part_per_txn : Z) (g_mpr g_perc_payment : Z) (GET_NODE_ID : Z -> Z).
(** What the members that no generator sets hold in a new query. *)
Context (junk : TPCCQuery) (junk_item : Item_no).

Abbreviation wh_to_part := (TpccKeys.wh_to_part g_num_wh g_part_cnt).
#[local] Notation "m ;; k" := (mbind (fun _ : unit => k) m) (at level 100, right associativity).

(** [while (bad(x = draw())) {}]: nothing when the fuel runs out. *)
Fixpoint redraw (fuel : nat) (one : Rnd Z) (bad : Z -> res bool) : Rnd (option Z) :=
  match fuel with
  | O => mret None
  | S fuel' =>
      x ← one; b ← rlift (bad x);
      if (b : bool) then redraw fuel' one bad else mret (Some x)
  end.

(** Continue when the loop has ended. *)
Definition with_value {A B} (m : Rnd (option A)) (k : A -> Rnd (option B)) : Rnd (option B) :=
  o ← m; match o with Some x => k x | None => mret None end.

(** A quotient of small integers as a [double]. *)
Definition ratio (a b : Z) : Z := f64_div (f64_of_uint a) (f64_of_uint b).

Definition home_warehouse (fuel : nat) (home_partition : Z) : Rnd (option Z) :=
  redraw fuel (URand rand 1 g_num_wh)
    (fun w => p ← wh_to_part w; mret (negb (GET_NODE_ID p =? home_partition))).

(** The customer's district and warehouse, and the partitions. *)
Definition customer_home (fuel : nat) (w d p x : Z) : Rnd (option (Z * Z * list Z)) :=
  if f64_leb (f64_of_uint 0) x then mret (Some (d, w, [p]))
  else
    cd ← URand rand 1 g_dist_per_wh;
    if 1 <? g_num_wh then
      with_value (redraw fuel (URand rand 1 g_num_wh) (fun cw => mret (cw =? w))) (fun cw =>
      cp ← rlift (wh_to_part cw);
      mret (Some (cd, cw, if p =? cp then [p] else set_insert cp [p])))
    else mret (Some (cd, w, [p])).

(** [c_last] (16 bytes; the bytes behind the name keep what they held),
    [by_last_name] and [c_id]. *)
Definition customer_name (y : Z) : Rnd (list Z * bool * Z) :=
  if y <? 0 then
    n ← NURand rand 255 0 999;
    s ← rlift (Lastname n);
    mret (splice (q_c_last junk) 0 (s.1 ++ [0]), true, q_c_id junk)
  else c ← NURand rand 1023 1 g_cust_per_dist; mret (q_c_last junk, false, c).

Definition gen_payment (fuel : nat) (home_partition : Z) : Rnd (option TPCCQuery) :=
  with_value (home_warehouse fuel home_partition) (fun w =>
  p ← rlift (wh_to_part w);
  d ← URand rand 1 g_dist_per_wh;
  h ← URand rand 1 5000;
  r ← next_rand rand;
  y ← URand rand 1 100;
  with_value (customer_home fuel w d p (ratio (r mod 10000) 10000)) (fun home =>
  name ← customer_name y;
  mret (Some (mkTPCCQ TPCC_PAYMENT w d name.2 w home.1.2 home.1.1 name.1.1 (f64_of_uint h) name.1.2
    (q_items junk) false (q_remote junk) (q_ol_cnt junk) (q_o_entry_d junk) (q_ol_amount junk)
    (q_o_id junk) home.2 [])))).

(** The supplying warehouse of an item, and the partitions so far. *)
Definition supply_warehouse (fuel : nat) (w part_limit r_mpr r_rem : Z) (accessed : list Z)
  : Rnd (option (Z * list Z)) :=
  if f64_ltb (ratio 1 100) r_rem || f64_ltb g_mpr r_mpr || (g_num_wh =? 1) then mret (Some (w, accessed))
  else if Z.of_nat (length accessed) <? part_limit then
    s ← URand rand 1 g_num_wh;
    p ← rlift (wh_to_part s);
    mret (Some (s, set_insert p accessed))
  else
    with_value (redraw fuel (URand rand 1 g_num_wh)
                  (fun s => p ← wh_to_part s; mret (negb (set_mem p accessed))))
      (fun s => mret (Some (s, accessed))).

(** [while(query->items.size() < query->ol_cnt)]: one item per round. *)
Fixpoint gen_items (fuel rounds : nat) (w part_limit r_mpr : Z) (ids : list Z) (items : Array Item_no)
    (accessed : list Z) : Rnd (option (Array Item_no * list Z)) :=
  match rounds with
  | O => mret (Some (items, accessed))
  | S rounds' =>
      with_value (redraw fuel (NURand rand 8191 1 g_max_items) (fun i => mret (set_mem i ids))) (fun i =>
      quantity ← URand rand 1 10;
      r ← next_rand rand;
      with_value (supply_warehouse fuel w part_limit r_mpr (ratio (r mod 100000) 100000) accessed) (fun sa =>
      items' ← rlift (CArray.add items (mkItem i sa.1 quantity));
      gen_items fuel rounds' w part_limit r_mpr (set_insert i ids) items' sa.2))
  end.

Definition gen_new_order (fuel : nat) (home_partition : Z) : Rnd (option TPCCQuery) :=
  with_value (home_warehouse fuel home_partition) (fun w =>
  d ← URand rand 1 g_dist_per_wh;
  c ← NURand rand 1023 1 g_cust_per_dist;
  ol_cnt ← URand rand 5 g_max_items_per_txn;
  p ← rlift (wh_to_part w);
  r ← next_rand rand;
  let r_mpr := ratio (r mod 10000) 10000 in
  let part_limit := if f64_ltb r_mpr g_mpr then g_part_per_txn else 1 in
  with_value (gen_items fuel (Z.to_nat ol_cnt) w part_limit r_mpr []
                (CArray.mkArray [] g_max_items_per_txn) [p]) (fun r =>
  mret (Some (mkTPCCQ TPCC_NEW_ORDER w d c (q_d_w_id junk) (q_c_w_id junk) (q_c_d_id junk)
    (q_c_last junk) (q_h_amount junk) (q_by_last_name junk) r.1 false (q_remote junk) ol_cnt 2013
    (q_ol_amount junk) (q_o_id junk) r.2 [])))).

Definition create_query (fuel : nat) (home_partition : Z) : Rnd (option TPCCQuery) :=
  r ← next_rand rand;
  if f64_ltb (ratio (r mod 100) 100) g_perc_payment
  then gen_payment fuel home_partition else gen_new_order fuel home_partition.

End Generator.
