(* ===== verification/TpccQueryFacts.v ===== *)
(** * TpccQueryFacts: participants and generated queries

    The three computations of the nodes of a query agree ([TpccQuery]), and
    what a generated query satisfies whatever [rand] returns. *)

From stdpp Require Import base tactics numbers list sorting sets.
From Stdlib Require Import ZArith Lia Sorted.
From S2P Require Import Prelude StdSet Wire CArray Message QueryMessage TpccKeys TpccQuery.
#[local] Open Scope Z_scope.

(** ** Participants *)

Lemma length_set_insert x s : is_set s ->
  length (set_insert x s) = (if bool_decide (x ∈ s) then length s else S (length s)).
Proof.
  induction s as [|y s IH]; intros Hs; cbn; [done|].
  apply StronglySorted_inv in Hs as [Hs Hy]. destruct (Z.ltb_spec x y); [|destruct (Z.eqb_spec x y)].
  - rewrite bool_decide_eq_false_2; [done|]. intros [->|Hin]%elem_of_cons; [lia|].
    rewrite Forall_forall in Hy. specialize (Hy _ Hin). lia.
  - subst. by rewrite bool_decide_eq_true_2 by left.
  - cbn. rewrite IH by done. destruct (decide (x ∈ s)).
    + by rewrite !bool_decide_eq_true_2 by (done || by right).
    + rewrite !bool_decide_eq_false_2; [done| |done]. by intros [?|?]%elem_of_cons.
Qed.

(** What flags, arrays and counters say of a set of nodes. *)
Definition flags_of (s : list Z) (n : nat) : list bool := (fun i => bool_decide (Z.of_nat i ∈ s)) <$> seq 0 n.
Definition ones_of (s : list Z) (n : nat) : list Z :=
  (fun i => if bool_decide (Z.of_nat i ∈ s) then 1 else 0) <$> seq 0 n.

Lemma lookup_of {A} (f : nat -> A) n i : (i < n)%nat -> (f <$> seq 0 n) !! i = Some (f i).
Proof. intros Hi. rewrite list_lookup_fmap, lookup_seq_lt by done. done. Qed.

Lemma insert_of {A} (f g : nat -> A) n i :
  (i < n)%nat -> (forall j, j <> i -> g j = f j) -> <[i := g i]> (f <$> seq 0 n) = g <$> seq 0 n.
Proof.
  intros Hi Hne. apply list_eq. intros j. destruct (decide (j = i)) as [->|].
  - rewrite list_lookup_insert_eq by by rewrite length_fmap, length_seq. by rewrite lookup_of.
  - rewrite list_lookup_insert_ne by done. rewrite !list_lookup_fmap.
    destruct (seq 0 n !! j) as [k|] eqn:E; [|done]. apply lookup_seq in E as [-> ?]. cbn.
    f_equal. symmetry. by apply Hne.
Qed.

Lemma in_insert x s i : 0 <= x -> i <> Z.to_nat x ->
  bool_decide (Z.of_nat i ∈ set_insert x s) = bool_decide (Z.of_nat i ∈ s).
Proof.
  intros Hx Hi. apply bool_decide_ext. rewrite elem_of_set_insert. split; [|auto].
  intros [?|?]; [lia|done].
Qed.

Section Agree.
Context (n : nat).

Lemma mark_spec id s : is_set s -> 0 <= id < Z.of_nat n ->
  mark id (flags_of s n, Z.of_nat (length s)) =
  Ok (flags_of (set_insert id s) n, Z.of_nat (length (set_insert id s))).
Proof.
  intros Hs Hid. unfold mark, flags_of. cbn [fst snd].
  rewrite lookup_of, Z2Nat.id, length_set_insert by (done || lia).
  destruct (decide (id ∈ s)) as [Hin|Hin].
  - rewrite !(bool_decide_eq_true_2 (id ∈ s)) by done. do 2 f_equal. apply list_fmap_ext. intros _ i _.
    apply bool_decide_ext. rewrite elem_of_set_insert. naive_solver.
  - rewrite !(bool_decide_eq_false_2 (id ∈ s)) by done.
    rewrite <- (insert_of (fun i => bool_decide (Z.of_nat i ∈ s))
      (fun i => bool_decide (Z.of_nat i ∈ set_insert id s)) n (Z.to_nat id)); [|lia|].
    + rewrite Z2Nat.id by lia. rewrite (bool_decide_eq_true_2 (id ∈ set_insert id s)) by (apply elem_of_set_insert; auto).
      do 2 f_equal. lia.
    + intros j Hj. apply in_insert; [lia|done].
Qed.

Lemma mark_all_spec ids : forall s, is_set s -> Forall (fun id => 0 <= id < Z.of_nat n) ids ->
  mark_all ids (flags_of s n, Z.of_nat (length s)) =
  Ok (flags_of (set_insert_all ids s) n, Z.of_nat (length (set_insert_all ids s))).
Proof.
  induction ids as [|id ids IH]; intros s Hs Hids; [done|].
  apply Forall_cons in Hids as [Hid Hids]. cbn [mark_all]. rewrite mark_spec by done. cbn.
  apply IH; [by apply set_insert_is_set|done].
Qed.

(** An array of [n] entries. *)
Definition ones (s : list Z) (a : Array Z) : Prop := CArray.items a = ones_of s n.

Lemma get_ones s a id : ones s a -> 0 <= id < Z.of_nat n ->
  CArray.get a id = Ok (if bool_decide (id ∈ s) then 1 else 0).
Proof.
  unfold ones, CArray.get, CArray.count. destruct a as [xs cap]. cbn. intros -> Hid. unfold ones_of.
  rewrite length_fmap, length_seq, (proj2 (Z.ltb_lt _ _)) by lia. cbn [assert_ mbind res_bind].
  by rewrite lookup_of, Z2Nat.id by lia.
Qed.

Lemma set_ones s a id : ones s a -> 0 <= id < Z.of_nat n ->
  exists a', CArray.set a id 1 = Ok a' /\ ones (set_insert id s) a'.
Proof.
  unfold ones, CArray.set, CArray.count. destruct a as [xs cap]. cbn. intros -> Hid. unfold ones_of.
  rewrite length_fmap, length_seq, (proj2 (Z.ltb_lt _ _)) by lia. eexists. split; [done|]. cbn.
  rewrite <- (insert_of (fun i => if bool_decide (Z.of_nat i ∈ s) then 1 else 0)
    (fun i => if bool_decide (Z.of_nat i ∈ set_insert id s) then 1 else 0) n (Z.to_nat id)); [|lia|].
  - rewrite Z2Nat.id by lia. by rewrite (bool_decide_eq_true_2 (id ∈ set_insert id s)) by (apply elem_of_set_insert; auto).
  - intros j Hj. by rewrite in_insert by lia.
Qed.

Lemma mark_arrays_spec ids : forall s p a, is_set s -> ones s p -> ones s a ->
  Forall (fun id => 0 <= id < Z.of_nat n) ids ->
  exists p' a', mark_arrays ids (p, a, Z.of_nat (length s)) =
    Ok (p', a', Z.of_nat (length (set_insert_all ids s))) /\
    ones (set_insert_all ids s) p' /\ ones (set_insert_all ids s) a'.
Proof.
  induction ids as [|id ids IH]; intros s p a Hs Hp Ha Hids; [by exists p, a|].
  apply Forall_cons in Hids as [Hid Hids]. cbn [mark_arrays mark_array].
  rewrite (get_ones s p id) by done. cbn [mbind res_bind].
  pose proof (length_set_insert id s Hs) as Hl.
  destruct (decide (id ∈ s)) as [Hin|Hin].
  - rewrite !(bool_decide_eq_true_2 (id ∈ s)) in Hl |- * by done. cbn [Z.eqb mret res_ret].
    assert (ones_of (set_insert id s) n = ones_of s n) as E.
    { apply list_fmap_ext. intros _ i _. rewrite (bool_decide_ext _ (Z.of_nat i ∈ s)); [done|].
      rewrite elem_of_set_insert. naive_solver. }
    rewrite <- Hl. apply IH; [by apply set_insert_is_set|by unfold ones; rewrite E..|done].
  - rewrite !(bool_decide_eq_false_2 (id ∈ s)) in Hl |- * by done. cbn [Z.eqb].
    destruct (set_ones s p id) as (p' & -> & Hp'); [done..|].
    destruct (set_ones s a id) as (a' & -> & Ha'); [done..|]. cbn [mbind res_bind mret res_ret].
    replace (Z.of_nat (length s) + 1) with (Z.of_nat (length (set_insert id s))) by lia.
    apply IH; [by apply set_insert_is_set|done..].
Qed.

Lemma add_zeros_ok k : forall a : Array Z,
  CArray.count a + Z.of_nat k <= CArray.capacity a ->
  exists a', add_zeros k a = Ok a' /\ CArray.items a' = CArray.items a ++ replicate k 0.
Proof.
  induction k as [|k IH]; intros a Hk; cbn [add_zeros].
  - exists a. by rewrite app_nil_r.
  - unfold CArray.add. rewrite (proj2 (Z.ltb_lt _ _)) by lia. cbn [assert_ mbind res_bind].
    destruct (IH (mkArray (CArray.items a ++ [0]) (CArray.capacity a))) as (a' & E & Ha').
    { unfold CArray.count in *. cbn. rewrite length_app. cbn. lia. }
    exists a'. split; [done|]. rewrite Ha'. cbn. by rewrite <- app_assoc.
Qed.

End Agree.

Lemma ones_nil n (a : Array Z) : CArray.items a = replicate n 0 -> ones n [] a.
Proof.
  intros E. unfold ones, ones_of. rewrite E. apply list_eq. intros i.
  destruct (decide (i < n)%nat).
  - rewrite lookup_of by done. by rewrite lookup_replicate_2.
  - rewrite !lookup_ge_None_2; [done|rewrite length_fmap, length_seq; lia|rewrite length_replicate; lia].
Qed.

(** C31. The three computations of the nodes that take part in a query agree.
    For a query and a client message with the same parameters, whose warehouses
    lie on existing nodes: the set computed for the message has exactly the
    home warehouse's node and the nodes of the customer's or of the supplying
    warehouses; the flags computed for the query are set for exactly these
    nodes and their number is returned; and Calvin's two arrays hold one for
    exactly these nodes and zero for the others, with the same count. *)
Theorem participants_agree (g_num_wh g_part_cnt : Z) (g_node_cnt : nat) (GET_NODE_ID : Z -> Z)
    (q : TPCCQuery) (m : TPCCClientQueryMessage) (p a : Array Z) (ns : list Z)
    (Hm : (tcq_txn_type m, tcq_w_id m, tcq_c_w_id m, tcq_ol_cnt m, tcq_items m) =
          (q_txn_type q, q_w_id q, q_c_w_id q, q_ol_cnt q, q_items q))
    (Hns : visits g_num_wh g_part_cnt GET_NODE_ID (q_txn_type q) (q_w_id q) (q_c_w_id q) (q_ol_cnt q) (q_items q)
           = Ok ns)
    (Hrange : Forall (fun id => 0 <= id < Z.of_nat g_node_cnt) ns)
    (Hp : CArray.items p = [] /\ Z.of_nat g_node_cnt <= CArray.capacity p)
    (Ha : CArray.items a = [] /\ Z.of_nat g_node_cnt <= CArray.capacity a) :
  exists s p' a', is_set s /\ (forall id, id ∈ s <-> id ∈ ns) /\
    participants_msg g_num_wh g_part_cnt GET_NODE_ID m = Ok s /\
    participants g_num_wh g_part_cnt g_node_cnt GET_NODE_ID q = Ok (flags_of s g_node_cnt, Z.of_nat (length s)) /\
    get_participants g_num_wh g_part_cnt g_node_cnt GET_NODE_ID q p a = Ok (p', a', Z.of_nat (length s)) /\
    ones g_node_cnt s p' /\ ones g_node_cnt s a'.
Proof.
  injection Hm as E1 E2 E3 E4 E5.
  assert (exists h tl, ns = h :: tl /\ wh_node g_num_wh g_part_cnt GET_NODE_ID (q_w_id q) = Ok h /\
    forall st, (if q_txn_type q =? TPCC_PAYMENT then
       c ← wh_node g_num_wh g_part_cnt GET_NODE_ID (q_c_w_id q); mark_array c st
     else if q_txn_type q =? TPCC_NEW_ORDER then
       l ← supply_nodes g_num_wh g_part_cnt GET_NODE_ID (q_items q) 0 (Z.to_nat (q_ol_cnt q)); mark_arrays l st
     else mret st) = mark_arrays tl st) as (h & tl & -> & Eh & Hloop).
  { unfold visits in Hns. destruct (wh_node _ _ _ (q_w_id q)) as [h|]; [|done]. cbn in Hns. exists h.
    destruct (q_txn_type q =? TPCC_PAYMENT); [|destruct (q_txn_type q =? TPCC_NEW_ORDER); [|done]]; res_inv; subst.
    - eexists. split_and!; [done..|]. intros [[x y] z]. cbn [mbind res_bind mark_arrays].
      by destruct (mark_array _ _).
    - eexists. by split_and!. }
  exists (set_insert_all (h :: tl) []).
  apply Forall_cons in Hrange as [Hh Htl].
  destruct (add_zeros_ok g_node_cnt p) as (p0 & Ep & Hp0); [unfold CArray.count; destruct Hp as [-> ?]; cbn; lia|].
  destruct (add_zeros_ok g_node_cnt a) as (a0 & Ea & Ha0); [unfold CArray.count; destruct Ha as [-> ?]; cbn; lia|].
  destruct Hp as [Hp _], Ha as [Ha _]. rewrite Hp in Hp0. rewrite Ha in Ha0.
  assert (ones g_node_cnt [] p0) as Op by by apply ones_nil.
  assert (ones g_node_cnt [] a0) as Oa by by apply ones_nil.
  destruct (set_ones g_node_cnt [] p0 h Op Hh) as (p1 & Ep1 & Op1).
  destruct (set_ones g_node_cnt [] a0 h Oa Hh) as (a1 & Ea1 & Oa1).
  destruct (mark_arrays_spec g_node_cnt tl (set_insert h []) p1 a1) as (p2 & a2 & E2' & Op2 & Oa2);
    [apply set_insert_is_set, is_set_nil|done..|].
  exists p2, a2. split_and!.
  - apply set_insert_all_is_set, is_set_nil.
  - intros id. rewrite elem_of_set_insert_all. set_solver.
  - unfold participants_msg. by rewrite E1, E2, E3, E4, E5, Hns.
  - unfold participants. rewrite Hns. cbn [mbind res_bind].
    replace (replicate g_node_cnt false) with (flags_of [] g_node_cnt).
    + apply (mark_all_spec g_node_cnt (h :: tl) []); [apply is_set_nil|by constructor].
    + apply list_eq. intros i. unfold flags_of. destruct (decide (i < g_node_cnt)%nat).
      * rewrite lookup_of, lookup_replicate_2 by done. done.
      * rewrite !lookup_ge_None_2; [done|rewrite length_replicate; lia|rewrite length_fmap, length_seq; lia].
  - unfold get_participants, CArray.count. rewrite Hp, Ha. cbn [length Z.of_nat Z.eqb assert_ mbind res_bind].
    rewrite Ep, Ea. cbn [mbind res_bind]. rewrite Hp0, Ha0. cbn [app]. rewrite !length_replicate, !Z.eqb_refl.
    cbn [assert_ mbind res_bind]. rewrite Eh. cbn [mbind res_bind]. rewrite Ep1. cbn [mbind res_bind].
    rewrite Ea1. cbn [mbind res_bind]. rewrite (Hloop (p1, a1, 1)). exact E2'.
  - done.
  - done.
Qed.

(** Two warehouses on two nodes and a payment between them. *)
Module ParticipantsExample.
Definition q : TPCCQuery :=
  mkTPCCQ TPCC_PAYMENT 2 1 1 2 1 1 [] 0 false CArray.new false false 0 0 0 0 [] [].
Definition msg : Message := mkMessage CL_QRY 0 0 0 0 0 0 0 0 0 0 0 0 0.
Definition m : TPCCClientQueryMessage :=
  mkTPCCClientQuery (mkClientQuery msg 0 0 0 0 0 0 CArray.new)
    TPCC_PAYMENT 2 1 1 2 1 1 [] 0 false CArray.new false false 0 0.
End ParticipantsExample.

Lemma participants_agree_witness :
  participants 4 2 2 (fun p => p mod 2) ParticipantsExample.q = Ok ([true; true], 2).
Proof.
  destruct (participants_agree 4 2 2 (fun p => p mod 2) ParticipantsExample.q ParticipantsExample.m
              (CArray.mkArray [] 2) (CArray.mkArray [] 2) [1; 0]) as (s & _ & _ & Hs & Hin & _ & E & _);
    [reflexivity|reflexivity|repeat constructor; lia|split; [done|cbn; lia]..|].
  rewrite E. unfold flags_of. cbn [fmap list_fmap seq].
  rewrite !bool_decide_eq_true_2 by (apply Hin; set_solver).
  destruct s as [|x [|y [|z s]]].
  - exfalso. assert (0 ∈ @nil Z) by (apply Hin; set_solver). set_solver.
  - exfalso. assert (0 ∈ [x]) by (apply Hin; set_solver). assert (1 ∈ [x]) by (apply Hin; set_solver). set_solver.
  - done.
  - exfalso. apply StronglySorted_inv in Hs as [Hs Hx]. apply StronglySorted_inv in Hs as [_ Hy].
    assert (x ∈ [1; 0]) by (apply Hin; set_solver). assert (y ∈ [1; 0]) by (apply Hin; set_solver).
    assert (z ∈ [1; 0]) by (apply Hin; set_solver).
    rewrite Forall_forall in Hx, Hy. pose proof (Hx y). pose proof (Hy z). set_solver by lia.
Defined.

(** ** Generated queries *)

(** Draw from a range under [always]. *)
Ltac draw x Hx :=
  eapply always_bind; [apply URand_range; unfold UINT64_MAX; lia|]; intros x Hx; cbv beta in Hx.

Section Generated.
Context (rand : nat -> Z).
Context (g_num_wh g_part_cnt g_dist_per_wh g_cust_per_dist g_max_items g_max_items_per_txn : Z).
Context (g_part_per_txn : Z) (g_mpr : Z) (GET_NODE_ID : Z -> Z).
Context (junk : TPCCQuery).
(** The configuration makes sense: there are partitions, and no more than
    warehouses, and every count is a [UInt32]. *)
Context (parts : 0 < g_part_cnt <= g_num_wh) (wh32 : g_num_wh < 2 ^ 32)
  (dist32 : 1 <= g_dist_per_wh < 2 ^ 32) (cust32 : 1 <= g_cust_per_dist < 2 ^ 32)
  (items32 : 1 <= g_max_items < 2 ^ 32) (per_txn : 5 <= g_max_items_per_txn < 2 ^ 32).

Abbreviation always_some m Q := (always m (fun o => match o with Some x => Q x | None => True end)).
Definition part_of (w : Z) : Z := wrap64 (w - 1) mod g_part_cnt.

Lemma wh_to_part_of w : wh_to_part g_num_wh g_part_cnt w = Ok (part_of w).
Proof. unfold wh_to_part. by rewrite (proj2 (Z.leb_le _ _)) by lia. Qed.

Lemma always_lift {A} (r : res A) (a : A) (Q : A -> Prop) : r = Ok a -> Q a -> always (rlift r) Q.
Proof. intros -> Ha g Hg. by exists a, g. Qed.

Lemma always_redraw fuel one bad (R : Z -> Prop) (b : Z -> bool) :
  always one R -> (forall x, bad x = Ok (b x)) ->
  always_some (redraw fuel one bad) (fun x => R x /\ b x = false).
Proof.
  intros Hone Hbad. induction fuel as [|fuel IH]; cbn [redraw]; [by apply always_ret|].
  eapply always_bind; [exact Hone|]. intros x Hx.
  apply always_bind with (Q := fun y => y = b x); [by eapply always_lift|]. intros y ->.
  destruct (b x) eqn:E; [exact IH|by apply always_ret].
Qed.

Lemma always_with_value {A B} (m : Rnd (option A)) (k : A -> Rnd (option B)) (P : A -> Prop) (Q : B -> Prop) :
  always_some m P -> (forall x, P x -> always_some (k x) Q) -> always_some (with_value m k) Q.
Proof.
  intros Hm Hk. unfold with_value. eapply always_bind; [exact Hm|].
  intros [x|] Hx; [by apply Hk|by apply always_ret].
Qed.

Lemma home_warehouse_ok fuel home :
  always_some (home_warehouse rand g_num_wh g_part_cnt GET_NODE_ID fuel home)
    (fun w => 1 <= w <= g_num_wh /\ GET_NODE_ID (part_of w) = home).
Proof.
  unfold home_warehouse.
  assert (forall Q Q' : Z -> Prop, (forall x, Q x -> Q' x) -> forall m : Rnd (option Z),
    always_some m Q -> always_some m Q') as Hmono.
  { intros Q Q' HQ m Hm g Hg. destruct (Hm g Hg) as ([x|] & g' & ? & ? & ?); eauto 10. }
  eapply Hmono; [|apply always_redraw with (b := fun w => negb (GET_NODE_ID (part_of w) =? home))].
  - intros x [Hx Hb]. split; [exact Hx|]. cbn in Hb. bool_to_Z. done.
  - apply URand_range; unfold UINT64_MAX; lia.
  - intros x. by rewrite wh_to_part_of.
Qed.

(** What the query generator promises of one line of a new order, and of all. *)
Definition line_ok (accessed : list Z) (x : Item_no) : Prop :=
  1 <= ol_i_id x <= g_max_items /\ 1 <= ol_quantity x <= 10 /\
  1 <= ol_supply_w_id x <= g_num_wh /\ part_of (ol_supply_w_id x) ∈ accessed.

Record lines_ok (limit : Z) (w : Z) (items : Array Item_no) (accessed : list Z) : Prop := {
  lines_each : Forall (line_ok accessed) (CArray.items items);
  lines_distinct : NoDup (ol_i_id <$> CArray.items items);
  lines_set : is_set accessed;
  lines_limit : Z.of_nat (length accessed) <= Z.max 1 limit;
  lines_home : part_of w ∈ accessed;
}.

Lemma supply_warehouse_ok fuel w limit r_mpr r_rem accessed :
  1 <= w <= g_num_wh -> part_of w ∈ accessed -> is_set accessed ->
  Z.of_nat (length accessed) <= Z.max 1 limit ->
  always_some (supply_warehouse rand g_num_wh g_part_cnt g_mpr fuel w limit r_mpr r_rem accessed)
    (fun sa => 1 <= sa.1 <= g_num_wh /\ part_of sa.1 ∈ sa.2 /\ is_set sa.2 /\
       (forall p, p ∈ accessed -> p ∈ sa.2) /\ Z.of_nat (length sa.2) <= Z.max 1 limit).
Proof.
  intros Hw Hin Hset Hlen. unfold supply_warehouse. destruct (_ || _ || _)%bool; [by apply always_ret|].
  destruct (Z.ltb_spec (Z.of_nat (length accessed)) limit).
  - draw s Hs.
    apply always_bind with (Q := fun p => p = part_of s); [by apply always_lift with (a := part_of s); [apply wh_to_part_of|]|].
    intros p ->. apply always_ret. cbn. split_and!; [lia|lia|apply elem_of_set_insert; auto|by apply set_insert_is_set| |].
    + intros p Hp. apply elem_of_set_insert. auto.
    + rewrite length_set_insert by done. case_bool_decide; lia.
  - eapply always_with_value.
    + apply always_redraw with (b := fun s => negb (set_mem (part_of s) accessed)).
      * apply URand_range; unfold UINT64_MAX; lia.
      * intros x. by rewrite wh_to_part_of.
    + intros s [Hs Hb]. apply always_ret. cbn in Hb. apply negb_false_iff, set_mem_spec in Hb. cbn. auto.
Qed.

(** An item is ready to join lines whose items are [ids]. *)
Lemma lines_ok_add limit w items accessed accessed' i s q cap :
  lines_ok limit w (CArray.mkArray items cap) accessed ->
  1 <= i <= g_max_items -> i ∉ ol_i_id <$> items -> 1 <= q <= 10 -> 1 <= s <= g_num_wh ->
  part_of s ∈ accessed' -> is_set accessed' -> (forall p, p ∈ accessed -> p ∈ accessed') ->
  Z.of_nat (length accessed') <= Z.max 1 limit ->
  lines_ok limit w (CArray.mkArray (items ++ [mkItem i s q]) cap) accessed'.
Proof.
  intros [He Hd Hset Hl Hh] Hi Hni Hq Hs Hp Hset' Hsub Hl'. split; cbn in *; [| |done|done|auto].
  - apply Forall_app. split.
    + eapply Forall_impl; [exact He|]. intros x (? & ? & ? & ?). repeat split; auto; lia.
    + apply Forall_singleton. done.
  - rewrite fmap_app. apply NoDup_app. split_and!; [done| |apply NoDup_singleton].
    intros x Hx [-> |Hx']%elem_of_cons; [done|]. by apply not_elem_of_nil in Hx'.
Qed.

Lemma gen_items_ok fuel rounds w limit r_mpr : forall ids items accessed cap,
  1 <= w <= g_num_wh -> lines_ok limit w (CArray.mkArray items cap) accessed ->
  (forall i, i ∈ ids <-> i ∈ ol_i_id <$> items) ->
  Z.of_nat (length items + rounds) <= cap ->
  always_some (gen_items rand g_num_wh g_part_cnt g_max_items g_mpr fuel rounds w limit r_mpr ids
                 (CArray.mkArray items cap) accessed)
    (fun r => lines_ok limit w r.1 r.2 /\ length (CArray.items r.1) = (length items + rounds)%nat).
Proof.
  induction rounds as [|rounds IH]; intros ids items accessed cap Hw Hok Hids Hcap; cbn [gen_items].
  - apply always_ret. split; [done|cbn; lia].
  - apply always_with_value with (P := fun i => 1 <= i <= g_max_items /\ set_mem i ids = false).
    { apply always_redraw; [apply always_NURand; [tauto|lia..]|done]. }
    intros i [Hi Hni]. draw q Hq. eapply always_bind; [apply always_rand|]. intros r _.
    eapply always_with_value; [apply supply_warehouse_ok; [done|apply Hok..]|].
    intros [s acc] (Hs & Hp & Hset & Hsub & Hl). cbn [fst snd] in *.
    apply always_bind with (Q := fun a => a = CArray.mkArray (items ++ [mkItem i s q]) cap).
    { eapply always_lift; [|done]. unfold CArray.add, CArray.count. cbn.
      by rewrite (proj2 (Z.ltb_lt _ _)) by lia. }
    intros a ->.
    assert (i ∉ ol_i_id <$> items) as Hni'.
    { rewrite <- Hids, <- set_mem_spec. by rewrite Hni. }
    eapply always_mono; [apply IH|].
    + done.
    + by apply lines_ok_add with (accessed := accessed).
    + intros j. rewrite elem_of_set_insert, fmap_app, elem_of_app, Hids. cbn. set_solver.
    + rewrite length_app. cbn. lia.
    + intros [r'|]; [|done]. intros [? Hlen]. split; [done|]. rewrite Hlen, length_app. cbn. lia.
Qed.

(** C32. Whatever [rand] returns, a new order that the generator finishes is
    well formed: its home warehouse lies on the client's partition node, the
    district, the customer and the number of lines are in their ranges, there
    are as many lines as it says, their items are distinct and in range, the
    quantities are from one to ten, every supplying warehouse exists, the
    partitions of the query are a set that contains the home partition and that
    of every line, and they are at most the configured number of partitions
    per transaction.  No assertion fails on the way. *)
Theorem gen_new_order_ok (fuel : nat) (home : Z) :
  always (gen_new_order rand g_num_wh g_part_cnt g_dist_per_wh g_cust_per_dist g_max_items
            g_max_items_per_txn g_part_per_txn g_mpr GET_NODE_ID junk fuel home)
    (fun o => match o with
     | None => True
     | Some q =>
         q_txn_type q = TPCC_NEW_ORDER /\
         1 <= q_w_id q <= g_num_wh /\ GET_NODE_ID (part_of (q_w_id q)) = home /\
         1 <= q_d_id q <= g_dist_per_wh /\ 1 <= q_c_id q <= g_cust_per_dist /\
         5 <= q_ol_cnt q <= g_max_items_per_txn /\
         Z.of_nat (length (CArray.items (q_items q))) = q_ol_cnt q /\
         lines_ok g_part_per_txn (q_w_id q) (q_items q) (q_partitions q)
     end).
Proof.
  unfold gen_new_order. eapply always_with_value; [apply home_warehouse_ok|].
  intros w [Hw Hnode]. draw d Hd.
  eapply always_bind; [apply always_NURand; [tauto|lia..]|]. intros c Hc. cbv beta in Hc. draw n Hn.
  apply always_bind with (Q := fun p => p = part_of w); [by apply always_lift with (a := part_of w); [apply wh_to_part_of|]|].
  intros p ->. eapply always_bind; [apply always_rand|]. intros r _. cbv zeta.
  set (limit := if f64_ltb _ _ then _ else _).
  assert (Z.max 1 limit <= Z.max 1 g_part_per_txn) as Hlimit by (unfold limit; case_match; lia).
  eapply always_with_value; [apply gen_items_ok|].
  - done.
  - split; cbn; [constructor|constructor|repeat constructor|lia|left].
  - done.
  - cbn. lia.
  - intros [items acc] [Hok Hlen]. apply always_ret. cbn in Hlen. cbn [q_txn_type q_w_id q_d_id q_c_id q_ol_cnt q_items q_partitions fst snd].
    cbn [fst snd] in Hok. split_and!; try done; try lia. destruct Hok as [? ? ? Hl ?]. split; [done..|lia|done].
Qed.

(** The loops that draw again end with the first value that fits: [n] draws
    that do not, then one that does, need fuel [n + 1]. *)
Inductive fits_after (one : Rnd Z) (bad : Z -> res bool) : nat -> Gen -> Prop :=
| fits_now g x g' : one g = Ok (x, g') -> bad x = Ok false -> fits_after one bad 0 g
| fits_later n g x g' : one g = Ok (x, g') -> bad x = Ok true -> fits_after one bad n g' ->
    fits_after one bad (S n) g.

Lemma redraw_finds one bad n g fuel :
  fits_after one bad n g -> (n < fuel)%nat ->
  exists x g', redraw fuel one bad g = Ok (Some x, g') /\ bad x = Ok false.
Proof.
  intros Hf. revert fuel. induction Hf as [g x g' E Hb|n g x g' E Hb Hf IH]; intros [|fuel] Hn; try lia;
    cbn [redraw]; unfold mbind, Rnd_bind, rlift; rewrite E, Hb; cbn.
  - eauto.
  - apply IH. lia.
Qed.

(** A payment is always made at home, by a customer number: the branches for a
    remote warehouse and for a last name are dead. *)
Lemma ratio_nonneg r : f64_leb (f64_of_uint 0) (ratio (r mod 10000) 10000) = true.
Proof.
  assert (forallb (fun k => f64_leb (f64_of_uint 0) (ratio (Z.of_nat k) 10000)) (seq 0 (Z.to_nat 10000)) = true)
    as Hall by by vm_compute.
  rewrite forallb_forall in Hall. pose proof (Z.mod_pos_bound r 10000 ltac:(lia)).
  specialize (Hall (Z.to_nat (r mod 10000))). rewrite Z2Nat.id in Hall by lia. apply Hall.
  apply (proj2 (in_seq _ _ _)). lia.
Qed.

Lemma gen_payment_home (fuel : nat) (home : Z) :
  always (gen_payment rand g_num_wh g_part_cnt g_dist_per_wh g_cust_per_dist GET_NODE_ID junk fuel home)
    (fun o => match o with
     | None => True
     | Some q => q_txn_type q = TPCC_PAYMENT /\ GET_NODE_ID (part_of (q_w_id q)) = home /\
         1 <= q_d_id q <= g_dist_per_wh /\ 1 <= q_c_id q <= g_cust_per_dist /\
         q_d_w_id q = q_w_id q /\ q_c_w_id q = q_w_id q /\ q_c_d_id q = q_d_id q /\
         q_by_last_name q = false /\ q_partitions q = [part_of (q_w_id q)]
     end).
Proof.
  unfold gen_payment. eapply always_with_value; [apply home_warehouse_ok|]. intros w [Hw Hnode].
  apply always_bind with (Q := fun p => p = part_of w); [by apply always_lift with (a := part_of w); [apply wh_to_part_of|]|].
  intros p ->. draw d Hd. draw h Hh. eapply always_bind; [apply always_rand|]. intros r _. draw y Hy.
  unfold customer_home. rewrite ratio_nonneg.
  apply always_with_value with (P := fun home => home = (d, w, [part_of w])); [by apply always_ret|].
  intros ? ->. unfold customer_name. rewrite (proj2 (Z.ltb_ge _ _)) by lia.
  apply always_bind with (Q := fun n => n.1 = (q_c_last junk, false) /\ 1 <= n.2 <= g_cust_per_dist).
  { eapply always_bind; [apply always_NURand; [tauto|lia..]|]. intros c Hc. by apply always_ret. }
  intros [[l b] c] [[= -> ->] Hc]. cbn in Hc. apply always_ret. cbn. split_and!; done || lia.
Qed.
End Generated.

(** A configuration and a run of the generator that finishes. *)
Lemma gen_new_order_ok_witness :
  exists q g, gen_new_order (fun n => 7919 * Z.of_nat n + 13) 4 2 10 3000 1000 10 2 0 (fun p => p)
      ParticipantsExample.q 3 1 gen_init = Ok (Some q, g) /\
    q_w_id q = 2 /\ length (CArray.items (q_items q)) = 7%nat /\ NoDup (ol_i_id <$> CArray.items (q_items q)).
Proof.
  destruct (gen_new_order_ok (fun n => 7919 * Z.of_nat n + 13) 4 2 10 3000 1000 10 2 0 (fun p => p)
    ParticipantsExample.q) with (fuel := 3%nat) (home := 1) (g := gen_init)
    as ([q|] & g & E & _ & Hq); try lia; [by split| |].
  - exists q, g. split; [done|]. destruct Hq as (_ & _ & _ & _ & _ & _ & _ & Hl). destruct Hl as [_ Hd _ _ _].
    split_and!; [..|exact Hd]; clear Hd; revert E; vm_compute; by intros [= <- <-].
  - exfalso. revert E. by vm_compute.
Defined.
