(* ===== verification/TpccSchema.v ===== *)
(** * TpccSchema: the tables of TPC-C

    The catalogs that [Workload::init_schema] (system/wl.cpp) builds from
    benchmarks/TPCC_short_schema.txt with the operations of [RowData]
    (TPCC_SMALL is on in config.h), and the column numbers of
    benchmarks/tpcc_const.h. *)

From stdpp Require Import base tactics numbers list strings.
From Stdlib Require Import ZArith Lia.
From S2P Require Import Prelude RowData.
#[local] Open Scope Z_scope.
#[local] Open Scope string_scope.

(** [schema->init] and [add_col] for each line of a table. *)
Definition table_schema (name : string) (id : Z) (cols : list (string * Z * string)) : res Catalog :=
  add_cols cols (Catalog_init name id (length cols)).

(** Number [id] counts the tables of the file. *)
Definition schema_lines : list (string * list (string * Z * string)) :=
  [("WAREHOUSE", [("W_ID", 8%Z, "int64_t"); ("W_NAME", 10%Z, "string"); ("W_STREET_1", 20%Z, "string");
     ("W_STREET_2", 20%Z, "string"); ("W_CITY", 20%Z, "string"); ("W_STATE", 2%Z, "string");
     ("W_ZIP", 9%Z, "string"); ("W_TAX", 8%Z, "double"); ("W_YTD", 8%Z, "double")]);
   ("DISTRICT", [("D_ID", 8%Z, "int64_t"); ("D_W_ID", 8%Z, "int64_t"); ("D_NAME", 10%Z, "string");
     ("D_STREET_1", 20%Z, "string"); ("D_STREET_2", 20%Z, "string"); ("D_CITY", 20%Z, "string");
     ("D_STATE", 2%Z, "string"); ("D_ZIP", 9%Z, "string"); ("D_TAX", 8%Z, "double");
     ("D_YTD", 8%Z, "double"); ("D_NEXT_O_ID", 8%Z, "int64_t")]);
   ("CUSTOMER", [("C_ID", 8%Z, "int64_t"); ("C_D_ID", 8%Z, "int64_t"); ("C_W_ID", 8%Z, "int64_t");
     ("C_MIDDLE", 2%Z, "string"); ("C_LAST", 16%Z, "string"); ("C_STATE", 2%Z, "string");
     ("C_CREDIT", 2%Z, "string"); ("C_DISCOUNT", 8%Z, "int64_t"); ("C_BALANCE", 8%Z, "double");
     ("C_YTD_PAYMENT", 8%Z, "double"); ("C_PAYMENT_CNT", 8%Z, "uint64_t")]);
   ("HISTORY", [("H_C_ID", 8%Z, "int64_t"); ("H_C_D_ID", 8%Z, "int64_t"); ("H_C_W_ID", 8%Z, "int64_t");
     ("H_D_ID", 8%Z, "int64_t"); ("H_W_ID", 8%Z, "int64_t"); ("H_DATE", 8%Z, "int64_t");
     ("H_AMOUNT", 8%Z, "double")]);
   ("NEW-ORDER", [("NO_O_ID", 8%Z, "int64_t"); ("NO_D_ID", 8%Z, "int64_t"); ("NO_W_ID", 8%Z, "int64_t")]);
   ("ORDER", [("O_ID", 8%Z, "int64_t"); ("O_C_ID", 8%Z, "int64_t"); ("O_D_ID", 8%Z, "int64_t");
     ("O_W_ID", 8%Z, "int64_t"); ("O_ENTRY_D", 8%Z, "int64_t"); ("O_CARRIER_ID", 8%Z, "int64_t");
     ("O_OL_CNT", 8%Z, "int64_t"); ("O_ALL_LOCAL", 8%Z, "int64_t")]);
   ("ORDER-LINE", [("OL_O_ID", 8%Z, "int64_t"); ("OL_D_ID", 8%Z, "int64_t"); ("OL_W_ID", 8%Z, "int64_t");
     ("OL_NUMBER", 8%Z, "int64_t"); ("OL_I_ID", 8%Z, "int64_t")]);
   ("ITEM", [("I_ID", 8%Z, "int64_t"); ("I_IM_ID", 8%Z, "int64_t"); ("I_NAME", 24%Z, "string");
     ("I_PRICE", 8%Z, "int64_t"); ("I_DATA", 50%Z, "string")]);
   ("STOCK", [("S_I_ID", 8%Z, "int64_t"); ("S_W_ID", 8%Z, "int64_t"); ("S_QUANTITY", 8%Z, "int64_t");
     ("S_REMOTE_CNT", 8%Z, "int64_t")])].

(** A table of the file, as a value. *)
Definition get_table (n : nat) : Catalog :=
  match schema_lines !! n with
  | Some (name, cols) =>
      match table_schema name (Z.of_nat n) cols with Ok c => c | AssertFail => Catalog_init name 0 0 end
  | None => Catalog_init "" 0 0
  end.
Definition t_warehouse : Catalog := Eval vm_compute in get_table 0.
Definition t_district : Catalog := Eval vm_compute in get_table 1.
Definition t_customer : Catalog := Eval vm_compute in get_table 2.
Definition t_history : Catalog := Eval vm_compute in get_table 3.
Definition t_neworder : Catalog := Eval vm_compute in get_table 4.
Definition t_order : Catalog := Eval vm_compute in get_table 5.
Definition t_orderline : Catalog := Eval vm_compute in get_table 6.
Definition t_item : Catalog := Eval vm_compute in get_table 7.
Definition t_stock : Catalog := Eval vm_compute in get_table 8.

(** ** Columns (tpcc_const.h) *)

Definition W_ID : nat := 0.
Definition W_TAX : nat := 7.
Definition W_YTD : nat := 8.
Definition D_ID : nat := 0.
Definition D_W_ID : nat := 1.
Definition D_YTD : nat := 9.
Definition D_NEXT_O_ID : nat := 10.
Definition C_DISCOUNT : nat := 7.
Definition C_BALANCE : nat := 8.
Definition C_YTD_PAYMENT : nat := 9.
Definition C_PAYMENT_CNT : nat := 10.
Definition H_C_ID : nat := 0.
Definition H_C_D_ID : nat := 1.
Definition H_C_W_ID : nat := 2.
Definition H_D_ID : nat := 3.
Definition H_W_ID : nat := 4.
Definition H_DATE : nat := 5.
Definition H_AMOUNT : nat := 6.
Definition NO_O_ID : nat := 0.
Definition NO_D_ID : nat := 1.
Definition NO_W_ID : nat := 2.
Definition O_ID : nat := 0.
Definition O_C_ID : nat := 1.
Definition O_D_ID : nat := 2.
Definition O_W_ID : nat := 3.
Definition O_ENTRY_D : nat := 4.
Definition O_OL_CNT : nat := 6.
Definition O_ALL_LOCAL : nat := 7.
Definition OL_O_ID : nat := 0.
Definition OL_D_ID : nat := 1.
Definition OL_W_ID : nat := 2.
Definition OL_NUMBER : nat := 3.
Definition OL_I_ID : nat := 4.
Definition I_PRICE : nat := 3.
Definition S_QUANTITY : nat := 2.
Definition S_REMOTE_CNT : nat := 3.

(** ** The catalogs are well formed *)

Lemma add_cols_wf cols : forall c c',
  catalog_wf c -> Forall (fun x => 0 <= x.1.2)%Z cols ->
  (tuple_size c + foldr (fun x n => x.1.2 + n) 0 cols < 2 ^ 32)%Z ->
  add_cols cols c = Ok c' -> catalog_wf c'.
Proof.
  induction cols as [|[[name size] type] cols IH]; intros c c' Hwf Hpos Hfit H; cbn in *; [by injection H as <-|].
  destruct (add_col name size type c) as [c1|] eqn:E; [|done]. cbn in H.
  apply Forall_cons in Hpos as [Hs Hpos]. cbn in Hs.
  assert (forall l : list (string * Z * string), Forall (fun x => 0 <= x.1.2)%Z l ->
    (0 <= foldr (fun x n => x.1.2 + n) 0 l)%Z) as Hsum.
  { induction 1; cbn in *; lia. }
  specialize (Hsum cols Hpos).
  apply catalog_wf_add_col in E as [Hwf1 Hsz]; [|done|lia|lia].
  eapply IH; [exact Hwf1|done| |exact H]. lia.
Qed.

Definition all_tables : list Catalog :=
  [t_warehouse; t_district; t_customer; t_history; t_neworder; t_order; t_orderline; t_item; t_stock].

(** The nine tables are what [init_schema] makes of the file, which it does
    without an error, and their columns do not overlap. *)
Lemma tables_built :
  Forall2 (fun l c => exists id, table_schema l.1 id l.2 = Ok c) schema_lines all_tables.
Proof.
  repeat constructor; match goal with |- exists id, _ = Ok ?c => exists (table_id c) end; by vm_compute.
Qed.

Lemma tables_wf : Forall catalog_wf all_tables.
Proof.
  assert (Forall (fun l => Forall (fun x => 0 <= x.1.2)%Z l.2 /\
    (foldr (fun x n => x.1.2 + n) 0 l.2 < 2 ^ 32)%Z) schema_lines) as Hl
    by (repeat constructor; vm_compute; congruence || done).
  pose proof tables_built as Hb. revert Hl Hb. generalize schema_lines all_tables.
  intros ls cs Hl Hb. induction Hb as [|l c ls cs [id H] Hb IH]; constructor.
  - apply Forall_cons in Hl as [[Hpos Hsum] _]. unfold table_schema in H.
    eapply add_cols_wf; [apply catalog_wf_init|exact Hpos| |exact H]. cbn. lia.
  - apply IH. by apply Forall_cons in Hl as [_ Hl].
Qed.
