(* ===== verification/TpccTxn.v ===== *)
(** * TpccTxn: the TPC-C transactions

    Model of [TPCCTxnManager] (benchmarks/tpcc_txn.cpp): the state machine of
    payment and new order, the steps that find, read and write rows, requests
    to other nodes with their items, and the loop of [run_txn].  Rows and the
    access list are those of [TxnAccess], for every value of CC_ALG; tables are
    those of [TpccSchema]; indexes are reached through the class [RowIndex].
    The decision that follows the loop (commit or abort, see [TwoPC]) is the
    result.  The order of the steps, their early returns and assertions are the
    code's; statistics are left out.  TPCC_SMALL is on and MIGRATION is off. *)

From stdpp Require Import base tactics numbers list gmap.
From Stdlib Require Import ZArith Lia.
From S2P Require Import Prelude Wire CArray Message QueryMessage RowData TxnAccess TpccKeys TpccQuery TpccSchema.
#[local] Open Scope Z_scope.

(** [enum TPCCRemTxnType] of tpcc.h. *)
Inductive TPCCRemTxnType :=
| TPCC_PAYMENT_S | TPCC_PAYMENT0 | TPCC_PAYMENT1 | TPCC_PAYMENT2 | TPCC_PAYMENT3 | TPCC_PAYMENT4
| TPCC_PAYMENT5 | TPCC_NEWORDER_S | TPCC_NEWORDER0 | TPCC_NEWORDER1 | TPCC_NEWORDER2 | TPCC_NEWORDER3
| TPCC_NEWORDER4 | TPCC_NEWORDER5 | TPCC_NEWORDER6 | TPCC_NEWORDER7 | TPCC_NEWORDER8 | TPCC_NEWORDER9
| TPCC_FIN | TPCC_RDONE.
#[global] Instance TPCCRemTxnType_eq_dec : EqDecision TPCCRemTxnType.
Proof. solve_decision. Defined.

Definition tpcc_states : list TPCCRemTxnType :=
  [TPCC_PAYMENT_S; TPCC_PAYMENT0; TPCC_PAYMENT1; TPCC_PAYMENT2; TPCC_PAYMENT3; TPCC_PAYMENT4;
   TPCC_PAYMENT5; TPCC_NEWORDER_S; TPCC_NEWORDER0; TPCC_NEWORDER1; TPCC_NEWORDER2; TPCC_NEWORDER3;
   TPCC_NEWORDER4; TPCC_NEWORDER5; TPCC_NEWORDER6; TPCC_NEWORDER7; TPCC_NEWORDER8; TPCC_NEWORDER9;
   TPCC_FIN; TPCC_RDONE].

(** ** Indexes *)

Inductive index_name := i_warehouse | i_district | i_customer_id | i_customer_last | i_item | i_stock.

(** [index_read(key, item, part)]: the rows of the chain found for a key. *)
Class RowIndex := { index_read : index_name -> Z -> Z -> res (list Z) }.

(** The loop that looks for the middle of a chain: [it] is what is left of it,
    [mid] a suffix of it. *)
Fixpoint mid_loop (cnt : nat) (it mid : list Z) : list Z :=
  match it with
  | [] => mid
  | _ :: it' => mid_loop (S cnt) it' (if Nat.even (S cnt) then tail mid else mid)
  end.

(** ** The transaction manager *)

Record TpccSt := mkTpcc {
  txn : TxnSt;
  query : TPCCQuery;
  state : TPCCRemTxnType;
  row : option Z;
  next_item_id : Z;
  out : list (Z * TPCCQueryMessage);
}.
Definition set_txn (t : TxnSt) (s : TpccSt) : TpccSt :=
  mkTpcc t (query s) (state s) (row s) (next_item_id s) (out s).
Definition set_query (q : TPCCQuery) (s : TpccSt) : TpccSt :=
  mkTpcc (txn s) q (state s) (row s) (next_item_id s) (out s).
Definition set_state (t : TPCCRemTxnType) (s : TpccSt) : TpccSt :=
  mkTpcc (txn s) (query s) t (row s) (next_item_id s) (out s).
Definition set_row (r : option Z) (s : TpccSt) : TpccSt :=
  mkTpcc (txn s) (query s) (state s) r (next_item_id s) (out s).
Definition set_next_item_id (n : Z) (s : TpccSt) : TpccSt :=
  mkTpcc (txn s) (query s) (state s) (row s) n (out s).
Definition add_out (m : Z * TPCCQueryMessage) (s : TpccSt) : TpccSt :=
  mkTpcc (txn s) (query s) (state s) (row s) (next_item_id s) (out s ++ [m]).

Definition set_o_id (o : Z) (q : TPCCQuery) : TPCCQuery :=
  mkTPCCQ (q_txn_type q) (q_w_id q) (q_d_id q) (q_c_id q) (q_d_w_id q) (q_c_w_id q) (q_c_d_id q)
    (q_c_last q) (q_h_amount q) (q_by_last_name q) (q_items q) (q_rbk q) (q_remote q) (q_ol_cnt q)
    (q_o_entry_d q) (q_ol_amount q) o (q_partitions q) (q_partitions_touched q).
Definition touch (p : Z) (q : TPCCQuery) : TPCCQuery :=
  mkTPCCQ (q_txn_type q) (q_w_id q) (q_d_id q) (q_c_id q) (q_d_w_id q) (q_c_w_id q) (q_c_d_id q)
    (q_c_last q) (q_h_amount q) (q_by_last_name q) (q_items q) (q_rbk q) (q_remote q) (q_ol_cnt q)
    (q_o_entry_d q) (q_ol_amount q) (q_o_id q) (q_partitions q)
    (if bool_decide (p ∈ q_partitions_touched q) then q_partitions_touched q
     else q_partitions_touched q ++ [p]).

Abbreviation TP := (ST TpccSt).

(** A step of the access list. *)
Definition on_txn {A} (m : T A) : TP A := fun s =>
  match m (txn s) with Ok (a, t) => Ok (a, set_txn t s) | AssertFail => AssertFail end.

Section Tpcc.
Context `{!Config} `{!RowIndex}.
Context (junk : nat -> Z) (max_accesses max_inserts : nat).
Context (g_dist_per_wh g_cust_per_dist g_max_items g_num_wh g_part_cnt : Z) (g_wh_update : bool).
(** The partition map; the identifier of the transaction; what
    [QueryMessage::copy_from_txn] puts into a message; and the variables
    [row_id], which the code passes without a value. *)
Context (GET_NODE_ID : Z -> Z) (txn_id : Z) (base : QueryMessage) (row_id : Z).

Abbreviation wh_to_part := (wh_to_part g_num_wh g_part_cnt).
Abbreviation distKey := (distKey g_dist_per_wh).
Abbreviation custKey := (custKey g_dist_per_wh g_cust_per_dist).
Abbreviation custNPKey := (custNPKey g_dist_per_wh).
Abbreviation stockKey := (stockKey g_max_items).
Abbreviation get_row := (get_row junk max_accesses).

Definition is_local : bool := IS_LOCAL txn_id.
(** [GET_NODE_ID(wh_to_part(w)) == g_node_id]. *)
Definition wh_local (w : Z) : res bool := p ← wh_to_part w; mret (GET_NODE_ID p =? g_node_id).

(** [item = index_read(...)], [assert(item != NULL)]. *)
Definition read_index (i : index_name) (key part : Z) : TP (list Z) :=
  chain ← slift (index_read i key part);
  sassert (negb (bool_decide (chain = [])));;;
  mret chain.

(** [rc = get_row(r, type, local)] with [row] as the local reference. *)
Definition get_row_into (r : Z) (type : access_t) : TP RC :=
  x ← on_txn (get_row r type); smod (set_row x.2);;; mret x.1.

(** The first row of a chain, and the one in its middle. *)
Definition first_row (chain : list Z) : TP Z := deref (head chain).
Definition mid_row (chain : list Z) : TP Z := deref (head (mid_loop 0 chain chain)).

(** The object that the local reference points to. *)
Definition local_row : TP Z := s ← sget; deref (row s).
Definition get_field (r : Z) (id : nat) : TP Z := on_txn (fetch r id).
Definition set_field (r : Z) (id : nat) (v : Z) : TP unit := on_txn (put r id v).

(** [table->get_new_row(r, part, row_id)], the columns, [insert_row]. *)
Definition set_fields (r : Z) : list (nat * Z) -> TP unit :=
  fix go l := match l with [] => mret tt | (id, v) :: l' => set_field r id v;;; go l' end.
Definition insert_new (c : Catalog) (part : Z) (fields : list (nat * Z)) : TP unit :=
  r ← on_txn (alloc_row junk c part row_id);
  set_fields r fields;;;
  on_txn (insert_row max_inserts r).

(** ** Payment *)

Definition run_payment_0 (w_id : Z) : TP RC :=
  p ← slift (wh_to_part w_id);
  chain ← read_index i_warehouse w_id p;
  r ← first_row chain;
  get_row_into r (if g_wh_update then WR else RD).

Definition run_payment_1 (h_amount : Z) : TP RC :=
  r ← local_row;
  w_ytd ← get_field r W_YTD;
  (if g_wh_update then set_field r W_YTD (f64_add w_ytd h_amount) else mret tt);;;
  mret RCOK.

Definition run_payment_2 (w_id d_id d_w_id : Z) : TP RC :=
  p ← slift (wh_to_part w_id);
  chain ← read_index i_district (distKey d_id d_w_id) p;
  r ← first_row chain;
  get_row_into r RD.

Definition run_payment_3 (h_amount : Z) : TP RC :=
  r ← local_row;
  d_ytd ← get_field r D_YTD;
  set_field r D_YTD (f64_add d_ytd h_amount);;;
  mret RCOK.

(** The row of the customer, by last name or by number. *)
Definition find_customer (c_id c_w_id c_d_id : Z) (c_last : list Z) (by_last_name : bool) : TP Z :=
  if by_last_name then
    key ← slift (custNPKey c_last c_d_id c_w_id);
    p ← slift (wh_to_part c_w_id);
    chain ← read_index i_customer_last key p;
    mid_row chain
  else
    p ← slift (wh_to_part c_w_id);
    chain ← read_index i_customer_id (custKey c_id c_d_id c_w_id) p;
    first_row chain.

Definition run_payment_4 (c_id c_w_id c_d_id : Z) (c_last : list Z) (by_last_name : bool) : TP RC :=
  r ← find_customer c_id c_w_id c_d_id c_last by_last_name;
  get_row_into r RD.

Definition run_payment_5 (w_id d_id c_id c_w_id c_d_id h_amount : Z) : TP RC :=
  r ← local_row;
  c_balance ← get_field r C_BALANCE;
  set_field r C_BALANCE (f64_sub c_balance h_amount);;;
  c_ytd_payment ← get_field r C_YTD_PAYMENT;
  set_field r C_YTD_PAYMENT (f64_add c_ytd_payment h_amount);;;
  c_payment_cnt ← get_field r C_PAYMENT_CNT;
  set_field r C_PAYMENT_CNT (f64_add c_payment_cnt (f64_of_uint 1));;;
  p ← slift (wh_to_part c_w_id);
  insert_new t_history p
    [(H_C_ID, c_id); (H_C_D_ID, c_d_id); (H_C_W_ID, c_w_id); (H_D_ID, d_id); (H_W_ID, w_id);
     (H_DATE, 2013); (H_AMOUNT, h_amount)];;;
  mret RCOK.

(** ** New order *)

Definition new_order_0 (w_id : Z) : TP RC :=
  p ← slift (wh_to_part w_id);
  chain ← read_index i_warehouse w_id p;
  r ← first_row chain;
  get_row_into r RD.

Definition new_order_1 : TP RC := r ← local_row; _ ← get_field r W_TAX; mret RCOK.

Definition new_order_2 (w_id d_id c_id : Z) : TP RC :=
  p ← slift (wh_to_part w_id);
  chain ← read_index i_customer_id (custKey c_id d_id w_id) p;
  r ← first_row chain;
  get_row_into r RD.

Definition new_order_3 : TP RC := r ← local_row; _ ← get_field r C_DISCOUNT; mret RCOK.

Definition new_order_4 (w_id d_id : Z) : TP RC :=
  p ← slift (wh_to_part w_id);
  chain ← read_index i_district (distKey d_id w_id) p;
  r ← first_row chain;
  get_row_into r RD.

(** The order number goes to the query. *)
Definition new_order_5 (w_id d_id c_id : Z) (remote : bool) (ol_cnt o_entry_d : Z) : TP RC :=
  r ← local_row;
  d_next_o_id ← get_field r D_NEXT_O_ID;
  smod (fun s => set_query (set_o_id (wrap64 (d_next_o_id + 1)) (query s)) s);;;
  s ← sget;
  let o_id := q_o_id (query s) in
  set_field r D_NEXT_O_ID o_id;;;
  p ← slift (wh_to_part w_id);
  insert_new t_order p
    [(O_ID, o_id); (O_C_ID, c_id); (O_D_ID, d_id); (O_W_ID, w_id); (O_ENTRY_D, o_entry_d);
     (O_OL_CNT, ol_cnt); (O_ALL_LOCAL, if remote then 0 else 1)];;;
  insert_new t_neworder p [(NO_O_ID, o_id); (NO_D_ID, d_id); (NO_W_ID, w_id)];;;
  mret RCOK.

(** The item table is at part 0. *)
Definition new_order_6 (ol_i_id : Z) : TP RC :=
  chain ← read_index i_item ol_i_id 0;
  r ← first_row chain;
  get_row_into r RD.

Definition new_order_7 : TP RC := r ← local_row; _ ← get_field r I_PRICE; mret RCOK.

Definition new_order_8 (ol_i_id ol_supply_w_id : Z) : TP RC :=
  p ← slift (wh_to_part ol_supply_w_id);
  chain ← read_index i_stock (stockKey ol_i_id ol_supply_w_id) p;
  r ← first_row chain;
  get_row_into r RD.

(** The new quantity of a stock row. *)
Definition new_quantity (s_quantity ol_quantity : Z) : Z :=
  if wrap64 (ol_quantity + 10) <? s_quantity then wrap64 (s_quantity - ol_quantity)
  else wrap64 (wrap64 (s_quantity - ol_quantity) + 91).

Definition new_order_9 (w_id d_id : Z) (remote : bool) (ol_i_id ol_supply_w_id ol_quantity ol_number o_id : Z)
  : TP RC :=
  r ← local_row;
  s_quantity ← get_field r S_QUANTITY;
  (if remote then c ← get_field r S_REMOTE_CNT; set_field r S_REMOTE_CNT (wrap64 (c + 1)) else mret tt);;;
  set_field r S_QUANTITY (new_quantity s_quantity ol_quantity);;;
  p ← slift (wh_to_part ol_supply_w_id);
  insert_new t_orderline p
    [(OL_O_ID, o_id); (OL_D_ID, d_id); (OL_W_ID, w_id); (OL_NUMBER, ol_number); (OL_I_ID, ol_i_id)];;;
  mret RCOK.

(** ** The state machine *)

(** [items.size()]. *)
Definition items_size (q : TPCCQuery) : Z := CArray.count (q_items q).

Definition is_done (s : TpccSt) : res bool :=
  if q_txn_type (query s) =? TPCC_PAYMENT then Ok (bool_decide (state s = TPCC_FIN))
  else if q_txn_type (query s) =? TPCC_NEW_ORDER then
    Ok ((items_size (query s) <=? next_item_id s) || bool_decide (state s = TPCC_FIN))
  else AssertFail.

(** [if(!IS_LOCAL(txn->txn_id) || !is_done())]. *)
Definition more_items (s : TpccSt) : res bool :=
  if negb is_local then Ok true else d ← is_done s; mret (negb d).

Definition next_tpcc_state : TP unit :=
  s ← sget;
  match state s with
  | TPCC_PAYMENT_S => smod (set_state TPCC_PAYMENT0)
  | TPCC_PAYMENT0 => smod (set_state TPCC_PAYMENT1)
  | TPCC_PAYMENT1 => smod (set_state TPCC_PAYMENT2)
  | TPCC_PAYMENT2 => smod (set_state TPCC_PAYMENT3)
  | TPCC_PAYMENT3 => smod (set_state TPCC_PAYMENT4)
  | TPCC_PAYMENT4 => smod (set_state TPCC_PAYMENT5)
  | TPCC_PAYMENT5 => smod (set_state TPCC_FIN)
  | TPCC_NEWORDER_S => smod (set_state TPCC_NEWORDER0)
  | TPCC_NEWORDER0 => smod (set_state TPCC_NEWORDER1)
  | TPCC_NEWORDER1 => smod (set_state TPCC_NEWORDER2)
  | TPCC_NEWORDER2 => smod (set_state TPCC_NEWORDER3)
  | TPCC_NEWORDER3 => smod (set_state TPCC_NEWORDER4)
  | TPCC_NEWORDER4 => smod (set_state TPCC_NEWORDER5)
  | TPCC_NEWORDER5 =>
      b ← slift (more_items s); smod (set_state (if (b : bool) then TPCC_NEWORDER6 else TPCC_FIN))
  | TPCC_NEWORDER6 => smod (set_state TPCC_NEWORDER7)
  | TPCC_NEWORDER7 => smod (set_state TPCC_NEWORDER8)
  | TPCC_NEWORDER8 => smod (set_state TPCC_NEWORDER9)
  | TPCC_NEWORDER9 =>
      smod (fun s => set_next_item_id (wrap64 (next_item_id s + 1)) s);;;
      s ← sget;
      b ← slift (more_items s); smod (set_state (if (b : bool) then TPCC_NEWORDER6 else TPCC_FIN))
  | TPCC_FIN => mret tt
  | TPCC_RDONE => sassert false
  end.

Definition is_local_item (idx : Z) (q : TPCCQuery) : res bool :=
  x ← CArray.get (q_items q) idx; wh_local (ol_supply_w_id x).

(** ** Requests to other nodes *)

(** The loop of [copy_remote_items] over the items from [next_item_id] on: the
    items that go to the node, up to the first that does not. *)
Fixpoint remote_prefix (dest : Z) (items : list Item_no) : res (list Item_no) :=
  match items with
  | [] => mret []
  | x :: items' =>
      p ← wh_to_part (ol_supply_w_id x);
      if negb (GET_NODE_ID p =? g_node_id) && (GET_NODE_ID p =? dest)
      then l ← remote_prefix dest items'; mret (x :: l)
      else mret []
  end.

Definition copy_remote_items : TP (Array Item_no) :=
  s ← sget;
  let q := query s in
  let fresh := CArray.mkArray [] (items_size q) in
  if q_txn_type q =? TPCC_PAYMENT then mret fresh
  else
    x ← slift (CArray.get (q_items q) (next_item_id s));
    p ← slift (wh_to_part (ol_supply_w_id x));
    l ← slift (remote_prefix (GET_NODE_ID p) (drop (Z.to_nat (next_item_id s)) (CArray.items (q_items q))));
    smod (set_next_item_id (wrap64 (next_item_id s + Z.of_nat (length l))));;;
    slift (CArray.add_all fresh l).

(** [strcpy(dst, src)] on buffers: up to and with the NUL of [src], without
    which the read does not end. *)
Definition strcpy (dst src : list Z) : res (list Z) :=
  n ← strlen src; mret (take (S n) src ++ drop (S n) dst).

(** [TPCCQueryMessage::copy_from_txn]; members that are not set keep what a
    new message holds.  The amount becomes a [uint64_t]: outside of its range
    the conversion is undefined. *)
Definition copy_from_txn (blank : TPCCQueryMessage) : TP TPCCQueryMessage :=
  s ← sget;
  let q := query s in
  let code := place (state s) tpcc_states in
  if payment (q_txn_type q) then
    c_last ← slift (strcpy (tq_c_last blank) (q_c_last q));
    h ← deref (f64_to_uint (q_h_amount q));
    mret (mkTPCCQuery base (q_txn_type q) code (q_w_id q) (q_d_id q) (q_c_id q) (q_d_w_id q) (q_c_w_id q)
      (q_c_d_id q) c_last h (q_by_last_name q) (tq_items blank) (tq_rbk blank) (tq_remote blank)
      (tq_ol_cnt blank) (tq_o_entry_d blank))
  else if new_order (q_txn_type q) then
    items ← copy_remote_items;
    mret (mkTPCCQuery base (q_txn_type q) code (q_w_id q) (q_d_id q) (q_c_id q) (tq_d_w_id blank)
      (tq_c_w_id blank) (tq_c_d_id blank) (tq_c_last blank) (tq_h_amount blank) (tq_by_last_name blank)
      items (q_rbk q) (q_remote q) (q_ol_cnt q) (q_o_entry_d q))
  else
    mret (mkTPCCQuery base (q_txn_type q) code (q_w_id q) (q_d_id q) (q_c_id q) (tq_d_w_id blank)
      (tq_c_w_id blank) (tq_c_d_id blank) (tq_c_last blank) (tq_h_amount blank) (tq_by_last_name blank)
      (tq_items blank) (tq_rbk blank) (tq_remote blank) (tq_ol_cnt blank) (tq_o_entry_d blank)).

Definition blank_message : TPCCQueryMessage :=
  mkTPCCQuery base 0 0 0 0 0 0 0 0 (replicate 16 0) 0 false CArray.new false false 0 0.

(** The destination and the state in which the node goes on afterwards. *)
Definition send_remote_request : TP RC :=
  sassert is_local;;;
  s ← sget;
  let q := query s in
  dn ← slift
    match state s with
    | TPCC_PAYMENT0 => p ← wh_to_part (q_w_id q); mret (GET_NODE_ID p, TPCC_PAYMENT2)
    | TPCC_PAYMENT4 => p ← wh_to_part (q_c_w_id q); mret (GET_NODE_ID p, TPCC_FIN)
    | TPCC_NEWORDER0 => p ← wh_to_part (q_w_id q); mret (GET_NODE_ID p, TPCC_NEWORDER6)
    | TPCC_NEWORDER8 =>
        x ← CArray.get (q_items q) (next_item_id s);
        p ← wh_to_part (ol_supply_w_id x);
        d ← is_done s;
        mret (GET_NODE_ID p, if (d : bool) then TPCC_FIN else TPCC_NEWORDER6)
    | _ => AssertFail
    end;
  msg ← copy_from_txn blank_message;
  smod (fun s => set_query (touch dn.1 (query s)) s);;;
  smod (add_out (dn.1, msg));;;
  smod (set_state dn.2);;;
  mret WAIT_REM.

(** [TPCCQueryMessage::copy_to_txn] at the node that receives the request; the
    cast of a number without an enumerator is a failure here. *)
Definition copy_to_txn (m : TPCCQueryMessage) : TP unit :=
  st ← deref (nth_of tpcc_states (tq_state m));
  s ← sget;
  let q := query s in
  let pay := payment (tq_txn_type m) in
  let no := new_order (tq_txn_type m) in
  items ← slift (if no then
                   CArray.append (if cc_is CC_TICTOC then CArray.clear (q_items q) else q_items q) (tq_items m)
                 else Ok (q_items q));
  c_last ← slift (if pay then strcpy (q_c_last q) (tq_c_last m) else Ok (q_c_last q));
  smod (set_state st);;;
  smod (set_query
    (mkTPCCQ (tq_txn_type m) (tq_w_id m) (tq_d_id m) (tq_c_id m)
       (if pay then tq_d_w_id m else q_d_w_id q) (if pay then tq_c_w_id m else q_c_w_id q)
       (if pay then tq_c_d_id m else q_c_d_id q) c_last
       (if pay then f64_of_uint (tq_h_amount m) else q_h_amount q)
       (if pay then tq_by_last_name m else q_by_last_name q) items
       (if no then tq_rbk m else q_rbk q) (if no then tq_remote m else q_remote q)
       (if no then tq_ol_cnt m else q_ol_cnt q) (if no then tq_o_entry_d m else q_o_entry_d q)
       (q_ol_amount q) (q_o_id q) (q_partitions q) (q_partitions_touched q))).

(** ** Running *)

(** The item at hand, for a new order. *)
Definition current_item (s : TpccSt) : res Item_no :=
  if q_txn_type (query s) =? TPCC_NEW_ORDER then CArray.get (q_items (query s)) (next_item_id s)
  else Ok (mkItem 0 0 0).

Definition run_state (s : TpccSt) (x : Item_no) (w_loc c_w_loc ol_supply_w_loc : bool) : TP RC :=
  let q := query s in
  match state s with
  | TPCC_PAYMENT0 => if w_loc then run_payment_0 (q_w_id q) else send_remote_request
  | TPCC_PAYMENT1 => run_payment_1 (q_h_amount q)
  | TPCC_PAYMENT2 => run_payment_2 (q_w_id q) (q_d_id q) (q_d_w_id q)
  | TPCC_PAYMENT3 => run_payment_3 (q_h_amount q)
  | TPCC_PAYMENT4 =>
      if c_w_loc then run_payment_4 (q_c_id q) (q_c_w_id q) (q_c_d_id q) (q_c_last q) (q_by_last_name q)
      else send_remote_request
  | TPCC_PAYMENT5 => run_payment_5 (q_w_id q) (q_d_id q) (q_c_id q) (q_c_w_id q) (q_c_d_id q) (q_h_amount q)
  | TPCC_NEWORDER0 => if w_loc then new_order_0 (q_w_id q) else send_remote_request
  | TPCC_NEWORDER1 => new_order_1
  | TPCC_NEWORDER2 => new_order_2 (q_w_id q) (q_d_id q) (q_c_id q)
  | TPCC_NEWORDER3 => new_order_3
  | TPCC_NEWORDER4 => new_order_4 (q_w_id q) (q_d_id q)
  | TPCC_NEWORDER5 => new_order_5 (q_w_id q) (q_d_id q) (q_c_id q) (q_remote q) (q_ol_cnt q) (q_o_entry_d q)
  | TPCC_NEWORDER6 => new_order_6 (ol_i_id x)
  | TPCC_NEWORDER7 => new_order_7
  | TPCC_NEWORDER8 =>
      if ol_supply_w_loc then new_order_8 (ol_i_id x) (ol_supply_w_id x) else send_remote_request
  | TPCC_NEWORDER9 =>
      new_order_9 (q_w_id q) (q_d_id q) (q_remote q) (ol_i_id x) (ol_supply_w_id x) (ol_quantity x)
        (next_item_id s) (q_o_id q)
  | TPCC_FIN => if q_rbk q then mret Abort else mret RCOK
  | _ => sassert false;;; mret RCOK
  end.

Definition run_txn_state : TP RC :=
  s ← sget;
  x ← slift (current_item s);
  w_loc ← slift (wh_local (q_w_id (query s)));
  c_w_loc ← slift (wh_local (q_c_w_id (query s)));
  ol_supply_w_loc ← slift (wh_local (ol_supply_w_id x));
  rc ← run_state s x w_loc c_w_loc ol_supply_w_loc;
  (if decide (rc = RCOK) then next_tpcc_state else mret tt);;;
  mret rc.

(** [while(rc == RCOK && !is_done()) rc = run_txn_state()]. *)
Fixpoint run_loop (fuel : nat) (rc : RC) : TP (option RC) :=
  s ← sget;
  d ← slift (if decide (rc = RCOK) then is_done s else Ok true);
  if (d : bool) then mret (Some rc)
  else match fuel with
       | O => mret None
       | S fuel' => rc' ← run_txn_state; run_loop fuel' rc'
       end.

(** What [run_txn] ends with: the commit protocol, the abort protocol, or its
    result. *)
Inductive Outcome := StartCommit | StartAbort | Returned (rc : RC).

Definition run_txn (fuel : nat) : TP (option Outcome) :=
  s ← sget;
  (if is_local && bool_decide (state s = TPCC_PAYMENT0 \/ state s = TPCC_NEWORDER0)
   then smod (fun s => set_query (touch g_node_id (query s)) s) else mret tt);;;
  r ← run_loop fuel RCOK;
  match r with
  | None => mret None
  | Some rc =>
      if is_local then
        s ← sget;
        d ← slift (is_done s);
        if (d : bool) && bool_decide (rc = RCOK) then mret (Some StartCommit)
        else if decide (rc = Abort) then mret (Some StartAbort)
        else mret (Some (Returned rc))
      else mret (Some (Returned rc))
  end.

(** [run_txn_post_wait]: the row that the transaction waited for. *)
Definition run_txn_post_wait : TP RC :=
  r ← on_txn (get_row_post_wait junk max_accesses);
  smod (set_row r);;;
  next_tpcc_state;;;
  mret RCOK.

(** [reset]: back to the first state of the query's type. *)
Definition reset : TP unit :=
  smod (fun s => set_state (if q_txn_type (query s) =? TPCC_NEW_ORDER then TPCC_NEWORDER0 else TPCC_PAYMENT0) s);;;
  smod (set_next_item_id 0).

End Tpcc.
