(* ===== verification/TpccRuns.v ===== *)
(** * TpccRuns: the state machine of TPC-C ends

    Every call of [run_txn] ([TpccTxn]) leaves its loop after a number of
    rounds that its state and the number of items bound, whatever the row
    managers answer and whatever the rows hold. *)

From stdpp Require Import base tactics numbers list gmap.
From Stdlib Require Import ZArith Lia.
From S2P Require Import Prelude Wire CArray Message QueryMessage RowData TxnAccess TpccKeys TpccQuery TpccSchema TpccTxn.
#[local] Open Scope Z_scope.

(** What the loop depends on. *)
Definition ctl (s : TpccSt) : TPCCRemTxnType * Z * Z * Array Item_no :=
  (state s, next_item_id s, q_txn_type (query s), q_items (query s)).

(** A step that leaves it alone, with any result. *)
Definition keeps {A} (m : ST TpccSt A) : Prop := forall s, wlp m (fun _ s' => ctl s' = ctl s) s.

Create HintDb tpcc.

Lemma keeps_ret {A} (a : A) : keeps (mret a).
Proof. done. Qed.
Lemma keeps_bind {A B} (m : ST TpccSt A) (k : A -> ST TpccSt B) :
  keeps m -> (forall a, keeps (k a)) -> keeps (mbind k m).
Proof.
  intros Hm Hk s. apply wlp_bind. eapply wlp_mono; [apply Hm|]. intros a s' E.
  eapply wlp_mono; [apply Hk|]. intros b s'' E'. cbv beta in *. congruence.
Qed.
Lemma keeps_on_txn {A} (m : ST TxnSt A) : keeps (on_txn m).
Proof. intros s. unfold wlp, on_txn. by destruct (m (txn s)) as [[a t]|]. Qed.
Lemma keeps_slift {A} (r : res A) : keeps (slift r).
Proof. intros s. by apply wlp_slift. Qed.
Lemma keeps_deref {A} (o : option A) : keeps (deref o).
Proof. intros s. by apply wlp_deref. Qed.
Lemma keeps_sassert b : keeps (sassert b).
Proof. intros s. by apply wlp_sassert. Qed.
Lemma keeps_sget : keeps sget.
Proof. done. Qed.
Lemma keeps_set_row r : keeps (smod (set_row r)).
Proof. done. Qed.
Lemma keeps_set_o_id f : keeps (smod (fun s => set_query (set_o_id (f s) (query s)) s)).
Proof. done. Qed.
#[export] Hint Resolve keeps_ret keeps_on_txn keeps_slift keeps_deref keeps_sassert keeps_sget keeps_set_row
  keeps_set_o_id : tpcc.

(** Go through a step down to its primitives. *)
Ltac keeps_tac :=
  repeat first
    [ progress auto with tpcc
    | progress intros
    | apply keeps_bind
    | progress cbv zeta
    | match goal with
      | |- keeps (match ?x with _ => _ end) => destruct x
      end ].

Lemma keeps_get_field r id : keeps (get_field r id).
Proof. apply keeps_on_txn. Qed.
Lemma keeps_set_field r id v : keeps (set_field r id v).
Proof. apply keeps_on_txn. Qed.
Lemma keeps_first_row l : keeps (first_row l).
Proof. apply keeps_deref. Qed.
Lemma keeps_mid_row l : keeps (mid_row l).
Proof. apply keeps_deref. Qed.
Lemma keeps_local_row : keeps local_row.
Proof. unfold local_row. keeps_tac. Qed.
Lemma keeps_set_fields r l : keeps (set_fields r l).
Proof. induction l as [|[id v] l IH]; cbn; [done|]. apply keeps_bind; [apply keeps_set_field|done]. Qed.
#[export] Hint Resolve keeps_get_field keeps_set_field keeps_first_row keeps_mid_row keeps_local_row
  keeps_set_fields : tpcc.

Section Runs.
Context `{!Config} `{!RowIndex}.
Context (junk : nat -> Z) (max_accesses max_inserts : nat).
Context (g_dist_per_wh g_cust_per_dist g_max_items g_num_wh g_part_cnt : Z) (g_wh_update : bool).
Context (GET_NODE_ID : Z -> Z) (txn_id : Z) (base : QueryMessage) (row_id : Z).

Abbreviation run_txn_state := (run_txn_state junk max_accesses max_inserts g_dist_per_wh g_cust_per_dist
  g_max_items g_num_wh g_part_cnt g_wh_update GET_NODE_ID txn_id base row_id).
Abbreviation run_state := (run_state junk max_accesses max_inserts g_dist_per_wh g_cust_per_dist
  g_max_items g_num_wh g_part_cnt g_wh_update GET_NODE_ID txn_id base row_id).
Abbreviation run_loop := (run_loop junk max_accesses max_inserts g_dist_per_wh g_cust_per_dist
  g_max_items g_num_wh g_part_cnt g_wh_update GET_NODE_ID txn_id base row_id).
Abbreviation run_txn := (run_txn junk max_accesses max_inserts g_dist_per_wh g_cust_per_dist
  g_max_items g_num_wh g_part_cnt g_wh_update GET_NODE_ID txn_id base row_id).
Abbreviation next_tpcc_state := (next_tpcc_state txn_id).

(** ** Steps keep the position in the transaction *)

Lemma keeps_read_index i k p : keeps (read_index i k p).
Proof. unfold read_index. keeps_tac. Qed.
Lemma keeps_get_row_into r type : keeps (get_row_into junk max_accesses r type).
Proof. unfold get_row_into. keeps_tac. Qed.
#[local] Hint Resolve keeps_read_index keeps_get_row_into : tpcc.
Lemma keeps_insert_new c p fs : keeps (insert_new junk max_inserts row_id c p fs).
Proof. unfold insert_new. keeps_tac. Qed.
#[local] Hint Resolve keeps_insert_new : tpcc.

Lemma send_remote_waits s :
  wlp (send_remote_request g_num_wh g_part_cnt GET_NODE_ID txn_id base) (fun rc _ => rc = WAIT_REM) s.
Proof.
  unfold send_remote_request.
  repeat first [apply wlp_bind; eapply wlp_mono; [apply wlp_True|]; intros ? ? _ | by apply wlp_ret].
Qed.

Lemma run_state_keeps s x a b c :
  wlp (run_state s x a b c) (fun rc s' => rc = RCOK -> ctl s' = ctl s) s.
Proof.
  assert (forall m : ST TpccSt RC, keeps m -> wlp m (fun rc s' => rc = RCOK -> ctl s' = ctl s) s) as Hk.
  { intros m Hm. eapply wlp_mono; [apply Hm|]. auto. }
  assert (wlp (send_remote_request g_num_wh g_part_cnt GET_NODE_ID txn_id base)
    (fun rc s' => rc = RCOK -> ctl s' = ctl s) s) as Hr.
  { eapply wlp_mono; [apply send_remote_waits|]. by intros ? ? ->. }
  unfold TpccTxn.run_state. destruct (state s); repeat case_match; try exact Hr; apply Hk;
    unfold run_payment_0, run_payment_1, run_payment_2, run_payment_3, run_payment_4, run_payment_5,
      find_customer,
      new_order_0, new_order_1, new_order_2, new_order_3, new_order_4, new_order_5, new_order_6, new_order_7,
      new_order_8, new_order_9; keeps_tac.
Qed.

(** ** A bound on the rounds *)

(** The state belongs to the type of the query, and the items are an array
    with an index into it. *)
Definition payment_state (t : TPCCRemTxnType) : bool :=
  bool_decide (t ∈ [TPCC_PAYMENT_S; TPCC_PAYMENT0; TPCC_PAYMENT1; TPCC_PAYMENT2; TPCC_PAYMENT3;
                    TPCC_PAYMENT4; TPCC_PAYMENT5; TPCC_FIN]).
Definition new_order_state (t : TPCCRemTxnType) : bool :=
  bool_decide (t ∈ [TPCC_NEWORDER_S; TPCC_NEWORDER0; TPCC_NEWORDER1; TPCC_NEWORDER2; TPCC_NEWORDER3;
                    TPCC_NEWORDER4; TPCC_NEWORDER5; TPCC_NEWORDER6; TPCC_NEWORDER7; TPCC_NEWORDER8;
                    TPCC_NEWORDER9; TPCC_FIN]).
Record state_ok (s : TpccSt) : Prop := {
  so_state : (q_txn_type (query s) = TPCC_PAYMENT /\ payment_state (state s) = true) \/
             (q_txn_type (query s) = TPCC_NEW_ORDER /\ new_order_state (state s) = true);
  so_next : 0 <= next_item_id s;
  so_size : items_size (query s) <= UINT64_MAX;
}.

(** The items that are left, and the rounds that are left. *)
Definition items_left (s : TpccSt) : nat := Z.to_nat (items_size (query s) - next_item_id s).
Definition rounds_left (s : TpccSt) : nat :=
  match state s with
  | TPCC_PAYMENT_S => 7
  | TPCC_PAYMENT0 => 6
  | TPCC_PAYMENT1 => 5
  | TPCC_PAYMENT2 => 4
  | TPCC_PAYMENT3 => 3
  | TPCC_PAYMENT4 => 2
  | TPCC_PAYMENT5 => 1
  | TPCC_NEWORDER_S => 7 + 4 * items_left s
  | TPCC_NEWORDER0 => 6 + 4 * items_left s
  | TPCC_NEWORDER1 => 5 + 4 * items_left s
  | TPCC_NEWORDER2 => 4 + 4 * items_left s
  | TPCC_NEWORDER3 => 3 + 4 * items_left s
  | TPCC_NEWORDER4 => 2 + 4 * items_left s
  | TPCC_NEWORDER5 => 1 + 4 * items_left s
  | TPCC_NEWORDER6 => 4 * items_left s
  | TPCC_NEWORDER7 => 4 * items_left s - 1
  | TPCC_NEWORDER8 => 4 * items_left s - 2
  | TPCC_NEWORDER9 => 4 * items_left s - 3
  | TPCC_FIN | TPCC_RDONE => 0
  end.

Lemma is_done_false s :
  state_ok s -> is_done s = Ok false ->
  state s <> TPCC_FIN /\ (new_order_state (state s) = true -> (1 <= items_left s)%nat).
Proof.
  intros [[[Ht Hs]|[Ht Hs]] Hn Hz] Hd; unfold is_done in Hd; rewrite Ht in Hd; cbn in Hd; injection Hd as Hd.
  - apply bool_decide_eq_false in Hd. split; [done|]. intros Hs'.
    destruct (state s); vm_compute in Hs, Hs'; congruence.
  - apply orb_false_iff in Hd as [Hd1 Hd2]. apply bool_decide_eq_false in Hd2. split; [done|].
    intros _. unfold items_left. bool_to_Z. lia.
Qed.

Lemma ctl_state_ok s s' : ctl s' = ctl s -> state_ok s -> state_ok s' /\ rounds_left s' = rounds_left s.
Proof.
  unfold ctl. intros [= E1 E2 E3 E4] [Hs Hn Hz]. split.
  - split; unfold items_size in *; rewrite ?E1, ?E2, ?E3, ?E4; done.
  - unfold rounds_left, items_left, items_size. by rewrite E1, E2, E4.
Qed.

(** The next state is of the same kind and nearer to the end. *)
Lemma next_state_down s :
  state_ok s -> is_done s = Ok false ->
  wlp next_tpcc_state (fun _ s' => state_ok s' /\ (rounds_left s' < rounds_left s)%nat) s.
Proof.
  intros Hok Hd. destruct (is_done_false s Hok Hd) as [Hfin Hleft]. destruct Hok as [Hs Hn Hz].
  assert (forall t, (q_txn_type (query s) = TPCC_PAYMENT /\ payment_state t = true) \/
    (q_txn_type (query s) = TPCC_NEW_ORDER /\ new_order_state t = true) -> state_ok (set_state t s)) as Hset.
  { intros t Ht. by split. }
  unfold TpccTxn.next_tpcc_state. wlp_step. wlp_step.
  destruct (state s) eqn:Es; try done;
    destruct Hs as [[Ht Hk]|[Ht Hk]]; try discriminate Hk; try specialize (Hleft eq_refl);
    repeat wlp_step; try done;
    try (split; [apply Hset; (left; done) || (right; done)|unfold rounds_left, items_left in *; rewrite Es; cbn; lia]).
  - split.
    + apply Hset. right. split; [done|]. by destruct a.
    + unfold rounds_left at 2. rewrite Es. destruct a; unfold rounds_left, items_left; cbn; lia.
  - assert (wrap64 (next_item_id s + 1) = next_item_id s + 1) as Ew.
    { apply wrap64_small. unfold items_left in Hleft. lia. }
    cbn [next_item_id set_next_item_id] in *. split.
    + split; cbn; [right; split; [done|by destruct a]|rewrite Ew; lia|done].
    + unfold rounds_left at 2. rewrite Es.
      destruct a; unfold rounds_left, items_left in *; cbn; rewrite ?Ew; lia.
Qed.

Lemma run_state_down s :
  state_ok s -> is_done s = Ok false ->
  wlp run_txn_state (fun rc s' => rc = RCOK -> state_ok s' /\ (rounds_left s' < rounds_left s)%nat) s.
Proof.
  intros Hok Hd. unfold TpccTxn.run_txn_state. repeat wlp_step.
  eapply wlp_mono; [apply run_state_keeps|]. intros rc s' Hk. wlp_step. case_decide as Hrc.
  - specialize (Hk Hrc). pose proof (ctl_state_ok s s' Hk Hok) as [Hok' Er].
    assert (is_done s' = Ok false) as Hd'.
    { rewrite <- Hd. unfold ctl in Hk. injection Hk as E1 E2 E3 E4.
      unfold is_done, items_size. by rewrite E1, E2, E3, E4. }
    eapply wlp_mono; [by apply next_state_down|]. intros ? s'' [? ?]. wlp_step. intros _. split; [done|lia].
  - repeat wlp_step. by intros ?.
Qed.

Lemma run_loop_ends fuel : forall rc s,
  (rc = RCOK -> state_ok s /\ (rounds_left s <= fuel)%nat) ->
  wlp (run_loop fuel rc) (fun r _ => r <> None) s.
Proof.
  induction fuel as [|fuel IH]; intros rc s Hs; cbn [TpccTxn.run_loop]; repeat wlp_step; case_decide as Hrc.
  - match goal with H : is_done s = Ok ?d |- _ => destruct d eqn:Ed; [by wlp_step|] end.
    destruct (Hs Hrc) as [Hok Hl]. exfalso.
    match goal with H : is_done s = Ok false |- _ => destruct (is_done_false s Hok H) as [Hf Hle] end.
    destruct Hok as [Hk _ _]. unfold rounds_left in Hl.
    destruct (state s); try done; try lia; destruct Hk as [[_ Hk]|[_ Hk]]; try discriminate Hk;
      specialize (Hle eq_refl); lia.
  - simplify_eq. by wlp_step.
  - match goal with H : is_done s = Ok ?d |- _ => destruct d eqn:Ed; [by wlp_step|] end.
    destruct (Hs Hrc) as [Hok Hl]. wlp_step.
    eapply wlp_mono; [by apply run_state_down|]. intros rc' s' Hs'. apply IH.
    intros E. destruct (Hs' E). split; [done|lia].
  - simplify_eq. by wlp_step.
Qed.

(** C29. Every call of [run_txn] leaves its loop.  Whatever the concurrency
    control answers, whatever the rows and indexes hold, and at the home node
    as at any other: from a state of the query's type, a payment is through
    after at most seven rounds and a new order after at most seven and four
    for each item that is left; the loop never runs out of that fuel. *)
Theorem tpcc_run_terminates (fuel : nat) (s : TpccSt)
    (Hok : state_ok s) (Hfuel : (rounds_left s <= fuel)%nat) :
  wlp (run_txn fuel) (fun r _ => r <> None) s /\ (rounds_left s <= 7 + 4 * items_left s)%nat.
Proof.
  split; [|unfold rounds_left; destruct (state s); lia].
  unfold TpccTxn.run_txn. do 3 wlp_step.
  eapply wlp_mono with (P := fun _ s' => ctl s' = ctl s); [case_match; repeat wlp_step; done|].
  intros ? s' Hc. destruct (ctl_state_ok s s' Hc Hok) as [Hok' Er]. wlp_step.
  eapply wlp_mono; [apply run_loop_ends; rewrite Er; auto|]. intros [rc|] s'' Hr; [|done].
  destruct (is_local _); repeat (wlp_step || case_match || case_decide); done.
Qed.
End Runs.
