(* ===== verification/TpccSpec.v ===== *)
(** * TpccSpec: what a payment and a new order do to the database

    The effect of the two transactions as pure functions of the rows: columns
    written one after the other, and rows inserted with their columns.
    [TpccRefine] proves that [run_txn] of [TpccTxn] implements them under
    two-phase locking. *)

From stdpp Require Import base tactics numbers list gmap.
From Stdlib Require Import ZArith Lia.
From S2P Require Import Prelude Wire CArray QueryMessage RowData TpccKeys TpccQuery TpccSchema TpccTxn.
#[local] Open Scope Z_scope.

(** ** Columns of rows *)

Abbreviation db := (gmap Z row_t).

(** The value of an 8-byte column of a row, and the database after it is
    written. *)
Definition hget (h : db) (r : Z) (c : nat) : Z :=
  match h !! r with
  | Some x => match get_value_u64 c x with Ok v => v | AssertFail => 0 end
  | None => 0
  end.
Definition hput (h : db) (r : Z) (c : nat) (v : Z) : db :=
  match h !! r with
  | Some x => match set_value_u64 c v x with Ok x' => <[r := x']> h | AssertFail => h end
  | None => h
  end.
Definition hput_list (h : db) (l : list (Z * nat * Z)) : db :=
  foldl (fun h w => hput h w.1.1 w.1.2 w.2) h l.

(** A row to be inserted: its table and its columns. *)
Definition new_row : Type := Catalog * list (nat * Z).

(** ** Payment *)

Section Spec.
Context (g_wh_update : bool).

(** Warehouse, district and customer are the rows [wh], [d] and [c]. *)
Definition payment_writes (h : db) (wh d c amount : Z) : list (Z * nat * Z) :=
  (if g_wh_update then [(wh, W_YTD, f64_add (hget h wh W_YTD) amount)] else []) ++
  [(d, D_YTD, f64_add (hget h d D_YTD) amount);
   (c, C_BALANCE, f64_sub (hget h c C_BALANCE) amount);
   (c, C_YTD_PAYMENT, f64_add (hget h c C_YTD_PAYMENT) amount);
   (c, C_PAYMENT_CNT, f64_add (hget h c C_PAYMENT_CNT) (f64_of_uint 1))].

Definition history_row (q : TPCCQuery) : new_row :=
  (t_history, [(H_C_ID, q_c_id q); (H_C_D_ID, q_c_d_id q); (H_C_W_ID, q_c_w_id q); (H_D_ID, q_d_id q);
               (H_W_ID, q_w_id q); (H_DATE, 2013); (H_AMOUNT, q_h_amount q)]).

(** ** New order *)

(** The order number that a new order takes. *)
Definition order_number (h : db) (d : Z) : Z := wrap64 (hget h d D_NEXT_O_ID + 1).

Definition order_rows (q : TPCCQuery) (o : Z) : list new_row :=
  [(t_order, [(O_ID, o); (O_C_ID, q_c_id q); (O_D_ID, q_d_id q); (O_W_ID, q_w_id q);
              (O_ENTRY_D, q_o_entry_d q); (O_OL_CNT, q_ol_cnt q); (O_ALL_LOCAL, if q_remote q then 0 else 1)]);
   (t_neworder, [(NO_O_ID, o); (NO_D_ID, q_d_id q); (NO_W_ID, q_w_id q)])].

(** One line: the stock row [st] of the item gives the quantity. *)
Definition line_writes (h : db) (remote : bool) (st : Z) (x : Item_no) : list (Z * nat * Z) :=
  (if remote then [(st, S_REMOTE_CNT, wrap64 (hget h st S_REMOTE_CNT + 1))] else []) ++
  [(st, S_QUANTITY, new_quantity (hget h st S_QUANTITY) (ol_quantity x))].
Definition line_row (q : TPCCQuery) (o n : Z) (x : Item_no) : new_row :=
  (t_orderline, [(OL_O_ID, o); (OL_D_ID, q_d_id q); (OL_W_ID, q_w_id q); (OL_NUMBER, n); (OL_I_ID, ol_i_id x)]).

(** A line of the order, with its item row and its stock row. *)
Record line := mkLine { l_item : Item_no; l_item_row : Z; l_stock_row : Z }.

(** The lines one after the other; they are numbered from [n]. *)
Fixpoint lines_spec (h : db) (q : TPCCQuery) (o n : Z) (lines : list line) : db * list new_row :=
  match lines with
  | [] => (h, [])
  | mkLine x _ st :: lines' =>
      let r := lines_spec (hput_list h (line_writes h (q_remote q) st x)) q o (n + 1) lines' in
      (r.1, line_row q o n x :: r.2)
  end.

Definition new_order_spec (h : db) (q : TPCCQuery) (d : Z) (lines : list line) : db * list new_row :=
  let o := order_number h d in
  let r := lines_spec (hput h d D_NEXT_O_ID o) q o 0 lines in
  (r.1, order_rows q o ++ r.2).

(** The rows that are accessed, all of them to read. *)
Definition line_rows (l : line) : list Z := [l_item_row l; l_stock_row l].
Definition new_order_rows (wh c d : Z) (lines : list line) : list Z := [wh; c; d] ++ concat (line_rows <$> lines).
End Spec.

(** ** Facts about columns *)

(** Column [c] of a table has eight bytes. *)
Definition col8 (t : Catalog) (c : nat) : Prop :=
  exists x, columns t !! c = Some x /\ col_size x = 8.
(** The row at [r] is well formed and of table [t]. *)
Definition row_of (h : db) (r : Z) (t : Catalog) : Prop :=
  exists x, h !! r = Some x /\ row_wf x /\ table x = t.

Lemma row_of_inj h r t t' : row_of h r t -> row_of h r t' -> t = t'.
Proof. intros (x & E & _ & <-) (y & E' & _ & <-). by simplify_eq. Qed.

(** Reading and writing a column of a row of the database. *)
Lemma get_hget h r t c x :
  row_of h r t -> col8 t c -> h !! r = Some x -> get_value_u64 c x = Ok (hget h r c).
Proof.
  intros (y & E & Hwf & <-) (k & Hk & Hs) E'. rewrite E in E'. injection E' as ->.
  unfold hget. rewrite E.
  unfold get_value_u64. rewrite (read_at_ok x Hwf 8 c k Hk) by lia. done.
Qed.

(** The facts of [row_set_get] that the writes of a database use. *)
Lemma set_hput h r t c v x :
  row_of h r t -> col8 t c -> h !! r = Some x ->
  exists x', set_value_u64 c v x = Ok x' /\ hput h r c v = <[r := x']> h /\ row_wf x' /\ table x' = t.
Proof.
  intros (y & E & Hwf & <-) (k & Hk & Hs) E'. rewrite E in E'. injection E' as ->.
  destruct (set_value_ok x Hwf c k (le_bytes 8 v) Hk) as (x' & Ex & Hx' & Et & _).
  { rewrite Hs, le_bytes_length. cbn. lia. }
  exists x'. split_and!; [done| |done|by rewrite Et].
  unfold hput. rewrite E. unfold set_value_u64. by rewrite Ex.
Qed.

Lemma row_of_hput h r t c v a ta :
  row_of h r t -> col8 t c -> row_of h a ta -> row_of (hput h r c v) a ta.
Proof.
  intros Hr Hc Ha. destruct Hr as (x & E & Hwf & Et). 
  destruct (set_hput h r t c v x) as (x' & _ & -> & Hwf' & Et'); [by exists x|done..|].
  destruct Ha as (y & Ey & Hy & <-). destruct (decide (a = r)) as [->|].
  - exists x'. rewrite lookup_insert_eq. split_and!; [done..|congruence].
  - exists y. by rewrite lookup_insert_ne.
Qed.

Lemma hget_hput_ne h r c v a c' : a <> r -> hget (hput h r c v) a c' = hget h a c'.
Proof.
  intros Hne. unfold hget, hput. destruct (h !! r); [|done]. destruct (set_value_u64 c v _); [|done].
  by rewrite lookup_insert_ne.
Qed.

Lemma hget_hput h r t c v a ta c' :
  row_of h r t -> col8 t c -> is_u64 v -> row_of h a ta -> col8 ta c' ->
  hget (hput h r c v) a c' = if bool_decide (a = r /\ c' = c) then v else hget h a c'.
Proof.
  intros Hr Hc Hv Ha Hc'. destruct (decide (a = r)) as [->|Hne].
  2:{ rewrite bool_decide_eq_false_2 by naive_solver. by apply hget_hput_ne. }
  rewrite (row_of_inj _ _ _ _ Ha Hr) in Hc'. destruct Hr as (x & E & Hwf & <-).
  destruct Hc as (k & Hk & Hs), Hc' as (k' & Hk' & Hs').
  assert (exists x', set_value_u64 c v x = Ok x' /\ row_wf x' /\ table x' = table x /\
    get_value_u64 c x' = Ok v /\ (c' <> c -> get_value_u64 c' x' = get_value_u64 c' x)) as (x' & Ex & Hx' & Et & Eg & Eo).
  { destruct (set_value_ok x Hwf c k (le_bytes 8 v) Hk) as (x' & Ex & Hx' & Et & Ho).
    { rewrite Hs, le_bytes_length. cbn. lia. }
    exists x'. split_and!; [done|done|by rewrite Et| |].
    - assert (columns (table x') !! c = Some k) as Hkx by by rewrite Et.
      unfold get_value_u64. rewrite (read_at_ok x' Hx' 8 c k Hkx) by lia. subst x'. cbn [data set_data_bytes].
      rewrite Hs, take_ge by by rewrite le_bytes_length.
      destruct (field_inside x Hwf c k Hk) as (? & ? & Hin).
      replace 8%nat with (length (le_bytes 8 v)) at 2 by by rewrite le_bytes_length.
      rewrite slice_splice by (rewrite le_bytes_length; lia).
      f_equal. apply le_value_bytes. by apply wire_ok_u64 in Hv.
    - intros Hne. apply (Ho c' k' 8%nat Hk' Hne). lia. }
  unfold hget, hput. rewrite E, Ex, lookup_insert_eq. case_bool_decide as Hd.
  - destruct Hd as [_ ->]. by rewrite Eg.
  - rewrite Eo; [done|]. intros ->. by apply Hd.
Qed.
