(* ===== verification/TpccRefine.v ===== *)
(** * TpccRefine: the code implements the effects of TpccSpec

    The steps of payment and new order on a database: with the locks granted,
    where rows are updated in place, a transaction gets the row itself, reads
    and writes its columns, and rows to be inserted hold their columns. *)

From stdpp Require Import base tactics numbers list gmap.
From Stdlib Require Import ZArith Lia.
From S2P Require Import Prelude Wire CArray Message QueryMessage RowData TxnAccess TxnUndo TpccKeys TpccQuery.
From S2P Require Import TpccSchema TpccTxn TpccSpec.
#[local] Open Scope Z_scope.

Lemma wp_on_txn {A} (m : ST TxnSt A) (Q : A -> TpccSt -> Prop) s :
  wp m (fun a t => Q a (set_txn t s)) (txn s) -> wp (on_txn m) Q s.
Proof. unfold wp, on_txn. by destruct (m (txn s)) as [[a t]|]. Qed.

Lemma tail_of_drop {A} n (l : list A) : tail (drop n l) = drop (S n) l.
Proof. revert l. induction n as [|n IH]; intros [|x l]; try done. apply IH. Qed.

(** The loop over a chain ends in its middle. *)
Lemma mid_loop_drop it : forall cnt chain,
  mid_loop cnt it (drop (cnt / 2) chain) = drop ((cnt + length it) / 2) chain.
Proof.
  induction it as [|x it IH]; intros cnt chain; cbn [mid_loop length]; [by rewrite Nat.add_0_r|].
  replace (if Nat.even (S cnt) then tail (drop (cnt / 2) chain) else drop (cnt / 2) chain)
    with (drop (S cnt / 2) chain).
  - rewrite IH. f_equal. f_equal. lia.
  - destruct (Nat.even (S cnt)) eqn:E.
    + apply Nat.even_spec in E as [k E]. rewrite E.
      replace cnt with (2 * k - 1)%nat by lia.
      rewrite (Nat.mul_comm 2 k), Nat.div_mul by done.
      replace ((k * 2 - 1) / 2)%nat with (k - 1)%nat by (apply (Nat.div_unique _ 2 _ 1); lia).
      rewrite tail_of_drop. f_equal. lia.
    + assert (Nat.odd (S cnt) = true) as Ho by by rewrite <- Nat.negb_even, E.
      apply Nat.odd_spec in Ho as [k Ho]. f_equal. rewrite Ho. replace cnt with (k * 2)%nat by lia.
      rewrite Nat.div_mul by done. symmetry. apply (Nat.div_unique _ 2 _ 1); lia.
Qed.

(** The customer found by last name is the one after half of the chain. *)
Lemma mid_customer chain : head (mid_loop 0 chain chain) = chain !! (length chain / 2)%nat.
Proof.
  pose proof (mid_loop_drop chain 0 chain) as E. cbn [Nat.add] in E.
  replace (drop (0 / 2) chain) with chain in E by done. rewrite E.
  by rewrite head_lookup, lookup_drop, Nat.add_0_r.
Qed.

Section Calvin.
Context `{!Config} (junk : nat -> Z).
(** A test for one algorithm, or for several, under Calvin. *)
Lemma cc_calvin algs : CC_ALG = CC_CALVIN -> cc_in algs = bool_decide (CC_CALVIN ∈ algs).
Proof. unfold cc_in. by intros ->. Qed.
Lemma cc_is_calvin alg : CC_ALG = CC_CALVIN -> cc_is alg = bool_decide (CC_CALVIN = alg).
Proof. unfold cc_is. by intros ->. Qed.
Lemma row_get_row_calvin a type : CC_ALG = CC_CALVIN -> row_get_row junk a type = mret (RCOK, Some a).
Proof.
  intros Hc. unfold row_get_row. rewrite !(cc_is_calvin _ Hc), !(cc_calvin _ Hc).
  repeat (rewrite bool_decide_eq_false_2 by (done || (rewrite list_elem_of_In; cbn; intuition discriminate))).
  by rewrite bool_decide_eq_true_2 by (repeat (left || right)).
Qed.
End Calvin.

Section Refine.
Context `{!Config} `{!RowIndex}.
Context (junk : nat -> Z) (max_accesses max_inserts : nat).
(** Rows are updated in place: under two-phase locking and under Calvin. *)
Context (in_place : (CC_ALG = CC_NO_WAIT \/ CC_ALG = CC_WAIT_DIE) \/ CC_ALG = CC_CALVIN).

Abbreviation get_row := (get_row junk max_accesses).

(** ** The access list against a database *)

(** The rows below [n0] are those of [h]; the rows to be inserted hold what
    [ins] says; the accesses have types and rows [sig]; every answer grants. *)
Section Sim.
Context (n0 : Z).

Definition inserted (t : TxnSt) (i : new_row) (a : Z) : Prop :=
  n0 <= a < next_addr t /\ exists r, heap t !! a = Some r /\ row_wf r /\ table r = i.1 /\
    Forall (fun f => get_value_u64 f.1 r = Ok f.2) i.2.

Record sim (h : db) (ins : list new_row) (sig : list (access_t * Z)) (t : TxnSt) : Prop := {
  sim_heap a : a < n0 -> heap t !! a = h !! a;
  sim_rows a r : h !! a = Some r -> a < n0 /\ row_wf r;
  sim_next : n0 <= next_addr t;
  sim_ins : Forall2 (inserted t) ins (insert_rows t);
  sim_sig : (fun x => (acc_type x, orig_row x)) <$> accesses t = sig;
  sim_ans : Forall (fun a => ans_rc a = RCOK) (answers t);
}.

Lemma sim_row h ins sig t r tb :
  sim h ins sig t -> row_of h r tb -> exists x, heap t !! r = Some x /\ h !! r = Some x /\ row_wf x /\ table x = tb /\ r < n0.
Proof.
  intros Hs (x & E & Hwf & Et). destruct (sim_rows _ _ _ _ Hs r x E) as [Hr _].
  exists x. by rewrite (sim_heap _ _ _ _ Hs r Hr).
Qed.

(** States that differ in nothing that [sim] sees. *)
Lemma sim_same h ins sig t t' :
  sim h ins sig t -> heap t' = heap t -> next_addr t' = next_addr t -> insert_rows t' = insert_rows t ->
  accesses t' = accesses t -> Forall (fun a => ans_rc a = RCOK) (answers t') -> sim h ins sig t'.
Proof.
  intros [] Eh En Ei Ea Hans. split; rewrite ?Eh, ?En, ?Ei, ?Ea; try done.
  eapply Forall2_impl; [eassumption|]. unfold inserted. by rewrite Eh, En.
Qed.

Lemma inserted_mono t t' i a :
  inserted t i a -> next_addr t <= next_addr t' ->
  (forall b, n0 <= b < next_addr t -> heap t' !! b = heap t !! b) -> inserted t' i a.
Proof. intros (Ha & r & E & Hr) Hn Hh. split; [lia|]. exists r. by rewrite Hh. Qed.

Lemma sim_add_object h ins sig t r : sim h ins sig t -> sim h ins sig (add_object r t).
Proof.
  intros Hs. pose proof (sim_next _ _ _ _ Hs). destruct Hs as [Hh Hr Hn Hi Hsig Ha]. split; cbn; try done; try lia.
  - intros a Hlt. rewrite lookup_insert_ne by lia. auto.
  - eapply Forall2_impl; [exact Hi|]. intros i a Hin. eapply inserted_mono; [exact Hin|cbn; lia|].
    intros b Hb. cbn. by rewrite lookup_insert_ne by lia.
Qed.

Lemma sim_push h ins sig t x :
  sim h ins sig t ->
  sim h ins (sig ++ [(acc_type x, orig_row x)])
    (set_accesses (accesses t ++ [x]) (row_cnt t + 1) (if decide (acc_type x = WR) then write_cnt t + 1 else write_cnt t) t).
Proof.
  intros [Hh Hr Hn Hi Hsig Ha]. split; cbn; try done. by rewrite fmap_app, Hsig.
Qed.

(** What follows the dispatch when the row itself is handed out. *)
Lemma wp_granted h ins sig t r tb type :
  sim h ins sig t -> row_of h r tb -> (length sig < max_accesses)%nat ->
  wp (u ← make_undo junk undo_algs r type;
      push_access max_accesses (mkAccess type r (Some r) u);;;
      sassert (bool_decide (RCOK = RCOK));;; mret (RCOK, Some r))
    (fun x t' => x = (RCOK, Some r) /\ sim h ins (sig ++ [(type, r)]) t') t.
Proof.
  intros Hs Hr Hmax.
  destruct (sim_row _ _ _ _ _ _ Hs Hr) as (y & Ey & _ & Hy & _ & Hlt).
  assert (length (accesses t) = length sig) as Hlen by by rewrite <- (sim_sig _ _ _ _ Hs), length_fmap.
  wp_step. unfold make_undo, push_access. destruct (cc_in undo_algs && bool_decide (type = WR)).
  - wp_step. destruct (fresh_copy_ok junk r y t Ey Hy) as (n & Ef & _ & _); [pose proof (sim_next _ _ _ _ Hs); lia|].
    apply (wp_eq _ _ _ _ _ Ef). repeat wp_step; [by cbn; rewrite Hlen; apply Nat.ltb_lt|done|].
    split; [done|]. apply (sim_push _ _ _ _ (mkAccess type r (Some r) (Some (next_addr t)))). by apply sim_add_object.
  - repeat wp_step; [by rewrite Hlen; apply Nat.ltb_lt|done|].
    split; [done|]. by apply (sim_push _ _ _ _ (mkAccess type r (Some r) None)).
Qed.

Lemma wp_ask h ins sig t :
  sim h ins sig t -> wp ask (fun x t' => ans_rc x = RCOK /\ sim h ins sig t') t.
Proof.
  intros Hs. unfold ask. do 2 wp_step. pose proof (sim_ans _ _ _ _ Hs) as Ha.
  destruct (answers t) as [|x l]; [by wp_step|]. apply Forall_cons in Ha as [Hx Hl].
  repeat wp_step. split; [done|]. by eapply sim_same.
Qed.

(** The lock is granted, and the transaction gets the row itself. *)
Lemma wp_get_row h ins sig t r tb type :
  sim h ins sig t -> row_of h r tb -> (length sig < max_accesses)%nat ->
  wp (get_row r type) (fun x t' => x = (RCOK, Some r) /\ sim h ins (sig ++ [(type, r)]) t') t.
Proof.
  intros Hs Hr Hmax. unfold TxnAccess.get_row.
  assert (cc_is CC_TICTOC = false) as ->.
  { destruct in_place as [lock_alg|calvin]; [by apply cc_not_tictoc|by rewrite (cc_is_calvin _ calvin)]. }
  do 2 wp_step. assert (sim h ins sig (set_last r type t)) as Hs1 by (eapply sim_same; [exact Hs|done..|apply Hs]).
  revert Hs1. generalize (set_last r type t). clear t Hs. intros t Hs. wp_step.
  apply wp_mono with (P := fun x t' => x = (RCOK, Some r) /\ sim h ins sig t').
  { destruct in_place as [lock_alg|calvin]; [|by rewrite row_get_row_calvin].
    rewrite row_get_row_lock by done. wp_step. eapply wp_mono; [by apply wp_ask|]. intros x t' [Hx Hs'].
    rewrite Hx. rewrite (decide_False (P := RCOK = WAIT)), (decide_True (P := RCOK = RCOK)) by done. by repeat wp_step. }
  clear t Hs. intros x t [-> Hs]. cbn [fst snd].
  rewrite (decide_False (P := RCOK = Abort \/ _)) by (by intros []). by eapply wp_granted.
Qed.

Lemma wp_fetch h ins sig t r tb c :
  sim h ins sig t -> row_of h r tb -> col8 tb c ->
  wp (fetch r c) (fun v t' => v = hget h r c /\ t' = t) t.
Proof.
  intros Hs Hr Hc. destruct (sim_row _ _ _ _ _ _ Hs Hr) as (x & Ex & Eh & _).
  unfold fetch, load. do 3 wp_step. rewrite Ex. wp_step.
  apply wp_slift with (a := hget h r c); [|done]. by eapply get_hget.
Qed.

Lemma wp_put h ins sig t r tb c v :
  sim h ins sig t -> row_of h r tb -> col8 tb c ->
  wp (put r c v) (fun _ t' => sim (hput h r c v) ins sig t') t.
Proof.
  intros Hs Hr Hc. destruct (sim_row _ _ _ _ _ _ Hs Hr) as (x & Ex & Eh & Hx & _ & Hlt).
  destruct (set_hput h r tb c v x Hr Hc Eh) as (x' & Eset & Eput & Hx' & _).
  unfold put, load, store. do 3 wp_step. rewrite Ex. do 2 wp_step. apply wp_slift with (a := x'); [done|].
  wp_step. rewrite Eput. destruct Hs as [Hh Hrw Hn Hi Hsig Ha]. split; cbn; try done.
  - intros a Ha'. destruct (decide (a = r)) as [->|]; [by rewrite !lookup_insert_eq|].
    rewrite !lookup_insert_ne by done. auto.
  - intros a y. destruct (decide (a = r)) as [->|].
    + rewrite lookup_insert_eq. by intros [= <-].
    + rewrite lookup_insert_ne by done. eauto.
  - eapply Forall2_impl; [exact Hi|]. intros i a Hin. eapply inserted_mono; [exact Hin|cbn; lia|].
    intros b Hb. cbn. by rewrite lookup_insert_ne by lia.
Qed.

(** ** The steps of the stored procedures *)

(** A state of the transaction manager with given members. *)
Definition at_ (h : db) (ins : list new_row) (sig : list (access_t * Z)) (q : TPCCQuery) (st : TPCCRemTxnType)
    (rw : option Z) (nx : Z) (s : TpccSt) : Prop :=
  exists t o, s = mkTpcc t q st rw nx o /\ sim h ins sig t.

Lemma wp_get_row_into h ins sig q st rw nx s r tb type :
  at_ h ins sig q st rw nx s -> row_of h r tb -> (length sig < max_accesses)%nat ->
  wp (get_row_into junk max_accesses r type)
    (fun rc s' => rc = RCOK /\ at_ h ins (sig ++ [(type, r)]) q st (Some r) nx s') s.
Proof.
  intros (t & o & -> & Hs) Hr Hmax. unfold get_row_into. wp_step. apply wp_on_txn.
  eapply wp_mono; [by eapply wp_get_row|]. intros x t' [-> Hs']. repeat wp_step.
  split; [done|]. by exists t', o.
Qed.

Lemma wp_get_field h ins sig q st rw nx s r tb c :
  at_ h ins sig q st rw nx s -> row_of h r tb -> col8 tb c ->
  wp (get_field r c) (fun v s' => v = hget h r c /\ s' = s) s.
Proof.
  intros (t & o & -> & Hs) Hr Hc. apply wp_on_txn. eapply wp_mono; [by eapply wp_fetch|].
  by intros v t' [-> ->].
Qed.

Lemma wp_set_field h ins sig q st rw nx s r tb c v :
  at_ h ins sig q st rw nx s -> row_of h r tb -> col8 tb c ->
  wp (set_field r c v) (fun _ s' => at_ (hput h r c v) ins sig q st rw nx s') s.
Proof.
  intros (t & o & -> & Hs) Hr Hc. apply wp_on_txn. eapply wp_mono; [by eapply wp_put|].
  intros ? t' Hs'. by exists t', o.
Qed.

Lemma wp_local_row h ins sig q st r nx s (Q : Z -> TpccSt -> Prop) :
  at_ h ins sig q st (Some r) nx s -> Q r s -> wp local_row Q s.
Proof. intros (t & o & -> & Hs) HQ. unfold local_row. by repeat wp_step. Qed.

(** A row outside of the database gets its columns one by one. *)
Lemma wp_set_fields a l : forall s r,
  heap (txn s) !! a = Some r -> row_wf r ->
  NoDup l.*1 -> Forall (fun f => col8 (table r) f.1 /\ is_u64 f.2) l ->
  wp (set_fields a l) (fun _ s' => exists r',
    s' = set_txn (set_heap (<[a := r']> (heap (txn s))) (txn s)) s /\ row_wf r' /\ table r' = table r /\
    Forall (fun f => get_value_u64 f.1 r' = Ok f.2) l /\
    (forall c, col8 (table r) c -> c ∉ l.*1 -> get_value_u64 c r' = get_value_u64 c r)) s.
Proof.
  induction l as [|[c v] l IH]; intros s r Ea Hr Hnd Hl; cbn [set_fields].
  - wp_step. exists r. split_and!; try done. rewrite insert_id by done. by destruct s as [[]].
  - apply NoDup_cons in Hnd as [Hni Hnd]. apply Forall_cons in Hl as [[Hc Hv] Hl]. cbn in Hc, Hv.
    assert (row_of (heap (txn s)) a (table r)) as Hrow by by exists r.
    destruct (set_hput (heap (txn s)) a (table r) c v r Hrow Hc Ea) as (r1 & Eset & Eput & Hr1 & Et1).
    wp_step. apply wp_on_txn. unfold put, load, store. do 3 wp_step. rewrite Ea. do 2 wp_step.
    apply wp_slift with (a := r1); [done|]. wp_step.
    assert (forall c', col8 (table r) c' -> get_value_u64 c' r1 =
      if bool_decide (c' = c) then Ok v else get_value_u64 c' r) as Hget.
    { intros c' Hc'. assert (row_of (hput (heap (txn s)) a c v) a (table r)) as Hrow1 by by eapply row_of_hput.
      rewrite (get_hget (hput (heap (txn s)) a c v) a (table r) c' r1) by
        (done || (rewrite Eput; by rewrite lookup_insert_eq)).
      rewrite (hget_hput _ a (table r) c v a (table r) c') by done.
      rewrite (get_hget (heap (txn s)) a (table r) c' r) by done.
      destruct (decide (c' = c)); [by rewrite !bool_decide_eq_true_2|by rewrite !bool_decide_eq_false_2 by naive_solver]. }
    eapply wp_mono; [apply (IH _ r1)|].
    + cbn. by rewrite lookup_insert_eq.
    + done.
    + done.
    + by rewrite Et1.
    + intros ? s' (r' & -> & Hr' & Et' & Hf & Ho). exists r'. cbn. rewrite insert_insert_eq.
      split_and!; [done|done|congruence| |].
      * constructor; [|done]. cbn. rewrite Ho by (done || by rewrite Et1). rewrite Hget by done.
        by rewrite bool_decide_eq_true_2.
      * intros c' Hc' Hn. apply not_elem_of_cons in Hn as [Hne Hn]. rewrite Ho by (done || by rewrite Et1).
        rewrite Hget by done. by rewrite bool_decide_eq_false_2.
Qed.

Lemma wp_insert_new h ins sig q st rw nx s c part row_id fs :
  at_ h ins sig q st rw nx s -> catalog_wf c -> NoDup fs.*1 ->
  Forall (fun f => col8 c f.1 /\ is_u64 f.2) fs -> (length ins < max_inserts)%nat ->
  wp (insert_new junk max_inserts row_id c part fs)
    (fun _ s' => at_ h (ins ++ [(c, fs)]) sig q st rw nx s') s.
Proof.
  intros (t & o & -> & Hs) Hc Hnd Hfs Hmax. unfold insert_new. wp_step. apply wp_on_txn.
  unfold alloc_row. repeat wp_step. cbn [txn set_txn].
  set (r0 := get_new_row junk c part row_id).
  eapply wp_mono; [apply (wp_set_fields (next_addr t) fs _ r0)|].
  { cbn. by rewrite lookup_insert_eq. }
  { by apply row_init_wf. }
  { done. }
  { done. }
  intros ? s' (r & -> & Hr & Et & Hf & _). apply wp_on_txn. unfold insert_row.
  assert (cc_in [CC_HSTORE; CC_HSTORE_SPEC] = false) as ->.
  { destruct in_place as [lock_alg|calvin].
    - apply (cc_not_lock lock_alg); rewrite list_elem_of_In; cbn; intuition discriminate.
    - rewrite (cc_calvin _ calvin). apply bool_decide_eq_false. rewrite list_elem_of_In. cbn. intuition discriminate. }
  assert (length (insert_rows t) = length ins) as Hlen by by rewrite (Forall2_length _ _ _ (sim_ins _ _ _ _ Hs)).
  repeat wp_step; [by cbn; rewrite Hlen; apply Nat.ltb_lt|].
  eexists _, o. split; [reflexivity|]. cbn.
  pose proof (sim_next _ _ _ _ Hs) as Hn0.
  destruct Hs as [Hh Hrw Hn Hi Hsig Ha]. split; cbn; try done; try lia.
  - intros k Hlt. rewrite !lookup_insert_ne by lia. auto.
  - apply Forall2_app.
    + eapply Forall2_impl; [exact Hi|]. intros i k Hin. eapply inserted_mono; [exact Hin|cbn; lia|].
      intros b Hb. cbn. by rewrite !lookup_insert_ne by lia.
    + constructor; [|constructor]. split; cbn; [lia|]. exists r. by rewrite lookup_insert_eq.
Qed.

End Sim.
End Refine.
