(* ===== verification/TpccEffects.v ===== *)
(** * TpccEffects: payment and new order have the effects of TpccSpec

    Each step of the two transactions against a database, where rows are
    updated in place and the locks are granted; and the loop of [run_txn]:
    under two-phase locking a local payment and a local new order run to the
    commit protocol and leave the database as [TpccSpec] says. *)

From stdpp Require Import base tactics numbers list gmap.
From Stdlib Require Import ZArith Lia.
From S2P Require Import Prelude Wire CArray Message QueryMessage RowData TxnAccess TxnUndo TpccKeys TpccQuery.
From S2P Require Import TpccSchema TpccTxn TpccSpec TpccRefine.
#[local] Open Scope Z_scope.

Lemma row_of_ne h a b t t' : row_of h a t -> row_of h b t' -> table_id t <> table_id t' -> a <> b.
Proof. intros Ha Hb Hne ->. by rewrite (row_of_inj _ _ _ _ Ha Hb) in Hne. Qed.

(** Columns of the schema have eight bytes where the transactions use them. *)
Ltac col8_tac := by (eexists; split; [reflexivity|reflexivity]).

(** The next state where it depends on nothing. *)
Definition straight (st : TPCCRemTxnType) : option TPCCRemTxnType :=
  match st with
  | TPCC_PAYMENT0 => Some TPCC_PAYMENT1
  | TPCC_PAYMENT1 => Some TPCC_PAYMENT2
  | TPCC_PAYMENT2 => Some TPCC_PAYMENT3
  | TPCC_PAYMENT3 => Some TPCC_PAYMENT4
  | TPCC_PAYMENT4 => Some TPCC_PAYMENT5
  | TPCC_PAYMENT5 => Some TPCC_FIN
  | TPCC_NEWORDER0 => Some TPCC_NEWORDER1
  | TPCC_NEWORDER1 => Some TPCC_NEWORDER2
  | TPCC_NEWORDER2 => Some TPCC_NEWORDER3
  | TPCC_NEWORDER3 => Some TPCC_NEWORDER4
  | TPCC_NEWORDER4 => Some TPCC_NEWORDER5
  | TPCC_NEWORDER6 => Some TPCC_NEWORDER7
  | TPCC_NEWORDER7 => Some TPCC_NEWORDER8
  | TPCC_NEWORDER8 => Some TPCC_NEWORDER9
  | _ => None
  end.

Section Effects.
Context `{!Config} `{!RowIndex}.
Context (junk : nat -> Z) (max_accesses max_inserts : nat).
Context (g_dist_per_wh g_cust_per_dist g_max_items g_num_wh g_part_cnt : Z) (g_wh_update : bool).
Context (GET_NODE_ID : Z -> Z) (txn_id : Z) (base : QueryMessage) (row_id : Z).
Context (in_place : (CC_ALG = CC_NO_WAIT \/ CC_ALG = CC_WAIT_DIE) \/ CC_ALG = CC_CALVIN).
Context (parts_ok : g_part_cnt <= g_num_wh) (local_txn : is_local txn_id = true).
Context (n0 : Z).

Abbreviation run_txn_state := (run_txn_state junk max_accesses max_inserts g_dist_per_wh g_cust_per_dist
  g_max_items g_num_wh g_part_cnt g_wh_update GET_NODE_ID txn_id base row_id).
Abbreviation run_state := (run_state junk max_accesses max_inserts g_dist_per_wh g_cust_per_dist
  g_max_items g_num_wh g_part_cnt g_wh_update GET_NODE_ID txn_id base row_id).
Abbreviation run_loop := (run_loop junk max_accesses max_inserts g_dist_per_wh g_cust_per_dist
  g_max_items g_num_wh g_part_cnt g_wh_update GET_NODE_ID txn_id base row_id).
Abbreviation run_txn := (run_txn junk max_accesses max_inserts g_dist_per_wh g_cust_per_dist
  g_max_items g_num_wh g_part_cnt g_wh_update GET_NODE_ID txn_id base row_id).
Abbreviation next_tpcc_state := (next_tpcc_state txn_id).
Abbreviation get_row_into := (get_row_into junk max_accesses).
Abbreviation insert_new := (insert_new junk max_inserts row_id).
Abbreviation at_ := (at_ n0).
Abbreviation wh_to_part := (wh_to_part g_num_wh g_part_cnt).
Abbreviation distKey := (distKey g_dist_per_wh).
Abbreviation custKey := (custKey g_dist_per_wh g_cust_per_dist).
Abbreviation custNPKey := (custNPKey g_dist_per_wh).
Abbreviation stockKey := (stockKey g_max_items).

(** The partition of a warehouse. *)
Definition part (w : Z) : Z := wrap64 (w - 1) mod g_part_cnt.
Definition here (w : Z) : Prop := GET_NODE_ID (part w) = g_node_id.

Lemma wh_to_part_ok w : wh_to_part w = Ok (part w).
Proof. unfold TpccKeys.wh_to_part. by rewrite (proj2 (Z.leb_le _ _) parts_ok). Qed.
Lemma wh_local_ok w : wh_local g_num_wh g_part_cnt GET_NODE_ID w = Ok (bool_decide (here w)).
Proof.
  unfold wh_local. rewrite wh_to_part_ok. cbn. do 2 f_equal. unfold here.
  case_bool_decide as Hd; [by apply Z.eqb_eq|by apply Z.eqb_neq].
Qed.

(** An index answers with a chain that starts with a row. *)
Definition finds (i : index_name) (key p r : Z) : Prop := exists l, index_read i key p = Ok (r :: l).

(** ** Steps, with what follows them *)

Section Steps.
Context (h : db) (ins : list new_row) (sig : list (access_t * Z)) (q : TPCCQuery)
  (st : TPCCRemTxnType) (rw : option Z) (nx : Z) (s : TpccSt).
Context (Hat : at_ h ins sig q st rw nx s).

Lemma wp_part w (Q : Z -> TpccSt -> Prop) : Q (part w) s -> wp (slift (wh_to_part w)) Q s.
Proof. apply wp_slift, wh_to_part_ok. Qed.
Lemma wp_find i key p r (Q : list Z -> TpccSt -> Prop) :
  finds i key p r -> (forall l, Q (r :: l) s) -> wp (read_index i key p) Q s.
Proof.
  intros [l E] HQ. unfold read_index. wp_step. apply (wp_slift _ _ _ _ E); cbv beta. repeat wp_step; [done|apply HQ].
Qed.
Lemma wp_first r l (Q : Z -> TpccSt -> Prop) : Q r s -> wp (first_row (r :: l)) Q s.
Proof. intros HQ. exact HQ. Qed.
Lemma wp_into r t type (Q : RC -> TpccSt -> Prop) :
  row_of h r t -> (length sig < max_accesses)%nat ->
  (forall s', at_ h ins (sig ++ [(type, r)]) q st (Some r) nx s' -> Q RCOK s') ->
  wp (get_row_into r type) Q s.
Proof.
  intros Hr Hl HQ. eapply wp_mono; [by eapply wp_get_row_into|]. intros ? s' [-> Hs']. auto.
Qed.
Lemma wp_get r t c (Q : Z -> TpccSt -> Prop) :
  row_of h r t -> col8 t c -> Q (hget h r c) s -> wp (get_field r c) Q s.
Proof. intros Hr Hc HQ. eapply wp_mono; [by eapply wp_get_field|]. by intros ? ? [-> ->]. Qed.
Lemma wp_set r t c v (Q : unit -> TpccSt -> Prop) :
  row_of h r t -> col8 t c ->
  (forall s', at_ (hput h r c v) ins sig q st rw nx s' ->
     (forall a ta, row_of h a ta -> row_of (hput h r c v) a ta) -> Q tt s') -> wp (set_field r c v) Q s.
Proof.
  intros Hr Hc HQ. eapply wp_mono; [by eapply wp_set_field|]. intros [] s' Hs'. apply HQ; [done|].
  intros a ta. by apply row_of_hput with t.
Qed.
Lemma wp_new c p fs (Q : unit -> TpccSt -> Prop) :
  c ∈ all_tables -> NoDup fs.*1 -> Forall (fun f => col8 c f.1 /\ is_u64 f.2) fs ->
  (length ins < max_inserts)%nat ->
  (forall s', at_ h (ins ++ [(c, fs)]) sig q st rw nx s' -> Q tt s') -> wp (insert_new c p fs) Q s.
Proof.
  intros Hc Hnd Hfs Hl HQ. assert (catalog_wf c) as Hwf.
  { pose proof tables_wf as Hw. rewrite Forall_forall in Hw. auto. }
  eapply wp_mono; [by eapply wp_insert_new|]. intros [] s' Hs'. auto.
Qed.

(** ** The next state *)
Lemma wp_straight st' (Q : unit -> TpccSt -> Prop) :
  straight st = Some st' -> (forall s', at_ h ins sig q st' rw nx s' -> Q tt s') -> wp next_tpcc_state Q s.
Proof.
  destruct Hat as (t & o & -> & Hs). intros Hst HQ. unfold TpccTxn.next_tpcc_state. do 2 wp_step.
  assert (wp (smod (set_state st')) Q (mkTpcc t q st rw nx o)) as Hw by (wp_step; apply HQ; by exists t, o).
  cbn [state]. destruct st; simplify_eq/=; exact Hw.
Qed.
End Steps.

(** ** Rounds of the loop *)

Lemma loop_round fuel s (Q : option RC -> TpccSt -> Prop) :
  is_done s = Ok false ->
  wp run_txn_state (fun rc s' => wp (run_loop fuel rc) Q s') s -> wp (run_loop (S fuel) RCOK) Q s.
Proof.
  intros Hd Hr. cbn [TpccTxn.run_loop]. wp_step. wp_step. rewrite (decide_True (P := RCOK = RCOK)) by done.
  wp_step. apply (wp_slift _ _ _ _ Hd); cbv beta. by wp_step.
Qed.
Lemma loop_end fuel s (Q : option RC -> TpccSt -> Prop) :
  is_done s = Ok true -> Q (Some RCOK) s -> wp (run_loop fuel RCOK) Q s.
Proof.
  intros Hd HQ. destruct fuel; cbn [TpccTxn.run_loop]; wp_step; wp_step;
    rewrite (decide_True (P := RCOK = RCOK)) by done; wp_step; by apply (wp_slift _ _ _ _ Hd).
Qed.

(** A step that succeeds takes the transaction to its next state. *)
Lemma state_round s x (Q : RC -> TpccSt -> Prop) :
  current_item s = Ok x -> here (q_w_id (query s)) ->
  wp (run_state s x true (bool_decide (here (q_c_w_id (query s)))) (bool_decide (here (ol_supply_w_id x))))
    (fun rc s' => rc = RCOK /\ wp next_tpcc_state (fun _ s'' => Q RCOK s'') s') s ->
  wp run_txn_state Q s.
Proof.
  intros Hx Hw Hr. unfold TpccTxn.run_txn_state. wp_step. wp_step. wp_step. apply (wp_slift _ _ _ _ Hx); cbv beta.
  wp_step. eapply wp_slift; [apply wh_local_ok|]; cbv beta. wp_step. eapply wp_slift; [apply wh_local_ok|]; cbv beta.
  wp_step. eapply wp_slift; [apply wh_local_ok|]; cbv beta. rewrite (bool_decide_eq_true_2 _ Hw).
  wp_step. eapply wp_mono; [apply Hr|]. intros ? s' [-> Hn].
  rewrite (decide_True (P := RCOK = RCOK)) by done. wp_step. eapply wp_mono; [apply Hn|].
  intros [] s'' HQ. by wp_step.
Qed.

(** A round: the step, then the next state. *)
Lemma round_next fuel h ins sig q st rw nx s x h' ins' sig' q' rw' (Q : option RC -> TpccSt -> Prop) :
  at_ h ins sig q st rw nx s -> is_done s = Ok false -> current_item s = Ok x -> here (q_w_id q) ->
  wp (run_state s x true (bool_decide (here (q_c_w_id q))) (bool_decide (here (ol_supply_w_id x))))
    (fun rc s' => rc = RCOK /\ at_ h' ins' sig' q' st rw' nx s') s ->
  (forall s', at_ h' ins' sig' q' st rw' nx s' -> wp next_tpcc_state (fun _ s'' => wp (run_loop fuel RCOK) Q s'') s') ->
  wp (run_loop (S fuel) RCOK) Q s.
Proof.
  intros Hat Hd Hx Hw Hr Hk. apply loop_round; [done|].
  assert (query s = q) as Eq by by destruct Hat as (? & ? & -> & _).
  apply (state_round _ x); rewrite ?Eq; [done..|]. eapply wp_mono; [apply Hr|]. intros ? s' [-> Hat'].
  split; [done|]. by apply Hk.
Qed.

Lemma round fuel h ins sig q st rw nx s x st' h' ins' sig' q' rw' (Q : option RC -> TpccSt -> Prop) :
  at_ h ins sig q st rw nx s -> is_done s = Ok false -> current_item s = Ok x -> here (q_w_id q) ->
  straight st = Some st' ->
  wp (run_state s x true (bool_decide (here (q_c_w_id q))) (bool_decide (here (ol_supply_w_id x))))
    (fun rc s' => rc = RCOK /\ at_ h' ins' sig' q' st rw' nx s') s ->
  (forall s', at_ h' ins' sig' q' st' rw' nx s' -> wp (run_loop fuel RCOK) Q s') ->
  wp (run_loop (S fuel) RCOK) Q s.
Proof.
  intros Hat Hd Hx Hw Hst Hr Hk. eapply round_next; [done..|]. intros s' Hat'. by eapply wp_straight.
Qed.

Lemma at_members h ins sig q st rw nx s :
  at_ h ins sig q st rw nx s -> state s = st /\ query s = q /\ next_item_id s = nx /\ row s = rw.
Proof. by intros (t & o & -> & _). Qed.

(** Enter the step of the state at hand. *)
#[local] Ltac enter Hat :=
  let E1 := fresh in let E2 := fresh in let E3 := fresh in
  destruct (at_members _ _ _ _ _ _ _ _ Hat) as (E1 & E2 & E3 & _);
  unfold TpccTxn.run_state; rewrite E1, ?E2, ?E3.

(** ** Payment *)

(** The customer of a payment, by last name (the one after half of the chain)
    or by number. *)
Definition customer_of (q : TPCCQuery) (c : Z) : Prop :=
  if q_by_last_name q then
    exists key chain, custNPKey (q_c_last q) (q_c_d_id q) (q_c_w_id q) = Ok key /\
      index_read i_customer_last key (part (q_c_w_id q)) = Ok chain /\
      chain !! (length chain / 2)%nat = Some c
  else exists l, index_read i_customer_id (custKey (q_c_id q) (q_c_d_id q) (q_c_w_id q)) (part (q_c_w_id q))
         = Ok (c :: l).

(** The rows are those of a warehouse, a district and a customer. *)
Definition rows_ok (h : db) (wh d c : Z) : Prop :=
  row_of h wh t_warehouse /\ row_of h d t_district /\ row_of h c t_customer.

(** The query is a payment of this node, and the indexes lead to its rows. *)
Record payment_ok (q : TPCCQuery) (wh d c : Z) : Prop := {
  po_type : q_txn_type q = TPCC_PAYMENT;
  po_here : here (q_w_id q);
  po_customer_here : here (q_c_w_id q);
  po_u64 : Forall is_u64 [q_w_id q; q_d_id q; q_c_id q; q_c_w_id q; q_c_d_id q; q_h_amount q];
  po_wh : finds i_warehouse (q_w_id q) (part (q_w_id q)) wh;
  po_d : finds i_district (distKey (q_d_id q) (q_d_w_id q)) (part (q_w_id q)) d;
  po_c : customer_of q c;
}.

Lemma wp_customer q c s (Q : Z -> TpccSt -> Prop) :
  customer_of q c -> Q c s ->
  wp (find_customer g_dist_per_wh g_cust_per_dist g_num_wh g_part_cnt (q_c_id q) (q_c_w_id q) (q_c_d_id q)
        (q_c_last q) (q_by_last_name q)) Q s.
Proof.
  unfold customer_of, find_customer. destruct (q_by_last_name q).
  - intros (key & chain & Ek & Ei & Ec) HQ. wp_step. apply (wp_slift _ _ _ _ Ek); cbv beta.
    wp_step. apply wp_part. wp_step. unfold read_index. wp_step. apply (wp_slift _ _ _ _ Ei); cbv beta.
    repeat wp_step; [by destruct chain|]. unfold mid_row. rewrite mid_customer, Ec. done.
  - intros (l & Ei) HQ. wp_step. apply wp_part. wp_step. unfold read_index. wp_step.
    apply (wp_slift _ _ _ _ Ei); cbv beta. by repeat wp_step.
Qed.

(** The steps, from any state of the state machine. *)
Section Payment.
Context (q : TPCCQuery) (wh d c : Z) (h : db) (ins : list new_row) (sig : list (access_t * Z)).
Context (st : TPCCRemTxnType) (rw : option Z) (nx : Z) (s : TpccSt).

Abbreviation post := (fun h' ins' sig' rw' => fun rc s' => rc = RCOK /\ at_ h' ins' sig' q st rw' nx s').

Lemma payment_0 :
  finds i_warehouse (q_w_id q) (part (q_w_id q)) wh -> row_of h wh t_warehouse ->
  (length sig < max_accesses)%nat -> at_ h ins sig q st rw nx s ->
  wp (run_payment_0 junk max_accesses g_num_wh g_part_cnt g_wh_update (q_w_id q))
     (post h ins (sig ++ [(if g_wh_update then WR else RD, wh)]) (Some wh)) s.
Proof.
  intros Hf Hr Hl Hat. unfold run_payment_0. wp_step. apply wp_part. wp_step.
  apply (wp_find _ _ _ _ _ _ Hf). intros l. wp_step. apply wp_first.
  eapply wp_into; [done|exact Hr|done|]. auto.
Qed.

Lemma payment_1 :
  row_of h wh t_warehouse ->
  at_ h ins sig q st (Some wh) nx s ->
  wp (run_payment_1 g_wh_update (q_h_amount q))
     (post (hput_list h (if g_wh_update then [(wh, W_YTD, f64_add (hget h wh W_YTD) (q_h_amount q))] else []))
    ins sig (Some wh)) s.
Proof.
  intros Hr Hat. unfold run_payment_1. wp_step. eapply wp_local_row; [done|]. wp_step.
  eapply wp_get; [done|exact Hr|col8_tac|]. wp_step. destruct g_wh_update.
  - eapply wp_set; [done|exact Hr|col8_tac|]. intros s' Hs' _. by wp_step.
  - repeat wp_step. done.
Qed.

Lemma payment_2 :
  finds i_district (distKey (q_d_id q) (q_d_w_id q)) (part (q_w_id q)) d -> row_of h d t_district ->
  (length sig < max_accesses)%nat -> at_ h ins sig q st rw nx s ->
  wp (run_payment_2 junk max_accesses g_dist_per_wh g_num_wh g_part_cnt (q_w_id q) (q_d_id q) (q_d_w_id q))
     (post h ins (sig ++ [(RD, d)]) (Some d)) s.
Proof.
  intros Hf Hr Hl Hat. unfold run_payment_2. wp_step. apply wp_part. wp_step.
  apply (wp_find _ _ _ _ _ _ Hf). intros l. wp_step. apply wp_first.
  eapply wp_into; [done|exact Hr|done|]. auto.
Qed.

Lemma payment_3 :
  row_of h d t_district ->
  at_ h ins sig q st (Some d) nx s ->
  wp (run_payment_3 (q_h_amount q))
     (post (hput h d D_YTD (f64_add (hget h d D_YTD) (q_h_amount q))) ins sig (Some d)) s.
Proof.
  intros Hr Hat. unfold run_payment_3. wp_step. eapply wp_local_row; [done|]. wp_step.
  eapply wp_get; [done|exact Hr|col8_tac|]. wp_step.
  eapply wp_set; [done|exact Hr|col8_tac|]. intros s' Hs' _. by wp_step.
Qed.

Lemma payment_4 :
  customer_of q c -> row_of h c t_customer ->
  (length sig < max_accesses)%nat -> at_ h ins sig q st rw nx s ->
  wp (run_payment_4 junk max_accesses g_dist_per_wh g_cust_per_dist g_num_wh g_part_cnt
        (q_c_id q) (q_c_w_id q) (q_c_d_id q) (q_c_last q) (q_by_last_name q))
     (post h ins (sig ++ [(RD, c)]) (Some c)) s.
Proof.
  intros Hf Hr Hl Hat. unfold run_payment_4. wp_step.
  apply (wp_customer _ _ _ _ Hf).
  eapply wp_into; [done|exact Hr|done|]. auto.
Qed.

Lemma payment_5 :
  Forall is_u64 [q_w_id q; q_d_id q; q_c_id q; q_c_w_id q; q_c_d_id q; q_h_amount q] ->
  row_of h c t_customer ->
  (length ins < max_inserts)%nat -> at_ h ins sig q st (Some c) nx s ->
  wp (run_payment_5 junk max_inserts g_num_wh g_part_cnt row_id
        (q_w_id q) (q_d_id q) (q_c_id q) (q_c_w_id q) (q_c_d_id q) (q_h_amount q))
     (post (hput_list h [(c, C_BALANCE, f64_sub (hget h c C_BALANCE) (q_h_amount q));
                             (c, C_YTD_PAYMENT, f64_add (hget h c C_YTD_PAYMENT) (q_h_amount q));
                             (c, C_PAYMENT_CNT, f64_add (hget h c C_PAYMENT_CNT) (f64_of_uint 1))])
    (ins ++ [history_row q]) sig (Some c)) s.
Proof using in_place parts_ok.
  clear local_txn GET_NODE_ID.
  intros Hu Hc Hl Hat. unfold run_payment_5.
  wp_step. eapply wp_local_row; [done|]. wp_step.
  eapply wp_get; [done|done|col8_tac|]. wp_step.
  eapply wp_set; [done|done|col8_tac|]. intros s1 Hs1 Hk1. wp_step. apply Hk1 in Hc as Hc1.
  eapply wp_get; [done|exact Hc1|col8_tac|]. wp_step.
  eapply wp_set; [done|exact Hc1|col8_tac|]. intros s2 Hs2 Hk2. wp_step. apply Hk2 in Hc1 as Hc2.
  eapply wp_get; [done|exact Hc2|col8_tac|]. wp_step.
  eapply wp_set; [done|exact Hc2|col8_tac|]. intros s3 Hs3 _. wp_step. apply wp_part. wp_step.
  assert (forall a b, a <> b -> col8 t_customer a -> col8 t_customer b -> forall h' v, row_of h' c t_customer ->
    is_u64 v -> hget (hput h' c a v) c b = hget h' c b) as Hne.
  { intros a b' Hab Ha Hb h' v Hr Hv. rewrite (hget_hput _ _ t_customer _ _ _ t_customer) by done.
    rewrite bool_decide_eq_false_2; [done|]. intros [_ ->]. done. }
  eapply wp_new; [exact Hs3|..].
  { unfold all_tables. set_solver. }
  { by apply (bool_decide_unpack _). }
  { rewrite !Forall_cons in Hu. rewrite !Forall_cons. cbn [fst snd]. split_and!; try (apply Hu || col8_tac || done). }
  { done. }
  intros s4 Hs4. wp_step. split; [done|]. unfold hput_list. cbn [foldl fst snd].
  rewrite (Hne C_BALANCE C_YTD_PAYMENT), (Hne C_YTD_PAYMENT C_PAYMENT_CNT), (Hne C_BALANCE C_PAYMENT_CNT) in Hs4
    by first [done | col8_tac | apply f64_add_u64 | apply f64_sub_u64]. done.
Qed.
End Payment.

Lemma is_done_payment h ins sig q st rw nx s :
  at_ h ins sig q st rw nx s -> q_txn_type q = TPCC_PAYMENT ->
  is_done s = Ok (bool_decide (st = TPCC_FIN)) /\ current_item s = Ok (mkItem 0 0 0).
Proof. intros (t & o & -> & _) Et. unfold is_done, current_item. cbn. by rewrite Et. Qed.

Lemma rows_ok_hput h wh d c r t k v :
  rows_ok h wh d c -> row_of h r t -> col8 t k -> rows_ok (hput h r k v) wh d c.
Proof. intros (? & ? & ?) Hr Hk. split_and!; by apply row_of_hput with t. Qed.

Lemma payment_ok_touch p q wh d c : payment_ok q wh d c -> payment_ok (touch p q) wh d c.
Proof. by intros []. Qed.

(** The writes of a payment, with what each step reads. *)
Lemma payment_writes_split h wh d c amount :
  rows_ok h wh d c ->
  let h1 := hput_list h (if g_wh_update then [(wh, W_YTD, f64_add (hget h wh W_YTD) amount)] else []) in
  let h2 := hput h1 d D_YTD (f64_add (hget h1 d D_YTD) amount) in
  rows_ok h1 wh d c /\ rows_ok h2 wh d c /\
  hput_list h (payment_writes g_wh_update h wh d c amount) =
  hput_list h2 [(c, C_BALANCE, f64_sub (hget h2 c C_BALANCE) amount);
                (c, C_YTD_PAYMENT, f64_add (hget h2 c C_YTD_PAYMENT) amount);
                (c, C_PAYMENT_CNT, f64_add (hget h2 c C_PAYMENT_CNT) (f64_of_uint 1))].
Proof.
  intros Hrows h1 h2. destruct Hrows as (Hw & Hd & Hc).
  assert (rows_ok h1 wh d c) as H1.
  { unfold h1. destruct g_wh_update; [|by split_and!]. eapply rows_ok_hput; [by split_and!|done|col8_tac]. }
  assert (forall a k, a <> wh -> hget h1 a k = hget h a k) as E1.
  { intros a k Ha. unfold h1. destruct g_wh_update; [|done]. cbn. by apply hget_hput_ne. }
  assert (d <> wh) by by eapply row_of_ne. assert (c <> wh) by by eapply row_of_ne.
  assert (c <> d) by by eapply row_of_ne.
  assert (forall k, hget h2 c k = hget h c k) as E2.
  { intros k. unfold h2. rewrite hget_hput_ne by done. by apply E1. }
  split_and!; [done|..].
  - eapply rows_ok_hput; [done|apply H1|col8_tac].
  - rewrite !E2. unfold payment_writes, hput_list. rewrite foldl_app. unfold h2. by rewrite E1.
Qed.

(** A round of a payment, by the lemma of its step. *)
#[local] Ltac next_round Hat Ht Hh step :=
  let Hd := fresh "Hd" in let Hi := fresh "Hi" in
  destruct (is_done_payment _ _ _ _ _ _ _ _ Hat Ht) as [Hd Hi];
  eapply round; [exact Hat|exact Hd|exact Hi|exact Hh|reflexivity|
    rewrite (bool_decide_eq_true_2 (here (q_c_w_id _))) by done; enter Hat; eapply step; try exact Hat; eauto; cbn; lia|];
  clear Hat Hd Hi; intros ? Hat.

Lemma payment_loop h h1 h2 q wh d c fuel s rw nx :
  payment_ok q wh d c -> rows_ok h wh d c -> rows_ok h1 wh d c -> rows_ok h2 wh d c ->
  h1 = hput_list h (if g_wh_update then [(wh, W_YTD, f64_add (hget h wh W_YTD) (q_h_amount q))] else []) ->
  h2 = hput h1 d D_YTD (f64_add (hget h1 d D_YTD) (q_h_amount q)) ->
  (3 <= max_accesses)%nat -> (1 <= max_inserts)%nat -> (6 <= fuel)%nat ->
  at_ h [] [] q TPCC_PAYMENT0 rw nx s ->
  wp (run_loop fuel RCOK) (fun r s' => r = Some RCOK /\
    at_ (hput_list h2 [(c, C_BALANCE, f64_sub (hget h2 c C_BALANCE) (q_h_amount q));
                       (c, C_YTD_PAYMENT, f64_add (hget h2 c C_YTD_PAYMENT) (q_h_amount q));
                       (c, C_PAYMENT_CNT, f64_add (hget h2 c C_PAYMENT_CNT) (f64_of_uint 1))])
      [history_row q] [(if g_wh_update then WR else RD, wh); (RD, d); (RD, c)] q TPCC_FIN (Some c) nx s') s.
Proof.
  intros Hok Hr Hr1 Hr2 E1 E2 Ha Hi Hf Hat.
  pose proof (po_here _ _ _ _ Hok) as Hh. pose proof (po_customer_here _ _ _ _ Hok) as Hch.
  destruct Hok as [Ht _ _ Hu Hfw Hfd Hfc]. destruct Hr as (? & ? & ?), Hr1 as (? & ? & ?), Hr2 as (? & ? & ?).
  do 6 (destruct fuel as [|fuel]; [lia|]).
  next_round Hat Ht Hh payment_0.
  next_round Hat Ht Hh payment_1. rewrite <- E1 in Hat.
  next_round Hat Ht Hh payment_2.
  next_round Hat Ht Hh payment_3. rewrite <- E2 in Hat.
  next_round Hat Ht Hh payment_4.
  next_round Hat Ht Hh payment_5.
  apply loop_end; [|done]. by apply (is_done_payment _ _ _ _ _ _ _ _ Hat).
Qed.

(** What [run_txn] does around its loop, at home. *)
Lemma run_txn_home fuel s q (P : TpccSt -> Prop) :
  query s = q -> state s = TPCC_PAYMENT0 \/ state s = TPCC_NEWORDER0 ->
  wp (run_loop fuel RCOK) (fun r s' => r = Some RCOK /\ is_done s' = Ok true /\ P s')
    (set_query (touch g_node_id q) s) ->
  wp (run_txn fuel) (fun r s' => r = Some StartCommit /\ P s') s.
Proof.
  intros <- Hst Hl. unfold TpccTxn.run_txn. do 2 wp_step. rewrite local_txn, bool_decide_eq_true_2 by done.
  cbn [andb]. do 3 wp_step. eapply wp_mono; [exact Hl|]. intros ? s' (-> & Hd & HP).
  do 3 wp_step. apply (wp_slift _ _ _ _ Hd); cbv beta. cbn [andb].
  rewrite bool_decide_eq_true_2 by done. by wp_step.
Qed.

(** ** New order *)

Definition line_ok (l : line) : Prop :=
  finds i_item (ol_i_id (l_item l)) 0 (l_item_row l) /\
  finds i_stock (stockKey (ol_i_id (l_item l)) (ol_supply_w_id (l_item l))) (part (ol_supply_w_id (l_item l)))
    (l_stock_row l) /\
  here (ol_supply_w_id (l_item l)) /\ is_u64 (ol_i_id (l_item l)).

Definition line_rows_ok (h : db) (l : line) : Prop :=
  row_of h (l_item_row l) t_item /\ row_of h (l_stock_row l) t_stock.

(** The query is a new order of this node with these lines, and the indexes
    lead to its rows. *)
Record new_order_ok (q : TPCCQuery) (wh c d : Z) (lines : list line) : Prop := {
  no_type : q_txn_type q = TPCC_NEW_ORDER;
  no_here : here (q_w_id q);
  no_u64 : Forall is_u64 [q_w_id q; q_d_id q; q_c_id q; q_o_entry_d q; q_ol_cnt q];
  no_wh : finds i_warehouse (q_w_id q) (part (q_w_id q)) wh;
  no_c : finds i_customer_id (custKey (q_c_id q) (q_d_id q) (q_w_id q)) (part (q_w_id q)) c;
  no_d : finds i_district (distKey (q_d_id q) (q_w_id q)) (part (q_w_id q)) d;
  no_items : CArray.items (q_items q) = l_item <$> lines;
  no_some : lines <> [];
  no_size : Z.of_nat (length lines) <= UINT64_MAX;
  no_lines : Forall line_ok lines;
}.

Lemma new_order_ok_touch p q wh c d lines :
  new_order_ok q wh c d lines -> new_order_ok (touch p q) wh c d lines.
Proof. by intros []. Qed.
Lemma new_order_ok_o_id o q wh c d lines :
  new_order_ok q wh c d lines -> new_order_ok (set_o_id o q) wh c d lines.
Proof. by intros []. Qed.

Lemma wp_set_o_id h ins sig q st rw nx s o (Q : unit -> TpccSt -> Prop) :
  at_ h ins sig q st rw nx s -> (forall s', at_ h ins sig (set_o_id o q) st rw nx s' -> Q tt s') ->
  wp (smod (fun s => set_query (set_o_id o (query s)) s)) Q s.
Proof. intros (t & p & -> & Hs) HQ. wp_step. apply HQ. by exists t, p. Qed.

Section NewOrder.
Context (q : TPCCQuery) (wh c d : Z) (lines : list line) (ok : new_order_ok q wh c d lines).
Context (h : db) (rows : rows_ok h wh d c).
Context (ins : list new_row) (sig : list (access_t * Z)) (rw : option Z) (nx : Z) (s : TpccSt) (x : Item_no) (b e : bool).

Abbreviation run := (run_state s x true b e).
Abbreviation post := (fun h' ins' sig' q' st rw' => fun rc s' => rc = RCOK /\ at_ h' ins' sig' q' st rw' nx s').

Lemma new_order_0_step :
  (length sig < max_accesses)%nat -> at_ h ins sig q TPCC_NEWORDER0 rw nx s ->
  wp run (post h ins (sig ++ [(RD, wh)]) q TPCC_NEWORDER0 (Some wh)) s.
Proof.
  intros Hl Hat. enter Hat. unfold new_order_0. wp_step. apply wp_part. wp_step.
  apply (wp_find _ _ _ _ _ _ (no_wh _ _ _ _ _ ok)). intros l. wp_step. apply wp_first.
  eapply wp_into; [done|apply rows|done|]. auto.
Qed.

Lemma new_order_1_step :
  at_ h ins sig q TPCC_NEWORDER1 (Some wh) nx s ->
  wp run (post h ins sig q TPCC_NEWORDER1 (Some wh)) s.
Proof.
  intros Hat. enter Hat. unfold new_order_1. wp_step. eapply wp_local_row; [done|]. wp_step.
  eapply wp_get; [done|apply rows|col8_tac|]. by wp_step.
Qed.

Lemma new_order_2_step :
  (length sig < max_accesses)%nat -> at_ h ins sig q TPCC_NEWORDER2 rw nx s ->
  wp run (post h ins (sig ++ [(RD, c)]) q TPCC_NEWORDER2 (Some c)) s.
Proof.
  intros Hl Hat. enter Hat. unfold new_order_2. wp_step. apply wp_part. wp_step.
  apply (wp_find _ _ _ _ _ _ (no_c _ _ _ _ _ ok)). intros l. wp_step. apply wp_first.
  eapply wp_into; [done|apply rows|done|]. auto.
Qed.

Lemma new_order_3_step :
  at_ h ins sig q TPCC_NEWORDER3 (Some c) nx s ->
  wp run (post h ins sig q TPCC_NEWORDER3 (Some c)) s.
Proof.
  intros Hat. enter Hat. unfold new_order_3. wp_step. eapply wp_local_row; [done|]. wp_step.
  eapply wp_get; [done|apply rows|col8_tac|]. by wp_step.
Qed.

Lemma new_order_4_step :
  (length sig < max_accesses)%nat -> at_ h ins sig q TPCC_NEWORDER4 rw nx s ->
  wp run (post h ins (sig ++ [(RD, d)]) q TPCC_NEWORDER4 (Some d)) s.
Proof.
  intros Hl Hat. enter Hat. unfold new_order_4. wp_step. apply wp_part. wp_step.
  apply (wp_find _ _ _ _ _ _ (no_d _ _ _ _ _ ok)). intros l. wp_step. apply wp_first.
  eapply wp_into; [done|apply rows|done|]. auto.
Qed.

Lemma new_order_5_step :
  (S (length ins) < max_inserts)%nat -> at_ h ins sig q TPCC_NEWORDER5 (Some d) nx s ->
  wp run (post (hput h d D_NEXT_O_ID (order_number h d)) (ins ++ order_rows q (order_number h d)) sig
            (set_o_id (order_number h d) q) TPCC_NEWORDER5 (Some d)) s.
Proof.
  intros Hl Hat. enter Hat. unfold new_order_5. wp_step. eapply wp_local_row; [done|]. wp_step.
  eapply wp_get; [done|apply rows|col8_tac|]. wp_step.
  change (wrap64 (hget h d D_NEXT_O_ID + 1)) with (order_number h d).
  eapply wp_set_o_id; [done|]. intros s1 Hs1. wp_step. wp_step.
  destruct (at_members _ _ _ _ _ _ _ _ Hs1) as (_ & Eq & _). rewrite Eq.
  change (q_o_id (set_o_id _ q)) with (order_number h d). wp_step.
  eapply wp_set; [done|apply rows|col8_tac|]. intros s2 Hs2 _. wp_step. apply wp_part. wp_step.
  pose proof (no_u64 _ _ _ _ _ ok) as Hu. rewrite !Forall_cons in Hu.
  assert (is_u64 (order_number h d)) as Ho by apply wrap64_range.
  eapply wp_new; [exact Hs2|..].
  { unfold all_tables. set_solver. }
  { by apply (bool_decide_unpack _). }
  { rewrite !Forall_cons. cbn [fst snd]. split_and!; try (apply Hu || col8_tac || done). by destruct (q_remote q). }
  { lia. }
  intros s3 Hs3. wp_step. eapply wp_new; [exact Hs3|..].
  { unfold all_tables. set_solver. }
  { by apply (bool_decide_unpack _). }
  { rewrite !Forall_cons. cbn [fst snd]. split_and!; try (apply Hu || col8_tac || done). }
  { rewrite length_app. cbn. lia. }
  intros s4 Hs4. wp_step. split; [done|]. rewrite <- app_assoc in Hs4. exact Hs4.
Qed.
End NewOrder.

(** The four steps of a line. *)
Section Line.
Context (q : TPCCQuery) (l : line) (ok : line_ok l) (u64s : is_u64 (q_w_id q) /\ is_u64 (q_d_id q) /\ is_u64 (q_o_id q)).
Context (h : db) (rows : line_rows_ok h l).
Context (ins : list new_row) (sig : list (access_t * Z)) (rw : option Z) (nx : Z) (s : TpccSt) (b : bool).

Abbreviation run := (run_state s (l_item l) true b true).
Abbreviation post := (fun h' ins' sig' st rw' => fun rc s' => rc = RCOK /\ at_ h' ins' sig' q st rw' nx s').

Lemma new_order_6_step :
  (length sig < max_accesses)%nat -> at_ h ins sig q TPCC_NEWORDER6 rw nx s ->
  wp run (post h ins (sig ++ [(RD, l_item_row l)]) TPCC_NEWORDER6 (Some (l_item_row l))) s.
Proof.
  intros Hl Hat. enter Hat. unfold new_order_6. wp_step.
  apply (wp_find _ _ _ _ _ _ (proj1 ok)). intros k. wp_step. apply wp_first.
  eapply wp_into; [done|apply rows|done|]. auto.
Qed.

Lemma new_order_7_step :
  at_ h ins sig q TPCC_NEWORDER7 (Some (l_item_row l)) nx s ->
  wp run (post h ins sig TPCC_NEWORDER7 (Some (l_item_row l))) s.
Proof.
  intros Hat. enter Hat. unfold new_order_7. wp_step. eapply wp_local_row; [done|]. wp_step.
  eapply wp_get; [done|apply rows|col8_tac|]. by wp_step.
Qed.

Lemma new_order_8_step :
  (length sig < max_accesses)%nat -> at_ h ins sig q TPCC_NEWORDER8 rw nx s ->
  wp run (post h ins (sig ++ [(RD, l_stock_row l)]) TPCC_NEWORDER8 (Some (l_stock_row l))) s.
Proof.
  intros Hl Hat. enter Hat. unfold new_order_8. wp_step. apply wp_part. wp_step.
  apply (wp_find _ _ _ _ _ _ (proj1 (proj2 ok))). intros k. wp_step. apply wp_first.
  eapply wp_into; [done|apply rows|done|]. auto.
Qed.

Lemma new_order_9_step :
  is_u64 nx -> (length ins < max_inserts)%nat -> at_ h ins sig q TPCC_NEWORDER9 (Some (l_stock_row l)) nx s ->
  wp run (post (hput_list h (line_writes h (q_remote q) (l_stock_row l) (l_item l)))
    (ins ++ [line_row q (q_o_id q) nx (l_item l)]) sig TPCC_NEWORDER9 (Some (l_stock_row l))) s.
Proof.
  intros Hn Hl Hat. enter Hat. unfold new_order_9. destruct rows as [_ Hst], ok as (_ & _ & _ & Hi).
  wp_step. eapply wp_local_row; [done|]. wp_step.
  eapply wp_get; [done|done|col8_tac|]. wp_step.
  apply wp_mono with (P := fun _ s' => at_ (hput_list h (if q_remote q then [(l_stock_row l, S_REMOTE_CNT,
      wrap64 (hget h (l_stock_row l) S_REMOTE_CNT + 1))] else [])) ins sig q TPCC_NEWORDER9 (Some (l_stock_row l)) nx s'
    /\ row_of (hput_list h (if q_remote q then [(l_stock_row l, S_REMOTE_CNT,
      wrap64 (hget h (l_stock_row l) S_REMOTE_CNT + 1))] else [])) (l_stock_row l) t_stock).
  { destruct (q_remote q); [|by wp_step]. wp_step. eapply wp_get; [done|done|col8_tac|].
    eapply wp_set; [done|done|col8_tac|]. intros s1 Hs1 Hk. split; [done|]. by apply Hk. }
  intros ? s1 [Hs1 Hst1]. wp_step. eapply wp_set; [done|done|col8_tac|]. intros s2 Hs2 _.
  wp_step. apply wp_part. wp_step. eapply wp_new; [exact Hs2|..].
  { unfold all_tables. set_solver. }
  { by apply (bool_decide_unpack _). }
  { rewrite !Forall_cons. cbn [fst snd]. split_and!; try (apply u64s || col8_tac || done). }
  { done. }
  intros s3 Hs3. wp_step. split; [done|]. unfold line_writes, hput_list in *. by rewrite foldl_app.
Qed.
End Line.

(** ** The lines *)

Lemma is_done_new_order h ins sig q st rw nx s :
  at_ h ins sig q st rw nx s -> q_txn_type q = TPCC_NEW_ORDER -> 
  is_done s = Ok ((items_size q <=? nx) || bool_decide (st = TPCC_FIN)).
Proof. intros (t & o & -> & _) Et. unfold is_done. cbn. by rewrite Et. Qed.
(** Where the state depends on the items that are left. *)
Lemma wp_after_5 h ins sig q rw nx s (Q : unit -> TpccSt -> Prop) :
  at_ h ins sig q TPCC_NEWORDER5 rw nx s -> q_txn_type q = TPCC_NEW_ORDER -> nx < items_size q ->
  (forall s', at_ h ins sig q TPCC_NEWORDER6 rw nx s' -> Q tt s') -> wp next_tpcc_state Q s.
Proof.
  intros Hat Ht Hlt HQ. pose proof (is_done_new_order _ _ _ _ _ _ _ _ Hat Ht) as Hd.
  rewrite (proj2 (Z.leb_gt _ _) Hlt) in Hd. cbn [orb] in Hd. rewrite bool_decide_eq_false_2 in Hd by done.
  unfold TpccTxn.next_tpcc_state. do 2 wp_step. rewrite (proj1 (at_members _ _ _ _ _ _ _ _ Hat)). wp_step.
  unfold more_items. rewrite local_txn, Hd. apply (wp_slift _ true); [done|]. cbv beta. wp_step.
  apply HQ. destruct Hat as (t & o & -> & Hs). by exists t, o.
Qed.

Lemma wp_after_9 h ins sig q rw nx s (Q : unit -> TpccSt -> Prop) :
  at_ h ins sig q TPCC_NEWORDER9 rw nx s -> q_txn_type q = TPCC_NEW_ORDER -> is_u64 (nx + 1) ->
  (forall s', at_ h ins sig q (if nx + 1 <? items_size q then TPCC_NEWORDER6 else TPCC_FIN) rw (nx + 1) s' -> Q tt s') ->
  wp next_tpcc_state Q s.
Proof.
  intros Hat Ht Hu HQ. unfold TpccTxn.next_tpcc_state. do 2 wp_step.
  rewrite (proj1 (at_members _ _ _ _ _ _ _ _ Hat)). do 4 wp_step.
  destruct Hat as (t & o & -> & Hs). unfold set_next_item_id. cbn [txn query state row next_item_id out].
  rewrite wrap64_small by done. wp_step.
  assert (at_ h ins sig q TPCC_NEWORDER9 rw (nx + 1) (mkTpcc t q TPCC_NEWORDER9 rw (nx + 1) o)) as Hat by by exists t, o.
  pose proof (is_done_new_order _ _ _ _ _ _ _ _ Hat Ht) as Hd.
  rewrite (bool_decide_eq_false_2 (TPCC_NEWORDER9 = TPCC_FIN)), orb_false_r in Hd by done.
  unfold more_items. rewrite local_txn, Hd.
  apply (wp_slift _ (nx + 1 <? items_size q)); [cbn; by rewrite Z.leb_antisym, negb_involutive|]. cbv beta.
  wp_step. apply HQ. by exists t, o.
Qed.

Lemma line_rows_ok_hputs l writes : forall h,
  Forall (fun w => exists t, row_of h w.1.1 t /\ col8 t w.1.2) writes ->
  line_rows_ok h l -> line_rows_ok (hput_list h writes) l.
Proof.
  induction writes as [|[[r k] v] writes IH]; intros h Hw Hl; [done|]. apply Forall_cons in Hw as [(t & Hr & Hk) Hw].
  cbn in *. apply IH.
  - eapply Forall_impl; [exact Hw|]. intros w (t' & Hr' & Hk'). exists t'. split; [by apply row_of_hput with t|done].
  - destruct Hl. split; by apply row_of_hput with t.
Qed.

Lemma line_writes_ok h remote l x :
  line_rows_ok h l ->
  Forall (fun w => exists t, row_of h w.1.1 t /\ col8 t w.1.2) (line_writes h remote (l_stock_row l) x).
Proof.
  intros [_ Hs]. unfold line_writes. apply Forall_app. split.
  - destruct remote; repeat constructor. exists t_stock. split; [done|col8_tac].
  - repeat constructor. exists t_stock. split; [done|col8_tac].
Qed.

Section Lines.
Context (q : TPCCQuery) (wh c d : Z) (lines : list line) (ok : new_order_ok q wh c d lines) (o_ok : is_u64 (q_o_id q)).

Lemma current_line pre l rest h ins sig st rw s :
  lines = pre ++ l :: rest -> at_ h ins sig q st rw (Z.of_nat (length pre)) s -> current_item s = Ok (l_item l).
Proof.
  intros El (t & o & -> & Hs). unfold current_item. cbn. rewrite (no_type _ _ _ _ _ ok). cbn.
  unfold CArray.get, CArray.count. rewrite (no_items _ _ _ _ _ ok), El, length_fmap, length_app. cbn.
  rewrite (proj2 (Z.ltb_lt _ _)) by lia. rewrite Nat2Z.id, list_lookup_fmap. by rewrite list_lookup_middle.
Qed.

(** Like [next_round] of a payment. *)
#[local] Ltac line_round Hat Hd El step :=
  eapply round; [exact Hat|exact Hd|eapply current_line; [exact El|exact Hat]|
    apply ok|reflexivity|
    rewrite ?(bool_decide_eq_true_2 (here (ol_supply_w_id _))) by done; eapply step; try exact Hat;
      rewrite ?length_app; cbn [length]; try done; try lia|];
  clear Hat Hd; intros ? Hat;
  pose proof (is_done_new_order _ _ _ _ _ _ _ _ Hat (no_type _ _ _ _ _ ok)) as Hd;
  rewrite (proj2 (Z.leb_gt _ _)) in Hd by done; cbn [orb] in Hd; rewrite bool_decide_eq_false_2 in Hd by done.

Lemma line_loop l pre rest h ins sig rw s fuel (Q : option RC -> TpccSt -> Prop) :
  lines = pre ++ l :: rest -> line_rows_ok h l ->
  (length sig + 2 <= max_accesses)%nat -> (length ins + 1 <= max_inserts)%nat ->
  at_ h ins sig q TPCC_NEWORDER6 rw (Z.of_nat (length pre)) s ->
  (forall rw' s', at_ (hput_list h (line_writes h (q_remote q) (l_stock_row l) (l_item l)))
      (ins ++ [line_row q (q_o_id q) (Z.of_nat (length pre)) (l_item l)])
      (sig ++ [(RD, l_item_row l); (RD, l_stock_row l)]) q
      (if Z.of_nat (length pre) + 1 <? items_size q then TPCC_NEWORDER6 else TPCC_FIN) rw'
      (Z.of_nat (length pre) + 1) s' -> wp (run_loop fuel RCOK) Q s') ->
  wp (run_loop (4 + fuel) RCOK) Q s.
Proof.
  intros El Hrows Ha Hi Hat Hk.
  assert (items_size q = Z.of_nat (length lines)) as Esz.
  { unfold items_size, CArray.count. by rewrite (no_items _ _ _ _ _ ok), length_fmap. }
  assert (length lines = (length pre + S (length rest))%nat) as Elen by by rewrite El, length_app.
  pose proof (no_size _ _ _ _ _ ok) as Hsz.
  assert (line_ok l) as Hl.
  { pose proof (no_lines _ _ _ _ _ ok) as Hl. rewrite El in Hl. by apply Forall_app, proj2, Forall_cons in Hl as [? _]. }
  pose proof (proj1 (proj2 (proj2 Hl))) as Hh.
  assert (is_u64 (q_w_id q) /\ is_u64 (q_d_id q) /\ is_u64 (q_o_id q)) as Hu.
  { pose proof (no_u64 _ _ _ _ _ ok) as Hu. rewrite !Forall_cons in Hu. split_and!; [apply Hu|apply Hu|done]. }
  assert (Z.of_nat (length pre) < items_size q) as Hlt by lia.
  assert (is_done s = Ok false) as Hd.
  { rewrite (is_done_new_order _ _ _ _ _ _ _ _ Hat (no_type _ _ _ _ _ ok)).
    rewrite (proj2 (Z.leb_gt _ _) Hlt), bool_decide_eq_false_2 by done. done. }
  line_round Hat Hd El new_order_6_step.
  line_round Hat Hd El new_order_7_step.
  line_round Hat Hd El new_order_8_step.
  eapply round_next; [exact Hat|exact Hd|eapply current_line; [exact El|exact Hat]|apply ok| |].
  - rewrite (bool_decide_eq_true_2 (here (ol_supply_w_id _))) by done. eapply new_order_9_step; try done; unfold is_u64; lia.
  - clear Hat Hd. intros ? Hat. eapply wp_after_9; [exact Hat|apply ok|unfold is_u64; lia|].
    intros s9 Hat'. rewrite <- app_assoc in Hat'. by eapply Hk.
Qed.

Lemma lines_loop : forall rest l pre h ins sig rw s fuel,
  lines = pre ++ l :: rest -> Forall (line_rows_ok h) (l :: rest) ->
  (length sig + 2 * S (length rest) <= max_accesses)%nat -> (length ins + S (length rest) <= max_inserts)%nat ->
  (4 * S (length rest) <= fuel)%nat ->
  at_ h ins sig q TPCC_NEWORDER6 rw (Z.of_nat (length pre)) s ->
  wp (run_loop fuel RCOK) (fun r s' => r = Some RCOK /\ exists rw' nx',
    at_ (lines_spec h q (q_o_id q) (Z.of_nat (length pre)) (l :: rest)).1
      (ins ++ (lines_spec h q (q_o_id q) (Z.of_nat (length pre)) (l :: rest)).2)
      (sig ++ ((fun r => (RD, r)) <$> concat (line_rows <$> l :: rest))) q TPCC_FIN rw' nx' s') s.
Proof.
  induction rest as [|l' rest IH]; intros l pre h ins sig rw s fuel El Hrows Ha Hi Hf Hat;
    apply Forall_cons in Hrows as [Hl Hrows];
    assert (items_size q = Z.of_nat (length lines)) as Esz by
      (unfold items_size, CArray.count; by rewrite (no_items _ _ _ _ _ ok), length_fmap);
    rewrite El, length_app in Esz; cbn [length] in Esz, Ha, Hi, Hf;
    replace fuel with (4 + (fuel - 4))%nat by lia;
    (eapply (line_loop _ _ _ h ins sig); [exact El|exact Hl|lia|lia|exact Hat|]); clear Hat; intros rw' s' Hat;
    destruct l as [x it sr]; cbn [lines_spec l_item l_item_row l_stock_row] in *.
  - rewrite (proj2 (Z.ltb_ge _ _)) in Hat by lia. apply loop_end.
    + rewrite (is_done_new_order _ _ _ _ _ _ _ _ Hat (no_type _ _ _ _ _ ok)).
      by rewrite bool_decide_eq_true_2, orb_true_r.
    + split; [done|]. by exists rw', (Z.of_nat (length pre) + 1).
  - rewrite (proj2 (Z.ltb_lt _ _)) in Hat by lia.
    replace (Z.of_nat (length pre) + 1) with (Z.of_nat (length (pre ++ [mkLine x it sr]))) in Hat |- *
      by (rewrite length_app; cbn; lia).
    eapply wp_mono; [eapply (IH l' (pre ++ [mkLine x it sr]) _ _ _ _ _ _ ); [by rewrite El, <- app_assoc| | | | |exact Hat]|].
    + eapply Forall_impl; [exact Hrows|]. intros k Hk. apply line_rows_ok_hputs; [|done].
      by apply (line_writes_ok h _ (mkLine x it sr)).
    + rewrite length_app. cbn. lia.
    + rewrite length_app. cbn. lia.
    + lia.
    + cbv beta. intros r s'' (-> & rw'' & nx' & Hat'). split; [done|]. exists rw'', nx'.
      rewrite <- !app_assoc in Hat'. exact Hat'.
Qed.
End Lines.

(** The lines depend on the query's warehouse, district and remote flag only. *)
Lemma lines_spec_query q q' : q_remote q' = q_remote q -> q_d_id q' = q_d_id q -> q_w_id q' = q_w_id q ->
  forall lines h o n, lines_spec h q' o n lines = lines_spec h q o n lines.
Proof.
  intros E1 E2 E3. induction lines as [|[x it sr] lines IH]; intros h o n; cbn [lines_spec]; [done|].
  rewrite IH, E1. unfold line_row. by rewrite E2, E3.
Qed.

#[local] Ltac first_round Hat ok El step :=
  let Hd := fresh "Hd" in
  pose proof (is_done_new_order _ _ _ _ _ _ _ _ Hat (no_type _ _ _ _ _ ok)) as Hd;
  rewrite (proj2 (Z.leb_gt _ _)) in Hd by done; cbn [orb] in Hd; rewrite bool_decide_eq_false_2 in Hd by done;
  eapply round; [exact Hat|exact Hd|eapply (current_line _ _ _ _ _ ok []); [exact El|exact Hat]|
    apply ok|reflexivity|eapply step; try exact Hat; eauto; cbn; lia|];
  clear Hat Hd; intros ? Hat.

Lemma new_order_loop h q wh c d l lines fuel s rw :
  new_order_ok q wh c d (l :: lines) -> rows_ok h wh d c -> Forall (line_rows_ok h) (l :: lines) ->
  (5 + 2 * length lines <= max_accesses)%nat -> (3 + length lines <= max_inserts)%nat ->
  (10 + 4 * length lines <= fuel)%nat ->
  at_ h [] [] q TPCC_NEWORDER0 rw 0 s ->
  wp (run_loop fuel RCOK) (fun r s' => r = Some RCOK /\ exists q' rw' nx',
    at_ (new_order_spec h q d (l :: lines)).1 (new_order_spec h q d (l :: lines)).2
      ((fun r => (RD, r)) <$> new_order_rows wh c d (l :: lines)) q' TPCC_FIN rw' nx' s' /\
    q_txn_type q' = TPCC_NEW_ORDER) s.
Proof.
  intros ok Hrows Hlines Ha Hi Hf Hat.
  assert (items_size q = Z.of_nat (length (l :: lines))) as Esz.
  { unfold items_size, CArray.count. by rewrite (no_items _ _ _ _ _ ok), length_fmap. }
  assert (0 < items_size q) as Hlt by (rewrite Esz; cbn; lia).
  assert (l :: lines = [] ++ l :: lines) as El by done.
  do 6 (destruct fuel as [|fuel]; [lia|]).
  first_round Hat ok El new_order_0_step.
  first_round Hat ok El new_order_1_step.
  first_round Hat ok El new_order_2_step.
  first_round Hat ok El new_order_3_step.
  first_round Hat ok El new_order_4_step.
  pose proof (is_done_new_order _ _ _ _ _ _ _ _ Hat (no_type _ _ _ _ _ ok)) as Hd.
  rewrite (proj2 (Z.leb_gt _ _)) in Hd by done; cbn [orb] in Hd; rewrite bool_decide_eq_false_2 in Hd by done.
  eapply round_next; [exact Hat|exact Hd|eapply (current_line _ _ _ _ _ ok []); [exact El|exact Hat]|apply ok| |].
  { eapply new_order_5_step; try exact Hat; eauto; cbn; lia. }
  clear Hat Hd. intros ? Hat.
  eapply wp_after_5; [exact Hat|apply ok|exact Hlt|]. clear Hat. intros ? Hat.
  pose proof (new_order_ok_o_id (order_number h d) _ _ _ _ _ ok) as ok'.
  eapply wp_mono; [eapply (lines_loop _ _ _ _ _ ok'); [apply wrap64_range|exact El| | | | |exact Hat]|].
  - eapply Forall_impl; [exact Hlines|]. intros k [Hk1 Hk2].
    split; eapply row_of_hput; first [apply Hrows|done|col8_tac].
  - cbn. lia.
  - cbn. lia.
  - lia.
  - cbv beta. intros r s9 (-> & rw' & nx' & Hat'). split; [done|]. 
    exists (set_o_id (order_number h d) q), rw', nx'. split; [|apply ok].
    rewrite (lines_spec_query q) in Hat' by done. exact Hat'.
Qed.

End Effects.

(** ** Under two-phase locking *)

Section TwoPhaseLocking.
Context `{!Config} `{!RowIndex}.
Context (junk : nat -> Z) (max_accesses max_inserts : nat).
Context (g_dist_per_wh g_cust_per_dist g_max_items g_num_wh g_part_cnt : Z) (g_wh_update : bool).
Context (GET_NODE_ID : Z -> Z) (txn_id : Z) (base : QueryMessage) (row_id : Z).
Context (lock_alg : CC_ALG = CC_NO_WAIT \/ CC_ALG = CC_WAIT_DIE).
Context (parts_ok : g_part_cnt <= g_num_wh) (local_txn : is_local txn_id = true).
Context (n0 : Z).

Abbreviation run_txn := (TpccTxn.run_txn junk max_accesses max_inserts g_dist_per_wh g_cust_per_dist
  g_max_items g_num_wh g_part_cnt g_wh_update GET_NODE_ID txn_id base row_id).
Abbreviation payment_ok := (payment_ok g_dist_per_wh g_cust_per_dist g_part_cnt GET_NODE_ID).
Abbreviation new_order_ok := (new_order_ok g_dist_per_wh g_cust_per_dist g_max_items g_part_cnt GET_NODE_ID).

(** C5. A payment has the effect of its specification.  At the home node of
    its warehouse and of its customer, under two-phase locking with the locks
    granted, a run from the first state ends after at most six rounds in the
    commit protocol; the amount is then added to the district (and, where
    WH_UPDATE is set, to the warehouse), subtracted from the balance of the
    customer and added to what the customer has paid, and the payments are
    counted; no other row has changed; one history row waits to be inserted;
    and the rows were accessed in this order: warehouse, district, customer. *)
Theorem payment_refines (h : db) (q : TPCCQuery) (wh d c : Z) (fuel : nat) (s : TpccSt)
    (Hok : payment_ok q wh d c) (Hrows : rows_ok h wh d c)
    (Haccesses : (3 <= max_accesses)%nat) (Hinserts : (1 <= max_inserts)%nat) (Hfuel : (6 <= fuel)%nat)
    (Hsim : sim n0 h [] [] (txn s)) (Hquery : query s = q) (Hstate : state s = TPCC_PAYMENT0) :
  wp (run_txn fuel) (fun r s' => r = Some StartCommit /\
    sim n0 (hput_list h (payment_writes g_wh_update h wh d c (q_h_amount q))) [history_row q]
      [(if g_wh_update then WR else RD, wh); (RD, d); (RD, c)] (txn s')) s.
Proof.
  destruct (payment_writes_split g_wh_update h wh d c (q_h_amount q) Hrows) as (H1 & H2 & ->).
  assert (payment_ok (touch g_node_id q) wh d c) as Hok' by by eapply payment_ok_touch.
  eapply run_txn_home; [done|exact Hquery|by left|].
  eapply wp_mono; [eapply payment_loop; [by left|done|exact Hok'|exact Hrows|exact H1|exact H2|done..|]|].
  - exists (txn s), (out s). rewrite <- Hquery, <- Hstate. by destruct s.
  - cbv beta. intros ? s' [-> Hat]. edestruct is_done_payment as [Hd _]; [exact Hat|by eapply po_type|].
    split; [done|]. split; [done|]. destruct Hat as (t & o & -> & Hs). exact Hs.
Qed.

(** C3. A new order has the effect of its specification.  At the home node,
    under two-phase locking with the locks granted, a run from the first state
    takes six rounds and four for each line and ends in the commit protocol,
    for every value of the rollback flag: the order number of the district
    goes up by one, the stock of each line gives its quantity (91 more where
    too little would be left) and, for a remote order, counts it; no other row
    has changed; the order, the new-order row and one row for each line wait
    to be inserted, all with that number, the lines numbered from zero; and
    the rows were accessed in the order warehouse, customer, district, and
    item and stock of each line, all of them to read. *)
Theorem new_order_refines (h : db) (q : TPCCQuery) (wh c d : Z) (lines : list line) (fuel : nat) (s : TpccSt)
    (Hok : new_order_ok q wh c d lines) (Hrows : rows_ok h wh d c) (Hlines : Forall (line_rows_ok h) lines)
    (Haccesses : (3 + 2 * length lines <= max_accesses)%nat) (Hinserts : (2 + length lines <= max_inserts)%nat)
    (Hfuel : (6 + 4 * length lines <= fuel)%nat)
    (Hsim : sim n0 h [] [] (txn s)) (Hquery : query s = q) (Hstate : state s = TPCC_NEWORDER0)
    (Hnext : next_item_id s = 0) :
  wp (run_txn fuel) (fun r s' => r = Some StartCommit /\
    sim n0 (new_order_spec h q d lines).1 (new_order_spec h q d lines).2
      ((fun r => (RD, r)) <$> new_order_rows wh c d lines) (txn s')) s.
Proof.
  assert (new_order_ok (touch g_node_id q) wh c d lines) as Hok' by by eapply new_order_ok_touch.
  destruct lines as [|l lines]; [by eapply no_some in Hok|]. cbn [length] in *.
  eapply run_txn_home; [done|exact Hquery|by right|].
  eapply wp_mono; [eapply new_order_loop; [by left|done|done|exact Hok'|exact Hrows|exact Hlines|lia|lia|lia|]|].
  - exists (txn s), (out s). rewrite <- Hquery, <- Hstate, <- Hnext. by destruct s.
  - cbv beta. intros ? s' (-> & q' & rw' & nx' & Hat & Ht'). split; [done|]. split.
    + erewrite is_done_new_order by (exact Hat || exact Ht'). by rewrite bool_decide_eq_true_2, orb_true_r.
    + destruct Hat as (t & o & -> & Hs). cbn [txn]. unfold new_order_spec in *.
      rewrite (lines_spec_query q) in Hs by done. exact Hs.
Qed.

End TwoPhaseLocking.
