(* ===== verification/TpccExample.v ===== *)
(** * TpccExample: TPC-C transactions on a concrete database

    One warehouse with a district, a customer, an item and its stock, and the
    two transactions of [TpccEffects] on it. *)

From stdpp Require Import base tactics numbers list gmap strings.
From Stdlib Require Import ZArith Lia.
From S2P Require Import Prelude Wire CArray Message QueryMessage RowData TxnAccess TxnUndo TpccKeys TpccQuery.
From S2P Require Import TpccSchema TpccTxn TpccRuns TpccSpec TpccRefine TpccEffects.
#[local] Open Scope Z_scope.

(** A table of the schema. *)
#[local] Ltac in_tables := unfold all_tables; repeat first [left | right].

Module Database.
Definition config : Config :=
  {| CC_ALG := CC_NO_WAIT; WORKLOAD := WL_TPCC; g_node_id := 0; g_node_cnt := 1;
     g_client_node_cnt := 1; g_repl_cnt := 0; g_synth_table_size := 1024; g_req_per_query := 10;
     g_msg_size := 4096; g_msg_time_limit := 0; myrand_next := fun k => k |}.
#[local] Existing Instance config.

(** Rows 1 to 5: warehouse, district, customer, item and stock. *)
Definition index : RowIndex :=
  {| index_read i key p :=
       Ok [match i with i_warehouse => 1 | i_district => 2 | i_customer_id | i_customer_last => 3
           | i_item => 4 | i_stock => 5 end] |}.
#[local] Existing Instance index.

Definition row (c : Catalog) : row_t := row_init (fun _ => 0) c 0 0.
(** A row with one column set. *)
Definition row_with (c : Catalog) (id : nat) (v : Z) : row_t :=
  match set_value_u64 id v (row c) with Ok r => r | AssertFail => row c end.
Definition h : db :=
  {[1 := row t_warehouse; 2 := row_with t_district D_NEXT_O_ID 3001; 3 := row t_customer;
    4 := row t_item; 5 := row_with t_stock S_QUANTITY 14]}.

Definition base : QueryMessage := mkQuery (mkMessage RQRY 0 0 0 0 0 0 0 0 0 0 0 0 0) 0 0 0 0.
(** 10.0. *)
Definition ten : Z := f64_of_uint 10.
Definition payment : TPCCQuery :=
  mkTPCCQ TPCC_PAYMENT 1 1 1 1 1 1 [] ten false CArray.new false false 0 0 0 0 [0] [].
Definition x : Item_no := mkItem 4 1 7.
Definition new_order : TPCCQuery :=
  mkTPCCQ TPCC_NEW_ORDER 1 1 1 0 0 0 [] 0 false (CArray.mkArray [x] 10) true true 1 2013 0 0 [0] [].
Definition lines : list line := [mkLine x 4 5].
Definition t0 : TxnSt := mkTxnSt h 10 [] 0 0 [] [] None RD [] [].
Definition start (q : TPCCQuery) (st : TPCCRemTxnType) : TpccSt := mkTpcc t0 q st None 0 [].

(** Two accesses for each line and three more are enough. *)
Abbreviation run := (run_txn (fun _ => 0) 5 3 10 3000 1000 1 1 false (fun p => p) 0 base 0).

Lemma table_row_wf c : c ∈ all_tables -> row_wf (row c).
Proof. intros Hc. apply row_init_wf. pose proof tables_wf as Hw. rewrite Forall_forall in Hw. auto. Qed.
Lemma row_with_wf c id v : c ∈ all_tables -> row_wf (row_with c id v) /\ table (row_with c id v) = c.
Proof.
  intros Hc. unfold row_with. destruct (set_value_u64 id v (row c)) as [r|] eqn:E.
  - apply set_value_shape in E as (d & -> & Hd). pose proof (table_row_wf c Hc) as [Hw Hl].
    split; [|done]. split; [done|]. cbn in *. by rewrite Hd.
  - split; [by apply table_row_wf|done].
Qed.

Lemma h_row a r : h !! a = Some r -> 0 < a < 10 /\ row_wf r.
Proof.
  unfold h. intros Ha.
  assert (forall c, c ∈ all_tables -> row_wf (row c)) as Hr by apply table_row_wf.
  assert (forall c id v, c ∈ all_tables -> row_wf (row_with c id v)) as Hw by (intros; by apply row_with_wf).
  repeat (apply lookup_insert_Some in Ha as [[<- <-]|[_ Ha]];
    [split; [lia|]; first [apply Hr | apply Hw]; in_tables|]).
  apply lookup_singleton_Some in Ha as [<- <-]. split; [lia|]. apply Hw. in_tables.
Qed.

Lemma t0_sim : sim 10 h [] [] t0.
Proof.
  split; [done|..|done|constructor|done|constructor].
  intros a r Ha. apply h_row in Ha as [? ?]. split; [lia|done].
Qed.

Lemma h_rows : rows_ok h 1 2 3.
Proof.
  split_and!; eexists; (split; [reflexivity|]); first
    [apply row_with_wf; in_tables
    |split; [apply table_row_wf; in_tables|done]].
Qed.
Lemma h_lines : Forall (line_rows_ok h) lines.
Proof.
  repeat constructor; eexists; (split; [reflexivity|]); first
    [apply row_with_wf; in_tables
    |split; [apply table_row_wf; in_tables|done]].
Qed.
End Database.

(** The district has 10.0 more, the balance of the customer is -10.0. *)
Lemma payment_refines_witness :
  let _ := Database.config in let _ := Database.index in
  exists s', Database.run 6 (Database.start Database.payment TPCC_PAYMENT0) = Ok (Some StartCommit, s') /\
    hget (heap (txn s')) 2 D_YTD = Database.ten /\
    hget (heap (txn s')) 3 C_BALANCE = f64_sub 0 Database.ten /\
    hget (heap (txn s')) 1 W_YTD = 0.
Proof.
  intros cfg ind. assert (CC_ALG = CC_NO_WAIT \/ CC_ALG = CC_WAIT_DIE) as Halg by by left.
  assert (payment_ok 10 3000 1 (fun p => p) Database.payment 1 2 3) as Hok.
  { split; try done; [|by eexists..]. apply (bool_decide_unpack _). vm_compute. done. }
  pose proof (payment_refines (fun _ => 0) 5 3 10 3000 1000 1 1 false (fun p => p) 0 Database.base 0 Halg
    ltac:(lia) eq_refl 10 Database.h Database.payment 1 2 3 6 (Database.start Database.payment TPCC_PAYMENT0)
    Hok Database.h_rows ltac:(lia) ltac:(lia) ltac:(lia) Database.t0_sim eq_refl eq_refl) as Hw.
  destruct (wp_inv _ _ _ Hw) as (r & s' & E & -> & Hs). exists s'. split; [exact E|].
  unfold hget. rewrite !(sim_heap _ _ _ _ _ Hs) by done.
  split_and!; by vm_compute.
Defined.

(** Order 3002 is taken; 14 - 7 is too little, so 91 more are put in stock. *)
Lemma new_order_refines_witness :
  let _ := Database.config in let _ := Database.index in
  exists s', Database.run 10 (Database.start Database.new_order TPCC_NEWORDER0) = Ok (Some StartCommit, s') /\
    hget (heap (txn s')) 2 D_NEXT_O_ID = 3002 /\ hget (heap (txn s')) 5 S_QUANTITY = 98 /\
    hget (heap (txn s')) 5 S_REMOTE_CNT = 1 /\ length (insert_rows (txn s')) = 3%nat.
Proof.
  intros cfg ind. assert (CC_ALG = CC_NO_WAIT \/ CC_ALG = CC_WAIT_DIE) as Halg by by left.
  assert (new_order_ok 10 3000 1000 1 (fun p => p) Database.new_order 1 3 2 Database.lines) as Hok.
  { split; try done; try by eexists.
    - by apply (bool_decide_unpack _).
    - repeat constructor; try by eexists. all: by vm_compute. }
  pose proof (new_order_refines (fun _ => 0) 5 3 10 3000 1000 1 1 false (fun p => p) 0 Database.base 0 Halg
    ltac:(lia) eq_refl 10 Database.h Database.new_order 1 3 2 Database.lines 10
    (Database.start Database.new_order TPCC_NEWORDER0)
    Hok Database.h_rows Database.h_lines ltac:(cbn; lia) ltac:(cbn; lia) ltac:(cbn; lia) Database.t0_sim
    eq_refl eq_refl eq_refl) as Hw.
  destruct (wp_inv _ _ _ Hw) as (r & s' & E & -> & Hs). exists s'. split; [exact E|].
  unfold hget. rewrite !(sim_heap _ _ _ _ _ Hs) by done.
  split_and!; [by vm_compute..|]. by rewrite <- (Forall2_length _ _ _ (sim_ins _ _ _ _ _ Hs)).
Defined.

(** A run that waits for a lock leaves the loop as well. *)
Lemma tpcc_run_terminates_witness :
  let _ := Database.config in let _ := Database.index in
  wlp (Database.run 6) (fun r _ => r <> None) (Database.start Database.payment TPCC_PAYMENT0) /\
  (rounds_left (Database.start Database.payment TPCC_PAYMENT0) = 6)%nat.
Proof.
  intros cfg ind. assert (state_ok (Database.start Database.payment TPCC_PAYMENT0)) as Hok by
    (split; [by left|done|done]).
  destruct (tpcc_run_terminates (fun _ => 0) 5 3 10 3000 1000 1 1 false (fun p => p) 0 Database.base 0 6
    (Database.start Database.payment TPCC_PAYMENT0) Hok ltac:(cbn; lia)) as [Hw _].
  split; [exact Hw|done].
Defined.

Lemma row_set_get_witness :
  exists r, set_value_u64 D_NEXT_O_ID 3002 (Database.row t_district) = Ok r /\
    get_value_u64 D_NEXT_O_ID r = Ok 3002 /\ get_value_u64 D_YTD r = Ok 0.
Proof.
  destruct (row_set_get (Database.row t_district) D_NEXT_O_ID (mkColumn 10 8 (col_index (default (mkColumn 0 0 0 "" "")
    (columns t_district !! D_NEXT_O_ID))) "int64_t" "D_NEXT_O_ID") 3002) as (r & E & _ & _ & Eg & Ho).
  - apply Database.table_row_wf. in_tables.
  - done.
  - done.
  - done.
  - exists r. split_and!; [done|done|]. unfold get_value_u64. by rewrite (Ho D_YTD _ 8%nat eq_refl).
Defined.
