(* ===== verification/CalvinExec.v ===== *)
(** * CalvinExec: how a node runs its part of a transaction under Calvin

    Model of the phases of [run_calvin_txn] (benchmarks/tpcc_txn.cpp; that of
    ycsb_txn.cpp has the same loop), of [send_remote_reads],
    [calvin_exec_phase_done], [calvin_collect_phase_done] and
    [received_response] (system/txn.cpp), and of [process_calvin_rtxn],
    [process_rfwd] and [calvin_wrapup] (system/worker_thread.cpp).

    What a transaction reads and writes in phases 2 and 5 is an argument: the
    type [D] of its state, the two computations on it, and the computation of
    the participants.  [TpccCalvin] gives those of TPC-C.  A value of the type
    [int] or [uint32_t] is an integer; a counter of type [int] that overflows
    is a failure. *)

From stdpp Require Import base tactics numbers list.
From Stdlib Require Import ZArith Lia.
From S2P Require Import Prelude Wire CArray Message TxnAccess.
#[local] Open Scope Z_scope.

(** [CALVIN_PHASE] of global.h. *)
Inductive CalvinPhase :=
| CALVIN_RW_ANALYSIS | CALVIN_LOC_RD | CALVIN_SERVE_RD | CALVIN_COLLECT_RD | CALVIN_EXEC_WR | CALVIN_DONE.
#[global] Instance CalvinPhase_eq_dec : EqDecision CalvinPhase.
Proof. solve_decision. Defined.

(** What the transaction manager keeps for Calvin, next to the state [work] of
    the stored procedure.  [sent] and [acks] are what it has handed to the
    message queue: a forward with its destination, and the node that an
    acknowledgement goes to. *)
Record CalvinTxn {D : Type} := mkCalvin {
  work : D;
  phase : CalvinPhase;
  participant_nodes : Array Z;
  active_nodes : Array Z;
  calvin_expected_rsp_cnt : Z;
  rsp_cnt : Z;
  txn_rc : RC;
  return_id : Z;
  sent : list (Z * ForwardMessage);
  acks : list Z;
  released : bool;
}.
Arguments CalvinTxn : clear implicits.
Arguments mkCalvin {D}.

Section Setters.
Context {D : Type}.
Implicit Type s : CalvinTxn D.
Definition set_work (w : D) s : CalvinTxn D :=
  mkCalvin w (phase s) (participant_nodes s) (active_nodes s) (calvin_expected_rsp_cnt s) (rsp_cnt s)
    (txn_rc s) (return_id s) (sent s) (acks s) (released s).
Definition set_phase (p : CalvinPhase) s : CalvinTxn D :=
  mkCalvin (work s) p (participant_nodes s) (active_nodes s) (calvin_expected_rsp_cnt s) (rsp_cnt s)
    (txn_rc s) (return_id s) (sent s) (acks s) (released s).
Definition set_nodes (p a : Array Z) (n : Z) s : CalvinTxn D :=
  mkCalvin (work s) (phase s) p a n (rsp_cnt s) (txn_rc s) (return_id s) (sent s) (acks s) (released s).
Definition set_rsp (n : Z) (rc : RC) s : CalvinTxn D :=
  mkCalvin (work s) (phase s) (participant_nodes s) (active_nodes s) (calvin_expected_rsp_cnt s) n
    rc (return_id s) (sent s) (acks s) (released s).
Definition set_sent (l : list (Z * ForwardMessage)) s : CalvinTxn D :=
  mkCalvin (work s) (phase s) (participant_nodes s) (active_nodes s) (calvin_expected_rsp_cnt s) (rsp_cnt s)
    (txn_rc s) (return_id s) l (acks s) (released s).
Definition set_acks (l : list Z) (b : bool) s : CalvinTxn D :=
  mkCalvin (work s) (phase s) (participant_nodes s) (active_nodes s) (calvin_expected_rsp_cnt s) (rsp_cnt s)
    (txn_rc s) (return_id s) (sent s) l b.
End Setters.

Section Exec.
Context `{!Config} {D : Type}.
(** [get_participants], phases 2 and 5, and [release_locks] of the workload;
    the order number in its query; and what [mcopy_from_txn] puts into a
    message. *)
Context (get_participants : D -> Array Z -> Array Z -> res (Array Z * Array Z * Z)).
Context (run_phase2 run_phase5 : ST D RC) (release_locks : ST D unit).
Context (query_o_id : D -> Z) (fwd_base : Message) (YCSB_ABORT_MODE : bool).

Abbreviation CV := (ST (CalvinTxn D)).

Definition on_work {A} (m : ST D A) : CV A := fun s =>
  match m (work s) with Ok (a, w) => Ok (a, set_work w s) | AssertFail => AssertFail end.

Definition calvin_exec_phase_done (s : CalvinTxn D) : bool :=
  bool_decide (phase s = CALVIN_DONE) && negb (bool_decide (txn_rc s = WAIT)).
(** [get_rsp_cnt] returns the [int] as a [uint64_t]. *)
Definition calvin_collect_phase_done (s : CalvinTxn D) : bool :=
  bool_decide (phase s = CALVIN_COLLECT_RD) && (wrap64 (rsp_cnt s) =? calvin_expected_rsp_cnt s).

(** [ForwardMessage::copy_from_txn]. *)
Definition forward_message (s : CalvinTxn D) : ForwardMessage :=
  mkForward fwd_base (txn_rc s) (if wl_is WL_TPCC then query_o_id (work s) else 0).

(** The loop of [send_remote_reads], from node [i] on, [n] nodes. *)
Fixpoint send_to_active (i : Z) (n : nat) : CV unit :=
  match n with
  | O => mret tt
  | S n' =>
      (if i =? g_node_id then mret tt
       else
         s ← sget;
         x ← slift (CArray.get (active_nodes s) i);
         if x =? 1 then smod (set_sent (sent s ++ [(i, forward_message s)])) else mret tt);;;
      send_to_active (i + 1) n'
  end.
Definition send_remote_reads : CV RC :=
  sassert (cc_is CC_CALVIN);;;
  if negb YCSB_ABORT_MODE && wl_is WL_YCSB then mret RCOK
  else
    s ← sget;
    sassert (CArray.count (active_nodes s) =? g_node_cnt);;;
    send_to_active 0 (length (CArray.items (active_nodes s)));;;
    mret RCOK.

(** A round of the loop of [run_calvin_txn]; its [rc] is [RCOK] before. *)
Definition run_phase : CV RC :=
  s ← sget;
  match phase s with
  | CALVIN_RW_ANALYSIS =>
      x ← slift (get_participants (work s) (participant_nodes s) (active_nodes s));
      me ← slift (CArray.get x.1.1 g_node_id);
      let n := wrap32 x.2 in
      smod (set_nodes x.1.1 x.1.2 (if me =? 1 then wrap32 (n - 1) else n));;;
      smod (set_phase CALVIN_LOC_RD);;;
      mret RCOK
  | CALVIN_LOC_RD =>
      rc ← on_work run_phase2;
      smod (set_phase CALVIN_SERVE_RD);;;
      mret rc
  | CALVIN_SERVE_RD =>
      me ← slift (CArray.get (participant_nodes s) g_node_id);
      rc ← (if me =? 1 then send_remote_reads else mret RCOK);
      active ← slift (CArray.get (active_nodes s) g_node_id);
      if active =? 1 then
        smod (set_phase CALVIN_COLLECT_RD);;;
        s ← sget;
        if calvin_collect_phase_done s then mret RCOK
        else sassert (0 <? calvin_expected_rsp_cnt s);;; mret WAIT
      else smod (set_phase CALVIN_DONE);;; mret RCOK
  | CALVIN_COLLECT_RD => smod (set_phase CALVIN_EXEC_WR);;; mret RCOK
  | CALVIN_EXEC_WR =>
      rc ← on_work run_phase5;
      smod (set_phase CALVIN_DONE);;;
      mret rc
  | CALVIN_DONE => sassert false;;; mret RCOK
  end.

(** [while(!calvin_exec_phase_done() && rc == RCOK)]; nothing when the fuel
    runs out. *)
Fixpoint run_calvin_loop (fuel : nat) (rc : RC) : CV (option RC) :=
  s ← sget;
  if calvin_exec_phase_done s || negb (bool_decide (rc = RCOK)) then mret (Some rc)
  else match fuel with
       | O => mret None
       | S fuel' => rc' ← run_phase; run_calvin_loop fuel' rc'
       end.

(** There are six phases: the loop ends after six rounds at the latest. *)
Definition run_calvin_txn : CV RC :=
  r ← run_calvin_loop 6 RCOK; deref r.

(** ** The worker thread *)

Definition ISSERVERN (id : Z) : bool := id <? g_node_cnt.

(** The locks are released, the sequencer of the transaction's node gets an
    acknowledgement, and the transaction manager goes back to its pool. *)
Definition calvin_wrapup : CV unit :=
  on_work release_locks;;;
  smod (fun s => set_acks (acks s ++ [return_id s]) true s).

Definition process_calvin_rtxn : CV RC :=
  s ← sget;
  sassert (ISSERVERN (return_id s));;;
  rc ← run_calvin_txn;
  s ← sget;
  (if bool_decide (rc = RCOK) && calvin_exec_phase_done s then calvin_wrapup else mret tt);;;
  mret RCOK.

(** [received_response] under Calvin. *)
Definition received_response (rc : RC) : CV Z :=
  s ← sget;
  sassert (bool_decide (txn_rc s = RCOK \/ txn_rc s = Abort));;;
  sassert (rsp_cnt s <? 2147483647);;;
  smod (set_rsp (rsp_cnt s + 1) (if decide (txn_rc s = RCOK) then rc else txn_rc s));;;
  mret (rsp_cnt s + 1).

Definition process_rfwd (msg : ForwardMessage) : CV RC :=
  sassert (cc_is CC_CALVIN);;;
  responses_left ← received_response (fwd_rc msg);
  sassert (0 <=? responses_left);;;
  s ← sget;
  if calvin_collect_phase_done s then
    sassert (ISSERVERN (return_id s));;;
    rc ← run_calvin_txn;
    s ← sget;
    if bool_decide (rc = RCOK) && calvin_exec_phase_done s then calvin_wrapup;;; mret RCOK
    else mret WAIT
  else mret WAIT.

End Exec.
