(* ===== verification/CalvinRendezvous.v ===== *)
(** * CalvinRendezvous: the nodes of a transaction wait for each other

    The participants of one transaction under Calvin, each of them running
    [CalvinExec], and a network that delivers forwarded reads in any order:
    no node executes its writes before every participant has done its local
    reads, no assertion fails, no message comes too late, and every run ends
    with every participant done and acknowledged once. *)

From stdpp Require Import base tactics numbers list sorting relations.
From Stdlib Require Import ZArith Lia.
From S2P Require Import Prelude Wire CArray Message TxnAccess TpccQuery TpccQueryFacts CalvinExec.
#[local] Open Scope Z_scope.

(** A computation whose first part is known. *)
Lemma bind_ok {S A B} (m : ST S A) (k : A -> ST S B) a s s' :
  m s = Ok (a, s') -> mbind k m s = k a s'.
Proof. intros E. unfold mbind, ST_bind. by rewrite E. Qed.

(** ** One node *)

Section Node.
Context `{!Config} {D : Type}.
Context (get_participants : D -> Array Z -> Array Z -> res (Array Z * Array Z * Z)).
Context (run_phase2 run_phase5 : ST D RC) (release_locks : ST D unit).
Context (query_o_id : D -> Z) (fwd_base : Message) (YCSB_ABORT_MODE : bool).

Abbreviation run_phase := (run_phase get_participants run_phase2 run_phase5 query_o_id fwd_base YCSB_ABORT_MODE).
Abbreviation run_calvin_loop :=
  (run_calvin_loop get_participants run_phase2 run_phase5 query_o_id fwd_base YCSB_ABORT_MODE).
Abbreviation run_calvin_txn :=
  (run_calvin_txn get_participants run_phase2 run_phase5 query_o_id fwd_base YCSB_ABORT_MODE).
Abbreviation process_calvin_rtxn :=
  (process_calvin_rtxn get_participants run_phase2 run_phase5 release_locks query_o_id fwd_base YCSB_ABORT_MODE).
Abbreviation process_rfwd :=
  (process_rfwd get_participants run_phase2 run_phase5 release_locks query_o_id fwd_base YCSB_ABORT_MODE).
Abbreviation forward_message := (forward_message query_o_id fwd_base).

Lemma wp_on_work {A} (m : ST D A) (Q : A -> CalvinTxn D -> Prop) s :
  wp m (fun a w => Q a (set_work w s)) (work s) -> wp (on_work m) Q s.
Proof. unfold wp, on_work. by destruct (m (work s)) as [[a w]|]. Qed.

(** The participants of a transaction. *)
Context (P : list Z).
Definition me : Z := g_node_id.

(** The nodes among [i], [i + 1], ... that get a message. *)
Fixpoint targets (i : Z) (k : nat) : list Z :=
  match k with
  | O => []
  | S k' => (if bool_decide (i <> me /\ i ∈ P) then [i] else []) ++ targets (i + 1) k'
  end.

Lemma elem_of_targets k : forall i x, x ∈ targets i k <-> i <= x < i + Z.of_nat k /\ x <> me /\ x ∈ P.
Proof.
  induction k as [|k IH]; intros i x; cbn [targets]; [split; [by intros ?%not_elem_of_nil|lia]|].
  rewrite elem_of_app, IH. case_bool_decide; [rewrite list_elem_of_singleton|rewrite elem_of_nil];
    (destruct (decide (x = i)) as [->|]; [naive_solver lia|]; split; [intros [?|?]|]; try done; try naive_solver lia);
    intros (? & ? & ?); right; (split_and!; [lia..|done|done]).
Qed.
Lemma NoDup_targets k : forall i, NoDup (targets i k).
Proof.
  induction k as [|k IH]; intros i; cbn [targets]; [constructor|]. apply NoDup_app. split_and!; [|intros x|done].
  - case_bool_decide; [apply NoDup_singleton|constructor].
  - case_bool_decide; [|by intros ?%not_elem_of_nil]. intros ->%list_elem_of_singleton.
    rewrite elem_of_targets. lia.
Qed.

(** There are [n] nodes, and this node takes part. *)
Context (n : nat).
Context (calvin : CC_ALG = CC_CALVIN) (no_shortcut : negb YCSB_ABORT_MODE && wl_is WL_YCSB = false).
Context (nodes : g_node_cnt = Z.of_nat n) (me_in : g_node_id ∈ P) (P_set : NoDup P).
Context (P_nodes : Forall (fun i => 0 <= i < Z.of_nat n) P) (n_small : Z.of_nat n < 2147483647).

Definition others : Z := Z.of_nat (length P) - 1.

Lemma in_nodes i : i ∈ P -> 0 <= i < Z.of_nat n.
Proof. intros Hi. rewrite Forall_forall in P_nodes. by apply P_nodes. Qed.
Lemma P_length : (length P <= n)%nat.
Proof.
  assert (P ⊆+ (Z.of_nat <$> seq 0 n)) as Hs%submseteq_length.
  { apply NoDup_submseteq; [done|]. intros i Hi. apply list_elem_of_fmap. exists (Z.to_nat i).
    apply in_nodes in Hi. split; [lia|]. apply elem_of_seq. lia. }
  by rewrite length_fmap, length_seq in Hs.
Qed.
Lemma others_range : 0 <= others < Z.of_nat n.
Proof.
  unfold others. pose proof P_length. destruct P; [by apply not_elem_of_nil in me_in|]. cbn in *. lia.
Qed.
Lemma me_range : 0 <= me < Z.of_nat n.
Proof. by apply in_nodes. Qed.

(** The forwards of the local reads: one to each other participant. *)
Definition forwards (s : CalvinTxn D) : list (Z * ForwardMessage) :=
  (fun i => (i, forward_message s)) <$> targets 0 n.

Lemma send_to_active_ok k : forall i (s : CalvinTxn D), 0 <= i -> i + Z.of_nat k <= Z.of_nat n -> ones n P (active_nodes s) ->
  send_to_active query_o_id fwd_base i k s =
  Ok (tt, set_sent (sent s ++ ((fun i => (i, forward_message s)) <$> targets i k)) s).
Proof.
  induction k as [|k IH]; intros i s Hi Hk Ha; cbn [send_to_active targets].
  { rewrite app_nil_r. by destruct s. }
  assert ((if i =? g_node_id then mret tt
       else s0 ← sget; x ← slift (CArray.get (active_nodes s0) i);
         if x =? 1 then smod (set_sent (sent s0 ++ [(i, forward_message s0)])) else mret tt) s =
    Ok (tt, set_sent (sent s ++ ((fun i => (i, forward_message s)) <$>
      (if bool_decide (i <> me /\ i ∈ P) then [i] else []))) s)) as E.
  { destruct (Z.eqb_spec i g_node_id) as [->|Hne].
    - rewrite bool_decide_eq_false_2 by (unfold me; naive_solver). cbn. rewrite app_nil_r. by destruct s.
    - unfold mbind, ST_bind, sget, slift. rewrite (get_ones n P) by (done || lia). cbn [mbind res_bind mret res_ret].
      destruct (decide (i ∈ P)).
      + rewrite !bool_decide_eq_true_2 by (unfold me; done). done.
      + rewrite !bool_decide_eq_false_2 by naive_solver. cbn. rewrite app_nil_r. by destruct s. }
  rewrite (bind_ok _ _ _ _ _ E). rewrite IH by (done || lia). rewrite fmap_app, app_assoc. by destruct s.
Qed.

(** A manager that knows the participants. *)
Record knows (s : CalvinTxn D) : Prop := {
  k_parts : ones n P (participant_nodes s);
  k_active : ones n P (active_nodes s);
  k_expected : calvin_expected_rsp_cnt s = others;
  k_rc : txn_rc s = RCOK;
  k_return : return_id s < g_node_cnt;
}.

Lemma get_me a : ones n P a -> CArray.get a g_node_id = Ok 1.
Proof. intros Ha. rewrite (get_ones n P) by (done || apply me_range). by rewrite bool_decide_eq_true_2. Qed.

Lemma collect_done_iff s : knows s -> 0 <= rsp_cnt s <= others ->
  calvin_collect_phase_done s = bool_decide (phase s = CALVIN_COLLECT_RD /\ rsp_cnt s = others).
Proof.
  intros Hk Hr. unfold calvin_collect_phase_done. rewrite (k_expected _ Hk). pose proof others_range.
  unfold wrap64. rewrite Z.mod_small by lia. destruct (Z.eqb_spec (rsp_cnt s) others) as [->|].
  - rewrite andb_true_r. apply bool_decide_ext. naive_solver.
  - rewrite andb_false_r, bool_decide_eq_false_2; naive_solver.
Qed.

(** The states of a manager that takes part. *)
Section Runs.
Context (w0 w1 w2 w3 : D) (empty p a : Array Z) (home : Z) (acked : list Z) (e0 : Z).
Context (home_ok : home < g_node_cnt).
Context (parts_ok : get_participants w0 empty empty = Ok (p, a, Z.of_nat (length P))).
Context (p_ones : ones n P p) (a_ones : ones n P a).
Context (reads_ok : run_phase2 w0 = Ok (RCOK, w1)).

(** Before it starts, with [r] messages received; and afterwards. *)
Definition waiting_st (r : Z) : CalvinTxn D :=
  mkCalvin w0 CALVIN_RW_ANALYSIS empty empty e0 r RCOK home [] acked false.
Definition running (w : D) (ph : CalvinPhase) (r : Z) (out : list (Z * ForwardMessage)) : CalvinTxn D :=
  mkCalvin w ph p a others r RCOK home out acked false.
Definition finished (out : list (Z * ForwardMessage)) : CalvinTxn D :=
  mkCalvin w3 CALVIN_DONE p a others others RCOK home out (acked ++ [home]) true.

Lemma knows_running w ph r out : knows (running w ph r out).
Proof. by split. Qed.

Lemma loop_step fuel s s' rc :
  calvin_exec_phase_done s = false -> run_phase s = Ok (rc, s') ->
  run_calvin_loop (S fuel) RCOK s = run_calvin_loop fuel rc s'.
Proof.
  intros Hd E. cbn [CalvinExec.run_calvin_loop]. rewrite (bind_ok sget _ s s s) by done. rewrite Hd. cbn [orb].
  rewrite bool_decide_eq_true_2 by done. cbn [negb]. by rewrite (bind_ok _ _ _ _ _ E).
Qed.
Lemma loop_stop fuel s rc :
  calvin_exec_phase_done s = true \/ rc <> RCOK -> run_calvin_loop fuel rc s = Ok (Some rc, s).
Proof.
  intros Hd. destruct fuel; cbn [CalvinExec.run_calvin_loop]; rewrite (bind_ok sget _ s s s) by done;
    (destruct Hd as [->|]; [done|]); rewrite (bool_decide_eq_false_2 (rc = RCOK)) by done; by rewrite orb_true_r.
Qed.

Lemma analysis_phase r : run_phase (waiting_st r) = Ok (RCOK, running w0 CALVIN_LOC_RD r []).
Proof.
  unfold CalvinExec.run_phase. rewrite (bind_ok sget _ _ _ _ eq_refl). cbn [phase waiting_st].
  rewrite (bind_ok (slift _) _ (p, a, Z.of_nat (length P)) _ (waiting_st r)) by (unfold slift; cbn; by rewrite parts_ok).
  cbn [fst snd]. rewrite (bind_ok (slift _) _ 1 _ (waiting_st r)) by (unfold slift; by rewrite get_me).
  cbn [Z.eqb Pos.eqb]. cbv zeta. rewrite (bind_ok (smod _) _ _ _ _ eq_refl), (bind_ok (smod _) _ _ _ _ eq_refl).
  unfold mret, ST_ret, running, waiting_st, set_nodes, set_phase. cbn. pose proof others_range as Ho.
  replace (wrap32 (wrap32 (Z.of_nat (length P)) - 1)) with others; [done|].
  unfold wrap32, others in *. rewrite (Z.mod_small (Z.of_nat _)), Z.mod_small by lia. done.
Qed.
Lemma reads_phase r : run_phase (running w0 CALVIN_LOC_RD r []) = Ok (RCOK, running w1 CALVIN_SERVE_RD r []).
Proof.
  unfold CalvinExec.run_phase. rewrite (bind_ok sget _ _ _ _ eq_refl). cbn [phase running].
  rewrite (bind_ok (on_work run_phase2) _ RCOK _ (running w1 CALVIN_LOC_RD r [])); [done|].
  unfold on_work. cbn [work running]. by rewrite reads_ok.
Qed.

(** The reads served: one message to each other participant. *)
Definition served : list (Z * ForwardMessage) := forwards (running w1 CALVIN_SERVE_RD 0 []).

Lemma serve_phase r : 0 <= r <= others ->
  run_phase (running w1 CALVIN_SERVE_RD r []) =
  Ok (if r =? others then RCOK else WAIT, running w1 CALVIN_COLLECT_RD r served).
Proof.
  intros Hr. unfold CalvinExec.run_phase. rewrite (bind_ok sget _ _ _ _ eq_refl).
  cbn [phase participant_nodes active_nodes running].
  rewrite (bind_ok (slift _) _ 1 _ (running w1 CALVIN_SERVE_RD r [])) by (unfold slift; by rewrite get_me).
  cbn [Z.eqb Pos.eqb].
  rewrite (bind_ok (send_remote_reads _ _ _) _ RCOK _ (running w1 CALVIN_SERVE_RD r served)).
  - rewrite (bind_ok (slift _) _ 1 _ (running w1 CALVIN_SERVE_RD r served)) by (unfold slift; by rewrite get_me).
    cbn [Z.eqb Pos.eqb]. cbv beta.
    rewrite (bind_ok (smod (set_phase CALVIN_COLLECT_RD)) _ tt (running w1 CALVIN_SERVE_RD r served)
      (running w1 CALVIN_COLLECT_RD r served) eq_refl).
    rewrite (bind_ok sget _ _ _ _ eq_refl).
    rewrite collect_done_iff by (done || apply knows_running). cbn [phase rsp_cnt calvin_expected_rsp_cnt running].
    destruct (Z.eqb_spec r others) as [->|Hne].
    + by rewrite bool_decide_eq_true_2.
    + rewrite bool_decide_eq_false_2 by naive_solver.
      rewrite (bind_ok (sassert _) _ tt _ (running w1 CALVIN_COLLECT_RD r served)); [done|].
      unfold sassert. by rewrite (proj2 (Z.ltb_lt _ _)) by lia.
  - unfold send_remote_reads. unfold cc_is. rewrite (bool_decide_eq_true_2 _ calvin), no_shortcut.
    rewrite (bind_ok (sassert true) _ _ _ _ eq_refl), (bind_ok sget _ _ _ _ eq_refl).
    assert (length (CArray.items a) = n) as Ea by (rewrite a_ones; unfold ones_of; by rewrite length_fmap, length_seq).
    cbn [active_nodes running]. unfold CArray.count. rewrite Ea, nodes, Z.eqb_refl.
    rewrite (bind_ok (sassert true) _ _ _ _ eq_refl).
    rewrite (bind_ok _ _ tt _ (running w1 CALVIN_SERVE_RD r served)); [done|]. by rewrite send_to_active_ok.
Qed.

Context (writes_ok : run_phase5 w1 = Ok (RCOK, w2)).

Lemma execute out fuel :
  run_calvin_loop (2 + fuel) RCOK (running w1 CALVIN_COLLECT_RD others out) =
  Ok (Some RCOK, running w2 CALVIN_DONE others out).
Proof.
  cbn [Nat.add]. erewrite loop_step by done. erewrite (loop_step _ _ (running w2 CALVIN_DONE others out)); [|done|].
  - apply loop_stop. by left.
  - unfold CalvinExec.run_phase. rewrite (bind_ok sget _ _ _ _ eq_refl). cbn [phase set_phase running].
    rewrite (bind_ok (on_work run_phase5) _ RCOK _ (running w2 CALVIN_EXEC_WR others out)); [done|].
    unfold on_work. cbn [work set_phase running]. by rewrite writes_ok.
Qed.

Lemma run_from_start r : 0 <= r <= others ->
  run_calvin_txn (waiting_st r) =
  if r =? others then Ok (RCOK, running w2 CALVIN_DONE others served)
  else Ok (WAIT, running w1 CALVIN_COLLECT_RD r served).
Proof.
  intros Hr. unfold CalvinExec.run_calvin_txn.
  assert (run_calvin_loop 6 RCOK (waiting_st r) =
    run_calvin_loop 3 (if r =? others then RCOK else WAIT) (running w1 CALVIN_COLLECT_RD r served)) as E.
  { erewrite loop_step by (done || apply analysis_phase). erewrite loop_step by (done || apply reads_phase).
    by erewrite loop_step by (done || by apply serve_phase). }
  destruct (Z.eqb_spec r others) as [->|].
  - rewrite (execute served 1 : run_calvin_loop 3 RCOK _ = _) in E. by rewrite (bind_ok _ _ _ _ _ E).
  - rewrite (loop_stop 3) in E by (by right). by rewrite (bind_ok _ _ _ _ _ E).
Qed.

Context (release_ok : release_locks w2 = Ok (tt, w3)).

Lemma wrapup_ok out :
  calvin_wrapup release_locks (running w2 CALVIN_DONE others out) = Ok (tt, finished out).
Proof.
  unfold calvin_wrapup. rewrite (bind_ok (on_work release_locks) _ tt _ (running w3 CALVIN_DONE others out)); [done|].
  unfold on_work. cbn [work running]. by rewrite release_ok.
Qed.

(** The node starts: all its messages are there, or it waits for them. *)
Lemma start_ok r : 0 <= r <= others ->
  process_calvin_rtxn (waiting_st r) =
  Ok (RCOK, if r =? others then finished served else running w1 CALVIN_COLLECT_RD r served).
Proof.
  intros Hr. unfold CalvinExec.process_calvin_rtxn. rewrite (bind_ok sget _ _ _ _ eq_refl). cbn [return_id waiting_st].
  unfold ISSERVERN. rewrite (proj2 (Z.ltb_lt _ _) home_ok), (bind_ok (sassert true) _ _ _ _ eq_refl).
  pose proof (run_from_start r Hr) as E. destruct (r =? others).
  - rewrite (bind_ok _ _ _ _ _ E), (bind_ok sget _ _ _ _ eq_refl). cbn [calvin_exec_phase_done phase running txn_rc].
    unfold calvin_exec_phase_done. cbn [phase running txn_rc].
    rewrite !bool_decide_eq_true_2, bool_decide_eq_false_2 by done. cbn [andb negb].
    by rewrite (bind_ok _ _ _ _ _ (wrapup_ok _)).
  - by rewrite (bind_ok _ _ _ _ _ E).
Qed.

Lemma response_ok r (s : CalvinTxn D) : rsp_cnt s = r -> txn_rc s = RCOK -> 0 <= r < others ->
  received_response RCOK s = Ok (r + 1, set_rsp (r + 1) RCOK s).
Proof.
  intros Er Erc Hr. pose proof others_range. unfold received_response. rewrite (bind_ok sget _ _ _ _ eq_refl).
  rewrite Er, Erc, (bind_ok (sassert _) _ tt _ s), (bind_ok (sassert _) _ tt _ s); [done| |].
  - unfold sassert. by rewrite (proj2 (Z.ltb_lt _ _)) by lia.
  - unfold sassert. by rewrite bool_decide_eq_true_2 by (by left).
Qed.

(** The body of [process_rfwd] up to the check whether all reads are there. *)
Lemma rfwd_received msg (s : CalvinTxn D) r : fwd_rc msg = RCOK -> rsp_cnt s = r -> txn_rc s = RCOK -> 0 <= r < others ->
  process_rfwd msg s =
  (s ← sget;
   if calvin_collect_phase_done s then
     sassert (ISSERVERN (return_id s));;;
     rc ← run_calvin_txn;
     s ← sget;
     if bool_decide (rc = RCOK) && calvin_exec_phase_done s then calvin_wrapup release_locks;;; mret RCOK
     else mret WAIT
   else mret WAIT) (set_rsp (r + 1) RCOK s).
Proof.
  intros Hm Er Erc Hr. unfold CalvinExec.process_rfwd. unfold cc_is. rewrite (bool_decide_eq_true_2 _ calvin), Hm.
  rewrite (bind_ok (sassert true) _ _ _ _ eq_refl), (bind_ok _ _ _ _ _ (response_ok r s Er Erc Hr)).
  rewrite (bind_ok (sassert _) _ tt _ (set_rsp (r + 1) RCOK s)); [done|].
  unfold sassert. by rewrite (proj2 (Z.leb_le _ _)) by lia.
Qed.

(** A message at a node that has not started. *)
Lemma rfwd_early msg r : fwd_rc msg = RCOK -> 0 <= r < others ->
  process_rfwd msg (waiting_st r) = Ok (WAIT, waiting_st (r + 1)).
Proof. intros Hm Hr. by rewrite (rfwd_received msg _ r). Qed.

(** A message at a node that collects reads: the last one lets it go on. *)
Lemma rfwd_collect msg r : fwd_rc msg = RCOK -> 0 <= r < others ->
  process_rfwd msg (running w1 CALVIN_COLLECT_RD r []) =
  Ok (if r + 1 =? others then RCOK else WAIT,
      if r + 1 =? others then finished [] else running w1 CALVIN_COLLECT_RD (r + 1) []).
Proof.
  intros Hm Hr. rewrite (rfwd_received msg _ r) by done.
  change (set_rsp (r + 1) RCOK (running w1 CALVIN_COLLECT_RD r [])) with (running w1 CALVIN_COLLECT_RD (r + 1) []).
  rewrite (bind_ok sget _ _ _ _ eq_refl), collect_done_iff by (cbn; lia || apply knows_running).
  cbn [phase rsp_cnt return_id running]. destruct (Z.eqb_spec (r + 1) others) as [->|Hne].
  - rewrite bool_decide_eq_true_2 by done. unfold ISSERVERN.
    rewrite (proj2 (Z.ltb_lt _ _) home_ok), (bind_ok (sassert true) _ _ _ _ eq_refl).
    rewrite (bind_ok run_calvin_txn _ RCOK _ (running w2 CALVIN_DONE others [])).
    + rewrite (bind_ok sget _ _ _ _ eq_refl). unfold calvin_exec_phase_done. cbn [phase running txn_rc].
      rewrite !bool_decide_eq_true_2, bool_decide_eq_false_2 by done. cbn [andb negb].
      by rewrite (bind_ok _ _ _ _ _ (wrapup_ok _)).
    + unfold CalvinExec.run_calvin_txn. by rewrite (bind_ok _ _ _ _ _ (execute [] 4 : run_calvin_loop 6 RCOK _ = _)).
  - by rewrite bool_decide_eq_false_2 by naive_solver.
Qed.
End Runs.
End Node.

(** Counting in a set of nodes. *)
Lemma remove_length (i : Z) (l : list Z) : NoDup l -> i ∈ l -> Z.of_nat (length (filter (fun k => k <> i) l)) = Z.of_nat (length l) - 1.
Proof.
  intros Hnd Hi. apply list_elem_of_split in Hi as (l1 & l2 & ->).
  apply NoDup_app in Hnd as (_ & H1 & [H2 _]%NoDup_cons).
  rewrite filter_app, filter_cons_False by (intros []; done).
  assert (forall l : list Z, i ∉ l -> filter (fun k => k <> i) l = l) as Hf.
  { induction l as [|x l IH]; [done|]. intros [Hx Hl]%not_elem_of_cons. rewrite filter_cons_True by done. by rewrite IH. }
  rewrite (Hf l1), (Hf l2); [|done|].
  - rewrite !length_app. cbn. lia.
  - intros Hin. apply (H1 i Hin). set_solver.
Qed.
Lemma filter_filter_and (b : Z -> bool) (i : Z) (l : list Z) :
  filter (fun k => k <> i /\ b k = true) l = filter (fun k => b k = true) (filter (fun k => k <> i) l).
Proof.
  induction l as [|x l IH]; [done|]. destruct (decide (x = i)) as [->|Hx].
  - rewrite filter_cons_False by naive_solver. by rewrite (filter_cons_False (fun k => k <> i)) by naive_solver.
  - rewrite (filter_cons_True (fun k => k <> i)) by done. destruct (decide (b x = true)).
    + rewrite !filter_cons_True by done. by rewrite IH.
    + rewrite !filter_cons_False by naive_solver. by rewrite IH.
Qed.
Lemma length_filter_bool (b : Z -> bool) (l : list Z) :
  (length (filter (fun k => b k = true) l) <= length l)%nat /\
  (length (filter (fun k => b k = true) l) = length l -> Forall (fun k => b k = true) l).
Proof.
  induction l as [|x l [IH1 IH2]]; [by split; [|constructor]|]. destruct (decide (b x = true)).
  - rewrite filter_cons_True by done. cbn. split; [lia|]. intros. constructor; [done|]. apply IH2. lia.
  - rewrite filter_cons_False by done. cbn. split; [lia|]. lia.
Qed.

Lemma filter_all (b : Z -> bool) (l : list Z) : Forall (fun k => b k = true) l -> filter (fun k => b k = true) l = l.
Proof. induction 1; [done|]. rewrite filter_cons_True by done. by f_equal. Qed.
Lemma length_filter_set (b : Z -> bool) (i : Z) (l : list Z) : NoDup l -> b i = false ->
  length (filter (fun k => fset i true b k = true) l) =
  (length (filter (fun k => b k = true) l) + if decide (i ∈ l) then 1 else 0)%nat.
Proof.
  intros Hnd Hb. induction l as [|x l IH]; [done|]. apply NoDup_cons in Hnd as [Hx Hnd]. specialize (IH Hnd).
  destruct (decide (x = i)) as [->|Hne].
  - rewrite filter_cons_True by apply fset_eq. rewrite filter_cons_False by congruence. cbn [length]. rewrite IH.
    rewrite (decide_False (P := i ∈ l)) by done. rewrite decide_True by left. lia.
  - assert (fset i true b x = b x) as E by by apply fset_ne. destruct (decide (b x = true)).
    + rewrite !filter_cons_True by congruence. cbn [length]. rewrite IH.
      destruct (decide (i ∈ l)); [rewrite decide_True by (by right)|rewrite decide_False by (set_solver)]; lia.
    + rewrite !filter_cons_False by congruence. rewrite IH.
      destruct (decide (i ∈ l)); [rewrite decide_True by (by right)|rewrite decide_False by (set_solver)]; lia.
Qed.

(** ** All nodes and the network *)

Section System.
Context {D : Type} (n : nat) (P : list Z) (cfg : Z -> Config).
(** The workload at each node, the state of the stored procedure there when
    the transaction arrives, what an uninitialised counter holds, and the node
    whose sequencer has the transaction. *)
Context (get_participants : Z -> D -> Array Z -> Array Z -> res (Array Z * Array Z * Z)).
Context (run_phase2 run_phase5 : Z -> ST D RC) (release_locks : Z -> ST D unit).
Context (query_o_id : D -> Z) (fwd_base : Z -> Message) (YCSB_ABORT_MODE : bool).
Context (init : Z -> D) (uninit home : Z).

Record Sys := mkSys {
  node : Z -> CalvinTxn D;
  net : list (Z * ForwardMessage);
  begun : Z -> bool;
  acked : list Z;
}.

(** The manager that [get_transaction_manager] finds: a new one when the
    transaction has none. *)
Definition no_nodes : Array Z := CArray.mkArray [] (Z.of_nat n).
Definition fresh (i : Z) : CalvinTxn D :=
  mkCalvin (init i) CALVIN_RW_ANALYSIS no_nodes no_nodes uninit 0 RCOK home [] [] false.
Definition manager (s : Sys) (i : Z) : CalvinTxn D :=
  if released (node s i) then fresh i else node s i.

(** A worker at node [i] handles a message; what it sends leaves the node. *)
Definition at_node (i : Z) (m : ST (CalvinTxn D) RC) (l : list (Z * ForwardMessage)) (b : Z -> bool) (s : Sys) : res Sys :=
  match m (manager s i) with
  | Ok (_, t) =>
      Ok (mkSys (fset i (set_acks [] (released t) (set_sent [] t)) (node s)) (l ++ sent t) b (acked s ++ acks t))
  | AssertFail => AssertFail
  end.
Definition start_node (i : Z) (s : Sys) : res Sys :=
  at_node i (@process_calvin_rtxn (cfg i) D (get_participants i) (run_phase2 i) (run_phase5 i) (release_locks i)
    query_o_id (fwd_base i) YCSB_ABORT_MODE) (net s) (fset i true (begun s)) s.
Definition deliver (i : Z) (m : ForwardMessage) (l : list (Z * ForwardMessage)) (s : Sys) : res Sys :=
  at_node i (@process_rfwd (cfg i) D (get_participants i) (run_phase2 i) (run_phase5 i) (release_locks i)
    query_o_id (fwd_base i) YCSB_ABORT_MODE m) l (begun s) s.

Definition start_sys : Sys := mkSys fresh [] (fun _ => false) [].

(** A participant starts, or a message arrives; messages overtake each other. *)
Inductive rendezvous_step : Sys -> Sys -> Prop :=
| step_start i s s' : i ∈ P -> begun s i = false -> start_node i s = Ok s' -> rendezvous_step s s'
| step_deliver i m l1 l2 s s' :
    net s = l1 ++ (i, m) :: l2 -> deliver i m (l1 ++ l2) s = Ok s' -> rendezvous_step s s'.

(** What is known of the workload: each participant computes the same
    participants, and the local reads and the writes succeed there. *)
Context (w1 w2 w3 : Z -> D) (p a : Z -> Array Z).
Record workload_ok : Prop := {
  wl_calvin i : i ∈ P -> @CC_ALG (cfg i) = CC_CALVIN;
  wl_shortcut i : i ∈ P -> negb YCSB_ABORT_MODE && @wl_is (cfg i) WL_YCSB = false;
  wl_nodes i : i ∈ P -> @g_node_cnt (cfg i) = Z.of_nat n;
  wl_id i : i ∈ P -> @g_node_id (cfg i) = i;
  wl_set : NoDup P;
  wl_range : Forall (fun i => 0 <= i < Z.of_nat n) P;
  wl_small : Z.of_nat n < 2147483647;
  wl_home : home < Z.of_nat n;
  wl_parts i : i ∈ P -> get_participants i (init i) no_nodes no_nodes = Ok (p i, a i, Z.of_nat (length P));
  wl_p i : i ∈ P -> ones n P (p i);
  wl_a i : i ∈ P -> ones n P (a i);
  wl_reads i : i ∈ P -> run_phase2 i (init i) = Ok (RCOK, w1 i);
  wl_writes i : i ∈ P -> run_phase5 i (w1 i) = Ok (RCOK, w2 i);
  wl_release i : i ∈ P -> release_locks i (w2 i) = Ok (tt, w3 i);
}.

Context (ok : workload_ok).

Abbreviation others := (others P).
Abbreviation waiting i r := (waiting_st (init i) no_nodes home [] uninit r).
Abbreviation collecting i r := (running P (p i) (a i) home [] (w1 i) CALVIN_COLLECT_RD r []).
Definition done (i : Z) : CalvinTxn D :=
  mkCalvin (w3 i) CALVIN_DONE (p i) (a i) others others RCOK home [] [] true.
Abbreviation served i := (@served (cfg i) D query_o_id (fwd_base i) P n (w1 i) (p i) (a i) home []).

(** Messages on their way to a node; and the other participants that have
    started. *)
Definition coming (s : Sys) (i : Z) : Z := Z.of_nat (length (filter (fun x => x.1 = i) (net s))).
Definition senders (b : Z -> bool) (i : Z) : Z := Z.of_nat (length (filter (fun k => k <> i /\ b k = true) P)).

Record node_ok (s : Sys) (i : Z) : Prop := {
  no_state : exists r, 0 <= r <= others /\
    node s i = if begun s i then (if r =? others then done i else collecting i r) else waiting i r;
  no_count : rsp_cnt (node s i) + coming s i = senders (begun s) i;
}.
Record sys_ok (s : Sys) : Prop := {
  so_nodes i : i ∈ P -> node_ok s i;
  so_net : Forall (fun x => x.1 ∈ P /\ fwd_rc x.2 = RCOK) (net s);
  so_acked : acked s = replicate (length (filter (fun i => released (node s i) = true) P)) home;
}.

Lemma senders_le b i : i ∈ P -> senders b i <= others.
Proof.
  intros Hi. unfold senders, CalvinRendezvous.others. rewrite filter_filter_and.
  rewrite <- (remove_length i P) by (done || apply ok). pose proof (proj1 (length_filter_bool b (filter (fun k => k <> i) P))). lia.
Qed.
(** When every other participant counts, every one has started. *)
Lemma senders_all b i k : i ∈ P -> senders b i = others -> k ∈ P -> k <> i -> b k = true.
Proof.
  intros Hi E Hk Hne. unfold senders, CalvinRendezvous.others in E. rewrite filter_filter_and in E.
  rewrite <- (remove_length i P) in E by (done || apply ok).
  pose proof (proj2 (length_filter_bool b (filter (fun k => k <> i) P)) ltac:(lia)) as Ha.
  rewrite Forall_forall in Ha. apply Ha. by apply list_elem_of_filter.
Qed.

Lemma senders_start b i j : b i = false -> i ∈ P ->
  senders (fset i true b) j = senders b j + (if decide (j = i) then 0 else 1).
Proof.
  intros Hb Hi. unfold senders. rewrite !filter_filter_and.
  rewrite length_filter_set; [|apply NoDup_filter, ok|done].
  destruct (decide (j = i)) as [->|Hne].
  - rewrite decide_False; [lia|]. rewrite list_elem_of_filter. by intros [].
  - rewrite decide_True; [lia|]. by apply list_elem_of_filter.
Qed.

(** What a node serves arrives once at each other participant. *)
Lemma count_served i j : i ∈ P -> j ∈ P ->
  Z.of_nat (length (filter (fun x : Z * ForwardMessage => x.1 = j) (served i))) = if decide (j = i) then 0 else 1.
Proof.
  intros Hi Hj. unfold CalvinRendezvous.served, forwards.
  set (f := @CalvinExec.forward_message (cfg i) D query_o_id (fwd_base i) _).
  assert (forall l : list Z, NoDup l -> length (filter (fun x : Z * ForwardMessage => x.1 = j) ((fun k => (k, f)) <$> l)) =
    if decide (j ∈ l) then 1%nat else 0%nat) as Hl.
  { induction l as [|x l IH]; [done|]. intros [Hx Hnd]%NoDup_cons. rewrite fmap_cons.
    destruct (decide (x = j)) as [->|Hne].
    - rewrite filter_cons_True by done. cbn [length]. rewrite IH by done. rewrite decide_False by done. by rewrite decide_True by left.
    - rewrite filter_cons_False by done. rewrite IH by done.
      destruct (decide (j ∈ l)); [rewrite decide_True by (by right)|rewrite decide_False by set_solver]; done. }
  rewrite Hl by apply NoDup_targets. pose proof (proj1 (Forall_forall _ _) (wl_range ok) j Hj) as Hr. cbn in Hr.
  unfold me in *. destruct (decide (j = i)) as [->|Hne].
  - rewrite decide_False; [done|]. rewrite elem_of_targets. unfold me. rewrite (wl_id ok i Hi). naive_solver.
  - rewrite decide_True; [done|]. rewrite elem_of_targets. unfold me. rewrite (wl_id ok i Hi). split_and!; [lia..|done|done].
Qed.
Lemma served_ok i : i ∈ P -> Forall (fun x => x.1 ∈ P /\ fwd_rc x.2 = RCOK) (served i).
Proof.
  intros Hi. apply Forall_fmap, Forall_forall. intros x Hx. cbn. split; [|done].
  by apply elem_of_targets in Hx as (_ & _ & Hx).
Qed.

(** ** The steps *)

(** How many steps are left at most. *)
Definition budget (s : Sys) : nat :=
  (length P * (length P - length (filter (fun i => begun s i = true) P)) + length (net s))%nat.

Lemma release_same (s : Sys) i t : i ∈ P -> released t = released (node s i) ->
  length (filter (fun k => released (fset i t (node s) k) = true) P) =
  length (filter (fun k => released (node s k) = true) P).
Proof.
  intros Hi E. f_equal. apply list_filter_iff. intros k. unfold fset. case_decide; [subst; by rewrite E|done].
Qed.
Lemma release_new (s : Sys) i t : i ∈ P -> released (node s i) = false -> released t = true ->
  length (filter (fun k => released (fset i t (node s) k) = true) P) =
  (length (filter (fun k => released (node s k) = true) P) + 1)%nat.
Proof.
  intros Hi Hb Ht.
  rewrite (list_filter_iff _ (fun k => fset i true (fun k => released (node s k)) k = true)).
  - rewrite length_filter_set by (apply ok || done). by rewrite decide_True.
  - intros k. unfold fset. case_decide; [by rewrite Ht|done].
Qed.

(** A node with [r] messages after it started. *)
Definition after (i : Z) (r : Z) : CalvinTxn D := if r =? others then done i else collecting i r.
Definition new_acks (r : Z) : list Z := if r =? others then [home] else [].

Lemma after_rsp i r : rsp_cnt (after i r) = r.
Proof. unfold after. destruct (Z.eqb_spec r others) as [->|]; done. Qed.
Lemma acked_after (s : Sys) i r : i ∈ P -> released (node s i) = false ->
  acked s = replicate (length (filter (fun k => released (node s k) = true) P)) home ->
  acked s ++ new_acks r = replicate (length (filter (fun k => released (fset i (after i r) (node s) k) = true) P)) home.
Proof.
  intros Hi Hb ->. unfold after, new_acks. destruct (Z.eqb_spec r others) as [->|].
  - rewrite (release_new _ _ _ Hi Hb) by done. by rewrite replicate_add.
  - rewrite release_same by done. by rewrite app_nil_r.
Qed.

(** The preconditions of the lemmas on one node. *)
#[local] Ltac at_node_tac Hi :=
  first [done | by apply (wl_calvin ok) | by apply (wl_shortcut ok) | by apply (wl_nodes ok)
    | by rewrite (wl_id ok _ Hi) | apply (wl_set ok) | apply (wl_range ok) | apply (wl_small ok)
    | rewrite (wl_nodes ok _ Hi); apply (wl_home ok) | by apply (wl_parts ok) | by apply (wl_p ok)
    | by apply (wl_a ok) | by apply (wl_reads ok) | by apply (wl_writes ok) | by apply (wl_release ok) ].

Lemma node_started (s : Sys) i r : i ∈ P -> node s i = waiting i r -> 0 <= r <= others ->
  start_node i s =
  Ok (mkSys (fset i (after i r) (node s)) (net s ++ served i) (fset i true (begun s)) (acked s ++ new_acks r)).
Proof.
  intros Hi E Hr. unfold start_node, at_node, manager. rewrite E. cbn [released waiting_st].
  erewrite start_ok by at_node_tac Hi. unfold after, new_acks. by destruct (r =? others).
Qed.
Lemma node_early (s : Sys) i r m l : i ∈ P -> node s i = waiting i r -> 0 <= r < others -> fwd_rc m = RCOK ->
  deliver i m l s = Ok (mkSys (fset i (waiting i (r + 1)) (node s)) (l ++ []) (begun s) (acked s ++ [])).
Proof.
  intros Hi E Hr Hm. unfold deliver, at_node, manager. rewrite E. cbn [released waiting_st].
  by erewrite rfwd_early by at_node_tac Hi.
Qed.
Lemma node_collects (s : Sys) i r m l : i ∈ P -> node s i = collecting i r -> 0 <= r < others -> fwd_rc m = RCOK ->
  deliver i m l s =
  Ok (mkSys (fset i (after i (r + 1)) (node s)) (l ++ []) (begun s) (acked s ++ new_acks (r + 1))).
Proof.
  intros Hi E Hr Hm. unfold deliver, at_node, manager. rewrite E. cbn [released running].
  erewrite rfwd_collect by at_node_tac Hi. unfold after, new_acks. by destruct (r + 1 =? others).
Qed.

Lemma coming_app f b l l' ac j :
  coming (mkSys f (l ++ l') b ac) j = coming (mkSys f l b ac) j + coming (mkSys f l' b ac) j.
Proof. unfold coming. cbn [net]. rewrite filter_app, length_app. lia. Qed.
Lemma coming_ge s j : 0 <= coming s j.
Proof. unfold coming. lia. Qed.

Lemma start_preserves s i : sys_ok s -> i ∈ P -> begun s i = false ->
  exists s', start_node i s = Ok s' /\ sys_ok s' /\ S (budget s') = budget s.
Proof.
  intros [Hn Hm Hack] Hi Hb. destruct (Hn i Hi) as [(r & Hr & E) Hc]. rewrite Hb in E.
  rewrite (node_started s i r Hi E Hr). eexists. split; [done|]. split; [split|].
  - intros j Hj. destruct (Hn j Hj) as [(rj & Hrj & Ej) Hcj]. split; cbn [node begun].
    + destruct (decide (j = i)) as [->|Hne].
      * exists r. split; [done|]. rewrite !fset_eq. by unfold after.
      * exists rj. rewrite !fset_ne by done. done.
    + rewrite coming_app, senders_start by done. unfold coming at 2. cbn [net].
      rewrite count_served by done. unfold coming in *. cbn [net].
      destruct (decide (j = i)) as [->|Hne]; [|rewrite fset_ne by done; lia].
      rewrite fset_eq, after_rsp. rewrite E in Hc. cbn [rsp_cnt waiting_st] in Hc. lia.
  - cbn [net]. apply Forall_app. split; [done|by apply served_ok].
  - cbn [node acked]. apply acked_after; [done| |done]. by rewrite E.
  - unfold budget. cbn [begun net]. rewrite length_filter_set by (apply ok || done). rewrite decide_True by done.
    pose proof (proj1 (length_filter_bool (fset i true (begun s)) P)) as Hle.
    rewrite length_filter_set, decide_True in Hle by (apply ok || done). rewrite length_app.
    assert (S (length (served i)) = length P) as Hs; [|nia].
    unfold CalvinRendezvous.served, forwards. rewrite length_fmap.
    assert (Permutation (i :: @targets (cfg i) P 0 n) P) as Hp; [|by apply Permutation_length in Hp].
    apply NoDup_Permutation; [|apply ok|].
    + constructor; [|apply NoDup_targets]. rewrite elem_of_targets. unfold me. rewrite (wl_id ok i Hi). naive_solver.
    + intros x. rewrite elem_of_cons, elem_of_targets. unfold me. rewrite (wl_id ok i Hi).
      pose proof (proj1 (Forall_forall _ _) (wl_range ok) x) as Hx. cbn in Hx.
      destruct (decide (x = i)) as [->|]; [naive_solver|]. split; [naive_solver|]. intros HxP. specialize (Hx HxP). right. split_and!; [lia..|done|done].
Qed.

Lemma deliver_preserves s i m l1 l2 : sys_ok s -> net s = l1 ++ (i, m) :: l2 ->
  exists s', deliver i m (l1 ++ l2) s = Ok s' /\ sys_ok s' /\ S (budget s') = budget s.
Proof.
  intros [Hn Hm Hack] El. rewrite El in Hm. apply Forall_app in Hm as [Hm1 Hm2].
  apply Forall_cons in Hm2 as [[Hi Hrc] Hm2]. cbn [fst snd] in Hi, Hrc.
  destruct (Hn i Hi) as [(r & Hr & E) Hc].
  assert (forall j, coming s j = Z.of_nat (length (filter (fun x : Z * ForwardMessage => x.1 = j) (l1 ++ l2))) +
    if decide (j = i) then 1 else 0) as Hcoming.
  { intros j. unfold coming. rewrite El, !filter_app, !length_app. destruct (decide (j = i)) as [->|Hne].
    - rewrite filter_cons_True by done. cbn. lia.
    - rewrite filter_cons_False by (cbn; congruence). lia. }
  assert (rsp_cnt (node s i) = r) as Ersp.
  { rewrite E. destruct (begun s i); [|done]. destruct (Z.eqb_spec r others) as [->|]; done. }
  pose proof (senders_le (begun s) i Hi) as Hle. pose proof (Hcoming i) as Hci. rewrite decide_True in Hci by done.
  rewrite Ersp in Hc. assert (r < others) as Hlt by lia.
  assert (exists t new, deliver i m (l1 ++ l2) s = Ok (mkSys (fset i t (node s)) ((l1 ++ l2) ++ []) (begun s) (acked s ++ new)) /\
    (t = if begun s i then after i (r + 1) else waiting i (r + 1)) /\
    acked s ++ new = replicate (length (filter (fun k => released (fset i t (node s) k) = true) P)) home) as (t & new & -> & Et & Eack).
  { destruct (begun s i) eqn:Hb.
    - rewrite (proj2 (Z.eqb_neq _ _)) in E by lia. do 2 eexists. split; [apply (node_collects s i r); [done|done|lia|done]|]. split; [done|].
      apply acked_after; [done| |done]. by rewrite E.
    - do 2 eexists. split; [apply (node_early s i r); [done|done|lia|done]|]. split; [done|]. rewrite app_nil_r, Hack. f_equal. symmetry.
      apply release_same; [done|]. by rewrite E. }
  eexists. split; [done|]. rewrite app_nil_r. split; [split|].
  - intros j Hj. destruct (Hn j Hj) as [(rj & Hrj & Ej) Hcj]. split; cbn [node begun].
    + destruct (decide (j = i)) as [->|Hne].
      * exists (r + 1). split; [lia|]. rewrite fset_eq, Et. by unfold after.
      * exists rj. rewrite !fset_ne by done. done.
    + unfold coming. cbn [net]. rewrite Hcoming in Hcj. destruct (decide (j = i)) as [->|Hne].
      * rewrite fset_eq, Et. destruct (begun s i); [rewrite after_rsp|cbn [rsp_cnt waiting_st]]; lia.
      * rewrite fset_ne by done. lia.
  - cbn [net]. by apply Forall_app.
  - exact Eack.
  - unfold budget. cbn [begun net]. rewrite El, !length_app. cbn [length]. lia.
Qed.

Lemma start_sys_ok : sys_ok start_sys.
Proof.
  split; [|constructor|].
  - intros i Hi. assert (senders (fun _ => false) i = 0) as Es.
    { unfold senders. assert (forall l : list Z, filter (fun k => k <> i /\ false = true) l = []) as ->; [|done].
      induction l as [|x l IH]; [done|]. by rewrite filter_cons_False by naive_solver. }
    split; [|symmetry; exact Es]. exists 0. split; [|done].
    unfold CalvinRendezvous.others. destruct P; [by apply not_elem_of_nil in Hi|cbn; lia].
  - cbn [start_sys node acked]. assert (forall l : list Z, filter (fun i => released (fresh i) = true) l = []) as ->; [|done].
    induction l as [|x l IH]; [done|]. by rewrite filter_cons_False.
Qed.

Lemma step_ok s s' : sys_ok s -> rendezvous_step s s' -> sys_ok s' /\ S (budget s') = budget s.
Proof.
  intros Hs Hstep. destruct Hstep as [i s s' Hi Hb E|i m l1 l2 s s' El E].
  - destruct (start_preserves s i Hs Hi Hb) as (s9 & E' & H9). rewrite E in E'. injection E' as ->. exact H9.
  - destruct (deliver_preserves s i m l1 l2 Hs El) as (s9 & E' & H9). rewrite E in E'. injection E' as ->. exact H9.
Qed.
Lemma reachable_ok k : forall s, nsteps rendezvous_step k start_sys s -> sys_ok s /\ (k + budget s = budget start_sys)%nat.
Proof.
  induction k as [|k IH]; intros s Hk.
  - inversion Hk; subst. split; [apply start_sys_ok|done].
  - apply nsteps_inv_r in Hk as (s1 & [Hs1 E]%IH & Hstep). destruct (step_ok _ _ Hs1 Hstep). split; [done|lia].
Qed.

(** What a participant has done in a reachable state. *)
Lemma done_started s i : sys_ok s -> i ∈ P -> phase (node s i) = CALVIN_DONE -> rsp_cnt (node s i) = others /\ begun s i = true.
Proof.
  intros Hs Hi Hd. destruct (so_nodes _ Hs i Hi) as [(r & Hr & E) _]. rewrite E in Hd |- *. destruct (begun s i); [|done].
  by destruct (r =? others).
Qed.
Lemma started_work s k : sys_ok s -> k ∈ P -> begun s k = true -> work (node s k) = w1 k \/ work (node s k) = w3 k.
Proof.
  intros Hs Hk Hb. destruct (so_nodes _ Hs k Hk) as [(r & Hr & E) _]. rewrite E, Hb.
  destruct (Z.eqb_spec r others); [by right|by left].
Qed.


End System.
