(* ===== verification/TpccCalvin.v ===== *)
(** * TpccCalvin: TPC-C under Calvin

    Model of [TPCCTxnManager::acquire_locks], [run_tpcc_phase2] and
    [run_tpcc_phase5] (benchmarks/tpcc_txn.cpp), of [incr_lr] and [decr_lr]
    (system/txn.cpp), and of what the lock thread does with a message
    ([CalvinLockThread::run], system/calvin_thread.cpp).  The phases run in
    the loop of [CalvinExec].

    While a transaction asks for its locks, other transactions release theirs
    and may grant it locks that it waits for: [grants] says how many before
    each action.  A grant is what the loop of [Row_lock::lock_release] does to
    the transaction that it takes from the queue (see [RowLock]). *)

From stdpp Require Import base tactics numbers list gmap.
From Stdlib Require Import ZArith Lia.
From S2P Require Import Prelude Wire CArray Message QueryMessage RowData TxnAccess TpccKeys TpccQuery TpccSchema TpccTxn.
#[local] Open Scope Z_scope.

(** ** Locks *)

(** The transaction with its lock flags.  [requests] are the calls of
    [lock_get]; [waiting] counts its entries in waiter lists; [restarted] the
    calls of [restart_txn], and [enqueued] the messages that the lock thread
    has put into the work queue for it. *)
Record LockSt := mkLockSt {
  tpcc : TpccSt;
  lock_ready : bool;
  lock_ready_cnt : Z;
  locking_done : bool;
  requests : list (Z * lock_t);
  waiting : nat;
  grants : list nat;
  restarted : nat;
  enqueued : nat;
}.
Definition set_tpcc (t : TpccSt) (s : LockSt) : LockSt :=
  mkLockSt t (lock_ready s) (lock_ready_cnt s) (locking_done s) (requests s) (waiting s) (grants s) (restarted s) (enqueued s).
Definition set_ready (b : bool) (s : LockSt) : LockSt :=
  mkLockSt (tpcc s) b (lock_ready_cnt s) (locking_done s) (requests s) (waiting s) (grants s) (restarted s) (enqueued s).
Definition set_cnt (n : Z) (s : LockSt) : LockSt :=
  mkLockSt (tpcc s) (lock_ready s) n (locking_done s) (requests s) (waiting s) (grants s) (restarted s) (enqueued s).
Definition set_locking_done (b : bool) (s : LockSt) : LockSt :=
  mkLockSt (tpcc s) (lock_ready s) (lock_ready_cnt s) b (requests s) (waiting s) (grants s) (restarted s) (enqueued s).
Definition add_request (r : Z * lock_t) (s : LockSt) : LockSt :=
  mkLockSt (tpcc s) (lock_ready s) (lock_ready_cnt s) (locking_done s) (requests s ++ [r]) (waiting s) (grants s)
    (restarted s) (enqueued s).
Definition set_waiting (n : nat) (s : LockSt) : LockSt :=
  mkLockSt (tpcc s) (lock_ready s) (lock_ready_cnt s) (locking_done s) (requests s) n (grants s) (restarted s) (enqueued s).
Definition set_grants (l : list nat) (s : LockSt) : LockSt :=
  mkLockSt (tpcc s) (lock_ready s) (lock_ready_cnt s) (locking_done s) (requests s) (waiting s) l (restarted s) (enqueued s).
Definition add_restart (s : LockSt) : LockSt :=
  mkLockSt (tpcc s) (lock_ready s) (lock_ready_cnt s) (locking_done s) (requests s) (waiting s) (grants s)
    (S (restarted s)) (enqueued s).
Definition add_enqueued (s : LockSt) : LockSt :=
  mkLockSt (tpcc s) (lock_ready s) (lock_ready_cnt s) (locking_done s) (requests s) (waiting s) (grants s)
    (restarted s) (S (enqueued s)).

Abbreviation LK := (ST LockSt).
Definition on_tpcc {A} (m : TP A) : LK A := fun s =>
  match m (tpcc s) with Ok (a, t) => Ok (a, set_tpcc t s) | AssertFail => AssertFail end.

Definition incr_lr : LK Z :=
  s ← sget; let n := wrap32 (lock_ready_cnt s + 1) in smod (set_cnt n);;; mret n.
Definition decr_lr : LK Z :=
  s ← sget; let n := wrap32 (lock_ready_cnt s - 1) in smod (set_cnt n);;; mret n.
(** [ATOM_CAS(lock_ready, old, new)]. *)
Definition cas_ready (old new : bool) : LK bool :=
  s ← sget;
  if bool_decide (lock_ready s = old) then smod (set_ready new);;; mret true else mret false.

(** A release grants one of the locks that the transaction waits for. *)
Definition grant : LK unit :=
  s ← sget;
  smod (set_waiting (waiting s - 1));;;
  sassert (negb (lock_ready s));;;
  n ← decr_lr;
  if n =? 0 then b ← cas_ready false true; if (b : bool) then smod add_restart else mret tt
  else mret tt.
Fixpoint grant_all (n : nat) : LK unit :=
  match n with O => mret tt | S n' => grant;;; grant_all n' end.
(** The others at work before the next action. *)
Definition interfere : LK unit :=
  s ← sget;
  match grants s with
  | [] => mret tt
  | k :: l => smod (set_grants l);;; grant_all (k `min` waiting s)
  end.

(** [row_t::get_lock]. *)
Definition lock_of (type : access_t) : lock_t := match type with RD | SCAN => LOCK_SH | _ => LOCK_EX end.

Section Calvin.
Context `{!Config} `{!RowIndex}.
Context (junk : nat -> Z) (max_accesses max_inserts : nat).
Context (g_dist_per_wh g_cust_per_dist g_max_items g_num_wh g_part_cnt : Z) (g_wh_update : bool).
Context (GET_NODE_ID : Z -> Z) (row_id : Z).

Abbreviation wh_to_part := (wh_to_part g_num_wh g_part_cnt).
Abbreviation wh_local := (wh_local g_num_wh g_part_cnt GET_NODE_ID).
Abbreviation distKey := (distKey g_dist_per_wh).
Abbreviation custKey := (custKey g_dist_per_wh g_cust_per_dist).
Abbreviation custNPKey := (custNPKey g_dist_per_wh).
Abbreviation stockKey := (stockKey g_max_items).

(** [get_lock] with what [lock_get] does to the flags of a transaction that
    has to wait. *)
Definition get_lock (r : Z) (type : access_t) : LK RC :=
  interfere;;;
  s ← sget;
  rc ← on_tpcc (on_txn (TxnAccess.get_lock max_accesses r type));
  (if bool_decide (r ∈ calvin_locked_rows (txn (tpcc s))) then mret tt
   else
     smod (add_request (r, lock_of type));;;
     if decide (rc = WAIT) then
       _ ← cas_ready true false; _ ← incr_lr; s ← sget; smod (set_waiting (S (waiting s)))
     else mret tt);;;
  mret rc.

(** [rc2 = get_lock(row, type); if (rc2 != RCOK) rc = rc2]. *)
Definition lock_row (rc : RC) (r : Z) (type : access_t) : LK RC :=
  rc2 ← get_lock r type; mret (if decide (rc2 = RCOK) then rc else rc2).
(** The row that the first item of a chain, or the one in its middle, points
    to. *)
Definition lock_first (rc : RC) (i : index_name) (key part : Z) (type : access_t) : LK RC :=
  chain ← slift (index_read i key part); r ← deref (head chain); lock_row rc r type.
Definition lock_mid (rc : RC) (i : index_name) (key part : Z) (type : access_t) : LK RC :=
  chain ← slift (index_read i key part); r ← deref (head (mid_loop 0 chain chain)); lock_row rc r type.

Definition lock_customer (rc : RC) (q : TPCCQuery) : LK RC :=
  p ← slift (wh_to_part (q_c_w_id q));
  if q_by_last_name q then
    key ← slift (custNPKey (q_c_last q) (q_c_d_id q) (q_c_w_id q));
    lock_mid rc i_customer_last key p WR
  else lock_first rc i_customer_id (custKey (q_c_id q) (q_c_d_id q) (q_c_w_id q)) p WR.

Definition lock_payment (q : TPCCQuery) : LK RC :=
  part_id_w ← slift (wh_to_part (q_w_id q));
  part_id_c_w ← slift (wh_to_part (q_c_w_id q));
  rc ← (if GET_NODE_ID part_id_w =? g_node_id then
          rc ← lock_first RCOK i_warehouse (q_w_id q) part_id_w (if g_wh_update then WR else RD);
          lock_first rc i_district (distKey (q_d_id q) (q_d_w_id q)) part_id_w WR
        else mret RCOK);
  if GET_NODE_ID part_id_c_w =? g_node_id then lock_customer rc q else mret rc.

(** The loop over the items, from item [i] on. *)
Fixpoint lock_items (q : TPCCQuery) (rc : RC) (i : Z) (n : nat) : LK RC :=
  match n with
  | O => mret rc
  | S n' =>
      x ← slift (CArray.get (q_items q) i);
      loc ← slift (wh_local (ol_supply_w_id x));
      rc ← (if (loc : bool) then
              rc ← lock_first rc i_item (ol_i_id x) 0 RD;
              p ← slift (wh_to_part (ol_supply_w_id x));
              lock_first rc i_stock (stockKey (ol_i_id x) (ol_supply_w_id x)) p WR
            else mret rc);
      lock_items q rc (i + 1) n'
  end.

Definition lock_new_order (q : TPCCQuery) : LK RC :=
  part_id_w ← slift (wh_to_part (q_w_id q));
  _ ← slift (wh_to_part (q_c_w_id q));
  rc ← (if GET_NODE_ID part_id_w =? g_node_id then
          rc ← lock_first RCOK i_warehouse (q_w_id q) part_id_w RD;
          rc ← lock_first rc i_customer_id (custKey (q_c_id q) (q_d_id q) (q_w_id q)) part_id_w RD;
          lock_first rc i_district (distKey (q_d_id q) (q_w_id q)) part_id_w WR
        else mret RCOK);
  lock_items q rc 0 (Z.to_nat (q_ol_cnt q)).

Definition acquire_locks : LK RC :=
  sassert (cc_is CC_CALVIN);;;
  smod (set_locking_done false);;;
  _ ← incr_lr;
  s ← sget;
  let q := query (tpcc s) in
  rc ← (if q_txn_type q =? TPCC_PAYMENT then lock_payment q
        else if q_txn_type q =? TPCC_NEW_ORDER then lock_new_order q
        else sassert false;;; mret RCOK);
  interfere;;;
  n ← decr_lr;
  rc ← (if n =? 0 then b ← cas_ready false true; mret (if (b : bool) then RCOK else rc) else mret rc);
  smod (set_locking_done true);;;
  mret rc.

(** The lock thread with a message of the scheduler: the transaction starts
    now, or when its last lock is granted. *)
Definition lock_and_enqueue (recon : bool) : LK unit :=
  rc ← (if negb recon then acquire_locks else mret RCOK);
  if decide (rc = RCOK) then smod add_enqueued else mret tt.

(** ** Phases *)

(** The local reads: rows of a payment are written only.  The rows of a new
    order, with the order number as it is. *)
Fixpoint read_items (q : TPCCQuery) (rc : RC) (i : Z) (n : nat) : TP RC :=
  match n with
  | O => mret rc
  | S n' =>
      x ← slift (CArray.get (q_items q) i);
      loc ← slift (wh_local (ol_supply_w_id x));
      rc ← (if (loc : bool) then _ ← new_order_6 junk max_accesses (ol_i_id x); new_order_7 else mret rc);
      read_items q rc (i + 1) n'
  end.

Definition run_tpcc_phase2 : TP RC :=
  sassert (cc_is CC_CALVIN);;;
  s ← sget;
  let q := query s in
  w_loc ← slift (wh_local (q_w_id q));
  if q_txn_type q =? TPCC_PAYMENT then mret RCOK
  else if q_txn_type q =? TPCC_NEW_ORDER then
    rc ← (if (w_loc : bool) then
            _ ← new_order_0 junk max_accesses g_num_wh g_part_cnt (q_w_id q);
            _ ← new_order_1;
            _ ← new_order_2 junk max_accesses g_dist_per_wh g_cust_per_dist g_num_wh g_part_cnt
                  (q_w_id q) (q_d_id q) (q_c_id q);
            _ ← new_order_3;
            rc ← new_order_4 junk max_accesses g_dist_per_wh g_num_wh g_part_cnt (q_w_id q) (q_d_id q);
            r ← local_row;
            o ← get_field r D_NEXT_O_ID;
            smod (fun s => set_query (set_o_id o (query s)) s);;;
            mret rc
          else mret RCOK);
    read_items q rc 0 (Z.to_nat (q_ol_cnt q))
  else sassert false;;; mret RCOK.

(** The writes; [o_id] is the order number that the query had before. *)
Fixpoint write_items (q : TPCCQuery) (o_id : Z) (rc : RC) (i : Z) (n : nat) : TP RC :=
  match n with
  | O => mret rc
  | S n' =>
      x ← slift (CArray.get (q_items q) i);
      loc ← slift (wh_local (ol_supply_w_id x));
      rc ← (if (loc : bool) then
              _ ← new_order_8 junk max_accesses g_max_items g_num_wh g_part_cnt (ol_i_id x) (ol_supply_w_id x);
              new_order_9 junk max_inserts g_num_wh g_part_cnt row_id (q_w_id q) (q_d_id q) (q_remote q)
                (ol_i_id x) (ol_supply_w_id x) (ol_quantity x) i o_id
            else mret rc);
      write_items q o_id rc (i + 1) n'
  end.

Definition run_tpcc_phase5 : TP RC :=
  sassert (cc_is CC_CALVIN);;;
  s ← sget;
  let q := query s in
  w_loc ← slift (wh_local (q_w_id q));
  c_w_loc ← slift (wh_local (q_c_w_id q));
  if q_txn_type q =? TPCC_PAYMENT then
    rc ← (if (w_loc : bool) then
            _ ← run_payment_0 junk max_accesses g_num_wh g_part_cnt g_wh_update (q_w_id q);
            _ ← run_payment_1 g_wh_update (q_h_amount q);
            _ ← run_payment_2 junk max_accesses g_dist_per_wh g_num_wh g_part_cnt (q_w_id q) (q_d_id q) (q_d_w_id q);
            run_payment_3 (q_h_amount q)
          else mret RCOK);
    if (c_w_loc : bool) then
      _ ← run_payment_4 junk max_accesses g_dist_per_wh g_cust_per_dist g_num_wh g_part_cnt
            (q_c_id q) (q_c_w_id q) (q_c_d_id q) (q_c_last q) (q_by_last_name q);
      run_payment_5 junk max_inserts g_num_wh g_part_cnt row_id
        (q_w_id q) (q_d_id q) (q_c_id q) (q_c_w_id q) (q_c_d_id q) (q_h_amount q)
    else mret rc
  else if q_txn_type q =? TPCC_NEW_ORDER then
    rc ← (if (w_loc : bool) then
            new_order_5 junk max_inserts g_num_wh g_part_cnt row_id (q_w_id q) (q_d_id q) (q_c_id q)
              (q_remote q) (q_ol_cnt q) (q_o_entry_d q)
          else mret RCOK);
    write_items q (q_o_id q) rc 0 (Z.to_nat (q_ol_cnt q))
  else sassert false;;; mret RCOK.

End Calvin.
