(* ===== verification/TpccCalvinFacts.v ===== *)
(** * TpccCalvinFacts: TPC-C under Calvin is correct where it runs

    A transaction starts exactly once, when the last of its locks is granted;
    a payment locks the rows that it writes exclusively and has, over all its
    nodes, the effect of its specification; and a new order whose home node
    supplies one of its items never gets through phase 5. *)

From stdpp Require Import base tactics numbers list gmap.
From Stdlib Require Import ZArith Lia.
From S2P Require Import Prelude Wire CArray Message QueryMessage RowData TxnAccess TxnUndo TpccKeys TpccQuery.
From S2P Require Import TpccSchema TpccTxn TpccSpec TpccRefine TpccEffects TpccCalvin.
#[local] Open Scope Z_scope.

(** ** A transaction starts once *)

(** How often a transaction was handed to the workers. *)
Definition started (s : LockSt) : nat := (restarted s + enqueued s)%nat.

Section Starts.
Context `{!Config} `{!RowIndex}.
Context (max_accesses : nat).
Context (g_dist_per_wh g_cust_per_dist g_max_items g_num_wh g_part_cnt : Z) (g_wh_update : bool).
Context (GET_NODE_ID : Z -> Z).
Context (calvin : CC_ALG = CC_CALVIN) (rows_few : Z.of_nat max_accesses < 4294967295).

(** Lock managers answer with a grant or a wait. *)
Definition lock_answers (s : LockSt) : Prop :=
  Forall (fun a => ans_rc a = RCOK \/ ans_rc a = WAIT) (answers (txn (tpcc s))).

(** While it asks for locks, with the result [rc] so far. *)
Record asking (rc : RC) (s : LockSt) : Prop := {
  as_ready : lock_ready s = false;
  as_cnt : lock_ready_cnt s = Z.of_nat (S (waiting s));
  as_started : restarted s = 0%nat /\ enqueued s = 0%nat;
  as_rc : rc = RCOK \/ rc = WAIT;
  as_wait : (0 < waiting s)%nat -> rc = WAIT;
  as_rows : (waiting s <= length (calvin_locked_rows (txn (tpcc s))) <= max_accesses)%nat;
  as_answers : lock_answers s;
}.

(** Afterwards. *)
Record asked (s : LockSt) : Prop := {
  ad_ready : lock_ready s = bool_decide (waiting s = 0%nat);
  ad_cnt : lock_ready_cnt s = Z.of_nat (waiting s);
  ad_rows : Z.of_nat (waiting s) < 4294967296;
  ad_started : started s = if decide (waiting s = 0%nat) then 1%nat else 0%nat;
}.

(** A release changes the flags only. *)
Definition same_txn (s s' : LockSt) : Prop := requests s' = requests s /\ tpcc s' = tpcc s.

Lemma grant_asking rc s (Q : unit -> LockSt -> Prop) :
  asking rc s -> (0 < waiting s)%nat ->
  (forall s', asking rc s' -> waiting s' = (waiting s - 1)%nat -> same_txn s s' -> Q tt s') -> wp grant Q s.
Proof.
  intros [Hr Hc Hs Hrc Hw Hrows Ha] Hpos HQ. unfold grant, decr_lr. do 6 wp_step; [by cbn; rewrite Hr|].
  repeat wp_step. cbn [lock_ready_cnt set_waiting].
  rewrite Hc, wrap32_small by lia. rewrite (proj2 (Z.eqb_neq _ 0)) by lia. wp_step. apply HQ; [|done|done].
  split; cbn; try done; try lia; intros; apply Hw; lia.
Qed.
Lemma grant_all_asking rc n : forall s (Q : unit -> LockSt -> Prop),
  asking rc s -> (n <= waiting s)%nat -> (forall s', asking rc s' -> same_txn s s' -> Q tt s') -> wp (grant_all n) Q s.
Proof.
  induction n as [|n IH]; intros s Q Hs Hn HQ; cbn [grant_all]; wp_step; [by apply HQ|].
  eapply grant_asking; [done|lia|]. intros s' Hs' E [Er Et]. apply IH; [done|lia|]. intros s2 Hs2 [Er2 Et2].
  apply HQ; [done|]. split; congruence.
Qed.
Lemma interfere_asking rc s (Q : unit -> LockSt -> Prop) :
  asking rc s -> (forall s', asking rc s' -> same_txn s s' -> Q tt s') -> wp interfere Q s.
Proof.
  intros Hs HQ. unfold interfere. repeat wp_step. destruct (grants s) as [|k l]; [wp_step; by apply HQ|].
  repeat wp_step. apply (grant_all_asking rc); [|cbn; lia|done]. by destruct Hs.
Qed.

Lemma wp_on_tpcc {A} (m : TP A) (Q : A -> LockSt -> Prop) s :
  wp m (fun a t => Q a (set_tpcc t s)) (tpcc s) -> wp (on_tpcc m) Q s.
Proof. unfold wp, on_tpcc. by destruct (m (tpcc s)) as [[a t]|]. Qed.
Lemma wlp_on_tpcc {A} (m : TP A) (Q : A -> LockSt -> Prop) s :
  wlp m (fun a t => Q a (set_tpcc t s)) (tpcc s) -> wlp (on_tpcc m) Q s.
Proof. unfold wlp, on_tpcc. by destruct (m (tpcc s)) as [[a t]|]. Qed.
Lemma wlp_on_txn {A} (m : T A) (Q : A -> TpccSt -> Prop) s :
  wlp m (fun a t => Q a (set_txn t s)) (txn s) -> wlp (on_txn m) Q s.
Proof. unfold wlp, on_txn. by destruct (m (txn s)) as [[a t]|]. Qed.

Abbreviation locked s := (calvin_locked_rows (txn (tpcc s))).

(** One more lock: a row that is not locked yet is asked for. *)
Lemma lock_row_ok rc r type s (Q : RC -> LockSt -> Prop) :
  asking rc s -> r ∈ locked s \/ (length (locked s) < max_accesses)%nat ->
  (forall rc' s', asking rc' s' ->
     (if bool_decide (r ∈ locked s) then same_txn s s'
      else requests s' = requests s ++ [(r, lock_of type)] /\ locked s' = locked s ++ [r]) -> Q rc' s') ->
  wp (lock_row max_accesses rc r type) Q s.
Proof.
  intros Hs Hmax HQ. unfold lock_row, get_lock. do 2 wp_step. eapply interfere_asking; [exact Hs|].
  intros s' Hs' [Er Et]. unfold same_txn in HQ. rewrite <- Er, <- Et in HQ. rewrite <- Et in Hmax. clear s Hs Er Et.
  rename s' into s, Hs' into Hs. do 3 wp_step. apply wp_on_tpcc, wp_on_txn. unfold TxnAccess.get_lock. do 2 wp_step.
  destruct Hs as [Hr Hc Hst Hrc Hw Hrows Ha].
  destruct (decide (r ∈ locked s)) as [Hin|Hin];
    [rewrite !(bool_decide_eq_true_2 _ Hin) in HQ |- *|rewrite !(bool_decide_eq_false_2 _ Hin) in HQ |- *].
  - repeat wp_step. rewrite decide_True by done. apply HQ; [by split|]. split; [done|]. by destruct s as [[]].
  - destruct Hmax as [?|Hmax]; [done|]. do 2 wp_step; [by apply Nat.ltb_lt|]. repeat wp_step.
    unfold cc_is. rewrite bool_decide_eq_true_2 by done. wp_step. unfold ask. do 2 wp_step.
    unfold lock_answers in Ha. cbn [answers set_locked].
    destruct (answers (txn (tpcc s))) as [|x l] eqn:Ean; cbn [answers set_locked].
    + repeat wp_step. cbn [ans_rc]. rewrite decide_False by done. repeat wp_step. rewrite decide_True by done.
      apply HQ; [|done]. split; cbn; try done; [rewrite length_app; cbn; lia|]. unfold lock_answers. cbn. by rewrite Ean.
    + apply Forall_cons in Ha as [Hx Hl]. do 4 wp_step. destruct (decide (ans_rc x = WAIT)) as [->|Hnw].
      * do 2 wp_step. unfold cas_ready, incr_lr. repeat wp_step. cbn [lock_ready set_tpcc add_request lock_ready_cnt].
        rewrite Hr. rewrite bool_decide_eq_false_2 by done. repeat wp_step. cbn [lock_ready_cnt set_tpcc add_request].
        rewrite (decide_False (P := WAIT = RCOK)) by done. apply HQ; [|done]. rewrite Hc, wrap32_small by lia.
        split; cbn; try done; try lia; [by right|rewrite length_app; cbn; lia].
      * assert (ans_rc x = RCOK) as -> by (by destruct Hx). repeat wp_step. rewrite decide_True by done.
        apply HQ; [|done]. split; cbn; try done. rewrite length_app. cbn. lia.
Qed.
Lemma lock_row_asking rc r type s (Q : RC -> LockSt -> Prop) :
  asking rc s -> (forall rc' s', asking rc' s' -> Q rc' s') -> wlp (lock_row max_accesses rc r type) Q s.
Proof.
  intros Hs HQ. destruct (decide (r ∈ locked s \/ (length (locked s) < max_accesses)%nat)) as [Hmax|Hmax].
  { apply wp_wlp. eapply lock_row_ok; [done..|]. auto. }
  unfold lock_row, get_lock. do 2 wlp_step. apply wp_wlp. eapply interfere_asking; [exact Hs|].
  intros s' _ [_ Et]. enough (wlp (on_tpcc (on_txn (TxnAccess.get_lock max_accesses r type))) (fun _ _ => False) s') as Hf.
  { revert Hf. unfold wlp, wp, mbind, ST_bind, sget. by destruct (on_tpcc _ s') as [[]|]. }
  apply wlp_on_tpcc, wlp_on_txn. unfold TxnAccess.get_lock. do 2 wlp_step. rewrite Et.
  rewrite bool_decide_eq_false_2 by tauto. wlp_step. apply wlp_sassert. intros Hlen%Nat.ltb_lt. tauto.
Qed.

(** A computation that only asks for locks. *)
Definition asks (rc : RC) (m : LK RC) : Prop :=
  forall s (Q : RC -> LockSt -> Prop), asking rc s -> (forall rc' s', asking rc' s' -> Q rc' s') -> wlp m Q s.

Lemma asks_ret rc : asks rc (mret rc).
Proof. intros s Q Hs HQ. wlp_step. by apply HQ. Qed.
Lemma asks_lift {A} rc (r : res A) (k : A -> LK RC) : (forall x, asks rc (k x)) -> asks rc (x ← slift r; k x).
Proof. intros Hk s Q Hs HQ. repeat wlp_step. by apply Hk. Qed.
Lemma asks_deref {A} rc (o : option A) (k : A -> LK RC) : (forall x, asks rc (k x)) -> asks rc (x ← deref o; k x).
Proof. intros Hk s Q Hs HQ. repeat wlp_step. by apply Hk. Qed.
Lemma asks_bind rc (m : LK RC) (k : RC -> LK RC) : asks rc m -> (forall rc', asks rc' (k rc')) -> asks rc (rc' ← m; k rc').
Proof. intros Hm Hk s Q Hs HQ. wlp_step. apply Hm; [done|]. intros rc' s' Hs'. by apply Hk. Qed.
Lemma asks_row rc r type : asks rc (lock_row max_accesses rc r type).
Proof. intros s Q Hs HQ. by eapply lock_row_asking. Qed.

#[local] Ltac asks_tac :=
  repeat first [apply asks_ret | apply asks_row | apply asks_lift; intros | apply asks_deref; intros
    | apply asks_bind; [|intros] | match goal with |- asks _ (if ?b then _ else _) => destruct b end].

Abbreviation acquire_locks := (TpccCalvin.acquire_locks max_accesses g_dist_per_wh g_cust_per_dist g_max_items
  g_num_wh g_part_cnt g_wh_update GET_NODE_ID).
Abbreviation lock_and_enqueue := (TpccCalvin.lock_and_enqueue max_accesses g_dist_per_wh g_cust_per_dist g_max_items
  g_num_wh g_part_cnt g_wh_update GET_NODE_ID).

Lemma asks_items q n : forall rc i, asks rc
  (lock_items max_accesses g_max_items g_num_wh g_part_cnt GET_NODE_ID q rc i n).
Proof.
  induction n as [|n IH]; intros rc i; cbn [lock_items]; [apply asks_ret|]. unfold lock_first.
  repeat first [apply IH | progress asks_tac].
Qed.
Lemma asks_payment q : asks RCOK (lock_payment max_accesses g_dist_per_wh g_cust_per_dist g_num_wh g_part_cnt
  g_wh_update GET_NODE_ID q).
Proof. unfold lock_payment, lock_customer, lock_first, lock_mid. asks_tac. Qed.
Lemma asks_new_order q : asks RCOK (lock_new_order max_accesses g_dist_per_wh g_cust_per_dist g_max_items
  g_num_wh g_part_cnt GET_NODE_ID q).
Proof. unfold lock_new_order, lock_first. repeat first [apply asks_items | progress asks_tac]. Qed.

(** A transaction that the lock thread has just got. *)
Definition new_txn (s : LockSt) : Prop :=
  lock_ready s = false /\ lock_ready_cnt s = 0 /\ waiting s = 0%nat /\ restarted s = 0%nat /\ enqueued s = 0%nat /\
  calvin_locked_rows (txn (tpcc s)) = [] /\ lock_answers s.

Lemma lock_and_enqueue_asked s : new_txn s -> wlp (lock_and_enqueue false) (fun _ => asked) s.
Proof.
  intros (Hr & Hc & Hw & Hre & Hen & Hl & Ha). unfold TpccCalvin.lock_and_enqueue. cbn [negb].
  unfold TpccCalvin.acquire_locks. repeat (apply wlp_bind || wlp_step). unfold incr_lr. repeat wlp_step.
  cbn [lock_ready_cnt set_locking_done]. rewrite Hc. change (wrap32 (0 + 1)) with 1.
  set (q := query _). set (s1 := set_cnt 1 _).
  assert (asking RCOK s1) as Hs1.
  { unfold s1. split; cbn; try done; [by rewrite Hw|by left|lia|rewrite Hw, Hl; cbn; lia]. }
  assert (asks RCOK (if q_txn_type q =? TPCC_PAYMENT then lock_payment max_accesses g_dist_per_wh g_cust_per_dist g_num_wh g_part_cnt g_wh_update GET_NODE_ID q
     else if q_txn_type q =? TPCC_NEW_ORDER then lock_new_order max_accesses g_dist_per_wh g_cust_per_dist g_max_items g_num_wh g_part_cnt GET_NODE_ID q
     else sassert false;;; mret RCOK)) as Hasks.
  { destruct (_ =? TPCC_PAYMENT); [apply asks_payment|]. destruct (_ =? TPCC_NEW_ORDER); [apply asks_new_order|].
    intros s' Q' _ _. repeat wlp_step. done. }
  apply Hasks; [done|]. clear Hasks. intros rc s2 Hs2. wlp_step. apply wp_wlp. eapply interfere_asking; [exact Hs2|].
  intros s3 Hs3 _. clear s1 Hs1 s2 Hs2. rename s3 into s2. destruct Hs3 as [Hr2 Hc2 [Hre2 Hen2] Hrc Hw2 Hrows2 Ha2]. unfold decr_lr. repeat wlp_step.
  rewrite Hc2, wrap32_small by lia. destruct (decide (waiting s2 = 0%nat)) as [E|E].
  - rewrite (proj2 (Z.eqb_eq _ 0)) by lia. unfold cas_ready.
    repeat wlp_step. cbn [lock_ready set_cnt]. rewrite Hr2. rewrite bool_decide_eq_true_2 by done. repeat wlp_step.
    rewrite decide_True by done. wlp_step. split; cbn; rewrite ?E; try done; try lia. unfold started. cbn. by rewrite Hre2, Hen2.
  - rewrite (proj2 (Z.eqb_neq _ 0)) by lia. repeat wlp_step. rewrite Hw2 by lia. rewrite decide_False by done. wlp_step.
    split; cbn; try lia; [by rewrite bool_decide_eq_false_2|]. unfold started. cbn. rewrite Hre2, Hen2. by rewrite decide_False.
Qed.

(** A later grant. *)
Lemma grant_asked s (Q : unit -> LockSt -> Prop) : asked s -> (0 < waiting s)%nat ->
  (forall s', asked s' -> waiting s' = (waiting s - 1)%nat -> Q tt s') -> wp grant Q s.
Proof.
  intros [Hr Hc Hw Hs] Hpos HQ. unfold grant, decr_lr. rewrite bool_decide_eq_false_2 in Hr by lia.
  rewrite decide_False in Hs by lia.
  do 6 wp_step; [by cbn; rewrite Hr|]. repeat wp_step. cbn [lock_ready_cnt set_waiting].
  rewrite Hc, wrap32_small by lia. destruct (decide (waiting s = 1%nat)) as [E|E].
  - rewrite (proj2 (Z.eqb_eq _ 0)) by lia. unfold cas_ready. repeat wp_step.
    cbn [lock_ready set_cnt set_waiting]. rewrite Hr, bool_decide_eq_true_2 by done. repeat wp_step. apply HQ; [|cbn; lia].
    split; cbn; rewrite ?E; try done; try lia. unfold started in *. cbn. rewrite decide_True by done. lia.
  - rewrite (proj2 (Z.eqb_neq _ 0)) by lia. repeat wp_step. apply HQ; [|cbn; lia].
    split; cbn; try lia; [by rewrite Hr, bool_decide_eq_false_2 by lia|]. unfold started in *. cbn. by rewrite decide_False by lia.
Qed.
Lemma grants_asked n : forall s, asked s -> (n <= waiting s)%nat ->
  wp (grant_all n) (fun _ s' => asked s' /\ waiting s' = (waiting s - n)%nat) s.
Proof.
  induction n as [|n IH]; intros s Hs Hn; cbn [grant_all]; wp_step; [split; [done|lia]|].
  apply grant_asked; [done|lia|]. intros s' Hs' E. eapply wp_mono; [apply IH; [done|lia]|].
  intros [] s2 [? E2]. split; [done|lia].
Qed.

(** C12. Under Calvin a transaction starts exactly once, when the last of its
    locks is granted.  Whatever the lock managers answer and however the
    releases of other transactions interleave with the lock thread: once the
    thread has asked for all locks, the transaction has been handed to the
    workers once if no lock is outstanding and not at all otherwise; and then,
    after any number of further grants, none of which fails, once if that was
    the last and not at all before. *)
Theorem calvin_starts_once (s : LockSt) (Hnew : new_txn s) :
  wlp (lock_and_enqueue false) (fun _ s1 =>
    forall k, (k <= waiting s1)%nat ->
      wp (grant_all k) (fun _ s2 =>
        waiting s2 = (waiting s1 - k)%nat /\
        started s2 = (if decide (k = waiting s1) then 1 else 0)%nat /\
        lock_ready s2 = bool_decide (k = waiting s1)) s1) s.
Proof.
  eapply wlp_mono; [by apply lock_and_enqueue_asked|]. intros [] s1 Hs1 k Hk.
  eapply wp_mono; [by apply grants_asked|]. intros [] s2 [[Hr _ _ Hst] E]. split; [done|]. rewrite Hr, Hst.
  split; [destruct (decide (k = waiting s1)); [rewrite decide_True by lia|rewrite decide_False by lia]; done|].
  apply bool_decide_ext. lia.
Qed.
End Starts.

(** ** Payment *)

(** The writes of the node of the warehouse, and those of the node of the
    customer; and the locks that each of them takes first. *)
Definition home_writes (g_wh_update : bool) (h : db) (wh d amount : Z) : list (Z * nat * Z) :=
  (if g_wh_update then [(wh, W_YTD, f64_add (hget h wh W_YTD) amount)] else []) ++
  [(d, D_YTD, f64_add (hget h d D_YTD) amount)].
Definition customer_writes (h : db) (c amount : Z) : list (Z * nat * Z) :=
  [(c, C_BALANCE, f64_sub (hget h c C_BALANCE) amount);
   (c, C_YTD_PAYMENT, f64_add (hget h c C_YTD_PAYMENT) amount);
   (c, C_PAYMENT_CNT, f64_add (hget h c C_PAYMENT_CNT) (f64_of_uint 1))].

Section Payment.
Context `{!Config} `{!RowIndex}.
Context (junk : nat -> Z) (max_accesses max_inserts : nat).
Context (g_dist_per_wh g_cust_per_dist g_max_items g_num_wh g_part_cnt : Z) (g_wh_update : bool).
Context (GET_NODE_ID : Z -> Z) (row_id : Z).
Context (calvin : CC_ALG = CC_CALVIN) (rows_few : Z.of_nat max_accesses < 4294967295).
Context (parts_ok : g_part_cnt <= g_num_wh) (n0 : Z).

Abbreviation part := (part g_part_cnt).
Abbreviation here := (here g_part_cnt GET_NODE_ID).
Abbreviation acquire_locks := (TpccCalvin.acquire_locks max_accesses g_dist_per_wh g_cust_per_dist g_max_items
  g_num_wh g_part_cnt g_wh_update GET_NODE_ID).
Abbreviation run_tpcc_phase2 := (TpccCalvin.run_tpcc_phase2 junk max_accesses g_dist_per_wh g_cust_per_dist
  g_num_wh g_part_cnt GET_NODE_ID).
Abbreviation run_tpcc_phase5 := (TpccCalvin.run_tpcc_phase5 junk max_accesses max_inserts g_dist_per_wh g_cust_per_dist
  g_max_items g_num_wh g_part_cnt g_wh_update GET_NODE_ID row_id).

(** The query is a payment; where this node has the warehouse, the indexes lead
    to its rows [wh] and [d], and where it has the customer, to [c]. *)
Record payment_at (h : db) (q : TPCCQuery) (wh d c : Z) : Prop := {
  pa_type : q_txn_type q = TPCC_PAYMENT;
  pa_u64 : Forall is_u64 [q_w_id q; q_d_id q; q_c_id q; q_c_w_id q; q_c_d_id q; q_h_amount q];
  pa_home : here (q_w_id q) ->
    finds i_warehouse (q_w_id q) (part (q_w_id q)) wh /\
    finds i_district (distKey g_dist_per_wh (q_d_id q) (q_d_w_id q)) (part (q_w_id q)) d /\
    row_of h wh t_warehouse /\ row_of h d t_district;
  pa_customer : here (q_c_w_id q) ->
    customer_of g_dist_per_wh g_cust_per_dist g_part_cnt q c /\ row_of h c t_customer;
}.

Definition home (q : TPCCQuery) : bool := GET_NODE_ID (part (q_w_id q)) =? g_node_id.
Definition at_customer (q : TPCCQuery) : bool := GET_NODE_ID (part (q_c_w_id q)) =? g_node_id.
Definition payment_locks (q : TPCCQuery) (wh d c : Z) : list (Z * lock_t) :=
  (if home q then [(wh, if g_wh_update then LOCK_EX else LOCK_SH); (d, LOCK_EX)] else []) ++
  (if at_customer q then [(c, LOCK_EX)] else []).
Definition payment_part (h : db) (q : TPCCQuery) (wh d c : Z) : list (Z * nat * Z) :=
  (if home q then home_writes g_wh_update h wh d (q_h_amount q) else []) ++
  (if at_customer q then customer_writes h c (q_h_amount q) else []).

Lemma home_here q : home q = true -> here (q_w_id q).
Proof. apply Z.eqb_eq. Qed.
Lemma customer_here q : at_customer q = true -> here (q_c_w_id q).
Proof. apply Z.eqb_eq. Qed.
Lemma wh_local_eq w : wh_local g_num_wh g_part_cnt GET_NODE_ID w = Ok (GET_NODE_ID (part w) =? g_node_id).
Proof. unfold wh_local. by rewrite wh_to_part_ok. Qed.

(** *** The locks *)

(** The locks asked for so far. *)
Definition got (q : TPCCQuery) (l : list (Z * lock_t)) (rc : RC) (s : LockSt) : Prop :=
  asking max_accesses rc s /\ requests s = l /\ calvin_locked_rows (txn (tpcc s)) = l.*1.

Lemma wp_part_lk w (Q : Z -> LockSt -> Prop) s : Q (part w) s -> wp (slift (wh_to_part g_num_wh g_part_cnt w)) Q s.
Proof. apply wp_slift. by apply wh_to_part_ok. Qed.
Lemma wp_lock_row q l rc s r type (Q : RC -> LockSt -> Prop) :
  got q l rc s -> r ∉ l.*1 -> (length l < max_accesses)%nat ->
  (forall rc' s', got q (l ++ [(r, lock_of type)]) rc' s' -> Q rc' s') -> wp (lock_row max_accesses rc r type) Q s.
Proof.
  intros (Ha & Er & El) Hr Hlen HQ. eapply lock_row_ok; [done..| |].
  - right. by rewrite El, length_fmap.
  - rewrite bool_decide_eq_false_2 by (by rewrite El). intros rc' s' Ha' [Er' El']. apply HQ. split_and!; [done|congruence|].
    rewrite El', El. by rewrite fmap_app.
Qed.
Lemma wp_lock_first q l rc s i key p r type (Q : RC -> LockSt -> Prop) :
  finds i key p r -> got q l rc s -> r ∉ l.*1 -> (length l < max_accesses)%nat ->
  (forall rc' s', got q (l ++ [(r, lock_of type)]) rc' s' -> Q rc' s') -> wp (lock_first max_accesses rc i key p type) Q s.
Proof.
  intros [k E] Hg Hr Hlen HQ. unfold lock_first. wp_step. apply (wp_slift _ _ _ _ E); cbv beta. wp_step. cbn [head].
  wp_step. by eapply wp_lock_row.
Qed.

Lemma wp_lock_customer h q wh d c l rc s (Q : RC -> LockSt -> Prop) :
  payment_at h q wh d c -> here (q_c_w_id q) -> got q l rc s -> c ∉ l.*1 -> (length l < max_accesses)%nat ->
  (forall rc' s', got q (l ++ [(c, LOCK_EX)]) rc' s' -> Q rc' s') ->
  wp (lock_customer max_accesses g_dist_per_wh g_cust_per_dist g_num_wh g_part_cnt rc q) Q s.
Proof.
  intros Hok Hc Hg Hr Hlen HQ. destruct (pa_customer _ _ _ _ _ Hok Hc) as [Hcust _]. unfold lock_customer. wp_step.
  apply wp_part_lk. unfold customer_of in Hcust. destruct (q_by_last_name q).
  - destruct Hcust as (key & chain & Ek & Ei & Ec). wp_step. apply (wp_slift _ _ _ _ Ek); cbv beta.
    unfold lock_mid. wp_step. apply (wp_slift _ _ _ _ Ei); cbv beta. rewrite mid_customer, Ec. do 2 wp_step.
    by eapply wp_lock_row.
  - destruct Hcust as [k E]. eapply wp_lock_first; [by exists k|done..].
Qed.

(** Rows of different tables are different. *)
Lemma payment_distinct h q wh d c : payment_at h q wh d c -> home q = true ->
  wh <> d /\ (at_customer q = true -> c <> wh /\ c <> d).
Proof.
  intros Hok Hw. destruct (pa_home _ _ _ _ _ Hok (home_here _ Hw)) as (_ & _ & Hr1 & Hr2).
  split; [by eapply row_of_ne|]. intros Hc. destruct (pa_customer _ _ _ _ _ Hok (customer_here _ Hc)) as [_ Hr3].
  split; by eapply row_of_ne.
Qed.

Lemma lock_payment_ok h q wh d c s : payment_at h q wh d c -> (3 <= max_accesses)%nat ->
  got q [] RCOK s ->
  wp (lock_payment max_accesses g_dist_per_wh g_cust_per_dist g_num_wh g_part_cnt g_wh_update GET_NODE_ID q)
    (got q (payment_locks q wh d c)) s.
Proof.
  intros Hok Hmax Hg. unfold lock_payment. wp_step. apply wp_part_lk. wp_step. apply wp_part_lk. wp_step.
  apply wp_mono with (P := got q (if home q then [(wh, if g_wh_update then LOCK_EX else LOCK_SH); (d, LOCK_EX)] else [])).
  - unfold home. destruct (_ =? g_node_id) eqn:Hw; [|by wp_step]. fold (home q) in Hw.
    destruct (pa_home _ _ _ _ _ Hok (home_here _ Hw)) as (Hf1 & Hf2 & _).
    destruct (payment_distinct _ _ _ _ _ Hok Hw) as [Hne _].
    wp_step. eapply wp_lock_first; [exact Hf1|exact Hg|by apply not_elem_of_nil|cbn; lia|]. intros rc1 s1 Hg1.
    eapply wp_lock_first; [exact Hf2|exact Hg1|cbn; by apply not_elem_of_cons; split; [|apply not_elem_of_nil]|cbn; lia|].
    intros rc2 s2 Hg2. by destruct g_wh_update.
  - clear s Hg. intros rc s Hg. unfold payment_locks, at_customer. destruct (GET_NODE_ID _ =? g_node_id) eqn:Hc.
    + fold (at_customer q) in Hc. eapply wp_lock_customer; [exact Hok|by apply customer_here|exact Hg|..].
      * destruct (home q) eqn:Hw; [|by apply not_elem_of_nil].
        destruct (payment_distinct _ _ _ _ _ Hok Hw) as [_ Hne]. destruct (Hne Hc). cbn. set_solver.
      * destruct (home q); cbn; lia.
      * done.
    + wp_step. by rewrite app_nil_r.
Qed.

Lemma acquire_payment_ok h q wh d c s : payment_at h q wh d c -> (3 <= max_accesses)%nat ->
  new_txn s -> requests s = [] -> query (tpcc s) = q ->
  wp acquire_locks (fun _ s' => requests s' = payment_locks q wh d c) s.
Proof.
  intros Hok Hmax (Hr & Hc & Hw & Hre & Hen & Hl & Ha) Hreq Hq. unfold TpccCalvin.acquire_locks.
  do 2 wp_step; [unfold cc_is; by rewrite bool_decide_eq_true_2|]. unfold incr_lr. repeat wp_step.
  cbn [lock_ready_cnt set_locking_done tpcc set_cnt]. rewrite Hc, Hq, (pa_type _ _ _ _ _ Hok).
  change (wrap32 (0 + 1)) with 1. cbn [Z.eqb Pos.eqb TPCC_PAYMENT].
  eapply wp_mono; [eapply lock_payment_ok; [exact Hok|done|]|].
  - split_and!; [|done|done]. split; cbn; try done; [by rewrite Hw|by left|lia|rewrite Hw, Hl; cbn; lia].
  - intros rc s1 (Has & Er & El). wp_step. eapply (interfere_asking max_accesses); [done|exact Has|]. intros s2 Has2 [Er2 _].
    unfold decr_lr, cas_ready. repeat wp_step.
    apply wp_mono with (P := fun _ s' => requests s' = payment_locks q wh d c).
    + destruct (_ =? 0); repeat wp_step; [|by cbn; congruence]. destruct (bool_decide _); repeat wp_step; cbn; congruence.
    + intros rc' s3 E. by repeat wp_step.
Qed.

(** *** The effect *)

Lemma wp_local w (Q : bool -> TpccSt -> Prop) s :
  Q (GET_NODE_ID (part w) =? g_node_id) s -> wp (slift (wh_local g_num_wh g_part_cnt GET_NODE_ID w)) Q s.
Proof. apply wp_slift, wh_local_eq. Qed.

Lemma customer_writes_same h h' c amount :
  (forall k, hget h' c k = hget h c k) -> customer_writes h' c amount = customer_writes h c amount.
Proof. intros E. unfold customer_writes. by rewrite !E. Qed.

Abbreviation at_ := (TpccRefine.at_ n0).

(** Phase 5 at the node of the warehouse. *)
Lemma home_part_ok h q wh d c st rw nx s : payment_at h q wh d c -> here (q_w_id q) ->
  (2 <= max_accesses)%nat -> at_ h [] [] q st rw nx s ->
  wp (_ ← run_payment_0 junk max_accesses g_num_wh g_part_cnt g_wh_update (q_w_id q);
      _ ← run_payment_1 g_wh_update (q_h_amount q);
      _ ← run_payment_2 junk max_accesses g_dist_per_wh g_num_wh g_part_cnt (q_w_id q) (q_d_id q) (q_d_w_id q);
      run_payment_3 (q_h_amount q))
    (fun rc s' => rc = RCOK /\ at_ (hput_list h (home_writes g_wh_update h wh d (q_h_amount q))) []
       [(if g_wh_update then WR else RD, wh); (RD, d)] q st (Some d) nx s') s.
Proof.
  intros Hok Hw Hmax Hat. destruct (pa_home _ _ _ _ _ Hok Hw) as (Hf1 & Hf2 & Hr1 & Hr2).
  assert (wh <> d) as Hne by by eapply row_of_ne. assert (CC_ALG = CC_CALVIN) as Hcc by done.
  set (h1 := hput_list h (if g_wh_update then [(wh, W_YTD, f64_add (hget h wh W_YTD) (q_h_amount q))] else [])).
  assert (row_of h1 d t_district) as Hr2'.
  { unfold h1. destruct g_wh_update; [|done]. cbn. by eapply row_of_hput; [exact Hr1|col8_tac|]. }
  assert (hget h1 d D_YTD = hget h d D_YTD) as E1.
  { unfold h1. destruct g_wh_update; [|done]. cbn. by apply hget_hput_ne. }
  wp_step. eapply wp_mono; [eapply payment_0 with (sig := []); [by right|done..|cbn; lia|exact Hat]|]. cbn beta. intros ? s1 [-> Hat1].
  wp_step. eapply wp_mono; [eapply payment_1; [exact Hr1|exact Hat1]|]. cbn beta. intros ? s2 [-> Hat2].
  wp_step. eapply wp_mono; [eapply payment_2 with (sig := [(if g_wh_update then WR else RD, wh)]); [by right|done|exact Hf2|exact Hr2'|cbn; lia|exact Hat2]|].
  cbn beta. intros ? s3 [-> Hat3].
  eapply wp_mono; [eapply payment_3; [exact Hr2'|exact Hat3]|]. cbn beta. intros ? s4 [-> Hat4].
  split; [done|]. rewrite E1 in Hat4. unfold home_writes, hput_list. rewrite foldl_app. exact Hat4.
Qed.

(** Phase 5 at the node of the customer. *)
Lemma customer_part_ok h h0 q wh d c ins sig st rw nx s : payment_at h0 q wh d c -> here (q_c_w_id q) ->
  row_of h c t_customer -> (length sig < max_accesses)%nat -> (length ins < max_inserts)%nat ->
  at_ h ins sig q st rw nx s ->
  wp (_ ← run_payment_4 junk max_accesses g_dist_per_wh g_cust_per_dist g_num_wh g_part_cnt
            (q_c_id q) (q_c_w_id q) (q_c_d_id q) (q_c_last q) (q_by_last_name q);
      run_payment_5 junk max_inserts g_num_wh g_part_cnt row_id
        (q_w_id q) (q_d_id q) (q_c_id q) (q_c_w_id q) (q_c_d_id q) (q_h_amount q))
    (fun rc s' => rc = RCOK /\ at_ (hput_list h (customer_writes h c (q_h_amount q))) (ins ++ [history_row q])
       (sig ++ [(RD, c)]) q st (Some c) nx s') s.
Proof.
  intros Hok Hc Hr Hmax Hins Hat. destruct (pa_customer _ _ _ _ _ Hok Hc) as [Hf _].
  wp_step. eapply wp_mono; [eapply payment_4; [by right|done|exact Hf|exact Hr|exact Hmax|exact Hat]|].
  cbn beta. intros ? s1 [-> Hat1].
  eapply wp_mono; [eapply payment_5; [by right|done|by eapply pa_u64|exact Hr|exact Hins|exact Hat1]|]. done.
Qed.

Definition payment_accesses (q : TPCCQuery) (wh d c : Z) : list (access_t * Z) :=
  (if home q then [(if g_wh_update then WR else RD, wh); (RD, d)] else []) ++
  (if at_customer q then [(RD, c)] else []).

Lemma payment_phases_ok h q wh d c st rw nx s : payment_at h q wh d c ->
  (3 <= max_accesses)%nat -> (1 <= max_inserts)%nat -> at_ h [] [] q st rw nx s ->
  wp (_ ← run_tpcc_phase2; run_tpcc_phase5)
    (fun rc s' => rc = RCOK /\ exists rw', at_ (hput_list h (payment_part h q wh d c))
       (if at_customer q then [history_row q] else []) (payment_accesses q wh d c) q st rw' nx s') s.
Proof.
  intros Hok Hmax Hins Hat. pose proof (pa_type _ _ _ _ _ Hok) as Ht.
  assert (query s = q) as Eq by (by destruct Hat as (? & ? & -> & _)).
  assert (cc_is CC_CALVIN = true) as Hcc by (unfold cc_is; by rewrite bool_decide_eq_true_2).
  wp_step. unfold TpccCalvin.run_tpcc_phase2, TpccCalvin.run_tpcc_phase5. rewrite Hcc. do 2 wp_step; [done|].
  repeat wp_step. apply wp_local. rewrite Eq, Ht. cbn [Z.eqb Pos.eqb TPCC_PAYMENT]. wp_step.
  do 2 wp_step; [done|]. repeat wp_step. apply wp_local. wp_step. apply wp_local. rewrite Eq, Ht.
  cbn [Z.eqb Pos.eqb TPCC_PAYMENT]. fold (home q) (at_customer q). wp_step.
  apply wp_mono with (P := fun rc s' => rc = RCOK /\ exists rw',
    at_ (hput_list h (if home q then home_writes g_wh_update h wh d (q_h_amount q) else [])) []
      (if home q then [(if g_wh_update then WR else RD, wh); (RD, d)] else []) q st rw' nx s').
  { destruct (home q) eqn:Hw.
    - eapply wp_mono; [eapply home_part_ok; [exact Hok|by apply home_here|lia|exact Hat]|]. cbn beta.
      intros ? s' [-> Hat']. split; [done|]. by exists (Some d).
    - wp_step. split; [done|]. by exists rw. }
  clear s Hat Eq. intros ? s [-> (rw' & Hat)]. unfold payment_accesses, payment_part, hput_list.
  rewrite foldl_app. destruct (at_customer q) eqn:Hc; [|wp_step; split; [done|]; exists rw'; by rewrite app_nil_r].
  destruct (pa_customer _ _ _ _ _ Hok (customer_here _ Hc)) as [_ Hr].
  set (h1 := hput_list h (if home q then home_writes g_wh_update h wh d (q_h_amount q) else [])) in *.
  assert (row_of h1 c t_customer /\ forall k, hget h1 c k = hget h c k) as [Hr1 Eh].
  { unfold h1. destruct (home q) eqn:Hw; [|done].
    destruct (payment_distinct _ _ _ _ _ Hok Hw) as [_ Hne]. destruct (Hne Hc) as [Hne1 Hne2].
    destruct (pa_home _ _ _ _ _ Hok (home_here _ Hw)) as (_ & _ & Hw1 & Hd1). unfold home_writes, hput_list.
    destruct g_wh_update; cbn [app foldl fst snd].
    - split; [|intros k; by rewrite !hget_hput_ne].
      eapply row_of_hput; [eapply row_of_hput; [exact Hw1|col8_tac|exact Hd1]|col8_tac|].
      eapply row_of_hput; [exact Hw1|col8_tac|done].
    - split; [|intros k; by rewrite hget_hput_ne]. eapply row_of_hput; [exact Hd1|col8_tac|done]. }
  eapply wp_mono; [eapply (customer_part_ok h1 h q wh d c []
    (if home q then [(if g_wh_update then WR else RD, wh); (RD, d)] else [])); [exact Hok|by apply customer_here|exact Hr1|destruct (home q); cbn; lia|cbn; lia|exact Hat]|].
  cbn beta. intros ? s' [-> Hat']. split; [done|]. exists (Some c). rewrite (customer_writes_same h) in Hat' by done. exact Hat'.
Qed.

(** C15. A payment under Calvin.  At every node, whichever of the warehouse
    and the customer it has: the locks that it takes beforehand are those of
    the rows that it then accesses, and those of the rows that it writes are
    exclusive; phases 2 and 5 run through and leave the database of the node
    with the payment's writes to the rows that the node has, and with one
    history row to be inserted where the customer is; and the writes of the two
    nodes together are those of the specification. *)
Theorem calvin_payment (h : db) (q : TPCCQuery) (wh d c : Z) (ls : LockSt) (s : TpccSt)
    (Hok : payment_at h q wh d c) (Haccesses : (3 <= max_accesses)%nat) (Hinserts : (1 <= max_inserts)%nat)
    (Hnew : new_txn ls) (Hreq : requests ls = []) (Hlq : query (tpcc ls) = q)
    (Hsim : sim n0 h [] [] (txn s)) (Hq : query s = q) :
  wp acquire_locks (fun _ ls' => requests ls' = payment_locks q wh d c) ls /\
  wp (_ ← run_tpcc_phase2; run_tpcc_phase5)
    (fun rc s' => rc = RCOK /\
       sim n0 (hput_list h (payment_part h q wh d c)) (if at_customer q then [history_row q] else [])
         (payment_accesses q wh d c) (txn s')) s /\
  (forall x, x ∈ payment_accesses q wh d c -> x.2 ∈ (payment_locks q wh d c).*1) /\
  (forall w, w ∈ payment_part h q wh d c -> (w.1.1, LOCK_EX) ∈ payment_locks q wh d c) /\
  payment_writes g_wh_update h wh d c (q_h_amount q) =
    home_writes g_wh_update h wh d (q_h_amount q) ++ customer_writes h c (q_h_amount q).
Proof.
  split_and!.
  - by eapply acquire_payment_ok.
  - eapply wp_mono; [eapply (payment_phases_ok h q wh d c (state s) (row s) (next_item_id s)); [done..|]|].
    + exists (txn s), (out s). rewrite <- Hq. by destruct s.
    + cbn beta. intros ? s' [-> (rw' & t & o & -> & Hs)]. by split.
  - intros x. unfold payment_accesses, payment_locks. destruct (home q), (at_customer q), g_wh_update; cbn; set_solver.
  - intros w. unfold payment_part, payment_locks, home_writes, customer_writes.
    destruct (home q), (at_customer q), g_wh_update; cbn; set_solver.
  - unfold payment_writes, home_writes, customer_writes. by destruct g_wh_update.
Qed.
End Payment.

(** ** New order *)

Section NewOrder.
Context `{!Config} `{!RowIndex}.
Context (junk : nat -> Z) (max_accesses max_inserts : nat).
Context (g_dist_per_wh g_cust_per_dist g_max_items g_num_wh g_part_cnt : Z) (g_wh_update : bool).
Context (GET_NODE_ID : Z -> Z) (row_id : Z).
Context (calvin : CC_ALG = CC_CALVIN) (parts_ok : g_part_cnt <= g_num_wh).

Abbreviation here := (here g_part_cnt GET_NODE_ID).
Abbreviation run_tpcc_phase2 := (TpccCalvin.run_tpcc_phase2 junk max_accesses g_dist_per_wh g_cust_per_dist
  g_num_wh g_part_cnt GET_NODE_ID).
Abbreviation run_tpcc_phase5 := (TpccCalvin.run_tpcc_phase5 junk max_accesses max_inserts g_dist_per_wh g_cust_per_dist
  g_max_items g_num_wh g_part_cnt g_wh_update GET_NODE_ID row_id).

(** Phase 2 changes neither rows nor the parameters that phase 5 uses; and it
    leaves the local reference where the last access put it. *)
Definition read_only (s s' : TpccSt) : Prop :=
  heap (txn s') = heap (txn s) /\ q_txn_type (query s') = q_txn_type (query s) /\ q_w_id (query s') = q_w_id (query s).
Definition reads_only {A} (m : TP A) : Prop := forall s, wlp m (fun _ s' => read_only s s') s.

Lemma read_only_trans s1 s2 s3 : read_only s1 s2 -> read_only s2 s3 -> read_only s1 s3.
Proof. intros (? & ? & ?) (? & ? & ?). split_and!; congruence. Qed.
Lemma reads_only_bind {A B} (m : TP A) (k : A -> TP B) : reads_only m -> (forall a, reads_only (k a)) -> reads_only (a ← m; k a).
Proof.
  intros Hm Hk s. apply wlp_bind. eapply wlp_mono; [apply Hm|]. intros a s' Hs. eapply wlp_mono; [apply Hk|].
  intros b s2 Hs2. exact (read_only_trans _ _ _ Hs Hs2).
Qed.
Lemma reads_only_ret {A} (a : A) : reads_only (mret a).
Proof. by intros s. Qed.
Lemma reads_slift {A} (r : res A) : reads_only (slift r).
Proof. intros s. by wlp_step. Qed.
Lemma reads_deref {A} (o : option A) : reads_only (deref o).
Proof. intros s. by wlp_step. Qed.
Lemma reads_sassert b : reads_only (sassert b).
Proof. intros s. by wlp_step. Qed.
Lemma reads_sget : reads_only sget.
Proof. by intros s. Qed.
Lemma reads_get_field r c : reads_only (get_field r c).
Proof.
  intros s. apply wlp_on_txn. unfold fetch, load. repeat wlp_step. by destruct s.
Qed.

(** The reference is to the row that was asked for. *)
Lemma get_row_into_row r type s :
  wlp (get_row_into junk max_accesses r type) (fun _ s' => read_only s s' /\ row s' = Some r) s.
Proof.
  unfold get_row_into. wlp_step. apply wlp_on_txn. unfold TxnAccess.get_row. do 2 wlp_step.
  rewrite (cc_is_calvin _ calvin), bool_decide_eq_false_2 by done. rewrite (row_get_row_calvin junk r type calvin).
  do 2 wlp_step. cbn [fst snd]. rewrite (decide_False (P := RCOK = Abort \/ _)) by (by intros []).
  wlp_step. unfold make_undo. rewrite (cc_calvin _ calvin). rewrite bool_decide_eq_false_2 by
    (rewrite list_elem_of_In; cbn; intuition discriminate). cbn [andb]. wlp_step. unfold push_access.
  repeat wlp_step. done.
Qed.
Lemma reads_get_row_into r type : reads_only (get_row_into junk max_accesses r type).
Proof. intros s. eapply wlp_mono; [apply get_row_into_row|]. by intros ? ? [? _]. Qed.

#[local] Ltac reads_tac :=
  repeat first [apply reads_only_ret | apply reads_slift | apply reads_deref | apply reads_sassert | apply reads_sget
    | apply reads_get_field | apply reads_get_row_into | apply reads_only_bind; intros].

(** The local reference is to a row of the item table. *)
Definition at_item (s : TpccSt) : Prop :=
  exists r y, row s = Some r /\ heap (txn s) !! r = Some y /\ table y = t_item.

(** Every row that the index of items leads to is a row of the item table. *)
Definition items_indexed (s : TpccSt) : Prop :=
  forall key r l, index_read i_item key 0 = Ok (r :: l) -> exists y, heap (txn s) !! r = Some y /\ table y = t_item.

Lemma new_order_7_same s : wlp new_order_7 (fun _ s' => s' = s) s.
Proof.
  unfold new_order_7, local_row, get_field. repeat wlp_step. apply wlp_on_txn. unfold fetch, load. repeat wlp_step.
  by destruct s.
Qed.

Lemma read_item_row s x : items_indexed s ->
  wlp (_ ← new_order_6 junk max_accesses (ol_i_id x); new_order_7) (fun _ s' => read_only s s' /\ at_item s') s.
Proof.
  intros Hi. wlp_step. unfold new_order_6, read_index. repeat wlp_step.
  match goal with E : index_read _ _ _ = Ok ?l |- _ => destruct l as [|r l]; [done|]; pose proof (Hi _ _ _ E) as (y & Ey & Ht) end.
  unfold first_row. cbn [head]. wlp_step. simplify_eq. eapply wlp_mono; [apply get_row_into_row|].
  intros ? s1 [Hro Erow]. eapply wlp_mono; [apply new_order_7_same|]. intros ? s2 ->. split; [done|].
  do 2 eexists. split_and!; [exact Erow| |exact Ht]. destruct Hro as (-> & _). exact Ey.
Qed.

Lemma items_indexed_same s s' : read_only s s' -> items_indexed s -> items_indexed s'.
Proof. intros (E & _) Hi. unfold items_indexed. by rewrite E. Qed.

(** An item of this node among those from [i] on. *)
Definition local_item (q : TPCCQuery) (i : Z) (n : nat) : Prop :=
  exists k x, i <= k < i + Z.of_nat n /\ CArray.get (q_items q) k = Ok x /\ here (ol_supply_w_id x).

Lemma read_items_row q n : forall rc i s, items_indexed s -> local_item q i n \/ at_item s ->
  wlp (read_items junk max_accesses g_num_wh g_part_cnt GET_NODE_ID q rc i n)
    (fun _ s' => read_only s s' /\ at_item s') s.
Proof.
  induction n as [|n IH]; intros rc i s Hi Hat; cbn [read_items].
  - wlp_step. split; [done|]. destruct Hat as [(k & x & Hk & _)|]; [lia|done].
  - wlp_step. apply wlp_slift. intros x Ex. wlp_step. apply wlp_slift. intros loc Eloc.
    rewrite wh_local_eq in Eloc by done. injection Eloc as <-. wlp_step.
    destruct (GET_NODE_ID _ =? g_node_id) eqn:Hloc.
    + eapply wlp_mono; [by apply read_item_row|]. intros rc1 s1 [Hro Hat1].
      eapply wlp_mono; [apply IH; [by eapply items_indexed_same|by right]|]. intros ? s2 [Hro2 Hat2].
      split; [|done]. exact (read_only_trans _ _ _ Hro Hro2).
    + wlp_step. apply IH; [done|]. destruct Hat as [(k & y & Hk & Ek & Hy)|]; [|by right].
      left. exists k, y. destruct (decide (k = i)) as [->|]; [|split_and!; [lia..|done|done]].
      exfalso. rewrite Ex in Ek. injection Ek as ->. apply Z.eqb_neq in Hloc. done.
Qed.

(** The next order number of a row of the item table. *)
Lemma item_has_no_order_number y : table y = t_item -> get_value_u64 D_NEXT_O_ID y = AssertFail.
Proof. intros Ht. unfold get_value_u64, read_at, get_field_index, field. by rewrite Ht. Qed.

Lemma new_order_5_fails w d c remote n e s : at_item s ->
  wlp (new_order_5 junk max_inserts g_num_wh g_part_cnt row_id w d c remote n e) (fun _ _ => False) s.
Proof.
  intros (r & y & Er & Ey & Ht). unfold new_order_5, local_row, get_field. repeat wlp_step. simplify_eq.
  apply wlp_on_txn. unfold fetch, load. wlp_step. wlp_step. repeat wlp_step. simplify_eq.
  match goal with E : get_value_u64 _ _ = Ok _ |- _ => by rewrite item_has_no_order_number in E end.
Qed.

(** C30. A new order under Calvin whose warehouse and one of whose items are
    at the same node never gets through phase 5 there: phase 2 leaves the
    local reference at a row of the item table, and phase 5 takes the next
    order number from a column that this table does not have.  This holds for
    every database and every index that leads from item numbers to rows of the
    item table. *)
Theorem calvin_new_order_fails (q : TPCCQuery) (s : TpccSt) (k : Z) (x : Item_no)
    (Htype : q_txn_type q = TPCC_NEW_ORDER) (Hhome : here (q_w_id q))
    (Hk : 0 <= k < q_ol_cnt q) (Hitem : CArray.get (q_items q) k = Ok x) (Hlocal : here (ol_supply_w_id x))
    (Hindex : items_indexed s) (Hq : query s = q) :
  wlp (_ ← run_tpcc_phase2; run_tpcc_phase5) (fun _ _ => False) s.
Proof.
  wlp_step. apply wlp_mono with (P := fun _ s' => read_only s s' /\ at_item s').
  - unfold TpccCalvin.run_tpcc_phase2. repeat wlp_step. rewrite Hq, Htype. cbn [Z.eqb Pos.eqb TPCC_PAYMENT TPCC_NEW_ORDER].
    wlp_step. eapply wlp_mono.
    { assert (reads_only (if (a : bool) then
            _ ← new_order_0 junk max_accesses g_num_wh g_part_cnt (q_w_id q);
            _ ← new_order_1;
            _ ← new_order_2 junk max_accesses g_dist_per_wh g_cust_per_dist g_num_wh g_part_cnt
                  (q_w_id q) (q_d_id q) (q_c_id q);
            _ ← new_order_3;
            rc ← new_order_4 junk max_accesses g_dist_per_wh g_num_wh g_part_cnt (q_w_id q) (q_d_id q);
            r ← local_row;
            o ← get_field r D_NEXT_O_ID;
            smod (fun s => set_query (set_o_id o (query s)) s);;;
            mret rc
          else mret RCOK)) as Hr; [|apply Hr].
      destruct a; [|reads_tac].
      unfold new_order_0, new_order_1, new_order_2, new_order_3, new_order_4, local_row, read_index, first_row. reads_tac. }
    intros rc s1 Hro. eapply wlp_mono; [apply read_items_row; [exact (items_indexed_same _ _ Hro Hindex)|]|].
    + left. exists k, x. split_and!; [lia..|done|done].
    + intros ? s2 [Hro2 Hat]. split; [|done]. exact (read_only_trans _ _ _ Hro Hro2).
  - intros ? s1 [(Eh & Et & Ew) Hat]. unfold TpccCalvin.run_tpcc_phase5. do 4 wlp_step. wlp_step. apply wlp_slift.
    rewrite Ew, Hq. intros w_loc Ew'. rewrite wh_local_eq in Ew' by done. injection Ew' as <-.
    rewrite (proj2 (Z.eqb_eq _ _) Hhome). do 2 wlp_step. rewrite Et, Hq, Htype.
    cbn [Z.eqb Pos.eqb TPCC_PAYMENT TPCC_NEW_ORDER]. wlp_step. eapply wlp_mono; [by apply new_order_5_fails|]. done.
Qed.
End NewOrder.
