(* ===== verification/TpccCalvinExample.v ===== *)
(** * TpccCalvinExample: TPC-C under Calvin on concrete databases

    Two nodes, each with a warehouse; a payment at the first by a customer of
    the second, and a new order at the first. *)

From stdpp Require Import base tactics numbers list gmap strings relations.
From Stdlib Require Import ZArith Lia.
From S2P Require Import Prelude Wire CArray Message QueryMessage RowData TxnAccess TxnUndo TpccKeys TpccQuery TpccQueryFacts.
From S2P Require Import TpccSchema TpccTxn TpccSpec TpccRefine TpccEffects TpccExample.
From S2P Require Import CalvinExec CalvinRendezvous TpccCalvin TpccCalvinFacts.
#[local] Open Scope Z_scope.

Module TwoNodes.
Definition config (i : Z) : Config :=
  {| CC_ALG := CC_CALVIN; WORKLOAD := WL_TPCC; g_node_id := i; g_node_cnt := 2;
     g_client_node_cnt := 1; g_repl_cnt := 0; g_synth_table_size := 1024; g_req_per_query := 10;
     g_msg_size := 4096; g_msg_time_limit := 0; myrand_next := fun k => k |}.
#[local] Existing Instance Database.index.

(** Warehouse 1 is at node 0 and warehouse 2 at node 1; the rows have the
    same addresses everywhere. *)
Definition payment : TPCCQuery :=
  mkTPCCQ TPCC_PAYMENT 1 1 1 1 2 1 [] Database.ten false CArray.new false false 0 0 0 0 [0] [].
Definition new_order : TPCCQuery :=
  mkTPCCQ TPCC_NEW_ORDER 1 1 1 0 0 0 [] 0 false (CArray.mkArray [Database.x] 10) true true 1 2013 0 0 [0] [].

(** The state of a stored procedure after its locks, and before. *)
Definition txn_with (rows : list Z) : TxnSt := mkTxnSt Database.h 10 [] 0 0 [] rows None RD [] [].
Definition locked (q : TPCCQuery) (rows : list Z) : TpccSt := mkTpcc (txn_with rows) q TPCC_PAYMENT0 None 0 [].

(** The second lock has to wait, and is granted at once. *)
Definition arrived (q : TPCCQuery) (l : list Answer) (g : list nat) : LockSt :=
  mkLockSt (mkTpcc (mkTxnSt Database.h 10 [] 0 0 [] [] None RD l []) q TPCC_PAYMENT0 None 0 []) false 0 true [] 0 g 0 0.
Definition granted : Answer := mkAnswer RCOK None.
Definition waits : Answer := mkAnswer WAIT None.

Abbreviation lock i := (@lock_and_enqueue (config i) Database.index 5 10 3000 1000 2 2 true (fun p => p) false).
Abbreviation phase2 i := (@run_tpcc_phase2 (config i) Database.index (fun _ => 0) 5 10 3000 2 2 (fun p => p)).
Abbreviation phase5 i :=
  (@run_tpcc_phase5 (config i) Database.index (fun _ => 0) 5 3 10 3000 1000 2 2 true (fun p => p) 0).

(** The payment at node 0 arrives; and what the lock thread makes of it. *)
Definition paying (g : list nat) : LockSt := arrived payment [granted; waits] g.
Definition after_locks (g : list nat) : LockSt :=
  match lock 0 (paying g) with Ok (_, s1) => s1 | AssertFail => paying g end.
Lemma after_locks_eq g :
  match lock 0 (paying g) with Ok _ => true | AssertFail => false end = true -> lock 0 (paying g) = Ok (tt, after_locks g).
Proof. unfold after_locks. by destruct (lock 0 (paying g)) as [[[] ?]|]. Qed.

(** ** The payment as a workload of [CalvinRendezvous] *)

Definition parts (i : Z) (w : TpccSt) (p a : Array Z) : res (Array Z * Array Z * Z) :=
  TpccQuery.get_participants 2 2 2 (fun p => p) (query w) p a.
Definition release (i : Z) : TP unit := on_txn (@cleanup (config i) RCOK).
Definition init (i : Z) : TpccSt := locked payment (if i =? 0 then [1; 2] else [3]).
Definition base (i : Z) : Message := mkMessage RFWD 7 1 0 0 0 0 0 0 0 0 0 0 0.
Definition o_id (w : TpccSt) : Z := q_o_id (query w).

Definition result {A} (m : TP A) (w : TpccSt) : TpccSt := match m w with Ok (_, w') => w' | AssertFail => w end.
Definition returns (m : TP RC) (w : TpccSt) : bool := match m w with Ok (RCOK, _) => true | _ => false end.
Definition ends (m : TP unit) (w : TpccSt) : bool := match m w with Ok _ => true | _ => false end.
Lemma returns_result m w : returns m w = true -> m w = Ok (RCOK, result m w).
Proof. unfold returns, result. by destruct (m w) as [[[] ?]|]. Qed.
Lemma ends_result m w : ends m w = true -> m w = Ok (tt, result m w).
Proof. unfold ends, result. by destruct (m w) as [[[] ?]|]. Qed.

Definition w1 (i : Z) : TpccSt := result (phase2 i) (init i).
Definition w2 (i : Z) : TpccSt := result (phase5 i) (w1 i).
Definition w3 (i : Z) : TpccSt := result (release i) (w2 i).
Definition both : Array Z := CArray.mkArray [1; 1] 2.

Lemma two_cases (Q : Z -> Prop) : Q 0 -> Q 1 -> forall i, i ∈ [0; 1] -> Q i.
Proof. intros H0 H1 i Hi. repeat (apply elem_of_cons in Hi as [->|Hi]; [done|]). by apply not_elem_of_nil in Hi. Qed.

Lemma in0 : 0 ∈ [0; 1]. Proof. left. Qed.
Lemma in1 : 1 ∈ [0; 1]. Proof. right. left. Qed.
Lemma ok : workload_ok 2 [0; 1] config parts (fun i => phase2 i) (fun i => phase5 i) release false init 0
  w1 w2 w3 (fun _ => both) (fun _ => both).
Proof.
  split.
  - by intros.
  - by intros.
  - by intros.
  - by intros.
  - repeat constructor; set_solver.
  - repeat constructor; lia.
  - lia.
  - lia.
  - apply two_cases; by vm_compute.
  - by intros.
  - by intros.
  - apply two_cases; apply returns_result; by vm_compute.
  - apply two_cases; apply returns_result; by vm_compute.
  - apply two_cases; apply ends_result; by vm_compute.
Qed.

Abbreviation step :=
  (rendezvous_step 2 [0; 1] config parts (fun i => phase2 i) (fun i => phase5 i) release o_id base false init 77 0).
Abbreviation start := (start_sys 2 init 77 0).

(** A run: the nodes that start, and the messages that arrive, by number. *)
Inductive event := Start (i : Z) | Deliver (k : nat).
Definition happens (e : event) (s : Sys) : res (@Sys TpccSt) :=
  match e with
  | Start i =>
      assert! (bool_decide (i ∈ [0; 1]) && negb (begun s i));
      start_node 2 config parts (fun i => phase2 i) (fun i => phase5 i) release o_id base false init 77 0 i s
  | Deliver k =>
      match net s !! k with
      | Some (i, m) =>
          deliver 2 config parts (fun i => phase2 i) (fun i => phase5 i) release o_id base false init 77 0 i m
            (take k (net s) ++ drop (S k) (net s)) s
      | None => AssertFail
      end
  end.
Fixpoint run (l : list event) (s : Sys) : res (@Sys TpccSt) :=
  match l with [] => Ok s | e :: l' => s' ← happens e s; run l' s' end.

Lemma happens_step e s s' : happens e s = Ok s' -> step s s'.
Proof.
  destruct e as [i|k]; cbn.
  - destruct (bool_decide _ && _) eqn:E; [|done]. cbn. apply andb_true_iff in E as [Hi%bool_decide_eq_true Hb%negb_true_iff].
    intros. by eapply step_start.
  - destruct (net s !! k) as [[i m]|] eqn:E; [|done]. intros. eapply step_deliver; [|done]. by rewrite take_drop_middle.
Qed.
Lemma run_steps l : forall s s', run l s = Ok s' -> nsteps step (length l) s s'.
Proof.
  induction l as [|e l IH]; intros s s' E; cbn in *; [injection E as ->; constructor|].
  destruct (happens e s) as [s1|] eqn:E1; [|done]. econstructor; [by apply happens_step in E1|by apply IH].
Qed.
Definition final (l : list event) : @Sys TpccSt := match run l start with Ok s => s | AssertFail => start end.
Lemma final_steps l : match run l start with Ok _ => true | AssertFail => false end = true -> nsteps step (length l) start (final l).
Proof. unfold final. destruct (run l start) eqn:E; [|done]. intros _. by apply run_steps. Qed.

(** Node 1 gets the message of node 0 before it starts. *)
Definition early : list event := [Start 0; Deliver 0; Start 1].
Definition complete : list event := early ++ [Deliver 0].
Lemma stuck s : net s = [] -> begun s 0 = true -> begun s 1 = true -> forall s', ~ step s s'.
Proof.
  intros En Hb0 Hb1 s' Hs'.
  assert (forall i, i ∈ [0; 1] -> begun s i = true) as Hb by (by apply (two_cases (fun i => begun s i = true))).
  destruct Hs' as [i t t' Hi Hf _|i m l1 l2 t t' El _].
  - by rewrite (Hb i Hi) in Hf.
  - rewrite En in El. by destruct l1.
Qed.
End TwoNodes.



(** The lock thread at node 0: the district is not free, and is granted before
    the thread is through, or not. *)
Lemma calvin_starts_once_witness :
  waiting (TwoNodes.after_locks []) = 1%nat /\ started (TwoNodes.after_locks []) = 0%nat /\
  (exists s2, grant_all 1 (TwoNodes.after_locks []) = Ok (tt, s2) /\ started s2 = 1%nat) /\
  waiting (TwoNodes.after_locks [0; 0; 1]%nat) = 0%nat /\ started (TwoNodes.after_locks [0; 0; 1]%nat) = 1%nat.
Proof.
  assert (forall g, new_txn (TwoNodes.paying g)) as Hnew.
  { intros g. split_and!; try done. apply Forall_cons; split; [by left|]. apply Forall_singleton. by right. }
  assert (forall g k, match TwoNodes.lock 0 (TwoNodes.paying g) with Ok _ => true | AssertFail => false end = true ->
    (k <= waiting (TwoNodes.after_locks g))%nat ->
    wp (grant_all k) (fun _ s2 => started s2 = (if decide (k = waiting (TwoNodes.after_locks g)) then 1 else 0)%nat)
      (TwoNodes.after_locks g)) as Hw.
  { intros g k E%TwoNodes.after_locks_eq Hk.
    pose proof (@calvin_starts_once (TwoNodes.config 0) Database.index 5 10 3000 1000 2 2 true (fun p => p)
      eq_refl ltac:(lia) (TwoNodes.paying g) (Hnew g)) as Hs. unfold wlp in Hs. rewrite E in Hs.
    eapply wp_mono; [exact (Hs k Hk)|]. by intros [] s2 (_ & ? & _). }
  assert (waiting (TwoNodes.after_locks []) = 1%nat) as E1 by (vm_compute; reflexivity).
  assert (waiting (TwoNodes.after_locks [0; 0; 1]%nat) = 0%nat) as E2 by (vm_compute; reflexivity).
  split; [exact E1|]. split.
  { pose proof (Hw [] 0%nat ltac:(vm_compute; reflexivity) ltac:(lia)) as H. rewrite E1 in H. exact H. }
  split.
  { pose proof (Hw [] 1%nat ltac:(vm_compute; reflexivity) ltac:(lia)) as H. rewrite E1 in H.
    destruct (wp_inv _ _ _ H) as ([] & s2 & E & Hst). by exists s2. }
  split; [exact E2|].
  pose proof (Hw [0; 0; 1]%nat 0%nat ltac:(vm_compute; reflexivity) ltac:(lia)) as H. rewrite E2 in H. exact H.
Defined.

(** The new order of [TpccExample], under Calvin: the item is at hand, and the
    node fails. *)
Lemma calvin_new_order_fails_witness :
  (_ ← TwoNodes.phase2 0; TwoNodes.phase5 0) (TwoNodes.locked TwoNodes.new_order [1; 3; 2; 4; 5]) = AssertFail.
Proof.
  assert (wlp (_ ← TwoNodes.phase2 0; TwoNodes.phase5 0) (fun _ _ => False)
    (TwoNodes.locked TwoNodes.new_order [1; 3; 2; 4; 5])) as Hw.
  { apply (@calvin_new_order_fails (TwoNodes.config 0) Database.index (fun _ => 0) 5 3 10 3000 1000 2 2 true (fun p => p) 0
      eq_refl ltac:(lia) TwoNodes.new_order _ 0 Database.x); try reflexivity; [cbn; lia|].
    intros key r l [= <- <-]. exists (Database.row t_item). split; reflexivity. }
  unfold wlp in Hw. by destruct ((_ ← TwoNodes.phase2 0; TwoNodes.phase5 0) _) as [[]|].
Defined.

(** The two parts of the payment between the nodes. *)
Lemma calvin_payment_witness :
  exists s0 s1,
    (_ ← TwoNodes.phase2 0; TwoNodes.phase5 0) (TwoNodes.init 0) = Ok (RCOK, s0) /\
    (_ ← TwoNodes.phase2 1; TwoNodes.phase5 1) (TwoNodes.init 1) = Ok (RCOK, s1) /\
    hget (heap (txn s0)) 1 W_YTD = Database.ten /\ hget (heap (txn s0)) 2 D_YTD = Database.ten /\
    hget (heap (txn s1)) 3 C_BALANCE = f64_sub 0 Database.ten /\
    length (insert_rows (txn s0)) = 0%nat /\ length (insert_rows (txn s1)) = 1%nat.
Proof.
  assert (forall i, i = 0 \/ i = 1 ->
    @payment_at (TwoNodes.config i) Database.index 10 3000 2 (fun p => p) Database.h TwoNodes.payment 1 2 3) as Hok.
  { pose proof Database.h_rows as (H1 & H2 & H3). intros i Hi. split; [done|by apply (bool_decide_unpack _); vm_compute| |].
    - intros _. split_and!; [by eexists|by eexists|done|done].
    - intros _. split; [by eexists|done]. }
  assert (forall i, sim 10 Database.h [] [] (txn (TwoNodes.init i))) as Hsim.
  { intros i. pose proof Database.t0_sim as Hs. split; [done|apply Hs|done|constructor|done|constructor]. }
  assert (new_txn (TwoNodes.arrived TwoNodes.payment [] [])) as Hnew by (split_and!; try reflexivity; constructor).
  pose proof (fun i Hi => @calvin_payment (TwoNodes.config i) Database.index (fun _ => 0) 5 3 10 3000 1000 2 2 true
    (fun p => p) 0 eq_refl ltac:(lia) ltac:(lia) 10 Database.h TwoNodes.payment 1 2 3
    (TwoNodes.arrived TwoNodes.payment [] []) (TwoNodes.init i) (Hok i Hi) ltac:(lia) ltac:(lia)
    Hnew eq_refl eq_refl (Hsim i) eq_refl) as Hp.
  destruct (Hp 0 ltac:(by left)) as (_ & Hw0 & _), (Hp 1 ltac:(by right)) as (_ & Hw1 & _).
  destruct (wp_inv _ _ _ Hw0) as (r0 & s0 & E0 & -> & Hs0), (wp_inv _ _ _ Hw1) as (r1 & s1 & E1 & -> & Hs1).
  exists s0, s1. split; [exact E0|]. split; [exact E1|]. unfold hget.
  rewrite !(sim_heap _ _ _ _ _ Hs0), !(sim_heap _ _ _ _ _ Hs1) by done.
  rewrite <- (Forall2_length _ _ _ (sim_ins _ _ _ _ _ Hs0)), <- (Forall2_length _ _ _ (sim_ins _ _ _ _ _ Hs1)).
  clear. split; [vm_compute; reflexivity|]. split; [vm_compute; reflexivity|]. split; [vm_compute; reflexivity|].
  split; vm_compute; reflexivity.
Defined.
